(* ===== verification/_CoqProject ===== *)
-Q . S2P
Prelude.v
KMem.v
KallocV2.v
KallocV1.v
Spinlock.v
ProcData.v
Mlq.v
Proc.v
Blocks.v
Bio.v
Log.v
CText.v
HashMap.v
MapReduce.v
Txn.v
Fs.v
FileData.v
FileOps.v
Files.v
Sysfile.v
Shell.v
Fscheck.v
Utilities.v
PageAlloc.v
Vm.v
VmTree.v
VmSpec.v
VmOps.v
AddressSpace.v
UserMem.v
UserSpace.v
KallocSort.v
OpenFileCalls.v
Grep.v
Umalloc.v
Exec.v
Console.v
Kbd.v
Printf.v
DirOps.v
Sh.v
Runcmd.v
