(* ===== verification/Prelude.v ===== *)
(** * A verification of the course projects of this repository

    The repository holds the projects of an operating systems course: variants of
    the xv6 kernel (a multi-level-queue scheduler, page allocators that resist
    Rowhammer, a file system with symbolic links), and user programs for Unix (a
    shell, a MapReduce library, a file-system checker, small utilities).  This library models
    the parts where the projects' own logic is and proves what makes them correct,
    or shows where they are not.

    ** The execution model (this file)

    C code is a function in the monad [M S]: it takes a state [S] and returns
    ([Ret]), stops the kernel ([Panic], a call of panic), does something C leaves
    undefined or the model cannot follow (a wild read, an index out of bounds:
    [Fault]), gives up the CPU or waits ([Block]), or exhausts its fuel ([Diverge]).
    [wp m Q s] says that [m] from [s] returns a result and a state in [Q]; it is a
    total-correctness statement, which excludes the other four outcomes.
    [pc] is the partial version that also follows [Block].  Machine integers
    are [Z] with the conversions [u8] to [s32] written where C converts.  The
    hint databases and tactics ([wp_steps], [set_fast]) are shared by all files.

    ** Parts, files and sources

    - Page allocators: [KMem] (physical memory, the free list as a chain of first
      words, the owner table pg2pid), [KallocV2] (src/05_xv6_memory_safe_allocation/src/v2-sort/kalloc.c,
      all functions), [KallocV1] (v1a and v1b), [KallocSort] (v1a-sort).  Theorems: the
      allocator of v2-sort keeps neighbouring frames of different processes apart over any history of
      calls; which page it returns; freeing undoes allocating; the guards of kfree; what boot builds; the
      run out of memory, which is a wild write.  The guard pages of v1a, v1b and v1a-sort hold for the 64 MB that
      pg2pid covers and for calls one after the other; the frames below get none.
    - Virtual memory (v2-sort/vm.c): [PageAlloc] (the interface [PageAllocator] and what it promises,
      [PageAllocatorLaws]; [KallocV2] is the instance), [Vm] (the code), [VmTree] (page tables as a partial map),
      [VmSpec], [VmOps], [AddressSpace], [UserMem] (what each operation does to that map, to the user's bytes and to all
      other pages), [UserSpace] (the promises: fork's copy, growing, copyout, nothing leaks, neighbours stay apart).
      [Exec] (exec.c, loaduvm): on every path exec leaves files and pages as they were, or the process has the
      program that the file asks for, with its arguments on the stack.
    - Spin locks: [Spinlock] (spinlock.c, mycpu).  Mutual exclusion under any
      interleaving of CPUs at the granularity of the atomic instructions;
      acquire and release restore the interrupt state.
    - Scheduler: [ProcData] (proc.h of 04_xv6_scheduling), [Mlq] (the four queues:
      put_tail_q, rm_from_q, refresh_q, setpri, getpri, pstat), [Proc] (the rest of proc.c).
      The queues as linked nodes refine lists of processes; round robin with the
      right slices; strict priority in every state of a one-CPU system that is reached without setpri on the tail of a
      longer queue (or of a process on itself into a queue that is not empty), which breaks the queues; what setpri does
      there and here; the queue nodes that fork2 loses when memory runs out.
    - Disk: [Blocks] (the interface: [BufferCache], its operations, and
      [BufferCacheLaws], what they promise), [Bio] (bio.c, sleeplock.c, ide.c: an instance
      of it, over two drives that the last bit of the device number selects), [Log] (log.c, against the interface only).  The
      cache refines a plain store of the blocks of devices 1 and 2; LRU replacement; a commit is atomic at every crash point and recovery
      can crash and start again; the bounds of the log.
    - File system: [Txn] (the interface [Transactions] to buffers and log, its laws), [Fs] (fs.c with
      symbolic links, the string functions it uses), [FileData] and [FileOps] (what balloc, bmap, readi,
      writei and iupdate do to the bitmap, the block pointers and the content of files), [DirOps] (directories),
      [Files] (file.c, pipe.c), [Sysfile] (sysfile.c and the argument fetching of syscall.c).  readi and writei refine
      operations on the list of a file's bytes; a directory refines a finite map from names to inode numbers;
      a pipe refines a bounded queue; the path loop sees the path's elements; system call arguments are checked exactly.
    - Console: [Console] (console.c: the line editor, the readers, the screen), [Printf] (its formatted output), [Kbd]
      (kbd.c).  The console refines a terminal on lists and endless paper; what is typed on the keys is what the reader
      gets; cprintf prints numerals with the right values.
    - System calls on open files: [OpenFileCalls] (what 02_New_SysCall adds to sysproc.c and proc.c).
    - User programs of xv6: [Umalloc] (umalloc.c: blocks never overlap, everything is merged again), [Grep] (grep.c:
      the matcher against the language of the pattern, the lines that are printed), [Sh] (sh.c: the parser and the grammar of
      commands agree on every line), [Runcmd] (the rest of sh.c: a process is the tree of its system calls; what a session
      starts and prints, for every input and whatever the kernel refuses).
    - File-system checker: [Fscheck] (PartB/fscheck.c): what it accepts, among the images that
      it looks at far enough (nothing out of range, no symbolic links, directories of one block), is exactly the consistent
      ones; a consistent image that it rejects.
    - MapReduce: [HashMap] (the string map of mapreduce.c) refines finite maps;
      [MapReduce] (the rest of mapreduce.c, wordcount.c, sort.c): any interleaving of
      the mapper threads puts every pair in its partition, and a partition is
      reduced with each key once and exactly its values.
    - Shell: [Shell] (mysh.c): what is printed as a command is read back and started as meant; what goes wrong
      for some lines and at the end.
    - Unix utilities: [CText] (reading lines, C strings), [Utilities] (my-look.c, across.c, my-diff.c): what the
      programs print on text files, and where they leave their buffers.

    ** Interaction

    [Proc] runs [Mlq]'s refresh_q and choice inside its scheduler and takes the rest of the
    kernel (memory, files, traps) as a class [Services] whose operations do not
    touch the process table.  [Log] runs on any [BufferCache] with
    [BufferCacheLaws]; [Bio] provides the instance.  [Vm] runs on any [PageAllocator] with
    [PageAllocatorLaws]; [KallocV2] provides the instance, so that the allocator's isolation of processes carries over to fork
    ([UserSpace.copyuvm_keeps_isolation]).  [Exec] is proved against that interface and against [ProgramFiles],
    what it needs of the file system; [Fs] has these operations, and the laws assumed of them have a small file system as
    their witness, not [Fs].  [KallocSort] uses [KallocV2]'s ordered insertion; [OpenFileCalls] uses [Sysfile]'s argument fetching and
    fdalloc; [Kbd] feeds [Console], whose readers' turns are those of [Files].  [Fs], [Files] and
    [Sysfile] are written against [Transactions], of which [Log] over any cache is an instance; their states are
    nested records and each file lifts the operations of the one below.  [FileOps] and [DirOps] are proved for every
    layer with [TransactionLaws], which [Log] over any cache with [BufferCacheLaws] has; the bound on
    the blocks that a write logs (10 for the pieces of filewrite) is the MAXOPBLOCKS that [Log]'s admission assumes.  [Runcmd] runs what [Sh]
    parses, through the nodes on the heap; its kernel is a record of choices, of which the theorem about a session holds for
    all.  [MapReduce] uses
    [HashMap]'s specification of sets and gets for the key index of a partition.

    ** Bounds and fuel

    Loops that follow pointers take fuel: the length of the list they follow, which the invariants
    bound (the free list by its chain, the queues by NPROC nodes, the buffer list by NBUF + 1, the user heap by the number of
    its headers); loops over pages, blocks or bytes take the number of rounds that the length in question allows, and
    every total theorem shows that the fuel is enough.  The nested calls of namex for symbolic links, which the code does not
    bound, are an argument.  All other recursion is structural.  Counters that the code lets wrap are reduced where C reduces
    them; theorems that need them small say so (2^29 keys, 2^61 pairs).  Where memory is exhausted kalloc may fault instead of
    returning 0; [wpe] (in [PageAlloc]) is [wp] up to these faults, which the theorems about address spaces allow.

    ** What is not modelled

    - Kernel stacks apart from the trap frame and the context; assembly and boot (entry.S, swtch.S, bootmain.c, main.c),
      hardware set-up (lapic, ioapic, mp, uart, picirq, the segment and page-directory registers in vm.c, the port programming in
      ide.c), the dispatch of traps and system calls (trap.c, the table in syscall.c), panic and procdump.
    - The time a spin lock's holder takes: in [Bio], [Log], [Proc], [Files] and [Console] a function body under a
      spin lock is one step; the disk serves one request at a time and answers at once.  kalloc of v1a-sort, which changes the list
      after it has released its lock, is one step too.  The wakeups of end_op are left to the scheduler.
    - The C library: malloc and realloc may fail as flags say ([HashMap]), qsort is a parameter that
      sorts and permutes ([MapReduce]).
    - The small programs of xv6 (ls.c, cat.c, wc.c, init.c, printf.c and others), mkfs.c, the linter under commons/.
    - The xv6 test programs (usertests.c and the project's own tests), which exercise the kernel
      from outside, and the trees of the repository that repeat the files above unchanged. *)

From stdpp Require Export prelude functions gmap strings sorting.
From Stdlib Require Export ZArith Lia.
From Stdlib Require Import FunctionalExtensionality.
#[export] Set Default Goal Selector "!".
#[global] Open Scope Z_scope.

(** * Machine integers

    C integers are [Z] with the wrap-around written out: [uN z] is the value of
    [z] converted to an unsigned N-bit type, [sN z] to a signed one. *)

Definition u8 (z : Z) : Z := z mod 2 ^ 8.
Definition u16 (z : Z) : Z := z mod 2 ^ 16.
Definition u32 (z : Z) : Z := z mod 2 ^ 32.
Definition u64 (z : Z) : Z := z mod 2 ^ 64.
Definition swrap (w z : Z) : Z :=
  let m := z mod 2 ^ w in if m <? 2 ^ (w - 1) then m else m - 2 ^ w.
Definition s8 (z : Z) : Z := swrap 8 z.
Definition s16 (z : Z) : Z := swrap 16 z.
Definition s32 (z : Z) : Z := swrap 32 z.

Lemma u32_small z : 0 <= z < 2 ^ 32 → u32 z = z.
Proof. intros. unfold u32. by apply Z.mod_small. Qed.

Lemma u32_range z : 0 <= u32 z < 2 ^ 32.
Proof. unfold u32. apply Z.mod_pos_bound. lia. Qed.

Lemma swrap_small w z : 0 < w → - 2 ^ (w - 1) <= z < 2 ^ (w - 1) → swrap w z = z.
Proof.
  intros Hw Hz. unfold swrap.
  assert (2 ^ w = 2 * 2 ^ (w - 1)) as Hp.
  { rewrite <- Z.pow_succ_r by lia. f_equal; lia. }
  assert (0 < 2 ^ (w - 1)) by (apply Z.pow_pos_nonneg; lia).
  destruct (decide (0 <= z)).
  - rewrite Z.mod_small by lia. case_match eqn:E; [done|]. apply Z.ltb_ge in E. lia.
  - rewrite <- (Z.mod_add z 1) by lia. rewrite Z.mod_small by lia.
    case_match eqn:E; [apply Z.ltb_lt in E; lia|lia].
Qed.

Lemma s32_small z : - 2 ^ 31 <= z < 2 ^ 31 → s32 z = z.
Proof. intros. apply swrap_small; lia. Qed.

Lemma swrap_range w z : 0 < w → - 2 ^ (w - 1) <= swrap w z < 2 ^ (w - 1).
Proof.
  intros Hw. unfold swrap.
  assert (2 ^ w = 2 * 2 ^ (w - 1)) as Hp.
  { rewrite <- Z.pow_succ_r by lia. f_equal; lia. }
  assert (0 < 2 ^ (w - 1)) by (apply Z.pow_pos_nonneg; lia).
  pose proof (Z.mod_pos_bound z (2 ^ w) ltac:(lia)).
  case_match eqn:E; [apply Z.ltb_lt in E|apply Z.ltb_ge in E]; lia.
Qed.

Lemma land_bit x i : 0 <= i → (Z.land x (Z.shiftl 1 i) =? 0) = negb (Z.testbit x i).
Proof.
  intros Hi. destruct (Z.testbit x i) eqn:E; simpl.
  - apply Z.eqb_neq. intros Hl. apply (f_equal (λ y, Z.testbit y i)) in Hl.
    rewrite Z.land_spec, E, Z.shiftl_1_l, Z.pow2_bits_true, Z.bits_0 in Hl by done. done.
  - apply Z.eqb_eq. apply Z.bits_inj'. intros n Hn. rewrite Z.land_spec, Z.shiftl_1_l, Z.bits_0, Z.pow2_bits_eqb by done.
    destruct (Z.eqb_spec i n) as [<-|]; [by rewrite E|by rewrite andb_false_r].
Qed.

(** * Outcomes and the state-and-failure monad

    Every stateful C function is a function from a state to an [outcome]. *)

(** What running a piece of C code ends in: it returns a value in a new state;
    it calls [panic] (or a user program calls [exit] with an error); it does
    something C leaves undefined (null or wild pointer, index out of bounds); it
    goes to sleep or spins in a state from which it alone cannot go on; or the
    fuel of a loop is used up. *)
Inductive outcome (S A : Type) : Type :=
| Ret (a : A) (s : S)
| Panic (msg : string)
| Fault (why : string)
| Block (s : S)
| Diverge.
Arguments Ret {S A} a s.
Arguments Panic {S A} msg.
Arguments Fault {S A} why.
Arguments Block {S A} s.
Arguments Diverge {S A}.

Definition M (S A : Type) : Type := S → outcome S A.

#[export] Instance M_ret {S} : MRet (M S) := λ A a s, Ret a s.
#[export] Instance M_bind {S} : MBind (M S) := λ A B f m s,
  match m s with
  | Ret a s' => f a s'
  | Panic msg => Panic msg
  | Fault why => Fault why
  | Block s' => Block s'
  | Diverge => Diverge
  end.

Definition gets {S A} (f : S → A) : M S A := λ s, Ret (f s) s.
Definition modify {S} (f : S → S) : M S () := λ s, Ret () (f s).
Definition panic {S A} (msg : string) : M S A := λ _, Panic msg.
Definition fault {S A} (why : string) : M S A := λ _, Fault why.
Definition block {S A} : M S A := λ s, Block s.
Definition diverge {S A} : M S A := λ _, Diverge.
Definition when {S} (b : bool) (m : M S ()) : M S () := if b then m else mret ().

(** A [for] loop over a fixed range whose body falls through. *)
Fixpoint mfor {S A} (l : list A) (body : A → M S ()) : M S () :=
  match l with
  | [] => mret ()
  | x :: l' => body x ;; mfor l' body
  end.

(** A [for] loop whose body may leave the loop with a value ([break] or
    [return]); [None] is falling through to the end of the range. *)
Fixpoint for_find {S A R} (l : list A) (body : A → M S (option R)) : M S (option R) :=
  match l with
  | [] => mret None
  | x :: l' =>
      r ← body x;
      match r with
      | Some v => mret (Some v)
      | None => for_find l' body
      end
  end.

(** Reading an array at an index: undefined outside its bounds. *)
Definition aget {S A} (l : list A) (i : Z) : M S A :=
  if i <? 0 then fault "array index out of bounds"
  else match l !! Z.to_nat i with
       | Some x => mret x
       | None => fault "array index out of bounds"
       end.

(** Running code on one component of a larger state. *)
Definition zoom {S T A} (get : S → T) (put : T → S → S) (m : M T A) : M S A := λ s,
  match m (get s) with
  | Ret a t => Ret a (put t s)
  | Panic msg => Panic msg
  | Fault why => Fault why
  | Block t => Block (put t s)
  | Diverge => Diverge
  end.

(** * Weakest preconditions: [wp m Q s] says that [m], run from [s], returns,
    and that [Q] holds of the result and the new state. *)
Definition wp {S A} (m : M S A) (Q : A → S → Prop) (s : S) : Prop :=
  match m s with Ret a s' => Q a s' | _ => False end.

Section wp_rules.
Context {S : Type}.
Implicit Types s : S.

Lemma wp_mret {A} (a : A) (Q : A → S → Prop) s : wp (mret a) Q s ↔ Q a s.
Proof. done. Qed.
Lemma wp_gets {A} (f : S → A) (Q : A → S → Prop) s : wp (gets f) Q s ↔ Q (f s) s.
Proof. done. Qed.
Lemma wp_modify (f : S → S) (Q : () → S → Prop) s : wp (modify f) Q s ↔ Q () (f s).
Proof. done. Qed.
Lemma wp_bind {A B} (m : M S A) (f : A → M S B) (Q : B → S → Prop) s :
  wp (m ≫= f) Q s ↔ wp m (λ a s', wp (f a) Q s') s.
Proof. unfold wp, mbind, M_bind. by destruct (m s). Qed.
Lemma wp_mono {A} (m : M S A) (P Q : A → S → Prop) s :
  wp m P s → (∀ a s', P a s' → Q a s') → wp m Q s.
Proof. unfold wp. destruct (m s); naive_solver. Qed.
Lemma wp_returns {A} (m : M S A) (Q : A → S → Prop) s :
  wp m Q s ↔ ∃ a s', m s = Ret a s' ∧ Q a s'.
Proof. unfold wp. destruct (m s); naive_solver. Qed.
Lemma wp_intro {A} (m : M S A) (Q : A → S → Prop) s a s' :
  m s = Ret a s' → Q a s' → wp m Q s.
Proof. intros H ?. unfold wp. by rewrite H. Qed.
Lemma wp_when b (m : M S ()) (Q : () → S → Prop) s :
  wp (when b m) Q s ↔ if b then wp m Q s else Q () s.
Proof. by destruct b. Qed.

Lemma wp_zoom {T A} (get : S → T) (put : T → S → S) (m : M T A) (Q : A → S → Prop) s :
  wp (zoom get put m) Q s ↔ wp m (λ a t, Q a (put t s)) (get s).
Proof. unfold wp, zoom. by destruct (m (get s)). Qed.

Lemma bind_Ret {A B} (m : M S A) (f : A → M S B) s a s' :
  m s = Ret a s' → (m ≫= f) s = f a s'.
Proof. intros H. unfold mbind, M_bind. by rewrite H. Qed.
Lemma bind_Ret_inv {A B} (m : M S A) (f : A → M S B) s b s'' :
  (m ≫= f) s = Ret b s'' → ∃ a s', m s = Ret a s' ∧ f a s' = Ret b s''.
Proof. unfold mbind, M_bind. destruct (m s); naive_solver. Qed.

(** Loop rules: an invariant carried along the list of iterations. *)
Lemma wp_mfor {A} (l : list A) (body : A → M S ()) (I : list A → S → Prop) s :
  I l s →
  (∀ x l' s, I (x :: l') s → wp (body x) (λ _, I l') s) →
  wp (mfor l body) (λ _, I []) s.
Proof.
  intros HI Hstep. revert s HI. induction l as [|x l IH]; intros s HI; simpl.
  - by apply wp_mret.
  - apply wp_bind. eapply wp_mono; [by apply Hstep|]. intros [] s' ?. by apply IH.
Qed.

Lemma wp_aget {A} (l : list A) i x (Q : A → S → Prop) s :
  0 <= i → l !! Z.to_nat i = Some x → Q x s → wp (aget l i) Q s.
Proof.
  intros Hi Hl HQ. unfold aget. destruct (Z.ltb_spec i 0); [lia|].
  rewrite Hl. by apply wp_mret.
Qed.
End wp_rules.

(** * Partial correctness: [pc m Q R s] says that if [m], run from [s], returns
    then [Q] holds of the result and the new state, and if it blocks then [R]
    holds of the state it blocks in. *)
Definition pc {S A} (m : M S A) (Q : A → S → Prop) (R : S → Prop) (s : S) : Prop :=
  match m s with Ret a s' => Q a s' | Block s' => R s' | _ => True end.

Section pc_rules.
Context {S : Type}.
Implicit Types s : S.

Lemma pc_bind {A B} (m : M S A) (f : A → M S B) (Q : B → S → Prop) R s :
  pc (m ≫= f) Q R s ↔ pc m (λ a s', pc (f a) Q R s') R s.
Proof. unfold pc, mbind, M_bind. by destruct (m s). Qed.
Lemma pc_mono {A} (m : M S A) (P Q : A → S → Prop) (P' Q' : S → Prop) s :
  pc m P P' s → (∀ a s', P a s' → Q a s') → (∀ s', P' s' → Q' s') → pc m Q Q' s.
Proof. unfold pc. destruct (m s); naive_solver. Qed.
Lemma pc_when b (m : M S ()) (Q : () → S → Prop) R s :
  pc (when b m) Q R s ↔ if b then pc m Q R s else Q () s.
Proof. by destruct b. Qed.
Lemma pc_intro {A} (m : M S A) (Q : A → S → Prop) R s :
  (∀ a s', m s = Ret a s' → Q a s') → (∀ s', m s = Block s' → R s') → pc m Q R s.
Proof. unfold pc. destruct (m s); naive_solver. Qed.
Lemma pc_Ret {A} (m : M S A) (Q : A → S → Prop) R s a s' : pc m Q R s → m s = Ret a s' → Q a s'.
Proof. unfold pc. intros H Hm. by rewrite Hm in H. Qed.
Lemma pc_Block {A} (m : M S A) (Q : A → S → Prop) R s s' : pc m Q R s → m s = Block s' → R s'.
Proof. unfold pc. intros H Hm. by rewrite Hm in H. Qed.

(** A loop preserves what every turn preserves. *)
Lemma pc_mfor {A} (l : list A) (body : A → M S ()) (I : S → Prop) R s :
  I s → (∀ x s, x ∈ l → I s → pc (body x) (λ _, I) R s) → pc (mfor l body) (λ _, I) R s.
Proof.
  revert s. induction l as [|x l IH]; intros s HI Hb; [done|]. simpl. apply pc_bind.
  eapply pc_mono; [apply (Hb x); [set_solver|done]| |done]. intros [] s' HI'.
  apply IH; [done|]. intros. apply Hb; set_solver.
Qed.
Lemma pc_for_find {A B} (l : list A) (body : A → M S (option B)) (I : S → Prop) (Q : option B → S → Prop) R s :
  I s → (∀ s, I s → Q None s) →
  (∀ x s, x ∈ l → I s → pc (body x) (λ r s', if r then Q r s' else I s') R s) → pc (for_find l body) Q R s.
Proof.
  intros HI HN. revert s HI. induction l as [|x l IH]; intros s HI Hb; [by apply HN|]. simpl. apply pc_bind.
  eapply pc_mono; [apply (Hb x); [set_solver|done]| |done]. intros [v|] s' Hs'; [done|].
  apply IH; [done|]. intros. apply Hb; set_solver.
Qed.
End pc_rules.

(** [set_solver] on the membership and disequality hypotheses alone: on large
    contexts it would instantiate every other universal hypothesis. *)
Ltac set_fast :=
  repeat match goal with
  | H : _ ∈ _ |- _ => revert H
  | H : ¬ _ |- _ => revert H
  end; clear; set_solver.


(** One symbolic-execution step: push [wp] through one construct of the
    program; [wp_steps] goes as far as the basic rules allow. *)
Ltac wp_step :=
  lazymatch goal with
  | |- wp (mbind _ _) _ _ => apply wp_bind
  | |- wp (mret _) _ _ => apply wp_mret
  | |- wp (gets _) _ _ => apply wp_gets
  | |- wp (modify _) _ _ => apply wp_modify
  | |- wp (when _ _) _ _ => apply wp_when
  | |- wp (if ?b then _ else _) _ _ => destruct b eqn:?
  | |- if ?b then _ else _ => destruct b eqn:?
  end.
Ltac wp_steps := repeat (wp_step; cbn beta).

(** * Lists *)
Lemma filter_ext_in {A} (P Q : A → Prop) `{∀ x, Decision (P x)} `{∀ x, Decision (Q x)} (l : list A) :
  (∀ x, x ∈ l → P x ↔ Q x) → filter P l = filter Q l.
Proof.
  induction l as [|x l IH]; intros HPQ; [done|].
  rewrite !filter_cons, IH by set_solver.
  specialize (HPQ x ltac:(set_solver)). repeat case_decide; tauto || done.
Qed.

Lemma filter_all {A} (P : A → Prop) `{∀ x, Decision (P x)} (l : list A) :
  (∀ x, x ∈ l → P x) → filter P l = l.
Proof.
  induction l as [|x l IH]; intros HP; [done|].
  rewrite filter_cons_True by (apply HP; set_solver). f_equal. apply IH. set_solver.
Qed.

(** * Functions used as arrays *)
Lemma fn_insert_same {K A} `{EqDecision K} (f : K → A) k v : f k = v → <[k := v]> f = f.
Proof.
  intros <-. apply functional_extensionality. intros k'.
  destruct (decide (k' = k)) as [->|]; [by rewrite fn_lookup_insert|by rewrite fn_lookup_insert_ne].
Qed.
Lemma fn_insert_insert {K A} `{EqDecision K} (f : K → A) k v w : <[k := v]> (<[k := w]> f) = <[k := v]> f.
Proof.
  apply functional_extensionality. intros k'.
  destruct (decide (k' = k)) as [->|]; [by rewrite !fn_lookup_insert|by rewrite !fn_lookup_insert_ne].
Qed.
Lemma fn_insert_commute {K A} `{EqDecision K} (f : K → A) k k' v w :
  k ≠ k' → <[k := v]> (<[k' := w]> f) = <[k' := w]> (<[k := v]> f).
Proof.
  intros Hk. apply functional_extensionality. intros j.
  destruct (decide (j = k)) as [->|]; [|destruct (decide (j = k')) as [->|]];
    rewrite ?fn_lookup_insert, ?fn_lookup_insert_ne, ?fn_lookup_insert by done; done.
Qed.
Lemma fn_insert_case {K A} `{EqDecision K} (f : K → A) k k' v :
  (<[k := v]> f) k' = if decide (k' = k) then v else f k'.
Proof. case_decide; subst; [by rewrite fn_lookup_insert|by rewrite fn_lookup_insert_ne]. Qed.

(** Split the comparisons a C condition is made of. *)
Ltac zcase :=
  match goal with
  | |- context [Z.eqb ?a ?b] => destruct (Z.eqb_spec a b)
  | |- context [Z.ltb ?a ?b] => destruct (Z.ltb_spec a b)
  | |- context [Z.leb ?a ?b] => destruct (Z.leb_spec a b)
  end.
Ltac zbool :=
  repeat match goal with
  | H : (_ =? _) = true |- _ => apply Z.eqb_eq in H
  | H : (_ =? _) = false |- _ => apply Z.eqb_neq in H
  | H : (_ <? _) = true |- _ => apply Z.ltb_lt in H
  | H : (_ <? _) = false |- _ => apply Z.ltb_ge in H
  | H : (_ <=? _) = true |- _ => apply Z.leb_le in H
  | H : (_ <=? _) = false |- _ => apply Z.leb_gt in H
  | H : (_ && _)%bool = true |- _ => apply andb_true_iff in H as [? ?]
  | H : (_ || _)%bool = false |- _ => apply orb_false_iff in H as [? ?]
  | H : negb _ = true |- _ => apply negb_true_iff in H
  | H : negb _ = false |- _ => apply negb_false_iff in H
  end.
