(* ===== verification/KMem.v ===== *)
(** * Physical memory as the page allocators of
    src/05_xv6_memory_safe_allocation/src/*/kalloc.c see it.

    Addresses are kernel virtual addresses, as integers; [nexts] is the first word
    of every page that is, or was, a free-list node ([struct run]'s [next]; the
    fields [high_pid] and [low_pid] are written only by the junk fill and never
    read).  A page whose first word is not in [nexts] holds data the allocator did
    not write: following it as a list node is a fault. *)

From S2P Require Import Prelude.

Definition PGSIZE : Z := 4096.
Definition PHYSTOP : Z := 0xE000000.
Definition KERNBASE : Z := 0x80000000.
Definition MAX_FRAME_NUM : Z := 16384.

Definition V2P (a : Z) : Z := u32 (a - KERNBASE).
Definition PGROUNDUP (sz : Z) : Z := Z.land (u32 (sz + PGSIZE - 1)) (u32 (Z.lnot (PGSIZE - 1))).
(** The frame number of a kernel address, and the index of its frame in [pg2pid]:
    index 0 is the highest frame. *)
Definition frame_of (va : Z) : Z := Z.shiftr (V2P va) 12.
Definition VA2IDX (va : Z) : Z := u32 (u32 (Z.shiftr PHYSTOP 12 - frame_of va) - 1).
Definition IDX2FN (idx : Z) : Z := u32 (u32 (Z.shiftr PHYSTOP 12 - 1) - idx).
(** "we only care about page after kinit1 finished": the frame has an entry in
    [pg2pid]. *)
Definition tracked (va : Z) : bool := Z.shiftr PHYSTOP 12 - MAX_FRAME_NUM <=? frame_of va.
#[global] Arguments VA2IDX : simpl never.
#[global] Arguments tracked : simpl never.

(** The allocator's global variables. *)
Record kst := mkK {
  nexts : gmap Z Z;             (* first word of the pages in the free list *)
  freelist : Z;                 (* kmem.freelist, 0 is the null pointer *)
  use_lock : bool;              (* kmem.use_lock *)
  locked : bool;                (* kmem.lock is held *)
  pg2pid : Z → Z;               (* owner of each tracked frame *)
  allocated_count : Z;
  initflag : bool;
}.

Definition set_nexts (m : gmap Z Z) (s : kst) : kst :=
  mkK m (freelist s) (use_lock s) (locked s) (pg2pid s) (allocated_count s) (initflag s).
Definition set_freelist (p : Z) (s : kst) : kst :=
  mkK (nexts s) p (use_lock s) (locked s) (pg2pid s) (allocated_count s) (initflag s).
Definition set_use_lock (b : bool) (s : kst) : kst :=
  mkK (nexts s) (freelist s) b (locked s) (pg2pid s) (allocated_count s) (initflag s).
Definition set_locked (b : bool) (s : kst) : kst :=
  mkK (nexts s) (freelist s) (use_lock s) b (pg2pid s) (allocated_count s) (initflag s).
Definition set_pg2pid (f : Z → Z) (s : kst) : kst :=
  mkK (nexts s) (freelist s) (use_lock s) (locked s) f (allocated_count s) (initflag s).
Definition set_allocated_count (n : Z) (s : kst) : kst :=
  mkK (nexts s) (freelist s) (use_lock s) (locked s) (pg2pid s) n (initflag s).
Definition set_initflag (b : bool) (s : kst) : kst :=
  mkK (nexts s) (freelist s) (use_lock s) (locked s) (pg2pid s) (allocated_count s) b.

(** [r->next], as an rvalue and as the target of an assignment. *)
Definition load_next (r : Z) : M kst Z := λ s,
  if r =? 0 then Fault "null pointer dereference"
  else match nexts s !! r with
       | Some n => Ret n s
       | None => Fault "not a free-list node"
       end.
Definition store_next (r n : Z) : M kst () := λ s,
  if r =? 0 then Fault "null pointer dereference"
  else Ret () (set_nexts (<[r := n]> (nexts s)) s).
(** [memset(v, 1, PGSIZE)]: every word of the page becomes 0x01010101. *)
Definition junk_fill (v : Z) : M kst () :=
  modify (λ s, set_nexts (<[v := 0x01010101]> (nexts s)) s).

(** [pg2pid[i]], as an rvalue and as the target of an assignment. *)
Definition pg2pid_ok (i : Z) : bool := (0 <=? i) && (i <? MAX_FRAME_NUM).
Definition load_pid (i : Z) : M kst Z :=
  if pg2pid_ok i then gets (λ s, pg2pid s i) else fault "pg2pid index out of bounds".
Definition store_pid (i pid : Z) : M kst () :=
  if pg2pid_ok i then modify (λ s, set_pg2pid (<[i := pid]> (pg2pid s)) s)
  else fault "pg2pid index out of bounds".

(** [if(kmem.use_lock) acquire(&kmem.lock)] and the matching release.  [acquire]
    and [release] panic when the lock is already held, or not held (spinlock.c). *)
Definition lock_kmem : M kst () :=
  u ← gets use_lock;
  if (u : bool) then
    h ← gets locked;
    if (h : bool) then panic "acquire" else modify (set_locked true)
  else mret ().
Definition unlock_kmem : M kst () :=
  u ← gets use_lock;
  if (u : bool) then
    h ← gets locked;
    if (h : bool) then modify (set_locked false) else panic "release"
  else mret ().

(** ** The free list as a list of addresses *)
Fixpoint is_list (m : gmap Z Z) (p : Z) (l : list Z) : Prop :=
  match l with
  | [] => p = 0
  | x :: l' => p = x ∧ x ≠ 0 ∧ ∃ n, m !! x = Some n ∧ is_list m n l'
  end.

Definition descending (l : list Z) : Prop := StronglySorted Z.gt l.

(** Everything but the free list and the pages' first words is unchanged. *)
Definition same_books (s s' : kst) : Prop :=
  use_lock s' = use_lock s ∧ locked s' = locked s ∧ pg2pid s' = pg2pid s ∧
  allocated_count s' = allocated_count s ∧ initflag s' = initflag s.

Lemma is_list_null m l : is_list m 0 l → l = [].
Proof. destruct l; [done|]. intros (<- & ? & _). done. Qed.

Lemma is_list_nonnull m p l : is_list m p l → p ≠ 0 → ∃ l', l = p :: l'.
Proof. destruct l; simpl; [done|]. intros (-> & _) ?. eauto. Qed.

Lemma is_list_insert m p l y n : y ∉ l → is_list m p l → is_list (<[y := n]> m) p l.
Proof.
  revert p. induction l as [|x l IH]; intros p Hy; simpl; [done|].
  intros (-> & Hx & k & Hk & Hl). apply not_elem_of_cons in Hy as [Hyx Hyl].
  split_and!; [done|done|]. exists k. split; [|by apply IH].
  by rewrite lookup_insert_ne.
Qed.

Lemma is_list_app m p l1 y l2 :
  is_list m p (l1 ++ y :: l2) → is_list m y (y :: l2).
Proof.
  revert p. induction l1 as [|x l1 IH]; intros p.
  - simpl. intros (-> & ?). naive_solver.
  - intros (_ & _ & n & _ & H). eauto.
Qed.

(** Linking [r] after [y] in memory links it after [y] in the list. *)
Lemma is_list_splice m p l1 y r l2 :
  r ≠ 0 → r ∉ l1 ++ y :: l2 → NoDup (l1 ++ y :: l2) →
  is_list m p (l1 ++ y :: l2) →
  ∃ n, m !! y = Some n ∧ is_list (<[y := r]> (<[r := n]> m)) p (l1 ++ y :: r :: l2).
Proof.
  intros Hr0. revert p. induction l1 as [|x l1 IH]; intros p Hr Hnd Hl; simpl in *.
  - destruct Hl as (-> & Hy & n & Hn & Hl). exists n. split; [done|].
    apply not_elem_of_cons in Hr as [Hry Hr]. apply NoDup_cons in Hnd as [Hyl Hnd].
    split_and!; [done..|]. exists r. split; [by rewrite lookup_insert_eq|].
    split_and!; [done..|]. exists n.
    rewrite lookup_insert_ne by done. rewrite lookup_insert_eq. split; [done|].
    by apply is_list_insert; [|apply is_list_insert].
  - destruct Hl as (-> & Hx & k & Hk & Hl). apply not_elem_of_cons in Hr as [Hrx Hr].
    apply NoDup_cons in Hnd as [Hxl Hnd].
    destruct (IH k Hr Hnd Hl) as (n & Hn & Hl'). exists n. split; [done|].
    split_and!; [done..|]. exists k. split; [|done].
    rewrite lookup_insert_ne by set_solver. by rewrite lookup_insert_ne.
Qed.

(** Making [y] point past its successor removes the successor from the list. *)
Lemma is_list_unlink m p l1 y v l2 n :
  NoDup (l1 ++ y :: v :: l2) → m !! v = Some n →
  is_list m p (l1 ++ y :: v :: l2) → is_list (<[y := n]> m) p (l1 ++ y :: l2).
Proof.
  intros Hnd Hv. revert p Hnd. induction l1 as [|x l1 IH]; intros p Hnd Hl; simpl in *.
  - destruct Hl as (-> & Hy & k & Hk & -> & Hv0 & k' & Hk' & Hl). simplify_eq.
    apply NoDup_cons in Hnd as [Hyl Hnd]. split_and!; [done..|].
    eexists. rewrite lookup_insert_eq. split; [done|].
    apply is_list_insert; [set_solver|done].
  - destruct Hl as (-> & Hx & k & Hk & Hl). apply NoDup_cons in Hnd as [Hxl Hnd].
    split_and!; [done..|]. exists k. rewrite lookup_insert_ne by set_solver.
    split; [done|]. by apply IH.
Qed.

Lemma is_list_dom m p l x : is_list m p l → x ∈ l → x ∈ dom m.
Proof.
  revert p. induction l as [|y l IH]; intros p; simpl.
  - intros _ []%elem_of_nil.
  - intros (-> & _ & n & Hn & Hl) [->|Hx]%elem_of_cons; [by eapply elem_of_dom_2|eauto].
Qed.

Lemma is_list_length m p l : is_list m p l → NoDup l → (length l ≤ size m)%nat.
Proof.
  intros Hl Hnd.
  rewrite <- (size_list_to_set (C := gset Z) l Hnd), <- size_dom.
  apply subseteq_size. intros x Hx. apply elem_of_list_to_set in Hx.
  by eapply is_list_dom.
Qed.

Lemma descending_NoDup l : descending l → NoDup l.
Proof.
  induction 1 as [|x l Hl IH Hx]; constructor; [|done].
  intros Hin. rewrite Forall_forall in Hx. specialize (Hx x Hin). lia.
Qed.

Lemma descending_cons_inv x l :
  descending (x :: l) → descending l ∧ ∀ y, y ∈ l → y < x.
Proof.
  inversion 1 as [|? ? Hl Hx]. split; [done|].
  intros y Hy. rewrite Forall_forall in Hx. specialize (Hx y Hy). lia.
Qed.

Lemma descending_cons x l :
  descending l → (∀ y, y ∈ l → y < x) → descending (x :: l).
Proof. intros Hl Hx. constructor; [done|]. apply Forall_forall. intros y Hy. specialize (Hx y Hy). lia. Qed.

(** Where a page goes in a list kept in descending order. *)
Fixpoint insert_desc (r : Z) (l : list Z) : list Z :=
  match l with
  | [] => [r]
  | x :: l' => if x <? r then r :: l else x :: insert_desc r l'
  end.

Lemma insert_desc_ge r x l : r <= x → insert_desc r (x :: l) = x :: insert_desc r l.
Proof. intros. simpl. by destruct (Z.ltb_spec x r); [lia|]. Qed.

Lemma insert_desc_lt r x l : x < r → insert_desc r (x :: l) = r :: x :: l.
Proof. intros. simpl. by destruct (Z.ltb_spec x r); [|lia]. Qed.

Lemma insert_desc_elem r l x : x ∈ insert_desc r l ↔ x = r ∨ x ∈ l.
Proof.
  induction l as [|y l IH]; simpl; [set_solver|].
  destruct (y <? r); set_solver.
Qed.

Lemma insert_desc_perm r l : insert_desc r l ≡ₚ r :: l.
Proof.
  induction l as [|y l IH]; simpl; [done|]. destruct (y <? r); [done|].
  rewrite IH. apply Permutation_swap.
Qed.

Lemma insert_desc_sorted r l : r ∉ l → descending l → descending (insert_desc r l).
Proof.
  induction l as [|y l IH]; intros Hr Hl; simpl.
  - by repeat constructor.
  - apply descending_cons_inv in Hl as [Hl Hy]. destruct (Z.ltb_spec y r).
    + apply descending_cons; [by apply descending_cons|]. set_unfold.
      intros z [->|Hz]; [lia|]. specialize (Hy _ Hz). lia.
    + apply descending_cons; [apply IH; [set_solver|done]|].
      intros z Hz%insert_desc_elem. destruct Hz as [->|Hz]; [|by apply Hy].
      assert (r ≠ y) by set_solver. lia.
Qed.

Lemma descending_app_cons l1 x l2 :
  descending (l1 ++ x :: l2) →
  descending (l1 ++ l2) ∧ (∀ y, y ∈ l1 → x < y) ∧ (∀ y, y ∈ l2 → y < x).
Proof.
  induction l1 as [|z l1 IH]; simpl; intros H; apply descending_cons_inv in H as [H Hz].
  - split_and!; [done|set_solver|done].
  - destruct (IH H) as (H1 & H2 & H3). split_and!.
    + apply descending_cons; [done|]. intros y Hy. apply Hz. set_solver.
    + intros y [->|Hy]%elem_of_cons; [apply Hz; set_solver|by apply H2].
    + done.
Qed.

Lemma insert_desc_middle l1 x l2 :
  descending (l1 ++ x :: l2) → insert_desc x (l1 ++ l2) = l1 ++ x :: l2.
Proof.
  induction l1 as [|z l1 IH]; simpl app; intros H.
  - apply descending_cons_inv in H as [H Hz]. destruct l2 as [|y l2]; [done|].
    apply insert_desc_lt. apply Hz. set_solver.
  - rewrite insert_desc_ge.
    + f_equal. apply IH. by apply descending_cons_inv in H as [? _].
    + apply descending_cons_inv in H as [_ H]. specialize (H x ltac:(set_solver)). lia.
Qed.

Lemma insert_desc_head r l : (∀ x, x ∈ l → x < r) → insert_desc r l = r :: l.
Proof.
  destruct l as [|y l]; intros H; simpl; [done|].
  destruct (Z.ltb_spec y r); [done|]. specialize (H y ltac:(set_solver)). lia.
Qed.

#[global] Arguments insert_desc : simpl never.

Lemma wp_load_next r n (Q : Z → kst → Prop) s :
  r ≠ 0 → nexts s !! r = Some n → Q n s → wp (load_next r) Q s.
Proof. intros Hr Hn HQ. unfold wp, load_next. destruct (Z.eqb_spec r 0); [done|]. by rewrite Hn. Qed.

Lemma wp_store_next r n (Q : () → kst → Prop) s :
  r ≠ 0 → Q () (set_nexts (<[r := n]> (nexts s)) s) → wp (store_next r n) Q s.
Proof. intros Hr HQ. unfold wp, store_next. by destruct (Z.eqb_spec r 0). Qed.

Lemma pg2pid_ok_spec i : pg2pid_ok i = true ↔ 0 <= i < MAX_FRAME_NUM.
Proof. unfold pg2pid_ok. lia. Qed.

Lemma wp_load_pid i (Q : Z → kst → Prop) s :
  0 <= i < MAX_FRAME_NUM → Q (pg2pid s i) s → wp (load_pid i) Q s.
Proof. intros Hi HQ. unfold load_pid. by rewrite (proj2 (pg2pid_ok_spec i) Hi). Qed.

Lemma wp_store_pid i pid (Q : () → kst → Prop) s :
  0 <= i < MAX_FRAME_NUM → Q () (set_pg2pid (<[i := pid]> (pg2pid s)) s) → wp (store_pid i pid) Q s.
Proof. intros Hi HQ. unfold store_pid. by rewrite (proj2 (pg2pid_ok_spec i) Hi). Qed.

Lemma lock_kmem_Ret s : locked s = false → lock_kmem s = Ret () (set_locked (use_lock s) s).
Proof. destruct s as [? ? [] ? ? ? ?]; simpl; intros ->; done. Qed.

Lemma wp_lock_kmem (Q : () → kst → Prop) s :
  locked s = false → Q () (set_locked (use_lock s) s) → wp lock_kmem Q s.
Proof.
  intros Hl HQ. eapply wp_intro; [by apply lock_kmem_Ret|done].
Qed.

Lemma wp_unlock_kmem (Q : () → kst → Prop) s :
  locked s = use_lock s → Q () (set_locked false s) → wp unlock_kmem Q s.
Proof.
  intros Hl HQ. unfold unlock_kmem. wp_steps; [done|congruence|].
  destruct s; simpl in *; subst. exact HQ.
Qed.

(** ** Address arithmetic on the pages the allocator manages *)

(** A page of kernel memory below PHYSTOP. *)
Definition is_page (v : Z) : Prop :=
  KERNBASE <= v < KERNBASE + PHYSTOP ∧ v mod PGSIZE = 0.

Lemma V2P_page v : is_page v → V2P v = v - KERNBASE.
Proof. intros [Hv _]. unfold V2P. apply u32_small. unfold KERNBASE, PHYSTOP in *. lia. Qed.

Lemma frame_of_page v : is_page v → frame_of v = (v - KERNBASE) / PGSIZE.
Proof. intros Hv. unfold frame_of. rewrite V2P_page by done. by rewrite Z.shiftr_div_pow2 by lia. Qed.

Lemma frame_of_range v : is_page v → 0 <= frame_of v < 57344.
Proof.
  intros Hv. rewrite frame_of_page by done. destruct Hv as [Hv _].
  unfold KERNBASE, PHYSTOP, PGSIZE in *. split; [apply Z.div_pos; lia|].
  apply Z.div_lt_upper_bound; lia.
Qed.

Lemma VA2IDX_page v : is_page v → VA2IDX v = 57343 - frame_of v.
Proof.
  intros Hv. pose proof (frame_of_range v Hv). unfold VA2IDX.
  change (Z.shiftr PHYSTOP 12) with 57344. rewrite !u32_small by (rewrite ?u32_small; lia). lia.
Qed.

Lemma tracked_page v : is_page v → tracked v = true ↔ 0 <= VA2IDX v < MAX_FRAME_NUM.
Proof.
  intros Hv. rewrite VA2IDX_page by done. pose proof (frame_of_range v Hv).
  unfold tracked, MAX_FRAME_NUM. change (Z.shiftr PHYSTOP 12) with 57344. lia.
Qed.

Lemma VA2IDX_inj v w : is_page v → is_page w → VA2IDX v = VA2IDX w → v = w.
Proof.
  intros Hv Hw. rewrite !VA2IDX_page, !frame_of_page by done.
  destruct Hv as [Hv Hv'], Hw as [Hw Hw']. unfold KERNBASE, PHYSTOP, PGSIZE in *.
  intros H. Z.div_mod_to_equations. lia.
Qed.

Lemma page_nonnull v : is_page v → v ≠ 0.
Proof. intros [Hv _] ->. unfold KERNBASE in Hv. lia. Qed.

#[export] Hint Resolve page_nonnull descending_NoDup : kmem.

(** The test of kfree: page-aligned kernel addresses from [end_] to PHYSTOP. *)
Lemma page_guard end_ v :
  0 <= v < 2 ^ 32 →
  (negb (u32 v mod PGSIZE =? 0) || (v <? end_) || (PHYSTOP <=? V2P v) = false
   ↔ is_page v ∧ end_ <= v).
Proof.
  intros Hv. rewrite u32_small by done. unfold is_page, V2P.
  destruct (decide (v < KERNBASE)) as [Hlt|Hge].
  - replace (u32 (v - KERNBASE)) with (v - KERNBASE + 2 ^ 32).
    + unfold KERNBASE, PHYSTOP in *. lia.
    + unfold u32. rewrite <- (Z.mod_add (v - KERNBASE) 1) by lia.
      rewrite Z.mod_small; unfold KERNBASE in *; lia.
  - rewrite u32_small by (unfold KERNBASE in *; lia). lia.
Qed.

(** ** Filling the free list at boot

    The allocators differ in kfree but not in freerange: [booting l s] says that
    freerange has put the pages [l] on the list and given none away. *)
(** The [n] pages from [p] on, highest first. *)
Fixpoint pages_down (p : Z) (n : nat) : list Z :=
  match n with O => [] | S m => (p + PGSIZE * Z.of_nat m) :: pages_down p m end.
Lemma pages_down_S p n : pages_down p (S n) = pages_down (p + PGSIZE) n ++ [p].
Proof.
  induction n as [|n IH]; [simpl; f_equal; lia|].
  change (pages_down p (S (S n))) with ((p + PGSIZE * Z.of_nat (S n)) :: pages_down p (S n)).
  rewrite IH. simpl. f_equal. lia.
Qed.
Lemma pages_down_lookup p n k v :
  pages_down p n !! k = Some v → (k < n)%nat ∧ v = p + PGSIZE * (Z.of_nat n - 1 - Z.of_nat k).
Proof.
  revert k. induction n as [|n IH]; intros [|k] H; [done|done| |].
  - injection H as <-. split; lia.
  - apply IH in H as [? ->]. split; lia.
Qed.
Lemma pages_down_at p n k :
  (k < n)%nat → pages_down p n !! k = Some (p + PGSIZE * (Z.of_nat n - 1 - Z.of_nat k)).
Proof.
  revert k. induction n as [|n IH]; intros [|k] H; [lia|lia| |].
  - simpl. do 2 f_equal. lia.
  - simpl. rewrite IH by lia. do 2 f_equal. lia.
Qed.

Record booting (l : list Z) (s : kst) : Prop := {
  bt_lock : locked s = false;
  bt_init : initflag s = false;
  bt_list : is_list (nexts s) (freelist s) l;
  bt_desc : descending l;
  bt_free : ∀ v, v ∈ l → tracked v = true → pg2pid s (VA2IDX v) = -1;
}.

Section freerange.
Context (end_ : Z) (kf : Z → M kst ()) (loop : nat → Z → Z → M kst ()).
Hypothesis loop_S : ∀ f p vend, loop (S f) p vend =
  if p + PGSIZE <=? vend then kf p ;; loop f (p + PGSIZE) vend else mret ().
Hypothesis kf_boot : ∀ v l s, booting l s → is_page v → end_ <= v → (∀ w, w ∈ l → w < v) →
  wp (kf v) (λ _, booting (v :: l)) s.

Lemma freerange_loop_boot n p fuel l s vend :
  (n < fuel)%nat → p + PGSIZE * Z.of_nat n <= vend < p + PGSIZE * Z.of_nat n + PGSIZE →
  p mod PGSIZE = 0 → KERNBASE <= p → p + PGSIZE * Z.of_nat n <= KERNBASE + PHYSTOP →
  end_ <= p → (∀ w, w ∈ l → w < p) → booting l s →
  wp (loop fuel p vend) (λ _, booting (pages_down p n ++ l)) s.
Proof.
  revert p fuel l s. induction n as [|n IH];
    intros p fuel l s Hfuel Hv Hal Hp Htop Hend Hlt Hb; (destruct fuel as [|fuel]; [lia|]);
    rewrite loop_S.
  - destruct (Z.leb_spec (p + PGSIZE) vend); [unfold PGSIZE in *; lia|]. by apply wp_mret.
  - destruct (Z.leb_spec (p + PGSIZE) vend); [|unfold PGSIZE in *; lia]. wp_step.
    assert (is_page p) as Hpp by (split; [unfold PGSIZE in *; lia|done]).
    eapply wp_mono; [by apply (kf_boot p l)|]. intros [] s1 Hb1.
    rewrite pages_down_S, <- app_assoc. apply (IH (p + PGSIZE) fuel (p :: l)); try done; try (unfold PGSIZE in *; lia).
    { by rewrite <- Z.add_mod_idemp_r, Z_mod_same_full, Z.add_0_r by (unfold PGSIZE; lia). }
    { intros w [->|Hw]%elem_of_cons; [unfold PGSIZE; lia|]. specialize (Hlt w Hw). unfold PGSIZE; lia. }
Qed.

(** The list [kinit2] leaves: the pages [l] of [kinit1] at the end, every page from
    4 MB on before them, the tracked ones in the order of their numbers. *)
Definition low_mem : Z := KERNBASE + 0x400000.
Record booted (l L : list Z) (s : kst) : Prop := {
  bd_booting : booting L s;
  bd_elem : ∀ v, v ∈ L ↔ v ∈ l ∨ is_page v ∧ low_mem <= v;
  bd_run : ∀ k v, L !! k = Some v → tracked v = true → VA2IDX v = Z.of_nat k;
  bd_free : ∀ i, 0 <= i < MAX_FRAME_NUM → pg2pid s i = -1;
}.
Lemma low_untracked v : is_page v → v < low_mem → tracked v = false.
Proof.
  intros Hv Hlt. apply not_true_iff_false. intros Ht%tracked_page; [|done].
  rewrite VA2IDX_page, frame_of_page in Ht by done.
  unfold low_mem, MAX_FRAME_NUM, PGSIZE, KERNBASE in *. Z.div_mod_to_equations. lia.
Qed.
Lemma high_pages n v : Z.of_nat n = 56320 → v ∈ pages_down low_mem n ↔ is_page v ∧ low_mem <= v.
Proof.
  intros Hn. split.
  - intros [k Hk]%list_elem_of_lookup. apply pages_down_lookup in Hk as [Hk ->]. rewrite Hn.
    unfold is_page, low_mem, KERNBASE, PHYSTOP, PGSIZE. split; [|lia]. split; [lia|]. Z.div_mod_to_equations. lia.
  - intros [[Hv Hm] Hge]. apply (list_elem_of_lookup_2 _ (Z.to_nat (56319 - (v - low_mem) / PGSIZE))).
    unfold low_mem, KERNBASE, PHYSTOP, PGSIZE in *.
    assert (0 <= (v - (0x80000000 + 0x400000)) / 4096 < 56320) by (Z.div_mod_to_equations; lia).
    rewrite pages_down_at by lia. f_equal. unfold PGSIZE. rewrite Hn, Z2Nat.id by lia. Z.div_mod_to_equations. lia.
Qed.

Lemma freerange_boot l s :
  end_ <= low_mem → (∀ w, w ∈ l → is_page w ∧ w < low_mem) → booting l s →
  wp (loop (S (Z.to_nat ((KERNBASE + PHYSTOP - low_mem) / PGSIZE))) low_mem (KERNBASE + PHYSTOP))
    (λ _ s', ∃ L, booted l L s') s.
Proof.
  intros Hend Hlow Hb.
  change ((KERNBASE + PHYSTOP - low_mem) / PGSIZE) with 56320.
  remember (Z.to_nat 56320) as n eqn:En. assert (Z.of_nat n = 56320) as Hn by lia. clear En.
  eapply wp_mono; [apply (freerange_loop_boot n low_mem _ l s); try done|].
  { lia. }
  1-2: unfold low_mem, KERNBASE, PHYSTOP, PGSIZE; rewrite Hn; done.
  { intros w Hw. by apply Hlow. }
  intros [] s1 Hb1. exists (pages_down low_mem n ++ l).
  assert (∀ v, v ∈ pages_down low_mem n ++ l ↔ v ∈ l ∨ is_page v ∧ low_mem <= v) as Hel
    by (intros v; rewrite elem_of_app, high_pages by done; tauto).
  assert (∀ k v, (pages_down low_mem n ++ l) !! k = Some v → tracked v = true → VA2IDX v = Z.of_nat k) as Hrun.
  { intros k v Hk Ht. assert (is_page v) as Hv.
    { apply list_elem_of_lookup_2, Hel in Hk as [Hk|[? _]]; [by apply Hlow|done]. }
    apply lookup_app_Some in Hk as [Hk|[_ Hk]].
    - apply pages_down_lookup in Hk as [? ->]. rewrite VA2IDX_page, frame_of_page by done. rewrite Hn.
      unfold low_mem, KERNBASE, PGSIZE. Z.div_mod_to_equations. lia.
    - apply list_elem_of_lookup_2, Hlow in Hk as [_ Hlt]. by rewrite low_untracked in Ht. }
  constructor; [done|done|done|].
  intros i Hi. unfold MAX_FRAME_NUM in Hi. set (v := low_mem + PGSIZE * (56319 - i)).
  assert (is_page v) as Hv.
  { unfold v, is_page, low_mem, KERNBASE, PHYSTOP, PGSIZE. split; [lia|]. Z.div_mod_to_equations. lia. }
  assert (VA2IDX v = i) as Hvi.
  { rewrite VA2IDX_page, frame_of_page by done. unfold v, low_mem, KERNBASE, PGSIZE. Z.div_mod_to_equations. lia. }
  rewrite <- Hvi. apply (bt_free _ _ Hb1); [|apply tracked_page; [done|]; unfold MAX_FRAME_NUM; lia].
  apply Hel. right. split; [done|]. unfold v, PGSIZE. lia.
Qed.
End freerange.
