(* ===== verification/KallocV2.v ===== *)
(** * The Rowhammer-safe page allocator,
    src/05_xv6_memory_safe_allocation/src/v2-sort/kalloc.c.

    The free list is kept in descending address order; [kalloc(pid)] hands out the
    first page both of whose neighbours are free, unknown (-2) or owned by [pid]. *)

From S2P Require Import Prelude KMem.

Section operations.
(** [end]: the first address after the kernel image, set by the linker. *)
Context (end_ : Z).

(** while(prev->next!=0 && prev->next > r) prev = prev->next; *)
Fixpoint insert_walk (fuel : nat) (prev r : Z) : M kst Z :=
  match fuel with
  | O => diverge
  | S f =>
      n ← load_next prev;
      if negb (n =? 0) && (r <? n) then insert_walk f n r else mret prev
  end.

Definition insert_freelist (r : Z) : M kst () :=
  lock_kmem ;;
  prev ← gets freelist;
  (if (prev =? 0) || (prev <? r) then
     modify (set_freelist r) ;;
     store_next r prev
   else
     fuel ← gets (λ s, S (size (nexts s)));
     prev ← insert_walk fuel prev r;
     n ← load_next prev;
     store_next r n ;;
     store_next prev r) ;;
  unlock_kmem.

Definition kfree (v : Z) : M kst () :=
  if negb (u32 v mod PGSIZE =? 0) || (v <? end_) || (PHYSTOP <=? V2P v) then panic "kfree"
  else
    junk_fill v ;;
    when (tracked v)
      (store_pid (VA2IDX v) (-1) ;;
       i ← gets initflag;
       when i (modify (λ s, set_allocated_count (allocated_count s - 1) s))) ;;
    insert_freelist v.

Fixpoint freerange_loop (fuel : nat) (p vend : Z) : M kst () :=
  match fuel with
  | O => diverge
  | S f =>
      if p + PGSIZE <=? vend then kfree p ;; freerange_loop f (p + PGSIZE) vend
      else mret ()
  end.
Definition freerange (vstart vend : Z) : M kst () :=
  let p := PGROUNDUP vstart in
  freerange_loop (S (Z.to_nat ((vend - p) / PGSIZE))) p vend.

Definition kinit1 (vstart vend : Z) : M kst () :=
  modify (set_locked false) ;;
  modify (set_use_lock false) ;;
  freerange vstart vend.
Definition kinit2 (vstart vend : Z) : M kst () :=
  freerange vstart vend ;;
  modify (set_use_lock true) ;;
  modify (set_initflag true).

(** Returns 1 if the frame [index] may be given to [pid], 0 if not. *)
Definition safe_guard (index pid : Z) : M kst Z :=
  if index =? 0 then
    lo ← load_pid (index + 1);
    mret (if (pid =? lo) || (lo =? -1) || (lo =? -2) then 1 else 0)
  else
    lo ← load_pid (index + 1);
    let flag := if negb (lo =? pid) && negb (lo =? -1) && negb (lo =? -2) then 0 else 1 in
    up ← load_pid (index - 1);
    mret (if negb (up =? pid) && negb (up =? -1) && negb (up =? -2) then 0 else flag).

(** The loop of [select_page]; [prev] is [None] while [if_freelist] is 1. *)
Fixpoint select_walk (fuel : nat) (pid : Z) (prev : option Z) (r : Z) : M kst (option Z * Z) :=
  match fuel with
  | O => diverge
  | S f =>
      g ← safe_guard (s32 (VA2IDX r)) pid;
      if g =? 0 then
        n ← load_next r;
        select_walk f pid (Some r) n
      else mret (prev, r)
  end.

Definition select_page (pid : Z) : M kst Z :=
  r ← gets freelist;
  fuel ← gets (λ s, S (size (nexts s)));
  pr ← select_walk fuel pid None r;
  (n ← load_next (snd pr);
   match fst pr with
   | None => modify (set_freelist n)
   | Some prev => store_next prev n
   end) ;;
  mret (snd pr).

Definition kalloc (pid : Z) : M kst Z :=
  lock_kmem ;;
  r ← (if pid =? -2 then
         r ← gets freelist;
         when (negb (r =? 0)) (n ← load_next r; modify (set_freelist n)) ;;
         mret r
       else select_page pid);
  unlock_kmem ;;
  when (tracked r)
    (store_pid (VA2IDX r) pid ;;
     modify (λ s, set_allocated_count (allocated_count s + 1) s)) ;;
  mret r.
End operations.

(** ** What the code promises *)

(** [safe f i pid]: the neighbours of frame [i] are free, unknown or owned by [pid]. *)
Definition harmless (pid x : Z) : bool := (x =? pid) || (x =? -1) || (x =? -2).
Definition safe (f : Z → Z) (i pid : Z) : bool :=
  harmless pid (f (i + 1)) && ((i =? 0) || harmless pid (f (i - 1))).

(** No two adjacent frames belong to two different known processes. *)
Definition ok_pair (a b : Z) : Prop := a = -1 ∨ a = -2 ∨ b = -1 ∨ b = -2 ∨ a = b.
Definition isolated (f : Z → Z) : Prop :=
  ∀ i, 0 <= i < MAX_FRAME_NUM - 1 → ok_pair (f i) (f (i + 1)).

(** How many tracked frames have an owner. *)
Definition count_owned (f : Z → Z) : Z :=
  Z.of_nat (length (filter (λ i, f i ≠ -1) (seqZ 0 MAX_FRAME_NUM))).

(** The allocator's invariant, with [l] the free pages. *)
Record kinv (l : list Z) (s : kst) : Prop := {
  kinv_lock : locked s = false;
  kinv_list : is_list (nexts s) (freelist s) l;
  kinv_desc : descending l;
  kinv_pages : ∀ v, v ∈ l → is_page v;
  kinv_free : ∀ v, v ∈ l → tracked v = true → pg2pid s (VA2IDX v) = -1;
}.

(** The free pages [kalloc] may look at have both neighbours in the table. *)
Definition inner (v : Z) : Prop := 0 <= VA2IDX v < MAX_FRAME_NUM - 1.

Lemma insert_walk_spec s r x l fuel :
  is_list (nexts s) x (x :: l) → descending (x :: l) → r ∉ x :: l → r < x →
  (length l < fuel)%nat →
  ∃ l1 y l2, x :: l = l1 ++ y :: l2 ∧ insert_walk fuel x r s = Ret y s ∧
    insert_desc r (x :: l) = l1 ++ y :: r :: l2 ∧ is_list (nexts s) y (y :: l2).
Proof.
  revert x l. induction fuel as [|fuel IH]; intros x l Hl Hd Hr Hx Hf; [lia|].
  destruct Hl as (_ & Hx0 & n & Hn & Hl). cbn [insert_walk].
  erewrite bind_Ret.
  2:{ unfold load_next. destruct (Z.eqb_spec x 0); [done|]. by rewrite Hn. }
  rewrite (insert_desc_ge r x) by lia. destruct l as [|z l].
  - simpl in Hl. subst n. exists [], x, []. simpl. split_and!; [done..|by exists 0].
  - assert (n = z) as -> by apply Hl.
    assert (z ≠ 0) by apply Hl. destruct (Z.eqb_spec z 0); [done|].
    apply descending_cons_inv in Hd as [Hd Hlt]. cbn [negb andb]. destruct (Z.ltb_spec r z).
    + destruct (IH z l) as (l1 & y & l2 & H1 & H2 & H3 & H4); [done..|set_solver|lia|simpl in *; lia|].
      exists (x :: l1), y, l2. split_and!; [by rewrite H1|done|by rewrite H3|done..].
    + exists [], x, (z :: l). assert (r ≠ z) by set_solver.
      rewrite insert_desc_lt by lia. simpl. split_and!; [done..|by exists z].
Qed.

Lemma insert_freelist_refines s l r :
  locked s = false → is_list (nexts s) (freelist s) l → descending l → r ∉ l → r ≠ 0 →
  wp (insert_freelist r) (λ _ s', same_books s s' ∧
    is_list (nexts s') (freelist s') (insert_desc r l)) s.
Proof.
  intros Hlk Hl Hd Hr Hr0. unfold insert_freelist. wp_steps.
  apply wp_lock_kmem; [done|]. wp_steps; simpl in *.
  - apply wp_store_next; [done|]. apply wp_unlock_kmem; [done|].
    split; [by destruct s; simpl in *; subst|]. simpl.
    replace (insert_desc r l) with (r :: l).
    + split_and!; [done..|]. exists (freelist s). rewrite lookup_insert_eq.
      split; [done|]. by apply is_list_insert.
    + destruct l as [|x l]; [done|]. destruct Hl as (Hp & Hx0 & _).
      rewrite insert_desc_lt; [done|]. apply orb_true_iff in Heqb as [?|?]; zbool; lia.
  - zbool. apply is_list_nonnull in Hl as Hl'; [|done]. destruct Hl' as [l' ->].
    edestruct (insert_walk_spec (set_locked (use_lock s) s) r (freelist s) l'
      (S (size (nexts s)))) as (l1 & y & l2 & Heq & Hw & Hi & Hy); simpl.
    1-3: done. { assert (r ≠ freelist s) by set_solver. lia. }
    { pose proof (is_list_length _ _ _ Hl (descending_NoDup _ Hd)). simpl in *. lia. }
    eapply wp_intro; [exact Hw|]. wp_steps.
    destruct (is_list_splice (nexts s) (freelist s) l1 y r l2) as (n & Hn & Hsp);
      [done|by rewrite <- Heq|rewrite <- Heq; by apply descending_NoDup|by rewrite <- Heq|].
    assert (y ≠ 0) by apply Hy.
    apply wp_load_next with n; [done|done|]. wp_steps.
    apply wp_store_next; [done|]. apply wp_store_next; [done|].
    apply wp_unlock_kmem; [done|]. simpl. rewrite Hi. split; [|done].
    by destruct s; simpl in *; subst.
Qed.

(** ** Freeing *)
(** What freeing [v], or taking [v] for [pid], does to the books. *)
Definition freed (v : Z) (s s' : kst) : Prop :=
  pg2pid s' = (if tracked v then <[VA2IDX v := -1]> (pg2pid s) else pg2pid s) ∧
  allocated_count s' = allocated_count s - (if tracked v && initflag s then 1 else 0) ∧
  use_lock s' = use_lock s ∧ initflag s' = initflag s.
Definition taken (v pid : Z) (s s' : kst) : Prop :=
  pg2pid s' = (if tracked v then <[VA2IDX v := pid]> (pg2pid s) else pg2pid s) ∧
  allocated_count s' = allocated_count s + (if tracked v then 1 else 0) ∧
  use_lock s' = use_lock s ∧ initflag s' = initflag s.

Lemma insert_freelist_kinv v l s s1 :
  kinv l s → is_page v → v ∉ l →
  locked s1 = false → is_list (nexts s1) (freelist s1) l → freed v s s1 →
  (tracked v = true → pg2pid s1 (VA2IDX v) = -1) →
  wp (insert_freelist v) (λ _ s', kinv (insert_desc v l) s' ∧ freed v s s') s1.
Proof.
  intros [_ _ Hd Hp Hf] Hv Hvl Hlk Hl Hfr Ht.
  eapply wp_mono; [by apply (insert_freelist_refines _ l v); auto with kmem|].
  intros _ s' [(H1 & H2 & H3 & H4 & H5) Hins]. unfold freed in *.
  rewrite H1, H3, H4, H5. split; [|done].
  constructor; [congruence|done|by apply insert_desc_sorted|..].
  - intros w [->|Hw]%insert_desc_elem; auto.
  - intros w Hw Htw. rewrite H3. apply insert_desc_elem in Hw as [->|Hw]; [by apply Ht|].
    destruct Hfr as (-> & _). case_match; [|by apply Hf].
    destruct (decide (VA2IDX v = VA2IDX w)) as [->|]; [by rewrite fn_lookup_insert|].
    rewrite fn_lookup_insert_ne by done. by apply Hf.
Qed.

Lemma kfree_refines end_ v l s :
  kinv l s → is_page v → end_ <= v → v ∉ l →
  wp (kfree end_ v) (λ _ s', kinv (insert_desc v l) s' ∧ freed v s s') s.
Proof.
  intros Hi Hv Hend Hvl. unfold kfree.
  assert (0 <= v < 2 ^ 32) by (destruct Hv; unfold KERNBASE, PHYSTOP in *; lia).
  rewrite (proj2 (page_guard end_ v ltac:(done)) ltac:(done)).
  unfold junk_fill. apply wp_bind, wp_modify, wp_bind, wp_when.
  assert (is_list (<[v:=0x01010101]> (nexts s)) (freelist s) l) as Hl
    by (apply is_list_insert; [done|apply Hi]).
  pose proof (kinv_lock _ _ Hi). case_match eqn:Ht.
  - pose proof (proj1 (tracked_page v Hv) Ht). wp_step. apply wp_store_pid; [done|].
    wp_steps; apply (insert_freelist_kinv _ l); try done; simpl in *;
      try (intros; by rewrite fn_lookup_insert);
      unfold freed; simpl; rewrite Ht, Heqb; simpl; split_and!; try done; lia.
  - apply (insert_freelist_kinv _ l); try done;
[|congruence]. unfold freed; simpl; rewrite Ht; simpl; split_and!; try done; lia.
Qed.

(** ** Selecting and allocating *)
Lemma safe_guard_spec i pid s :
  0 <= i < MAX_FRAME_NUM - 1 →
  safe_guard i pid s = Ret (if safe (pg2pid s) i pid then 1 else 0) s.
Proof.
  intros Hi. unfold safe_guard, safe, harmless, load_pid.
  rewrite (proj2 (pg2pid_ok_spec (i + 1)) ltac:(lia)).
  unfold mbind, M_bind, gets, mret, M_ret. destruct (Z.eqb_spec i 0) as [->|Hi0].
  - rewrite (Z.eqb_sym pid). by rewrite orb_true_l, andb_true_r.
  - rewrite (proj2 (pg2pid_ok_spec (i - 1)) ltac:(lia)). f_equal.
    repeat match goal with |- context [?x =? ?y] => destruct (x =? y) end; done.
Qed.

Lemma select_walk_spec s pid prev l1 v l2 p fuel :
  is_list (nexts s) p (l1 ++ v :: l2) →
  (∀ w, w ∈ l1 ++ [v] → inner w) →
  (∀ w, w ∈ l1 → safe (pg2pid s) (VA2IDX w) pid = false) →
  safe (pg2pid s) (VA2IDX v) pid = true →
  (length l1 < fuel)%nat →
  select_walk fuel pid prev p s = Ret (from_option Some prev (last l1), v) s.
Proof.
  revert l1 p prev. induction fuel as [|fuel IH]; intros l1 p prev Hl Hin Hun Hsafe Hf; [lia|].
  assert (∀ w, inner w → s32 (VA2IDX w) = VA2IDX w) as Hs32.
  { intros w Hw. apply s32_small. unfold inner, MAX_FRAME_NUM in Hw. lia. }
  destruct l1 as [|x l1]; cbn [select_walk].
  - destruct Hl as (-> & Hv & _). assert (inner v) by (apply Hin; set_solver).
    rewrite Hs32 by done. erewrite bind_Ret by by apply safe_guard_spec.
    by rewrite Hsafe.
  - destruct Hl as (-> & Hx & n & Hn & Hl). assert (inner x) by (apply Hin; set_solver).
    rewrite Hs32 by done. erewrite bind_Ret by by apply safe_guard_spec.
    rewrite Hun by set_solver. cbn [Z.eqb]. erewrite bind_Ret.
    2:{ unfold load_next. destruct (Z.eqb_spec x 0); [done|]. by rewrite Hn. }
    rewrite (IH l1 n (Some x)); [|done|set_solver..|simpl in *; lia].
    f_equal. rewrite last_cons. by destruct (last l1).
Qed.

(** Taking [v] out of the invariant. *)
Lemma kinv_take l1 v l2 pid s s' :
  kinv (l1 ++ v :: l2) s → locked s' = false → is_list (nexts s') (freelist s') (l1 ++ l2) →
  taken v pid s s' → kinv (l1 ++ l2) s'.
Proof.
  intros [Hlk Hl Hd Hp Hf] Hlk' Hl' (Hpg & _).
  pose proof (descending_app_cons _ _ _ Hd) as (Hd' & H1 & H2).
  constructor; [done..|intros w Hw; apply Hp; set_fast|]. intros w Hw Ht. rewrite Hpg.
  assert (w ≠ v) by (apply elem_of_app in Hw as [Hw|Hw]; [specialize (H1 w Hw)|specialize (H2 w Hw)]; lia).
  case_match; [|apply Hf; [set_fast|done]].
  rewrite fn_lookup_insert_ne; [apply Hf; [set_fast|done]|].
  intros Heq. apply VA2IDX_inj in Heq; [done|apply Hp; set_fast..].
Qed.

(** The second half of [kalloc]: recording the owner. *)
Lemma record_owner v pid l s s1 :
  is_page v → locked s1 = use_lock s1 → is_list (nexts s1) (freelist s1) l →
  pg2pid s1 = pg2pid s → allocated_count s1 = allocated_count s →
  use_lock s1 = use_lock s → initflag s1 = initflag s →
  wp (unlock_kmem ;;
      when (tracked v)
        (store_pid (VA2IDX v) pid ;;
         modify (λ s, set_allocated_count (allocated_count s + 1) s)) ;;
      mret v)
    (λ r s', r = v ∧ locked s' = false ∧ is_list (nexts s') (freelist s') l ∧ taken v pid s s') s1.
Proof.
  intros Hv Hlk Hl H1 H2 H3 H4. wp_step. apply wp_unlock_kmem; [done|].
  apply wp_bind, wp_when. unfold taken. case_match eqn:Ht.
  - pose proof (proj1 (tracked_page v Hv) Ht). wp_step. apply wp_store_pid; [done|].
    wp_steps. simpl. split_and!; try done; [by rewrite H1|by rewrite H2].
  - wp_steps. simpl. split_and!; try done. lia.
Qed.

Lemma kalloc_unknown_refines v l s :
  kinv (v :: l) s →
  wp (kalloc (-2)) (λ r s', r = v ∧ kinv l s' ∧ taken v (-2) s s') s.
Proof.
  intros Hi. pose proof Hi as [Hlk Hl Hd Hp Hf]. destruct Hl as (Hfl & Hv0 & n & Hn & Hl).
  unfold kalloc. wp_step. apply wp_lock_kmem; [done|].
  apply wp_bind. cbn [Z.eqb]. apply wp_bind, wp_gets. simpl freelist. rewrite Hfl.
  destruct (Z.eqb_spec v 0); [done|]. apply wp_bind, wp_when, wp_bind. simpl negb. cbn iota.
  apply wp_load_next with n; [done|done|]. apply wp_modify, wp_mret.
  eapply wp_mono; [apply (record_owner v (-2) l s); try done; apply Hp; set_fast|].
  intros r s' (-> & Hlk' & Hl' & Htk). split_and!; [done| |done].
  by apply (kinv_take [] v l (-2) s).
Qed.

Lemma last_split {A} (l : list A) x : last l = Some x → ∃ l', l = l' ++ [x].
Proof. intros H. apply last_Some in H as [l' ->]. eauto. Qed.

Lemma select_page_refines pid l1 v l2 s :
  is_list (nexts s) (freelist s) (l1 ++ v :: l2) → descending (l1 ++ v :: l2) →
  (∀ w, w ∈ l1 ++ [v] → inner w) →
  (∀ w, w ∈ l1 → safe (pg2pid s) (VA2IDX w) pid = false) →
  safe (pg2pid s) (VA2IDX v) pid = true →
  wp (select_page pid) (λ r s', r = v ∧ is_list (nexts s') (freelist s') (l1 ++ l2) ∧
    same_books s s') s.
Proof.
  intros Hl Hd Hin Hun Hsafe. unfold select_page. wp_steps.
  eapply wp_intro.
  { apply (select_walk_spec s pid None l1 v l2); try done.
    pose proof (is_list_length _ _ _ Hl (descending_NoDup _ Hd)) as Hlen.
    rewrite length_app in Hlen. simpl in Hlen. lia. }
  pose proof (is_list_app _ _ _ _ _ Hl) as (_ & Hv0 & n & Hn & Hl2).
  simpl fst. simpl snd. wp_steps. apply wp_load_next with n; [done|done|].
  destruct (last l1) as [y|] eqn:Hlast; simpl from_option; cbn iota.
  - apply last_split in Hlast as [l1' ->]. rewrite <- app_assoc in Hl, Hd |- *. simpl in Hl, Hd |- *.
    pose proof (is_list_app _ _ _ _ _ Hl) as (_ & Hy0 & _).
    apply wp_store_next; [done|]. wp_steps. split_and!; [done| |done].
    eapply is_list_unlink; [by apply descending_NoDup|done|done].
  - apply last_None in Hlast as ->. wp_steps. split_and!; [done| |done]. done.
Qed.

Lemma kalloc_refines pid l1 v l2 s :
  pid ≠ -2 → kinv (l1 ++ v :: l2) s →
  (∀ w, w ∈ l1 ++ [v] → inner w) →
  (∀ w, w ∈ l1 → safe (pg2pid s) (VA2IDX w) pid = false) →
  safe (pg2pid s) (VA2IDX v) pid = true →
  wp (kalloc pid) (λ r s', r = v ∧ kinv (l1 ++ l2) s' ∧ taken v pid s s') s.
Proof.
  intros Hpid Hi Hin Hun Hsafe. pose proof Hi as [Hlk Hl Hd Hp Hf].
  unfold kalloc. wp_step. apply wp_lock_kmem; [done|]. apply wp_bind.
  destruct (Z.eqb_spec pid (-2)); [done|].
  eapply wp_mono; [by apply (select_page_refines pid l1 v l2)|].
  intros r s1 (-> & Hl1 & H1 & H2 & H3 & H4 & H5).
  eapply wp_mono; [apply (record_owner v pid (l1 ++ l2) s); try done;
    [apply Hp; set_fast|simpl in *; congruence]|].
  intros r s' (-> & Hlk' & Hl' & Htk). split_and!; [done| |done].
  by apply (kinv_take l1 v l2 pid s).
Qed.

(** ** What a returning call tells us *)
Lemma load_pid_inv i s x s' :
  load_pid i s = Ret x s' → s' = s ∧ 0 <= i < MAX_FRAME_NUM ∧ x = pg2pid s i.
Proof.
  unfold load_pid. destruct (pg2pid_ok i) eqn:H; [|done].
  apply pg2pid_ok_spec in H. intros [= <- <-]. done.
Qed.

Lemma load_next_inv r s n s' :
  load_next r s = Ret n s' → s' = s ∧ r ≠ 0 ∧ nexts s !! r = Some n.
Proof.
  unfold load_next. destruct (Z.eqb_spec r 0); [done|]. by case_match; intros [= <- <-].
Qed.

Lemma safe_guard_inv w pid s g s' :
  safe_guard (s32 (VA2IDX w)) pid s = Ret g s' → is_page w ∨ w = 0 →
  w ≠ 0 ∧ s' = s ∧ inner w ∧ g = (if safe (pg2pid s) (VA2IDX w) pid then 1 else 0).
Proof.
  intros H Hw.
  assert (0 <= s32 (VA2IDX w) + 1 < MAX_FRAME_NUM) as Hb.
  { unfold safe_guard in H. case_match; apply bind_Ret_inv in H as (x & s1 & H & _);
      by apply load_pid_inv in H as (_ & ? & _). }
  destruct Hw as [Hw| ->]; [|by vm_compute in Hb].
  assert (0 <= VA2IDX w < 57344) as Hr
    by (rewrite VA2IDX_page by done; pose proof (frame_of_range w Hw); lia).
  rewrite s32_small in Hb, H by lia.
  assert (inner w) as Hin by (unfold inner; lia).
  rewrite safe_guard_spec in H by done. injection H as <- <-. by split_and!; auto with kmem.
Qed.

Lemma select_walk_inv fuel pid prev p l s pr v s' :
  is_list (nexts s) p l → (∀ w, w ∈ l → is_page w) →
  select_walk fuel pid prev p s = Ret (pr, v) s' →
  ∃ l1 l2, l = l1 ++ v :: l2 ∧ (∀ w, w ∈ l1 ++ [v] → inner w) ∧
    (∀ w, w ∈ l1 → safe (pg2pid s) (VA2IDX w) pid = false) ∧
    safe (pg2pid s) (VA2IDX v) pid = true.
Proof.
  revert prev p l. induction fuel as [|fuel IH]; intros prev p l Hl Hp H; [done|].
  cbn [select_walk] in H. apply bind_Ret_inv in H as (g & s1 & Hg & H).
  apply safe_guard_inv in Hg as (Hp0 & -> & Hin & ->).
  2:{ destruct l as [|x l]; [by right|]. left. destruct Hl as (-> & _). apply Hp. set_fast. }
  apply is_list_nonnull in Hl as Hl'; [|done]. destruct Hl' as [l' ->].
  destruct (safe (pg2pid s) (VA2IDX p) pid) eqn:Hs; cbn [Z.eqb] in H.
  - injection H as <- <- <-. exists [], l'. split_and!; [done| |set_solver|done].
    intros w Hw. by replace w with p by set_solver.
  - apply bind_Ret_inv in H as (n & s1 & Hn & H). apply load_next_inv in Hn as (-> & _ & Hn).
    destruct Hl as (_ & _ & n' & Hn' & Hl). simplify_eq.
    edestruct (IH (Some p) _ l' Hl) as (l1 & l2 & -> & H1 & H2 & H3); [set_solver|exact H|].
    exists (p :: l1), l2. split_and!; [done| | |done].
    + intros w [->|Hw]%elem_of_cons; [done|by apply H1].
    + intros w [->|Hw]%elem_of_cons; [done|by apply H2].
Qed.

Lemma kalloc_inv pid l s r s' :
  kinv l s → kalloc pid s = Ret r s' →
  ∃ l1 l2, l = l1 ++ r :: l2 ∧ kinv (l1 ++ l2) s' ∧ taken r pid s s' ∧
    (pid ≠ -2 → inner r ∧ safe (pg2pid s) (VA2IDX r) pid = true ∧
      ∀ w, w ∈ l1 → safe (pg2pid s) (VA2IDX w) pid = false).
Proof.
  intros Hi H. destruct (decide (pid = -2)) as [->|Hpid].
  - destruct l as [|v l].
    + exfalso. destruct Hi as [Hlk Hl _ _ _]. simpl in Hl. unfold kalloc in H.
      erewrite bind_Ret in H by by apply lock_kmem_Ret.
      apply bind_Ret_inv in H as (r' & s2 & H2 & H). cbn [Z.eqb] in H2.
      apply bind_Ret_inv in H2 as (r0 & s3 & Hr & H2). injection Hr as <- <-.
      change (freelist _) with (freelist s) in H2. rewrite Hl in H2. simpl in H2. injection H2 as <- <-.
      apply bind_Ret_inv in H as ([] & s3 & _ & H).
      apply bind_Ret_inv in H as ([] & s4 & H & _). vm_compute in H. done.
    + pose proof (kalloc_unknown_refines v l s Hi) as Hw.
      unfold wp in Hw. rewrite H in Hw. destruct Hw as (-> & Hi' & Htk).
      exists [], l. split_and!; done.
  - assert (∃ l1 l2, l = l1 ++ r :: l2 ∧ (∀ w, w ∈ l1 ++ [r] → inner w) ∧
      (∀ w, w ∈ l1 → safe (pg2pid s) (VA2IDX w) pid = false) ∧
      safe (pg2pid s) (VA2IDX r) pid = true) as (l1 & l2 & -> & H1 & H2 & H3).
    { unfold kalloc in H. pose proof Hi as [Hlk Hl Hd Hp Hf].
      erewrite bind_Ret in H by by apply lock_kmem_Ret.
      apply bind_Ret_inv in H as (r' & s2 & H2 & H).
      destruct (Z.eqb_spec pid (-2)); [done|]. unfold select_page in H2.
      apply bind_Ret_inv in H2 as (p & s3 & Hr & H2). injection Hr as <- <-.
      apply bind_Ret_inv in H2 as (fu & s3 & Hr & H2). injection Hr as <- <-.
      apply bind_Ret_inv in H2 as ([pr v] & s3 & Hr & H2).
      apply (select_walk_inv _ _ _ _ l) in Hr; [|done|done].
      apply bind_Ret_inv in H2 as ([] & s4 & _ & H2). injection H2 as <- <-.
      apply bind_Ret_inv in H as ([] & s5 & _ & H).
      apply bind_Ret_inv in H as ([] & s6 & _ & H). injection H as <- <-. done. }
    pose proof (kalloc_refines pid l1 r l2 s Hpid Hi H1 H2 H3) as Hw.
    unfold wp in Hw. rewrite H in Hw. destruct Hw as (_ & Hi' & Htk).
    exists l1, l2. split_and!; try done. intros _. split_and!; try done. apply H1. set_fast.
Qed.

(** ** The allocator as a state machine *)
Definition owned01 (x : Z) : Z := if decide (x = -1) then 0 else 1.

Lemma count_owned_insert f i x :
  0 <= i < MAX_FRAME_NUM →
  count_owned (<[i := x]> f) = count_owned f - owned01 (f i) + owned01 x.
Proof.
  intros Hi. unfold count_owned.
  assert (i ∈ seqZ 0 MAX_FRAME_NUM) as Hin by (apply elem_of_seqZ; lia).
  pose proof (NoDup_seqZ 0 MAX_FRAME_NUM) as Hnd.
  apply list_elem_of_split in Hin as (l1 & l2 & Heq). rewrite Heq in *. clear Heq.
  apply NoDup_app in Hnd as (_ & Hd1 & Hnd). apply NoDup_cons in Hnd as [Hi2 _].
  assert (i ∉ l1) as Hi1 by set_solver.
  rewrite !filter_app, !filter_cons, fn_lookup_insert.
  rewrite !(filter_ext_in (λ j, <[i:=x]> f j ≠ -1) (λ j, f j ≠ -1));
    try (intros j Hj; rewrite fn_lookup_insert_ne; [done|set_solver]).
  unfold owned01. repeat case_decide; rewrite !length_app; simpl; try tauto; lia.
Qed.

Lemma ok_pair_refl x : ok_pair x x.
Proof. unfold ok_pair. lia. Qed.

Lemma isolated_insert_special f i x :
  isolated f → x = -1 ∨ x = -2 → isolated (<[i := x]> f).
Proof.
  intros Hf Hx j Hj. specialize (Hf j Hj). unfold ok_pair in *.
  destruct (decide (i = j)) as [->|]; [rewrite fn_lookup_insert; lia|].
  rewrite (fn_lookup_insert_ne _ i j) by done.
  destruct (decide (i = j + 1)) as [->|]; [rewrite fn_lookup_insert; lia|].
  by rewrite fn_lookup_insert_ne.
Qed.

Lemma isolated_insert_safe f i pid :
  isolated f → 0 <= i → safe f i pid = true → isolated (<[i := pid]> f).
Proof.
  intros Hf Hi Hs j Hj. specialize (Hf j Hj). unfold ok_pair, safe, harmless in *.
  destruct (decide (i = j)) as [->|].
  - rewrite fn_lookup_insert, fn_lookup_insert_ne by lia. lia.
  - rewrite (fn_lookup_insert_ne _ i j) by done.
    destruct (decide (i = j + 1)) as [->|]; [|by rewrite fn_lookup_insert_ne].
    rewrite fn_lookup_insert. replace (j + 1 - 1) with j in Hs by lia. lia.
Qed.

Section machine.
Context (end_ : Z).

(** Clients allocate for an owner other than "free", and free only pages they
    were given and have not freed yet ([out]). *)
Inductive kstep : gset Z * kst → gset Z * kst → Prop :=
| kstep_alloc out s pid r s' :
    pid ≠ -1 → kalloc pid s = Ret r s' → kstep (out, s) ({[r]} ∪ out, s')
| kstep_free out s v s' :
    v ∈ out → kfree end_ v s = Ret () s' → kstep (out, s) (out ∖ {[v]}, s').

(** The allocator and its clients agree on who has what. *)
Record kgood (st : gset Z * kst) (l : list Z) : Prop := {
  good_inv : kinv l (snd st);
  good_end : ∀ v, v ∈ l → end_ <= v;
  good_out : ∀ v, v ∈ fst st → is_page v ∧ end_ <= v ∧ v ∉ l ∧
    (tracked v = true → pg2pid (snd st) (VA2IDX v) ≠ -1);
  good_isolated : isolated (pg2pid (snd st));
  good_count : allocated_count (snd st) = count_owned (pg2pid (snd st));
  good_init : initflag (snd st) = true;
}.

Lemma kstep_alloc_good out s l pid r s' :
  kgood (out, s) l → pid ≠ -1 → kalloc pid s = Ret r s' →
  r ∉ out ∧ r ≠ 0 ∧ ∃ l', l ≡ₚ r :: l' ∧ kgood ({[r]} ∪ out, s') l'.
Proof.
  intros [Hi He Ho Hs Hc Hf] Hpid H. simpl in *.
  destruct (kalloc_inv pid l s r s' Hi H) as (l1 & l2 & -> & Hi' & Htk & Hsafe).
  pose proof Hi as [_ _ Hd Hp Hfree]. pose proof (descending_app_cons _ _ _ Hd) as (_ & H1 & H2).
  assert (is_page r) as Hr by (apply Hp; set_fast).
  assert (r ∉ out) as Hro by (intros Hin; destruct (Ho r Hin) as (_ & _ & ? & _); set_fast).
  split_and!; [done|by apply page_nonnull|].
  exists (l1 ++ l2). split; [by rewrite Permutation_middle|].
  destruct Htk as (Hpg & Hcnt & Hul & Hinit). constructor; simpl.
  - done.
  - intros w Hw; apply He; set_fast.
  - intros v [->%elem_of_singleton|Hv]%elem_of_union.
    + split_and!; [done|apply He; set_fast| |].
      * intros [Hv|Hv]%elem_of_app; [specialize (H1 r Hv)|specialize (H2 r Hv)]; lia.
      * intros Ht. rewrite Hpg, Ht, fn_lookup_insert. done.
    + destruct (Ho v Hv) as (Hvp & Hve & Hvl & Hvo). split_and!; [done..|set_fast|].
      intros Ht. rewrite Hpg. case_match; [|by apply Hvo].
      rewrite fn_lookup_insert_ne; [by apply Hvo|].
      intros Heq. apply VA2IDX_inj in Heq; [subst; set_fast|done..].
  - rewrite Hpg. case_match eqn:Ht; [|done].
    destruct (decide (pid = -2)) as [->|Hp2]; [apply isolated_insert_special; [done|lia]|].
    destruct (Hsafe Hp2) as (Hin & Hsf & _). apply isolated_insert_safe; [done| |done].
    unfold inner in Hin. lia.
  - rewrite Hcnt, Hpg. case_match eqn:Ht; [|lia].
    rewrite count_owned_insert by by apply tracked_page.
    rewrite (Hfree r); [|set_fast|done]. unfold owned01. repeat case_decide; lia.
  - congruence.
Qed.

Lemma kstep_free_good out s l v s' :
  kgood (out, s) l → v ∈ out → kfree end_ v s = Ret () s' →
  kgood (out ∖ {[v]}, s') (insert_desc v l).
Proof.
  intros [Hi He Ho Hs Hc Hf] Hv H. simpl in *.
  destruct (Ho v Hv) as (Hvp & Hve & Hvl & Hvo).
  pose proof (kfree_refines end_ v l s Hi Hvp Hve Hvl) as Hw. unfold wp in Hw. rewrite H in Hw.
  destruct Hw as (Hi' & Hpg & Hcnt & Hul & Hinit). constructor; simpl.
  - done.
  - intros w [->|Hw]%insert_desc_elem; auto.
  - intros w [Hw Hwv]%elem_of_difference. destruct (Ho w Hw) as (Hwp & Hwe & Hwl & Hwo).
    split_and!; [done..| |].
    + intros [->|?]%insert_desc_elem; set_fast.
    + intros Ht. rewrite Hpg. destruct (tracked v); [|by apply Hwo].
      rewrite fn_lookup_insert_ne; [by apply Hwo|].
      intros Heq. apply VA2IDX_inj in Heq; [subst; set_fast|done..].
  - rewrite Hpg. destruct (tracked v); [|done]. apply isolated_insert_special; [done|lia].
  - rewrite Hcnt, Hpg, Hf. destruct (tracked v) eqn:Ht; simpl; [|lia].
    rewrite count_owned_insert by by apply tracked_page.
    specialize (Hvo eq_refl). unfold owned01. repeat case_decide; lia.
  - congruence.
Qed.

Lemma kreach_good st st' l :
  kgood st l → rtc kstep st st' → ∃ l', kgood st' l'.
Proof.
  intros Hg Hr. revert l Hg. induction Hr as [|st1 st2 st3 Hst _ IH]; intros l Hg; [eauto|].
  destruct Hst as [out s pid r s' Hpid H|out s v s' Hv H].
  - destruct (kstep_alloc_good out s l pid r s' Hg Hpid H) as (_ & _ & l' & _ & Hg'). eauto.
  - eapply IH, kstep_free_good; done.
Qed.
End machine.

(** ** Building the free list at boot *)
Lemma PGROUNDUP_spec v :
  0 <= v → v + PGSIZE <= 2 ^ 32 → PGROUNDUP v = (v + PGSIZE - 1) / PGSIZE * PGSIZE.
Proof.
  intros Hv Hv'. unfold PGROUNDUP, PGSIZE in *. rewrite u32_small by lia.
  replace (u32 (Z.lnot (4096 - 1))) with (Z.ldiff (Z.ones 32) (Z.ones 12)) by done.
  apply Z.bits_inj'. intros i Hi. rewrite Z.land_spec, Z.ldiff_spec.
  replace ((v + 4096 - 1) / 4096 * 4096) with (Z.shiftl (Z.shiftr (v + 4096 - 1) 12) 12)
    by (rewrite Z.shiftl_mul_pow2, Z.shiftr_div_pow2 by lia; done).
  rewrite Z.shiftl_spec by done. destruct (decide (i < 12)).
  - rewrite (Z.testbit_neg_r _ (i - 12)) by lia.
    rewrite (Z.ones_spec_low 12) by lia. simpl. by rewrite !andb_false_r.
  - rewrite Z.shiftr_spec by lia. replace (i - 12 + 12) with i by lia.
    rewrite (Z.ones_spec_high 12) by lia. simpl. rewrite andb_true_r.
    destruct (decide (i < 32)); [by rewrite Z.ones_spec_low, andb_true_r by lia|].
    rewrite Z.ones_spec_high, andb_false_r by lia. symmetry.
    apply Z.bits_above_log2; [lia|]. apply Z.log2_lt_pow2; [lia|].
    apply Z.lt_le_trans with (2 ^ 32); [lia|]. apply Z.pow_le_mono_r; lia.
Qed.

Lemma freerange_loop_refines end_ n p fuel l s vend :
  (n < fuel)%nat → p + PGSIZE * Z.of_nat n <= vend < p + PGSIZE * Z.of_nat n + PGSIZE →
  p mod PGSIZE = 0 → KERNBASE <= p → p + PGSIZE * Z.of_nat n <= KERNBASE + PHYSTOP →
  end_ <= p → kinv l s → (∀ w, w ∈ l → w < p) →
  wp (freerange_loop end_ fuel p vend) (λ _ s', ∃ l', kinv (l' ++ l) s' ∧
    (∀ w, w ∈ l' ↔ is_page w ∧ p <= w < p + PGSIZE * Z.of_nat n) ∧
    initflag s' = initflag s ∧ (initflag s = false → allocated_count s' = allocated_count s)) s.
Proof.
  revert p fuel l s. induction n as [|n IH];
    intros p fuel l s Hfuel Hv Hal Hp Htop Hend Hi Hlt; (destruct fuel as [|fuel]; [lia|]);
    cbn [freerange_loop].
  - destruct (Z.leb_spec (p + PGSIZE) vend); [unfold PGSIZE in *; lia|]. apply wp_mret.
    exists []. split_and!; [done| |done|done]. intros w. split; [set_solver|lia].
  - destruct (Z.leb_spec (p + PGSIZE) vend); [|unfold PGSIZE in *; lia]. wp_step.
    assert (is_page p) as Hpp by (split; [unfold PGSIZE in *; lia|done]).
    assert (p ∉ l) as Hpl by (intros Hin; specialize (Hlt p Hin); lia).
    eapply wp_mono; [by apply (kfree_refines end_ p l)|].
    intros [] s1 (Hi1 & _ & Hcnt & _ & Hinit).
    rewrite insert_desc_head in Hi1 by done.
    eapply wp_mono; [apply (IH (p + PGSIZE) fuel (p :: l)); try done; try (unfold PGSIZE in *; lia)|].
    { by rewrite <- Z.add_mod_idemp_r, Z_mod_same_full, Z.add_0_r by (unfold PGSIZE; lia). }
    { intros w [->|Hw]%elem_of_cons; [unfold PGSIZE; lia|]. specialize (Hlt w Hw). unfold PGSIZE; lia. }
    intros [] s2 (l' & Hi2 & Hl' & Hinit2 & Hcnt2). exists (l' ++ [p]). split_and!.
    + by rewrite <- app_assoc.
    + intros w. rewrite elem_of_app, Hl', list_elem_of_singleton. split.
      * intros [[? ?]| ->]; unfold PGSIZE in *; (split; [done|lia]).
      * intros [Hw Hr]. destruct (decide (w = p)) as [->|]; [by right|left].
        split; [done|]. destruct Hw as [_ Hw]. unfold PGSIZE in *. Z.div_mod_to_equations. lia.
    + congruence.
    + intros Hf. rewrite Hcnt2 by congruence. rewrite Hcnt, Hf, andb_false_r. lia.
Qed.

(** Pages above a tracked page are tracked too: frames are numbered from the top. *)
Lemma inner_above w v : inner w → is_page w → is_page v → w <= v → inner v.
Proof.
  unfold inner. intros Hw Hpw Hpv Hle. rewrite !VA2IDX_page, !frame_of_page in * by done.
  destruct Hpv as [Hv _]. unfold MAX_FRAME_NUM, KERNBASE, PHYSTOP, PGSIZE in *.
  Z.div_mod_to_equations. lia.
Qed.

Lemma first_safe f pid l w0 :
  descending l → w0 ∈ l → safe f (VA2IDX w0) pid = true →
  ∃ l1 v l2, l = l1 ++ v :: l2 ∧ safe f (VA2IDX v) pid = true ∧ w0 <= v ∧
    ∀ w, w ∈ l1 → safe f (VA2IDX w) pid = false.
Proof.
  intros Hd Hw0 Hs0. induction l as [|x l IH]; [set_solver|].
  pose proof (descending_app_cons [] x l Hd) as (Hd' & _ & Hx).
  destruct (safe f (VA2IDX x) pid) eqn:Hsx.
  - exists [], x, l. split_and!; [done|done| |set_solver].
    apply elem_of_cons in Hw0 as [->|Hw0]; [lia|]. specialize (Hx w0 Hw0). lia.
  - apply elem_of_cons in Hw0 as [->|Hw0]; [congruence|].
    destruct (IH Hd' Hw0) as (l1 & v & l2 & -> & Hv & Hle & Hun). exists (x :: l1), v, l2.
    split_and!; [done..|]. intros w [->|Hw]%elem_of_cons; auto.
Qed.

(** ** Theorems *)

(** C1: Rowhammer isolation and accounting, over every history.  From a state in
    which the allocator and its clients agree ([kgood]), after any sequence of
    [kalloc]s (for any owners) and [kfree]s of outstanding pages: no two adjacent
    frames belong to two different known processes, and [allocated_count] is the
    number of owned frames. *)
Theorem kalloc_history_isolated end_ st st' l :
  kgood end_ st l → rtc (kstep end_) st st' →
  isolated (pg2pid (snd st')) ∧
  allocated_count (snd st') = count_owned (pg2pid (snd st')).
Proof. intros Hg Hr. destruct (kreach_good end_ st st' l Hg Hr) as [l' [? ? ? ? ? ?]]. done. Qed.

(** C2: [kalloc] of a known process, with a free page inside the tracked top 64 MB
    that is safe for it, returns the highest such page: it is tracked and safe,
    every other safe page with both neighbours in the table lies below it, every
    free page above it is unsafe, exactly that page leaves the free list, and its
    owner is recorded.  The rest of the list may hold any pages, those below the
    tracked range too, as it does from boot on. *)
Theorem kalloc_highest_safe pid l s :
  pid ≠ -2 → kinv l s →
  (∃ w, w ∈ l ∧ inner w ∧ safe (pg2pid s) (VA2IDX w) pid = true) →
  wp (kalloc pid) (λ r s', r ∈ l ∧ inner r ∧ safe (pg2pid s) (VA2IDX r) pid = true ∧
    (∀ w, w ∈ l → inner w → safe (pg2pid s) (VA2IDX w) pid = true → w <= r) ∧
    (∀ w, w ∈ l → r < w → inner w ∧ safe (pg2pid s) (VA2IDX w) pid = false) ∧
    kinv (filter (λ w, w ≠ r) l) s' ∧ taken r pid s s') s.
Proof.
  intros Hpid Hi (w0 & Hw0 & Hin0 & Hs0).
  assert (∃ l1 v l2, l = l1 ++ v :: l2 ∧ safe (pg2pid s) (VA2IDX v) pid = true ∧ w0 <= v ∧
    ∀ w, w ∈ l1 → safe (pg2pid s) (VA2IDX w) pid = false) as (l1 & v & l2 & -> & Hs & Hle & Hun)
    by exact (first_safe _ _ _ _ (kinv_desc _ _ Hi) Hw0 Hs0).
  pose proof (kinv_desc _ _ Hi) as Hd. pose proof (descending_app_cons _ _ _ Hd) as (Hd' & H1 & H2).
  assert (∀ w, w ∈ l1 ++ [v] → inner w) as Hin.
  { intros w Hw. apply (inner_above w0); [done|apply (kinv_pages _ _ Hi); set_fast..|].
    apply elem_of_app in Hw as [Hw| ->%list_elem_of_singleton]; [specialize (H1 w Hw)|]; lia. }
  eapply wp_mono; [apply (kalloc_refines pid l1 v l2); done|].
  intros r s' (-> & Hi' & Htk). split_and!; [set_fast|apply Hin; set_fast|done| | | |done].
  - intros w [Hw|[->|Hw]%elem_of_cons]%elem_of_app _ Hsw; [by rewrite (Hun w Hw) in Hsw|lia|].
    specialize (H2 w Hw). lia.
  - intros w [Hw|[->|Hw]%elem_of_cons]%elem_of_app Hlt; [|lia|specialize (H2 w Hw); lia].
    split; [apply Hin; set_fast|by apply Hun].
  - replace (filter _ _) with (l1 ++ l2); [done|].
    rewrite filter_app, filter_cons_False by tauto.
    f_equal; symmetry; apply filter_all; intros w Hw;
      [specialize (H1 w Hw)|specialize (H2 w Hw)]; lia.
Qed.

(** C3: freeing the page just allocated undoes the allocation: the free list is
    the same list again, and every owner and the count are what they were. *)
Theorem kalloc_kfree_roundtrip end_ pid l s r s' :
  kinv l s → initflag s = true → (∀ w, w ∈ l → end_ <= w) → kalloc pid s = Ret r s' →
  wp (kfree end_ r) (λ _ s'', kinv l s'' ∧ (∀ i, pg2pid s'' i = pg2pid s i) ∧
    allocated_count s'' = allocated_count s) s'.
Proof.
  intros Hi Hf He H. destruct (kalloc_inv pid l s r s' Hi H) as (l1 & l2 & -> & Hi' & Htk & _).
  pose proof Hi as [_ _ Hd Hp Hfree]. pose proof (descending_app_cons _ _ _ Hd) as (_ & H1 & H2).
  assert (r ∉ l1 ++ l2) as Hr by
    (intros [Hw|Hw]%elem_of_app; [specialize (H1 r Hw)|specialize (H2 r Hw)]; lia).
  eapply wp_mono; [apply (kfree_refines end_ r (l1 ++ l2) s' Hi'); [apply Hp; set_fast|apply He; set_fast|done]|].
  destruct Htk as (Hpg & Hcnt & _ & Hinit).
  intros [] s'' (Hi'' & Hpg' & Hcnt' & _). rewrite insert_desc_middle in Hi'' by done.
  split_and!; [done| |].
  - intros i. rewrite Hpg', Hpg. destruct (tracked r) eqn:Ht; [|done].
    destruct (decide (VA2IDX r = i)) as [<-|Hne].
    + rewrite fn_lookup_insert. symmetry. apply Hfree; [set_fast|done].
    + by rewrite !fn_lookup_insert_ne.
  - rewrite Hcnt', Hcnt, Hinit, Hf. destruct (tracked r); simpl; lia.
Qed.

(** C4: [kfree] panics exactly on the addresses that are not page-aligned kernel
    addresses between the end of the kernel image and PHYSTOP; on a free-able page
    that is not on the list it returns, with the page inserted in order. *)
Theorem kfree_guard_exact end_ v l s :
  0 <= v < 2 ^ 32 → kinv l s → v ∉ l →
  (kfree end_ v s = Panic "kfree" ↔ ¬ (is_page v ∧ end_ <= v)) ∧
  (is_page v ∧ end_ <= v → wp (kfree end_ v) (λ _ s', kinv (insert_desc v l) s' ∧ freed v s s') s).
Proof.
  intros Hv Hi Hvl. split; [split|].
  - intros H [Hp He]. pose proof (kfree_refines end_ v l s Hi Hp He Hvl) as Hw.
    unfold wp in Hw. by rewrite H in Hw.
  - intros Hn. unfold kfree. rewrite <- (page_guard end_) in Hn by done.
    apply not_false_iff_true in Hn. by rewrite Hn.
  - intros [Hp He]. by apply kfree_refines.
Qed.

(** Running out of memory is not reported.  With an empty free list [kalloc]
    never returns 0: for every owner it indexes [pg2pid] outside its bounds. *)
Theorem kalloc_exhausted_faults pid s :
  locked s = false → freelist s = 0 →
  kalloc pid s = Fault "pg2pid index out of bounds".
Proof.
  intros Hlk Hfl. unfold kalloc. erewrite bind_Ret by by apply lock_kmem_Ret.
  destruct s as [m fl ul lk pg cnt ini]. simpl in *. subst.
  destruct (Z.eqb_spec pid (-2)) as [->|Hp].
  - destruct ul; reflexivity.
  - reflexivity.
Qed.

(** Booting.  [kinit2], given the memory from 4 MB to PHYSTOP after [kinit1] put
    the pages [l] below 4 MB on the list, builds the descending list of all free
    pages and leaves every tracked frame free, so that [kgood] holds. *)
Theorem kinit2_establishes end_ s l out :
  let vstart := KERNBASE + 0x400000 in
  end_ <= vstart → kinv l s → initflag s = false → use_lock s = false → allocated_count s = 0 →
  (∀ w, w ∈ l → end_ <= w < vstart) →
  (∀ v, v ∈ out → is_page v ∧ end_ <= v < vstart ∧ v ∉ l) →
  wp (kinit2 end_ vstart (KERNBASE + PHYSTOP)) (λ _ s', ∃ l', kgood end_ (out, s') (l' ++ l) ∧
    ∀ w, w ∈ l' ↔ is_page w ∧ vstart <= w) s.
Proof.
  intros vstart Hend Hi Hf Hul Hcnt Hl Hout. unfold kinit2, freerange.
  replace (PGROUNDUP vstart) with vstart by done. wp_step.
  assert (∃ n, Z.of_nat n = 56320) as [n Hn] by (exists (Z.to_nat 56320); lia).
  eapply wp_mono; [apply (freerange_loop_refines end_ n vstart _ l s)|].
  { change ((KERNBASE + PHYSTOP - vstart) / PGSIZE) with 56320. lia. }
  1-3: unfold vstart, KERNBASE, PHYSTOP, PGSIZE; rewrite ?Hn; done.
  { unfold vstart, KERNBASE, PHYSTOP, PGSIZE. lia. }
  1-2: done.
  { intros w Hw. apply Hl in Hw. lia. }
  rewrite Hn. intros [] s1 (l' & [Hlk Hli Hd Hp Hfree] & Hl' & Hin1 & Hcnt1).
  wp_steps. exists l'.
  assert (∀ i, 0 <= i < MAX_FRAME_NUM → pg2pid s1 i = -1) as Hall.
  { intros i Hmax. unfold MAX_FRAME_NUM in Hmax. set (w := KERNBASE + (57343 - i) * PGSIZE).
    assert (is_page w) as Hw.
    { unfold w, is_page, KERNBASE, PHYSTOP, PGSIZE. split; [lia|]. Z.div_mod_to_equations. lia. }
    assert (VA2IDX w = i) as Hwi.
    { rewrite VA2IDX_page, frame_of_page by done. unfold w.
      replace (KERNBASE + (57343 - i) * PGSIZE - KERNBASE) with ((57343 - i) * PGSIZE) by lia.
      rewrite Z.div_mul by done. lia. }
    rewrite <- Hwi. apply Hfree.
    - apply elem_of_app. left. apply Hl'. split; [done|].
      unfold w, vstart, KERNBASE, PHYSTOP, PGSIZE. lia.
    - apply tracked_page; [done|]. rewrite Hwi. unfold MAX_FRAME_NUM. lia. }
  split; [constructor; simpl|].
  - by constructor.
  - intros v [Hv|Hv]%elem_of_app; [apply Hl' in Hv; lia|apply Hl in Hv; lia].
  - intros v Hv. destruct (Hout v Hv) as (Hvp & Hve & Hvl). split_and!; [done|lia| |].
    + intros [?%Hl'|?]%elem_of_app; [lia|done].
    + intros Ht. apply tracked_page in Ht; [|done]. rewrite VA2IDX_page, frame_of_page in Ht by done.
      unfold vstart, MAX_FRAME_NUM, PGSIZE, KERNBASE in *. Z.div_mod_to_equations. lia.
  - intros i Hbound. left. apply Hall. lia.
  - rewrite Hcnt1, Hcnt by done. unfold count_owned.
    rewrite (filter_ext_in _ (λ _, False)); [|intros i Hm%elem_of_seqZ; rewrite Hall by lia; tauto].
    clear. induction (seqZ 0 MAX_FRAME_NUM) as [|x xs IH]; [done|]. rewrite filter_cons_False by tauto. done.
  - done.
  - intros w. rewrite Hl'. unfold vstart, is_page, KERNBASE, PHYSTOP, PGSIZE in *. lia.
Qed.

(** ** The theorems at concrete states

    Three free pages at the top of memory, nothing allocated. *)
Definition top_page (i : Z) : Z := KERNBASE + PHYSTOP - PGSIZE * (i + 1).
Definition demo_pages : list Z := [top_page 0; top_page 1; top_page 2].
Definition demo : kst := {|
  nexts := {[ top_page 0 := top_page 1; top_page 1 := top_page 2; top_page 2 := 0 ]};
  freelist := top_page 0; use_lock := true; locked := false;
  pg2pid := λ _, -1; allocated_count := 0; initflag := true |}.

Lemma demo_elem (P : Z → Prop) :
  P (top_page 0) → P (top_page 1) → P (top_page 2) → ∀ w, w ∈ demo_pages → P w.
Proof. intros ??? w [->|[->|[->|[]%elem_of_nil]%elem_of_cons]%elem_of_cons]%elem_of_cons; done. Qed.

Lemma demo_kinv : kinv demo_pages demo.
Proof.
  constructor; [done| | |apply demo_elem; (split; [done|vm_compute; done])|done].
  - simpl. split_and!; try done. exists (top_page 1). split_and!; try done.
    exists (top_page 2). split_and!; try done. by exists 0.
  - repeat constructor.
Qed.

Lemma demo_kgood : kgood 0 (∅, demo) demo_pages.
Proof.
  constructor; simpl; [apply demo_kinv|by apply demo_elem|set_solver| | |done].
  - intros i _. by left.
  - vm_compute. done.
Qed.

Definition after {A} (m : M kst A) (s : kst) : kst :=
  match m s with Ret _ s' => s' | _ => s end.

Lemma kalloc_history_isolated_witness :
  let s1 := after (kalloc 7) demo in
  let s2 := after (kalloc (-2)) s1 in
  let st := ({[top_page 1]} ∪ ({[top_page 0]} ∪ ∅), s2) : gset Z * kst in
  rtc (kstep 0) (∅, demo) st ∧ allocated_count s2 = 2 ∧
  isolated (pg2pid (snd st)) ∧ allocated_count (snd st) = count_owned (pg2pid (snd st)).
Proof.
  intros s1 s2 st.
  assert (rtc (kstep 0) (∅, demo) st) as Hr.
  { eapply rtc_l; [by apply (kstep_alloc 0 ∅ demo 7 (top_page 0) s1)|].
    eapply rtc_l; [by apply (kstep_alloc 0 _ s1 (-2) (top_page 1) s2)|]. apply rtc_refl. }
  split; [exact Hr|]. split; [reflexivity|].
  exact (kalloc_history_isolated 0 _ _ demo_pages demo_kgood Hr).
Defined.

Lemma kalloc_kfree_roundtrip_witness :
  let s1 := after (kalloc 7) demo in
  kalloc 7 demo = Ret (top_page 0) s1 ∧
  wp (kfree 0 (top_page 0)) (λ _ s'', kinv demo_pages s'' ∧ (∀ i, pg2pid s'' i = pg2pid demo i) ∧
    allocated_count s'' = allocated_count demo) s1.
Proof.
  intros s1. assert (kalloc 7 demo = Ret (top_page 0) s1) as H by reflexivity. split; [exact H|].
  apply (kalloc_kfree_roundtrip 0 7 demo_pages demo _ _ demo_kinv eq_refl); [|exact H].
  by apply demo_elem.
Defined.

Lemma kfree_guard_exact_witness :
  let v := top_page 5 in
  (kfree 0 v demo = Panic "kfree" ↔ ¬ (is_page v ∧ 0 <= v)) ∧
  (is_page v ∧ 0 <= v → wp (kfree 0 v) (λ _ s', kinv (insert_desc v demo_pages) s' ∧ freed v demo s') demo).
Proof.
  intros v. apply (kfree_guard_exact 0 v demo_pages demo).
  - vm_compute. done.
  - apply demo_kinv.
  - unfold demo_pages, v, top_page, KERNBASE, PHYSTOP, PGSIZE. simpl. set_solver by lia.
Defined.

Definition empty_demo : kst := set_freelist 0 demo.
Lemma kalloc_exhausted_faults_witness :
  kalloc 7 empty_demo = Fault "pg2pid index out of bounds".
Proof. apply (kalloc_exhausted_faults 7 empty_demo); reflexivity. Defined.

Definition boot_demo : kst := {|
  nexts := ∅; freelist := 0; use_lock := false; locked := false;
  pg2pid := λ _, 0; allocated_count := 0; initflag := false |}.
Lemma kinit2_establishes_witness :
  let vstart := KERNBASE + 0x400000 in
  wp (kinit2 (KERNBASE + 0x115000) vstart (KERNBASE + PHYSTOP)) (λ _ s', ∃ l',
    kgood (KERNBASE + 0x115000) (∅, s') (l' ++ []) ∧ ∀ w, w ∈ l' ↔ is_page w ∧ vstart <= w) boot_demo.
Proof.
  apply (kinit2_establishes (KERNBASE + 0x115000) boot_demo [] ∅); try done.
  - constructor; try done; try constructor; set_solver.
  - set_solver.
Defined.

(** The first [kalloc] after boot: the list holds every page from 4 MB on, most of
    them below the tracked range. *)
Lemma kalloc_highest_safe_witness :
  let low := KERNBASE + 0x400000 in
  ∃ l s, kinit2 (KERNBASE + 0x115000) low (KERNBASE + PHYSTOP) boot_demo = Ret () s ∧
    low ∈ l ∧ tracked low = false ∧
    wp (kalloc 7) (λ r s', r ∈ l ∧ inner r ∧ safe (pg2pid s) (VA2IDX r) 7 = true ∧
      (∀ w, w ∈ l → inner w → safe (pg2pid s) (VA2IDX w) 7 = true → w <= r) ∧
      (∀ w, w ∈ l → r < w → inner w ∧ safe (pg2pid s) (VA2IDX w) 7 = false) ∧
      kinv (filter (λ w, w ≠ r) l) s' ∧ taken r 7 s s') s.
Proof.
  intros low.
  assert (wp (kinit2 (KERNBASE + 0x115000) low (KERNBASE + PHYSTOP)) (λ _ s', ∃ l',
    kgood (KERNBASE + 0x115000) (∅, s') (l' ++ []) ∧ ∀ w, w ∈ l' ↔ is_page w ∧ low <= w) boot_demo)
    as Hwp.
  { apply (kinit2_establishes (KERNBASE + 0x115000) boot_demo [] ∅); try done.
    - constructor; try done; try constructor; set_solver.
    - set_solver. }
  destruct (proj1 (wp_returns _ _ _) Hwp) as (u & s & E & l & Hg & Hl). rewrite app_nil_r in Hg.
  destruct Hg as [Hi _ _ _ _ _]. simpl in Hi.
  destruct u. exists l, s. split; [exact E|]. clear E Hwp. split; [by apply Hl|]. split; [reflexivity|].
  apply kalloc_highest_safe; [done|done|].
  assert (∀ i, 0 <= i < 3 → top_page i ∈ l) as Htop by (intros i Hr; apply Hl;
    unfold top_page, is_page, low, KERNBASE, PHYSTOP, PGSIZE; split; [split; [lia|]|lia];
    Z.div_mod_to_equations; lia).
  assert (∀ i, 0 <= i < 3 → pg2pid s (VA2IDX (top_page i)) = -1) as Hfree.
  { intros i Hr. apply (kinv_free _ _ Hi); [by apply Htop|].
    assert (i = 0 ∨ i = 1 ∨ i = 2) as [->|[->| ->]] by lia; reflexivity. }
  exists (top_page 0). split; [by apply Htop|]. split; [vm_compute; done|].
  unfold safe. change (VA2IDX (top_page 0) + 1) with (VA2IDX (top_page 1)).
  rewrite Hfree by done. reflexivity.
Defined.
