(* ===== verification/KallocV1.v ===== *)
(** * The first allocators of src/05_xv6_memory_safe_allocation/src:
    v1a/kalloc.c and v1b/kalloc.c.

    After boot [kalloc] gives away one page and skips the next one of the free
    list, a guard that is never handed out; nothing is ever freed again.  The two
    versions differ in the owner they record: v1a writes -2 for everyone. *)

From S2P Require Import Prelude KMem.

Section operations.
Context (end_ : Z).

Definition kfree (v : Z) : M kst () :=
  if negb (u32 v mod PGSIZE =? 0) || (v <? end_) || (PHYSTOP <=? V2P v) then panic "kfree"
  else
    junk_fill v ;;
    i ← gets initflag;
    when (negb i && tracked v) (store_pid (VA2IDX v) (-1)) ;;
    i ← gets initflag;
    when (negb i)
      (lock_kmem ;;
       f ← gets freelist;
       store_next v f ;;
       modify (set_freelist v) ;;
       unlock_kmem).

(** The body both versions share; [owner] is what is stored in [pg2pid]. *)
Definition kalloc_as (owner : Z) : M kst Z :=
  lock_kmem ;;
  r ← gets freelist;
  n ← load_next r;
  modify (set_freelist n) ;;
  when (tracked r)
    (store_pid (VA2IDX r) owner ;;
     modify (λ s, set_allocated_count (allocated_count s + 1) s) ;;
     f ← gets freelist;
     n ← load_next f;
     modify (set_freelist n)) ;;
  unlock_kmem ;;
  mret r.

Definition kalloc_v1a (pid : Z) : M kst Z := kalloc_as (-2).
Definition kalloc_v1b (pid : Z) : M kst Z := kalloc_as pid.

Fixpoint freerange_loop (fuel : nat) (p vend : Z) : M kst () :=
  match fuel with
  | O => diverge
  | S f =>
      if p + PGSIZE <=? vend then kfree p ;; freerange_loop f (p + PGSIZE) vend
      else mret ()
  end.
Definition freerange (vstart vend : Z) : M kst () :=
  let p := PGROUNDUP vstart in
  freerange_loop (S (Z.to_nat ((vend - p) / PGSIZE))) p vend.
Definition kinit1 (vstart vend : Z) : M kst () :=
  modify (set_locked false) ;;
  modify (set_use_lock false) ;;
  freerange vstart vend.
Definition kinit2 (vstart vend : Z) : M kst () :=
  freerange vstart vend ;;
  modify (set_use_lock true) ;;
  modify (set_initflag true).
End operations.

(** ** Guard frames *)

(** Next to an owned frame there is only unowned memory. *)
Definition guarded (f : Z → Z) : Prop :=
  ∀ i, 0 <= i < MAX_FRAME_NUM - 1 → f i = -1 ∨ f (i + 1) = -1.

(** The invariant after boot: the tracked free frames are the frames [j], [j+1],
    ... in that order, everything from [j - 1] down is unowned. *)
Record ginv (j : Z) (l : list Z) (s : kst) : Prop := {
  ginv_lock : locked s = false;
  ginv_init : initflag s = true;
  ginv_j : 0 <= j;
  ginv_list : is_list (nexts s) (freelist s) l;
  ginv_pages : ∀ v, v ∈ l → is_page v;
  ginv_run : ∀ k v, l !! k = Some v → tracked v = true → VA2IDX v = j + Z.of_nat k;
  ginv_low : ∀ i, j - 1 <= i < MAX_FRAME_NUM → 0 <= i → pg2pid s i = -1;
  ginv_guarded : guarded (pg2pid s);
}.

(** One allocation, exactly. *)
Lemma kalloc_as_exact owner l s r s' :
  locked s = false → is_list (nexts s) (freelist s) l → kalloc_as owner s = Ret r s' →
  if tracked r then
    ∃ g t n, l = r :: g :: t ∧ is_list (nexts s) n t ∧
      s' = set_locked false (set_freelist n (set_allocated_count (allocated_count s + 1)
        (set_pg2pid (<[VA2IDX r := owner]> (pg2pid s)) s)))
  else ∃ t n, l = r :: t ∧ is_list (nexts s) n t ∧ s' = set_locked false (set_freelist n s).
Proof.
  intros Hlk Hl H. unfold kalloc_as in H.
  erewrite bind_Ret in H by by apply lock_kmem_Ret.
  apply bind_Ret_inv in H as (r' & s1 & [= <- <-] & H).
  unfold load_next in H. simpl freelist in H. simpl nexts in H.
  apply bind_Ret_inv in H as (n & s1 & Hn & H).
  destruct (Z.eqb_spec (freelist s) 0) as [|Hfl]; [done|].
  destruct (is_list_nonnull _ _ _ Hl Hfl) as [l0 ->].
  destruct Hl as (_ & _ & n' & Hn' & Hl). simpl in Hn. rewrite Hn' in Hn. injection Hn as <- <-.
  apply bind_Ret_inv in H as ([] & s1 & [= <-] & H).
  unfold when in H. destruct (tracked (freelist s)) eqn:Ht.
  - apply bind_Ret_inv in H as ([] & s1 & H1 & H).
    apply bind_Ret_inv in H1 as ([] & s2 & Hst & H1).
    unfold store_pid in Hst. destruct (pg2pid_ok _) eqn:Hok; [|done]. injection Hst as <-.
    apply bind_Ret_inv in H1 as ([] & s2 & [= <-] & H1).
    apply bind_Ret_inv in H1 as (f & s2 & [= <- <-] & H1). simpl in H1.
    apply bind_Ret_inv in H1 as (n & s2 & H2 & [= <-]).
    simpl in H2. destruct (Z.eqb_spec n' 0) as [|Hn0]; [done|].
    destruct (is_list_nonnull _ _ _ Hl Hn0) as [l1 ->].
    destruct Hl as (_ & _ & n'' & Hn'' & Hl). rewrite Hn'' in H2. injection H2 as <- <-.
    apply bind_Ret_inv in H as ([] & s2 & Hul & H). injection H as <- <-.
    rewrite Ht. exists n', l1, n''. split_and!; [done..|].
    revert Hul. destruct s as [? ? [] ? ? ? ?]; simpl in *; subst; by intros [= <-].
  - apply bind_Ret_inv in H as ([] & s1 & [= <-] & H).
    apply bind_Ret_inv in H as ([] & s2 & Hul & H). injection H as <- <-.
    rewrite Ht. exists l0, n'. split_and!; [done..|].
    revert Hul. destruct s as [? ? [] ? ? ? ?]; simpl in *; subst; by intros [= <-].
Qed.

Lemma kalloc_as_step owner j l s r s' :
  ginv j l s → kalloc_as owner s = Ret r s' → ∃ j' l', ginv j' l' s'.
Proof.
  intros [Hlk Hf Hj Hl Hp Hrun Hlow Hg] H. pose proof (kalloc_as_exact owner l s r s' Hlk Hl H) as He.
  destruct (tracked r) eqn:Ht.
  - destruct He as (g & t & n & -> & Hl' & ->). exists (j + 2), t.
    pose proof (Hrun 0%nat r eq_refl Ht) as Hidx. rewrite Z.add_0_r in Hidx.
    constructor; simpl; try done.
    + lia.
    + intros v Hv. apply Hp. set_fast.
    + intros k v Hk Hv. rewrite (Hrun (S (S k)) v Hk Hv). lia.
    + intros i Hi H0. rewrite fn_lookup_insert_ne by lia. apply Hlow; lia.
    + intros i Hi. rewrite Hidx. specialize (Hg i Hi).
      destruct (decide (j = i)) as [->|].
      * right. rewrite fn_lookup_insert_ne by lia. apply Hlow; lia.
      * rewrite (fn_lookup_insert_ne _ j i) by done. destruct (decide (j = i + 1)) as [->|].
        -- left. apply Hlow; lia.
        -- by rewrite fn_lookup_insert_ne.
  - destruct He as (t & n & -> & Hl' & ->). exists (j + 1), t. constructor; simpl; try done.
    + lia.
    + intros v Hv. apply Hp. set_fast.
    + intros k v Hk Hv. rewrite (Hrun (S k) v Hk Hv). lia.
    + intros i Hi H0. apply Hlow; lia.
Qed.

(** After boot, freeing only fills the page with junk. *)
Lemma kfree_step end_ j l s v s' :
  ginv j l s → v ∉ l → kfree end_ v s = Ret () s' → ginv j l s' ∧ pg2pid s' = pg2pid s.
Proof.
  intros [Hlk Hf Hj Hl Hp Hrun Hlow Hg] Hv H. unfold kfree in H.
  destruct (_ || _) in H; [done|].
  assert (s' = set_nexts (<[v:=0x01010101]> (nexts s)) s) as ->.
  { revert H. destruct s; simpl in *; subst. by intros [= <-]. }
  split; [|done]. constructor; simpl; try done. by apply is_list_insert.
Qed.

Section machine.
Context (end_ : Z).
(** Histories of the two versions after boot: allocations for any owner, frees
    of pages that are not on the free list. *)
Inductive gstep (l : list Z) (s : kst) : list Z → kst → Prop :=
| gstep_alloc owner r s' l' :
    kalloc_as owner s = Ret r s' → is_list (nexts s') (freelist s') l' → gstep l s l' s'
| gstep_free v s' : v ∉ l → kfree end_ v s = Ret () s' → gstep l s l s'.

Inductive gsteps : list Z → kst → list Z → kst → Prop :=
| gsteps_refl l s : gsteps l s l s
| gsteps_step l s l1 s1 l2 s2 :
    gstep l s l1 s1 → gsteps l1 s1 l2 s2 → gsteps l s l2 s2.

Lemma is_list_functional m p l1 l2 : is_list m p l1 → is_list m p l2 → l1 = l2.
Proof.
  revert p l2. induction l1 as [|x l1 IH]; intros p l2 H1 H2.
  - simpl in H1. subst. symmetry. by eapply is_list_null.
  - destruct H1 as (-> & Hx & n & Hn & H1). destruct (is_list_nonnull _ _ _ H2 Hx) as [l2' ->].
    destruct H2 as (_ & _ & n' & Hn' & H2). simplify_eq. f_equal. by eapply IH.
Qed.

(** What the next allocation of the page [r] does to the free list [l]: of a tracked
    page the following one goes too, and that is its guard; of an untracked page
    nothing else goes, so the next page handed out is its neighbour. *)
Definition takes (owner r : Z) (l : list Z) (s s' : kst) : Prop :=
  if tracked r then
    ∃ g t, l = r :: g :: t ∧ (tracked g = true → VA2IDX g = VA2IDX r + 1) ∧
      is_list (nexts s') (freelist s') t ∧ pg2pid s' = <[VA2IDX r := owner]> (pg2pid s)
  else ∃ t, l = r :: t ∧ is_list (nexts s') (freelist s') t ∧ pg2pid s' = pg2pid s.

Lemma kalloc_as_takes owner j l s r s' :
  ginv j l s → kalloc_as owner s = Ret r s' → takes owner r l s s'.
Proof.
  intros Hg H.
  pose proof (kalloc_as_exact owner l s r s' (ginv_lock _ _ _ Hg) (ginv_list _ _ _ Hg) H) as He.
  unfold takes. destruct (tracked r) eqn:Hr.
  - destruct He as (g & t & n & -> & Hl & ->). exists g, t. split_and!; [done| |done|done].
    intros Hgt. rewrite (ginv_run _ _ _ Hg 1%nat g eq_refl Hgt), (ginv_run _ _ _ Hg 0%nat r eq_refl Hr). lia.
  - destruct He as (t & n & -> & Hl & ->). by exists t.
Qed.

(** C4: in v1a and v1b no two adjacent frames of the 64 MB that [pg2pid] covers are
    ever both handed out: after any sequence of allocations and frees, one call
    after the other, next to every owned frame of that range there is only unowned
    memory.  It is the page a tracked allocation skips that does it ([takes]); below
    that range no page is skipped, and pages are handed out side by side. *)
Theorem v1_history_guarded j l s l' s' :
  ginv j l s → gsteps l s l' s' →
  guarded (pg2pid s') ∧
  ∀ owner r s'', kalloc_as owner s' = Ret r s'' → takes owner r l' s' s''.
Proof.
  intros Hg Hs. assert (∃ j', ginv j' l' s') as [j' Hg'].
  { revert j Hg. induction Hs as [|l s l1 s1 l2 s2 Hst _ IH]; intros j Hg; [eauto|].
    destruct Hst as [owner r s' l' H Hl|v s' Hv H].
    - destruct (kalloc_as_step _ _ _ _ _ _ Hg H) as (j' & l'' & Hg').
      rewrite (is_list_functional _ _ _ _ Hl (ginv_list _ _ _ Hg')) in IH. eauto.
    - eapply IH, (kfree_step end_ j); eauto. }
  split; [apply Hg'|]. intros. by eapply kalloc_as_takes.
Qed.
End machine.

(** ** Booting *)

(** While booting every page freed goes to the front of the list. *)
Lemma kfree_boot end_ v l s :
  booting l s → is_page v → end_ <= v → (∀ w, w ∈ l → w < v) →
  wp (kfree end_ v) (λ _, booting (v :: l)) s.
Proof.
  intros [Hlk Hini Hl Hd Hfree] Hv He Hlt. assert (v ∉ l) as Hvl by (intros Hx%Hlt; lia).
  assert (descending (v :: l)) as Hd' by (by apply descending_cons).
  unfold kfree.
  assert (0 <= v < 2 ^ 32) as Hvb by (destruct Hv; unfold KERNBASE, PHYSTOP in *; lia).
  rewrite (proj2 (page_guard end_ v Hvb) ltac:(done)). unfold junk_fill.
  pose proof (page_nonnull v Hv) as Hv0. apply wp_bind, wp_modify, wp_bind, wp_gets.
  assert (∀ f, (∀ x, x ∈ v :: l → tracked x = true → f (VA2IDX x) = -1) → wp (i ← gets initflag;
    when (negb i) (lock_kmem ;; f ← gets freelist; store_next v f ;; modify (set_freelist v) ;; unlock_kmem))
    (λ _, booting (v :: l))
    (set_pg2pid f (set_nexts (<[v:=0x01010101]> (nexts s)) s))) as Hpush.
  { intros f Hf. apply wp_bind, wp_gets. simpl initflag. rewrite Hini. apply wp_when. cbn [negb].
    wp_step. apply wp_lock_kmem; [done|]. wp_steps. apply wp_store_next; [done|]. wp_steps.
    apply wp_unlock_kmem; [done|]. constructor; [done|done| |done|done]. simpl. split_and!; [done..|].
    exists (freelist s). split; [by rewrite lookup_insert_eq|].
    apply is_list_insert, is_list_insert; done. }
  simpl initflag. rewrite Hini. cbn [negb]. rewrite andb_true_l. wp_step. apply wp_when.
  destruct (tracked v) eqn:Ht.
  - apply tracked_page in Ht; [|done]. apply wp_store_pid; [done|]. apply Hpush.
    intros x Hx Hxt. simpl. rewrite fn_insert_case. case_decide; [done|].
    apply elem_of_cons in Hx as [->|Hx]; [done|auto].
  - specialize (Hpush (pg2pid s)). destruct s. apply Hpush.
    intros x [->|Hx]%elem_of_cons Hxt; [congruence|auto].
Qed.

(** [kinit2], after [kinit1] put the pages [l] below 4 MB on the list, leaves every
    page above 4 MB on it, highest first, and no frame owned. *)
Lemma kinit2_boots end_ l s :
  end_ <= low_mem → (∀ w, w ∈ l → is_page w ∧ w < low_mem) → booting l s →
  wp (kinit2 end_ low_mem (KERNBASE + PHYSTOP))
    (λ _ s', ∃ L, ginv 0 L s' ∧ ∀ v, v ∈ L ↔ v ∈ l ∨ is_page v ∧ low_mem <= v) s.
Proof.
  intros Hend Hlow Hb. unfold kinit2, freerange. replace (PGROUNDUP low_mem) with low_mem by done. wp_step.
  eapply wp_mono; [apply (freerange_boot end_ (kfree end_)) with (l := l); try done; intros; by apply kfree_boot|].
  intros [] s1 (L & [[Hlk _ Hl Hd _] Hel Hrun Hall]). wp_steps. exists L. split; [|done].
  constructor; simpl; [done|done|lia|done| | | |].
  - intros v [Hv|[Hv _]]%Hel; [by apply Hlow|done].
  - intros k v Hk Ht. by rewrite (Hrun k v Hk Ht).
  - intros i Hi H0. apply Hall. lia.
  - intros i Hi. left. apply Hall. lia.
Qed.

(** A guard is what the skipped page buys: the versions hand out every other
    frame.  (A concrete run, for v1b.) *)
Definition page (i : Z) : Z := KERNBASE + PHYSTOP - PGSIZE * (i + 1).
Definition demo : kst := {|
  nexts := {[ page 0 := page 1; page 1 := page 2; page 2 := page 3; page 3 := page 4; page 4 := 0 ]};
  freelist := page 0; use_lock := true; locked := false;
  pg2pid := λ _, -1; allocated_count := 0; initflag := true |}.
Definition after {A} (m : M kst A) (s : kst) : kst :=
  match m s with Ret _ s' => s' | _ => s end.

Lemma demo_ginv : ginv 0 [page 0; page 1; page 2; page 3; page 4] demo.
Proof.
  constructor; try done.
  - simpl. split_and!; try done. exists (page 1). split_and!; try done.
    exists (page 2). split_and!; try done. exists (page 3). split_and!; try done.
    exists (page 4). split_and!; try done. by exists 0.
  - intros v Hv. rewrite !elem_of_cons in Hv.
    destruct Hv as [->|[->|[->|[->|[->|[]%elem_of_nil]]]]]; by (split; [vm_compute|]).
  - intros k v Hk _. do 5 (destruct k as [|k]; [injection Hk as <-; done|]). done.
  - intros i _. by left.
Qed.

(** From boot on, and in a run of two allocations. *)
Definition boot_demo : kst := {|
  nexts := ∅; freelist := 0; use_lock := false; locked := false;
  pg2pid := λ _, 0; allocated_count := 0; initflag := false |}.

Lemma v1_history_guarded_witness :
  let s1 := after (kalloc_v1b 5) demo in
  let s2 := after (kalloc_v1b 6) s1 in
  (wp (kinit2 (KERNBASE + 0x115000) low_mem (KERNBASE + PHYSTOP)) (λ _ s, ∃ l, low_mem ∈ l ∧
     guarded (pg2pid s) ∧ ∀ owner r s', kalloc_as owner s = Ret r s' → takes owner r l s s') boot_demo) ∧
  pg2pid s2 0 = 5 ∧ pg2pid s2 2 = 6 ∧ guarded (pg2pid s2).
Proof.
  intros s1 s2. split; [|split; [reflexivity|split; [reflexivity|]]].
  - eapply wp_mono; [apply (kinit2_boots (KERNBASE + 0x115000) [] boot_demo); [done|by intros w Hw%elem_of_nil|]|].
    { constructor; [done|done|done|constructor|by intros v Hv%elem_of_nil]. }
    intros [] s (L & Hg & HL). exists L. split; [by apply HL; right|].
    apply (v1_history_guarded 0 0 _ s _ s Hg). apply gsteps_refl.
  - apply (v1_history_guarded 0 0 _ demo [page 4] s2 demo_ginv).
    apply gsteps_step with [page 2; page 3; page 4] s1.
    { apply gstep_alloc with 5 (page 0); [reflexivity|].
      simpl. split_and!; try done. exists (page 3). split_and!; try done.
      exists (page 4). split_and!; try done. by exists 0. }
    apply gsteps_step with [page 4] s2; [|apply gsteps_refl].
    apply gstep_alloc with 6 (page 2); [reflexivity|].
    simpl. split_and!; try done. by exists 0.
Defined.
