(* ===== verification/Spinlock.v ===== *)
(** * Spin locks and interrupt nesting (src/07_xv6_File_System/PartA/spinlock.c and
    [mycpu] of proc.c; the same files serve every xv6 tree of the repository).

    [mach] holds the per-CPU records, the interrupt flag of each hardware CPU and
    the locks.  A CPU is named by its local APIC id, which is what [lapicid()]
    returns when it runs; locks are named by an integer.  The operations are the
    C functions; the second half interleaves several CPUs at the granularity of
    the atomic instructions the functions are made of. *)

From S2P Require Import Prelude.

(** [struct cpu], the fields the locks use. *)
Record cpu := mkCpu { apicid : Z; ncli : Z; intena : bool }.
(** [struct spinlock]; [cpu] is a pointer into [cpus]. *)
Record spinlock := mkLock { locked : bool; lcpu : option nat }.
Record mach := mkMach {
  cpus : list cpu;
  iflag : Z → bool;             (* FL_IF in the flags register of each CPU *)
  locks : Z → spinlock;
}.

Definition set_cpus (c : list cpu) (m : mach) : mach := mkMach c (iflag m) (locks m).
Definition set_iflag (f : Z → bool) (m : mach) : mach := mkMach (cpus m) f (locks m).
Definition set_locks (f : Z → spinlock) (m : mach) : mach := mkMach (cpus m) (iflag m) f.

Definition cli (me : Z) : M mach () := modify (λ m, set_iflag (<[me := false]> (iflag m)) m).
Definition sti (me : Z) : M mach () := modify (λ m, set_iflag (<[me := true]> (iflag m)) m).
(** [readeflags() & FL_IF] *)
Definition interrupts_on (me : Z) : M mach bool := gets (λ m, iflag m me).

(** The index of the first CPU record with this APIC id. *)
Fixpoint cpu_index (l : list cpu) (me : Z) : option nat :=
  match l with
  | [] => None
  | c :: l' => if apicid c =? me then Some 0%nat else S <$> cpu_index l' me
  end.

(** [mycpu()]: the index of the record of the CPU that runs. *)
Definition mycpu (me : Z) : M mach nat :=
  fl ← interrupts_on me;
  if (fl : bool) then panic "mycpu called with interrupts enabled"
  else
    i ← gets (λ m, cpu_index (cpus m) me);
    match i with
    | Some i => mret i
    | None => panic "unknown apicid"
    end.

(** Reading and updating the CPU record at an index. *)
Definition cpu_get (i : nat) : M mach cpu := λ m,
  match cpus m !! i with Some c => Ret c m | None => Fault "cpus index out of bounds" end.
Definition cpu_put (i : nat) (c : cpu) : M mach () := modify (λ m, set_cpus (<[i := c]> (cpus m)) m).

Definition pushcli (me : Z) : M mach () :=
  eflags ← interrupts_on me;
  cli me ;;
  i ← mycpu me;
  c ← cpu_get i;
  (if ncli c =? 0 then cpu_put i (mkCpu (apicid c) (ncli c) eflags) else mret ()) ;;
  i ← mycpu me;
  c ← cpu_get i;
  cpu_put i (mkCpu (apicid c) (ncli c + 1) (intena c)).

Definition popcli (me : Z) : M mach () :=
  fl ← interrupts_on me;
  if (fl : bool) then panic "popcli - interruptible"
  else
    i ← mycpu me;
    c ← cpu_get i;
    cpu_put i (mkCpu (apicid c) (ncli c - 1) (intena c)) ;;
    if ncli c - 1 <? 0 then panic "popcli"
    else
      i ← mycpu me;
      c ← cpu_get i;
      when ((ncli c =? 0) && intena c) (sti me).

(** [lock->locked && lock->cpu == mycpu()] between a [pushcli] and a [popcli]. *)
Definition holding (me l : Z) : M mach bool :=
  pushcli me ;;
  lk ← gets (λ m, locks m l);
  r ← (if locked lk then
         i ← mycpu me;
         mret (bool_decide (lcpu lk = Some i))
       else mret false);
  popcli me ;;
  mret r.

Definition initlock (l : Z) : M mach () :=
  modify (λ m, set_locks (<[l := mkLock false None]> (locks m)) m).

(** [xchg(&lk->locked, 1)] *)
Definition xchg_locked (l : Z) : M mach bool := λ m,
  Ret (locked (locks m l)) (set_locks (<[l := mkLock true (lcpu (locks m l))]> (locks m)) m).

(** The three parts of [acquire]: everything before the loop, one turn of the
    loop, and what follows it.  Alone, a CPU that finds the lock taken spins for
    ever: the whole function then blocks. *)
Definition acquire_enter (me l : Z) : M mach () :=
  pushcli me ;;
  h ← holding me l;
  when h (panic "acquire").
Definition acquire_mark (me l : Z) : M mach () :=
  i ← mycpu me;
  modify (λ m, set_locks (<[l := mkLock (locked (locks m l)) (Some i)]> (locks m)) m).
Definition acquire (me l : Z) : M mach () :=
  acquire_enter me l ;;
  b ← xchg_locked l;
  (if (b : bool) then block else mret ()) ;;
  acquire_mark me l.

(** The parts of [release]: the check and clearing [cpu], the store of 0 to
    [locked], and [popcli]. *)
Definition release_clear (me l : Z) : M mach () :=
  h ← holding me l;
  when (negb h) (panic "release") ;;
  modify (λ m, set_locks (<[l := mkLock (locked (locks m l)) None]> (locks m)) m).
Definition release_store (l : Z) : M mach () :=
  modify (λ m, set_locks (<[l := mkLock false (lcpu (locks m l))]> (locks m)) m).
Definition release (me l : Z) : M mach () :=
  release_clear me l ;;
  release_store l ;;
  popcli me.

(** ** Sequential behaviour *)

Lemma cpu_index_lookup l me i : cpu_index l me = Some i → ∃ c, l !! i = Some c ∧ apicid c = me.
Proof.
  revert i. induction l as [|c l IH]; intros i H; simpl in H; [done|].
  destruct (Z.eqb_spec (apicid c) me) as [He|_].
  - injection H as <-. exists c. by split.
  - apply fmap_Some in H as (j & Hj & ->). by apply IH.
Qed.

Lemma cpu_index_inj l me me' i : cpu_index l me = Some i → cpu_index l me' = Some i → me = me'.
Proof.
  intros (c & Hc & <-)%cpu_index_lookup (c' & Hc' & <-)%cpu_index_lookup. by simplify_eq.
Qed.

Lemma cpu_index_insert l me i c c' :
  l !! i = Some c → apicid c' = apicid c → cpu_index (<[i := c']> l) me = cpu_index l me.
Proof.
  intros Hi Ha. revert i Hi. induction l as [|d l IH]; intros [|i] Hi; simpl in *; simplify_eq.
  - by rewrite Ha.
  - by rewrite (IH i).
Qed.

(** The CPU [me] runs on record [i], whose contents are [c]. *)
Definition on_cpu (m : mach) (me : Z) (i : nat) (c : cpu) : Prop :=
  cpu_index (cpus m) me = Some i ∧ cpus m !! i = Some c.

Lemma mycpu_Ret m me i : cpu_index (cpus m) me = Some i → iflag m me = false → mycpu me m = Ret i m.
Proof.
  intros Hi Hf. unfold mycpu, interrupts_on. erewrite bind_Ret by done. rewrite Hf.
  erewrite bind_Ret by done. by rewrite Hi.
Qed.

Lemma cpu_get_Ret m i c : cpus m !! i = Some c → cpu_get i m = Ret c m.
Proof. intros H. unfold cpu_get. by rewrite H. Qed.

(** The records after a [pushcli] or [popcli]. *)
Definition pushed (m : mach) (me : Z) (i : nat) (c : cpu) : mach :=
  mkMach (<[i := mkCpu (apicid c) (ncli c + 1) (if ncli c =? 0 then iflag m me else intena c)]> (cpus m))
         (<[me := false]> (iflag m)) (locks m).
Definition popped (m : mach) (me : Z) (i : nat) (c : cpu) : mach :=
  mkMach (<[i := mkCpu (apicid c) (ncli c - 1) (intena c)]> (cpus m))
         (if (ncli c - 1 =? 0) && intena c then <[me := true]> (iflag m) else iflag m) (locks m).

Lemma on_cpu_update m me i c c' f k :
  on_cpu m me i c → apicid c' = apicid c → on_cpu (mkMach (<[i := c']> (cpus m)) f k) me i c'.
Proof.
  intros [Hi Hc] Ha. split; simpl.
  - by erewrite cpu_index_insert.
  - apply list_lookup_insert_eq. by eapply lookup_lt_Some.
Qed.

Lemma pushcli_Ret m me i c : on_cpu m me i c → pushcli me m = Ret () (pushed m me i c).
Proof.
  intros [Hi Hc]. unfold pushcli, interrupts_on, cli. do 2 (erewrite bind_Ret by done).
  assert (Hlt := lookup_lt_Some _ _ _ Hc).
  erewrite bind_Ret by (apply mycpu_Ret; [done|apply fn_lookup_insert]).
  erewrite bind_Ret by (by apply cpu_get_Ret).
  unfold pushed. destruct (ncli c =? 0) eqn:E.
  - erewrite bind_Ret by done.
    erewrite bind_Ret by (apply mycpu_Ret; [by simpl; erewrite cpu_index_insert|apply fn_lookup_insert]).
    erewrite bind_Ret by (apply cpu_get_Ret; simpl; by apply list_lookup_insert_eq).
    unfold cpu_put, modify. simpl. unfold set_cpus. simpl. by rewrite list_insert_insert_eq.
  - erewrite bind_Ret by done.
    erewrite bind_Ret by (apply mycpu_Ret; [done|apply fn_lookup_insert]).
    by erewrite bind_Ret by (by apply cpu_get_Ret).
Qed.

Lemma popcli_Ret m me i c :
  on_cpu m me i c → iflag m me = false → 1 <= ncli c → popcli me m = Ret () (popped m me i c).
Proof.
  intros [Hi Hc] Hf Hn. unfold popcli, interrupts_on. erewrite bind_Ret by done. rewrite Hf.
  assert (Hlt := lookup_lt_Some _ _ _ Hc).
  erewrite bind_Ret by (by apply mycpu_Ret). erewrite bind_Ret by (by apply cpu_get_Ret).
  erewrite bind_Ret by done. destruct (Z.ltb_spec (ncli c - 1) 0); [lia|].
  erewrite bind_Ret by (apply mycpu_Ret; [by simpl; erewrite cpu_index_insert|done]).
  erewrite bind_Ret by (apply cpu_get_Ret; simpl; by apply list_lookup_insert_eq).
  unfold popped, when. simpl. by destruct ((ncli c - 1 =? 0) && intena c)%bool.
Qed.

Lemma on_cpu_pushed m me i c :
  on_cpu m me i c →
  on_cpu (pushed m me i c) me i (mkCpu (apicid c) (ncli c + 1) (if ncli c =? 0 then iflag m me else intena c)).
Proof. intros. by apply (on_cpu_update m me i c). Qed.

(** [popcli] undoes [pushcli] up to the recorded [intena]. *)
Definition restored (m : mach) (me : Z) (i : nat) (c : cpu) : mach :=
  mkMach (<[i := mkCpu (apicid c) (ncli c) (if ncli c =? 0 then iflag m me else intena c)]> (cpus m))
         (if ncli c =? 0 then iflag m else <[me := false]> (iflag m)) (locks m).

Lemma popcli_pushed m me i c :
  on_cpu m me i c → 0 <= ncli c → popcli me (pushed m me i c) = Ret () (restored m me i c).
Proof.
  intros Hon Hn. pose proof (on_cpu_pushed m me i c Hon) as Hon'.
  erewrite popcli_Ret; [|exact Hon'|apply fn_lookup_insert|simpl; lia].
  unfold popped, restored, pushed. simpl. replace (ncli c + 1 - 1) with (ncli c) by lia.
  rewrite list_insert_insert_eq. f_equal. f_equal.
  destruct (ncli c =? 0); simpl; [|done].
  destruct (iflag m me) eqn:E; rewrite ?fn_insert_insert; by apply fn_insert_same.
Qed.

Lemma restored_nested m me i c :
  on_cpu m me i c → iflag m me = false → ncli c ≠ 0 → restored m me i c = m.
Proof.
  intros [_ Hc] Hf Hn. unfold restored. apply Z.eqb_neq in Hn as Hb. rewrite Hb.
  destruct m as [cs f ks]; simpl in *. f_equal; [|by apply fn_insert_same].
  apply list_insert_id. rewrite Hc. by destruct c.
Qed.

(** With interrupts already off, [holding] answers and changes nothing. *)
Lemma holding_Ret m me i c l :
  on_cpu m me i c → 0 <= ncli c →
  holding me l m = Ret (locked (locks m l) && bool_decide (lcpu (locks m l) = Some i)) (restored m me i c).
Proof.
  intros Hon Hn. unfold holding.
  erewrite bind_Ret by (by apply pushcli_Ret).
  pose proof (on_cpu_pushed m me i c Hon) as Hon'.
  erewrite bind_Ret by done. simpl locks.
  erewrite (bind_Ret (if locked (locks m l) then _ else _) _ _
    (locked (locks m l) && bool_decide (lcpu (locks m l) = Some i)) (pushed m me i c)).
  - by erewrite bind_Ret by (by apply popcli_pushed).
  - destruct (locked (locks m l)); [|done].
    by erewrite bind_Ret by (apply mycpu_Ret; [apply Hon'|apply fn_lookup_insert]).
Qed.

Lemma holding_nested m me i c l :
  on_cpu m me i c → iflag m me = false → 1 <= ncli c →
  holding me l m = Ret (locked (locks m l) && bool_decide (lcpu (locks m l) = Some i)) m.
Proof.
  intros Hon Hf Hn. erewrite holding_Ret by (done || lia). f_equal. apply restored_nested; done || lia.
Qed.

(** What [acquire] and [release] do to the locks. *)
Definition lock_set (l : Z) (b : bool) (o : option nat) (m : mach) : mach :=
  set_locks (<[l := mkLock b o]> (locks m)) m.

Lemma acquire_enter_Ret m me i c l :
  on_cpu m me i c → 0 <= ncli c →
  acquire_enter me l m =
    (if locked (locks m l) && bool_decide (lcpu (locks m l) = Some i) then Panic "acquire"
     else Ret () (pushed m me i c)).
Proof.
  intros Hon Hn. unfold acquire_enter. erewrite bind_Ret by (by apply pushcli_Ret).
  erewrite bind_Ret by (eapply holding_nested; [by apply on_cpu_pushed|apply fn_lookup_insert|simpl; lia]).
  simpl locks. by destruct (locked (locks m l) && _)%bool.
Qed.

Lemma acquire_Ret m me i c l :
  on_cpu m me i c → 0 <= ncli c → locked (locks m l) = false →
  acquire me l m = Ret () (lock_set l true (Some i) (pushed m me i c)).
Proof.
  intros Hon Hn Hl. unfold acquire.
  erewrite bind_Ret by (by rewrite (acquire_enter_Ret m me i c), Hl).
  unfold xchg_locked. erewrite bind_Ret by done. simpl. rewrite Hl.
  erewrite bind_Ret by done. unfold acquire_mark.
  erewrite bind_Ret by (apply mycpu_Ret; [apply (on_cpu_pushed m me i c Hon)|apply fn_lookup_insert]).
  unfold modify, lock_set, set_locks. simpl. by rewrite fn_lookup_insert, fn_insert_insert.
Qed.

Lemma release_clear_Ret m me i c l :
  on_cpu m me i c → 0 <= ncli c →
  release_clear me l m =
    (if locked (locks m l) && bool_decide (lcpu (locks m l) = Some i)
     then Ret () (lock_set l true None (restored m me i c)) else Panic "release").
Proof.
  intros Hon Hn. unfold release_clear. erewrite bind_Ret by (by apply (holding_Ret m me i c)).
  destruct (locked (locks m l)) eqn:Hl; [|done]. destruct (bool_decide _); [|done].
  unfold when. simpl. erewrite bind_Ret by done. unfold modify, lock_set, restored. simpl. by rewrite Hl.
Qed.

Lemma release_Ret m me i c l :
  on_cpu m me i c → iflag m me = false → 1 <= ncli c → locks m l = mkLock true (Some i) →
  release me l m = Ret () (lock_set l false None (popped m me i c)).
Proof.
  intros Hon Hf Hn Hl. unfold release.
  erewrite bind_Ret by (rewrite (release_clear_Ret m me i c), Hl by (done || lia); simpl;
    by rewrite bool_decide_eq_true_2).
  rewrite restored_nested by (done || lia).
  erewrite bind_Ret by done.
  unfold set_locks. simpl. rewrite fn_lookup_insert. simpl. rewrite fn_insert_insert.
  by erewrite popcli_Ret.
Qed.

(** Acquiring a free lock and releasing it again gives back the machine:
    the locks, the nesting depth and the interrupt flag of every CPU are what
    they were before; only [intena], the saved flag, may have been overwritten. *)
Theorem acquire_release_restores m me i c l :
  on_cpu m me i c → 0 <= ncli c → locks m l = mkLock false None → (0 < ncli c → iflag m me = false) →
  (acquire me l ;; release me l) m = Ret () (restored m me i c) ∧
  iflag (restored m me i c) = iflag m ∧ locks (restored m me i c) = locks m ∧
  apicid <$> cpus (restored m me i c) = apicid <$> cpus m ∧ ncli <$> cpus (restored m me i c) = ncli <$> cpus m.
Proof.
  intros Hon Hn Hl Hf. split; [|split_and!].
  - erewrite bind_Ret by (apply (acquire_Ret m me i c); [done..|by rewrite Hl]).
    erewrite (release_Ret _ me i (mkCpu (apicid c) (ncli c + 1) _));
      [|apply (on_cpu_pushed m me i c Hon)|apply fn_lookup_insert|simpl; lia|apply fn_lookup_insert].
    pose proof (popcli_pushed m me i c Hon Hn) as Hp.
    erewrite popcli_Ret in Hp; [|by apply on_cpu_pushed|apply fn_lookup_insert|simpl; lia].
    assert (Hp' : popped (pushed m me i c) me i (mkCpu (apicid c) (ncli c + 1)
      (if ncli c =? 0 then iflag m me else intena c)) = restored m me i c) by congruence.
    transitivity (Ret () (lock_set l false None (restored m me i c))).
    + rewrite <- Hp'. unfold lock_set, set_locks, popped, pushed. simpl. by rewrite !fn_insert_insert.
    + unfold lock_set, set_locks. f_equal. unfold restored. simpl. f_equal. by apply fn_insert_same.
  - simpl. destruct (Z.eqb_spec (ncli c) 0); [done|]. apply fn_insert_same. apply Hf. lia.
  - done.
  - simpl. rewrite list_fmap_insert. simpl. apply list_insert_id. by rewrite list_lookup_fmap, (proj2 Hon).
  - simpl. rewrite list_fmap_insert. simpl. apply list_insert_id. by rewrite list_lookup_fmap, (proj2 Hon).
Qed.

(** ** Several CPUs

    A thread of control per CPU; between two of its steps any other CPU may take
    any number of steps.  The steps are the parts of [acquire] and [release]
    split at the instructions other CPUs can see: the [xchg], the store to
    [lk->cpu], the store of 0 to [lk->locked]; [popcli] and the checks touch only
    the CPU's own record and the words it alone can make equal to its own.  A CPU
    with no lock may also enable or disable interrupts. *)

Inductive phase := Run | Spin (l : Z) | Mark (l : Z) | Store (l : Z) | Pop (l : Z).
Record thread := mkT { held : list Z; ph : phase }.
Record conf := mkConf { mc : mach; th : Z → thread }.

Inductive step : conf → conf → Prop :=
| step_enter me l m m' t h :
    t me = mkT h Run → is_Some (cpu_index (cpus m) me) → acquire_enter me l m = Ret () m' →
    step (mkConf m t) (mkConf m' (<[me := mkT h (Spin l)]> t))
| step_spin me l m m' t h :
    t me = mkT h (Spin l) → xchg_locked l m = Ret true m' →
    step (mkConf m t) (mkConf m' t)
| step_take me l m m' t h :
    t me = mkT h (Spin l) → xchg_locked l m = Ret false m' →
    step (mkConf m t) (mkConf m' (<[me := mkT h (Mark l)]> t))
| step_mark me l m m' t h :
    t me = mkT h (Mark l) → acquire_mark me l m = Ret () m' →
    step (mkConf m t) (mkConf m' (<[me := mkT (l :: h) Run]> t))
| step_clear me l m m' t h :
    t me = mkT h Run → is_Some (cpu_index (cpus m) me) → release_clear me l m = Ret () m' →
    step (mkConf m t) (mkConf m' (<[me := mkT (filter (.≠ l) h) (Store l)]> t))
| step_store me l m m' t h :
    t me = mkT h (Store l) → release_store l m = Ret () m' →
    step (mkConf m t) (mkConf m' (<[me := mkT h (Pop l)]> t))
| step_pop me l m m' t h :
    t me = mkT h (Pop l) → popcli me m = Ret () m' →
    step (mkConf m t) (mkConf m' (<[me := mkT h Run]> t))
| step_flag me m m' t :
    t me = mkT [] Run → is_Some (cpu_index (cpus m) me) → (cli me m = Ret () m' ∨ sti me m = Ret () m') →
    step (mkConf m t) (mkConf m' t).

(** Power-on: every lock was given to [initlock], nobody holds anything. *)
Definition initial (c : conf) : Prop :=
  (∀ l, locks (mc c) l = mkLock false None) ∧ (∀ me, th c me = mkT [] Run) ∧
  (∀ i k, cpus (mc c) !! i = Some k → ncli k = 0).
Definition reachable (c : conf) : Prop := ∃ c0, initial c0 ∧ rtc step c0 c.

(** The lock whose word the thread has set, held or not yet or no more. *)
Definition owns (t : thread) (l : Z) : Prop := l ∈ held t ∨ ph t = Mark l ∨ ph t = Store l.
Definition depth (t : thread) : Z :=
  Z.of_nat (length (held t)) + match ph t with Run => 0 | _ => 1 end.
(** The lock a phase is about is not among the locks held. *)
Definition ph_fresh (t : thread) : Prop :=
  match ph t with Run | Pop _ => True | Spin l | Mark l | Store l => l ∉ held t end.

Record inv (c : conf) : Prop := {
  inv_cpu : ∀ me i, cpu_index (cpus (mc c)) me = Some i →
    ∃ k, cpus (mc c) !! i = Some k ∧ ncli k = depth (th c me) ∧ (0 < ncli k → iflag (mc c) me = false);
  inv_off : ∀ me, cpu_index (cpus (mc c)) me = None → th c me = mkT [] Run;
  inv_nodup : ∀ me, NoDup (held (th c me)) ∧ ph_fresh (th c me);
  inv_locked : ∀ l, locked (locks (mc c) l) = true ↔ ∃ me, owns (th c me) l;
  inv_unique : ∀ l me me', owns (th c me) l → owns (th c me') l → me = me';
  inv_lcpu : ∀ l i, lcpu (locks (mc c) l) = Some i ↔
    ∃ me, l ∈ held (th c me) ∧ cpu_index (cpus (mc c)) me = Some i;
}.

Lemma inv_initial c : initial c → inv c.
Proof.
  intros (Hl & Ht & Hn). split.
  - intros me i Hi. destruct (cpu_index_lookup _ _ _ Hi) as (k & Hk & _). exists k.
    rewrite Ht. split_and!; [done|by rewrite (Hn _ _ Hk)|]. rewrite (Hn _ _ Hk). lia.
  - intros. apply Ht.
  - intros me. rewrite Ht. split; [constructor|done].
  - intros l. rewrite Hl. split; [done|]. intros (me & Ho). rewrite Ht in Ho.
    unfold owns in Ho. set_solver.
  - intros l me me' Ho. rewrite Ht in Ho. unfold owns in Ho. set_solver.
  - intros l i. rewrite Hl. split; [done|]. intros (me & Ho & _). rewrite Ht in Ho. set_solver.
Qed.

Lemma filter_remove (l : Z) (h : list Z) :
  NoDup h → l ∈ h → Z.of_nat (length (filter (.≠ l) h)) = Z.of_nat (length h) - 1.
Proof.
  induction 1 as [|x h Hx Hnd IH]; [set_solver|]. intros Hl. rewrite filter_cons.
  case_decide as Hxl; simpl.
  - rewrite Nat2Z.inj_succ, IH by set_solver. lia.
  - subst. rewrite filter_all by (intros y Hy ->; done). lia.
Qed.

(** One CPU moves: its record, its flag and its thread change, and the locks
    agree with the new owners. *)
Lemma inv_update m t m' me i k t' :
  inv (mkConf m t) → on_cpu m me i k →
  (∃ k', cpus m' = <[i := k']> (cpus m) ∧ apicid k' = apicid k ∧ ncli k' = depth t' ∧
         (0 < ncli k' → iflag m' me = false)) →
  (∀ me', me' ≠ me → iflag m' me' = iflag m me') →
  NoDup (held t') → ph_fresh t' →
  (∀ l, owns t' l → ∀ me', me' ≠ me → ¬ owns (t me') l) →
  (∀ l, locked (locks m' l) = true ↔ owns t' l ∨ ∃ me', me' ≠ me ∧ owns (t me') l) →
  (∀ l j, lcpu (locks m' l) = Some j ↔
     (l ∈ held t' ∧ j = i) ∨ ∃ me', me' ≠ me ∧ l ∈ held (t me') ∧ cpu_index (cpus m) me' = Some j) →
  inv (mkConf m' (<[me := t']> t)).
Proof.
  intros Hinv Hon (k' & Hcpus & Hap & Hn & Hoff) Hfl Hnd Hfr Hex Hlk Hlc.
  assert (Hidx : ∀ me', cpu_index (cpus m') me' = cpu_index (cpus m) me').
  { intros me'. rewrite Hcpus. eapply cpu_index_insert; [apply Hon|done]. }
  assert (Hlt := lookup_lt_Some _ _ _ (proj2 Hon)).
  split; simpl.
  - intros me' j. rewrite Hidx. intros Hj. rewrite fn_insert_case. case_decide as He.
    + subst me'. assert (j = i) as -> by (destruct Hon; congruence).
      exists k'. rewrite Hcpus, list_lookup_insert_eq by done. done.
    + destruct (inv_cpu _ Hinv me' j Hj) as (kj & Hkj & Hnj & Hfj). exists kj.
      rewrite Hcpus, list_lookup_insert_ne, Hfl by (done || (intros ->; apply He;
        by apply (cpu_index_inj _ _ _ _ Hj (proj1 Hon)))). done.
  - intros me'. rewrite Hidx. intros Hj. rewrite fn_lookup_insert_ne.
    + by apply (inv_off _ Hinv).
    + intros ->. destruct Hon; simplify_eq.
  - intros me'. rewrite fn_insert_case. case_decide; [done|apply (inv_nodup _ Hinv)].
  - intros l. rewrite Hlk. split.
    + intros [Ho|(me' & Hne & Ho)]; [exists me; by rewrite fn_lookup_insert|].
      exists me'. by rewrite fn_lookup_insert_ne.
    + intros (me' & Ho). rewrite fn_insert_case in Ho. case_decide; [by left|right; eauto].
  - intros l me1 me2. rewrite !fn_insert_case. repeat case_decide; subst; try done.
    + intros H1 H2. by destruct (Hex l H1 me2).
    + intros H1 H2. by destruct (Hex l H2 me1).
    + apply (inv_unique _ Hinv).
  - intros l j. rewrite Hlc. split.
    + intros [[Ho ->]|(me' & Hne & Ho & Hj)].
      * exists me. rewrite fn_lookup_insert, Hidx. split; [done|apply Hon].
      * exists me'. by rewrite fn_lookup_insert_ne, Hidx.
    + intros (me' & Ho & Hj). rewrite Hidx in Hj. rewrite fn_insert_case in Ho. case_decide as He.
      * subst. left. split; [done|]. destruct Hon. congruence.
      * right. eauto.
Qed.

(** The same when the locks and what the thread owns do not change. *)
Lemma inv_update_same m t m' me i k t' :
  inv (mkConf m t) → on_cpu m me i k →
  (∃ k', cpus m' = <[i := k']> (cpus m) ∧ apicid k' = apicid k ∧ ncli k' = depth t' ∧
         (0 < ncli k' → iflag m' me = false)) →
  (∀ me', me' ≠ me → iflag m' me' = iflag m me') →
  locks m' = locks m → held t' = held (t me) → ph_fresh t' →
  (∀ l, owns t' l ↔ owns (t me) l) →
  inv (mkConf m' (<[me := t']> t)).
Proof.
  intros Hinv Hon Hk Hfl Hlk Hh Hfr Ho. eapply inv_update; [done..| | | | |]; rewrite ?Hlk, ?Hh.
  - apply (inv_nodup _ Hinv me).
  - done.
  - intros l H1%Ho me' Hne H2. apply Hne. by apply (inv_unique _ Hinv l).
  - intros l. rewrite (inv_locked _ Hinv l), Ho. simpl. split.
    + intros (me' & H). destruct (decide (me' = me)) as [->|]; [by left|right; eauto].
    + intros [H|(me' & _ & H)]; eauto.
  - intros l j. rewrite (inv_lcpu _ Hinv l j). simpl. split.
    + intros (me' & H & Hj). destruct (decide (me' = me)) as [->|]; [|right; eauto].
      left. split; [done|]. destruct Hon. congruence.
    + intros [[H ->]|(me' & _ & H)]; [|eauto]. exists me. split; [done|apply Hon].
Qed.

Lemma inv_on_cpu m t me : inv (mkConf m t) → is_Some (cpu_index (cpus m) me) →
  ∃ i k, on_cpu m me i k ∧ ncli k = depth (t me) ∧ 0 <= ncli k ∧ (0 < ncli k → iflag m me = false).
Proof.
  intros Hinv [i Hi]. destruct (inv_cpu _ Hinv me i Hi) as (k & Hk & Hn & Hf).
  exists i, k. split; [by split|]. split; [done|]. split; [|done]. simpl in Hn. rewrite Hn. unfold depth. destruct (ph _); lia.
Qed.

Lemma inv_busy m t me : inv (mkConf m t) → t me ≠ mkT [] Run → is_Some (cpu_index (cpus m) me).
Proof.
  intros Hinv Ht. destruct (cpu_index (cpus m) me) eqn:E; [eauto|].
  destruct (Ht (inv_off _ Hinv me E)).
Qed.

Lemma locked_split m t me l : inv (mkConf m t) →
  locked (locks m l) = true ↔ owns (t me) l ∨ ∃ me', me' ≠ me ∧ owns (t me') l.
Proof.
  intros Hinv. rewrite (inv_locked _ Hinv l). simpl. split.
  - intros (me' & H). destruct (decide (me' = me)) as [->|]; [by left|right; eauto].
  - intros [H|(me' & _ & H)]; eauto.
Qed.
Lemma lcpu_split m t me i k l j : inv (mkConf m t) → on_cpu m me i k →
  lcpu (locks m l) = Some j ↔
    (l ∈ held (t me) ∧ j = i) ∨ ∃ me', me' ≠ me ∧ l ∈ held (t me') ∧ cpu_index (cpus m) me' = Some j.
Proof.
  intros Hinv Hon. rewrite (inv_lcpu _ Hinv l j). simpl. split.
  - intros (me' & H & Hj). destruct (decide (me' = me)) as [->|]; [left|right; eauto].
    split; [done|]. destruct Hon. congruence.
  - intros [[H ->]|(me' & _ & H)]; [|eauto]. exists me. split; [done|apply Hon].
Qed.
Lemma owner_excl m t me me' l : inv (mkConf m t) → owns (t me) l → me' ≠ me → ¬ owns (t me') l.
Proof. intros Hinv H Hne H'. apply Hne. by apply (inv_unique _ Hinv l). Qed.

Lemma inv_enter me l m m' t h :
  inv (mkConf m t) → t me = mkT h Run → is_Some (cpu_index (cpus m) me) → acquire_enter me l m = Ret () m' →
  inv (mkConf m' (<[me := mkT h (Spin l)]> t)).
Proof.
  intros Hinv Ht Hv Ha. destruct (inv_on_cpu m t me Hinv Hv) as (i & k & Hon & Hn & Hk & Hf).
  rewrite (acquire_enter_Ret m me i k l Hon Hk) in Ha.
  destruct (_ && _)%bool eqn:Hh; [done|]. injection Ha as <-.
  eapply (inv_update_same m t _ me i k); [done|exact Hon|..]; simpl; rewrite ?Ht; try done.
  - eexists. split; [reflexivity|]. rewrite Ht in Hn. unfold depth in *. simpl in *.
    split_and!; [done|lia|]. intros _. by rewrite fn_lookup_insert.
  - intros me' Hne. by rewrite fn_lookup_insert_ne.
  - simpl. intros Hin. rewrite (proj2 (locked_split m t me l Hinv)) in Hh by (left; left; by rewrite Ht).
    rewrite bool_decide_eq_true_2 in Hh; [done|].
    apply (lcpu_split m t me i k l i Hinv Hon). left. by rewrite Ht.
  - intros l'. unfold owns. simpl. naive_solver.
Qed.

Lemma inv_spin me l m m' t h :
  inv (mkConf m t) → t me = mkT h (Spin l) → xchg_locked l m = Ret true m' → inv (mkConf m' t).
Proof.
  intros Hinv Ht Ha. injection Ha as Hl <-. destruct m as [cs f ks]. simpl in *.
  unfold set_locks. simpl. rewrite fn_insert_same; [done|]. destruct (ks l); simpl in *; by subst.
Qed.

Lemma inv_take me l m m' t h :
  inv (mkConf m t) → t me = mkT h (Spin l) → xchg_locked l m = Ret false m' →
  inv (mkConf m' (<[me := mkT h (Mark l)]> t)).
Proof.
  intros Hinv Ht Ha. assert (Hv : is_Some (cpu_index (cpus m) me)) by (by eapply inv_busy; [done|rewrite Ht]).
  destruct (inv_on_cpu m t me Hinv Hv) as (i & k & Hon & Hn & Hk & Hf).
  injection Ha as Hl <-. destruct (inv_nodup _ Hinv me) as [Hnd Hfr]. simpl in Hnd, Hfr.
  rewrite Ht in Hnd, Hfr, Hn. simpl in Hnd, Hfr.
  assert (Hfree : ∀ me', ¬ owns (t me') l).
  { intros me' Ho. assert (locked (locks m l) = true) by (apply (inv_locked _ Hinv); eauto). congruence. }
  eapply (inv_update m t _ me i k); [done|exact Hon|..]; simpl; try done.
  - exists k. split_and!; [|done|done|done]. symmetry. apply list_insert_id, Hon.
  - intros l' [Ho|[Ho|Ho]] me' Hne; simpl in Ho; [|injection Ho as <-; apply Hfree|done].
    apply (owner_excl m t me); [done|rewrite Ht; by left|done].
  - intros l'. rewrite fn_insert_case. case_decide as He; simpl.
    + subst. split; [|done]. intros _. left. right. by left.
    + rewrite (locked_split m t me l' Hinv), Ht. unfold owns at 1 3. simpl. naive_solver.
  - intros l' j. rewrite fn_insert_case. pose proof (lcpu_split m t me i k l' j Hinv Hon) as Hs.
    rewrite Ht in Hs. simpl in Hs. rewrite <- Hs. case_decide; by subst.
Qed.

Lemma inv_mark me l m m' t h :
  inv (mkConf m t) → t me = mkT h (Mark l) → acquire_mark me l m = Ret () m' →
  inv (mkConf m' (<[me := mkT (l :: h) Run]> t)).
Proof.
  intros Hinv Ht Ha. assert (Hv : is_Some (cpu_index (cpus m) me)) by (by eapply inv_busy; [done|rewrite Ht]).
  destruct (inv_on_cpu m t me Hinv Hv) as (i & k & Hon & Hn & Hk & Hf).
  destruct (inv_nodup _ Hinv me) as [Hnd Hfr]. simpl in Hnd, Hfr. rewrite Ht in Hnd, Hfr, Hn. simpl in Hnd, Hfr.
  assert (0 < ncli k) by (rewrite Hn; unfold depth; simpl; lia).
  unfold acquire_mark in Ha. erewrite bind_Ret in Ha by (apply mycpu_Ret; [apply Hon|auto]).
  injection Ha as <-.
  assert (Hown : owns (t me) l) by (rewrite Ht; right; by left).
  assert (Ho : ∀ l', owns (mkT (l :: h) Run) l' ↔ owns (t me) l').
  { intros l'. rewrite Ht. unfold owns. simpl. rewrite elem_of_cons. naive_solver. }
  eapply (inv_update m t _ me i k); [done|exact Hon|..]; simpl; try done.
  - exists k. split_and!; [|done| |auto]; [symmetry; apply list_insert_id, Hon|].
    rewrite Hn. unfold depth. simpl. lia.
  - by constructor.
  - intros l' Hl' me' Hne. apply (owner_excl m t me); [done|by apply Ho|done].
  - intros l'. rewrite Ho, <- (locked_split m t me l' Hinv), fn_insert_case. by case_decide; subst.
  - intros l' j. rewrite fn_insert_case, elem_of_cons. case_decide as He; simpl.
    + subst. split; [intros [= ->]; auto|]. intros [[_ ->]|(me' & Hne & Hh & _)]; [done|].
      destruct (owner_excl m t me me' l Hinv Hown Hne). by left.
    + rewrite (lcpu_split m t me i k l' j Hinv Hon), Ht. simpl. naive_solver.
Qed.

Lemma inv_clear me l m m' t h :
  inv (mkConf m t) → t me = mkT h Run → is_Some (cpu_index (cpus m) me) → release_clear me l m = Ret () m' →
  inv (mkConf m' (<[me := mkT (filter (.≠ l) h) (Store l)]> t)).
Proof.
  intros Hinv Ht Hv Ha. destruct (inv_on_cpu m t me Hinv Hv) as (i & k & Hon & Hn & Hk & Hf).
  destruct (inv_nodup _ Hinv me) as [Hnd _]. simpl in Hnd. rewrite Ht in Hnd, Hn. simpl in Hnd.
  rewrite (release_clear_Ret m me i k l Hon Hk) in Ha.
  destruct (_ && _)%bool eqn:Hh; [|done]. injection Ha as <-. apply andb_true_iff in Hh as [Hl Hc].
  apply bool_decide_eq_true in Hc.
  assert (Hin : l ∈ h).
  { apply (lcpu_split m t me i k l i Hinv Hon) in Hc as [[H _]|(me' & Hne & _ & Hi)]; [by rewrite Ht in H|].
    destruct Hne. by apply (cpu_index_inj _ _ _ _ Hi (proj1 Hon)). }
  pose proof (filter_remove l h Hnd Hin) as Hlen.
  assert (0 < ncli k) by (rewrite Hn; unfold depth; simpl; destruct h; [set_solver|simpl; lia]).
  rewrite restored_nested by (auto || lia).
  assert (Ho : ∀ l', owns (mkT (filter (.≠ l) h) (Store l)) l' ↔ owns (t me) l').
  { intros l'. rewrite Ht. unfold owns. simpl. rewrite list_elem_of_filter.
    destruct (decide (l' = l)); naive_solver. }
  eapply (inv_update m t _ me i k); [done|exact Hon|..]; cbn [ph_fresh ph held cpus iflag locks lock_set set_locks]; try done.
  - exists k. split_and!; [|done| |auto]; [symmetry; apply list_insert_id, Hon|].
    rewrite Hn. unfold depth. cbn [held ph]. lia.
  - by apply NoDup_filter.
  - rewrite list_elem_of_filter. naive_solver.
  - intros l' Hl' me' Hne. apply (owner_excl m t me); [done|by apply Ho|done].
  - intros l'. rewrite Ho, <- (locked_split m t me l' Hinv), fn_insert_case. by case_decide; subst.
  - intros l' j. rewrite fn_insert_case, list_elem_of_filter. case_decide as He.
    + subst. split; [done|]. intros [[[? _] _]|(me' & Hne & Hh & _)]; [done|].
      destruct (owner_excl m t me me' l Hinv ltac:(rewrite Ht; by left) Hne). by left.
    + rewrite (lcpu_split m t me i k l' j Hinv Hon), Ht. simpl. naive_solver.
Qed.

Lemma inv_store me l m m' t h :
  inv (mkConf m t) → t me = mkT h (Store l) → release_store l m = Ret () m' →
  inv (mkConf m' (<[me := mkT h (Pop l)]> t)).
Proof.
  intros Hinv Ht Ha. assert (Hv : is_Some (cpu_index (cpus m) me)) by (by eapply inv_busy; [done|rewrite Ht]).
  destruct (inv_on_cpu m t me Hinv Hv) as (i & k & Hon & Hn & Hk & Hf).
  destruct (inv_nodup _ Hinv me) as [Hnd Hfr]. simpl in Hnd, Hfr. rewrite Ht in Hnd, Hfr, Hn. simpl in Hnd, Hfr.
  injection Ha as <-.
  assert (Hown : owns (t me) l) by (rewrite Ht; right; by right).
  eapply (inv_update m t _ me i k); [done|exact Hon|..]; simpl; try done.
  - exists k. split_and!; [|done|done|auto]. symmetry. apply list_insert_id, Hon.
  - intros l' [Hl'|[?|?]] me' Hne; [|done|done]. apply (owner_excl m t me); [done|rewrite Ht; by left|done].
  - intros l'. rewrite fn_insert_case. case_decide as He; simpl.
    + subst. split; [done|]. intros [[?|[?|?]]|(me' & Hne & Ho)]; [done..|].
      by destruct (owner_excl m t me me' l Hinv Hown Hne).
    + rewrite (locked_split m t me l' Hinv), Ht. unfold owns at 1 3. simpl. naive_solver.
  - intros l' j. pose proof (lcpu_split m t me i k l' j Hinv Hon) as Hs. rewrite Ht in Hs. simpl in Hs.
    rewrite <- Hs, fn_insert_case. by case_decide; subst.
Qed.

Lemma inv_pop me l m m' t h :
  inv (mkConf m t) → t me = mkT h (Pop l) → popcli me m = Ret () m' →
  inv (mkConf m' (<[me := mkT h Run]> t)).
Proof.
  intros Hinv Ht Ha. assert (Hv : is_Some (cpu_index (cpus m) me)) by (by eapply inv_busy; [done|rewrite Ht]).
  destruct (inv_on_cpu m t me Hinv Hv) as (i & k & Hon & Hn & Hk & Hf).
  rewrite Ht in Hn. assert (0 < ncli k) by (rewrite Hn; unfold depth; simpl; lia).
  erewrite popcli_Ret in Ha; [|exact Hon|auto|lia]. injection Ha as <-.
  eapply (inv_update_same m t _ me i k); [done|exact Hon|..]; simpl; rewrite ?Ht; try done.
  - eexists. split; [reflexivity|]. unfold depth in *. simpl in *. split_and!; [done|lia|].
    intros Hpos. destruct (Z.eqb_spec (ncli k - 1) 0); [lia|]. simpl. auto.
  - intros me' Hne. case_match; [by rewrite fn_lookup_insert_ne|done].
  - intros l'. unfold owns. simpl. naive_solver.
Qed.

Lemma inv_flag me m m' t :
  inv (mkConf m t) → t me = mkT [] Run → is_Some (cpu_index (cpus m) me) →
  (cli me m = Ret () m' ∨ sti me m = Ret () m') → inv (mkConf m' t).
Proof.
  intros Hinv Ht Hv Ha. destruct (inv_on_cpu m t me Hinv Hv) as (i & k & Hon & Hn & Hk & Hf).
  rewrite <- (fn_insert_same t me (mkT [] Run) Ht).
  assert (∃ b, m' = set_iflag (<[me := b]> (iflag m)) m) as [b ->].
  { destruct Ha as [Ha|Ha]; injection Ha as <-; eauto. }
  rewrite Ht in Hn.
  eapply (inv_update_same m t _ me i k); [done|exact Hon|..]; simpl; rewrite ?Ht; try done.
  - exists k. split_and!; [symmetry; apply list_insert_id, Hon|done|done|].
    rewrite Hn. unfold depth. simpl. lia.
  - intros me' Hne. by rewrite fn_lookup_insert_ne.
Qed.

Lemma inv_step c c' : inv c → step c c' → inv c'.
Proof.
  intros Hinv Hs. destruct Hs; eauto using inv_enter, inv_spin, inv_take, inv_mark, inv_clear,
    inv_store, inv_pop, inv_flag.
Qed.

Lemma reachable_inv c : reachable c → inv c.
Proof.
  intros (c0 & H0 & Hr). apply inv_initial in H0. induction Hr; eauto using inv_step.
Qed.

(** C16: whatever the CPUs do and however their steps interleave, a lock is held
    by at most one CPU at a time; a CPU that holds a lock runs with interrupts
    off; and [holding] called there answers exactly whether this CPU holds the
    lock and changes nothing. *)
Theorem spinlock_mutual_exclusion c me l :
  reachable c → l ∈ held (th c me) →
  (∀ me', l ∈ held (th c me') → me' = me) ∧ iflag (mc c) me = false ∧
  (∀ l', ph (th c me) = Run → holding me l' (mc c) = Ret (bool_decide (l' ∈ held (th c me))) (mc c)).
Proof.
  intros Hr Hl. apply reachable_inv in Hr as Hinv. destruct c as [m t]. simpl in *.
  assert (Hv : is_Some (cpu_index (cpus m) me)).
  { eapply inv_busy; [done|]. intros E. rewrite E in Hl. set_solver. }
  destruct (inv_on_cpu m t me Hinv Hv) as (i & k & Hon & Hn & Hk & Hf).
  assert (0 < ncli k).
  { rewrite Hn. unfold depth. destruct (held (t me)); [set_solver|]. simpl. destruct (ph _); lia. }
  split_and!; [|auto|].
  - intros me' Hl'. apply (inv_unique _ Hinv l); by left.
  - intros l' Hph. erewrite holding_nested by (done || auto || lia). f_equal.
    pose proof (lcpu_split m t me i k l' i Hinv Hon) as Hs.
    destruct (decide (l' ∈ held (t me))) as [Hin|Hin].
    + rewrite (proj2 (locked_split m t me l' Hinv)) by (left; by left).
      rewrite !bool_decide_eq_true_2; [done|done|]. apply Hs. by left.
    + rewrite (bool_decide_eq_false_2 (l' ∈ _)) by done. apply andb_false_intro2, bool_decide_eq_false_2.
      intros Hc. apply Hs in Hc as [[? _]|(me' & Hne & _ & Hi)]; [done|].
      apply Hne. by apply (cpu_index_inj _ _ _ _ Hi (proj1 Hon)).
Qed.

(** ** Concrete runs *)
Definition two_cpus : mach :=
  mkMach [mkCpu 0 0 false; mkCpu 1 0 false] (λ _, true) (λ _, mkLock false None).
Definition got (m : mach) (f : M mach ()) : mach := match f m with Ret _ m' => m' | _ => m end.
Definition run1 : mach := got two_cpus (acquire_enter 1 7).
Definition run2 : mach := match xchg_locked 7 run1 with Ret _ m' => m' | _ => run1 end.
Definition run3 : mach := got run2 (acquire_mark 1 7).
Definition idle : Z → thread := λ _, mkT [] Run.
Definition holder : conf :=
  mkConf run3 (<[1 := mkT [7] Run]> (<[1 := mkT [] (Mark 7)]> (<[1 := mkT [] (Spin 7)]> idle))).

Lemma holder_reachable : reachable holder.
Proof.
  exists (mkConf two_cpus idle). split.
  - split_and!; [done|done|]. intros [|[|i]] k; simpl; naive_solver.
  - eapply rtc_l; [apply (step_enter 1 7 _ run1); [done|by exists 1%nat|reflexivity]|].
    eapply rtc_l; [apply (step_take 1 7 _ run2 _ []); [apply fn_lookup_insert|reflexivity]|].
    eapply rtc_l; [apply (step_mark 1 7 _ run3 _ []); [apply fn_lookup_insert|reflexivity]|].
    apply rtc_refl.
Qed.

Lemma spinlock_mutual_exclusion_witness :
  reachable holder ∧ iflag (mc holder) 1 = false ∧ holding 1 7 (mc holder) = Ret true (mc holder).
Proof.
  assert (Hin : 7 ∈ held (th holder 1)) by (by apply (list_elem_of_here 7 [])).
  destruct (spinlock_mutual_exclusion holder 1 7 holder_reachable Hin) as (_ & Hf & Hh).
  split; [apply holder_reachable|]. split; [exact Hf|]. exact (Hh 7 eq_refl).
Defined.

Lemma acquire_release_restores_witness :
  on_cpu two_cpus 1 1 (mkCpu 1 0 false) ∧
  (acquire 1 7 ;; release 1 7) two_cpus = Ret () (restored two_cpus 1 1 (mkCpu 1 0 false)).
Proof.
  split; [by split|].
  apply (acquire_release_restores two_cpus 1 1 (mkCpu 1 0 false) 7); [by split|done|done|done].
Defined.
