(* ===== verification/ProcData.v ===== *)
(** * The process table of the multi-level-queue scheduler
    (src/04_xv6_scheduling/src/proc.h, and the variables of proc.c).

    A [struct proc *] is the index of a slot of [ptable.proc], a [queue_node *]
    the index of a node of [ptable.q_node]; [None] is the null pointer.  Other
    pointers (pages, page directories, files, inodes, channels) are integers, 0 is
    null.  The state also holds the machine (CPU record, interrupt flag, locks)
    and, as [env], whatever the rest of the kernel keeps. *)

From S2P Require Import Prelude.
From S2P Require Spinlock.

Definition NPROC : nat := 64.
Definition NLAYER : Z := 4.
Definition NOFILE : nat := 16.
Definition KSTACKSIZE : Z := 4096.

Inductive procstate := UNUSED | EMBRYO | SLEEPING | RUNNABLE | RUNNING | ZOMBIE.
#[export] Instance procstate_eq_dec : EqDecision procstate.
Proof. solve_decision. Defined.

(** [struct trapframe], the registers the code sets, and [struct context]. *)
Record trapframe := mkTf { tf_eax : Z; tf_cs : Z; tf_ds : Z; tf_es : Z; tf_ss : Z; tf_eflags : Z; tf_esp :
    Z; tf_eip : Z }.
Record context := mkCtx { c_edi : Z; c_esi : Z; c_ebx : Z; c_ebp : Z; c_eip : Z }.

(** [queue_node]; its [prev] is never used. *)
Record queue_node := mkNode {
  next : option nat;
  n_proc : option nat;  (* proc *)
  n_ticks : Z;  (* ticks, a uint *)
  n_inuse : Z;  (* inuse *)
}.
Definition set_next (x : option nat) (r : queue_node) : queue_node :=
  mkNode x (n_proc r) (n_ticks r) (n_inuse r).
Definition set_n_proc (x : option nat) (r : queue_node) : queue_node :=
  mkNode (next r) x (n_ticks r) (n_inuse r).
Definition set_n_ticks (x : Z) (r : queue_node) : queue_node :=
  mkNode (next r) (n_proc r) x (n_inuse r).
Definition set_n_inuse (x : Z) (r : queue_node) : queue_node :=
  mkNode (next r) (n_proc r) (n_ticks r) x.

(** [struct proc].  The trap frame and the context live on the kernel stack; the
    model keeps their contents beside the address [kstack]. [saved_intena] is the
    local variable of [sched] that a switched-out process keeps on that stack. *)
Record proc := mkProc {
  sz : Z;
  pgdir : Z;
  kstack : Z;
  state : procstate;
  pid : Z;
  parent : option nat;
  tf : trapframe;
  ctx : context;
  chan : Z;
  killed : Z;
  ofile : list Z;
  cwd : Z;
  name : string;
  q_node : option nat;
  put_in : Z;
  priority : Z;
  ticks : Z → Z;  (* ticks[4] *)
  qtail : Z → Z;  (* qtail[4] *)
  saved_intena : bool;
}.
Definition set_sz (x : Z) (r : proc) : proc :=
  mkProc x (pgdir r) (kstack r) (state r) (pid r) (parent r) (tf r) (ctx r) (chan r) (killed r) (ofile r)
    (cwd r) (name r) (q_node r) (put_in r) (priority r) (ticks r) (qtail r) (saved_intena r).
Definition set_pgdir (x : Z) (r : proc) : proc :=
  mkProc (sz r) x (kstack r) (state r) (pid r) (parent r) (tf r) (ctx r) (chan r) (killed r) (ofile r) (cwd
    r) (name r) (q_node r) (put_in r) (priority r) (ticks r) (qtail r) (saved_intena r).
Definition set_kstack (x : Z) (r : proc) : proc :=
  mkProc (sz r) (pgdir r) x (state r) (pid r) (parent r) (tf r) (ctx r) (chan r) (killed r) (ofile r) (cwd
    r) (name r) (q_node r) (put_in r) (priority r) (ticks r) (qtail r) (saved_intena r).
Definition set_state (x : procstate) (r : proc) : proc :=
  mkProc (sz r) (pgdir r) (kstack r) x (pid r) (parent r) (tf r) (ctx r) (chan r) (killed r) (ofile r) (cwd
    r) (name r) (q_node r) (put_in r) (priority r) (ticks r) (qtail r) (saved_intena r).
Definition set_pid (x : Z) (r : proc) : proc :=
  mkProc (sz r) (pgdir r) (kstack r) (state r) x (parent r) (tf r) (ctx r) (chan r) (killed r) (ofile r)
    (cwd r) (name r) (q_node r) (put_in r) (priority r) (ticks r) (qtail r) (saved_intena r).
Definition set_parent (x : option nat) (r : proc) : proc :=
  mkProc (sz r) (pgdir r) (kstack r) (state r) (pid r) x (tf r) (ctx r) (chan r) (killed r) (ofile r) (cwd
    r) (name r) (q_node r) (put_in r) (priority r) (ticks r) (qtail r) (saved_intena r).
Definition set_tf (x : trapframe) (r : proc) : proc :=
  mkProc (sz r) (pgdir r) (kstack r) (state r) (pid r) (parent r) x (ctx r) (chan r) (killed r) (ofile r)
    (cwd r) (name r) (q_node r) (put_in r) (priority r) (ticks r) (qtail r) (saved_intena r).
Definition set_ctx (x : context) (r : proc) : proc :=
  mkProc (sz r) (pgdir r) (kstack r) (state r) (pid r) (parent r) (tf r) x (chan r) (killed r) (ofile r)
    (cwd r) (name r) (q_node r) (put_in r) (priority r) (ticks r) (qtail r) (saved_intena r).
Definition set_chan (x : Z) (r : proc) : proc :=
  mkProc (sz r) (pgdir r) (kstack r) (state r) (pid r) (parent r) (tf r) (ctx r) x (killed r) (ofile r) (cwd
    r) (name r) (q_node r) (put_in r) (priority r) (ticks r) (qtail r) (saved_intena r).
Definition set_killed (x : Z) (r : proc) : proc :=
  mkProc (sz r) (pgdir r) (kstack r) (state r) (pid r) (parent r) (tf r) (ctx r) (chan r) x (ofile r) (cwd
    r) (name r) (q_node r) (put_in r) (priority r) (ticks r) (qtail r) (saved_intena r).
Definition set_ofile (x : list Z) (r : proc) : proc :=
  mkProc (sz r) (pgdir r) (kstack r) (state r) (pid r) (parent r) (tf r) (ctx r) (chan r) (killed r) x (cwd
    r) (name r) (q_node r) (put_in r) (priority r) (ticks r) (qtail r) (saved_intena r).
Definition set_cwd (x : Z) (r : proc) : proc :=
  mkProc (sz r) (pgdir r) (kstack r) (state r) (pid r) (parent r) (tf r) (ctx r) (chan r) (killed r) (ofile
    r) x (name r) (q_node r) (put_in r) (priority r) (ticks r) (qtail r) (saved_intena r).
Definition set_name (x : string) (r : proc) : proc :=
  mkProc (sz r) (pgdir r) (kstack r) (state r) (pid r) (parent r) (tf r) (ctx r) (chan r) (killed r) (ofile
    r) (cwd r) x (q_node r) (put_in r) (priority r) (ticks r) (qtail r) (saved_intena r).
Definition set_q_node (x : option nat) (r : proc) : proc :=
  mkProc (sz r) (pgdir r) (kstack r) (state r) (pid r) (parent r) (tf r) (ctx r) (chan r) (killed r) (ofile
    r) (cwd r) (name r) x (put_in r) (priority r) (ticks r) (qtail r) (saved_intena r).
Definition set_put_in (x : Z) (r : proc) : proc :=
  mkProc (sz r) (pgdir r) (kstack r) (state r) (pid r) (parent r) (tf r) (ctx r) (chan r) (killed r) (ofile
    r) (cwd r) (name r) (q_node r) x (priority r) (ticks r) (qtail r) (saved_intena r).
Definition set_priority (x : Z) (r : proc) : proc :=
  mkProc (sz r) (pgdir r) (kstack r) (state r) (pid r) (parent r) (tf r) (ctx r) (chan r) (killed r) (ofile
    r) (cwd r) (name r) (q_node r) (put_in r) x (ticks r) (qtail r) (saved_intena r).
Definition set_ticks (x : Z → Z) (r : proc) : proc :=
  mkProc (sz r) (pgdir r) (kstack r) (state r) (pid r) (parent r) (tf r) (ctx r) (chan r) (killed r) (ofile
    r) (cwd r) (name r) (q_node r) (put_in r) (priority r) x (qtail r) (saved_intena r).
Definition set_qtail (x : Z → Z) (r : proc) : proc :=
  mkProc (sz r) (pgdir r) (kstack r) (state r) (pid r) (parent r) (tf r) (ctx r) (chan r) (killed r) (ofile
    r) (cwd r) (name r) (q_node r) (put_in r) (priority r) (ticks r) x (saved_intena r).
Definition set_saved_intena (x : bool) (r : proc) : proc :=
  mkProc (sz r) (pgdir r) (kstack r) (state r) (pid r) (parent r) (tf r) (ctx r) (chan r) (killed r) (ofile
    r) (cwd r) (name r) (q_node r) (put_in r) (priority r) (ticks r) (qtail r) x.

Section state.
Context {E : Type}.

Record pst := mkPst {
  mach : Spinlock.mach;
  procs : nat → proc;  (* ptable.proc *)
  nodes : nat → queue_node;  (* ptable.q_node *)
  q_head : Z → option nat;
  q_tail : Z → option nat;
  nextpid : Z;
  initproc : option nat;
  cproc : option nat;  (* mycpu()->proc *)
  first : bool;  (* forkret's static flag *)
  env : E;
}.
Definition set_mach (x : Spinlock.mach) (r : pst) : pst :=
  mkPst x (procs r) (nodes r) (q_head r) (q_tail r) (nextpid r) (initproc r) (cproc r) (first r) (env r).
Definition set_procs (x : nat → proc) (r : pst) : pst :=
  mkPst (mach r) x (nodes r) (q_head r) (q_tail r) (nextpid r) (initproc r) (cproc r) (first r) (env r).
Definition set_nodes (x : nat → queue_node) (r : pst) : pst :=
  mkPst (mach r) (procs r) x (q_head r) (q_tail r) (nextpid r) (initproc r) (cproc r) (first r) (env r).
Definition set_q_head (x : Z → option nat) (r : pst) : pst :=
  mkPst (mach r) (procs r) (nodes r) x (q_tail r) (nextpid r) (initproc r) (cproc r) (first r) (env r).
Definition set_q_tail (x : Z → option nat) (r : pst) : pst :=
  mkPst (mach r) (procs r) (nodes r) (q_head r) x (nextpid r) (initproc r) (cproc r) (first r) (env r).
Definition set_nextpid (x : Z) (r : pst) : pst :=
  mkPst (mach r) (procs r) (nodes r) (q_head r) (q_tail r) x (initproc r) (cproc r) (first r) (env r).
Definition set_initproc (x : option nat) (r : pst) : pst :=
  mkPst (mach r) (procs r) (nodes r) (q_head r) (q_tail r) (nextpid r) x (cproc r) (first r) (env r).
Definition set_cproc (x : option nat) (r : pst) : pst :=
  mkPst (mach r) (procs r) (nodes r) (q_head r) (q_tail r) (nextpid r) (initproc r) x (first r) (env r).
Definition set_first (x : bool) (r : pst) : pst :=
  mkPst (mach r) (procs r) (nodes r) (q_head r) (q_tail r) (nextpid r) (initproc r) (cproc r) x (env r).
Definition set_env (x : E) (r : pst) : pst :=
  mkPst (mach r) (procs r) (nodes r) (q_head r) (q_tail r) (nextpid r) (initproc r) (cproc r) (first r) x.

(** [p->field] as a value and as the target of an assignment. *)
Definition pget {A} (p : nat) (f : proc → A) : M pst A := gets (λ s, f (procs s p)).
Definition pset (p : nat) (f : proc → proc) : M pst () :=
  modify (λ s, set_procs (<[p := f (procs s p)]> (procs s)) s).
Definition nget {A} (n : nat) (f : queue_node → A) : M pst A := gets (λ s, f (nodes s n)).
Definition nset (n : nat) (f : queue_node → queue_node) : M pst () :=
  modify (λ s, set_nodes (<[n := f (nodes s n)]> (nodes s)) s).
(** Following a pointer that may be null. *)
Definition deref (o : option nat) : M pst nat :=
  match o with Some n => mret n | None => fault "null pointer dereference" end.
(** [q_head[pri]], [q_tail[pri]]: arrays of [NLAYER] pointers. *)
Definition layer_ok (pri : Z) : bool := (0 <=? pri) && (pri <? NLAYER).
Definition get_head (pri : Z) : M pst (option nat) :=
  if layer_ok pri then gets (λ s, q_head s pri) else fault "q_head index out of bounds".
Definition get_tail (pri : Z) : M pst (option nat) :=
  if layer_ok pri then gets (λ s, q_tail s pri) else fault "q_tail index out of bounds".
Definition put_head (pri : Z) (n : option nat) : M pst () :=
  if layer_ok pri then modify (λ s, set_q_head (<[pri := n]> (q_head s)) s) else fault "q_head index out of
    bounds".
Definition put_tail (pri : Z) (n : option nat) : M pst () :=
  if layer_ok pri then modify (λ s, set_q_tail (<[pri := n]> (q_tail s)) s) else fault "q_tail index out of
    bounds".
(** [p->ticks[pri] += 1] and [p->qtail[pri] += 1] *)
Definition incr (f : Z → Z) (i : Z) : Z → Z := <[i := s32 (f i + 1)]> f.
End state.
#[global] Arguments pst : clear implicits.
