(* ===== verification/Mlq.v ===== *)
(** * The four scheduling queues (src/04_xv6_scheduling/src/proc.c: put_tail_q,
    rm_from_q, refresh_q, the queue part of scheduler, proc_setpri, proc_getpri and
    proc_gather_pstat).

    The first part is the code; the second relates the linked lists to lists of
    processes: [queues s Q] says that following [next] from [q_head[pri]] visits
    the nodes of the processes [Q pri], that [q_tail[pri]] is the last of them,
    and that the back pointers agree. *)

From S2P Require Import Prelude ProcData.

Section code.
Context {E : Type}.
Implicit Types s : pst E.

Definition put_tail_q (node : option nat) (pri : Z) : M (pst E) () :=
  n ← deref node;
  nset n (set_next None) ;;
  nset n (set_n_ticks 0) ;;
  p ← nget n n_proc;
  p ← deref p;
  (if layer_ok pri then pset p (λ r, set_qtail (incr (qtail r) pri) r)
   else fault "qtail index out of bounds") ;;
  t ← get_tail pri;
  match t with
  | None => put_head pri (Some n) ;; put_tail pri (Some n)
  | Some t => nset t (set_next (Some n)) ;; put_tail pri (Some n)
  end.

(** [while (prev->next != 0 && prev->next != node) prev = prev->next;]: the
    value of [prev] after the loop.  A list of distinct nodes has at most [NPROC]
    of them, so this fuel is only used up on a cyclic list. *)
Fixpoint rm_walk (fuel : nat) (prev : nat) (node : option nat) : M (pst E) nat :=
  match fuel with
  | O => diverge
  | S fuel =>
      nx ← nget prev next;
      match nx with
      | None => mret prev
      | Some x => if decide (Some x = node) then mret prev else rm_walk fuel x node
      end
  end.

Definition rm_from_q (node : option nat) (pri : Z) : M (pst E) () :=
  h ← get_head pri;
  match h with
  | None => mret ()
  | Some hd =>
      if decide (Some hd = node) then
        t ← get_tail pri;
        when (bool_decide (t = Some hd)) (put_tail pri None) ;;
        nx ← nget hd next;
        put_head pri nx
      else
        prev ← rm_walk NPROC hd node;
        nx ← nget prev next;
        match nx with
        | None => mret ()
        | Some x => nn ← nget x next; nset prev (set_next nn)
        end
  end.

(** [(5 - p->put_in) * 4]: the time slice of a queue, compared as a [uint]. *)
Definition slice (pri : Z) : Z := u32 ((5 - pri) * 4).

(** The condition of the last branch of [refresh_q], evaluated left to right. *)
Definition must_requeue (p : nat) : M (pst E) bool :=
  put_in ← pget p put_in;
  priority ← pget p priority;
  if negb (put_in =? priority) then mret true
  else if put_in =? -1 then mret false
  else
    n ← pget p q_node;
    n ← deref n;
    t ← nget n n_ticks;
    mret (t =? slice put_in).

Definition refresh_one (p : nat) : M (pst E) () :=
  st ← pget p state;
  pin ← pget p put_in;
  if decide (st = UNUSED) then mret ()
  else if decide (st ≠ RUNNABLE ∧ pin ≠ -1) then
    n ← pget p q_node;
    rm_from_q n pin ;;
    pset p (set_put_in (-1))
  else if decide (st = RUNNABLE ∧ pin = -1) then
    n ← pget p q_node;
    pri ← pget p priority;
    put_tail_q n pri ;;
    pset p (λ r, set_put_in (priority r) r)
  else if decide (st = RUNNABLE) then
    b ← must_requeue p;
    when b (
      n ← pget p q_node;
      rm_from_q n pin ;;
      pri ← pget p priority;
      put_tail_q n pri ;;
      pset p (λ r, set_put_in (priority r) r))
  else mret ().

Definition refresh_q : M (pst E) () := mfor (seq 0 NPROC) refresh_one.

(** The loop of [scheduler] over the queues, from the highest priority down. *)
Definition pick : M (pst E) (option nat) :=
  for_find [3; 2; 1; 0] (λ pri,
    h ← get_head pri;
    match h with
    | None => mret None
    | Some hd =>
        p ← nget hd n_proc;
        p ← deref p;
        pset p (λ r, set_ticks (incr (ticks r) pri) r) ;;
        n ← pget p q_node;
        n ← deref n;
        nset n (λ r, set_n_ticks (u32 (n_ticks r + 1)) r) ;;
        mret (Some p)
    end).

Definition proc_getpri (id : Z) : M (pst E) Z :=
  r ← for_find (seq 0 NPROC) (λ p,
    i ← pget p pid;
    if i =? id then pri ← pget p priority; mret (Some pri) else mret None);
  mret (default (-1) r).

Definition proc_setpri (id pri : Z) : M (pst E) Z :=
  if (pri <? 0) || (3 <? pri) then mret (-1)
  else
    r ← for_find (seq 0 NPROC) (λ p,
      i ← pget p pid;
      if i =? id then
        pset p (set_priority pri) ;;
        n ← pget p q_node;
        pin ← pget p put_in;
        rm_from_q n pin ;;
        pr ← pget p priority;
        put_tail_q n pr ;;
        pset p (λ r, set_put_in (priority r) r) ;;
        mret (Some 0)
      else mret None);
    mret (default (-1) r).

(** [struct pstat], a table with one row per slot. *)
Record pstat := mkPstat {
  ps_inuse : nat → Z; ps_pid : nat → Z; ps_priority : nat → Z; ps_state : nat → procstate;
  ps_ticks : nat → Z → Z; ps_qtail : nat → Z → Z;
}.
Definition gather_one (s : pst E) (r : pstat) (i : nat) : pstat :=
  let p := procs s i in
  let inuse := if bool_decide (state p = SLEEPING ∨ state p = RUNNABLE ∨ state p = RUNNING) then 1 else 0 in
  mkPstat (<[i := inuse]> (ps_inuse r)) (<[i := pid p]> (ps_pid r)) (<[i := priority p]> (ps_priority r))
    (<[i := state p]> (ps_state r))
    (<[i := foldl (λ f j, <[j := ticks p j]> f) (ps_ticks r i) [0; 1; 2; 3]]> (ps_ticks r))
    (<[i := foldl (λ f j, <[j := qtail p j]> f) (ps_qtail r i) [0; 1; 2; 3]]> (ps_qtail r)).
Definition proc_gather_pstat (result : pstat) : M (pst E) pstat :=
  gets (λ s, foldl (gather_one s) result (seq 0 NPROC)).
End code.

(** ** Linked lists *)

Section chains.
Context {E : Type}.
Implicit Types s : pst E.

Fixpoint is_chain (nx : nat → option nat) (h : option nat) (l : list nat) : Prop :=
  match l with
  | [] => h = None
  | n :: l' => h = Some n ∧ is_chain nx (nx n) l'
  end.

Lemma is_chain_ext nx nx' h l : (∀ n, n ∈ l → nx' n = nx n) → is_chain nx h l → is_chain nx' h l.
Proof.
  revert h. induction l as [|n l IH]; intros h He; simpl; [done|].
  intros [-> Hl]. split; [done|]. rewrite He by set_solver. apply IH; [set_solver|done].
Qed.

Lemma is_chain_snoc nx h l n :
  n ∉ l → NoDup l → is_chain nx h l → l ≠ [] →
  is_chain (λ m, if decide (m = n) then None else if decide (Some m = last l) then Some n else nx m) h (l ++ [n]).
Proof.
  revert h. induction l as [|m l IH]; intros h Hn Hnd Hl Hne; [done|]. simpl in *.
  destruct Hl as [-> Hl]. split; [done|]. apply not_elem_of_cons in Hn as [Hnm Hn].
  apply NoDup_cons in Hnd as [Hm Hnd]. rewrite decide_False by done.
  destruct l as [|m' l].
  - simpl. rewrite decide_True by done. split; [done|]. by rewrite decide_True.
  - rewrite decide_False.
    2:{ intros [= Heq]. apply Hm. destruct (last (m' :: l)) eqn:Hlast; [|done].
        simplify_eq. by apply last_Some_elem_of in Hlast. }
    apply (IH (nx m)); done.
Qed.

Lemma is_chain_remove nx h l1 y n l2 :
  NoDup (l1 ++ y :: n :: l2) → is_chain nx h (l1 ++ y :: n :: l2) →
  nx y = Some n ∧ is_chain (λ m, if decide (m = y) then nx n else nx m) h (l1 ++ y :: l2).
Proof.
  revert h. induction l1 as [|x l1 IH]; intros h Hnd Hl; simpl in *.
  - destruct Hl as (-> & Hy & Hl). split; [done|]. split; [done|]. rewrite decide_True by done.
    eapply is_chain_ext; [|exact Hl]. intros m Hm. rewrite decide_False; [done|]. intros ->.
    apply NoDup_cons in Hnd as [Hnd _]. set_solver.
  - destruct Hl as [-> Hl]. apply NoDup_cons in Hnd as [Hx Hnd].
    destruct (IH (nx x) Hnd Hl) as [Hy Hc]. split; [done|]. split; [done|].
    by rewrite decide_False by set_solver.
Qed.

(** The queue of one priority as a list of nodes. *)
Definition chain_q s (pri : Z) (l : list nat) : Prop :=
  is_chain (λ n, next (nodes s n)) (q_head s pri) l ∧ q_tail s pri = last l ∧ NoDup l ∧ (length l ≤ NPROC)%nat.

(** Everything but the links, the ticks of nodes and the processes' own fields. *)
Definition same_rest s s' : Prop :=
  mach s' = mach s ∧ nextpid s' = nextpid s ∧ initproc s' = initproc s ∧ cproc s' = cproc s ∧
  first s' = first s ∧ env s' = env s ∧
  ∀ n, n_proc (nodes s' n) = n_proc (nodes s n) ∧ n_inuse (nodes s' n) = n_inuse (nodes s n).

Lemma same_rest_refl s : same_rest s s.
Proof. by repeat split. Qed.
Lemma same_rest_trans s1 s2 s3 : same_rest s1 s2 → same_rest s2 s3 → same_rest s1 s3.
Proof.
  intros (?&?&?&?&?&?&Hn1) (?&?&?&?&?&?&Hn2). repeat split; try congruence;
    destruct (Hn1 n), (Hn2 n); congruence.
Qed.

Lemma nodes_field {A} s n f (g : queue_node → A) m :
  g (<[n := f (nodes s n)]> (nodes s) m) = if decide (m = n) then g (f (nodes s n)) else g (nodes s m).
Proof. rewrite fn_insert_case. by case_decide. Qed.

Lemma layer_ok_spec pri : layer_ok pri = true ↔ 0 <= pri <= 3.
Proof. unfold layer_ok, NLAYER. lia. Qed.

(** [put_tail_q] appends the node, resets its ticks and counts the move. *)
Lemma put_tail_q_spec s n p pri l :
  layer_ok pri = true → n_proc (nodes s n) = Some p → chain_q s pri l → n ∉ l → (length l < NPROC)%nat →
  ∃ s', put_tail_q (Some n) pri s = Ret () s' ∧
    chain_q s' pri (l ++ [n]) ∧
    (∀ pri' l', pri' ≠ pri → chain_q s pri' l' → n ∉ l' → (∀ m, m ∈ l → m ∉ l') → chain_q s' pri' l') ∧
    procs s' = <[p := set_qtail (incr (qtail (procs s p)) pri) (procs s p)]> (procs s) ∧
    (∀ m, n_ticks (nodes s' m) = if decide (m = n) then 0 else n_ticks (nodes s m)) ∧
    same_rest s s'.
Proof.
  intros Hpri Hp (Hc & Ht & Hnd & Hlen) Hn Hlen'.
  unfold put_tail_q, deref, nset, nget, pset, get_tail, put_head, put_tail. rewrite Hpri.
  do 3 (erewrite bind_Ret by done). erewrite bind_Ret by done. simpl.
  rewrite !fn_lookup_insert. simpl. rewrite Hp.
  do 2 (erewrite bind_Ret by done). erewrite bind_Ret by done. simpl. rewrite Ht.
  destruct l as [|m0 l0] eqn:El; [|destruct (last (m0 :: l0)) as [t|] eqn:Elast].
  - simpl. eexists. split; [reflexivity|]. split_and!.
    + split_and!; simpl; rewrite ?fn_lookup_insert; [|done|apply NoDup_singleton|lia].
      split; [done|]. done.
    + intros pri' l' Hne (Hc' & Ht' & Hnd' & Hlen2) Hn' _. split_and!; simpl; rewrite ?fn_lookup_insert_ne by done; try done.
      eapply is_chain_ext; [|exact Hc']. intros m Hm.
      by rewrite !fn_lookup_insert_ne by (intros ->; done).
    + done.
    + intros m. simpl. rewrite !fn_insert_case. by case_decide.
    + repeat split; simpl; rewrite !fn_insert_case; case_decide; subst; rewrite ?decide_True by done; done.
  - rewrite <- El in *. simpl. eexists. split; [reflexivity|].
    assert (Htl : t ∈ l) by (by apply last_Some_elem_of).
    assert (Htn : t ≠ n) by (intros ->; done).
    split_and!.
    + split_and!; simpl.
      * eapply is_chain_ext; [|apply (is_chain_snoc _ _ l n Hn Hnd Hc); by subst].
        intros m Hm. rewrite !fn_insert_case, Elast. simpl.
        repeat case_decide; simplify_eq; done.
      * by rewrite fn_lookup_insert, last_snoc.
      * apply NoDup_app. split_and!; [done|set_solver|apply NoDup_singleton].
      * rewrite length_app. simpl. lia.
    + intros pri' l' Hne (Hc' & Ht' & Hnd' & Hlen2) Hn' Hd. split_and!; simpl; rewrite ?fn_lookup_insert_ne by done; try done.
      eapply is_chain_ext; [|exact Hc']. intros m Hm.
      rewrite !fn_insert_case. repeat case_decide; subst; try done. by destruct (Hd t).
    + done.
    + intros m. simpl. rewrite !fn_insert_case. repeat case_decide; subst; done.
    + repeat split; simpl; rewrite !fn_insert_case; repeat case_decide; subst; done.
  - by apply last_None in Elast.
Qed.

Lemma rm_walk_found s fuel prev h r1 n r2 :
  is_chain (λ n, next (nodes s n)) h (prev :: r1 ++ n :: r2) → n ∉ r1 → (length r1 < fuel)%nat →
  rm_walk fuel prev (Some n) s = Ret (default prev (last r1)) s.
Proof.
  revert prev h r1. induction fuel as [|fuel IH]; intros prev h r1 Hc Hn Hf; [lia|]. simpl in *.
  unfold nget at 1. destruct Hc as [-> Hc]. erewrite bind_Ret by done.
  destruct r1 as [|x r1]; simpl in Hc.
  - destruct Hc as [-> _]. by rewrite decide_True by done.
  - destruct Hc as [Hx Hc]. rewrite Hx. rewrite decide_False by set_solver.
    rewrite (IH x (Some x) r1); [|by split|set_solver|simpl in *; lia].
    f_equal. rewrite last_cons. by destruct (last r1).
Qed.

Lemma rm_walk_absent s fuel prev h r n :
  is_chain (λ n, next (nodes s n)) h (prev :: r) → n ∉ r → (length r < fuel)%nat →
  ∃ y, rm_walk fuel prev (Some n) s = Ret y s ∧ next (nodes s y) = None.
Proof.
  revert prev h r. induction fuel as [|fuel IH]; intros prev h r Hc Hn Hf; [lia|]. simpl in *.
  unfold nget at 1. destruct Hc as [-> Hc]. erewrite bind_Ret by done.
  destruct r as [|x r]; simpl in Hc.
  - rewrite Hc. by exists prev.
  - destruct Hc as [Hx Hc]. rewrite Hx. rewrite decide_False by set_solver.
    apply (IH x (Some x) r); [by split|set_solver|simpl in *; lia].
Qed.

(** A node that is not in the list is not removed from it. *)
Lemma rm_from_q_absent s n pri l :
  layer_ok pri = true → chain_q s pri l → n ∉ l → rm_from_q (Some n) pri s = Ret () s.
Proof.
  intros Hpri (Hc & Ht & Hnd & Hlen) Hn. unfold rm_from_q, get_head. rewrite Hpri.
  erewrite bind_Ret by done. destruct l as [|h l]; simpl in Hc; [by rewrite Hc|].
  destruct Hc as [-> Hc]. rewrite decide_False by set_solver.
  destruct (rm_walk_absent s NPROC h (Some h) l n) as (y & Hw & Hy);
    [by split|set_solver|simpl in *; lia|].
  erewrite bind_Ret by done. unfold nget. erewrite bind_Ret by done. by rewrite Hy.
Qed.

(** What [rm_from_q] leaves unchanged. *)
Definition same_but_links s s' : Prop :=
  procs s' = procs s ∧ (∀ m, n_ticks (nodes s' m) = n_ticks (nodes s m)) ∧ same_rest s s'.

(** Removing the head, or a node that is neither head nor tail, removes it. *)
Lemma rm_from_q_spec s n pri l1 l2 :
  layer_ok pri = true → chain_q s pri (l1 ++ n :: l2) → (l1 = [] ∨ l2 ≠ []) →
  ∃ s', rm_from_q (Some n) pri s = Ret () s' ∧ chain_q s' pri (l1 ++ l2) ∧ same_but_links s s' ∧
    (∀ pri' l', pri' ≠ pri → chain_q s pri' l' → (∀ m, m ∈ l1 ++ n :: l2 → m ∉ l') → chain_q s' pri' l').
Proof.
  intros Hpri (Hc & Ht & Hnd & Hlen) Hpos. rewrite length_app in Hlen. simpl in Hlen.
  unfold rm_from_q, get_head, get_tail, put_head, put_tail, nget, nset. rewrite Hpri.
  erewrite bind_Ret by done. destruct l1 as [|h l1]; simpl app in *.
  - destruct Hc as [Hh Hc]. rewrite Hh, decide_True by done. erewrite bind_Ret by done.
    apply NoDup_cons in Hnd as [Hn Hnd]. rewrite Ht.
    destruct l2 as [|m l2]; simpl.
    + rewrite bool_decide_eq_true_2 by done. simpl. eexists. split; [reflexivity|]. split_and!.
      * split_and!; simpl; rewrite ?fn_lookup_insert; [done|done|constructor|lia].
      * by repeat split.
      * intros pri' l' Hne (Hc' & Ht' & Hnd' & Hl') _. split_and!; simpl; by rewrite ?fn_lookup_insert_ne.
    + rewrite bool_decide_eq_false_2.
      2:{ intros Hl. apply Hn. by apply (last_Some_elem_of (m :: l2)). }
      simpl. eexists. split; [reflexivity|]. split_and!.
      * simpl in Hc, Ht. split_and!; simpl; rewrite ?fn_lookup_insert; [done|done|done|simpl in *; lia].
      * by repeat split.
      * intros pri' l' Hne (Hc' & Ht' & Hnd' & Hl') _. split_and!; simpl; by rewrite ?fn_lookup_insert_ne.
  - destruct Hpos as [?|Hl2]; [done|]. pose proof Hc as [Hh _]. rewrite Hh.
    rewrite decide_False by (apply NoDup_cons in Hnd as [Hx _]; set_solver).
    erewrite bind_Ret.
    2:{ apply (rm_walk_found s NPROC h (q_head s pri) l1 n l2); [done| |simpl in *; lia].
        apply NoDup_cons in Hnd as [_ Hnd]. apply NoDup_app in Hnd. set_solver. }
    set (y := default h (last l1)).
    assert (∃ l0, h :: l1 = l0 ++ [y]) as [l0 Hl0].
    { destruct (last l1) as [z|] eqn:El; subst y; simpl.
      - apply last_Some in El as [l0 ->]. by exists (h :: l0).
      - apply last_None in El as ->. by exists []. }
    rewrite app_comm_cons, Hl0, <- app_assoc in Hc, Hnd, Ht |- *. simpl in Hc, Hnd, Ht |- *.
    destruct (is_chain_remove _ _ l0 y n l2 Hnd Hc) as [Hy Hc'].
    erewrite bind_Ret by done. rewrite Hy. erewrite bind_Ret by done.
    eexists. split; [reflexivity|]. split_and!.
    + split_and!; simpl.
      * eapply is_chain_ext; [|exact Hc']. intros m _. simpl. rewrite fn_insert_case. by case_decide.
      * rewrite Ht. destruct l2 as [|z l2]; [done|].
        rewrite !last_app_cons. by rewrite !last_cons_cons.
      * apply (NoDup_app l0 (y :: n :: l2)) in Hnd as (Hnd1 & Hnd2 & Hnd3).
        apply NoDup_app. split_and!; [done|set_solver|]. apply NoDup_cons in Hnd3 as [Hy3 Hnd3].
        apply NoDup_cons in Hnd3 as [_ Hnd3]. constructor; [set_solver|done].
      * apply (f_equal length) in Hl0. rewrite length_app in *. simpl in *. lia.
    + repeat split; simpl; try intros m; rewrite fn_insert_case; by case_decide; subst.
    + intros pri' l' Hne (Hc2 & Ht' & Hnd' & Hl') Hd. split_and!; simpl; try done.
      eapply is_chain_ext; [|exact Hc2]. intros m Hm. rewrite fn_insert_case. case_decide; [|done].
      subst m. destruct (Hd y); [|done]. rewrite app_comm_cons, Hl0. set_solver.
Qed.
End chains.

(** ** The four queues as lists of processes *)

Section queues.
Context {E : Type}.
Implicit Types s : pst E.

(** The node of a process. *)
Definition nd s (p : nat) : nat := default 0%nat (q_node (procs s p)).

Record linked s (Q : Z → list nat) : Prop := {
  lk_chain : ∀ pri, layer_ok pri = true → chain_q s pri (nd s <$> Q pri);
  lk_in : ∀ pri p, layer_ok pri = true → p ∈ Q pri → (p < NPROC)%nat ∧ is_Some (q_node (procs s p));
  lk_disj : ∀ pri pri' p, layer_ok pri = true → layer_ok pri' = true → p ∈ Q pri → p ∈ Q pri' → pri = pri';
  lk_node : ∀ p n, (p < NPROC)%nat → q_node (procs s p) = Some n →
    (n < NPROC)%nat ∧ n_proc (nodes s n) = Some p ∧ n_inuse (nodes s n) = 1;
}.

Lemma nd_Some s p n : q_node (procs s p) = Some n → nd s p = n.
Proof. intros H. unfold nd. by rewrite H. Qed.

Lemma nd_inj s Q p p' :
  linked s Q → (p < NPROC)%nat → (p' < NPROC)%nat → is_Some (q_node (procs s p)) →
  is_Some (q_node (procs s p')) → nd s p = nd s p' → p = p'.
Proof.
  intros HL Hp Hp' [n Hn] [n' Hn'] He. rewrite (nd_Some _ _ _ Hn), (nd_Some _ _ _ Hn') in He. subst n'.
  destruct (lk_node _ _ HL p n Hp Hn) as (_ & H1 & _).
  destruct (lk_node _ _ HL p' n Hp' Hn') as (_ & H2 & _). congruence.
Qed.

Lemma nd_not_in s Q p pri :
  linked s Q → layer_ok pri = true → (p < NPROC)%nat → is_Some (q_node (procs s p)) →
  p ∉ Q pri → nd s p ∉ nd s <$> Q pri.
Proof.
  intros HL Hpri Hp Hs Hin (p' & He & Hp')%list_elem_of_fmap.
  destruct (lk_in _ _ HL pri p' Hpri Hp') as [Hlt Hs'].
  apply Hin. by rewrite (nd_inj s Q p p').
Qed.

Lemma linked_NoDup s Q pri : linked s Q → layer_ok pri = true → NoDup (Q pri).
Proof.
  intros HL Hpri. destruct (lk_chain _ _ HL pri Hpri) as (_ & _ & Hnd & _). by eapply NoDup_fmap_1.
Qed.

Lemma linked_length s Q pri p :
  linked s Q → layer_ok pri = true → (p < NPROC)%nat → p ∉ Q pri → (length (Q pri) < NPROC)%nat.
Proof.
  intros HL Hpri Hp Hin.
  assert (p :: Q pri ⊆+ seq 0 NPROC) as Hs.
  { apply NoDup_submseteq; [constructor; [done|by apply (linked_NoDup s)]|].
    intros q Hq. apply elem_of_seq. apply elem_of_cons in Hq as [->|Hq]; [lia|].
    apply (lk_in _ _ HL pri q Hpri) in Hq as [? _]. lia. }
  apply submseteq_length in Hs. rewrite length_seq in Hs. simpl in Hs. lia.
Qed.

Lemma chain_q_procs s s' pri l : nodes s' = nodes s → q_head s' = q_head s → q_tail s' = q_tail s →
  chain_q s pri l → chain_q s' pri l.
Proof. intros Hn Hh Ht. unfold chain_q. by rewrite Hn, Hh, Ht. Qed.

Lemma disjoint_nodes s Q pri pri' : linked s Q → layer_ok pri = true → layer_ok pri' = true → pri' ≠ pri →
  ∀ m, m ∈ nd s <$> Q pri → m ∉ nd s <$> Q pri'.
Proof.
  intros HL Hpri Hpri' Hne m (p & -> & Hp)%list_elem_of_fmap.
  destruct (lk_in _ _ HL pri p Hpri Hp) as [Hlt Hs]. apply (nd_not_in s Q); [done..|].
  intros Hp'. apply Hne. by apply (lk_disj _ _ HL pri' pri p).
Qed.

Lemma linked_remove s Q p pri l1 l2 :
  linked s Q → layer_ok pri = true → Q pri = l1 ++ p :: l2 → (l1 = [] ∨ l2 ≠ []) →
  ∃ s', rm_from_q (q_node (procs s p)) pri s = Ret () s' ∧ linked s' (<[pri := l1 ++ l2]> Q) ∧
        same_but_links s s'.
Proof.
  intros HL Hpri HQ Hpos. pose proof (lk_chain _ _ HL pri Hpri) as Hc.
  assert (p ∈ Q pri) as Hp by (rewrite HQ; set_solver).
  destruct (lk_in _ _ HL pri p Hpri Hp) as [Hlt [n Hn]].
  rewrite HQ, fmap_app, fmap_cons, (nd_Some _ _ _ Hn) in Hc.
  destruct (rm_from_q_spec s n pri (nd s <$> l1) (nd s <$> l2) Hpri Hc) as (s' & He & Hc' & Hsame & Hoth).
  { destruct Hpos as [->|Hl2]; [by left|right]. by destruct l2. }
  rewrite Hn. exists s'. split; [done|]. split; [|done].
  destruct Hsame as (Hprocs & _ & _ & _ & _ & _ & _ & _ & Hnodes).
  assert (Hsub : ∀ pri' q, q ∈ (<[pri := l1 ++ l2]> Q) pri' → q ∈ Q pri').
  { intros pri' q. rewrite fn_insert_case. case_decide; [|done]. subst. rewrite HQ. set_solver. }
  split.
  - intros pri' Hpri'. rewrite (list_fmap_ext (nd s') (nd s)) by (intros; unfold nd; by rewrite Hprocs).
    rewrite fn_insert_case. case_decide as Hne; [subst; by rewrite fmap_app|].
    apply Hoth; [done|by apply (lk_chain _ _ HL)|]. intros m Hm. apply (disjoint_nodes s Q pri); [done..|].
    by rewrite HQ, fmap_app, fmap_cons, (nd_Some _ _ _ Hn).
  - intros pri' q Hpri' Hq. rewrite Hprocs. by apply (lk_in _ _ HL pri'), Hsub.
  - intros pri1 pri2 q H1 H2 Hq1 Hq2. apply (lk_disj _ _ HL _ _ q H1 H2); by apply Hsub.
  - intros q m. destruct (Hnodes m) as [-> ->]. rewrite Hprocs. apply (lk_node _ _ HL).
Qed.

Lemma linked_append s Q p n pri :
  linked s Q → layer_ok pri = true → (p < NPROC)%nat → q_node (procs s p) = Some n →
  (∀ pri', layer_ok pri' = true → p ∉ Q pri') →
  ∃ s', put_tail_q (q_node (procs s p)) pri s = Ret () s' ∧ linked s' (<[pri := Q pri ++ [p]]> Q) ∧
    procs s' = <[p := set_qtail (incr (qtail (procs s p)) pri) (procs s p)]> (procs s) ∧
    (∀ m, n_ticks (nodes s' m) = if decide (m = n) then 0 else n_ticks (nodes s m)) ∧ same_rest s s'.
Proof.
  intros HL Hpri Hlt Hn Hfree. destruct (lk_node _ _ HL p n Hlt Hn) as (_ & Hnp & _).
  assert (Hnotin : ∀ pri', layer_ok pri' = true → n ∉ nd s <$> Q pri').
  { intros pri' Hpri'. rewrite <- (nd_Some _ _ _ Hn). apply (nd_not_in s Q); eauto. }
  destruct (put_tail_q_spec s n p pri (nd s <$> Q pri)) as (s' & He & Hc & Hoth & Hprocs & Hticks & Hrest);
    [done|done|by apply (lk_chain _ _ HL)|by apply Hnotin|rewrite length_fmap; by apply (linked_length s Q pri p HL Hpri Hlt), Hfree|].
  rewrite Hn. exists s'. split_and!; [done| |done..].
  destruct Hrest as (_ & _ & _ & _ & _ & _ & Hnodes).
  assert (Hq : ∀ q, q_node (procs s' q) = q_node (procs s q)).
  { intros q. rewrite Hprocs, fn_insert_case. by case_decide; subst. }
  split.
  - intros pri' Hpri'. rewrite (list_fmap_ext (nd s') (nd s)) by (intros; unfold nd; by rewrite Hq).
    rewrite fn_insert_case. case_decide as Hne.
    + subst. rewrite fmap_app. cbn [fmap list_fmap]. by rewrite (nd_Some _ _ _ Hn).
    + apply Hoth; [done|by apply (lk_chain _ _ HL)|by apply Hnotin|by apply (disjoint_nodes s Q pri)].
  - intros pri' q Hpri'. rewrite fn_insert_case, Hq. case_decide; [subst pri'|by apply (lk_in _ _ HL)].
    rewrite elem_of_app, list_elem_of_singleton. intros [?| ->]; [by apply (lk_in _ _ HL pri)|eauto].
  - intros pri1 pri2 q H1 H2. rewrite !fn_insert_case. repeat case_decide; subst; try done.
    + rewrite elem_of_app, list_elem_of_singleton. intros [?| ->] Hq2; [by apply (lk_disj _ _ HL _ _ q)|by destruct (Hfree pri2)].
    + rewrite elem_of_app, list_elem_of_singleton. intros Hq1 [?| ->]; [by apply (lk_disj _ _ HL _ _ q)|by destruct (Hfree pri1)].
    + by apply (lk_disj _ _ HL).
  - intros q m. destruct (Hnodes m) as [-> ->]. rewrite Hq. apply (lk_node _ _ HL).
Qed.
End queues.

(** ** refresh_q against its specification *)

Section refresh.
Context {E : Type}.
Implicit Types s : pst E.

(** The process is known to the scheduler. *)
Definition active (st : procstate) : Prop := st ≠ UNUSED ∧ st ≠ EMBRYO.

(** The invariant of the queues: the linked lists, and the bookkeeping of
    [put_in] in the process table. *)
Record queues s (Q : Z → list nat) : Prop := {
  qs_linked : linked s Q;
  qs_put_in : ∀ pri p, layer_ok pri = true → p ∈ Q pri → put_in (procs s p) = pri ∧ active (state (procs s p));
  qs_in : ∀ p, (p < NPROC)%nat → put_in (procs s p) ≠ -1 →
    layer_ok (put_in (procs s p)) = true ∧ p ∈ Q (put_in (procs s p));
  qs_active : ∀ p, (p < NPROC)%nat → active (state (procs s p)) → is_Some (q_node (procs s p));
  qs_priority : ∀ p, (p < NPROC)%nat → state (procs s p) = RUNNABLE → layer_ok (priority (procs s p)) = true;
}.

(** The node's ticks have reached the slice of the queue it is in. *)
Definition expired s (p : nat) : bool := n_ticks (nodes s (nd s p)) =? slice (put_in (procs s p)).
(** [refresh_q] is going to take the process out of the queue it is in. *)
Definition leaving s (p : nat) : Prop :=
  put_in (procs s p) ≠ -1 ∧
  (state (procs s p) ≠ RUNNABLE ∨ put_in (procs s p) ≠ priority (procs s p) ∨ expired s p = true).
Definition at_head (Q : Z → list nat) (pri : Z) (p : nat) : Prop := ∃ tl, Q pri = p :: tl.

(** The specification: what one turn of the loop, and the whole loop, do to the
    four lists of processes. *)
Definition leave (pri : Z) (p : nat) (Q : Z → list nat) : Z → list nat :=
  <[pri := filter (.≠ p) (Q pri)]> Q.
Definition join (pri : Z) (p : nat) (Q : Z → list nat) : Z → list nat :=
  <[pri := Q pri ++ [p]]> Q.
Definition spec_one s (Q : Z → list nat) (p : nat) : Z → list nat :=
  let r := procs s p in
  if decide (state r = UNUSED) then Q
  else if decide (state r ≠ RUNNABLE) then
    if decide (put_in r = -1) then Q else leave (put_in r) p Q
  else if decide (put_in r = -1) then join (priority r) p Q
  else if decide (put_in r ≠ priority r ∨ expired s p = true) then join (priority r) p (leave (put_in r) p Q)
  else Q.
Definition refresh_spec s (Q : Z → list nat) : Z → list nat := foldl (spec_one s) Q (seq 0 NPROC).

(** Where a process is queued once it has been refreshed. *)
Definition new_put_in (r : proc) : Z := if decide (state r = RUNNABLE) then priority r else -1.
(** Two states of a process that differ only in the queue bookkeeping. *)
Definition same_proc (r r' : proc) : Prop := ∃ qt pin, r' = set_put_in pin (set_qtail qt r).

Lemma same_proc_refl r : same_proc r r.
Proof. exists (qtail r), (put_in r). by destruct r. Qed.
Lemma same_proc_trans r1 r2 r3 : same_proc r1 r2 → same_proc r2 r3 → same_proc r1 r3.
Proof. intros (q1 & p1 & ->) (q2 & p2 & ->). by exists q2, p2. Qed.
Lemma same_proc_fields r r' : same_proc r r' →
  state r' = state r ∧ priority r' = priority r ∧ q_node r' = q_node r ∧ pid r' = pid r.
Proof. by intros (qt & pin & ->). Qed.

(** [refresh_q] is going to put the process at the tail of a queue. *)
Definition requeues s (p : nat) : Prop :=
  state (procs s p) = RUNNABLE ∧
  (put_in (procs s p) = -1 ∨ put_in (procs s p) ≠ priority (procs s p) ∨ expired s p = true).
#[export] Instance requeues_dec s p : Decision (requeues s p).
Proof. unfold requeues. apply _. Defined.

(** What a turn of the loop on [p] may change. *)
Record one_turn s s' (p : nat) : Prop := {
  ot_rest : same_rest s s';
  ot_proc : same_proc (procs s p) (procs s' p);
  ot_others : ∀ p', p' ≠ p → procs s' p' = procs s p';
  ot_ticks : ∀ n, q_node (procs s p) ≠ Some n → n_ticks (nodes s' n) = n_ticks (nodes s n);
  ot_node : ∀ n, q_node (procs s p) = Some n →
    n_ticks (nodes s' n) = if decide (requeues s p) then 0 else n_ticks (nodes s n);
  ot_put_in : put_in (procs s' p) = new_put_in (procs s p);
  ot_fresh : ¬ leaving s' p;
}.

Lemma slice_pos pri : layer_ok pri = true → slice pri = (5 - pri) * 4 ∧ slice pri ≠ 0.
Proof. rewrite layer_ok_spec. intros H. unfold slice. rewrite u32_small by lia. lia. Qed.

(** Updating only the queue bookkeeping of one process preserves [linked]. *)
Lemma linked_set_proc s Q p r :
  linked s Q → q_node r = q_node (procs s p) → linked (set_procs (<[p := r]> (procs s)) s) Q.
Proof.
  intros HL Hr.
  assert (Hq : ∀ q, q_node ((<[p := r]> (procs s)) q) = q_node (procs s q)).
  { intros q. rewrite fn_insert_case. by case_decide; subst. }
  split.
  - intros pri Hpri. destruct (lk_chain _ _ HL pri Hpri) as (Hc & H).
    rewrite (list_fmap_ext (nd (set_procs (<[p := r]> (procs s)) s)) (nd s))
      by (intros; unfold nd; simpl; by rewrite Hq). by split.
  - intros pri q. simpl. rewrite Hq. apply (lk_in _ _ HL).
  - apply (lk_disj _ _ HL).
  - intros q n. simpl. rewrite Hq. apply (lk_node _ _ HL).
Qed.

(** Changing the [put_in] of [p] to match a change of the lists gives [queues]. *)
Lemma queues_intro s Q s' Q' p :
  queues s Q → linked s' Q' → (p < NPROC)%nat → active (state (procs s p)) →
  (∀ q, q ≠ p → procs s' q = procs s q) → state (procs s' p) = state (procs s p) →
  q_node (procs s' p) = q_node (procs s p) →
  (state (procs s' p) = RUNNABLE → layer_ok (priority (procs s' p)) = true) →
  (∀ pri q, q ≠ p → q ∈ Q' pri ↔ q ∈ Q pri) →
  (∀ pri, layer_ok pri = true → p ∈ Q' pri ↔ put_in (procs s' p) = pri) →
  (put_in (procs s' p) = -1 ∨ layer_ok (put_in (procs s' p)) = true) →
  queues s' Q'.
Proof.
  intros HQ HL Hp Hact Hoth Hst Hqn Hpr Hiff Hpin Hok.
  split; [done|..].
  - intros pri q Hpri Hq. destruct (decide (q = p)) as [->|Hne].
    + rewrite Hst. split; [by apply Hpin|done].
    + rewrite Hoth by done. apply (qs_put_in _ _ HQ pri q Hpri). by apply Hiff.
  - intros q Hq Hne1. destruct (decide (q = p)) as [->|Hne].
    + destruct Hok as [?|Hok]; [done|]. split; [done|]. by apply Hpin.
    + rewrite Hoth in * by done. destruct (qs_in _ _ HQ q Hq Hne1). split; [done|]. by apply Hiff.
  - intros q Hq. destruct (decide (q = p)) as [->|Hne].
    + rewrite Hst, Hqn. by apply (qs_active _ _ HQ).
    + rewrite Hoth by done. by apply (qs_active _ _ HQ).
  - intros q Hq. destruct (decide (q = p)) as [->|Hne].
    + done.
    + rewrite Hoth by done. by apply (qs_priority _ _ HQ).
Qed.

Lemma leave_head Q pri p tl : NoDup (Q pri) → Q pri = p :: tl → leave pri p Q = <[pri := tl]> Q.
Proof.
  intros Hnd HQ. unfold leave. f_equal. rewrite HQ in *. apply NoDup_cons in Hnd as [Hp Hnd].
  rewrite filter_cons_False by (intros H; by apply H). apply filter_all. by intros x Hx ->.
Qed.

Lemma elem_of_leave Q pri pri' p q : q ∈ leave pri p Q pri' ↔ q ∈ Q pri' ∧ (pri' = pri → q ≠ p).
Proof.
  unfold leave. rewrite fn_insert_case. case_decide; [subst|naive_solver].
  rewrite list_elem_of_filter. naive_solver.
Qed.
Lemma elem_of_join Q pri pri' p q : q ∈ join pri p Q pri' ↔ q ∈ Q pri' ∨ (pri' = pri ∧ q = p).
Proof.
  unfold join. rewrite fn_insert_case. case_decide; [subst|naive_solver]. set_solver.
Qed.

(** A process is in no queue but that of its [put_in]. *)
Lemma queues_only s Q p pri : queues s Q → layer_ok pri = true → p ∈ Q pri → put_in (procs s p) = pri.
Proof. intros HQ Hpri Hp. by apply (qs_put_in _ _ HQ). Qed.

(** Taking a head process out of its queue. *)
Lemma leave_spec s Q p : queues s Q → (p < NPROC)%nat → leaving s p → at_head Q (put_in (procs s p)) p →
  ∃ s', rm_from_q (q_node (procs s p)) (put_in (procs s p)) s = Ret () s' ∧
    linked s' (leave (put_in (procs s p)) p Q) ∧ same_but_links s s'.
Proof.
  intros HQ Hp [Hpin _] [tl Htl]. destruct (qs_in _ _ HQ p Hp Hpin) as [Hpri _].
  pose proof (qs_linked _ _ HQ) as HL.
  erewrite leave_head; [|by apply (linked_NoDup s)|done].
  exact (linked_remove s Q p _ [] tl HL Hpri Htl (or_introl eq_refl)).
Qed.

Lemma same_rest_put_in s p r : same_rest s (set_procs (<[p := r]> (procs s)) s).
Proof. by repeat split. Qed.

(** First branch: a process that is no longer RUNNABLE leaves its queue. *)
Lemma refresh_one_leave s Q p :
  queues s Q → (p < NPROC)%nat → at_head Q (put_in (procs s p)) p →
  state (procs s p) ≠ UNUSED → state (procs s p) ≠ RUNNABLE → put_in (procs s p) ≠ -1 →
  ∃ s', refresh_one p s = Ret () s' ∧ queues s' (leave (put_in (procs s p)) p Q) ∧ one_turn s s' p.
Proof.
  intros HQ Hp Hhd Hu Hr Hpin. destruct (qs_in _ _ HQ p Hp Hpin) as [Hpri Hin].
  destruct (leave_spec s Q p) as (s1 & He & HL & Hprocs & Hticks & Hrest); [done|done|by split; [|left]|done|].
  set (r' := set_put_in (-1) (procs s p)).
  assert (same_proc (procs s p) r') as Hsame by (exists (qtail (procs s p)), (-1); by destruct (procs s p)).
  exists (set_procs (<[p := r']> (procs s1)) s1). split_and!.
  - unfold refresh_one, pget. do 2 (erewrite bind_Ret by done).
    rewrite decide_False, decide_True by done. erewrite bind_Ret by done. erewrite bind_Ret by done.
    unfold pset, modify, r'. by rewrite Hprocs.
  - eapply (queues_intro s Q _ _ p); [done| |done|by apply (qs_put_in _ _ HQ _ _ Hpri Hin)|..].
    + apply linked_set_proc; [done|]. by rewrite Hprocs.
    + intros q Hq. simpl. by rewrite fn_lookup_insert_ne, Hprocs.
    + simpl. by rewrite fn_lookup_insert.
    + simpl. by rewrite fn_lookup_insert.
    + simpl. by rewrite fn_lookup_insert.
    + intros pri q Hq. rewrite elem_of_leave. naive_solver.
    + intros pri Hpri'. simpl. rewrite fn_lookup_insert, elem_of_leave. simpl. split.
      * intros [Hq Hne]. destruct Hne; [|done]. by rewrite (queues_only s Q p pri).
      * by intros <-.
    + simpl. rewrite fn_lookup_insert. by left.
  - split; simpl.
    + eapply same_rest_trans; [done|apply same_rest_put_in].
    + by rewrite fn_lookup_insert.
    + intros q Hq. by rewrite fn_lookup_insert_ne, Hprocs.
    + intros n _. apply Hticks.
    + intros n _. rewrite decide_False by (intros [? _]; done). apply Hticks.
    + rewrite fn_lookup_insert. unfold new_put_in. by rewrite decide_False.
    + intros [Hl _]. simpl in Hl. by rewrite fn_lookup_insert in Hl.
Qed.

(** Joining a queue, after having left every queue. *)
Lemma join_spec s0 Q0 s Q p :
  queues s0 Q0 → (p < NPROC)%nat → requeues s0 p →
  linked s Q → procs s = procs s0 → (∀ n, n_ticks (nodes s n) = n_ticks (nodes s0 n)) → same_rest s0 s →
  (∀ pri, layer_ok pri = true → p ∉ Q pri) → (∀ pri q, q ≠ p → q ∈ Q pri ↔ q ∈ Q0 pri) →
  ∃ s', (pri ← pget p priority; put_tail_q (q_node (procs s p)) pri ;; pset p (λ r, set_put_in (priority r) r)) s
        = Ret () s' ∧
    queues s' (join (priority (procs s0 p)) p Q) ∧ one_turn s0 s' p.
Proof.
  intros HQ Hp Hrq HL Hprocs Hticks Hrest Hfree Hiff. pose proof Hrq as [Hst _].
  assert (Hact : active (state (procs s0 p))) by (by rewrite Hst).
  destruct (qs_active _ _ HQ p Hp Hact) as [n Hn]. pose proof (qs_priority _ _ HQ p Hp Hst) as Hpri.
  rewrite <- Hprocs in Hn, Hpri.
  destruct (linked_append s Q p n (priority (procs s p)) HL Hpri Hp Hn Hfree) as (s1 & He & HL1 & Hp1 & Ht1 & Hr1).
  set (r' := set_put_in (priority (procs s p)) (procs s1 p)).
  assert (Hs1 : procs s1 p = set_qtail (incr (qtail (procs s p)) (priority (procs s p))) (procs s p))
    by (by rewrite Hp1, fn_lookup_insert).
  assert (Hsame : same_proc (procs s0 p) r').
  { unfold r'. rewrite Hs1, Hprocs. eexists _, _. reflexivity. }
  exists (set_procs (<[p := r']> (procs s1)) s1). split_and!.
  - unfold pget. erewrite bind_Ret by done. erewrite bind_Ret by done. unfold pset, modify, r'.
    by rewrite Hs1.
  - eapply (queues_intro s0 Q0 _ _ p); [done| |done|done|..].
    + unfold join. rewrite <- Hprocs. apply linked_set_proc; [done|done].
    + intros q Hq. simpl. by rewrite fn_lookup_insert_ne, Hp1, fn_lookup_insert_ne, Hprocs.
    + simpl. rewrite fn_lookup_insert. by apply (same_proc_fields _ _ Hsame).
    + simpl. rewrite fn_lookup_insert. by apply (same_proc_fields _ _ Hsame).
    + simpl. rewrite fn_lookup_insert. unfold r'. simpl. by rewrite Hs1.
    + intros pri q Hq. rewrite elem_of_join, Hiff by done. naive_solver.
    + intros pri Hpri'. simpl. rewrite fn_lookup_insert, elem_of_join. unfold r'. simpl. rewrite Hprocs. split.
      * intros [Hq|[-> _]]; [by apply Hfree in Hq|done].
      * intros <-. by right.
    + right. simpl. rewrite fn_lookup_insert. done.
  - split; simpl.
    + eapply same_rest_trans; [done|]. eapply same_rest_trans; [done|apply same_rest_put_in].
    + by rewrite fn_lookup_insert.
    + intros q Hq. by rewrite fn_lookup_insert_ne, Hp1, fn_lookup_insert_ne, Hprocs.
    + intros m Hm. rewrite Ht1, decide_False; [apply Hticks|]. intros ->. by rewrite <- Hprocs in Hm.
    + intros m Hm. rewrite (decide_True (P := requeues s0 p)) by done. rewrite Ht1, decide_True; [done|].
      rewrite Hprocs in Hn. congruence.
    + rewrite fn_lookup_insert. unfold new_put_in. rewrite decide_True by done. unfold r'. simpl. by rewrite Hprocs.
    + intros [_ Hl]. unfold expired, nd in Hl. simpl in Hl. rewrite fn_lookup_insert in Hl.
      unfold r' in Hl. simpl in Hl. rewrite Hs1 in Hl. simpl in Hl. rewrite Hn in Hl. simpl in Hl.
      rewrite Ht1, decide_True in Hl by done. destruct (slice_pos _ Hpri) as [_ Hsl].
      rewrite Hprocs in *. destruct Hl as [?|[?|Hl]]; [done|done|]. by apply Z.eqb_eq in Hl.
Qed.

Lemma must_requeue_Ret s p n : q_node (procs s p) = Some n →
  put_in (procs s p) ≠ -1 →
  must_requeue p s = Ret (bool_decide (put_in (procs s p) ≠ priority (procs s p) ∨ expired s p = true)) s.
Proof.
  intros Hn Hpin. unfold must_requeue, pget, nget. do 2 (erewrite bind_Ret by done).
  destruct (Z.eqb_spec (put_in (procs s p)) (priority (procs s p))) as [He|He]; simpl.
  - rewrite (proj2 (Z.eqb_neq _ _)) by done. erewrite bind_Ret by done. rewrite Hn.
    do 2 (erewrite bind_Ret by done). unfold expired. rewrite (nd_Some _ _ _ Hn).
    unfold mret, M_ret. f_equal. symmetry.
    destruct (n_ticks _ =? _) eqn:Et; [apply bool_decide_eq_true; by right|].
    apply bool_decide_eq_false. by intros [?|?].
  - unfold mret, M_ret. f_equal. symmetry. apply bool_decide_eq_true. by left.
Qed.

(** One turn of the loop computes [spec_one]. *)
Lemma refresh_one_spec s Q p :
  queues s Q → (p < NPROC)%nat → (leaving s p → at_head Q (put_in (procs s p)) p) →
  ∃ s', refresh_one p s = Ret () s' ∧ queues s' (spec_one s Q p) ∧ one_turn s s' p.
Proof.
  intros HQ Hp Hhd. unfold spec_one.
  assert (Hstay : ¬ leaving s p → ¬ requeues s p → put_in (procs s p) = new_put_in (procs s p) → one_turn s s p).
  { intros. split; try done; [apply same_proc_refl|]. intros. by rewrite decide_False. }
  destruct (decide (state (procs s p) = UNUSED)) as [Hu|Hu].
  { assert (put_in (procs s p) = -1) as Hpin.
    { destruct (decide (put_in (procs s p) = -1)) as [|Hpin]; [done|].
      destruct (qs_in _ _ HQ p Hp Hpin) as [Hpri Hin].
      by destruct (qs_put_in _ _ HQ _ _ Hpri Hin) as [_ [? _]]. }
    exists s. split_and!; [|done|].
    - unfold refresh_one, pget. do 2 (erewrite bind_Ret by done). by rewrite decide_True.
    - apply Hstay; [by intros [? _]|intros [? _]; congruence|].
      unfold new_put_in. rewrite decide_False; [done|]. by rewrite Hu. }
  destruct (decide (state (procs s p) ≠ RUNNABLE)) as [Hr|Hr].
  { destruct (decide (put_in (procs s p) = -1)) as [Hpin|Hpin].
    - exists s. split_and!; [|done|].
      + unfold refresh_one, pget. do 2 (erewrite bind_Ret by done). rewrite !decide_False by naive_solver. done.
      + apply Hstay; [by intros [? _]|by intros [? _]|]. unfold new_put_in. by rewrite decide_False.
    - apply refresh_one_leave; [done|done| |done..]. apply Hhd. split; [done|by left]. }
  apply dec_stable in Hr. destruct (decide (put_in (procs s p) = -1)) as [Hpin|Hpin].
  { destruct (join_spec s Q s Q p) as (s' & He & HQ' & Hot);
      [done..|by split; [|left]|by apply qs_linked|done|done|apply same_rest_refl| |done|].
    - intros pri Hpri Hin. apply (queues_only s Q p pri HQ Hpri) in Hin. subst pri. by rewrite Hpin in Hpri.
    - exists s'. split_and!; [|done|done]. rewrite <- He. unfold refresh_one.
      unfold pget at 1 2. do 2 (erewrite bind_Ret by done).
      rewrite decide_False by done. rewrite decide_False by naive_solver. by rewrite decide_True by done. }
  destruct (qs_active _ _ HQ p Hp) as [n Hn]; [by rewrite Hr|].
  assert (Hrun : refresh_one p s = (b ← must_requeue p; when b (n ← pget p q_node;
      rm_from_q n (put_in (procs s p)) ;; pri ← pget p priority; put_tail_q n pri ;;
      pset p (λ r, set_put_in (priority r) r))) s).
  { unfold refresh_one. unfold pget at 1 2. do 2 (erewrite bind_Ret by done).
    rewrite decide_False by done. rewrite !decide_False by naive_solver. by rewrite decide_True by done. }
  rewrite Hrun. erewrite bind_Ret by (by eapply must_requeue_Ret).
  destruct (decide (put_in (procs s p) ≠ priority (procs s p) ∨ expired s p = true)) as [Hq|Hq].
  - rewrite bool_decide_eq_true_2 by done. simpl. unfold pget at 1. erewrite bind_Ret by done.
    assert (leaving s p) as Hlv by (split; [done|by right]).
    destruct (leave_spec s Q p HQ Hp Hlv (Hhd Hlv)) as (s1 & He & HL & Hprocs & Hticks & Hrest).
    erewrite bind_Ret by done.
    destruct (join_spec s Q s1 (leave (put_in (procs s p)) p Q) p) as (s' & He' & HQ' & Hot); try done.
    + split; [done|by right].
    + intros pri Hpri [Hin Hne]%elem_of_leave. apply (queues_only s Q p pri HQ Hpri) in Hin.
      by destruct Hne.
    + intros pri q Hne. rewrite elem_of_leave. naive_solver.
    + exists s'. split_and!; [|done|done]. rewrite <- He'. by rewrite Hprocs.
  - rewrite bool_decide_eq_false_2 by done. exists s. split_and!; [done|done|].
    apply Hstay; [intros [_ [?|?]]; naive_solver|intros [_ [?|?]]; naive_solver|]. unfold new_put_in. rewrite decide_True by done.
    destruct (decide (put_in (procs s p) = priority (procs s p))); [done|]. destruct Hq; by left.
Qed.

(** A process at the head stays there while other processes leave and join. *)
Lemma at_head_spec_one s Q p q pri : q ≠ p → at_head Q pri q → at_head (spec_one s Q p) pri q.
Proof.
  intros Hne [tl Htl].
  assert (Hl : ∀ Q pri' tl, Q pri = q :: tl → ∃ tl, leave pri' p Q pri = q :: tl).
  { intros Q' pri' tl' H. unfold leave. rewrite fn_insert_case. case_decide; [subst|eauto].
    rewrite H, filter_cons_True by done. eauto. }
  assert (Hj : ∀ Q pri' tl, Q pri = q :: tl → ∃ tl, join pri' p Q pri = q :: tl).
  { intros Q' pri' tl' H. unfold join. rewrite fn_insert_case. case_decide; [subst|eauto]. rewrite H. simpl. eauto. }
  unfold at_head, spec_one. repeat case_decide; eauto.
  destruct (Hl Q (put_in (procs s p)) tl Htl) as [tl' Htl']. eauto.
Qed.

(** [spec_one] only looks at the process itself and, if it is queued, its node. *)
Lemma spec_one_ext s s' Q p :
  procs s' p = procs s p →
  (put_in (procs s p) ≠ -1 → n_ticks (nodes s' (nd s p)) = n_ticks (nodes s (nd s p))) →
  spec_one s' Q p = spec_one s Q p ∧ (leaving s' p ↔ leaving s p) ∧ (requeues s' p ↔ requeues s p).
Proof.
  intros Hp Ht. assert (put_in (procs s p) ≠ -1 → expired s' p = expired s p) as He.
  { intros Hpin. unfold expired. replace (nd s' p) with (nd s p) by (unfold nd; by rewrite Hp). by rewrite Hp, Ht. }
  unfold spec_one, leaving, requeues. rewrite Hp. destruct (decide (put_in (procs s p) = -1)); [naive_solver|].
  by rewrite He.
Qed.

(** The state of the loop after the turns on the processes of a list. *)
Record refreshed s0 s (l : list nat) : Prop := {
  rf_rest : same_rest s0 s;
  rf_same : ∀ p, same_proc (procs s0 p) (procs s p);
  rf_done : ∀ p, p ∈ l → put_in (procs s p) = new_put_in (procs s0 p) ∧ ¬ leaving s p ∧
    ∀ n, q_node (procs s0 p) = Some n →
      n_ticks (nodes s n) = if decide (requeues s0 p) then 0 else n_ticks (nodes s0 n);
  rf_todo : ∀ p, p ∉ l → procs s p = procs s0 p ∧ ((p < NPROC)%nat → is_Some (q_node (procs s0 p)) →
    n_ticks (nodes s (nd s0 p)) = n_ticks (nodes s0 (nd s0 p)));
}.

Lemma queued_node s Q p : queues s Q → (p < NPROC)%nat → put_in (procs s p) ≠ -1 → is_Some (q_node (procs s p)).
Proof.
  intros HQ Hp Hpin. destruct (qs_in _ _ HQ p Hp Hpin) as [Hpri Hin].
  apply (qs_active _ _ HQ p Hp). by apply (qs_put_in _ _ HQ _ _ Hpri Hin).
Qed.

Lemma refreshed_nil s : refreshed s s [].
Proof. split; [apply same_rest_refl|intros; apply same_proc_refl|set_solver|done]. Qed.

Lemma refreshed_snoc s0 s s' Q l p :
  queues s Q → (∀ q, q ∈ l → (q < NPROC)%nat) → (p < NPROC)%nat → p ∉ l →
  refreshed s0 s l → one_turn s s' p → refreshed s0 s' (l ++ [p]).
Proof.
  intros HQ Hall Hp Hl Hr Ht. destruct (rf_todo _ _ _ Hr p Hl) as [Hpp _].
  assert (Htk : ∀ q n, q ≠ p → (q < NPROC)%nat → q_node (procs s q) = Some n → n_ticks (nodes s' n) = n_ticks (nodes s n)).
  { intros q n Hne Hq Hn. apply (ot_ticks _ _ _ Ht). intros Hn'. apply Hne.
    apply (nd_inj s Q); [apply HQ|done|done|eauto|eauto|]. by rewrite (nd_Some _ _ _ Hn), (nd_Some _ _ _ Hn'). }
  split.
  - eapply same_rest_trans; [apply Hr|apply Ht].
  - intros q. destruct (decide (q = p)) as [->|Hne]; [rewrite <- Hpp; apply Ht|].
    rewrite (ot_others _ _ _ Ht q Hne). apply Hr.
  - intros q. destruct (decide (q = p)) as [->|Hne].
    + intros _. rewrite <- Hpp. split; [apply (ot_put_in _ _ _ Ht)|]. split; [apply (ot_fresh _ _ _ Ht)|].
      intros n Hn. rewrite (ot_node _ _ _ Ht n Hn).
      assert (Hn0 : n_ticks (nodes s n) = n_ticks (nodes s0 n)).
      { rewrite Hpp in Hn. rewrite <- (nd_Some _ _ _ Hn). apply (rf_todo _ _ _ Hr p Hl); eauto. }
      assert (Hiff : requeues s p ↔ requeues s0 p).
      { apply (spec_one_ext s0 s Q p Hpp). intros _. apply (rf_todo _ _ _ Hr p Hl); [done|].
        rewrite <- Hpp. eauto. }
      by rewrite (decide_ext _ _ _ _ Hiff), Hn0.
    + rewrite elem_of_app, list_elem_of_singleton. intros [Hq|?]; [|done].
      destruct (rf_done _ _ _ Hr q Hq) as (H1 & H2 & H3). pose proof (ot_others _ _ _ Ht q Hne) as Ho.
      assert (Hqn : q_node (procs s q) = q_node (procs s0 q)) by apply (same_proc_fields _ _ (rf_same _ _ _ Hr q)).
      rewrite Ho. split; [done|]. split; [|intros n Hn; rewrite <- H3 by done; eapply Htk; [done|by apply Hall|by rewrite Hqn]].
      intros Hlv. apply H2.
      apply (spec_one_ext s s' Q q Ho); [|done]. intros Hpin.
      destruct (queued_node s Q q HQ (Hall q Hq) Hpin) as [n Hn]. rewrite (nd_Some _ _ _ Hn). by eapply Htk, Hn; auto.
  - intros q. rewrite elem_of_app, list_elem_of_singleton. intros Hq.
    assert (q ≠ p ∧ q ∉ l) as [Hne Hq'] by tauto. destruct (rf_todo _ _ _ Hr q Hq') as [H1 H2].
    rewrite (ot_others _ _ _ Ht q Hne). split; [done|]. intros Hlt [n Hn].
    rewrite <- H2 by eauto. rewrite (nd_Some _ _ _ Hn). apply (Htk q n Hne Hlt). by rewrite H1.
Qed.

Lemma refresh_loop todo s0 s Q l :
  queues s Q → (∀ q, q ∈ l ++ todo → (q < NPROC)%nat) → NoDup (l ++ todo) → refreshed s0 s l →
  (∀ p, p ∈ todo → leaving s0 p → at_head Q (put_in (procs s0 p)) p) →
  ∃ s', mfor todo refresh_one s = Ret () s' ∧ queues s' (foldl (spec_one s0) Q todo) ∧ refreshed s0 s' (l ++ todo).
Proof.
  revert s Q l. induction todo as [|p todo IH]; intros s Q l HQ Hall Hnd Hr Hhd.
  - exists s. rewrite app_nil_r. done.
  - assert (p ∉ l ∧ p ∉ todo) as [Hpl Hpt].
    { apply NoDup_app in Hnd as (_ & Hd & Hnd). apply NoDup_cons in Hnd as [? _]. set_solver. }
    assert ((p < NPROC)%nat) as Hp by (apply Hall; set_solver).
    destruct (rf_todo _ _ _ Hr p Hpl) as [Hpp Htk].
    assert (spec_one s Q p = spec_one s0 Q p ∧ (leaving s p ↔ leaving s0 p) ∧ (requeues s p ↔ requeues s0 p)) as (Hsp & Hlv & _).
    { apply spec_one_ext; [done|]. intros Hpin. apply Htk; [done|]. rewrite <- Hpp in *. by eapply queued_node. }
    destruct (refresh_one_spec s Q p HQ Hp) as (s1 & He & HQ1 & Ht).
    { rewrite Hlv, Hpp. apply Hhd. set_solver. }
    simpl. erewrite bind_Ret by done. rewrite Hsp in HQ1.
    rewrite (cons_middle p l todo) in *. rewrite app_assoc in *.
    apply (IH s1 _ (l ++ [p])); [done|done|done| |].
    + eapply refreshed_snoc; [exact HQ|..]; try done. intros q Hq. apply Hall. set_solver.
    + intros q Hq Hlq. apply at_head_spec_one; [intros ->; done|]. apply Hhd; [set_solver|done].
Qed.

(** What [refresh_q] promises: the lists become those of [refresh_spec]; every
    process is then queued exactly when it is RUNNABLE, in the queue of its
    priority; nobody has to leave any more; the processes that were put at a tail
    start a new slice; and nothing but the queue bookkeeping has changed. *)
Record refresh_post s Q s' : Prop := {
  rp_queues : queues s' (refresh_spec s Q);
  rp_rest : same_rest s s';
  rp_same : ∀ p, same_proc (procs s p) (procs s' p);
  rp_put_in : ∀ p, (p < NPROC)%nat → put_in (procs s' p) = new_put_in (procs s p);
  rp_stay : ∀ p, (p < NPROC)%nat → ¬ leaving s' p;
  rp_ticks : ∀ p n, (p < NPROC)%nat → q_node (procs s p) = Some n →
    n_ticks (nodes s' n) = if decide (requeues s p) then 0 else n_ticks (nodes s n);
  rp_queued : ∀ p pri, (p < NPROC)%nat → layer_ok pri = true →
    p ∈ refresh_spec s Q pri ↔ state (procs s p) = RUNNABLE ∧ priority (procs s p) = pri;
}.
(** The processes that have to leave a queue are at the head of theirs. *)
Definition heads_only s Q : Prop :=
  ∀ p, (p < NPROC)%nat → leaving s p → at_head Q (put_in (procs s p)) p.

Lemma refresh_q_ok s Q : queues s Q → heads_only s Q → ∃ s', refresh_q s = Ret () s' ∧ refresh_post s Q s'.
Proof.
  intros HQ Hhd. unfold refresh_q.
  assert (∃ s', mfor (seq 0 NPROC) refresh_one s = Ret () s' ∧ queues s' (refresh_spec s Q) ∧
    refreshed s s' (seq 0 NPROC)) as (s' & He & HQ' & Hr).
  { unfold refresh_spec. assert (Hall : ∀ p, p ∈ seq 0 NPROC ↔ (p < NPROC)%nat) by (intros p; rewrite elem_of_seq; lia).
    pose proof (NoDup_seq 0 NPROC) as Hnd. revert Hall Hnd. generalize (seq 0 NPROC). intros all Hall Hnd.
    apply (refresh_loop all s s Q []); [done| |done|apply refreshed_nil|].
    - intros q. apply Hall.
    - intros p Hp. apply Hhd. by apply Hall. }
  assert (Hdone : ∀ p, (p < NPROC)%nat → p ∈ seq 0 NPROC) by (intros p Hp; apply elem_of_seq; lia).
  revert He Hr Hdone. generalize (seq 0 NPROC). intros all He Hr Hdone.
  exists s'. split; [done|]. split; [done|apply Hr|apply Hr|..].
  - intros p Hp. by destruct (rf_done _ _ _ Hr p (Hdone p Hp)) as (? & _).
  - intros p Hp. by destruct (rf_done _ _ _ Hr p (Hdone p Hp)) as (_ & ? & _).
  - intros p n Hp. destruct (rf_done _ _ _ Hr p (Hdone p Hp)) as (_ & _ & Hn). apply Hn.
  - intros p pri Hp Hpri. destruct (rf_done _ _ _ Hr p (Hdone p Hp)) as (Hpin & _).
    destruct (same_proc_fields _ _ (rf_same _ _ _ Hr p)) as (Hst & Hpr & _ & _).
    unfold new_put_in in Hpin. split.
    + intros Hin. destruct (qs_put_in _ _ HQ' pri p Hpri Hin) as [H _]. rewrite Hpin in H.
      case_decide; [done|]. by subst.
    + intros [Hrun <-]. rewrite decide_True in Hpin by done.
      destruct (qs_in _ _ HQ' p Hp) as [_ Hin]; [|by rewrite Hpin in Hin].
      rewrite Hpin. intros E1. by rewrite E1 in Hpri.
Qed.

(** C11: [refresh_q] refines its specification: when the queues are well formed
    and the only processes that have to leave a queue are at the head of theirs,
    it returns in a state that satisfies [refresh_post]. *)
Theorem refresh_q_refines s Q :
  queues s Q → heads_only s Q → ∃ s', refresh_q s = Ret () s' ∧ refresh_post s Q s'.
Proof. apply refresh_q_ok. Qed.
End refresh.

(** ** Choosing the next process *)

Section choose.
Context {E : Type}.
Implicit Types s : pst E.

(** The first process of the first non-empty queue, in a given order of queues. *)
Fixpoint first_of (Q : Z → list nat) (pris : list Z) : option (Z * nat) :=
  match pris with
  | [] => None
  | pri :: pris => match Q pri with p :: _ => Some (pri, p) | [] => first_of Q pris end
  end.
Definition top (Q : Z → list nat) : option (Z * nat) := first_of Q [3; 2; 1; 0].

(** One tick is charged to the process and to its node. *)
Definition charge s (p : nat) (pri : Z) : pst E :=
  let s1 := set_procs (<[p := set_ticks (incr (ticks (procs s p)) pri) (procs s p)]> (procs s)) s in
  set_nodes (<[nd s p := set_n_ticks (u32 (n_ticks (nodes s (nd s p)) + 1)) (nodes s (nd s p))]> (nodes s)) s1.

Lemma linked_head s Q pri p tl : linked s Q → layer_ok pri = true → Q pri = p :: tl →
  ∃ n, q_node (procs s p) = Some n ∧ q_head s pri = Some n ∧ n_proc (nodes s n) = Some p ∧ (p < NPROC)%nat.
Proof.
  intros HL Hpri HQ. destruct (lk_in _ _ HL pri p Hpri) as [Hlt [n Hn]]; [rewrite HQ; set_solver|].
  exists n. destruct (lk_chain _ _ HL pri Hpri) as (Hh & _).
  rewrite HQ in Hh. simpl in Hh. rewrite (nd_Some _ _ _ Hn) in Hh. destruct Hh as [Hh _].
  split_and!; [done|done| |done]. by apply (lk_node _ _ HL).
Qed.

Lemma linked_empty s Q pri : linked s Q → layer_ok pri = true → Q pri = [] → q_head s pri = None.
Proof.
  intros HL Hpri HQ. destruct (lk_chain _ _ HL pri Hpri) as (Hh & _). by rewrite HQ in Hh.
Qed.

Lemma get_head_Ret s pri : layer_ok pri = true → get_head pri s = Ret (q_head s pri) s.
Proof. intros H. unfold get_head. by rewrite H. Qed.

(** The loop over the queues finds the first process of the first non-empty one. *)
Lemma pick_Ret s Q : linked s Q →
  pick s = match top Q with
           | None => Ret None s
           | Some (pri, p) => Ret (Some p) (charge s p pri)
           end.
Proof.
  intros HL. unfold pick, top.
  assert (Hok : ∀ pri, pri ∈ [3; 2; 1; 0] → layer_ok pri = true).
  { intros pri Hin. apply layer_ok_spec. set_unfold. lia. }
  revert Hok. generalize [3; 2; 1; 0]. intros pris. induction pris as [|pri pris IH]; intros Hok; [done|].
  cbn [for_find first_of]. pose proof (Hok pri ltac:(set_solver)) as Hpri.
  destruct (Q pri) as [|p tl] eqn:HQ.
  - erewrite (bind_Ret _ _ _ None).
    2:{ erewrite bind_Ret by (by apply get_head_Ret). by rewrite (linked_empty s Q pri). }
    apply IH. intros. apply Hok. set_solver.
  - destruct (linked_head s Q pri p tl HL Hpri HQ) as (n & Hn & Hh & Hp & _).
    erewrite (bind_Ret _ _ _ (Some p) (charge s p pri)); [done|].
    erewrite bind_Ret by (by apply get_head_Ret). rewrite Hh. unfold nget, pget, pset, nset, deref.
    erewrite bind_Ret by done. rewrite Hp. do 3 (erewrite bind_Ret by done). simpl.
    rewrite fn_lookup_insert. simpl. rewrite Hn. do 2 (erewrite bind_Ret by done).
    unfold charge. by rewrite (nd_Some _ _ _ Hn).
Qed.

Lemma first_of_Some Q pris pri p : first_of Q pris = Some (pri, p) →
  pri ∈ pris ∧ ∃ tl, Q pri = p :: tl.
Proof.
  induction pris as [|pri0 pris IH]; simpl; [done|]. destruct (Q pri0) as [|q tl] eqn:HQ.
  - intros H%IH. set_solver.
  - intros [= -> ->]. split; [set_solver|eauto].
Qed.

(** The choice is the head of the highest non-empty queue. *)
Lemma top_Some Q pri p : top Q = Some (pri, p) →
  layer_ok pri = true ∧ (∃ tl, Q pri = p :: tl) ∧ ∀ pri', pri < pri' → layer_ok pri' = true → Q pri' = [].
Proof.
  intros H. destruct (first_of_Some _ _ _ _ H) as [Hin Htl].
  assert (layer_ok pri = true) as Hok by (apply layer_ok_spec; set_unfold; lia).
  split_and!; [done|done|]. intros pri' Hlt Hok'%layer_ok_spec.
  unfold top in H. simpl in H.
  assert (∀ z, z = pri' → pri < z → Q z = [] → Q pri' = []) as Hz by (by intros ? ->).
  destruct (Q 3) eqn:E3; [|simplify_eq; lia].
  destruct (decide (pri' = 3)) as [->|]; [done|].
  destruct (Q 2) eqn:E2; [|simplify_eq; lia].
  destruct (decide (pri' = 2)) as [->|]; [done|].
  destruct (Q 1) eqn:E1; [|simplify_eq; lia].
  destruct (decide (pri' = 1)) as [->|]; [done|].
  destruct (Q 0) eqn:E0; simplify_eq; lia.
Qed.

Lemma top_None Q pri : top Q = None → layer_ok pri = true → Q pri = [].
Proof.
  intros H Hok%layer_ok_spec. unfold top in H. simpl in H.
  destruct (Q 3) eqn:E3; [|done]. destruct (Q 2) eqn:E2; [|done].
  destruct (Q 1) eqn:E1; [|done]. destruct (Q 0) eqn:E0; [|done].
  assert (pri = 0 ∨ pri = 1 ∨ pri = 2 ∨ pri = 3) as [->|[->|[->| ->]]] by lia; done.
Qed.

(** Charging a tick changes neither the lists nor the queue bookkeeping. *)
Lemma linked_charge s Q p pri : linked s Q → linked (charge s p pri) Q.
Proof.
  intros HL.
  assert (Hq : ∀ q, q_node (procs (charge s p pri) q) = q_node (procs s q)).
  { intros q. simpl. rewrite fn_insert_case. by case_decide; subst. }
  assert (Hn : ∀ m, n_proc (nodes (charge s p pri) m) = n_proc (nodes s m) ∧
    n_inuse (nodes (charge s p pri) m) = n_inuse (nodes s m) ∧ next (nodes (charge s p pri) m) = next (nodes s m)).
  { intros m. simpl. rewrite fn_insert_case. by case_decide; subst. }
  split.
  - intros pr Hpr. rewrite (list_fmap_ext (nd (charge s p pri)) (nd s)) by (intros; unfold nd; by rewrite Hq).
    destruct (lk_chain _ _ HL pr Hpr) as (Hc & H). split; [|done].
    eapply is_chain_ext; [|exact Hc]. intros m _. apply Hn.
  - intros pr q. rewrite Hq. apply (lk_in _ _ HL).
  - apply (lk_disj _ _ HL).
  - intros q m. rewrite Hq. destruct (Hn m) as (-> & -> & _). apply (lk_node _ _ HL).
Qed.

Lemma queues_charge s Q p pri : queues s Q → queues (charge s p pri) Q.
Proof.
  intros HQ.
  assert (Hf : ∀ q, state (procs (charge s p pri) q) = state (procs s q) ∧
    put_in (procs (charge s p pri) q) = put_in (procs s q) ∧ priority (procs (charge s p pri) q) = priority (procs s q) ∧
    q_node (procs (charge s p pri) q) = q_node (procs s q)).
  { intros q. simpl. rewrite fn_insert_case. by case_decide; subst. }
  split; [apply linked_charge, HQ|..].
  - intros pr q. destruct (Hf q) as (-> & -> & _). apply (qs_put_in _ _ HQ).
  - intros q. destruct (Hf q) as (_ & -> & _). apply (qs_in _ _ HQ).
  - intros q. destruct (Hf q) as (-> & _ & _ & ->). apply (qs_active _ _ HQ).
  - intros q. destruct (Hf q) as (-> & _ & -> & _). apply (qs_priority _ _ HQ).
Qed.

(** ** Round robin with a quantum

    A turn of the scheduler's loop after which the chosen process yields at once:
    it is RUNNABLE again when the next turn starts. *)
Definition turn : M (pst E) (option nat) := refresh_q ;; pick.
(** The processes chosen by a number of turns. *)
Fixpoint turns (n : nat) : M (pst E) (list (option nat)) :=
  match n with
  | O => mret []
  | S n => o ← turn; l ← turns n; mret (o :: l)
  end.

(** The queues are up to date, and only [p] may have used up its slice. *)
Definition steady s Q (p : nat) : Prop :=
  queues s Q ∧ ∀ q, (q < NPROC)%nat → put_in (procs s q) = new_put_in (procs s q) ∧
    (q ≠ p → put_in (procs s q) ≠ -1 → expired s q = false).
Definition tk s (p : nat) : Z := n_ticks (nodes s (nd s p)).

Lemma steady_leaving s Q p q : steady s Q p → (q < NPROC)%nat → leaving s q → q = p ∧ expired s p = true.
Proof.
  intros [_ Hs] Hq [Hpin Hl]. destruct (Hs q Hq) as [Hn He]. unfold new_put_in in Hn.
  case_decide; [|done]. destruct Hl as [?|[?|Hl]]; [done|done|].
  destruct (decide (q = p)) as [->|Hne]; [done|]. rewrite He in Hl; done.
Qed.

Lemma steady_spec_other s Q p q Q' : steady s Q p → (q < NPROC)%nat → (q ≠ p ∨ expired s p = false) →
  spec_one s Q' q = Q'.
Proof.
  intros [HQ Hs] Hq Hne. destruct (Hs q Hq) as [Hn He]. unfold spec_one, new_put_in in *.
  destruct (decide (state (procs s q) = UNUSED)); [done|].
  destruct (decide (state (procs s q) = RUNNABLE)) as [Hr|Hr].
  - rewrite (decide_False (P := state (procs s q) ≠ RUNNABLE)) by (intros Hx; done).
    pose proof (qs_priority _ _ HQ q Hq Hr) as Hpri.
    assert (put_in (procs s q) ≠ -1) as Hpin by (rewrite Hn; intros Hx; by rewrite Hx in Hpri).
    rewrite decide_False by done. rewrite decide_False; [done|]. intros [?|Hx]; [done|].
    destruct (decide (q = p)) as [->|Hqp]; [destruct Hne; congruence|]. by rewrite He in Hx.
  - rewrite (decide_True (P := state (procs s q) ≠ RUNNABLE)) by done. by rewrite decide_True.
Qed.

Lemma steady_head s Q p pri rest : steady s Q p → layer_ok pri = true → Q pri = p :: rest →
  (p < NPROC)%nat ∧ put_in (procs s p) = pri ∧ state (procs s p) = RUNNABLE ∧ priority (procs s p) = pri ∧
  NoDup (p :: rest).
Proof.
  intros [HQ Hs] Hpri Htop. destruct (lk_in _ _ (qs_linked _ _ HQ) pri p Hpri) as [Hp _]; [rewrite Htop; set_solver|].
  assert (put_in (procs s p) = pri) as Hpin by (apply (queues_only s Q p pri HQ Hpri); rewrite Htop; set_solver).
  destruct (Hs p Hp) as [Hn _]. unfold new_put_in in Hn. rewrite Hpin in Hn.
  split_and!; [done|done|..].
  - case_decide; [done|]. by rewrite Hn in Hpri.
  - case_decide; [done|]. by rewrite Hn in Hpri.
  - rewrite <- Htop. apply (linked_NoDup s Q pri (qs_linked _ _ HQ) Hpri).
Qed.

(** Refreshing steady queues moves the head whose slice is over to the tail. *)
Lemma steady_spec s Q p pri rest : steady s Q p → layer_ok pri = true → Q pri = p :: rest →
  refresh_spec s Q = if expired s p then <[pri := rest ++ [p]]> Q else Q.
Proof.
  intros Hs Hpri Htop. destruct (steady_head s Q p pri rest Hs Hpri Htop) as (Hp & Hpin & Hst & Hpr & Hnd).
  unfold refresh_spec. pose proof (NoDup_seq 0 NPROC) as Hall.
  assert (Hlt : ∀ q, q ∈ seq 0 NPROC → (q < NPROC)%nat) by (intros q Hq; apply elem_of_seq in Hq; lia).
  assert (Hin : p ∈ seq 0 NPROC) by (apply elem_of_seq; lia).
  revert Hall Hlt Hin. generalize (seq 0 NPROC). intros l Hall Hlt Hin.
  assert (Hid : ∀ l Q', (∀ q, q ∈ l → (q < NPROC)%nat ∧ (q ≠ p ∨ expired s p = false)) → foldl (spec_one s) Q' l = Q').
  { intros l0. induction l0 as [|q l0 IH]; intros Q' Hq; [done|]. simpl.
    rewrite (steady_spec_other s Q p q) by (done || apply Hq; set_solver). apply IH. intros. apply Hq. set_solver. }
  destruct (expired s p) eqn:He; [|apply Hid; auto].
  apply list_elem_of_split in Hin as (l1 & l2 & ->). apply NoDup_app in Hall as (_ & Hd & Hall).
  apply NoDup_cons in Hall as [Hp2 _]. rewrite foldl_app, (Hid l1).
  2:{ intros q Hq. split; [apply Hlt; set_solver|]. left. intros ->. apply (Hd p Hq). set_solver. }
  simpl. rewrite Hid; [|intros q Hq; split; [apply Hlt; set_solver|left; intros ->; done]].
  unfold spec_one. rewrite Hst. rewrite (decide_False (P := RUNNABLE = UNUSED)) by done.
  rewrite (decide_False (P := RUNNABLE ≠ RUNNABLE)) by (intros Hx; done). rewrite Hpin, Hpr.
  rewrite decide_False by (intros ->; done). rewrite decide_True by (by right).
  erewrite leave_head by (by rewrite ?Htop). unfold join. by rewrite fn_lookup_insert, fn_insert_insert.
Qed.

Lemma top_intro Q pri p rest : layer_ok pri = true → Q pri = p :: rest →
  (∀ pri', pri < pri' → layer_ok pri' = true → Q pri' = []) → top Q = Some (pri, p).
Proof.
  intros Hpri Htop Hhi. destruct (top Q) as [[pri' p']|] eqn:E1.
  - destruct (top_Some _ _ _ E1) as (Hok & [tl Htl] & Hhi').
    destruct (Z.lt_total pri pri') as [Hlt|[<-|Hlt]].
    + by rewrite (Hhi pri') in Htl.
    + congruence.
    + by rewrite (Hhi' pri) in Htop.
  - by rewrite (top_None Q pri) in Htop.
Qed.

Lemma requeues_steady s Q p q : steady s Q p → (q < NPROC)%nat → requeues s q → q = p ∧ expired s p = true.
Proof.
  intros [HQ Hs] Hq [Hst Hr]. destruct (Hs q Hq) as [Hn He]. unfold new_put_in in Hn. rewrite decide_True in Hn by done.
  pose proof (qs_priority _ _ HQ q Hq Hst) as Hok.
  assert (put_in (procs s q) ≠ -1) as Hpin by (rewrite Hn; intros Hx; by rewrite Hx in Hok).
  destruct Hr as [?|[?|Hr]]; [done|done|]. destruct (decide (q = p)) as [->|Hne]; [done|]. rewrite He in Hr; done.
Qed.

Lemma tk_charge s p pri q : tk (charge s p pri) q =
  if decide (nd s q = nd s p) then u32 (tk s p + 1) else tk s q.
Proof.
  unfold tk. assert (nd (charge s p pri) q = nd s q) as ->.
  { unfold nd. simpl. rewrite fn_insert_case. by case_decide; subst. }
  simpl. rewrite fn_insert_case. case_decide; [|done]. done.
Qed.

(** One turn on steady queues: refresh as in [steady_spec], then the head of the
    highest queue is chosen and charged. *)
Lemma turn_spec s Q p pri rest h rest' :
  steady s Q p → layer_ok pri = true → Q pri = p :: rest → (∀ pri', pri < pri' → layer_ok pri' = true → Q pri' = []) →
  (if expired s p then rest ++ [p] else p :: rest) = h :: rest' →
  let Q' := <[pri := h :: rest']> Q in
  let t q := if decide (q = p ∧ expired s p = true) then 0 else tk s q in
  ∃ s', turn s = Ret (Some h) s' ∧ queues s' Q' ∧
    (∀ q, (q < NPROC)%nat → put_in (procs s' q) = put_in (procs s q) ∧ new_put_in (procs s' q) = new_put_in (procs s q) ∧
       q_node (procs s' q) = q_node (procs s q)) ∧
    (∀ q, (q < NPROC)%nat → is_Some (q_node (procs s q)) → tk s' q = if decide (q = h) then u32 (t q + 1) else t q).
Proof.
  intros Hs Hpri Htop Hhi Hh Q' t. pose proof Hs as [HQ Hs2].
  destruct (steady_head s Q p pri rest Hs Hpri Htop) as (Hp & Hpin & Hst & Hpr & Hnd).
  destruct (refresh_q_ok s Q HQ) as (s1 & He1 & Hpost).
  { intros q Hq Hl. destruct (steady_leaving s Q p q Hs Hq Hl) as [-> _]. rewrite Hpin. by exists rest. }
  pose proof (rp_queues _ _ _ Hpost) as HQ1. rewrite (steady_spec s Q p pri rest Hs Hpri Htop) in HQ1.
  assert (HQ1' : queues s1 Q').
  { unfold Q'. rewrite <- Hh. destruct (expired s p); [done|]. by rewrite fn_insert_same. }
  assert (Htop' : top Q' = Some (pri, h)).
  { eapply top_intro; [done|unfold Q'; apply fn_lookup_insert|]. intros pri' Hlt Hok. unfold Q'.
    rewrite fn_lookup_insert_ne by (intros ->; lia). by apply Hhi. }
  assert (Hf : ∀ q, q_node (procs s1 q) = q_node (procs s q)) by
    (intros q; apply (same_proc_fields _ _ (rp_same _ _ _ Hpost q))).
  assert (Hin : h ∈ Q' pri) by (unfold Q'; rewrite fn_lookup_insert; set_solver).
  destruct (lk_in _ _ (qs_linked _ _ HQ1') pri h Hpri Hin) as [Hhlt [n Hn]].
  exists (charge s1 h pri). split_and!.
  - unfold turn. erewrite bind_Ret by done. by rewrite (pick_Ret s1 Q' (qs_linked _ _ HQ1')), Htop'.
  - by apply queues_charge.
  - intros q Hq. destruct (same_proc_fields _ _ (rp_same _ _ _ Hpost q)) as (F1 & F2 & F3 & _).
    assert (G : ∀ q, put_in (procs (charge s1 h pri) q) = put_in (procs s1 q) ∧
      new_put_in (procs (charge s1 h pri) q) = new_put_in (procs s1 q) ∧
      q_node (procs (charge s1 h pri) q) = q_node (procs s1 q)).
    { intros q'. simpl. rewrite fn_insert_case. by case_decide; subst. }
    destruct (G q) as (-> & -> & ->). rewrite (rp_put_in _ _ _ Hpost q Hq).
    destruct (Hs2 q Hq) as [-> _]. split; [done|]. split; [|done]. unfold new_put_in. by rewrite F1, F2.
  - intros q Hq [m Hm]. rewrite tk_charge.
    assert (Ht : ∀ q, (q < NPROC)%nat → is_Some (q_node (procs s q)) → tk s1 q = t q).
    { intros q' Hq' [m' Hm']. unfold t, tk. rewrite (nd_Some s1 q' m') by (by rewrite Hf). rewrite (nd_Some s q' m') by done.
      rewrite (rp_ticks _ _ _ Hpost q' m') by done.
      destruct (decide (requeues s q')) as [Hr|Hr].
      - rewrite decide_True; [done|]. by apply (requeues_steady s Q p).
      - rewrite decide_False; [done|]. intros [-> He]. apply Hr. split; [done|]. right. by right. }
    rewrite !Ht by (eauto; rewrite <- Hf; eauto).
    destruct (decide (q = h)) as [->|Hne]; [by rewrite decide_True|]. rewrite decide_False; [done|].
    intros Hx. apply Hne. apply (nd_inj s1 Q'); eauto using qs_linked. rewrite Hf. eauto.
Qed.

(** The slice is not over: the same process again. *)
Lemma turn_again s Q p pri rest :
  steady s Q p → layer_ok pri = true → Q pri = p :: rest → (∀ pri', pri < pri' → layer_ok pri' = true → Q pri' = []) →
  0 <= tk s p < slice pri →
  ∃ s', turn s = Ret (Some p) s' ∧ steady s' Q p ∧ tk s' p = tk s p + 1 ∧
    ∀ q, (q < NPROC)%nat → q ≠ p → is_Some (q_node (procs s q)) →
      tk s' q = tk s q ∧ q_node (procs s' q) = q_node (procs s q).
Proof.
  intros Hs Hpri Htop Hhi Htk. pose proof Hs as [HQ Hs2].
  destruct (steady_head s Q p pri rest Hs Hpri Htop) as (Hp & Hpin & Hst & Hpr & Hnd).
  destruct (slice_pos pri Hpri) as [Hsl _]. apply layer_ok_spec in Hpri as Hb.
  assert (Hex : expired s p = false) by (unfold expired; rewrite Hpin; fold (tk s p); apply Z.eqb_neq; lia).
  destruct (turn_spec s Q p pri rest p rest Hs Hpri Htop Hhi) as (s' & He & HQ' & Hf & Ht); [by rewrite Hex|].
  rewrite fn_insert_same in HQ' by done.
  destruct (qs_active _ _ HQ p Hp) as [n Hn]; [by rewrite Hst|].
  exists s'. split; [done|]. split_and!.
  - split; [done|]. intros q Hq. destruct (Hf q Hq) as (F1 & F2 & F3). destruct (Hs2 q Hq) as [G1 G2].
    rewrite F1, F2. split; [done|]. intros Hne Hpq. rewrite <- (G2 Hne Hpq). unfold expired. rewrite F1.
    fold (tk s' q) (tk s q). rewrite Ht; [|done|by eapply queued_node]. rewrite decide_False by done.
    by rewrite decide_False by (intros [? _]; done).
  - rewrite Ht by eauto. rewrite decide_True by done. rewrite decide_False by (intros [_ ?]; congruence).
    rewrite u32_small; lia.
  - intros q Hq Hne Hqn. destruct (Hf q Hq) as (F1 & F2 & F3). split; [|done]. rewrite Ht by done. rewrite decide_False by done.
    by rewrite decide_False by (intros [? _]; done).
Qed.

(** The slice is over: the next process of the queue starts its own. *)
Lemma turn_next s Q p pri h rest :
  steady s Q p → layer_ok pri = true → Q pri = p :: h :: rest → (∀ pri', pri < pri' → layer_ok pri' = true → Q pri' = []) →
  tk s p = slice pri → tk s h = 0 →
  ∃ s', turn s = Ret (Some h) s' ∧ steady s' (<[pri := h :: rest ++ [p]]> Q) h ∧ tk s' h = 1 ∧
    ∀ q, (q < NPROC)%nat → q ≠ h → q ≠ p → is_Some (q_node (procs s q)) →
      tk s' q = tk s q ∧ q_node (procs s' q) = q_node (procs s q).
Proof.
  intros Hs Hpri Htop Hhi Htk Hh. pose proof Hs as [HQ Hs2].
  destruct (steady_head s Q p pri _ Hs Hpri Htop) as (Hp & Hpin & Hst & Hpr & Hnd).
  destruct (slice_pos pri Hpri) as [Hsl Hsl0].
  assert (Hex : expired s p = true) by (unfold expired; rewrite Hpin; fold (tk s p); by apply Z.eqb_eq).
  destruct (turn_spec s Q p pri (h :: rest) h (rest ++ [p]) Hs Hpri Htop Hhi) as (s' & He & HQ' & Hf & Ht); [by rewrite Hex|].
  assert (Hhp : h ≠ p) by (intros ->; apply NoDup_cons in Hnd as [Hx _]; set_solver).
  destruct (lk_in _ _ (qs_linked _ _ HQ) pri h Hpri) as [Hhlt Hhn]; [rewrite Htop; set_solver|].
  exists s'. split; [done|]. split_and!.
  - split; [done|]. intros q Hq. destruct (Hf q Hq) as (F1 & F2 & F3). destruct (Hs2 q Hq) as [G1 G2].
    rewrite F1, F2. split; [done|]. intros Hne Hpq. unfold expired. rewrite F1. fold (tk s' q).
    rewrite Ht; [|done|by eapply queued_node]. rewrite decide_False by done. destruct (decide (q = p ∧ _)) as [[Hqp _]|Hqp].
    + rewrite Hqp, Hpin. apply Z.eqb_neq. lia.
    + apply G2; [|done]. intros ->. by apply Hqp.
  - rewrite Ht by done. rewrite decide_True by done. rewrite decide_False by (intros [? _]; done). by rewrite Hh.
  - intros q Hq Hne Hne2 Hqn. destruct (Hf q Hq) as (F1 & F2 & F3). split; [|done]. rewrite Ht by done.
    rewrite decide_False by done. by rewrite decide_False by (intros [? _]; done).
Qed.
Lemma turns_S s n o s1 l s2 : turn s = Ret o s1 → turns n s1 = Ret l s2 → turns (S n) s = Ret (o :: l) s2.
Proof. intros H1 H2. simpl. erewrite bind_Ret by done. by erewrite bind_Ret. Qed.
Lemma turns_add s n m l l' s1 s2 : turns n s = Ret l s1 → turns m s1 = Ret l' s2 → turns (n + m) s = Ret (l ++ l') s2.
Proof.
  revert s l. induction n as [|n IH]; intros s l H1 H2.
  - by injection H1 as <- <-.
  - simpl in H1. apply bind_Ret_inv in H1 as (o & s' & Ho & H1). apply bind_Ret_inv in H1 as (l0 & s'' & Hl & H1).
    injection H1 as <- <-. by apply (turns_S s (n + m) o s'); [|apply IH].
Qed.

(** The rest of a slice: the head runs until its ticks reach the slice. *)
Lemma turns_slice n s Q p pri rest :
  steady s Q p → layer_ok pri = true → Q pri = p :: rest → (∀ pri', pri < pri' → layer_ok pri' = true → Q pri' = []) →
  0 <= tk s p → tk s p + Z.of_nat n = slice pri →
  ∃ s', turns n s = Ret (replicate n (Some p)) s' ∧ steady s' Q p ∧ tk s' p = slice pri ∧
    ∀ q, (q < NPROC)%nat → q ≠ p → is_Some (q_node (procs s q)) → tk s' q = tk s q ∧ q_node (procs s' q) = q_node (procs s q).
Proof.
  intros Hs Hpri Htop Hhi. revert s Hs. induction n as [|n IH]; intros s Hs H0 Hn.
  - exists s. split_and!; [done|done|lia|done].
  - destruct (turn_again s Q p pri rest Hs Hpri Htop Hhi) as (s1 & He & Hs1 & Ht1 & Hf1); [lia|].
    destruct (IH s1 Hs1) as (s2 & He2 & Hs2 & Ht2 & Hf2); [lia|lia|].
    exists s2. split_and!; [by eapply turns_S|done|done|]. intros q Hq Hne Hqn.
    destruct (Hf1 q Hq Hne Hqn) as [F1 F2]. destruct (Hf2 q Hq Hne) as [G1 G2]; [by rewrite F2|].
    split; congruence.
Qed.

(** The choices of one cycle of a queue: its processes in order, each for a slice. *)
Definition cycle (n : nat) (l : list nat) : list (option nat) := concat ((λ p, replicate n (Some p)) <$> l).

Lemma turns_cycle rest pri s Q p behind :
  steady s Q p → layer_ok pri = true → Q pri = p :: rest ++ behind →
  (∀ pri', pri < pri' → layer_ok pri' = true → Q pri' = []) →
  0 <= tk s p <= slice pri → (∀ q, q ∈ rest → tk s q = 0) →
  let k := Z.to_nat (slice pri - tk s p) in let n := Z.to_nat (slice pri) in
  ∃ s', turns (k + length rest * n) s = Ret (replicate k (Some p) ++ cycle n rest) s'.
Proof.
  intros Hs Hpri Htop Hhi Htk Hrest k n. revert s Q p behind Hs Htop Hhi Htk Hrest k.
  induction rest as [|h rest IH]; intros s Q p behind Hs Htop Hhi Htk Hrest k;
    (destruct (turns_slice k s Q p pri _ Hs Hpri Htop Hhi) as (s1 & He1 & Hs1 & Ht1 & Hf1); [lia|lia|]).
  - exists s1. rewrite Nat.add_0_r, app_nil_r. done.
  - destruct (steady_head s Q p pri _ Hs Hpri Htop) as (_ & _ & _ & _ & Hnd).
    assert (Hlk : ∀ q, q ∈ h :: rest → (q < NPROC)%nat ∧ is_Some (q_node (procs s q)) ∧ q ≠ p).
    { intros q Hq. destruct (lk_in _ _ (qs_linked _ _ (proj1 Hs)) pri q Hpri); [rewrite Htop; set_solver|].
      split_and!; [done|done|]. intros ->. apply NoDup_cons in Hnd as [Hx _]. set_solver. }
    assert (H1 : ∀ q, q ∈ h :: rest → tk s1 q = 0 ∧ is_Some (q_node (procs s1 q))).
    { intros q Hq. destruct (Hlk q Hq) as (L1 & L2 & L3). destruct (Hf1 q L1 L3 L2) as [F1 F2].
      rewrite F1, F2. split; [by apply Hrest|done]. }
    destruct (turn_next s1 Q p pri h (rest ++ behind) Hs1 Hpri Htop Hhi Ht1) as (s2 & He2 & Hs2 & Ht2 & Hf2);
      [apply H1; set_solver|].
    destruct (IH s2 (<[pri := h :: (rest ++ behind) ++ [p]]> Q) h (behind ++ [p])) as (s3 & He3).
    + done.
    + by rewrite fn_lookup_insert, app_assoc.
    + intros pri' Hlt Hok. rewrite fn_lookup_insert_ne by (intros ->; lia). by apply Hhi.
    + rewrite Ht2. destruct (slice_pos pri Hpri) as [Hsl _]. apply layer_ok_spec in Hpri. lia.
    + intros q Hq. destruct (H1 q) as [T1 N1]; [set_solver|]. destruct (Hlk q) as (L1 & _ & L3); [set_solver|].
      rewrite <- T1. apply Hf2; [done| |done|done]. intros ->.
      apply NoDup_cons in Hnd as [_ Hnd]. apply NoDup_cons in Hnd as [Hx _]. set_solver.
    + exists s3. eapply turns_S in He3; [|exact He2]. eapply turns_add in He3; [|exact He1].
      assert (Hk2 : n = S (Z.to_nat (slice pri - tk s2 h))).
      { rewrite Ht2. destruct (slice_pos pri Hpri) as [Hsl _]. apply layer_ok_spec in Hpri. unfold n. lia. }
      unfold cycle in *. cbn [fmap list_fmap concat length Nat.mul]. rewrite Hk2 at 1 3. exact He3.
Qed.

(** C12: round robin with a quantum.  When the highest non-empty queue holds
    [p :: rest] with fresh slices and every chosen process just yields, the
    scheduler runs each of them for exactly (5 - priority) * 4 turns, in queue
    order, before the first one runs again. *)
Theorem mlq_round_robin s Q pri p rest :
  steady s Q p → 0 <= pri <= 3 → Q pri = p :: rest → (∀ pri', pri < pri' <= 3 → Q pri' = []) →
  (∀ q, q ∈ p :: rest → tk s q = 0) →
  let n := Z.to_nat ((5 - pri) * 4) in
  ∃ s', turns (length (p :: rest) * n) s = Ret (cycle n (p :: rest)) s'.
Proof.
  intros Hs Hpri Htop Hhi Htk n. apply layer_ok_spec in Hpri as Hok. destruct (slice_pos pri Hok) as [Hsl _].
  destruct (turns_cycle rest pri s Q p [] Hs Hok) as (s' & He).
  - by rewrite app_nil_r.
  - intros pri' Hlt Hok'%layer_ok_spec. apply Hhi. lia.
  - rewrite Htk by set_solver. lia.
  - intros q Hq. apply Htk. set_solver.
  - exists s'. revert He. rewrite (Htk p) by set_solver. rewrite Z.sub_0_r, Hsl. done.
Qed.
End choose.

(** ** Changing priorities and reading the table *)

Section calls.
Context {E : Type}.
Implicit Types s : pst E.

(** The first slot whose [pid] is the given one. *)
Definition find_pid s (id : Z) : option nat := head (filter (λ p, pid (procs s p) = id) (seq 0 NPROC)).

(** A search by pid runs its body at the first match only, when the body always
    leaves the loop. *)
Lemma for_find_pid {R} s id (g : nat → M (pst E) (option R)) l :
  (∀ p s' a s'', g p s' = Ret a s'' → is_Some a) →
  for_find l (λ p, i ← pget p pid; if i =? id then g p else mret None) s =
  match head (filter (λ p, pid (procs s p) = id) l) with
  | Some p => g p s
  | None => Ret None s
  end.
Proof.
  intros Hg. induction l as [|p l IH]; [done|]. cbn [for_find]. rewrite filter_cons.
  destruct (decide (pid (procs s p) = id)) as [He|He]; simpl.
  - unfold mbind, M_bind, pget, gets. simpl. rewrite (proj2 (Z.eqb_eq _ _) He).
    destruct (g p s) as [r s'| | | |] eqn:Hp; try done. by destruct (Hg _ _ _ _ Hp) as [v ->].
  - erewrite (bind_Ret _ _ _ None s); [apply IH|].
    unfold pget. erewrite bind_Ret by done. by rewrite (proj2 (Z.eqb_neq _ _) He).
Qed.

Lemma find_pid_Some s id p : find_pid s id = Some p → (p < NPROC)%nat ∧ pid (procs s p) = id.
Proof.
  unfold find_pid. destruct (filter _ _) as [|q l] eqn:Hf; [done|]. simpl. intros [= ->].
  assert (p ∈ filter (λ p, pid (procs s p) = id) (seq 0 NPROC)) as Hin by (rewrite Hf; set_solver).
  apply list_elem_of_filter in Hin as [? Hin]. apply elem_of_seq in Hin. split; [lia|done].
Qed.

(** What [proc_setpri] does to the process it has found. *)
Definition setpri_at (p : nat) (pri : Z) : M (pst E) () :=
  pset p (set_priority pri) ;;
  n ← pget p q_node;
  pin ← pget p put_in;
  rm_from_q n pin ;;
  pr ← pget p priority;
  put_tail_q n pr ;;
  pset p (λ r, set_put_in (priority r) r).

Lemma proc_setpri_unfold s id pri :
  proc_setpri id pri s =
    if (pri <? 0) || (3 <? pri) then Ret (-1) s
    else match find_pid s id with
         | None => Ret (-1) s
         | Some p => (setpri_at p pri ;; mret 0) s
         end.
Proof.
  unfold proc_setpri. destruct (_ || _)%bool; [done|].
  unfold mbind at 1, M_bind at 1. rewrite for_find_pid.
  - fold (find_pid s id). destruct (find_pid s id) as [p|]; [|done].
    unfold setpri_at, mbind, M_bind, pset, pget, modify, gets.
    destruct (rm_from_q _ _ _) as [? s1| | | |]; try done. by destruct (put_tail_q _ _ s1).
  - intros p s' a s''. unfold mbind, M_bind, pset, pget, modify, gets.
    destruct (rm_from_q _ _ _) as [? s1| | | |]; try done.
    destruct (put_tail_q _ _ s1); try done. intros [= <- _]. done.
Qed.

Lemma proc_getpri_Ret s id :
  proc_getpri id s = Ret (match find_pid s id with Some p => priority (procs s p) | None => -1 end) s.
Proof.
  unfold proc_getpri. unfold mbind at 1, M_bind at 1.
  rewrite (for_find_pid s id (λ p, pri ← pget p priority; mret (Some pri))).
  - fold (find_pid s id). by destruct (find_pid s id).
  - intros p s' a s''. unfold mbind, M_bind, pget, gets. intros [= <- _]. done.
Qed.

Lemma filter_middle l1 (p : nat) l2 : NoDup (l1 ++ p :: l2) → filter (.≠ p) (l1 ++ p :: l2) = l1 ++ l2.
Proof.
  intros Hnd. rewrite filter_app, filter_cons_False by (intros H; by apply H).
  apply NoDup_app in Hnd as (_ & Hd & Hnd). apply NoDup_cons in Hnd as [Hp _].
  rewrite !filter_all; [done|intros x Hx ->; done|]. intros x Hx ->. apply (Hd p Hx). set_solver.
Qed.

(** The three list operations of [setpri] when the removal works. *)
Lemma setpri_at_spec s Q p pri l1 l2 :
  queues s Q → layer_ok pri = true → (p < NPROC)%nat → put_in (procs s p) ≠ -1 →
  Q (put_in (procs s p)) = l1 ++ p :: l2 → (l1 = [] ∨ l2 ≠ []) →
  ∃ s', setpri_at p pri s = Ret () s' ∧ queues s' (join pri p (leave (put_in (procs s p)) p Q)) ∧
    (∀ q, q ≠ p → procs s' q = procs s q) ∧ n_ticks (nodes s' (nd s' p)) = 0 ∧
    put_in (procs s' p) = pri ∧ priority (procs s' p) = pri ∧ pid (procs s' p) = pid (procs s p) ∧
    state (procs s' p) = state (procs s p) ∧ q_node (procs s' p) = q_node (procs s p) ∧ cproc s' = cproc s ∧
    ∀ m, m ≠ nd s p → n_ticks (nodes s' m) = n_ticks (nodes s m).
Proof.
  intros HQ Hpri Hp Hpin HQp Hpos. destruct (qs_in _ _ HQ p Hp Hpin) as [Hpo Hin].
  destruct (qs_put_in _ _ HQ _ _ Hpo Hin) as [_ Hact]. destruct (qs_active _ _ HQ p Hp Hact) as [n Hn].
  pose proof (linked_NoDup s Q _ (qs_linked _ _ HQ) Hpo) as Hnd.
  set (s1 := set_procs (<[p := set_priority pri (procs s p)]> (procs s)) s).
  assert (H1 : procs s1 p = set_priority pri (procs s p)) by (apply fn_lookup_insert).
  assert (HL1 : linked s1 Q) by (apply linked_set_proc; [apply HQ|done]).
  destruct (linked_remove s1 Q p (put_in (procs s p)) l1 l2 HL1 Hpo HQp Hpos) as (s2 & He2 & HL2 & Hp2 & Ht2 & Hr2).
  assert (Hq2 : procs s2 p = set_priority pri (procs s p)) by (by rewrite Hp2).
  destruct (linked_append s2 _ p n pri HL2 Hpri Hp) as (s3 & He3 & HL3 & Hp3 & Ht3 & Hr3); [by rewrite Hq2| |].
  { intros pr Hpr. rewrite fn_insert_case. case_decide as Hc.
    - rewrite HQp in Hnd. apply NoDup_app in Hnd as (_ & Hd & Hnd). apply NoDup_cons in Hnd as [Hni _].
      set_solver.
    - intros Hin'. apply Hc. symmetry. by apply (queues_only s Q). }
  assert (Hq3 : procs s3 p = set_qtail (incr (qtail (procs s2 p)) pri) (procs s2 p)) by (by rewrite Hp3, fn_lookup_insert).
  assert (Hlv : leave (put_in (procs s p)) p Q = <[put_in (procs s p) := l1 ++ l2]> Q).
  { unfold leave. f_equal. rewrite HQp in *. by apply filter_middle. }
  exists (set_procs (<[p := set_put_in pri (procs s3 p)]> (procs s3)) s3). split_and!.
  - unfold setpri_at, pset, pget. do 3 (erewrite bind_Ret by done). fold s1. rewrite H1. simpl.
    rewrite H1 in He2. simpl in He2. erewrite bind_Ret by done. erewrite bind_Ret by done.
    rewrite Hq2 in He3 |- *. erewrite bind_Ret by done. unfold modify. simpl. by rewrite Hq3, Hq2.
  - rewrite Hlv. eapply (queues_intro s Q _ _ p); [done| |done|done|..].
    + apply linked_set_proc; done.
    + intros q Hq. simpl. by rewrite fn_lookup_insert_ne, Hp3, fn_lookup_insert_ne, Hp2; [apply fn_lookup_insert_ne|..].
    + simpl. rewrite fn_lookup_insert, Hq3, Hq2. done.
    + simpl. rewrite fn_lookup_insert, Hq3, Hq2. done.
    + simpl. rewrite fn_lookup_insert, Hq3, Hq2. done.
    + intros pr q Hq. rewrite <- Hlv, elem_of_join, elem_of_leave. naive_solver.
    + intros pr Hpr. simpl. rewrite fn_lookup_insert, <- Hlv, elem_of_join, elem_of_leave. simpl. split.
      * intros [[H Hc]|[-> _]]; [|done]. by destruct (Hc (eq_sym (queues_only s Q p pr HQ Hpr H))).
      * intros <-. by right.
    + right. simpl. by rewrite fn_lookup_insert.
  - intros q Hq. simpl. by rewrite fn_lookup_insert_ne, Hp3, fn_lookup_insert_ne, Hp2; [apply fn_lookup_insert_ne|..].
  - unfold nd. simpl. rewrite fn_lookup_insert, Hq3, Hq2. simpl. rewrite Hn. simpl. by rewrite Ht3, decide_True.
  - simpl. by rewrite fn_lookup_insert.
  - simpl. by rewrite fn_lookup_insert, Hq3, Hq2.
  - simpl. by rewrite fn_lookup_insert, Hq3, Hq2.
  - simpl. by rewrite fn_lookup_insert, Hq3, Hq2.
  - simpl. by rewrite fn_lookup_insert, Hq3, Hq2.
  - destruct Hr3 as (_ & _ & _ & Hc3 & _). simpl. rewrite Hc3. clear -Hr2. apply Hr2.
  - intros m Hm. simpl. rewrite Ht3. rewrite (nd_Some _ _ _ Hn) in Hm. by rewrite decide_False, Ht2.
Qed.

(** C17: [setpri] on a process that is at the head of its queue, or not at its
    tail, moves it to the tail of the queue of its new priority with a fresh time
    slice; the queues stay well formed, [getpri] then answers the new priority,
    and no other process changes. *)
Theorem proc_setpri_requeues s Q id pri p l1 l2 :
  queues s Q → 0 <= pri <= 3 → find_pid s id = Some p → put_in (procs s p) ≠ -1 →
  Q (put_in (procs s p)) = l1 ++ p :: l2 → (l1 = [] ∨ l2 ≠ []) →
  ∃ s', proc_setpri id pri s = Ret 0 s' ∧
    queues s' (join pri p (leave (put_in (procs s p)) p Q)) ∧
    proc_getpri id s' = Ret pri s' ∧ n_ticks (nodes s' (nd s' p)) = 0 ∧ put_in (procs s' p) = pri ∧
    ∀ q, q ≠ p → procs s' q = procs s q.
Proof.
  intros HQ Hpri Hf Hpin HQp Hpos. destruct (find_pid_Some _ _ _ Hf) as [Hp Hid].
  apply layer_ok_spec in Hpri as Hok.
  destruct (setpri_at_spec s Q p pri l1 l2 HQ Hok Hp Hpin HQp Hpos) as (s' & He & HQ' & Hoth & Ht & Hpi & Hpr & Hid' & _).
  exists s'. split_and!; [|done| |done..].
  - rewrite proc_setpri_unfold. destruct (Z.ltb_spec pri 0), (Z.ltb_spec 3 pri); try lia. simpl.
    rewrite Hf. by erewrite bind_Ret.
  - rewrite proc_getpri_Ret. replace (find_pid s' id) with (Some p); [by rewrite Hpr|].
    rewrite <- Hf. unfold find_pid. f_equal. apply filter_ext_in. intros q _.
    destruct (decide (q = p)) as [->|Hne]; [by rewrite Hid'|by rewrite Hoth].
Qed.

(** Removing the tail of a longer list cuts it off but leaves [q_tail] on it. *)
Lemma rm_from_q_tail s n pri l :
  layer_ok pri = true → chain_q s pri (l ++ [n]) → l ≠ [] →
  ∃ s', rm_from_q (Some n) pri s = Ret () s' ∧ same_but_links s s' ∧
    is_chain (λ m, next (nodes s' m)) (q_head s' pri) l ∧ q_tail s' pri = Some n ∧ n ∉ l ∧
    next (nodes s' n) = None ∧ q_head s' = q_head s ∧ q_tail s' = q_tail s ∧
    ∀ m, m ∉ l → next (nodes s' m) = next (nodes s m).
Proof.
  intros Hpri (Hc & Ht & Hnd & Hlen) Hl. rewrite length_app in Hlen. simpl in Hlen. rewrite last_snoc in Ht.
  destruct l as [|h l1]; [done|]. clear Hl.
  assert (Hnl : n ∉ h :: l1) by (apply NoDup_app in Hnd; set_solver).
  set (y := default h (last l1)).
  assert (∃ l0, h :: l1 = l0 ++ [y]) as [l0 Hl0].
  { destruct (last l1) as [z|] eqn:El; subst y; simpl.
    - apply last_Some in El as [l0 ->]. by exists (h :: l0).
    - apply last_None in El as ->. by exists []. }
  pose proof Hc as Hc0. rewrite Hl0, <- app_assoc in Hc0, Hnd. simpl in Hc0, Hnd.
  destruct (is_chain_remove _ _ l0 y n [] Hnd Hc0) as [Hy Hc'].
  assert (Hnn : next (nodes s n) = None).
  { clear -Hc0. revert Hc0. generalize (q_head s pri). induction l0 as [|x l0 IH]; simpl; intros h0 H.
    - by destruct H as (_ & _ & H). 
    - destruct H as [_ H]. by eapply IH. }
  destruct Hc as [Hh Hc]. unfold rm_from_q. erewrite bind_Ret by (by apply get_head_Ret).
  rewrite Hh, decide_False by set_solver.
  erewrite bind_Ret.
  2:{ apply (rm_walk_found s NPROC h (Some h) l1 n []); [by split|set_solver|simpl in *; lia]. }
  fold y. unfold nget, nset. erewrite bind_Ret by done. rewrite Hy. erewrite bind_Ret by done. rewrite Hnn in *.
  assert (Hyl : y ∈ h :: l1) by (rewrite Hl0; set_solver).
  assert (Hfin : is_chain (λ m, next (<[y := set_next None (nodes s y)]> (nodes s) m)) (q_head s pri) (h :: l1)).
  { rewrite Hl0. eapply is_chain_ext; [|exact Hc']. intros m _. simpl. rewrite fn_insert_case. by case_decide. }
  eexists. split; [reflexivity|]. split_and!; try done.
  - repeat split; simpl; try intros m; rewrite fn_insert_case; by case_decide; subst.
  - simpl. rewrite fn_insert_case. by case_decide.
  - intros m Hm. simpl. rewrite fn_lookup_insert_ne; [done|]. by intros ->.
Qed.

(** But [setpri] on the tail of a queue of two or more, even to the priority
    it already has, loses the process: the removal leaves [q_tail] on its node,
    and appending makes that node point to itself.  The process stays RUNNABLE
    with a fresh slice, [refresh_q] sees nothing to do for it, and no list that
    starts at a [q_head] leads to it. *)
Theorem proc_setpri_tail_loses s Q id pri p l :
  queues s Q → 0 <= pri <= 3 → find_pid s id = Some p → put_in (procs s p) = pri →
  state (procs s p) = RUNNABLE → Q pri = l ++ [p] → l ≠ [] →
  ∃ s', proc_setpri id pri s = Ret 0 s' ∧
    (∀ pri', layer_ok pri' = true →
       is_chain (λ m, next (nodes s' m)) (q_head s' pri') (nd s' <$> (if decide (pri' = pri) then l else Q pri'))) ∧
    q_tail s' pri = Some (nd s' p) ∧ next (nodes s' (nd s' p)) = Some (nd s' p) ∧
    state (procs s' p) = RUNNABLE ∧ put_in (procs s' p) = pri ∧ ¬ leaving s' p.
Proof.
  intros HQ Hpri Hf Hpin Hst HQp Hl. destruct (find_pid_Some _ _ _ Hf) as [Hp Hid].
  apply layer_ok_spec in Hpri as Hok. pose proof (qs_linked _ _ HQ) as HL.
  destruct (qs_active _ _ HQ p Hp) as [n Hn]; [by rewrite Hst|].
  destruct (lk_node _ _ HL p n Hp Hn) as (_ & Hnp & _).
  set (s1 := set_procs (<[p := set_priority pri (procs s p)]> (procs s)) s).
  assert (HL1 : linked s1 Q) by (apply linked_set_proc; done).
  assert (Hn1 : nd s1 p = n) by (unfold nd; simpl; by rewrite fn_lookup_insert; simpl; rewrite Hn).
  pose proof (lk_chain _ _ HL1 pri Hok) as Hc. rewrite HQp, fmap_app in Hc. simpl in Hc. rewrite Hn1 in Hc.
  destruct (rm_from_q_tail s1 n pri (nd s1 <$> l) Hok Hc) as (s2 & He2 & Hsame & Hc2 & Ht2 & Hnl & Hnn & Hh2 & Htt2 & Hoth2);
    [by destruct l|]. destruct Hsame as (Hp2 & Htk2 & _ & _ & _ & _ & _ & _ & Hnd2).
  assert (Hq2 : procs s2 p = set_priority pri (procs s p)) by (rewrite Hp2; apply fn_lookup_insert).
  set (r3 := set_put_in pri (set_qtail (incr (qtail (procs s p)) pri) (set_priority pri (procs s p)))).
  set (s3 := set_procs (<[p := r3]> (procs s)) (set_q_tail (<[pri := Some n]> (q_tail s2))
    (set_nodes (<[n := set_next (Some n) (set_n_ticks 0 (set_next None (nodes s2 n)))]> (nodes s2)) s2))).
  assert (Hrun : setpri_at p pri s = Ret () s3).
  { unfold setpri_at, pset, pget. do 3 (erewrite bind_Ret by done). fold s1.
    assert (procs s1 p = set_priority pri (procs s p)) as H1 by apply fn_lookup_insert.
    rewrite H1. simpl. rewrite Hn, Hpin. erewrite bind_Ret by done. erewrite bind_Ret by done. rewrite Hq2. simpl.
    unfold put_tail_q, deref, nset, nget, pset, get_tail, put_tail. rewrite Hok.
    unfold mbind, M_bind, modify, gets, mret, M_ret. simpl. rewrite !fn_lookup_insert. simpl.
    destruct (Hnd2 n) as [Hnpn _]. rewrite Hnpn. simpl. rewrite Hnp. simpl. rewrite Ht2. simpl.
    rewrite !fn_lookup_insert. rewrite !fn_insert_insert. unfold s3, r3. rewrite Hp2. simpl.
    rewrite !fn_lookup_insert, !fn_insert_insert. simpl. done. }
  assert (Hnd3 : ∀ q, nd s3 q = nd s1 q).
  { intros q. unfold nd. simpl. rewrite !fn_insert_case. by case_decide. }
  exists s3. split_and!.
  - rewrite proc_setpri_unfold. destruct (Z.ltb_spec pri 0), (Z.ltb_spec 3 pri); try lia. simpl.
    rewrite Hf. by erewrite bind_Ret.
  - intros pri' Hok'. rewrite (list_fmap_ext (nd s3) (nd s1)) by done. case_decide as Hpp.
    + subst pri'. eapply is_chain_ext; [|exact Hc2]. intros m Hm. simpl.
      rewrite fn_lookup_insert_ne; [done|]. by intros ->.
    + destruct (lk_chain _ _ HL1 pri' Hok') as (Hc' & _). simpl. rewrite Hh2.
      eapply is_chain_ext; [|exact Hc']. intros m Hm. simpl.
      assert (Hm' : m ∉ nd s1 <$> Q pri) by (intros H; by eapply (disjoint_nodes s1 Q pri pri')).
      rewrite HQp, fmap_app in Hm'. simpl in Hm'. rewrite Hn1 in Hm'. apply not_elem_of_app in Hm' as [Hm1 Hm2].
      rewrite fn_lookup_insert_ne by set_solver. by apply Hoth2.
  - rewrite Hnd3, Hn1. simpl. by rewrite fn_lookup_insert.
  - rewrite Hnd3, Hn1. simpl. by rewrite fn_lookup_insert.
  - simpl. by rewrite fn_lookup_insert.
  - simpl. by rewrite fn_lookup_insert.
  - intros [_ Hlv]. unfold expired in Hlv. rewrite Hnd3, Hn1 in Hlv. simpl in Hlv. rewrite !fn_lookup_insert in Hlv.
    unfold r3 in Hlv. simpl in Hlv. destruct (slice_pos pri Hok) as [_ Hsl].
    destruct Hlv as [?|[?|Hlv]]; [done|done|]. by destruct (slice pri).
Qed.

(** And [setpri] on a process that is in no queue (asleep, or a zombie) reads
    [q_head] at index -1. *)
Theorem proc_setpri_unqueued_faults s id pri p :
  0 <= pri <= 3 → find_pid s id = Some p → put_in (procs s p) = -1 →
  proc_setpri id pri s = Fault "q_head index out of bounds".
Proof.
  intros Hpri Hf Hpin. rewrite proc_setpri_unfold.
  destruct (Z.ltb_spec pri 0), (Z.ltb_spec 3 pri); try lia. simpl. rewrite Hf.
  unfold setpri_at, mbind, M_bind, pset, pget, modify, gets. simpl. rewrite fn_lookup_insert. simpl. by rewrite Hpin.
Qed.

(** The row that one turn of the loop of [proc_gather_pstat] writes, and no other. *)
Definition row_ok s (r : pstat) (i : nat) : Prop :=
  ps_inuse r i = (if bool_decide (state (procs s i) = SLEEPING ∨ state (procs s i) = RUNNABLE ∨
    state (procs s i) = RUNNING) then 1 else 0) ∧
  ps_pid r i = pid (procs s i) ∧ ps_priority r i = priority (procs s i) ∧ ps_state r i = state (procs s i) ∧
  ∀ j, 0 <= j <= 3 → ps_ticks r i j = ticks (procs s i) j ∧ ps_qtail r i j = qtail (procs s i) j.

Lemma copy_layers (f g : Z → Z) j :
  0 <= j <= 3 → foldl (λ f j, <[j := g j]> f) f [0; 1; 2; 3] j = g j.
Proof.
  intros Hj. simpl. rewrite !fn_insert_case. repeat case_decide; subst; done || lia.
Qed.

Lemma gather_one_row s r i : row_ok s (gather_one s r i) i.
Proof.
  unfold row_ok, gather_one. cbn [ps_inuse ps_pid ps_priority ps_state ps_ticks ps_qtail].
  rewrite !fn_lookup_insert. split_and!; try done. intros j Hj. by rewrite !copy_layers.
Qed.
Lemma gather_one_other s r i k : i ≠ k → row_ok s r k → row_ok s (gather_one s r i) k.
Proof.
  intros Hne. unfold row_ok, gather_one. cbn [ps_inuse ps_pid ps_priority ps_state ps_ticks ps_qtail].
  by rewrite !fn_lookup_insert_ne by done.
Qed.

(** [proc_gather_pstat] fills the row of every slot with the state of its
    process, whatever the table held before, and changes nothing else. *)
Theorem proc_gather_pstat_exact s r :
  ∃ r', proc_gather_pstat r s = Ret r' s ∧ ∀ i, (i < NPROC)%nat → row_ok s r' i.
Proof.
  eexists. split; [reflexivity|].
  assert (Hall : ∀ i, (i < NPROC)%nat → i ∈ seq 0 NPROC) by (intros i Hi; apply elem_of_seq; lia).
  revert Hall r. generalize (seq 0 NPROC). intros l Hall r i Hi. specialize (Hall i Hi).
  assert (Hk : ∀ l r, row_ok s r i → row_ok s (foldl (gather_one s) r l) i).
  { clear. induction l as [|k l IH]; intros r Hr; [done|]. simpl. apply IH.
    destruct (decide (k = i)) as [->|]; [apply gather_one_row|by apply gather_one_other]. }
  revert r. induction l as [|k l IH]; intros r; [set_solver|]. simpl.
  apply elem_of_cons in Hall as [->|Hin]; [apply Hk, gather_one_row|by apply IH].
Qed.
End calls.

(** ** A concrete table: 0, 1 and 2 are queued at priority 3; 0 has gone to sleep,
    1 and 2 are RUNNABLE, and 3 is RUNNABLE at priority 2 and not queued yet. *)
Definition demo_proc (p : nat) : proc :=
  mkProc 0 0 0 (match p with 0 => SLEEPING | 1 | 2 | 3 => RUNNABLE | _ => UNUSED end)%nat (Z.of_nat p + 1) None
    (mkTf 0 0 0 0 0 0 0 0) (mkCtx 0 0 0 0 0) 0 0 [] 0 EmptyString (Some p)
    (if bool_decide (p < 3)%nat then 3 else -1) (if bool_decide (p = 3%nat) then 2 else 3)
    (λ _, 0) (λ _, 0) false.
Definition demo : pst () :=
  mkPst (Spinlock.mkMach [] (λ _, false) (λ _, Spinlock.mkLock false None)) demo_proc
    (λ n, mkNode (match n with 0 => Some 1 | 1 => Some 2 | _ => None end)%nat (Some n) 0 1)
    (λ pri, if decide (pri = 3) then Some 0%nat else None) (λ pri, if decide (pri = 3) then Some 2%nat else None)
    5 (Some 0%nat) None false ().
Definition demo_Q (pri : Z) : list nat := if decide (pri = 3) then [0; 1; 2]%nat else [].

Lemma demo_queues : queues demo demo_Q.
Proof.
  assert (Hin : ∀ pri p, p ∈ demo_Q pri → pri = 3 ∧ (p < 3)%nat).
  { intros pri p. unfold demo_Q. case_decide; set_solver by lia. }
  split; [split|..].
  - intros pri _. unfold chain_q, demo_Q. simpl. case_decide; simpl; [|repeat split; [constructor|unfold NPROC; lia]].
    split_and!; try done; [repeat constructor; set_solver|unfold NPROC; lia].
  - intros pri p _ [_ Hp]%Hin. split; [unfold NPROC; lia|eauto].
  - intros pri pri' p _ _ [-> _]%Hin [-> _]%Hin. done.
  - intros p n Hp [= <-]. done.
  - intros pri p _ [-> Hp]%Hin. simpl. rewrite bool_decide_eq_true_2 by done. split; [done|].
    by destruct p as [|[|[|]]]; [..|lia].
  - intros p Hp. simpl. case_bool_decide as Hb; [|done]. intros _. split; [done|].
    destruct p as [|[|[|]]]; [set_solver..|lia].
  - intros p Hp _. simpl. eauto.
  - intros p Hp _. simpl. by case_bool_decide.
Qed.

Lemma demo_heads : heads_only demo demo_Q.
Proof.
  intros p _ [Hpin Hl]. destruct p as [|[|[|p]]]; [by eexists| | |done].
  - exfalso. destruct Hl as [?|[?|?]]; done.
  - exfalso. destruct Hl as [?|[?|?]]; done.
Qed.

Lemma refresh_q_refines_witness :
  ∃ s', refresh_q demo = Ret () s' ∧ refresh_post demo demo_Q s' ∧
    refresh_spec demo demo_Q 3 = [1; 2]%nat ∧ refresh_spec demo demo_Q 2 = [3%nat].
Proof.
  destruct (refresh_q_refines demo demo_Q demo_queues demo_heads) as (s' & He & HQ).
  exists s'. split; [exact He|]. split; [exact HQ|]. split; vm_compute; reflexivity.
Defined.

(** 1 and 2 only, both RUNNABLE at priority 3. *)
Definition demo_rr : pst () :=
  set_procs (<[0%nat := set_put_in (-1) (demo_proc 0)]> (<[3%nat := set_state ZOMBIE (demo_proc 3)]> demo_proc))
    (set_q_head (λ pri, if decide (pri = 3) then Some 1%nat else None) demo).
Definition demo_rr_Q (pri : Z) : list nat := if decide (pri = 3) then [1; 2]%nat else [].

Lemma demo_rr_procs p : q_node (procs demo_rr p) = Some p ∧ priority (procs demo_rr p) = priority (demo_proc p) ∧
  put_in (procs demo_rr p) = (if bool_decide (p ∈ [1; 2]%nat) then 3 else -1) ∧
  (state (procs demo_rr p) = RUNNABLE ↔ p ∈ [1; 2]%nat).
Proof.
  destruct (decide (p < 4)%nat) as [Hp|Hp].
  - destruct p as [|[|[|[|p]]]]; [..|lia];
      (split; [reflexivity|]; split; [reflexivity|]; split; [reflexivity|]; simpl; split; [done || set_solver|]).
    all: try done; intros; set_solver by lia.
  - assert (procs demo_rr p = demo_proc p) as ->.
    { simpl. by rewrite !fn_lookup_insert_ne by lia. }
    split; [done|]. split; [done|]. unfold demo_proc. simpl.
    rewrite !bool_decide_eq_false_2 by set_solver by lia. split; [done|].
    destruct p as [|[|[|[|p]]]]; [lia..|]. split; [done|]. intros; set_solver by lia.
Qed.

Lemma demo_rr_steady : steady demo_rr demo_rr_Q 1.
Proof.
  assert (Hin : ∀ pri p, p ∈ demo_rr_Q pri ↔ pri = 3 ∧ p ∈ [1; 2]%nat).
  { intros pri p. unfold demo_rr_Q. case_decide; set_solver. }
  assert (Hlt : ∀ p, p ∈ [1; 2]%nat → (p < NPROC)%nat) by (intros p Hp; unfold NPROC; set_unfold; lia).
  split; [split; [split|..]|].
  - intros pri _. rewrite (list_fmap_ext (nd demo_rr) id).
    2:{ intros i p _. unfold nd. destruct (demo_rr_procs p) as (-> & _). done. }
    rewrite list_fmap_id. unfold chain_q, demo_rr_Q. simpl.
    case_decide; simpl; split_and!; try done; try constructor; try (unfold NPROC; lia); try set_solver.
    apply NoDup_singleton.
  - intros pri p _ [_ Hp]%Hin. split; [by apply Hlt|]. destruct (demo_rr_procs p) as (-> & _). eauto.
  - intros pri pri' p _ _ [-> _]%Hin [-> _]%Hin. done.
  - intros p n Hp. destruct (demo_rr_procs p) as (-> & _). intros [= <-]. done.
  - intros pri p _ [-> Hp]%Hin. destruct (demo_rr_procs p) as (_ & _ & -> & Hst).
    rewrite bool_decide_eq_true_2 by done. split; [done|]. by rewrite (proj2 Hst Hp).
  - intros p _. destruct (demo_rr_procs p) as (_ & _ & -> & _). case_bool_decide; [|done].
    intros _. split; [done|]. by apply Hin.
  - intros p _ _. destruct (demo_rr_procs p) as (-> & _). eauto.
  - intros p _ Hr. destruct (demo_rr_procs p) as (_ & -> & _ & Hst). simpl. by case_bool_decide.
  - intros p Hp. destruct (demo_rr_procs p) as (Hn & Hpr & Hpin & Hst). unfold new_put_in, expired, nd.
    rewrite Hpin, Hpr, Hn. simpl. case_bool_decide as Hb.
    + rewrite decide_True by by apply Hst. rewrite bool_decide_eq_false_2 by (intros ->; set_solver). done.
    + rewrite decide_False by (rewrite Hst; done). done.
Qed.

Lemma mlq_round_robin_witness :
  ∃ s', turns 16 demo_rr = Ret (replicate 8 (Some 1%nat) ++ replicate 8 (Some 2%nat)) s'.
Proof.
  destruct (mlq_round_robin demo_rr demo_rr_Q 3 1 [2%nat] demo_rr_steady) as (s' & He).
  - lia.
  - reflexivity.
  - intros pri' Hp. lia.
  - intros q Hq. apply elem_of_cons in Hq as [->|Hq]; [reflexivity|].
    apply list_elem_of_singleton in Hq as ->. reflexivity.
  - exists s'. exact He.
Defined.

Lemma proc_setpri_requeues_witness :
  ∃ s', proc_setpri 2 1 demo = Ret 0 s' ∧ queues s' (join 1 1 (leave 3 1 demo_Q)) ∧
    leave 3 1 demo_Q 3 = [0; 2]%nat.
Proof.
  destruct (proc_setpri_requeues demo demo_Q 2 1 1 [0%nat] [2%nat] demo_queues) as (s' & He & HQ & _);
    [lia|reflexivity|done|reflexivity|by right|].
  exists s'. split; [exact He|]. split; [exact HQ|reflexivity].
Defined.

Lemma proc_setpri_tail_loses_witness :
  ∃ s', proc_setpri 3 3 demo = Ret 0 s' ∧ next (nodes s' (nd s' 2)) = Some (nd s' 2) ∧ ¬ leaving s' 2.
Proof.
  destruct (proc_setpri_tail_loses demo demo_Q 3 3 2 [0; 1]%nat demo_queues) as (s' & He & _ & _ & Hn & _ & _ & Hl);
    [lia|reflexivity|reflexivity|reflexivity|reflexivity|done|].
  exists s'. split; [exact He|]. split; [exact Hn|exact Hl].
Defined.

Lemma proc_setpri_unqueued_faults_witness :
  find_pid demo 4 = Some 3%nat ∧ proc_setpri 4 1 demo = Fault "q_head index out of bounds".
Proof.
  split; [reflexivity|]. apply (proc_setpri_unqueued_faults demo 4 1 3); [lia|reflexivity|reflexivity].
Defined.
