(* ===== verification/Proc.v ===== *)
(** * Processes (src/04_xv6_scheduling/src/proc.c): creation, exit, wait, sleep and
    wakeup, kill, and the scheduler around the queues of Mlq.v.

    A function that gives up the CPU ends in [Block] at its [swtch]; what it does
    when it is switched to again is a second definition, [_resume].  The second
    half of the file composes the pieces into a transition system of one CPU:
    the scheduler thread and the processes hand the CPU to each other. *)

From S2P Require Import Prelude ProcData Mlq.
From S2P Require Spinlock.

(** What proc.c uses of the rest of the kernel: each service works on its own
    state [E] and none of them touches the process table. *)
Class Services (E : Type) := {
  kalloc : M E Z;
  kfree : Z → M E ();
  setupkvm : M E Z;
  inituvm : Z → M E ();
  copyuvm : Z → Z → M E Z;
  freevm : Z → M E ();
  allocuvm : Z → Z → Z → M E Z;
  deallocuvm : Z → Z → Z → M E Z;
  switchuvm : Z → Z → M E ();
  switchkvm : M E ();
  filedup : Z → M E Z;
  fileclose : Z → M E ();
  idup : Z → M E Z;
  iput : Z → M E ();
  namei : string → M E Z;
  begin_op : M E ();
  end_op : M E ();
  iinit : M E ();
  initlog : M E ();
}.

(** Addresses the linker chooses: of [forkret], and of each slot of [ptable.proc]
    (the channel [wait] sleeps on). *)
Class Layout := { forkret_addr : Z; proc_addr : nat → Z }.

Definition PTABLE : Z := 1.      (* &ptable.lock *)
Definition PGSIZE : Z := 4096.
Definition UCODE : Z := Z.lor (Z.shiftl 3 3) 3.
Definition UDATA : Z := Z.lor (Z.shiftl 4 3) 3.
Definition FL_IF : Z := 0x200.

Section code.
Context {E : Type} `{Services E} `{Layout} (me : Z).

(** Calls into the environment, which run to completion, and into spinlock.c,
    where a CPU alone that finds a lock taken spins for ever. *)
Definition no_block {S A} (m : M S A) : M S A := λ s,
  match m s with Block _ => Diverge | o => o end.
Definition ext {A} (m : M E A) : M (pst E) A := zoom env set_env (no_block m).
Definition hw {A} (m : M Spinlock.mach A) : M (pst E) A := zoom mach set_mach (no_block m).
Definition acquire (l : Z) : M (pst E) () := hw (Spinlock.acquire me l).
Definition release (l : Z) : M (pst E) () := hw (Spinlock.release me l).

Definition myproc : M (pst E) (option nat) :=
  hw (Spinlock.pushcli me) ;;
  hw (Spinlock.mycpu me) ;;
  p ← gets cproc;
  hw (Spinlock.popcli me) ;;
  mret p.
(** [myproc()] where the result is followed. *)
Definition curproc : M (pst E) nat := p ← myproc; deref p.

Definition find_unused : M (pst E) (option nat) :=
  for_find (seq 0 NPROC) (λ p, st ← pget p state; mret (if decide (st = UNUSED) then Some p else None)).

(** The loop of [allocproc] that takes a queue node. *)
Definition alloc_node (p : nat) : M (pst E) () :=
  r ← for_find (seq 0 NPROC) (λ i,
    u ← nget i n_inuse;
    if u =? 0 then
      nset i (set_n_inuse 1) ;;
      nset i (set_n_proc (Some p)) ;;
      nset i (set_next None) ;;
      pset p (set_q_node (Some i)) ;;
      mret (Some ())
    else mret None);
  mret ().

Definition reset_stats (p : nat) : M (pst E) () :=
  mfor [0; 1; 2; 3] (λ i,
    pset p (λ r, set_ticks (<[i := 0]> (ticks r)) r) ;;
    pset p (λ r, set_qtail (<[i := 0]> (qtail r)) r) ;;
    pset p (set_put_in (-1))).

Definition allocproc : M (pst E) (option nat) :=
  acquire PTABLE ;;
  o ← find_unused;
  match o with
  | None => release PTABLE ;; mret None
  | Some p =>
      pset p (set_state EMBRYO) ;;
      n ← gets nextpid;
      modify (set_nextpid (s32 (n + 1))) ;;
      pset p (set_pid n) ;;
      release PTABLE ;;
      k ← ext kalloc;
      pset p (set_kstack k) ;;
      if k =? 0 then pset p (set_state UNUSED) ;; mret None
      else
        pset p (set_ctx (mkCtx 0 0 0 0 forkret_addr)) ;;
        alloc_node p ;;
        reset_stats p ;;
        mret (Some p)
  end.

Definition ptable_init : M (pst E) () := mfor (seq 0 NPROC) (λ p, pset p (set_put_in (-1))).

Definition userinit : M (pst E) () :=
  ptable_init ;;
  o ← allocproc;
  modify (set_initproc o) ;;
  p ← deref o;
  pd ← ext setupkvm;
  pset p (set_pgdir pd) ;;
  when (pd =? 0) (panic "userinit: out of memory?") ;;
  ext (inituvm pd) ;;
  pset p (set_sz PGSIZE) ;;
  pset p (set_tf (mkTf 0 UCODE UDATA UDATA UDATA FL_IF PGSIZE 0)) ;;
  pset p (set_priority 3) ;;
  pset p (set_name "initcode") ;;
  ip ← ext (namei "/");
  pset p (set_cwd ip) ;;
  acquire PTABLE ;;
  pset p (set_state RUNNABLE) ;;
  release PTABLE.

Definition growproc (n : Z) : M (pst E) Z :=
  p ← curproc;
  sz0 ← pget p sz;
  pd ← pget p pgdir;
  r ← (if 0 <? n then
         z ← ext (allocuvm pd sz0 (u32 (sz0 + n)));
         mret (if z =? 0 then None else Some z)
       else if n <? 0 then
         z ← ext (deallocuvm pd sz0 (u32 (sz0 + n)));
         mret (if z =? 0 then None else Some z)
       else mret (Some sz0));
  match r with
  | None => mret (-1)
  | Some z =>
      pset p (set_sz z) ;;
      k ← pget p kstack;
      ext (switchuvm k pd) ;;
      mret 0
  end.

(** [np->ofile[i] = filedup(curproc->ofile[i])] for the descriptors in use. *)
Definition dup_files (np p : nat) : M (pst E) () :=
  mfor (seq 0 NOFILE) (λ i,
    fs ← pget p ofile;
    let f := nth i fs 0 in
    when (negb (f =? 0)) (
      g ← ext (filedup f);
      pset np (λ r, set_ofile (<[i := g]> (ofile r)) r))).

(** [safestrcpy(np->name, curproc->name, 16)] *)
Definition name16 (s : string) : string := String.substring 0 15 s.

Definition fork2 (pri : Z) : M (pst E) Z :=
  p ← curproc;
  o ← allocproc;
  match o with
  | None => mret (-1)
  | Some np =>
      ppd ← pget p pgdir;
      psz ← pget p sz;
      pd ← ext (copyuvm ppd psz);
      pset np (set_pgdir pd) ;;
      if pd =? 0 then
        k ← pget np kstack;
        ext (kfree k) ;;
        pset np (set_kstack 0) ;;
        pset np (set_state UNUSED) ;;
        mret (-1)
      else
        pset np (set_sz psz) ;;
        pset np (set_parent (Some p)) ;;
        t ← pget p tf;
        pset np (set_tf t) ;;
        pset np (λ r, set_tf (mkTf 0 (tf_cs (tf r)) (tf_ds (tf r)) (tf_es (tf r)) (tf_ss (tf r))
                                 (tf_eflags (tf r)) (tf_esp (tf r)) (tf_eip (tf r))) r) ;;
        dup_files np p ;;
        c ← pget p cwd;
        c ← ext (idup c);
        pset np (set_cwd c) ;;
        nm ← pget p name;
        pset np (set_name (name16 nm)) ;;
        id ← pget np pid;
        pset np (set_priority pri) ;;
        n ← pget np q_node;
        n ← deref n;
        nset n (set_n_proc (Some np)) ;;
        acquire PTABLE ;;
        pset np (set_state RUNNABLE) ;;
        release PTABLE ;;
        mret id
  end.

Definition fork : M (pst E) Z :=
  p ← curproc;
  pri ← pget p priority;
  fork2 pri.

(** The guard and the bounds check of [sys_fork2] (sysproc.c). *)
Definition sys_fork2 (pri : Z) : M (pst E) Z :=
  if (pri <? 0) || (3 <? pri) then mret (-1) else fork2 pri.

Definition wakeup1 (ch : Z) : M (pst E) () :=
  mfor (seq 0 NPROC) (λ p,
    st ← pget p state;
    c ← pget p chan;
    when (bool_decide (st = SLEEPING) && (c =? ch)) (pset p (set_state RUNNABLE))).
Definition wakeup (ch : Z) : M (pst E) () :=
  acquire PTABLE ;; wakeup1 ch ;; release PTABLE.

Definition kill (id : Z) : M (pst E) Z :=
  acquire PTABLE ;;
  r ← for_find (seq 0 NPROC) (λ p,
    i ← pget p pid;
    if i =? id then
      pset p (set_killed 1) ;;
      st ← pget p state;
      when (bool_decide (st = SLEEPING)) (pset p (set_state RUNNABLE)) ;;
      release PTABLE ;;
      mret (Some 0)
    else mret None);
  match r with
  | Some v => mret v
  | None => release PTABLE ;; mret (-1)
  end.

(** [sched] up to its [swtch], and what follows it. *)
Definition sched : M (pst E) () :=
  o ← myproc;
  h ← hw (Spinlock.holding me PTABLE);
  when (negb h) (panic "sched ptable.lock") ;;
  i ← hw (Spinlock.mycpu me);
  c ← hw (Spinlock.cpu_get i);
  when (negb (Spinlock.ncli c =? 1)) (panic "sched locks") ;;
  p ← deref o;
  st ← pget p state;
  when (bool_decide (st = RUNNING)) (panic "sched running") ;;
  fl ← hw (Spinlock.interrupts_on me);
  when fl (panic "sched interruptible") ;;
  pset p (set_saved_intena (Spinlock.intena c)) ;;
  block.
Definition sched_resume (p : nat) : M (pst E) () :=
  i ← hw (Spinlock.mycpu me);
  c ← hw (Spinlock.cpu_get i);
  b ← pget p saved_intena;
  hw (Spinlock.cpu_put i (Spinlock.mkCpu (Spinlock.apicid c) (Spinlock.ncli c) b)).

Definition yield : M (pst E) () :=
  acquire PTABLE ;;
  p ← curproc;
  pset p (set_state RUNNABLE) ;;
  sched.
Definition yield_resume (p : nat) : M (pst E) () :=
  sched_resume p ;; release PTABLE.

Definition forkret : M (pst E) () :=
  release PTABLE ;;
  f ← gets first;
  when f (modify (set_first false) ;; ext iinit ;; ext initlog).

Definition sleep (ch lk : Z) : M (pst E) () :=
  o ← myproc;
  match o with
  | None => panic "sleep"
  | Some p =>
      when (lk =? 0) (panic "sleep without lk") ;;
      when (negb (lk =? PTABLE)) (acquire PTABLE ;; release lk) ;;
      pset p (set_chan ch) ;;
      pset p (set_state SLEEPING) ;;
      sched
  end.
Definition sleep_resume (p : nat) (lk : Z) : M (pst E) () :=
  sched_resume p ;;
  pset p (set_chan 0) ;;
  when (negb (lk =? PTABLE)) (release PTABLE ;; acquire lk).

(** [exit]: it never returns, so it ends in [Block] or a panic. *)
Definition close_files (p : nat) : M (pst E) () :=
  mfor (seq 0 NOFILE) (λ fd,
    fs ← pget p ofile;
    let f := nth fd fs 0 in
    when (negb (f =? 0)) (
      ext (fileclose f) ;;
      pset p (λ r, set_ofile (<[fd := 0]> (ofile r)) r))).
Definition adopt (p : nat) : M (pst E) () :=
  mfor (seq 0 NPROC) (λ q,
    par ← pget q parent;
    when (bool_decide (par = Some p)) (
      ini ← gets initproc;
      pset q (set_parent ini) ;;
      st ← pget q state;
      when (bool_decide (st = ZOMBIE)) (wakeup1 (match ini with Some i => proc_addr i | None => 0 end)))).
Definition exit : M (pst E) () :=
  o ← myproc;
  ini ← gets initproc;
  when (bool_decide (o = ini)) (panic "init exiting") ;;
  p ← deref o;
  close_files p ;;
  ext begin_op ;;
  c ← pget p cwd;
  ext (iput c) ;;
  ext end_op ;;
  pset p (set_cwd 0) ;;
  acquire PTABLE ;;
  par ← pget p parent;
  wakeup1 (match par with Some q => proc_addr q | None => 0 end) ;;
  adopt p ;;
  pset p (set_state ZOMBIE) ;;
  sched.

(** One slot of the scan of [wait]: the child's pid when it was reaped. *)
Definition reap (p : nat) : M (pst E) Z :=
  id ← pget p pid;
  k ← pget p kstack;
  ext (kfree k) ;;
  pset p (set_kstack 0) ;;
  pd ← pget p pgdir;
  ext (freevm pd) ;;
  pset p (set_pid 0) ;;
  pset p (set_parent None) ;;
  pset p (set_name EmptyString) ;;
  pset p (set_killed 0) ;;
  pset p (set_state UNUSED) ;;
  n ← pget p q_node;
  n ← deref n;
  nset n (set_n_inuse 0) ;;
  pset p (set_q_node None) ;;
  mret id.
Fixpoint wait_scan (l : list nat) (cur : nat) (havekids : bool) : M (pst E) (Z + bool) :=
  match l with
  | [] => mret (inr havekids)
  | p :: l =>
      par ← pget p parent;
      if bool_decide (par = Some cur) then
        st ← pget p state;
        if decide (st = ZOMBIE) then id ← reap p; mret (inl id)
        else wait_scan l cur true
      else wait_scan l cur havekids
  end.
(** One turn of the [for(;;)] of [wait]. *)
Definition wait_turn (cur : nat) : M (pst E) Z :=
  r ← wait_scan (seq 0 NPROC) cur false;
  match r with
  | inl id => release PTABLE ;; mret id
  | inr havekids =>
      kl ← pget cur killed;
      if negb havekids || negb (kl =? 0) then release PTABLE ;; mret (-1)
      else sleep (proc_addr cur) PTABLE ;; mret 0
  end.
Definition wait : M (pst E) Z :=
  cur ← curproc;
  acquire PTABLE ;;
  wait_turn cur.
(** Back from the [sleep] of [wait]: around the loop again. *)
Definition wait_resume (cur : nat) : M (pst E) Z :=
  sleep_resume cur PTABLE ;; wait_turn cur.

(** The body of the scheduler's loop up to its [swtch] (the process switched to,
    if any), and from its [swtch] to the end of the body. *)
Definition scheduler_pick : M (pst E) (option nat) :=
  hw (Spinlock.sti me) ;;
  acquire PTABLE ;;
  refresh_q ;;
  o ← pick;
  match o with
  | None => release PTABLE ;; mret None
  | Some p =>
      modify (set_cproc (Some p)) ;;
      k ← pget p kstack;
      pd ← pget p pgdir;
      ext (switchuvm k pd) ;;
      pset p (set_state RUNNING) ;;
      mret (Some p)
  end.
Definition scheduler_back : M (pst E) () :=
  ext switchkvm ;;
  modify (set_cproc None) ;;
  release PTABLE.
End code.

(** ** What the queues depend on *)

Section frame.
Context {E : Type} `{Services E} `{Layout} (me : Z).
Implicit Types s : pst E.

(** Two states with the same queues and the same queue bookkeeping. *)
Record core_eq s s' : Prop := {
  ce_nodes : nodes s' = nodes s;
  ce_head : q_head s' = q_head s;
  ce_tail : q_tail s' = q_tail s;
  ce_cproc : cproc s' = cproc s;
  ce_proc : ∀ p, state (procs s' p) = state (procs s p) ∧ q_node (procs s' p) = q_node (procs s p) ∧
    put_in (procs s' p) = put_in (procs s p) ∧ priority (procs s' p) = priority (procs s p);
}.
Lemma core_eq_refl s : core_eq s s.
Proof. by split. Qed.
Lemma core_eq_trans s1 s2 s3 : core_eq s1 s2 → core_eq s2 s3 → core_eq s1 s3.
Proof.
  intros [] []. split; try congruence. intros p.
  destruct (ce_proc0 p) as (?&?&?&?), (ce_proc1 p) as (?&?&?&?). repeat split; congruence.
Qed.

(** Code that does not touch any of it. *)
Definition quiet {A} (m : M (pst E) A) : Prop := ∀ s, pc m (λ _, core_eq s) (λ _, False) s.

Lemma quiet_bind {A B} (m : M (pst E) A) (f : A → M (pst E) B) : quiet m → (∀ a, quiet (f a)) → quiet (m ≫= f).
Proof.
  intros Hm Hf s. apply pc_bind. eapply pc_mono; [apply Hm| |done]. intros a s' Hs'.
  eapply pc_mono; [apply Hf| |done]. intros b s'' Hs''. exact (core_eq_trans _ _ _ Hs' Hs'').
Qed.
Lemma quiet_mret {A} (a : A) : quiet (mret a).
Proof. intros s. apply core_eq_refl. Qed.
Lemma quiet_gets {A} (f : pst E → A) : quiet (gets f).
Proof. intros s. apply core_eq_refl. Qed.
Lemma quiet_panic {A} msg : quiet (panic msg : M (pst E) A).
Proof. by intros s. Qed.
Lemma quiet_deref o : quiet (deref o : M (pst E) nat).
Proof. destruct o; [apply quiet_mret|by intros s]. Qed.
Lemma quiet_hw {A} (m : M Spinlock.mach A) : quiet (hw m).
Proof. intros s. unfold pc, hw, zoom, no_block. destruct (m (mach s)); simpl; done. Qed.
Lemma quiet_ext {A} (m : M E A) : quiet (ext m).
Proof. intros s. unfold pc, ext, zoom, no_block. destruct (m (env s)); simpl; done. Qed.
Lemma quiet_when b (m : M (pst E) ()) : quiet m → quiet (when b m).
Proof. intros Hm. destruct b; [done|apply quiet_mret]. Qed.
Lemma quiet_mfor {A} (l : list A) body : (∀ x, quiet (body x)) → quiet (mfor l body).
Proof. intros Hb. induction l; simpl; [apply quiet_mret|]. apply quiet_bind; [done|intros []; done]. Qed.
Lemma quiet_for_find {A B} (l : list A) (body : A → M (pst E) (option B)) :
  (∀ x, quiet (body x)) → quiet (for_find l body).
Proof.
  intros Hb. induction l; simpl; [apply quiet_mret|]. apply quiet_bind; [done|intros [?|]; [apply quiet_mret|done]].
Qed.
(** Assigning a field the queues do not depend on. *)
Lemma quiet_pset p f :
  (∀ r, state (f r) = state r ∧ q_node (f r) = q_node r ∧ put_in (f r) = put_in r ∧ priority (f r) = priority r) →
  quiet (pset p f).
Proof.
  intros Hf s. split; simpl; try done. intros q. rewrite fn_insert_case. case_decide; [subst; apply Hf|done].
Qed.
Lemma quiet_modify f : (∀ s, nodes (f s) = nodes s ∧ q_head (f s) = q_head s ∧ q_tail (f s) = q_tail s ∧
  cproc (f s) = cproc s ∧ procs (f s) = procs s) → quiet (modify f).
Proof. intros Hf s. destruct (Hf s) as (?&?&?&?&Hp). split; try done. intros p. by rewrite Hp. Qed.
End frame.

Create HintDb quiet.
#[export] Hint Resolve quiet_mret quiet_gets quiet_panic quiet_deref quiet_hw quiet_ext : quiet.
(** Prove [quiet] of straight-line code. *)
Ltac quiet_step :=
  lazymatch goal with
  | |- quiet (mbind _ _) => apply quiet_bind; [|intros ?]
  | |- quiet (when _ _) => apply quiet_when
  | |- quiet (mfor _ _) => apply quiet_mfor; intros ?
  | |- quiet (for_find _ _) => apply quiet_for_find; intros ?
  | |- quiet (pset _ _) => apply quiet_pset; by intros []
  | |- quiet (modify _) => apply quiet_modify; by intros []
  | |- quiet (pget _ _) => apply quiet_gets
  | |- quiet (nget _ _) => apply quiet_gets
  | |- quiet (acquire _ _) => apply quiet_hw
  | |- quiet (release _ _) => apply quiet_hw
  | |- quiet (if ?b then _ else _) => destruct b
  | |- quiet (match ?x with _ => _ end) => destruct x
  | |- quiet (let _ := _ in _) => cbv zeta
  | |- quiet _ => solve [auto with quiet]
  end.
Ltac quiet := repeat quiet_step.

Section quiet_ops.
Context {E : Type} `{Services E} `{Layout} (me : Z).

Lemma quiet_myproc : quiet (myproc me : M (pst E) _).
Proof. unfold myproc. quiet. Qed.
Lemma quiet_curproc : quiet (curproc me : M (pst E) _).
Proof. unfold curproc. apply quiet_bind; [apply quiet_myproc|intros; quiet]. Qed.
Lemma quiet_growproc n : quiet (growproc me n : M (pst E) _).
Proof. unfold growproc. apply quiet_bind; [apply quiet_curproc|intros p]. quiet. Qed.
Lemma quiet_dup_files np p : quiet (dup_files np p : M (pst E) _).
Proof. unfold dup_files. quiet. Qed.
Lemma quiet_close_files p : quiet (close_files p : M (pst E) _).
Proof. unfold close_files. quiet. Qed.
Lemma quiet_sched_resume p : quiet (sched_resume me p : M (pst E) _).
Proof. unfold sched_resume. quiet. Qed.
Lemma quiet_yield_resume p : quiet (yield_resume me p : M (pst E) _).
Proof. unfold yield_resume. apply quiet_bind; [apply quiet_sched_resume|intros; quiet]. Qed.
Lemma quiet_sleep_resume p lk : quiet (sleep_resume me p lk : M (pst E) _).
Proof. unfold sleep_resume. apply quiet_bind; [apply quiet_sched_resume|intros; quiet]. Qed.
Lemma quiet_forkret : quiet (forkret me : M (pst E) _).
Proof. unfold forkret. quiet. Qed.
End quiet_ops.

(** ** The invariant of the system *)

Section invariant.
Context {E : Type} `{Services E} `{Layout} (me : Z).
Implicit Types s : pst E.

(** [c] is the process that has the CPU, or [None] when the scheduler has it: the
    queues are well formed, the only process that may have to leave its queue is
    the one that is running or has just run, and it is at the head. *)
Record sys s (Q : Z → list nat) (c : option nat) : Prop := {
  sy_queues : queues s Q;
  sy_prio : ∀ p, (p < NPROC)%nat → active (state (procs s p)) → layer_ok (priority (procs s p)) = true;
  sy_leave : ∀ p, (p < NPROC)%nat → leaving s p → at_head Q (put_in (procs s p)) p ∧ (c = Some p ∨ c = None);
  sy_cur : ∀ p, c = Some p → cproc s = Some p ∧ (p < NPROC)%nat ∧ state (procs s p) = RUNNING;
}.
Definition sysinv (c : option nat) s : Prop := ∃ Q, sys s Q c.

Lemma sys_core s s' Q c : core_eq s s' → sys s Q c → sys s' Q c.
Proof.
  intros [Hn Hh Ht Hc Hp] Hs.
  assert (Hnd : ∀ p, nd s' p = nd s p) by (intros p; unfold nd; by destruct (Hp p) as (_ & -> & _)).
  assert (Hl : ∀ p, leaving s' p → leaving s p).
  { intros p. unfold leaving, expired. rewrite Hnd, Hn. by destruct (Hp p) as (-> & _ & -> & ->). }
  split.
  - pose proof (sy_queues _ _ _ Hs) as HQ. split; [split|..].
    + intros pri Hpri. rewrite (list_fmap_ext (nd s') (nd s)) by done.
      eapply chain_q_procs; [done..|]. by apply (lk_chain _ _ (qs_linked _ _ HQ)).
    + intros pri p. destruct (Hp p) as (_ & -> & _). apply (lk_in _ _ (qs_linked _ _ HQ)).
    + apply (lk_disj _ _ (qs_linked _ _ HQ)).
    + intros p n. destruct (Hp p) as (_ & -> & _). rewrite Hn. apply (lk_node _ _ (qs_linked _ _ HQ)).
    + intros pri p. destruct (Hp p) as (-> & _ & -> & _). apply (qs_put_in _ _ HQ).
    + intros p. destruct (Hp p) as (_ & _ & -> & _). apply (qs_in _ _ HQ).
    + intros p. destruct (Hp p) as (-> & -> & _). apply (qs_active _ _ HQ).
    + intros p. destruct (Hp p) as (-> & _ & _ & ->). apply (qs_priority _ _ HQ).
  - intros p. destruct (Hp p) as (-> & _ & _ & ->). apply (sy_prio _ _ _ Hs).
  - intros p Hlt Hlv. destruct (Hp p) as (_ & _ & -> & _). by apply (sy_leave _ _ _ Hs p Hlt), Hl.
  - intros p Hc'. destruct (Hp p) as (-> & _). rewrite Hc. by apply (sy_cur _ _ _ Hs).
Qed.

(** Changing the state, or the priority, of one process. *)
Lemma sys_pset s Q c c' p (f : proc → proc) :
  sys s Q c →
  q_node (f (procs s p)) = q_node (procs s p) → put_in (f (procs s p)) = put_in (procs s p) →
  (put_in (procs s p) ≠ -1 → active (state (f (procs s p))) ∧
     (state (procs s p) ≠ RUNNABLE ∨
      state (f (procs s p)) = RUNNABLE ∧ priority (f (procs s p)) = priority (procs s p))) →
  (active (state (f (procs s p))) → is_Some (q_node (procs s p)) ∧ layer_ok (priority (f (procs s p))) = true) →
  (c' = None ∨ c' = c ∧ (c = Some p → state (f (procs s p)) = RUNNING)) →
  sys (set_procs (<[p := f (procs s p)]> (procs s)) s) Q c'.
Proof.
  intros Hs Hqn Hpi Hput Hact Hc. pose proof (sy_queues _ _ _ Hs) as HQ.
  set (s' := set_procs (<[p := f (procs s p)]> (procs s)) s).
  assert (Hpin : ∀ q, put_in (procs s' q) = put_in (procs s q)).
  { intros q. simpl. rewrite fn_insert_case. by case_decide; subst. }
  assert (Hne : ∀ q, q ≠ p → procs s' q = procs s q) by (intros q Hq; simpl; by rewrite fn_lookup_insert_ne).
  assert (Heq : procs s' p = f (procs s p)) by apply fn_lookup_insert.
  split.
  - split; [apply linked_set_proc; [apply HQ|done]|..].
    + intros pri q Hpri Hq. rewrite Hpin. destruct (qs_put_in _ _ HQ pri q Hpri Hq) as [H1 H2]. split; [done|].
      destruct (decide (q = p)) as [->|Hqp]; [|by rewrite Hne]. rewrite Heq. apply Hput. intros Hx.
      rewrite Hx in H1. by subst pri.
    + intros q. rewrite Hpin. apply (qs_in _ _ HQ).
    + intros q Hq. destruct (decide (q = p)) as [->|Hqp]; [rewrite Heq, Hqn; apply Hact|].
      rewrite Hne by done. by apply (qs_active _ _ HQ).
    + intros q Hq. destruct (decide (q = p)) as [->|Hqp]; [rewrite Heq; intros Hr; apply Hact; by rewrite Hr|].
      rewrite Hne by done. by apply (qs_priority _ _ HQ).
  - intros q Hq. destruct (decide (q = p)) as [->|Hqp]; [rewrite Heq; apply Hact|].
    rewrite Hne by done. by apply (sy_prio _ _ _ Hs).
  - intros q Hq Hlv. rewrite Hpin.
    assert (leaving s q) as Hl.
    { destruct Hlv as [H1 H2]. rewrite Hpin in *. split; [done|]. unfold expired in H2.
      assert (nd s' q = nd s q) as Hnd.
      { unfold nd. destruct (decide (q = p)) as [->|]; [by rewrite Heq, Hqn|by rewrite Hne]. }
      rewrite Hnd, Hpin in H2. unfold expired. destruct (decide (q = p)) as [->|Hqp]; [|by rewrite Hne in H2].
      destruct (Hput H1) as [_ [?|[G1 G2]]]; [by left|]. rewrite Heq, G1, G2 in H2.
      destruct H2 as [?|H2]; [done|]. by right. }
    destruct (sy_leave _ _ _ Hs q Hq Hl) as [? Hcc]. split; [done|].
    destruct Hc as [->|[-> _]]; [by right|done].
  - intros q ->. destruct Hc as [?|[<- Hc]]; [done|]. destruct (sy_cur _ _ _ Hs q eq_refl) as (G1 & G2 & G3).
    split_and!; [done|done|]. destruct (decide (q = p)) as [->|]; [rewrite Heq; auto|by rewrite Hne].
Qed.

Lemma pc_pset p f (Q : () → pst E → Prop) R s :
  Q () (set_procs (<[p := f (procs s p)]> (procs s)) s) → pc (pset p f) Q R s.
Proof. done. Qed.

(** Facts that survive quiet code. *)
Definition stable (P : pst E → Prop) : Prop := ∀ s s', core_eq s s' → P s → P s'.
Lemma stable_sys Q c : stable (λ s, sys s Q c).
Proof. intros s s' He. by apply sys_core. Qed.
Lemma stable_sysinv c : stable (sysinv c).
Proof. intros s s' He [Q Hs]. exists Q. by eapply sys_core. Qed.

Lemma pc_quiet {A B} (m : M (pst E) A) (f : A → M (pst E) B) (P : pst E → Prop) Q R s :
  quiet m → stable P → P s → (∀ a s', core_eq s s' → P s' → pc (f a) Q R s') → pc (m ≫= f) Q R s.
Proof.
  intros Hm HP Hs Hf. apply pc_bind. eapply pc_mono; [apply Hm| |done].
  intros a s' He. exact (Hf a s' He (HP _ _ He Hs)).
Qed.
Lemma pc_quiet_last {A} (m : M (pst E) A) (P R : pst E → Prop) s :
  quiet m → stable P → P s → pc m (λ _, P) R s.
Proof. intros Hm HP Hs. eapply pc_mono; [apply Hm| |done]. intros a s' He. exact (HP _ _ He Hs). Qed.

(** [myproc] answers the process that has the CPU. *)
Lemma pc_myproc {B} (f : option nat → M (pst E) B) Q R s c :
  cproc s = c → (∀ s', core_eq s s' → pc (f c) Q R s') → pc (myproc me ≫= f) Q R s.
Proof.
  intros Hc Hf. apply pc_bind. unfold myproc.
  eapply pc_quiet with (P := λ s, cproc s = c); [apply quiet_hw|intros ?? []; congruence|done|]. intros _ s1 He1 H1.
  eapply pc_quiet with (P := λ s, cproc s = c); [apply quiet_hw|intros ?? []; congruence|done|]. intros _ s2 He2 H2.
  apply pc_bind. change (pc (hw (Spinlock.popcli me) ;; mret (cproc s2)) (λ a s', pc (f a) Q R s') R s2).
  eapply pc_quiet with (P := λ s, cproc s = c); [apply quiet_hw|intros ?? []; congruence|done|]. intros _ s3 He3 H3.
  rewrite H2. apply Hf. eauto using core_eq_trans.
Qed.
Lemma pc_curproc {B} (f : nat → M (pst E) B) Q R s Qs c :
  sys s Qs (Some c) → (∀ s', core_eq s s' → sys s' Qs (Some c) → pc (f c) Q R s') → pc (curproc me ≫= f) Q R s.
Proof.
  intros Hs Hf. destruct (sy_cur _ _ _ Hs c eq_refl) as (Hc & _). unfold curproc. apply pc_bind.
  eapply pc_myproc; [done|]. intros s' He. apply Hf; [done|by eapply sys_core].
Qed.

Lemma sys_unqueued s Q c p : sys s Q c → (p < NPROC)%nat → ¬ active (state (procs s p)) → put_in (procs s p) = -1.
Proof.
  intros Hs Hp Ha. destruct (decide (put_in (procs s p) = -1)) as [|Hpin]; [done|].
  destruct (qs_in _ _ (sy_queues _ _ _ Hs) p Hp Hpin) as [Hpri Hin].
  by destruct (qs_put_in _ _ (sy_queues _ _ _ Hs) _ _ Hpri Hin).
Qed.

(** A slot that [allocproc] is filling. *)
Definition embryo s (p : nat) : Prop :=
  (p < NPROC)%nat ∧ state (procs s p) = EMBRYO ∧ put_in (procs s p) = -1.
Definition sys_emb Q c p s : Prop := sys s Q c ∧ embryo s p.
Lemma stable_emb Q c p : stable (sys_emb Q c p).
Proof.
  intros s s' He [Hs (Hp & Hst & Hpin)]. split; [by eapply sys_core|].
  unfold embryo. destruct (ce_proc _ _ He p) as (-> & _ & -> & _). done.
Qed.

Lemma find_unused_Ret s : ∃ r, find_unused s = Ret r s ∧
  match r with Some p => (p < NPROC)%nat ∧ state (procs s p) = UNUSED
             | None => ∀ p, (p < NPROC)%nat → state (procs s p) ≠ UNUSED end.
Proof.
  unfold find_unused. assert (Hl : ∀ p, p ∈ seq 0 NPROC ↔ (p < NPROC)%nat) by (intros p; rewrite elem_of_seq; lia).
  assert (∃ r, for_find (seq 0 NPROC) (λ p, st ← pget p state; mret (if decide (st = UNUSED) then Some p else None)) s
    = Ret r s ∧ match r with Some p => p ∈ seq 0 NPROC ∧ state (procs s p) = UNUSED
                           | None => ∀ p, p ∈ seq 0 NPROC → state (procs s p) ≠ UNUSED end) as (r & He & Hr).
  { generalize (seq 0 NPROC). intros l. induction l as [|p l IH]; [exists None; set_solver|].
    cbn [for_find]. destruct (decide (state (procs s p) = UNUSED)) as [Hu|Hu].
    - exists (Some p). split; [|set_solver]. erewrite (bind_Ret _ _ _ (Some p) s); [done|].
      unfold pget. erewrite bind_Ret by done. by rewrite decide_True.
    - destruct IH as (r & He & Hr). exists r. split; [|destruct r; set_solver].
      erewrite (bind_Ret _ _ _ None s); [exact He|].
      unfold pget. erewrite bind_Ret by done. by rewrite decide_False. }
  exists r. split; [exact He|]. destruct r as [q|]; [by rewrite <- Hl|]. intros p Hp. by apply Hr, Hl.
Qed.

(** Giving the embryo a free node touches no list. *)
Lemma sys_give_node s Q c p i :
  sys_emb Q c p s → n_inuse (nodes s i) = 0 → (i < NPROC)%nat →
  let s1 := set_nodes (<[i := mkNode None (Some p) (n_ticks (nodes s i)) 1]> (nodes s)) s in
  sys_emb Q c p (set_procs (<[p := set_q_node (Some i) (procs s p)]> (procs s)) s1).
Proof.
  intros [Hs (Hp & Hst & Hpin)] Hi Hlt s1. set (s2 := set_procs _ s1).
  pose proof (sy_queues _ _ _ Hs) as HQ. pose proof (qs_linked _ _ HQ) as HL.
  assert (Hfree : ∀ q n, (q < NPROC)%nat → q_node (procs s q) = Some n → n ≠ i).
  { intros q n Hq Hn ->. destruct (lk_node _ _ HL q i Hq Hn) as (_ & _ & H1). congruence. }
  assert (Hf : ∀ q, state (procs s2 q) = state (procs s q) ∧ put_in (procs s2 q) = put_in (procs s q) ∧
    priority (procs s2 q) = priority (procs s q) ∧ (q ≠ p → procs s2 q = procs s q)).
  { intros q. simpl. rewrite fn_insert_case. case_decide; by subst. }
  assert (Hnotq : ∀ pri q, layer_ok pri = true → q ∈ Q pri → q ≠ p).
  { intros pri q Hpri Hq ->. rewrite (queues_only s Q p pri HQ Hpri Hq) in Hpin. by subst pri. }
  assert (Hnd : ∀ pri q, layer_ok pri = true → q ∈ Q pri → nd s2 q = nd s q ∧ nd s q ≠ i).
  { intros pri q Hpri Hq. destruct (Hf q) as (_ & _ & _ & Hpq). unfold nd. rewrite Hpq by eauto.
    split; [done|]. destruct (lk_in _ _ HL pri q Hpri Hq) as [Hq' [n Hn]]. rewrite Hn. by apply (Hfree q n). }
  split; [split|].
  - split; [split|..].
    + intros pri Hpri. replace (nd s2 <$> Q pri) with (nd s <$> Q pri).
      2:{ apply list_fmap_ext. intros k q Hq. symmetry. apply (Hnd pri q Hpri). by eapply list_elem_of_lookup_2. }
      destruct (lk_chain _ _ HL pri Hpri) as (Hc & Hrest). split; [|done].
      eapply is_chain_ext; [|exact Hc]. intros m (q & -> & Hq)%list_elem_of_fmap. simpl.
      rewrite fn_lookup_insert_ne; [done|]. apply not_eq_sym. by apply (Hnd pri q).
    + intros pri q Hpri Hq. destruct (Hf q) as (_ & _ & _ & ->); [|eauto]. by apply (lk_in _ _ HL pri).
    + apply (lk_disj _ _ HL).
    + intros q n Hq Hn. destruct (decide (q = p)) as [->|Hqp].
      * simpl in Hn. rewrite fn_lookup_insert in Hn. injection Hn as <-. simpl. by rewrite fn_lookup_insert.
      * destruct (Hf q) as (_ & _ & _ & Hpq). rewrite Hpq in Hn by done. simpl.
        rewrite fn_lookup_insert_ne by (apply not_eq_sym; by apply (Hfree q)). by apply (lk_node _ _ HL q).
    + intros pri q. destruct (Hf q) as (-> & -> & _). apply (qs_put_in _ _ HQ).
    + intros q. destruct (Hf q) as (_ & -> & _). apply (qs_in _ _ HQ).
    + intros q Hq. destruct (Hf q) as (-> & _ & _ & Hpq). destruct (decide (q = p)) as [->|Hqp].
      * rewrite Hst. by intros [_ ?].
      * rewrite Hpq by done. by apply (qs_active _ _ HQ).
    + intros q. destruct (Hf q) as (-> & _ & -> & _). apply (qs_priority _ _ HQ).
  - intros q. destruct (Hf q) as (-> & _ & -> & _). apply (sy_prio _ _ _ Hs).
  - intros q Hq Hlv. destruct (Hf q) as (F1 & F2 & F3 & F4). rewrite F2. apply (sy_leave _ _ _ Hs q Hq).
    destruct Hlv as [H1 H2]. rewrite F2 in H1. split; [done|]. rewrite F1, F2, F3 in H2.
    assert (q ≠ p) as Hqp by (intros ->; done). unfold expired in H2. rewrite F2 in H2.
    destruct (qs_in _ _ HQ q Hq H1) as [Hpri Hin]. destruct (Hnd _ _ Hpri Hin) as [Hn1 Hn2]. rewrite Hn1 in H2.
    simpl in H2. rewrite fn_lookup_insert_ne in H2 by done. done.
  - intros q Hc. destruct (Hf q) as (-> & _). by apply (sy_cur _ _ _ Hs).
  - destruct (Hf p) as (F1 & F2 & _). split; [done|]. by rewrite F1, F2.
Qed.

(** An embryo that has a node. *)
Definition sys_emb_has Q c p s : Prop := sys_emb Q c p s ∧ is_Some (q_node (procs s p)).
Lemma stable_emb_has Q c p : stable (sys_emb_has Q c p).
Proof.
  intros s s' He [Hs Hp]. split; [by eapply stable_emb|]. by destruct (ce_proc _ _ He p) as (_ & -> & _).
Qed.

Lemma pc_alloc_node_free s Q c p R :
  sys_emb Q c p s → n_inuse (nodes s 0%nat) = 0 → pc (alloc_node p) (λ _, sys_emb_has Q c p) R s.
Proof.
  intros Hs Hz. pose proof (sys_give_node s Q c p 0 Hs Hz ltac:(unfold NPROC; lia)) as Hg. unfold alloc_node.
  change (seq 0 NPROC) with (0%nat :: seq 1 63). cbn [for_find].
  unfold pc, nget, nset, pset, mbind, M_bind, modify, gets, mret, M_ret. rewrite (proj2 (Z.eqb_eq _ _) Hz). simpl.
  rewrite !fn_lookup_insert, !fn_insert_insert. simpl. split; [exact Hg|]. simpl. by rewrite fn_lookup_insert.
Qed.

Lemma pc_alloc_node s Q c p R : sys_emb Q c p s → pc (alloc_node p) (λ _, sys_emb Q c p) R s.
Proof.
  intros Hs. unfold alloc_node. apply pc_bind.
  apply (pc_for_find _ _ (sys_emb Q c p)); [done|by intros|].
  intros i s1 Hi Hs1. unfold nget. apply pc_bind. change (n_inuse (nodes s1 i)) with (n_inuse (nodes s1 i)).
  unfold pc at 1, gets. destruct (Z.eqb_spec (n_inuse (nodes s1 i)) 0) as [Hz|Hz]; [|done].
  apply elem_of_seq in Hi. pose proof (sys_give_node s1 Q c p i Hs1 Hz ltac:(lia)) as Hg.
  unfold pc, nset, pset, mbind, M_bind, modify, mret, M_ret. simpl.
  rewrite !fn_lookup_insert, !fn_insert_insert. exact Hg.
Qed.

(** The counters of an embryo: nothing the queues see. *)
Lemma pc_reset_stats (P : pst E → Prop) p R s :
  stable P → (∀ s, P s → put_in (procs s p) = -1) → P s → pc (reset_stats p) (λ _, P) R s.
Proof.
  intros HP Hpn Hs. unfold reset_stats. apply pc_mfor; [done|]. intros i s1 _ Hs1.
  eapply pc_quiet; [apply quiet_pset; by intros []|apply HP|exact Hs1|]. intros _ s2 _ Hs2.
  eapply pc_quiet; [apply quiet_pset; by intros []|apply HP|exact Hs2|]. intros _ s3 _ Hs3.
  unfold pc, pset, modify. apply (HP s3); [|done].
  pose proof (Hpn s3 Hs3) as Hpin. split; simpl; try done. intros q. rewrite fn_insert_case.
  case_decide; [subst|done]. by destruct (procs s3 p); simpl in *; subst.
Qed.

Lemma sys_set_state s Q c c' p st :
  sys s Q c → (put_in (procs s p) ≠ -1 → active st ∧ state (procs s p) ≠ RUNNABLE) →
  (active st → is_Some (q_node (procs s p)) ∧ layer_ok (priority (procs s p)) = true) →
  (c' = None ∨ c' = c ∧ (c = Some p → st = RUNNING)) →
  sys (set_procs (<[p := set_state st (procs s p)]> (procs s)) s) Q c'.
Proof.
  intros Hs Hput Hact Hc. apply (sys_pset s Q c c' p (set_state st) Hs); [done|done| |done|done].
  intros Hpin. destruct (Hput Hpin). split; [done|by left].
Qed.

(** What [allocproc] answers: an embryo, with a node when node 0 was free. *)
Definition allocated Q c (nd0 : nat → queue_node) (o : option nat) s : Prop :=
  match o with
  | Some p => sys_emb Q c p s ∧ (n_inuse (nd0 0%nat) = 0 → is_Some (q_node (procs s p)))
  | None => sys s Q c
  end.

Lemma pc_allocproc s Q c : sys s Q c → pc (allocproc me) (allocated Q c (nodes s)) (λ _, False) s.
Proof.
  intros Hs. unfold allocproc.
  eapply pc_quiet; [apply quiet_hw|apply (stable_sys Q c)|exact Hs|]. intros _ s1 He1 Hs1.
  destruct (find_unused_Ret s1) as (r & He & Hr). apply pc_bind. unfold pc at 1. rewrite He.
  destruct r as [p|].
  2:{ eapply pc_quiet; [apply quiet_hw|apply (stable_sys Q c)|exact Hs1|]. intros _ s2 _ Hs2. exact Hs2. }
  destruct Hr as [Hp Hu].
  assert (Hpin : put_in (procs s1 p) = -1) by (apply (sys_unqueued s1 Q c p); [done|done|rewrite Hu; by intros [? _]]).
  apply pc_bind. unfold pc at 1, pset, modify. set (s2 := set_procs _ s1).
  set (P := λ t, sys_emb Q c p t ∧ nodes t = nodes s).
  assert (HP : stable P).
  { intros t t' Ht [H1 H2]. split; [by eapply stable_emb|]. by rewrite (ce_nodes _ _ Ht). }
  assert (Hs2 : P s2).
  { split; [split; [|split; [done|]; unfold s2; simpl; by rewrite fn_lookup_insert]|apply (ce_nodes _ _ He1)].
    apply (sys_set_state s1 Q c c p EMBRYO Hs1); [done|by intros [_ ?]|].
    right. split; [done|]. intros ->. destruct (sy_cur _ _ _ Hs1 p eq_refl) as (_ & _ & ?). congruence. }
  eapply pc_quiet; [apply quiet_gets|apply HP|exact Hs2|]. intros n s3 _ Hs3.
  eapply pc_quiet; [apply quiet_modify; by intros []|apply HP|exact Hs3|]. intros _ s4 _ Hs4.
  eapply pc_quiet; [apply quiet_pset; by intros []|apply HP|exact Hs4|]. intros _ s5 _ Hs5.
  eapply pc_quiet; [apply quiet_hw|apply HP|exact Hs5|]. intros _ s6 _ Hs6.
  eapply pc_quiet; [apply quiet_ext|apply HP|exact Hs6|]. intros k s7 _ Hs7.
  eapply pc_quiet; [apply quiet_pset; by intros []|apply HP|exact Hs7|]. intros _ s8 _ Hs8.
  destruct (k =? 0).
  - destruct Hs8 as [[Hs8 (_ & Hst8 & Hpin8)] _]. apply pc_bind. unfold pc at 1, pset, modify.
    apply (sys_set_state s8 Q c c p UNUSED Hs8); [done|by intros [? _]|].
    right. split; [done|]. intros ->. destruct (sy_cur _ _ _ Hs8 p eq_refl) as (_ & _ & ?). congruence.
  - eapply pc_quiet; [apply quiet_pset; by intros []|apply HP|exact Hs8|]. intros _ s9 _ [Hs9 Hn9].
    apply pc_bind. rewrite <- Hn9. destruct (decide (n_inuse (nodes s9 0%nat) = 0)) as [Hz|Hz].
    + eapply pc_mono; [apply (pc_alloc_node_free s9 Q c p (λ _, False) Hs9 Hz)| |done]. intros [] s10 Hs10.
      apply pc_bind. eapply pc_mono; [apply (pc_reset_stats (sys_emb_has Q c p) p (λ _, False) s10)| |done];
        [apply stable_emb_has|by intros ? [[_ (_ & _ & ?)] _]|done|]. intros [] s11 [Hs11 Hn]. by split.
    + eapply pc_mono; [apply (pc_alloc_node s9 Q c p (λ _, False) Hs9)| |done]. intros [] s10 Hs10.
      apply pc_bind. eapply pc_mono; [apply (pc_reset_stats (sys_emb Q c p) p (λ _, False) s10)| |done];
        [apply stable_emb|by intros ? [_ (_ & _ & ?)]|done|]. intros [] s11 Hs11. by split.
Qed.

(** An embryo whose priority, and then whose node, is known. *)
Definition sys_emb_pri Q c p pri s : Prop := sys_emb Q c p s ∧ priority (procs s p) = pri.
Definition sys_emb_node Q c p pri n s : Prop := sys_emb_pri Q c p pri s ∧ q_node (procs s p) = Some n.
Lemma stable_emb_pri Q c p pri : stable (sys_emb_pri Q c p pri).
Proof.
  intros s s' He [Hs Hp]. split; [by eapply stable_emb|]. by destruct (ce_proc _ _ He p) as (_ & _ & _ & ->).
Qed.
Lemma stable_emb_node Q c p pri n : stable (sys_emb_node Q c p pri n).
Proof.
  intros s s' He [Hs Hp]. split; [by eapply stable_emb_pri|]. by destruct (ce_proc _ _ He p) as (_ & -> & _).
Qed.

(** An embryo with a node and a priority becomes RUNNABLE. *)
Lemma sys_emb_release s Q c p v (R : pst E → Prop) :
  sys_emb Q c p s → is_Some (q_node (procs s p)) → layer_ok (priority (procs s p)) = true →
  pc (pset p (set_state RUNNABLE) ;; release me PTABLE ;; mret v) (λ _ : Z, sysinv c) R s.
Proof.
  intros [Hs (Hp & Hst & Hpin)] Hn Hpri. apply pc_bind. unfold pc at 1, pset, modify.
  eapply pc_quiet; [apply quiet_hw|apply (stable_sysinv c)| |intros [] s1 _ Hs1; exact Hs1].
  exists Q. apply (sys_set_state s Q c c p RUNNABLE Hs); [done|done|].
  right. split; [done|]. intros ->. destruct (sy_cur _ _ _ Hs p eq_refl) as (_ & _ & ?). congruence.
Qed.

End invariant.

(** One quiet statement, carrying the fact [H], which [P] shows to be stable. *)
Tactic Notation "pcq" uconstr(P) ident(H) :=
  eapply pc_quiet; [solve [quiet|auto using quiet_dup_files, quiet_close_files]|apply P|exact H|];
  clear H; let x := fresh "x" in let s' := fresh "s" in intros x s' _ H; cbv zeta.

Section preserve.
Context {E : Type} `{Services E} `{Layout} (me : Z).
Implicit Types s : pst E.

Lemma pc_fork2 s c pri :
  layer_ok pri = true → sysinv (Some c) s → pc (fork2 me pri) (λ _, sysinv (Some c)) (λ _, False) s.
Proof.
  intros Hpri [Q Hs]. unfold fork2. eapply pc_curproc; [exact Hs|]. intros s1 _ Hs1.
  apply pc_bind. eapply pc_mono; [apply (pc_allocproc me s1 Q (Some c) Hs1)| |done].
  intros [np|] s2 Hs2; [destruct Hs2 as [Hs2 _]|by exists Q].
  do 4 pcq stable_emb Hs2. destruct (x1 =? 0).
  - do 3 pcq stable_emb Hs2. destruct Hs2 as [Hs2 (_ & Hst & Hpin)].
    apply pc_bind. unfold pc at 1, pset, modify. exists Q.
    apply (sys_set_state _ Q (Some c) (Some c) np UNUSED Hs2); [done|by intros [? _]|].
    right. split; [done|]. intros [= ->]. destruct (sy_cur _ _ _ Hs2 np eq_refl) as (_ & _ & ?). congruence.
  - do 12 pcq stable_emb Hs2. destruct Hs2 as [Hs2 (Hp & Hst & Hpin)].
    apply pc_bind. unfold pc at 1, pset, modify. set (sp := set_procs _ _).
    assert (Hsp : sys_emb_pri Q (Some c) np pri sp).
    { unfold sp. split; [split|]; [|split; [done|]|]; simpl; rewrite ?fn_lookup_insert; [|done|done].
      apply (sys_pset _ Q (Some c) (Some c) np (set_priority pri) Hs2); simpl; try done.
      - rewrite Hst. by intros [_ ?].
      - right. split; [done|]. intros [= ->]. destruct (sy_cur _ _ _ Hs2 np eq_refl) as (_ & _ & ?). congruence. }
    apply pc_bind. unfold pc at 1, pget, gets.
    destruct (q_node (procs sp np)) as [n|] eqn:Hn; [|done].
    apply pc_bind. unfold pc at 1, deref. apply pc_bind. unfold pc at 1, nset, modify.
    rewrite fn_insert_same.
    2:{ destruct Hsp as [[Hsy _] _]. destruct (lk_node _ _ (qs_linked _ _ (sy_queues _ _ _ Hsy)) np n Hp Hn) as (_ & H1 & _).
        destruct (nodes sp n). simpl in *. by subst. }
    replace (set_nodes (nodes sp) sp) with sp by (by destruct sp).
    assert (Hsn : sys_emb_node Q (Some c) np pri n sp) by done.
    pcq stable_emb_node Hsn. destruct Hsn as [[Hse Hpr] Hnode].
    apply (sys_emb_release me _ Q (Some c) np _ _ Hse); [by rewrite Hnode|by rewrite Hpr].
Qed.

Lemma pc_fork s c : sysinv (Some c) s → pc (fork me) (λ _, sysinv (Some c)) (λ _, False) s.
Proof.
  intros [Q Hs]. unfold fork. eapply pc_curproc; [exact Hs|]. intros s1 _ Hs1.
  apply pc_bind. unfold pc at 1, pget, gets. apply pc_fork2; [|by exists Q].
  destruct (sy_cur _ _ _ Hs1 c eq_refl) as (_ & Hc & Hst). apply (sy_prio _ _ _ Hs1 c Hc). by rewrite Hst.
Qed.

(** Waking a sleeping process. *)
Lemma sysinv_wake s c p :
  sysinv c s → (p < NPROC)%nat → state (procs s p) = SLEEPING →
  sysinv c (set_procs (<[p := set_state RUNNABLE (procs s p)]> (procs s)) s).
Proof.
  intros [Q Hs] Hp Hst. exists Q. assert (Ha : active (state (procs s p))) by by rewrite Hst.
  apply (sys_set_state s Q c c p RUNNABLE Hs).
  - intros _. by rewrite Hst.
  - intros _. split; [by apply (qs_active _ _ (sy_queues _ _ _ Hs))|by apply (sy_prio _ _ _ Hs)].
  - right. split; [done|]. intros ->. destruct (sy_cur _ _ _ Hs p eq_refl) as (_ & _ & ?). congruence.
Qed.

Lemma pc_wakeup1 s c ch R : sysinv c s → pc (wakeup1 ch) (λ _, sysinv c) R s.
Proof.
  intros Hs. unfold wakeup1. apply pc_mfor; [done|]. intros p s1 Hp%elem_of_seq Hs1.
  apply pc_bind. unfold pc at 1, pget, gets. apply pc_bind. unfold pc at 1, gets. apply pc_when.
  destruct (bool_decide (state (procs s1 p) = SLEEPING)) eqn:Hb; [|done]. simpl.
  destruct (chan (procs s1 p) =? ch); [|done]. apply bool_decide_eq_true in Hb.
  apply sysinv_wake; [done|lia|done].
Qed.

Lemma pc_wakeup s c ch : sysinv c s → pc (wakeup me ch) (λ _, sysinv c) (λ _, False) s.
Proof.
  intros Hs. unfold wakeup. pcq stable_sysinv Hs. apply pc_bind.
  eapply pc_mono; [apply (pc_wakeup1 _ c ch (λ _, False) Hs)| |done]. intros [] s2 Hs2.
  apply pc_quiet_last; [apply quiet_hw|apply stable_sysinv|done].
Qed.

Lemma pc_kill s c id : sysinv c s → pc (kill me id) (λ _, sysinv c) (λ _, False) s.
Proof.
  intros Hs. unfold kill. pcq stable_sysinv Hs. apply pc_bind.
  apply (pc_for_find _ _ (sysinv c)); [done| |].
  - intros s1 Hs1. pcq stable_sysinv Hs1. exact Hs1.
  - intros p s1 Hp%elem_of_seq Hs1. pcq stable_sysinv Hs1. destruct (x0 =? id); [|exact Hs1].
    pcq stable_sysinv Hs1. apply pc_bind. unfold pc at 1, pget, gets. apply pc_bind. apply pc_when.
    destruct (bool_decide (state (procs s3 p) = SLEEPING)) eqn:Hb.
    + apply bool_decide_eq_true in Hb. unfold pc at 1, pset, modify.
      pose proof (sysinv_wake s3 c p Hs1 ltac:(lia) Hb) as Hs2. pcq stable_sysinv Hs2. exact Hs2.
    + pcq stable_sysinv Hs1. exact Hs1.
Qed.

(** Giving up the CPU: [sched] blocks with the queues untouched. *)
Lemma pc_sched s (P : pst E → Prop) : stable P → P s → pc (sched me) (λ _ _, False) P s.
Proof.
  intros HP Hs. unfold sched.
  assert (Hq : ∀ {A B} (m : M (pst E) A) (f : A → M (pst E) B) s, quiet m → P s →
    (∀ a s', P s' → pc (f a) (λ _ _, False) P s') → pc (m ≫= f) (λ _ _, False) P s).
  { intros A B m f s0 Hm HP0 Hf. eapply pc_quiet; [exact Hm|exact HP|exact HP0|]. intros. by apply Hf. }
  repeat (apply Hq; [solve [quiet|apply quiet_myproc]|done|]; clear s Hs; intros ? s Hs). exact Hs.
Qed.
(** The running process leaves the state RUNNING on its way to [sched]. *)
Lemma pc_deschedule s c st :
  st ≠ RUNNING → active st → sysinv (Some c) s →
  pc (pset c (set_state st) ;; sched me) (λ _ _, False) (sysinv None) s.
Proof.
  intros Hst Hact [Q Hs]. destruct (sy_cur _ _ _ Hs c eq_refl) as (_ & Hc & Hrun).
  assert (Ha : active (state (procs s c))) by by rewrite Hrun.
  apply pc_bind. unfold pc at 1, pset, modify. apply (pc_sched _ (sysinv None)); [apply stable_sysinv|]. exists Q.
  apply (sys_set_state s Q (Some c) None c st Hs); [|intros _; split|by left].
  - intros _. split; [done|by rewrite Hrun].
  - by apply (qs_active _ _ (sy_queues _ _ _ Hs)).
  - by apply (sy_prio _ _ _ Hs).
Qed.

Lemma pc_yield s c : sysinv (Some c) s → pc (yield me) (λ _ _, False) (sysinv None) s.
Proof.
  intros Hs. unfold yield. pcq stable_sysinv Hs. destruct Hs as [Q Hs].
  eapply pc_curproc; [exact Hs|]. intros s1 _ Hs1. apply pc_deschedule; [done|done|by exists Q].
Qed.

Lemma pc_sleep s c ch lk : sysinv (Some c) s → pc (sleep me ch lk) (λ _ _, False) (sysinv None) s.
Proof.
  intros [Q Hs]. destruct (sy_cur _ _ _ Hs c eq_refl) as (Hc & _). unfold sleep.
  eapply pc_myproc; [exact Hc|]. intros s1 He. assert (Hs1 : sysinv (Some c) s1) by (exists Q; by eapply sys_core).
  pcq stable_sysinv Hs1. pcq stable_sysinv Hs1. pcq stable_sysinv Hs1. by apply pc_deschedule.
Qed.

Lemma pc_adopt s c p R : sysinv c s → pc (adopt p) (λ _, sysinv c) R s.
Proof.
  intros Hs. unfold adopt. apply pc_mfor; [done|]. intros q s1 _ Hs1.
  pcq stable_sysinv Hs1. apply pc_when. destruct (bool_decide _); [|done].
  pcq stable_sysinv Hs1. pcq stable_sysinv Hs1. pcq stable_sysinv Hs1. apply pc_when.
  destruct (bool_decide _); [|done]. by apply pc_wakeup1.
Qed.

Lemma pc_exit s c : sysinv (Some c) s → pc (exit me) (λ _ _, False) (sysinv None) s.
Proof.
  intros [Q Hs]. destruct (sy_cur _ _ _ Hs c eq_refl) as (Hc & _). unfold exit.
  eapply pc_myproc; [exact Hc|]. intros s1 He. assert (Hs1 : sysinv (Some c) s1) by (exists Q; by eapply sys_core).
  pcq stable_sysinv Hs1. pcq stable_sysinv Hs1. apply pc_bind. unfold pc at 1, deref.
  do 7 pcq stable_sysinv Hs1. pcq stable_sysinv Hs1.
  apply pc_bind. eapply pc_mono; [apply (pc_wakeup1 _ (Some c) _ (λ _, False) Hs1)| |done]. intros [] t2 Hs2.
  apply pc_bind. eapply pc_mono; [apply (pc_adopt _ (Some c) _ (λ _, False) Hs2)| |done]. intros [] t3 Hs3.
  by apply pc_deschedule.
Qed.

(** A slot that [wait] is emptying, before and after its state is reset. *)
Definition corpse Q c p st s : Prop :=
  sys s Q c ∧ (p < NPROC)%nat ∧ state (procs s p) = st ∧ put_in (procs s p) = -1 ∧ c ≠ Some p.
Lemma stable_corpse Q c p st : stable (corpse Q c p st).
Proof.
  intros s s' He (Hs & Hp & Hst & Hpin & Hc). destruct (ce_proc _ _ He p) as (F1 & _ & F3 & _).
  split_and!; [by eapply sys_core|done|congruence|congruence|done].
Qed.

(** Giving the node of an UNUSED slot back. *)
Lemma sys_drop_node s Q c p n :
  corpse Q c p UNUSED s → q_node (procs s p) = Some n →
  let s1 := set_nodes (<[n := set_n_inuse 0 (nodes s n)]> (nodes s)) s in
  sys (set_procs (<[p := set_q_node None (procs s p)]> (procs s)) s1) Q c.
Proof.
  intros (Hs & Hp & Hst & Hpin & Hcp) Hn s1. set (s2 := set_procs _ s1).
  pose proof (sy_queues _ _ _ Hs) as HQ. pose proof (qs_linked _ _ HQ) as HL.
  assert (Hfree : ∀ q m, (q < NPROC)%nat → q ≠ p → q_node (procs s q) = Some m → m ≠ n).
  { intros q m Hq Hne Hm ->. destruct (lk_node _ _ HL q n Hq Hm) as (_ & H1 & _).
    destruct (lk_node _ _ HL p n Hp Hn) as (_ & H2 & _). congruence. }
  assert (Hf : ∀ q, state (procs s2 q) = state (procs s q) ∧ put_in (procs s2 q) = put_in (procs s q) ∧
    priority (procs s2 q) = priority (procs s q) ∧ (q ≠ p → procs s2 q = procs s q)).
  { intros q. simpl. rewrite fn_insert_case. case_decide; by subst. }
  assert (Hk : ∀ m, n_ticks (nodes s2 m) = n_ticks (nodes s m) ∧ next (nodes s2 m) = next (nodes s m)).
  { intros m. simpl. rewrite fn_insert_case. by case_decide; subst. }
  assert (Hnotq : ∀ pri q, layer_ok pri = true → q ∈ Q pri → q ≠ p).
  { intros pri q Hpri Hq ->. rewrite (queues_only s Q p pri HQ Hpri Hq) in Hpin. by subst pri. }
  assert (Hnd : ∀ q, q ≠ p → nd s2 q = nd s q).
  { intros q Hq. unfold nd. by destruct (Hf q) as (_ & _ & _ & ->). }
  split.
  - split; [split|..].
    + intros pri Hpri. replace (nd s2 <$> Q pri) with (nd s <$> Q pri).
      2:{ apply list_fmap_ext. intros k q Hq. symmetry. apply Hnd, (Hnotq pri q Hpri). by eapply list_elem_of_lookup_2. }
      destruct (lk_chain _ _ HL pri Hpri) as (Hc & Hrest). split; [|done].
      eapply is_chain_ext; [|exact Hc]. intros m _. apply Hk.
    + intros pri q Hpri Hq. destruct (Hf q) as (_ & _ & _ & ->); [|eauto]. by apply (lk_in _ _ HL pri).
    + apply (lk_disj _ _ HL).
    + intros q m Hq Hm. destruct (decide (q = p)) as [->|Hqp].
      * simpl in Hm. by rewrite fn_lookup_insert in Hm.
      * destruct (Hf q) as (_ & _ & _ & Hpq). rewrite Hpq in Hm by done. simpl.
        rewrite fn_lookup_insert_ne by (apply not_eq_sym; by apply (Hfree q)). by apply (lk_node _ _ HL q).
    + intros pri q. destruct (Hf q) as (-> & -> & _). apply (qs_put_in _ _ HQ).
    + intros q. destruct (Hf q) as (_ & -> & _). apply (qs_in _ _ HQ).
    + intros q Hq. destruct (Hf q) as (-> & _ & _ & Hpq). destruct (decide (q = p)) as [->|Hqp].
      * rewrite Hst. by intros [? _].
      * rewrite Hpq by done. by apply (qs_active _ _ HQ).
    + intros q. destruct (Hf q) as (-> & _ & -> & _). apply (qs_priority _ _ HQ).
  - intros q. destruct (Hf q) as (-> & _ & -> & _). apply (sy_prio _ _ _ Hs).
  - intros q Hq Hlv. destruct (Hf q) as (F1 & F2 & F3 & F4). rewrite F2. apply (sy_leave _ _ _ Hs q Hq).
    destruct Hlv as [H1 H2]. rewrite F2 in H1. split; [done|]. rewrite F1, F2, F3 in H2.
    assert (q ≠ p) as Hqp by (intros ->; done). unfold expired in H2. rewrite F2, Hnd in H2 by done.
    by rewrite (proj1 (Hk _)) in H2.
  - intros q Hc. destruct (Hf q) as (-> & _). by apply (sy_cur _ _ _ Hs).
Qed.

Lemma pc_reap s Q c p R :
  corpse Q c p ZOMBIE s → pc (reap p) (λ _, sysinv c) R s.
Proof.
  intros Hs. unfold reap. do 10 pcq stable_corpse Hs.
  apply pc_bind. unfold pc at 1, pset, modify. set (s' := set_procs _ _).
  assert (Hs' : corpse Q c p UNUSED s').
  { destruct Hs as (Hs & Hp & Hst & Hpin & Hc). unfold s'.
    split_and!; [|done|simpl; by rewrite fn_lookup_insert|simpl; by rewrite fn_lookup_insert|done].
    apply (sys_set_state _ Q c c p UNUSED Hs); [done|by intros [? _]|by right]. }
  apply pc_bind. unfold pc at 1, pget, gets. destruct (q_node (procs s' p)) as [n|] eqn:Hn; [|done].
  pose proof (sys_drop_node s' Q c p n Hs' Hn) as Hd.
  unfold pc, deref, nset, pset, mbind, M_bind, modify, mret, M_ret. exists Q. exact Hd.
Qed.

Lemma pc_wait_scan l s cur k R :
  (∀ p, p ∈ l → (p < NPROC)%nat) → sysinv (Some cur) s →
  pc (wait_scan l cur k) (λ _, sysinv (Some cur)) R s.
Proof.
  intros Hl. revert s k. induction l as [|p l IH]; intros s k Hs; [done|].
  assert (IH' : ∀ s k, sysinv (Some cur) s → pc (wait_scan l cur k) (λ _, sysinv (Some cur)) R s).
  { intros. apply IH; [set_solver|done]. }
  cbn [wait_scan]. apply pc_bind. unfold pc at 1, pget, gets. destruct (bool_decide _); [|by apply IH'].
  apply pc_bind. unfold pc at 1, gets. destruct (decide (state (procs s p) = ZOMBIE)) as [Hz|Hz]; [|by apply IH'].
  assert (Hp : (p < NPROC)%nat) by (apply Hl; set_solver). destruct Hs as [Q Hs]. apply pc_bind.
  assert (Hc : Some cur ≠ Some p).
  { intros [= ->]. destruct (sy_cur _ _ _ Hs p eq_refl) as (_ & _ & ?). congruence. }
  eapply pc_mono; [apply (pc_reap s Q (Some cur) p R)| |done]; [|by intros].
  split_and!; [done|done|done| |done]. destruct (decide (put_in (procs s p) = -1)) as [|Hpin]; [done|].
  destruct (sy_leave _ _ _ Hs p Hp) as [_ [?|?]]; [|done|done]. split; [done|]. left. by rewrite Hz.
Qed.

Lemma pc_wait_turn s c : sysinv (Some c) s → pc (wait_turn me c) (λ _, sysinv (Some c)) (sysinv None) s.
Proof.
  intros Hs. unfold wait_turn. apply pc_bind.
  eapply pc_mono; [apply (pc_wait_scan _ s c false (sysinv None)); [|done]| |done].
  { intros p Hp%elem_of_seq. lia. }
  intros [id|k] s1 Hs1.
  - pcq stable_sysinv Hs1. exact Hs1.
  - pcq stable_sysinv Hs1. destruct (_ || _)%bool; [pcq stable_sysinv Hs1; exact Hs1|].
    apply pc_bind. eapply pc_mono; [apply (pc_sleep _ c _ _ Hs1)|by intros ? ? []|done].
Qed.

Lemma pc_wait s c : sysinv (Some c) s → pc (wait me) (λ _, sysinv (Some c)) (sysinv None) s.
Proof.
  intros [Q Hs]. unfold wait. eapply pc_curproc; [exact Hs|]. intros s1 _ Hs1.
  assert (Hs2 : sysinv (Some c) s1) by (by exists Q). pcq stable_sysinv Hs2. by apply pc_wait_turn.
Qed.
(** ** Dispatching *)

(** The process the scheduler is about to switch to: it heads its queue, and
    nobody else will have to leave one. *)
Definition chosen Q p s : Prop :=
  sys s Q None ∧ (p < NPROC)%nat ∧ state (procs s p) = RUNNABLE ∧ at_head Q (put_in (procs s p)) p ∧
  (∀ q, (q < NPROC)%nat → leaving s q → q = p).

Lemma leaving_core s s' q : core_eq s s' → leaving s' q → leaving s q.
Proof.
  intros He. destruct (ce_proc _ _ He q) as (F1 & F2 & F3 & F4).
  unfold leaving, expired, nd. by rewrite F1, F2, F3, F4, (ce_nodes _ _ He).
Qed.
Lemma stable_chosen Q p : stable (chosen Q p).
Proof.
  intros s s' He (Hs & Hp & Hst & Hhd & Hlv). destruct (ce_proc _ _ He p) as (F1 & _ & F3 & _).
  split_and!; [by eapply sys_core|done|by rewrite F1|by rewrite F3|].
  intros q Hq Hl. by apply Hlv, (leaving_core s s').
Qed.

Lemma sys_refreshed s Q s' : sys s Q None → refresh_post s Q s' → sys s' (refresh_spec s Q) None.
Proof.
  intros Hs Hr. split.
  - apply (rp_queues _ _ _ Hr).
  - intros p Hp. destruct (same_proc_fields _ _ (rp_same _ _ _ Hr p)) as (-> & -> & _). by apply (sy_prio _ _ _ Hs).
  - intros p Hp Hl. by destruct (rp_stay _ _ _ Hr p Hp).
  - done.
Qed.

(** Charging the tick to the chosen process. *)
Lemma chosen_charge s Q p pri rest :
  sys s Q None → (∀ q, (q < NPROC)%nat → ¬ leaving s q) → layer_ok pri = true → Q pri = p :: rest →
  chosen Q p (charge s p pri).
Proof.
  intros Hs Hno Hpri HQp. pose proof (sy_queues _ _ _ Hs) as HQ. pose proof (qs_linked _ _ HQ) as HL.
  destruct (lk_in _ _ HL pri p Hpri) as [Hp Hn]; [rewrite HQp; set_solver|].
  assert (Hpin : put_in (procs s p) = pri) by (apply (queues_only s Q p pri HQ Hpri); rewrite HQp; set_solver).
  assert (Hf : ∀ q, state (procs (charge s p pri) q) = state (procs s q) ∧ put_in (procs (charge s p pri) q) = put_in (procs s q) ∧
    priority (procs (charge s p pri) q) = priority (procs s q) ∧ q_node (procs (charge s p pri) q) = q_node (procs s q)).
  { intros q. simpl. rewrite fn_insert_case. by case_decide; subst. }
  assert (Hst : state (procs s p) = RUNNABLE).
  { destruct (decide (state (procs s p) = RUNNABLE)) as [|Hst]; [done|]. destruct (Hno p Hp). split; [|by left].
    intros Hx. rewrite Hx in Hpin. by subst pri. }
  assert (Hlv : ∀ q, (q < NPROC)%nat → leaving (charge s p pri) q → q = p).
  { intros q Hq [H1 H2]. destruct (decide (q = p)) as [|Hne]; [done|]. exfalso. apply (Hno q Hq).
    destruct (Hf q) as (F1 & F2 & F3 & F4). rewrite F2 in H1. split; [done|]. rewrite F1, F2, F3 in H2.
    unfold expired in *. rewrite F2 in H2. fold (tk (charge s p pri) q) in H2. rewrite tk_charge, decide_False in H2; [done|].
    intros Hx. apply Hne. apply (nd_inj s Q); try done. by apply (queued_node s Q). }
  destruct (Hf p) as (F1 & F2 & _). split_and!; [|done|by rewrite F1| |done].
  - split; [by apply queues_charge|..].
    + intros q. destruct (Hf q) as (-> & _ & -> & _). apply (sy_prio _ _ _ Hs).
    + intros q Hq Hl. rewrite (Hlv q Hq Hl), F2, Hpin. split; [by exists rest|by right].
    + done.
  - rewrite F2, Hpin. by exists rest.
Qed.

(** Handing the CPU over. *)
Lemma chosen_run s Q p :
  chosen Q p s → cproc s = Some p →
  sys (set_procs (<[p := set_state RUNNING (procs s p)]> (procs s)) s) Q (Some p).
Proof.
  intros (Hs & Hp & Hst & Hhd & Hlv) Hc. assert (Ha : active (state (procs s p))) by by rewrite Hst.
  set (s' := set_procs _ s).
  assert (Hne : ∀ q, q ≠ p → procs s' q = procs s q) by (intros q Hq; simpl; by rewrite fn_lookup_insert_ne).
  pose proof (sy_queues _ _ _ Hs) as HQ. assert (HQ' : queues s' Q).
  { split; [apply linked_set_proc; [apply HQ|done]|..].
    - intros pri q Hpri Hq. destruct (qs_put_in _ _ HQ pri q Hpri Hq).
      destruct (decide (q = p)) as [->|]; [simpl; by rewrite fn_lookup_insert|by rewrite Hne].
    - intros q Hq. destruct (decide (q = p)) as [->|]; [simpl; rewrite fn_lookup_insert; by apply (qs_in _ _ HQ)|].
      rewrite Hne by done. by apply (qs_in _ _ HQ).
    - intros q Hq. destruct (decide (q = p)) as [->|]; [simpl; rewrite fn_lookup_insert; intros _; by apply (qs_active _ _ HQ)|].
      rewrite Hne by done. by apply (qs_active _ _ HQ).
    - intros q Hq. destruct (decide (q = p)) as [->|]; [simpl; by rewrite fn_lookup_insert|].
      rewrite Hne by done. by apply (qs_priority _ _ HQ). }
  split; [done|..].
  - intros q Hq. destruct (decide (q = p)) as [->|]; [simpl; rewrite fn_lookup_insert; intros _; by apply (sy_prio _ _ _ Hs)|].
    rewrite Hne by done. by apply (sy_prio _ _ _ Hs).
  - intros q Hq Hl. assert (q = p) as ->.
    { destruct (decide (q = p)) as [|Hqp]; [done|]. apply Hlv; [done|]. revert Hl. unfold leaving, expired, nd. by rewrite !Hne. }
    split; [|by left]. simpl. by rewrite fn_lookup_insert.
  - intros q [= <-]. split_and!; [done|done|]. simpl. by rewrite fn_lookup_insert.
Qed.

Lemma sys_set_cproc s Q c : sys s Q None → sys (set_cproc c s) Q None.
Proof. intros [[[] ?] ? ?]. by split; [split; [split|..]|..]. Qed.

(** What a turn of the scheduler's loop decides. *)
Definition dispatched s (o : option nat) s' : Prop :=
  match o with
  | Some p => sysinv (Some p) s' ∧ (p < NPROC)%nat ∧ state (procs s p) = RUNNABLE ∧
      ∀ q, (q < NPROC)%nat → state (procs s q) = RUNNABLE → priority (procs s q) <= priority (procs s p)
  | None => sysinv None s' ∧ ∀ q, (q < NPROC)%nat → state (procs s q) ≠ RUNNABLE
  end.

Lemma pc_scheduler_pick s :
  sysinv None s → pc (scheduler_pick me) (λ o s', dispatched s o s') (λ _, False) s.
Proof.
  intros [Q Hs]. unfold scheduler_pick.
  eapply pc_quiet; [apply quiet_hw|apply (stable_sys Q None)|exact Hs|]. intros _ s1 He1 Hs1.
  eapply pc_quiet; [apply quiet_hw|apply (stable_sys Q None)|exact Hs1|]. intros _ s2 He2 Hs2.
  pose proof (core_eq_trans _ _ _ He1 He2) as He.
  destruct (refresh_q_ok s2 Q) as (s3 & Hr & Hpost).
  { apply Hs2. } { intros p Hp Hl. by apply (sy_leave _ _ _ Hs2). }
  pose proof (sys_refreshed _ _ _ Hs2 Hpost) as Hs3. apply pc_bind. unfold pc at 1. rewrite Hr.
  apply pc_bind. unfold pc at 1. rewrite (pick_Ret s3 _ (qs_linked _ _ (sy_queues _ _ _ Hs3))).
  set (Q' := refresh_spec s2 Q) in *.
  assert (Hq : ∀ q, (q < NPROC)%nat → state (procs s q) = RUNNABLE →
    layer_ok (priority (procs s q)) = true ∧ q ∈ Q' (priority (procs s q))).
  { intros q Hlt Hst. assert (Ha : active (state (procs s q))) by by rewrite Hst.
    pose proof (sy_prio _ _ _ Hs q Hlt Ha) as Hok. split; [done|].
    apply (rp_queued _ _ _ Hpost q _ Hlt Hok). by destruct (ce_proc _ _ He q) as (-> & _ & _ & ->). }
  destruct (top Q') as [[pri p]|] eqn:Htop.
  - destruct (top_Some _ _ _ Htop) as (Hok & [rest HQp] & Hhi).
    pose proof (chosen_charge s3 Q' p pri rest Hs3 (rp_stay _ _ _ Hpost) Hok HQp) as Hch.
    apply pc_bind. unfold pc at 1, modify. set (s4 := set_cproc (Some p) _).
    assert (Hch4 : chosen Q' p s4 ∧ cproc s4 = Some p).
    { split; [|done]. destruct Hch as [Hsy Hr1]. split; [by apply sys_set_cproc|exact Hr1]. }
    assert (Hst4 : stable (λ s, chosen Q' p s ∧ cproc s = Some p)).
    { intros t t' Ht [Hc Hcp]. split; [by eapply stable_chosen|]. by rewrite (ce_cproc _ _ Ht). }
    assert (Hps : (p < NPROC)%nat ∧ state (procs s p) = RUNNABLE ∧ priority (procs s p) = pri).
    { destruct Hch as (_ & Hp & _). destruct (rp_queued _ _ _ Hpost p pri Hp Hok) as [Hx _].
      fold Q' in Hx. destruct Hx as [H1 H2]; [rewrite HQp; set_solver|].
      destruct (ce_proc _ _ He p) as (<- & _ & _ & <-). done. }
    destruct Hps as (Hp & Hps & Hpp).
    pcq Hst4 Hch4. pcq Hst4 Hch4. pcq Hst4 Hch4. destruct Hch4 as [Hc5 Hcp5].
    apply pc_bind. unfold pc at 1, pset, modify. split_and!; [|done|done|].
    + exists Q'. by apply chosen_run.
    + intros q Hlt Hst. destruct (Hq q Hlt Hst) as [Hokq Hin]. rewrite Hpp.
      destruct (Z.le_gt_cases (priority (procs s q)) pri); [done|]. exfalso.
      rewrite (Hhi (priority (procs s q))) in Hin by (done || lia). set_solver.
  - assert (Hs3' : sysinv None s3) by by exists Q'. pcq stable_sysinv Hs3'. split; [done|].
    intros q Hlt Hst. destruct (Hq q Hlt Hst) as [Hokq Hin]. rewrite (top_None Q' _ Htop Hokq) in Hin. set_solver.
Qed.

Lemma pc_scheduler_back s : sysinv None s → pc (scheduler_back me) (λ _, sysinv None) (λ _, False) s.
Proof.
  intros Hs. unfold scheduler_back. pcq stable_sysinv Hs. apply pc_bind. unfold pc at 1, modify.
  set (s1 := set_cproc None _). assert (Hs1 : sysinv None s1).
  { destruct Hs as [Q Hs]. exists Q. by apply sys_set_cproc. }
  apply pc_quiet_last; [apply quiet_hw|apply stable_sysinv|done].
Qed.
End preserve.

(** ** The system of one CPU

    A configuration is the kernel's state, where each switched-out process goes
    on when it gets the CPU back, and who has the CPU: the scheduler ([None]) or a
    process.  A step is a turn of the scheduler's loop, a kernel call of the
    process that has the CPU ([setpri] within bounds), or a device interrupt that wakes a channel. *)

Section system.
Context {E : Type} `{Services E} `{Layout} (me : Z).
Implicit Types s : pst E.

Inductive call := CYield | CSleep (ch lk : Z) | CWakeup (ch : Z) | CKill (id : Z) | CFork
  | CFork2 (pri : Z) | CGrow (n : Z) | CExit | CWait.
(** Where a process goes on after its [swtch]. *)
Inductive kont := KForkret | KYield | KSleep (lk : Z) | KWait | KExit.

Definition unit_call (m : M (pst E) ()) : M (pst E) Z := m ;; mret 0.
Definition run_call (k : call) : M (pst E) Z :=
  match k with
  | CYield => unit_call (yield me)
  | CSleep ch lk => unit_call (sleep me ch lk)
  | CWakeup ch => unit_call (wakeup me ch)
  | CKill id => kill me id
  | CFork => fork me
  | CFork2 pri => sys_fork2 me pri
  | CGrow n => growproc me n
  | CExit => unit_call (exit me)
  | CWait => wait me
  end.
Definition kont_of (k : call) : kont :=
  match k with CYield => KYield | CSleep _ lk => KSleep lk | CWait => KWait | CExit => KExit | _ => KForkret end.
Definition resume (k : kont) (p : nat) : M (pst E) Z :=
  match k with
  | KForkret => unit_call (forkret me)
  | KYield => unit_call (yield_resume me p)
  | KSleep lk => unit_call (sleep_resume me p lk)
  | KWait => wait_resume me p
  | KExit => panic "zombie exit"
  end.
(** A new child starts in [forkret]. *)
Definition new_kont (k : call) (r : Z) s (konts : nat → kont) : nat → kont :=
  match k with
  | CFork | CFork2 _ => match find_pid s r with Some np => <[np := KForkret]> konts | None => konts end
  | _ => konts
  end.

(** The calls of [setpri] the kernel survives, made by the running process [me_]: the
    process found is not the tail of a longer queue (rm_from_q would leave [q_tail] on
    it, [Mlq.proc_setpri_tail_loses]), and if it is the caller itself the queue of its
    new priority is empty (it would have to leave that queue from the tail later).
    A priority out of range and an unknown pid, which are refused, are always in bounds. *)
Definition setpri_in_bounds s (me_ : nat) (id pri : Z) : Prop :=
  ∀ p, 0 <= pri <= 3 → find_pid s id = Some p →
    (q_head s (put_in (procs s p)) = q_node (procs s p) ∨ q_tail s (put_in (procs s p)) ≠ q_node (procs s p)) ∧
    (p = me_ → q_head s pri = None).

Record config := mkCfg { kst : pst E; konts : nat → kont; cpu_of : option nat }.

Inductive sys_step : config → config → Prop :=
| step_idle s s' ks :
    scheduler_pick me s = Ret None s' → sys_step (mkCfg s ks None) (mkCfg s' ks None)
| step_dispatch s s1 s2 p v ks :
    scheduler_pick me s = Ret (Some p) s1 → resume (ks p) p s1 = Ret v s2 →
    sys_step (mkCfg s ks None) (mkCfg s2 ks (Some p))
| step_dispatch_again s s1 s2 s3 p ks :
    scheduler_pick me s = Ret (Some p) s1 → resume (ks p) p s1 = Block s2 → scheduler_back me s2 = Ret () s3 →
    sys_step (mkCfg s ks None) (mkCfg s3 ks None)
| step_call s s' k r p ks :
    run_call k s = Ret r s' → sys_step (mkCfg s ks (Some p)) (mkCfg s' (new_kont k r s' ks) (Some p))
| step_give_up s s1 s2 k p ks :
    run_call k s = Block s1 → scheduler_back me s1 = Ret () s2 →
    sys_step (mkCfg s ks (Some p)) (mkCfg s2 (<[p := kont_of k]> ks) None)
| step_interrupt s s' ch c ks :
    wakeup me ch s = Ret () s' → sys_step (mkCfg s ks c) (mkCfg s' ks c)
| step_setpri s s' id pri r p ks :
    setpri_in_bounds s p id pri → proc_setpri id pri s = Ret r s' →
    sys_step (mkCfg s ks (Some p)) (mkCfg s' ks (Some p)).

(** The table before [userinit]: every slot UNUSED and without a node, every
    node free, every queue empty. *)
Definition boot s : Prop :=
  (∀ p, state (procs s p) = UNUSED ∧ q_node (procs s p) = None ∧ put_in (procs s p) = -1) ∧
  (∀ n, n_inuse (nodes s n) = 0) ∧ (∀ pri, q_head s pri = None ∧ q_tail s pri = None).
(** [main] calls [userinit] and then enters the scheduler. *)
Definition started (c : config) : Prop :=
  ∃ s0, boot s0 ∧ userinit me s0 = Ret () (kst c) ∧ cpu_of c = None.
Definition sys_reachable (c : config) : Prop := ∃ c0, started c0 ∧ rtc sys_step c0 c.

Lemma sys_boot s : boot s → sys s (λ _, []) None.
Proof.
  intros (Hp & Hn & Hq). assert (Ha : ∀ p, ¬ active (state (procs s p))).
  { intros p. destruct (Hp p) as (-> & _). by intros [? _]. }
  split; [split; [split|..]|..].
  - intros pri _. destruct (Hq pri) as [H1 H2]. unfold chain_q. rewrite H1, H2. repeat split; simpl; try done; [constructor|lia].
  - set_solver.
  - set_solver.
  - intros p n _ Hx. destruct (Hp p) as (_ & Hy & _). congruence.
  - set_solver.
  - intros p _ Hx. destruct (Hp p) as (_ & _ & Hy). congruence.
  - intros p _ Hx. by destruct (Ha p).
  - intros p _ Hx. destruct (Hp p) as (Hy & _). congruence.
  - intros p _ Hx. by destruct (Ha p).
  - intros p _ [Hx _]. destruct (Hp p) as (_ & _ & Hy). congruence.
  - done.
Qed.

Lemma pc_userinit s : boot s → pc (userinit me) (λ _, sysinv None) (λ _, False) s.
Proof.
  intros Hb. unfold userinit. pose proof (sys_boot s Hb) as Hs. apply pc_bind.
  assert (Hpt : pc ptable_init (λ _ s', sys s' (λ _, []) None ∧ n_inuse (nodes s' 0%nat) = 0) (λ _, False) s).
  { unfold ptable_init. apply (pc_mfor _ _ (λ s, sys s (λ _, []) None ∧ n_inuse (nodes s 0%nat) = 0)).
    { split; [exact Hs|apply Hb]. }
    intros p s1 Hp [Hs1 Hz1]. unfold pc, pset, modify. split; [|exact Hz1]. apply (sys_core s1); [|done].
    assert (put_in (procs s1 p) = -1) as Hpin.
    { apply elem_of_seq in Hp. destruct (decide (put_in (procs s1 p) = -1)) as [|Hx]; [done|].
      destruct (qs_in _ _ (sy_queues _ _ _ Hs1) p) as [_ Hin]; [lia|done|]. set_solver. }
    split; simpl; try done. intros q. rewrite fn_insert_case. case_decide; [subst|done]. by destruct (procs s1 p); simpl in *; subst. }
  eapply pc_mono; [exact Hpt| |done]. clear s Hb Hs Hpt. intros [] s [Hs Hfree].
  apply pc_bind. eapply pc_mono; [apply (pc_allocproc me s _ None Hs)| |done]. intros [p|] s1 Hs1.
  2:{ apply pc_bind. unfold pc at 1, modify. done. }
  destruct Hs1 as [Hs1 Hhas]. specialize (Hhas Hfree).
  assert (Hs1' : sys_emb_has (λ _, []) None p s1) by done. clear Hs1 Hhas.
  pcq stable_emb_has Hs1'. apply pc_bind. unfold pc at 1, deref.
  do 6 pcq stable_emb_has Hs1'. destruct Hs1' as [[Hs1 (Hp & Hst & Hpin)] Hn].
  apply pc_bind, pc_pset. set (sp := set_procs _ _).
  set (P := λ s, sys_emb_pri (λ _, []) None p 3 s ∧ is_Some (q_node (procs s p))).
  assert (HP : stable P).
  { intros t t' Ht [H1 H2]. split; [by eapply stable_emb_pri|]. by destruct (ce_proc _ _ Ht p) as (_ & -> & _). }
  assert (Hsp : P sp).
  { unfold sp. split; [split; [split|]; [|split; [done|]|]|]; simpl; rewrite ?fn_lookup_insert; [|done|done|done].
    apply (sys_pset _ _ None None p (set_priority 3) Hs1); simpl; try done.
    - by left. }
  do 4 pcq HP Hsp. destruct Hsp as [[Hse Hpr] Hnode].
  apply pc_bind. unfold pc at 1, pset, modify. apply pc_quiet_last; [apply quiet_hw|apply stable_sysinv|].
  destruct Hse as [Hsy (_ & Hst' & Hpin')]. exists (λ _, []).
  apply (sys_set_state _ _ None None p RUNNABLE Hsy); [done| |by left]. intros _. split; [done|by rewrite Hpr].
Qed.

Lemma pc_unit_call (m : M (pst E) ()) (Q R : pst E → Prop) s :
  pc m (λ _, Q) R s → pc (unit_call m) (λ _, Q) R s.
Proof. intros Hm. unfold unit_call. apply pc_bind. eapply pc_mono; [exact Hm|done|done]. Qed.

(** A kernel call keeps the invariant, and when it gives the CPU up it leaves the
    invariant of the scheduler. *)
Lemma pc_run_call k s c : sysinv (Some c) s → pc (run_call k) (λ _, sysinv (Some c)) (sysinv None) s.
Proof.
  intros Hs. destruct k as [|ch lk|ch|id| |pri|n| |]; simpl.
  - apply pc_unit_call. eapply pc_mono; [apply (pc_yield me s c Hs)|by intros|done].
  - apply pc_unit_call. eapply pc_mono; [apply (pc_sleep me s c ch lk Hs)|by intros|done].
  - apply pc_unit_call. eapply pc_mono; [apply (pc_wakeup me s (Some c) ch Hs)|done|by intros].
  - eapply pc_mono; [apply (pc_kill me s (Some c) id Hs)|done|by intros].
  - eapply pc_mono; [apply (pc_fork me s c Hs)|done|by intros].
  - unfold sys_fork2. destruct ((pri <? 0) || (3 <? pri)) eqn:Hb; [done|].
    eapply pc_mono; [apply (pc_fork2 me s c pri)|done|by intros]; [|done]. apply layer_ok_spec. lia.
  - apply pc_quiet_last; [apply quiet_growproc|apply stable_sysinv|done].
  - apply pc_unit_call. eapply pc_mono; [apply (pc_exit me s c Hs)|by intros|done].
  - apply (pc_wait me s c Hs).
Qed.

Lemma pc_resume k s c : sysinv (Some c) s → pc (resume k c) (λ _, sysinv (Some c)) (sysinv None) s.
Proof.
  intros Hs. destruct k as [| |lk| |]; simpl; [| | | |done].
  - apply pc_unit_call, pc_quiet_last; [apply quiet_forkret|apply stable_sysinv|done].
  - apply pc_unit_call, pc_quiet_last; [apply quiet_yield_resume|apply stable_sysinv|done].
  - apply pc_unit_call, pc_quiet_last; [apply quiet_sleep_resume|apply stable_sysinv|done].
  - unfold wait_resume. eapply pc_quiet; [apply quiet_sleep_resume|apply (stable_sysinv (Some c))|exact Hs|].
    intros _ s1 _ Hs1. by apply pc_wait_turn.
Qed.

(** What the condition says of the list: the process is first or not last. *)
Lemma setpri_position s Q p :
  queues s Q → (p < NPROC)%nat → put_in (procs s p) ≠ -1 →
  (q_head s (put_in (procs s p)) = q_node (procs s p) ∨ q_tail s (put_in (procs s p)) ≠ q_node (procs s p)) →
  ∃ l1 l2, Q (put_in (procs s p)) = l1 ++ p :: l2 ∧ (l1 = [] ∨ l2 ≠ []).
Proof.
  intros HQ Hp Hpin Hpos. destruct (qs_in _ _ HQ p Hp Hpin) as [Hok Hin].
  destruct (qs_put_in _ _ HQ _ _ Hok Hin) as [_ Hact]. destruct (qs_active _ _ HQ p Hp Hact) as [n Hn].
  apply list_elem_of_split in Hin as (l1 & l2 & HQp). exists l1, l2. split; [done|].
  destruct (lk_chain _ _ (qs_linked _ _ HQ) _ Hok) as (Hc & Ht & Hnd & _).
  rewrite HQp, fmap_app, fmap_cons, (nd_Some _ _ _ Hn) in Hc, Ht, Hnd. rewrite Hn in Hpos.
  destruct l1 as [|x l1]; [by left|right]. intros ->. destruct Hpos as [Hh|Hh].
  - destruct Hc as [Hc _]. rewrite Hh in Hc. injection Hc as Hc. simpl in Hnd. apply NoDup_cons in Hnd as [Hnd _].
    apply Hnd. rewrite Hc. set_solver.
  - apply Hh. rewrite Ht. apply last_snoc.
Qed.

Lemma at_head_leave Q pri pr p q : q ≠ p → at_head Q pr q → at_head (leave pri p Q) pr q.
Proof.
  intros Hqp [tl Htl]. unfold at_head, leave. destruct (decide (pr = pri)) as [->|].
  - rewrite fn_lookup_insert, Htl, filter_cons_True by done. by eexists.
  - rewrite fn_lookup_insert_ne by done. by exists tl.
Qed.
Lemma at_head_join Q pri pr p q : at_head Q pr q → at_head (join pri p Q) pr q.
Proof.
  intros [tl Htl]. unfold at_head, join. destruct (decide (pr = pri)) as [->|].
  - rewrite fn_lookup_insert, Htl. by eexists.
  - rewrite fn_lookup_insert_ne by done. by exists tl.
Qed.

Lemma sys_setpri s c id pri r s' :
  sysinv (Some c) s → setpri_in_bounds s c id pri → proc_setpri id pri s = Ret r s' → sysinv (Some c) s'.
Proof.
  intros [Q Hs] Hb Hrun. pose proof (sy_queues _ _ _ Hs) as HQ. rewrite proc_setpri_unfold in Hrun.
  destruct ((pri <? 0) || (3 <? pri)) eqn:Hpri; [injection Hrun as _ <-; by exists Q|].
  destruct (find_pid s id) as [p|] eqn:Hf; [|injection Hrun as _ <-; by exists Q].
  destruct (find_pid_Some _ _ _ Hf) as [Hp _]. assert (layer_ok pri = true) as Hok by (apply layer_ok_spec; lia).
  destruct (decide (put_in (procs s p) = -1)) as [Hpin|Hpin].
  { exfalso. pose proof (proc_setpri_unqueued_faults s id pri p ltac:(lia) Hf Hpin) as HF.
    rewrite proc_setpri_unfold, Hpri, Hf in HF. congruence. }
  destruct (Hb p ltac:(lia) Hf) as [Hpos Hself].
  destruct (setpri_position s Q p HQ Hp Hpin Hpos) as (l1 & l2 & HQp & Hl).
  destruct (setpri_at_spec s Q p pri l1 l2 HQ Hok Hp Hpin HQp Hl)
    as (s1 & He & HQ1 & Hoth & Ht & Hpi & Hpr & _ & Hst & Hqn & Hcp & Hticks).
  erewrite bind_Ret in Hrun by exact He. injection Hrun as _ <-.
  destruct (qs_in _ _ HQ p Hp Hpin) as [Hpok Hpq].
  exists (join pri p (leave (put_in (procs s p)) p Q)). split; [done|..].
  - intros q Hq. destruct (decide (q = p)) as [->|Hqp]; [by rewrite Hpr|rewrite Hoth by done; by apply (sy_prio _ _ _ Hs)].
  - intros q Hq Hlv. destruct (decide (q = p)) as [->|Hqp].
    + assert (c = p) as ->.
      { destruct Hlv as [_ [Hx|[Hx|Hx]]].
        - rewrite Hst in Hx. destruct (sy_leave _ _ _ Hs p Hp) as [_ [[= ->]|?]]; [|done|done]. split; [done|by left].
        - by rewrite Hpi, Hpr in Hx.
        - unfold expired in Hx. rewrite Ht, Hpi in Hx. apply layer_ok_spec in Hok. unfold slice in Hx.
          rewrite u32_small in Hx by lia. lia. }
      split; [|by left]. rewrite Hpi. exists []. unfold join. rewrite fn_lookup_insert.
      replace (leave (put_in (procs s p)) p Q pri) with ([] : list nat); [done|]. symmetry.
      specialize (Hself eq_refl).
      assert (Q pri = []) as HQe.
      { destruct (lk_chain _ _ (qs_linked _ _ HQ) _ Hok) as (Hc & _). rewrite Hself in Hc.
        by destruct (Q pri); [|destruct Hc]. }
      assert (put_in (procs s p) ≠ pri) as Hne by (intros Hx; rewrite Hx, HQe in Hpq; by apply elem_of_nil in Hpq).
      unfold leave. by rewrite fn_lookup_insert_ne.
    + assert (nd s1 q = nd s q) as Hnd by (unfold nd; by rewrite Hoth).
      destruct (decide (put_in (procs s q) = -1)) as [Hqpin|Hqpin]; [by destruct Hlv as [Hx _]; rewrite Hoth in Hx|].
      destruct (qs_in _ _ HQ q Hq Hqpin) as [Hqok Hqin].
      assert (nd s q ≠ nd s p) as Hnn.
      { intros Hx. destruct (qs_put_in _ _ HQ _ _ Hqok Hqin) as [_ Hqa]. destruct (qs_active _ _ HQ q Hq Hqa) as [n Hn].
        destruct (qs_put_in _ _ HQ _ _ Hpok Hpq) as [_ Hpa]. destruct (qs_active _ _ HQ p Hp Hpa) as [m Hm].
        rewrite (nd_Some _ _ _ Hn), (nd_Some _ _ _ Hm) in Hx. subst m.
        destruct (lk_node _ _ (qs_linked _ _ HQ) q n Hq Hn) as (_ & H1 & _).
        destruct (lk_node _ _ (qs_linked _ _ HQ) p n Hp Hm) as (_ & H2 & _). congruence. }
      assert (leaving s q) as Hlq.
      { unfold leaving, expired in *. rewrite Hnd, Hticks, Hoth in Hlv by done. exact Hlv. }
      destruct (sy_leave _ _ _ Hs q Hq Hlq) as [[tl Htl] Hc]. split; [|done]. rewrite Hoth by done.
      apply at_head_join, at_head_leave; [done|]. by exists tl.
  - intros q [= ->]. destruct (sy_cur _ _ _ Hs q eq_refl) as (G1 & G2 & G3). split_and!; [congruence|done|].
    destruct (decide (q = p)) as [->|]; [congruence|by rewrite Hoth].
Qed.

Definition cfg_inv (c : config) : Prop := sysinv (cpu_of c) (kst c).

Lemma cfg_inv_step c c' : cfg_inv c → sys_step c c' → cfg_inv c'.
Proof.
  unfold cfg_inv. intros Hi Hs. destruct Hs as [s s' ks Hp|s s1 s2 p v ks Hp Hr|s s1 s2 s3 p ks Hp Hr Hb
    |s s' k r p ks Hc|s s1 s2 k p ks Hc Hb|s s' ch c ks Hw|s s' id pri r p ks Hb Hsp]; simpl in *.
  - pose proof (pc_Ret _ _ _ _ _ _ (pc_scheduler_pick me s Hi) Hp) as Hd. apply Hd.
  - pose proof (pc_Ret _ _ _ _ _ _ (pc_scheduler_pick me s Hi) Hp) as [Hd _].
    exact (pc_Ret _ _ _ _ _ _ (pc_resume (ks p) s1 p Hd) Hr).
  - pose proof (pc_Ret _ _ _ _ _ _ (pc_scheduler_pick me s Hi) Hp) as [Hd _].
    pose proof (pc_Block _ _ _ _ _ (pc_resume (ks p) s1 p Hd) Hr) as Hd2.
    exact (pc_Ret _ _ _ _ _ _ (pc_scheduler_back me s2 Hd2) Hb).
  - exact (pc_Ret _ _ _ _ _ _ (pc_run_call k s p Hi) Hc).
  - pose proof (pc_Block _ _ _ _ _ (pc_run_call k s p Hi) Hc) as Hd.
    exact (pc_Ret _ _ _ _ _ _ (pc_scheduler_back me s1 Hd) Hb).
  - exact (pc_Ret _ _ _ _ _ _ (pc_wakeup me s c ch Hi) Hw).
  - exact (sys_setpri s p id pri r s' Hi Hb Hsp).
Qed.

Lemma cfg_inv_reachable c : sys_reachable c → cfg_inv c.
Proof.
  intros (c0 & (s0 & Hb & Hu & Hc) & Hr). assert (Hi : cfg_inv c0).
  { unfold cfg_inv. rewrite Hc. exact (pc_Ret _ _ _ _ _ _ (pc_userinit s0 Hb) Hu). }
  clear Hb Hu Hc. induction Hr; eauto using cfg_inv_step.
Qed.


End system.

(** ** Running out of queue nodes

    A fork whose copy of the address space fails gives the child's slot back, but
    the queue node that allocproc took stays marked as in use. *)

Section leak.
Context {E : Type} `{Services E} `{Layout} (me : Z).
Implicit Types s t : pst E.

(** The slot [find_unused] finds, and the number of queue nodes left. *)
Definition free_slot s : option nat := head (filter (λ p, state (procs s p) = UNUSED) (seq 0 NPROC)).
Definition used_slots s : list nat := filter (λ p, state (procs s p) ≠ UNUSED) (seq 0 NPROC).
Definition unused_nodes (nds : nat → queue_node) (l : list nat) : nat := length (filter (λ i, n_inuse (nds i) = 0) l).
Definition free_nodes s : nat := unused_nodes (nodes s) (seq 0 NPROC).

(** [n] calls of fork by the running process, and their answers. *)
Fixpoint forks (n : nat) : M (pst E) (list Z) :=
  match n with O => mret [] | S m => r ← fork me; l ← forks m; mret (r :: l) end.

(** This CPU can take [ptable.lock], or has it. *)
Definition lock_free (m : Spinlock.mach) : Prop := ∃ i c, Spinlock.on_cpu m me i c ∧ 0 <= Spinlock.ncli c ∧
  Spinlock.locked (Spinlock.locks m PTABLE) = false ∧ (0 < Spinlock.ncli c → Spinlock.iflag m me = false).
Definition lock_held (m : Spinlock.mach) : Prop := ∃ i c, Spinlock.on_cpu m me i c ∧ 1 <= Spinlock.ncli c ∧
  Spinlock.locks m PTABLE = Spinlock.mkLock true (Some i) ∧ Spinlock.iflag m me = false.

Lemma wp_hw {A} (m : M Spinlock.mach A) (Q : A → pst E → Prop) s a x :
  m (mach s) = Ret a x → Q a (set_mach x s) → wp (hw m) Q s.
Proof. intros Hm HQ. unfold wp, hw, zoom, no_block. by rewrite Hm. Qed.
Lemma wp_ext {A} (m : M E A) (P : A → E → Prop) (Q : A → pst E → Prop) s :
  wp m P (env s) → (∀ a e, P a e → Q a (set_env e s)) → wp (ext m) Q s.
Proof. unfold wp, ext, zoom, no_block. destruct (m (env s)); naive_solver. Qed.

Lemma wp_acquire (Q : () → pst E → Prop) s :
  lock_free (mach s) → (∀ x, lock_held x → Q () (set_mach x s)) → wp (acquire me PTABLE) Q s.
Proof.
  intros (i & c & Hon & Hn & Hl & Hf) HQ. eapply wp_hw; [by apply (Spinlock.acquire_Ret _ me i c)|]. apply HQ.
  exists i, (Spinlock.mkCpu (Spinlock.apicid c) (Spinlock.ncli c + 1)
    (if Spinlock.ncli c =? 0 then Spinlock.iflag (mach s) me else Spinlock.intena c)).
  split_and!; [apply (Spinlock.on_cpu_pushed _ me i c Hon)|simpl; lia|apply fn_lookup_insert|apply fn_lookup_insert].
Qed.
Lemma wp_release (Q : () → pst E → Prop) s :
  lock_held (mach s) → (∀ x, lock_free x → Q () (set_mach x s)) → wp (release me PTABLE) Q s.
Proof.
  intros (i & c & Hon & Hn & Hl & Hf) HQ. eapply wp_hw; [by apply (Spinlock.release_Ret _ me i c)|]. apply HQ.
  exists i, (Spinlock.mkCpu (Spinlock.apicid c) (Spinlock.ncli c - 1) (Spinlock.intena c)).
  split_and!; [by apply (Spinlock.on_cpu_update _ me i c)|simpl; lia|cbn [Spinlock.locks Spinlock.lock_set Spinlock.set_locks]; by rewrite fn_lookup_insert|].
  simpl. intros Hp. by rewrite (proj2 (Z.eqb_neq _ _)) by lia.
Qed.
Lemma wp_curproc (Q : nat → pst E → Prop) s c :
  lock_free (mach s) → cproc s = Some c → (∀ x, lock_free x → Q c (set_mach x s)) → wp (curproc me) Q s.
Proof.
  intros (i & k & Hon & Hn & Hl & Hf) Hc HQ. unfold curproc, myproc. do 2 wp_step.
  eapply wp_hw; [by apply Spinlock.pushcli_Ret|]. wp_step.
  eapply wp_hw; [apply Spinlock.mycpu_Ret; [apply (Spinlock.on_cpu_pushed _ me i k Hon)|apply fn_lookup_insert]|].
  wp_step. wp_step. wp_step. eapply wp_hw; [by apply Spinlock.popcli_pushed|]. wp_step. simpl cproc. rewrite Hc.
  unfold deref. wp_step. apply HQ.
  exists i, (Spinlock.mkCpu (Spinlock.apicid k) (Spinlock.ncli k)
    (if Spinlock.ncli k =? 0 then Spinlock.iflag (mach s) me else Spinlock.intena k)).
  split_and!; [by apply (Spinlock.on_cpu_update _ me i k)|done|done|].
  simpl. intros Hp. rewrite (proj2 (Z.eqb_neq _ _)) by lia. apply fn_lookup_insert.
Qed.

Lemma find_unused_free s : find_unused s = Ret (free_slot s) s.
Proof.
  unfold find_unused, free_slot. induction (seq 0 NPROC) as [|p l IH]; [done|].
  cbn [for_find]. rewrite filter_cons. case_decide as Hu; unfold pget, mbind, M_bind, gets, mret, M_ret.
  - by rewrite decide_True.
  - rewrite decide_False by done. exact IH.
Qed.

(** Taking a node: one less is free, if one was. *)
Lemma unused_nodes_take nds l i x :
  NoDup l → i ∈ l → n_inuse (nds i) = 0 → n_inuse x ≠ 0 → unused_nodes (<[i := x]> nds) l = (unused_nodes nds l - 1)%nat.
Proof.
  intros Hnd Hi Hz Hx. unfold unused_nodes. induction l as [|j l IH]; [by apply elem_of_nil in Hi|].
  apply NoDup_cons in Hnd as [Hj Hnd]. rewrite !filter_cons. destruct (decide (j = i)) as [->|Hne].
  - rewrite fn_lookup_insert, decide_False, decide_True by done. simpl. rewrite Nat.sub_0_r. f_equal.
    apply filter_ext_in. intros k Hk. rewrite fn_lookup_insert_ne; [done|]. by intros ->.
  - apply elem_of_cons in Hi as [->|Hi]; [done|]. rewrite fn_lookup_insert_ne by done.
    specialize (IH Hnd Hi). assert (0 < length (filter (λ k, n_inuse (nds k) = 0%Z) l))%nat.
    { assert (i ∈ filter (λ k, n_inuse (nds k) = 0) l) as Hin by (by apply list_elem_of_filter).
      apply Nat.neq_0_lt_0. intros Hl0%length_zero_iff_nil. rewrite Hl0 in Hin. by apply elem_of_nil in Hin. }
    case_decide; simpl; lia.
Qed.
Definition give_node p i s : pst E :=
  set_procs (<[p := set_q_node (Some i) (procs s p)]> (procs s))
    (set_nodes (<[i := mkNode None (Some p) (n_ticks (nodes s i)) 1]> (nodes s)) s).
Lemma alloc_node_Ret s p : alloc_node p s = Ret () (match head (filter (λ i, n_inuse (nodes s i) = 0) (seq 0 NPROC)) with
  Some i => give_node p i s | None => s end).
Proof.
  unfold alloc_node. induction (seq 0 NPROC) as [|i l IH]; [done|]. cbn [for_find].
  rewrite filter_cons. unfold nget, nset, pset, mbind, M_bind, modify, gets, mret, M_ret in *.
  destruct (Z.eqb_spec (n_inuse (nodes s i)) 0) as [Hz|Hz].
  - rewrite decide_True by done. simpl. unfold give_node, set_procs, set_nodes. simpl.
    rewrite !fn_lookup_insert, !fn_insert_insert. done.
  - rewrite decide_False by done. exact IH.
Qed.
Lemma free_nodes_give p i s :
  head (filter (λ i, n_inuse (nodes s i) = 0) (seq 0 NPROC)) = Some i →
  free_nodes (give_node p i s) = (free_nodes s - 1)%nat.
Proof.
  intros Hi. assert (i ∈ filter (λ i, n_inuse (nodes s i) = 0) (seq 0 NPROC)) as [Hz Hin]%list_elem_of_filter.
  { destruct (filter _ _); [done|]. injection Hi as ->. left. }
  unfold free_nodes, give_node. cbn [nodes set_procs set_nodes].
  apply unused_nodes_take; [apply NoDup_seq|done|done|done].
Qed.
Lemma no_node s : free_nodes s = O → head (filter (λ i, n_inuse (nodes s i) = 0) (seq 0 NPROC)) = None.
Proof. unfold free_nodes, unused_nodes. by destruct (filter _ _). Qed.

(** While slot [p] is being filled: the other slots, the nodes [N] that are left, the
    machine and the environment. *)
Record filling (s0 : pst E) (p N : nat) (L : Spinlock.mach → Prop) (K : E → Prop) s : Prop := {
  fl_slots : ∀ q, q ≠ p → state (procs s q) = state (procs s0 q);
  fl_cproc : cproc s = cproc s0;
  fl_nodes : free_nodes s = N;
  fl_mach : L (mach s);
  fl_env : K (env s);
}.
Lemma filling_pset s0 p N L K f s :
  filling s0 p N L K s → filling s0 p N L K (set_procs (<[p := f (procs s p)]> (procs s)) s).
Proof. intros [Hq ? ? ? ?]. constructor; try done. intros q Hqp. simpl. rewrite fn_lookup_insert_ne by done. auto. Qed.
Lemma filling_mach s0 p N L (L' : Spinlock.mach → Prop) K x s : filling s0 p N L K s → L' x → filling s0 p N L' K (set_mach x s).
Proof. by intros []. Qed.
Lemma filling_env s0 p N L K (K' : E → Prop) e s : filling s0 p N L K s → K' e → filling s0 p N L K' (set_env e s).
Proof. by intros []. Qed.

Lemma wp_pset_fill s0 p N L K f s {B} (g : () → M (pst E) B) Q :
  filling s0 p N L K s → (∀ t, filling s0 p N L K t → state (procs t p) = state (f (procs s p)) → wp (g ()) Q t) →
  wp (pset p f ≫= g) Q s.
Proof.
  intros Hf HQ. unfold pset. wp_steps. apply HQ; [by apply filling_pset|]. simpl. by rewrite fn_lookup_insert.
Qed.
Lemma wp_ext_fill s0 p N L K {A B} (m : M E A) (P : A → Prop) (K' : E → Prop) s (g : A → M (pst E) B) Q :
  filling s0 p N L K s → (∀ e, K e → wp m (λ a e', P a ∧ K' e') e) →
  (∀ a t, P a → filling s0 p N L K' t → wp (g a) Q t) → wp (ext m ≫= g) Q s.
Proof.
  intros Hf Hm HQ. wp_step. eapply wp_ext; [by apply Hm, Hf|]. intros a e [Ha He]. apply HQ; [done|].
  by eapply filling_env.
Qed.

(** The next state takes the place of the one before. *)
Ltac refill t Ht := let u := fresh in let Hu := fresh in intros u Hu _; clear t Ht; rename u into t, Hu into Ht.

Lemma filling_reset s0 p N L K s {B} (g : () → M (pst E) B) Q :
  filling s0 p N L K s → (∀ t, filling s0 p N L K t → wp (g ()) Q t) → wp (reset_stats p ≫= g) Q s.
Proof.
  intros Hf HQ. wp_step. apply (wp_mono _ (λ _, filling s0 p N L K)); [|intros [] t Ht; by apply HQ]. unfold reset_stats.
  apply (wp_mfor _ _ (λ _, filling s0 p N L K)); [done|].
  intros i _ t Ht. do 2 (eapply wp_pset_fill; [done|]; refill t Ht).
  unfold pset. wp_steps. by apply filling_pset.
Qed.

(** The services when memory lasts for kernel stacks but not for the next [n] copies
    of the address space. *)
Record starved (I : nat → E → Prop) : Prop := {
  st_kalloc n e : I n e → wp kalloc (λ k e', k ≠ 0 ∧ I n e') e;
  st_kfree n k e : I n e → wp (kfree k) (λ _, I n) e;
  st_copyuvm n pd z e : I (S n) e → wp (copyuvm pd z) (λ r e', r = 0 ∧ I n e') e;
}.

Lemma free_slot_unused s p : free_slot s = Some p → state (procs s p) = UNUSED.
Proof.
  unfold free_slot. intros Hp. assert (p ∈ filter (λ p, state (procs s p) = UNUSED) (seq 0 NPROC)) as Hin.
  { destruct (filter _ _); [done|]. injection Hp as ->. left. }
  by apply list_elem_of_filter in Hin as [? _].
Qed.

Lemma allocproc_starved I n s p {B} (g : option nat → M (pst E) B) Q :
  starved I → I n (env s) → lock_free (mach s) → free_slot s = Some p →
  (∀ t, filling s p (free_nodes s - 1) lock_free (I n) t → wp (g (Some p)) Q t) →
  wp (allocproc me ≫= g) Q s.
Proof.
  intros HI He Hl Hp HQ. unfold allocproc. do 2 wp_step.
  apply wp_acquire; [done|]. intros x1 Hx1. wp_step.
  eapply wp_intro; [apply find_unused_free|]. change (free_slot _) with (free_slot s). rewrite Hp. cbn beta iota.
  assert (filling s p (free_nodes s) lock_held (I n) (set_mach x1 s)) as Hf by (by constructor).
  revert Hf. generalize (set_mach x1 s). intros t Ht.
  eapply wp_pset_fill; [done|]; refill t Ht. wp_step. wp_step. wp_step. wp_step.
  assert (filling s p (free_nodes s) lock_held (I n) (set_nextpid (s32 (nextpid t + 1)) t)) as Ht' by (by destruct Ht).
  revert Ht'. generalize (set_nextpid (s32 (nextpid t + 1)) t).
  generalize (nextpid t). clear t Ht. intros id t Ht.
  eapply wp_pset_fill; [done|]; refill t Ht. wp_step.
  apply wp_release; [apply Ht|]. intros x2 Hx2. eapply (filling_mach _ _ _ _ lock_free) in Ht; [|exact Hx2].
  revert Ht. generalize (set_mach x2 t). clear t. intros t Ht.
  eapply wp_ext_fill; [done|apply (st_kalloc I HI n)|]. clear t Ht. intros k t Hk Ht.
  eapply wp_pset_fill; [done|]; refill t Ht. rewrite (proj2 (Z.eqb_neq k 0)) by done.
  eapply wp_pset_fill; [done|]; refill t Ht. wp_step. eapply wp_intro; [apply alloc_node_Ret|].
  assert (filling s p (free_nodes s - 1) lock_free (I n) (match head (filter (λ i, n_inuse (nodes t i) = 0) (seq 0 NPROC)) with
    Some i => give_node p i t | None => t end)) as Ht'.
  { destruct Ht as [H1 H2 H3 H4 H5]. destruct (head _) as [i|] eqn:Hi.
    - constructor; [|done|by rewrite (free_nodes_give p i t Hi), H3|done|done].
      intros q Hq. simpl. rewrite fn_lookup_insert_ne by done. by apply H1.
    - apply head_None in Hi. constructor; [done..| |done|done]. rewrite <- H3. unfold free_nodes, unused_nodes.
      by rewrite Hi. }
  revert Ht'. generalize (match head (filter (λ i, n_inuse (nodes t i) = 0) (seq 0 NPROC)) with
    Some i => give_node p i t | None => t end). clear t Ht. intros t Ht.
  eapply filling_reset; [done|]. clear t Ht. intros t Ht. wp_step. by apply HQ.
Qed.

Lemma fork2_starved I c n pri s :
  starved I → I (S n) (env s) → cproc s = Some c → lock_free (mach s) → is_Some (free_slot s) →
  wp (fork2 me pri) (λ r t, r = -1 ∧ I n (env t) ∧ cproc t = Some c ∧ lock_free (mach t) ∧
    (∀ q, state (procs t q) = state (procs s q)) ∧ free_nodes t = (free_nodes s - 1)%nat) s.
Proof.
  intros HI He Hc Hl [p Hp]. pose proof (free_slot_unused s p Hp) as Hpu.
  unfold fork2. wp_step. eapply wp_curproc; [done|done|]. intros x1 Hx1.
  eapply (allocproc_starved I (S n) (set_mach x1 s) p); [done..|]. intros t Ht. cbn beta iota. unfold pget.
  do 4 wp_step. generalize (pgdir (procs t c)), (sz (procs t c)). intros ppd psz.
  eapply wp_ext_fill; [done|intros e HeS; by apply (st_copyuvm I HI n)|]. clear t Ht. intros r t -> Ht.
  eapply wp_pset_fill; [done|]; refill t Ht. cbn [Z.eqb]. wp_step. wp_step.
  generalize (kstack (procs t p)). intros k.
  eapply (wp_ext_fill _ _ _ _ _ _ (λ _, True)); [done|intros e HeS; eapply wp_mono; [by apply (st_kfree I HI n)|done]|].
  clear t Ht. intros [] t _ Ht.
  eapply wp_pset_fill; [done|]; refill t Ht.
  eapply wp_pset_fill; [done|]. intros u Hu Hst. simpl in Hst. clear t Ht. rename u into t, Hu into Ht. wp_step.
  destruct Ht as [H1 H2 H3 H4 H5]. split_and!; [done|done|by rewrite H2|done| |done].
  intros q. destruct (decide (q = p)) as [->|Hq]; [by rewrite Hst, Hpu|by apply H1].
Qed.

(** Without a node the fork cannot end in a child. *)
Lemma fork2_no_node c pri s q :
  cproc s = Some c → free_nodes s = O → free_slot s = Some q → q_node (procs s q) = None →
  pc (fork2 me pri) (λ r _, r = -1) (λ _, False) s.
Proof.
  intros Hc Hz Hq Hn. unfold fork2, curproc. apply pc_bind. eapply pc_myproc; [done|]. intros s1 He1.
  unfold pc at 1, deref. apply pc_bind.
  set (P := λ t, nodes t = nodes s ∧ q_node (procs t q) = None).
  assert (stable P) as HP.
  { intros t t' Ht [H1 H2]. split; [by rewrite (ce_nodes _ _ Ht)|]. by destruct (ce_proc _ _ Ht q) as (_ & -> & _). }
  assert (pc (allocproc me) (λ o t, match o with Some p => p = q ∧ P t | None => True end) (λ _, False) s1) as Ha.
  { unfold allocproc. eapply (pc_quiet _ _ (core_eq s)); [apply quiet_hw|intros ????; by eapply core_eq_trans|exact He1|].
    intros _ s2 _ He2. apply pc_bind. unfold pc at 1. rewrite find_unused_free.
    replace (free_slot s2) with (Some q).
    2:{ rewrite <- Hq. unfold free_slot. f_equal. apply filter_ext_in. intros p _. by destruct (ce_proc _ _ He2 p) as (-> & _). }
    assert (P s2) as Hs2. { split; [apply (ce_nodes _ _ He2)|]. by destruct (ce_proc _ _ He2 q) as (_ & -> & _). }
    clear He1 He2 s1. apply pc_bind, pc_pset.
    assert (P (set_procs (<[q := set_state EMBRYO (procs s2 q)]> (procs s2)) s2)) as Hs3.
    { destruct Hs2 as [? ?]. split; [done|]. simpl. by rewrite fn_lookup_insert. }
    revert Hs3. generalize (set_procs (<[q := set_state EMBRYO (procs s2 q)]> (procs s2)) s2). clear s2 Hs2. intros s2 Hs2.
    do 6 pcq HP Hs2. destruct (_ =? 0); [apply pc_bind; done|].
    pcq HP Hs2. apply pc_bind. unfold pc at 1. rewrite alloc_node_Ret, no_node.
    2:{ destruct Hs2 as [HN _]. unfold free_nodes. rewrite HN. exact Hz. }
    apply pc_bind. apply (pc_mono _ (λ _, P) _ (λ _, False)); [|intros [] t Ht; done|done]. unfold reset_stats.
    apply pc_mfor; [exact Hs2|].
    intros i t _ Ht. do 2 pcq HP Ht. unfold pc, pset, modify. destruct Ht as [? ?]. split; [done|].
    simpl. by rewrite fn_lookup_insert. }
  eapply pc_mono; [exact Ha| |done]. intros [p|] t Ht; [|done]. destruct Ht as [-> Ht].
  do 4 pcq HP Ht. destruct (_ =? 0).
  - do 3 pcq HP Ht. apply pc_bind. done.
  - do 12 pcq HP Ht. apply pc_bind, pc_pset. apply pc_bind. unfold pc at 1, pget, gets.
    destruct Ht as [_ Hqn]. simpl. rewrite fn_lookup_insert. simpl. rewrite Hqn. done.
Qed.

(** C15: a fork whose copyuvm fails gives the child's slot back but not its queue
    node.  For every environment in which kernel stacks can be had but the next [n]
    copies cannot: [n] calls of fork all return -1, leave the same slots used, and take
    [n] queue nodes out of use for good (as many as are left).  And once no node is
    left, fork into a slot that never had one does not succeed, however much memory
    there is: it returns -1 or follows a null [q_node]. *)
Theorem fork_failure_leaks_node I c n s :
  starved I → I n (env s) → cproc s = Some c → lock_free (mach s) → is_Some (free_slot s) →
  wp (forks n) (λ l t, l = replicate n (-1) ∧ used_slots t = used_slots s ∧
    free_nodes t = (free_nodes s - n)%nat ∧ cproc t = Some c) s ∧
  ∀ t q pri, cproc t = Some c → free_nodes t = O → free_slot t = Some q → q_node (procs t q) = None →
    pc (fork2 me pri) (λ r _, r = -1) (λ _, False) t.
Proof.
  intros HI He Hc Hl Hq. split; [|intros; by eapply fork2_no_node].
  revert s He Hc Hl Hq. induction n as [|n IH]; intros s He Hc Hl [q Hq]; cbn [forks].
  - apply wp_mret. split_and!; [done|done|lia|done].
  - wp_step. unfold fork. wp_step. eapply wp_curproc; [done|done|]. intros x1 Hx1. unfold pget. wp_step. wp_step.
    eapply wp_mono; [eapply (fork2_starved I c n); [done..|by exists q]|].
    intros r t (-> & He1 & Hc1 & Hl1 & Hst & Hfr). simpl in Hst.
    assert (∀ P `{∀ x : procstate, Decision (P x)}, filter (λ p, P (state (procs t p))) (seq 0 NPROC) =
      filter (λ p, P (state (procs s p))) (seq 0 NPROC)) as Hflt
      by (intros P HD; apply filter_ext_in; intros p _; by rewrite Hst).
    wp_step. eapply wp_mono; [apply IH; [done|done|done|]|].
    { exists q. rewrite <- Hq. unfold free_slot. f_equal. exact (Hflt (λ x, x = UNUSED) _). }
    intros l u (-> & Hu & Hf & Hcu). wp_steps. split_and!; [done| | |done].
    + rewrite Hu. exact (Hflt (λ x, x ≠ UNUSED) _).
    + rewrite Hf, Hfr. change (free_nodes (set_mach x1 s)) with (free_nodes s). lia.
Qed.
End leak.

(** ** Concrete runs: services that always succeed, except that [copyuvm] fails
    as long as the counter that is their state is positive. *)
Definition svc : Services Z := {|
  kalloc := mret 4096; kfree _ := mret (); setupkvm := mret 8192; inituvm _ := mret ();
  copyuvm _ _ := λ n, if 0 <? n then Ret 0 (n - 1) else Ret 8192 n;
  freevm _ := mret (); allocuvm _ _ n := mret n; deallocuvm _ _ n := mret n;
  switchuvm _ _ := mret (); switchkvm := mret (); filedup f := mret f; fileclose _ := mret ();
  idup i := mret i; iput _ := mret (); namei _ := mret 7; begin_op := mret (); end_op := mret ();
  iinit := mret (); initlog := mret () |}.
#[export] Existing Instance svc.
#[export] Instance lay : Layout := {| forkret_addr := 0x80103000; proc_addr p := 0x80112d00 + 200 * Z.of_nat p |}.

Definition empty_proc : proc :=
  mkProc 0 0 0 UNUSED 0 None (mkTf 0 0 0 0 0 0 0 0) (mkCtx 0 0 0 0 0) 0 0 (replicate 16 0) 0 EmptyString None (-1) 0
    (λ _, 0) (λ _, 0) false.
Definition boot0 (fails : Z) : pst Z :=
  mkPst (Spinlock.mkMach [Spinlock.mkCpu 0 0 false] (λ _, false) (λ _, Spinlock.mkLock false None))
    (λ _, empty_proc) (λ _, mkNode None None 0 0) (λ _, None) (λ _, None) 1 None None true fails.

Definition after {S A} (m : M S A) (s : S) : S := match m s with Ret _ s' | Block s' => s' | _ => s end.
Definition returns {S A} (m : M S A) (s : S) : bool := match m s with Ret _ _ => true | _ => false end.
Definition result {S A} (m : M S A) (s : S) : option A := match m s with Ret a _ => Some a | _ => None end.
Lemma after_Ret {S A} (m : M S A) s a : result m s = Some a → m s = Ret a (after m s).
Proof. unfold result, after. destruct (m s); by intros [= ->]. Qed.

Definition init0 (fails : Z) : pst Z := after (userinit 0) (boot0 fails).
Definition cfg0 : config := mkCfg (init0 0) (λ _, KForkret) None.

Lemma cfg0_reachable : sys_reachable 0 cfg0.
Proof.
  assert (Hr : result (userinit 0) (boot0 0) = Some ()) by (vm_compute; reflexivity).
  exists cfg0. split; [|apply rtc_refl]. exists (boot0 0). split; [by repeat split|]. split; [|reflexivity].
  unfold cfg0, init0. cbn [kst]. exact (after_Ret _ _ _ Hr).
Qed.



(** The outcome of a call, without the state. *)
Definition fault_of {S A} (m : M S A) (s : S) : option string := match m s with Fault w => Some w | _ => None end.
(** The first process, back in user mode, when the next [fails] calls of
    [copyuvm] are going to fail. *)
Definition running0 (fails : Z) : pst Z := after (forkret 0) (after (scheduler_pick 0) (init0 fails)).

(** What it comes to.  After 63 failures the first process is still alone in the table,
    with memory available again: it can fork once more, into the slot whose stale
    [q_node] still points to a lost node, but the fork after that finds 62 free
    slots and no node, and follows a null [q_node].  Without the failures the
    same two forks succeed. *)
Example leak_run :
  used_slots (after (forks 0 63) (running0 63)) = [0%nat] ∧
  result (fork 0) (after (forks 0 63) (running0 63)) = Some 65 ∧
  fault_of (forks 0 65) (running0 63) = Some "null pointer dereference" ∧
  result (forks 0 2) (running0 0) = Some [2; 3].
Proof. repeat (split; [vm_compute; reflexivity|]). vm_compute. reflexivity. Qed.

Lemma svc_starved : starved (λ n e, Z.of_nat n <= e).
Proof.
  constructor; simpl; [done|done|]. intros n pd z e He. unfold wp. destruct (Z.ltb_spec 0 e); [split; [done|lia]|lia].
Qed.
Lemma fork_failure_leaks_node_witness :
  free_nodes (running0 63) = 63%nat ∧
  wp (forks 0 63) (λ l t, l = replicate 63 (-1) ∧ used_slots t = [0%nat] ∧ free_nodes t = 0%nat) (running0 63) ∧
  (let t := after (fork 0) (after (forks 0 63) (running0 63)) in
   free_nodes t = 0%nat ∧ fault_of (fork2 0 3) t = Some "null pointer dereference" ∧
   pc (fork2 0 3) (λ r _, r = -1) (λ _, False) t).
Proof.
  assert (cproc (running0 63) = Some 0%nat) as Hc by (vm_compute; reflexivity).
  assert (free_nodes (running0 63) = 63%nat) as Hn by (vm_compute; reflexivity).
  assert (used_slots (running0 63) = [0%nat]) as Hu by (vm_compute; reflexivity).
  assert (63 <= env (running0 63)) as He by (vm_compute; discriminate).
  assert (free_slot (running0 63) = Some 1%nat) as Hs by (vm_compute; reflexivity).
  assert (lock_free 0 (mach (running0 63))) as Hl.
  { exists 0%nat, (Spinlock.mkCpu 0 0 true). vm_compute. repeat split; discriminate. }
  destruct (fork_failure_leaks_node 0 (λ n e, Z.of_nat n <= e) 0 63 (running0 63) svc_starved He Hc Hl
    ltac:(by rewrite Hs)) as [H1 H2].
  split; [exact Hn|]. split.
  - eapply wp_mono; [exact H1|]. intros l t (-> & Hut & Hft & _). rewrite Hut, Hu, Hft, Hn. repeat split.
  - split; [vm_compute; reflexivity|]. split; [vm_compute; reflexivity|].
    apply (H2 _ 2%nat); vm_compute; reflexivity.
Defined.
