(* ===== verification/Blocks.v ===== *)
(** * The block layer the file system is written against: bread, bwrite, brelse.

    [BufferCache] has the operations of bio.c that its clients call and the
    fields of [struct buf] they touch; [BufferCacheLaws] is what the cache
    promises: at any time a block has one current content, its view, which is
    what [bread] shows and what survives until the block is written. *)

From S2P Require Import Prelude.

Definition BSIZE : Z := 512.
Definition NBUF : nat := 30.
Definition LOGSIZE : Z := 30.
Definition FSSIZE : Z := 1000.
(** A block's identity: device and block number; its contents: the byte at
    each offset, of which 0 to [BSIZE - 1] exist. *)
Notation blkid := (Z * Z)%type.
Notation blockdata := (Z → Z).
(** The device numbers in use: there are two drives, and ide.c selects one by the
    lowest bit of the number, so that numbers of equal parity name the same drive.  The
    file system is on device 1; 2 names the other drive.  (So does 0, which is also
    what the cache's buffers hold before their first use.) *)
Definition is_dev (d : Z) : Prop := d = 1 ∨ d = 2.
#[export] Instance is_dev_dec d : Decision (is_dev d).
Proof. unfold is_dev. apply _. Defined.

Class BufferCache (S : Type) := {
  bread : Z → Z → M S nat;                 (* a locked buffer: its slot *)
  bwrite : nat → M S ();
  brelse : nat → M S ();
  b_no : nat → S → Z;                      (* b->blockno *)
  b_data : nat → S → blockdata;                (* b->data, read *)
  b_set_data : nat → blockdata → M S ();       (* b->data, written *)
  b_set_dirty : nat → M S ();              (* b->flags |= B_DIRTY *)
}.

Class BufferCacheLaws (S : Type) `{BufferCache S} := {
  binv : S → Prop;
  vw : S → blkid → blockdata;                  (* current content of a block *)
  dsk : S → blkid → blockdata;                 (* content on the disk *)
  wr : S → list (blkid * blockdata);           (* every write to the disk, in order *)
  pins : S → gset blkid;                   (* blocks kept in the cache by B_DIRTY *)
  hld : S → gset blkid;                    (* blocks whose buffer is locked *)
  at_ : S → nat → blkid → Prop;            (* the slot is locked and holds the block *)

  at_hld s h k : at_ s h k → k ∈ hld s;
  at_data s h k : binv s → at_ s h k → b_data h s = vw s k;
  at_no s h k : binv s → at_ s h k → b_no h s = k.2;
  vw_disk s k : binv s → k ∉ pins s → k ∉ hld s → vw s k = dsk s k;

  bread_law s dev b : binv s → is_dev dev → 0 <= b < FSSIZE → (dev, b) ∉ hld s →
    (size ({[ (dev, b) ]} ∪ pins s ∪ hld s) ≤ NBUF)%nat →
    ∃ h s', bread dev b s = Ret h s' ∧ binv s' ∧ vw s' = vw s ∧ dsk s' = dsk s ∧ wr s' = wr s ∧
      pins s' = pins s ∧ hld s' = {[ (dev, b) ]} ∪ hld s ∧ at_ s' h (dev, b) ∧
      ∀ h' k, at_ s h' k → at_ s' h' k;
  brelse_law s h k : binv s → at_ s h k → (k ∈ pins s ∨ vw s k = dsk s k) →
    ∃ s', brelse h s = Ret () s' ∧ binv s' ∧ vw s' = vw s ∧ dsk s' = dsk s ∧ wr s' = wr s ∧
      pins s' = pins s ∧ hld s' = hld s ∖ {[k]} ∧ ∀ h' k', k' ≠ k → at_ s h' k' → at_ s' h' k';
  bwrite_law s h k : binv s → at_ s h k →
    ∃ s', bwrite h s = Ret () s' ∧ binv s' ∧ vw s' = vw s ∧ dsk s' = <[k := vw s k]> (dsk s) ∧
      wr s' = wr s ++ [(k, vw s k)] ∧ pins s' = pins s ∖ {[k]} ∧ hld s' = hld s ∧
      ∀ h' k', at_ s h' k' → at_ s' h' k';
  b_set_data_law s h k d : binv s → at_ s h k →
    ∃ s', b_set_data h d s = Ret () s' ∧ binv s' ∧ vw s' = <[k := d]> (vw s) ∧ dsk s' = dsk s ∧ wr s' = wr s ∧
      pins s' = pins s ∧ hld s' = hld s ∧ ∀ h' k', at_ s h' k' → at_ s' h' k';
  b_set_dirty_law s h k : binv s → at_ s h k →
    ∃ s', b_set_dirty h s = Ret () s' ∧ binv s' ∧ vw s' = vw s ∧ dsk s' = dsk s ∧ wr s' = wr s ∧
      pins s' = {[k]} ∪ pins s ∧ hld s' = hld s ∧ ∀ h' k', at_ s h' k' → at_ s' h' k';
}.

(** ** 32- and 16-bit little-endian words inside a block *)

Definition get32 (b : blockdata) (i : Z) : Z :=
  b i + b (i + 1) * 2 ^ 8 + b (i + 2) * 2 ^ 16 + b (i + 3) * 2 ^ 24.
Definition get16 (b : blockdata) (i : Z) : Z := b i + b (i + 1) * 2 ^ 8.
Definition put32 (b : blockdata) (i v : Z) : blockdata :=
  <[i := u8 v]> (<[i + 1 := u8 (Z.shiftr v 8)]> (<[i + 2 := u8 (Z.shiftr v 16)]> (<[i + 3 := u8 (Z.shiftr v 24)]> b))).
Definition put16 (b : blockdata) (i v : Z) : blockdata := <[i := u8 v]> (<[i + 1 := u8 (Z.shiftr v 8)]> b).
(** [memmove(b + i, src, n)] *)
Definition put_bytes (b : blockdata) (i : Z) (src : Z → Z) (n : Z) : blockdata :=
  λ j, if (i <=? j) && (j <? i + n) then src (j - i) else b j.

Lemma split_bytes v : 0 <= v < 2 ^ 32 →
  v = u8 v + u8 (Z.shiftr v 8) * 2 ^ 8 + u8 (Z.shiftr v 16) * 2 ^ 16 + u8 (Z.shiftr v 24) * 2 ^ 24.
Proof.
  intros Hv. unfold u8. rewrite !Z.shiftr_div_pow2 by lia.
  change (2 ^ 8) with 256. change (2 ^ 16) with (256 * 256). change (2 ^ 24) with (256 * (256 * 256)).
  change (2 ^ 32) with (256 * (256 * (256 * 256))) in Hv. rewrite <- !Z.div_div by lia.
  pose proof (Z.div_mod v 256). pose proof (Z.div_mod (v / 256) 256). pose proof (Z.div_mod (v / 256 / 256) 256).
  assert (0 <= v / 256 / 256 / 256 < 256).
  { split; [repeat apply Z.div_pos; lia|]. repeat (apply Z.div_lt_upper_bound; [lia|]). lia. }
  rewrite (Z.mod_small (v / 256 / 256 / 256)) by done. lia.
Qed.

Lemma put32_at b i v j : put32 b i v j =
  if decide (j = i) then u8 v else if decide (j = i + 1) then u8 (Z.shiftr v 8)
  else if decide (j = i + 2) then u8 (Z.shiftr v 16) else if decide (j = i + 3) then u8 (Z.shiftr v 24) else b j.
Proof. unfold put32. by rewrite !fn_insert_case. Qed.

Lemma get32_put32 b i v : 0 <= v < 2 ^ 32 → get32 (put32 b i v) i = v.
Proof.
  intros Hv. rewrite (split_bytes v Hv) at 2. unfold get32. rewrite !put32_at.
  repeat first [rewrite decide_True by lia|rewrite decide_False by lia]. done.
Qed.
Lemma get32_put32_ne b i j v : j + 4 <= i ∨ i + 4 <= j → get32 (put32 b i v) j = get32 b j.
Proof.
  intros Hij. unfold get32. rewrite !put32_at. repeat rewrite decide_False by lia. done.
Qed.
Lemma get16_put16 b i v : 0 <= v < 2 ^ 16 → get16 (put16 b i v) i = v.
Proof.
  intros Hv. unfold get16, put16. rewrite fn_lookup_insert, fn_lookup_insert_ne, fn_lookup_insert by lia.
  unfold u8. rewrite Z.shiftr_div_pow2 by lia. change (2 ^ 8) with 256 in *. change (2 ^ 16) with (256 * 256) in Hv.
  pose proof (Z.div_mod v 256). assert (0 <= v / 256 < 256) by (split; [apply Z.div_pos; lia|apply Z.div_lt_upper_bound; lia]).
  rewrite (Z.mod_small (v / 256)) by done. lia.
Qed.
Lemma get16_put16_ne b i j v : j + 2 <= i ∨ i + 2 <= j → get16 (put16 b i v) j = get16 b j.
Proof. intros Hij. unfold get16, put16. by rewrite !fn_lookup_insert_ne by lia. Qed.
