(* ===== verification/Bio.v ===== *)
(** * The buffer cache (src/07_xv6_File_System/PartA/bio.c, sleeplock.c, and iderw
    of ide.c as its caller sees it).

    The [NBUF] buffers and the list head are numbered; [prev] and [next] are the
    pointers of the doubly linked list.  bcache.lock, and the spin lock inside a
    sleep lock, only make a function body atomic: a function is one step here, and
    a process that would sleep on a sleep lock blocks.  [curpid] is the pid of the
    process that runs.  The disk answers at once: [iderw] returns when the transfer
    is done.

    The second part proves that the cache keeps the promises of [BufferCacheLaws]. *)

From S2P Require Import Prelude Blocks.
From Stdlib Require Import FunctionalExtensionality.

Definition B_VALID : Z := 2.
Definition B_DIRTY : Z := 4.
(** [&bcache.head] *)
Definition HEAD : nat := NBUF.

(** [struct sleeplock] and [struct buf]. *)
Record sleeplock := mkSl {
  sl_locked : bool;
  sl_pid : Z;
}.
Definition set_sl_locked (x : bool) (r : sleeplock) : sleeplock :=
  mkSl x (sl_pid r).
Definition set_sl_pid (x : Z) (r : sleeplock) : sleeplock :=
  mkSl (sl_locked r) x.
Record buf := mkBuf {
  flags : Z;
  bdev : Z;  (* dev *)
  blockno : Z;
  block_lock : sleeplock;  (* lock *)
  refcnt : Z;
  prev : nat;
  next : nat;
  data : blockdata;
}.
Definition set_flags (x : Z) (r : buf) : buf :=
  mkBuf x (bdev r) (blockno r) (block_lock r) (refcnt r) (prev r) (next r) (data r).
Definition set_bdev (x : Z) (r : buf) : buf :=
  mkBuf (flags r) x (blockno r) (block_lock r) (refcnt r) (prev r) (next r) (data r).
Definition set_blockno (x : Z) (r : buf) : buf :=
  mkBuf (flags r) (bdev r) x (block_lock r) (refcnt r) (prev r) (next r) (data r).
Definition set_block_lock (x : sleeplock) (r : buf) : buf :=
  mkBuf (flags r) (bdev r) (blockno r) x (refcnt r) (prev r) (next r) (data r).
Definition set_refcnt (x : Z) (r : buf) : buf :=
  mkBuf (flags r) (bdev r) (blockno r) (block_lock r) x (prev r) (next r) (data r).
Definition set_prev (x : nat) (r : buf) : buf :=
  mkBuf (flags r) (bdev r) (blockno r) (block_lock r) (refcnt r) x (next r) (data r).
Definition set_next (x : nat) (r : buf) : buf :=
  mkBuf (flags r) (bdev r) (blockno r) (block_lock r) (refcnt r) (prev r) x (data r).
Definition set_data (x : blockdata) (r : buf) : buf :=
  mkBuf (flags r) (bdev r) (blockno r) (block_lock r) (refcnt r) (prev r) (next r) x.

(** The cache, and the disks with the history of their writes. *)
Record bst := mkB {
  bufs : nat → buf;  (* bcache.buf, and bcache.head at HEAD *)
  disk : blkid → blockdata;  (* by drive and block *)
  written : list (blkid * blockdata);  (* likewise *)
  havedisk1 : bool;
  curpid : Z;
}.
Definition set_bufs (x : nat → buf) (r : bst) : bst :=
  mkB x (disk r) (written r) (havedisk1 r) (curpid r).
Definition set_disk (x : blkid → blockdata) (r : bst) : bst :=
  mkB (bufs r) x (written r) (havedisk1 r) (curpid r).
Definition set_written (x : list (blkid * blockdata)) (r : bst) : bst :=
  mkB (bufs r) (disk r) x (havedisk1 r) (curpid r).
Definition set_havedisk1 (x : bool) (r : bst) : bst :=
  mkB (bufs r) (disk r) (written r) x (curpid r).
Definition set_curpid (x : Z) (r : bst) : bst :=
  mkB (bufs r) (disk r) (written r) (havedisk1 r) x.

Definition bget_field {A} (b : nat) (f : buf → A) : M bst A := gets (λ s, f (bufs s b)).
Definition bset (b : nat) (f : buf → buf) : M bst () :=
  modify (λ s, set_bufs (<[b := f (bufs s b)]> (bufs s)) s).

(** ** Sleep locks *)
Definition initsleeplock (b : nat) : M bst () := bset b (set_block_lock (mkSl false 0)).
Definition acquiresleep (b : nat) : M bst () :=
  lk ← bget_field b block_lock;
  if sl_locked lk then block
  else
    me ← gets curpid;
    bset b (set_block_lock (mkSl true me)).
Definition releasesleep (b : nat) : M bst () := bset b (set_block_lock (mkSl false 0)).
Definition holdingsleep (b : nat) : M bst bool :=
  lk ← bget_field b block_lock;
  me ← gets curpid;
  mret (sl_locked lk && (sl_pid lk =? me)).

(** ** The disk

    A request is served before the next one is made: [iderw] puts [b] on an empty
    queue, [idestart] gives the command (and, for a write, the data) to the disk, and
    [ideintr] is the interrupt that [iderw] sleeps for. *)
(** [b->dev&1]: what is sent to the controller to select the drive. *)
Definition drive (dv : Z) : Z := Z.land dv 1.
Definition idestart (b : nat) : M bst () :=
  no ← bget_field b blockno;
  dv ← bget_field b bdev;
  when (FSSIZE <=? no) (panic "incorrect blockno") ;;
  fl ← bget_field b flags;
  when (negb (Z.land fl B_DIRTY =? 0)) (
    d ← bget_field b data;
    modify (λ s, set_written (written s ++ [((drive dv, no), d)]) (set_disk (<[(drive dv, no) := d]> (disk s)) s))).
Definition ideintr (b : nat) : M bst () :=
  fl ← bget_field b flags;
  no ← bget_field b blockno;
  dv ← bget_field b bdev;
  when (Z.land fl B_DIRTY =? 0) (
    d ← gets (λ s, disk s (drive dv, no));
    bset b (set_data d)) ;;
  bset b (λ r, set_flags (Z.lor (flags r) B_VALID) r) ;;
  bset b (λ r, set_flags (Z.land (flags r) (Z.lnot B_DIRTY)) r).
Definition iderw (b : nat) : M bst () :=
  h ← holdingsleep b;
  when (negb h) (panic "iderw: buf not locked") ;;
  fl ← bget_field b flags;
  when (Z.land fl (Z.lor B_VALID B_DIRTY) =? B_VALID) (panic "iderw: nothing to do") ;;
  dv ← bget_field b bdev;
  hd ← gets havedisk1;
  when (negb (dv =? 0) && negb hd) (panic "iderw: ide disk 1 not present") ;;
  idestart b ;;
  ideintr b.

(** ** The cache *)
(** Putting [b] at the front of the list: the end of [brelse]. *)
Definition push_front (b : nat) : M bst () :=
  hn ← bget_field HEAD next;
  bset b (set_next hn) ;;
  bset b (set_prev HEAD) ;;
  hn ← bget_field HEAD next;
  bset hn (set_prev b) ;;
  bset HEAD (set_next b).

Definition binit_one (b : nat) : M bst () :=
  hn ← bget_field HEAD next;
  bset b (set_next hn) ;;
  bset b (set_prev HEAD) ;;
  initsleeplock b ;;
  hn ← bget_field HEAD next;
  bset hn (set_prev b) ;;
  bset HEAD (set_next b).
Definition binit : M bst () :=
  bset HEAD (set_prev HEAD) ;;
  bset HEAD (set_next HEAD) ;;
  mfor (seq 0 NBUF) binit_one.

(** The two searches of [bget], along [next] and along [prev].  A list of at most
    [NBUF] buffers is searched to its end with this fuel. *)
Fixpoint find_cached (fuel : nat) (b : nat) (dev no : Z) : M bst (option nat) :=
  match fuel with
  | O => diverge
  | S fuel =>
      if decide (b = HEAD) then mret None
      else
        r ← gets (λ s, bufs s b);
        if (bdev r =? dev) && (blockno r =? no) then mret (Some b)
        else find_cached fuel (next r) dev no
  end.
Fixpoint find_free (fuel : nat) (b : nat) : M bst (option nat) :=
  match fuel with
  | O => diverge
  | S fuel =>
      if decide (b = HEAD) then mret None
      else
        r ← gets (λ s, bufs s b);
        if (refcnt r =? 0) && (Z.land (flags r) B_DIRTY =? 0) then mret (Some b)
        else find_free fuel (prev r)
  end.

Definition bget (dev no : Z) : M bst nat :=
  hn ← bget_field HEAD next;
  o ← find_cached (S NBUF) hn dev no;
  match o with
  | Some b =>
      bset b (λ r, set_refcnt (u32 (refcnt r + 1)) r) ;;
      acquiresleep b ;;
      mret b
  | None =>
      hp ← bget_field HEAD prev;
      o ← find_free (S NBUF) hp;
      match o with
      | Some b =>
          bset b (set_bdev dev) ;;
          bset b (set_blockno no) ;;
          bset b (set_flags 0) ;;
          bset b (set_refcnt 1) ;;
          acquiresleep b ;;
          mret b
      | None => panic "bget: no buffers"
      end
  end.

Definition bread (dev no : Z) : M bst nat :=
  b ← bget dev no;
  fl ← bget_field b flags;
  when (Z.land fl B_VALID =? 0) (iderw b) ;;
  mret b.

Definition bwrite (b : nat) : M bst () :=
  h ← holdingsleep b;
  when (negb h) (panic "bwrite") ;;
  bset b (λ r, set_flags (Z.lor (flags r) B_DIRTY) r) ;;
  iderw b.

(** The links [brelse] changes: [b] leaves its place and goes to the front. *)
Definition unlink_push (b : nat) : M bst () :=
  n ← bget_field b next;
  p ← bget_field b prev;
  bset n (set_prev p) ;;
  n ← bget_field b next;
  p ← bget_field b prev;
  bset p (set_next n) ;;
  push_front b.

Definition brelse (b : nat) : M bst () :=
  h ← holdingsleep b;
  when (negb h) (panic "brelse") ;;
  releasesleep b ;;
  bset b (λ r, set_refcnt (u32 (refcnt r - 1)) r) ;;
  rc ← bget_field b refcnt;
  when (rc =? 0) (unlink_push b).

#[export] Instance bio_cache : BufferCache bst := {|
  Blocks.bread := bread;
  Blocks.bwrite := bwrite;
  Blocks.brelse := brelse;
  Blocks.b_no b s := blockno (bufs s b);
  Blocks.b_data b s := data (bufs s b);
  Blocks.b_set_data b d := bset b (set_data d);
  Blocks.b_set_dirty b := bset b (λ r, set_flags (Z.lor (flags r) B_DIRTY) r);
|}.

(** ** The doubly linked list

    [seg nx pv x l y]: following [nx] from [x] one meets the buffers of [l] and
    then [y], and [pv] leads back. *)
Fixpoint seg (nx pv : nat → nat) (x : nat) (l : list nat) (y : nat) : Prop :=
  match l with
  | [] => nx x = y ∧ pv y = x
  | a :: l' => nx x = a ∧ pv a = x ∧ seg nx pv a l' y
  end.

Lemma seg_app nx pv x l1 a l2 y :
  seg nx pv x (l1 ++ a :: l2) y ↔ seg nx pv x l1 a ∧ seg nx pv a l2 y.
Proof. revert x. induction l1 as [|b l1 IH]; intros x; simpl; [tauto|]. rewrite IH. tauto. Qed.

(** A segment depends only on the links of its own buffers. *)
Lemma seg_ext nx pv nx' pv' x l y :
  (∀ i, i ∈ x :: l → nx' i = nx i) → (∀ i, i ∈ l ++ [y] → pv' i = pv i) →
  seg nx pv x l y → seg nx' pv' x l y.
Proof.
  revert x. induction l as [|a l IH]; intros x Hn Hp; simpl.
  - intros [? ?]. rewrite Hn, Hp by set_solver. done.
  - intros (? & ? & ?). rewrite Hn, Hp by set_solver. split_and!; [done..|].
    apply IH; [| |done]; set_solver.
Qed.

(** The last element of [x :: l]. *)
Fixpoint lastd (x : nat) (l : list nat) : nat := match l with [] => x | a :: l' => lastd a l' end.
Lemma lastd_snoc x l a : lastd x (l ++ [a]) = a.
Proof. revert x. induction l; simpl; auto. Qed.
Lemma lastd_in x l : lastd x l ∈ x :: l.
Proof. revert x. induction l as [|a l IH]; intros x; simpl; [set_solver|]. specialize (IH a). set_solver. Qed.
Lemma hd_in (l : list nat) y : hd y l ∈ l ++ [y].
Proof. destruct l; set_solver. Qed.

Lemma seg_first nx pv x l y : seg nx pv x l y → nx x = hd y l ∧ pv (hd y l) = x.
Proof. destruct l; simpl; tauto. Qed.
Lemma seg_last nx pv x l y : seg nx pv x l y → pv y = lastd x l ∧ nx (lastd x l) = y.
Proof. revert x. induction l as [|a l IH]; intros x; simpl; [tauto|]. intros (? & ? & Hs). by apply IH. Qed.

(** Unlinking a buffer: [b->next->prev = b->prev; b->prev->next = b->next]. *)
Lemma seg_unlink nx pv l1 h l2 : NoDup (HEAD :: l1 ++ h :: l2) →
  seg nx pv HEAD (l1 ++ h :: l2) HEAD →
  seg (<[pv h := nx h]> nx) (<[nx h := pv h]> pv) HEAD (l1 ++ l2) HEAD.
Proof.
  intros Hnd [H1 H2]%seg_app.
  destruct (seg_last _ _ _ _ _ H1) as [Hp _]. destruct (seg_first _ _ _ _ _ H2) as [Hn _].
  rewrite Hp, Hn. clear Hp Hn.
  apply NoDup_cons in Hnd as [Hh (Hd1 & Hdis & [Hhl Hd2]%NoDup_cons)%NoDup_app].
  assert (∀ n, seg nx pv h l2 HEAD → seg (<[n := hd HEAD l2]> nx) (<[hd HEAD l2 := n]> pv) n l2 HEAD
     ∨ n ∈ l2) as Hr.
  { intros n Hs. destruct (decide (n ∈ l2)); [by right|left].
    destruct l2 as [|b l2]; simpl in *.
    - by rewrite !fn_lookup_insert.
    - destruct Hs as (_ & _ & Hs). rewrite !fn_lookup_insert. split_and!; [done..|].
      eapply seg_ext, Hs; intros i Hi; rewrite fn_lookup_insert_ne; [done|set_solver|done|].
      apply NoDup_cons in Hd2. set_solver. }
  assert (lastd HEAD l1 ∉ l2) as Hl.
  { generalize (lastd HEAD l1) (lastd_in HEAD l1). clear -Hdis Hh. set_solver. }
  destruct (Hr (lastd HEAD l1) H2) as [Hs|]; [|done]. clear Hr H2.
  set (p := lastd HEAD l1) in *. set (n := hd HEAD l2) in *.
  assert (n ∉ l1) as Hnl by (generalize (hd_in l2 HEAD); fold n; generalize n; clear -Hdis Hh; set_solver).
  destruct l1 as [|a l1' _] using rev_ind; [done|].
  assert (p = a) as Hpa by (subst p; by apply lastd_snoc). rewrite Hpa in *.
  rewrite <- app_assoc. apply seg_app. split; [|done].
  apply seg_app in H1 as [H1 _]. apply NoDup_app in Hd1 as (? & Ha & ?).
  eapply seg_ext, H1; intros i Hi; apply fn_lookup_insert_ne; set_solver.
Qed.

(** Putting a buffer in front. *)
Lemma seg_push nx pv h l : h ∉ HEAD :: l → NoDup (HEAD :: l) →
  seg nx pv HEAD l HEAD →
  seg (<[HEAD := h]> (<[h := nx HEAD]> nx)) (<[nx HEAD := h]> (<[h := HEAD]> pv)) HEAD (h :: l) HEAD.
Proof.
  intros Hh Hnd Hs. destruct (seg_first _ _ _ _ _ Hs) as [-> _]. simpl. rewrite fn_lookup_insert.
  rewrite (fn_lookup_insert_ne _ (hd HEAD l)) by (generalize (hd_in l HEAD); generalize (hd HEAD l); clear -Hh; set_solver).
  rewrite fn_lookup_insert. split_and!; [done..|]. destruct l as [|b l]; simpl in *.
  - rewrite fn_lookup_insert_ne by set_solver. by rewrite !fn_lookup_insert.
  - destruct Hs as (_ & _ & Hs). rewrite (fn_lookup_insert_ne _ HEAD h) by set_solver.
    rewrite !fn_lookup_insert. split_and!; [done..|].
    apply NoDup_cons in Hnd as [? [? ?]%NoDup_cons].
    eapply seg_ext, Hs; intros i Hi; rewrite !fn_lookup_insert_ne; set_solver.
Qed.

(** ** The disks as the devices show them *)
Definition by_dev (d : blkid → blockdata) : blkid → blockdata := λ k,
  if decide (is_dev k.1) then d (drive k.1, k.2) else λ _, 0.
(** The device of a drive. *)
Definition dev_of (dr : Z) : Z := if dr =? 1 then 1 else 2.
Definition ldisk (s : bst) : blkid → blockdata := by_dev (disk s).
Definition lwritten (s : bst) : list (blkid * blockdata) := (λ w, ((dev_of w.1.1, w.1.2), w.2)) <$> written s.

Lemma dev_of_drive d : is_dev d → dev_of (drive d) = d.
Proof. by intros [->| ->]. Qed.
Lemma drive_inj d d' : is_dev d → is_dev d' → drive d = drive d' → d = d'.
Proof. by intros [->| ->] [->| ->]. Qed.
Lemma ldisk_at s dv no : is_dev dv → ldisk s (dv, no) = disk s (drive dv, no).
Proof. intros Hd. unfold ldisk, by_dev. by rewrite decide_True. Qed.
Lemma by_dev_insert d k x : is_dev k.1 → by_dev (<[(drive k.1, k.2) := x]> d) = <[k := x]> (by_dev d).
Proof.
  intros Hk. apply functional_extensionality. intros k'. unfold by_dev. rewrite (fn_insert_case _ k).
  destruct (decide (k' = k)) as [->|Hne]; [by rewrite decide_True, fn_lookup_insert|].
  case_decide as Hk'; [|done]. rewrite fn_lookup_insert_ne; [done|].
  intros [= Hd Hn]. apply Hne. destruct k, k'. simpl in *. f_equal; [|done]. by apply drive_inj.
Qed.

(** ** What the operations do to links and to slots

    A slot is a buffer without its links. *)
Definition strip (r : buf) : buf := set_prev O (set_next O r).
Definition nx (s : bst) : nat → nat := λ i, next (bufs s i).
Definition pv (s : bst) : nat → nat := λ i, prev (bufs s i).
Definition sl (s : bst) : nat → buf := λ i, strip (bufs s i).
Definition upd (b : nat) (f : buf → buf) (s : bst) : bst := set_bufs (<[b := f (bufs s b)]> (bufs s)) s.

Lemma wp_bset b f Q s : wp (bset b f) Q s ↔ Q () (upd b f s).
Proof. done. Qed.
Lemma wp_bget_field {A} b (f : buf → A) Q s : wp (bget_field b f) Q s ↔ Q (f (bufs s b)) s.
Proof. done. Qed.

Lemma nx_upd b f s : nx (upd b f s) = <[b := next (f (bufs s b))]> (nx s).
Proof. apply functional_extensionality. intros i. unfold nx, upd. simpl. rewrite !fn_insert_case. by case_decide. Qed.
Lemma pv_upd b f s : pv (upd b f s) = <[b := prev (f (bufs s b))]> (pv s).
Proof. apply functional_extensionality. intros i. unfold pv, upd. simpl. rewrite !fn_insert_case. by case_decide. Qed.
Lemma sl_upd b f s : sl (upd b f s) = <[b := strip (f (bufs s b))]> (sl s).
Proof. apply functional_extensionality. intros i. unfold sl, upd. simpl. rewrite !fn_insert_case. by case_decide. Qed.
Lemma bufs_sl s i : bufs s i = set_prev (pv s i) (set_next (nx s i) (sl s i)).
Proof. unfold sl, nx, pv, strip. by destruct (bufs s i). Qed.
(** An update that leaves the links alone and acts on the slot as [f]. *)
Lemma upd_slot b f s : (∀ p n r, f (set_prev p (set_next n r)) = set_prev p (set_next n (f r))) →
  nx (upd b f s) = nx s ∧ pv (upd b f s) = pv s ∧ sl (upd b f s) = <[b := f (sl s b)]> (sl s).
Proof.
  intros Hf. rewrite nx_upd, pv_upd, sl_upd. split_and!.
  - apply fn_insert_same. rewrite (bufs_sl s b), Hf. done.
  - apply fn_insert_same. rewrite (bufs_sl s b), Hf. done.
  - f_equal. rewrite (bufs_sl s b), Hf. transitivity (strip (f (sl s b))); [done|].
    unfold strip. by rewrite <- Hf.
Qed.

(** ** The two searches *)
Definition is_key (dev no : Z) (r : buf) : bool := (bdev r =? dev) && (blockno r =? no).
Definition is_free (r : buf) : bool := (refcnt r =? 0) && (Z.land (flags r) B_DIRTY =? 0).

Lemma find_cached_spec s dev no fuel x l :
  seg (nx s) (pv s) x l HEAD → HEAD ∉ l → (length l < fuel)%nat →
  find_cached fuel (nx s x) dev no s = Ret (head (filter (λ i, is_key dev no (sl s i)) l)) s.
Proof.
  revert x fuel. induction l as [|a l IH]; intros x [|fuel] Hs Hh Hf; simpl in *; [lia| |lia|].
  - destruct Hs as [-> _]. by rewrite decide_True.
  - destruct Hs as (-> & _ & Hs). rewrite decide_False by set_solver.
    unfold mbind at 1, M_bind, gets. rewrite filter_cons.
    change ((bdev (bufs s a) =? dev) && (blockno (bufs s a) =? no)) with (is_key dev no (sl s a)).
    destruct (is_key dev no (sl s a)); case_decide; try done.
    apply IH; [done|set_solver|lia].
Qed.
Lemma find_free_spec s fuel y l :
  seg (nx s) (pv s) HEAD l y → HEAD ∉ l → (length l < fuel)%nat →
  find_free fuel (pv s y) s = Ret (last (filter (λ i, is_free (sl s i)) l)) s.
Proof.
  revert y fuel. induction l as [|a l IH] using rev_ind; intros y [|fuel] Hs Hh Hf; simpl in *; [lia| |lia|].
  - destruct Hs as [_ ->]. by rewrite decide_True.
  - apply seg_app in Hs as [Hs [_ ->]]. rewrite decide_False by set_solver.
    unfold mbind at 1, M_bind, gets. rewrite filter_app, filter_cons, filter_nil.
    change ((refcnt (bufs s a) =? 0) && (Z.land (flags (bufs s a)) B_DIRTY =? 0)) with (is_free (sl s a)).
    rewrite length_app in Hf. simpl in Hf.
    destruct (is_free (sl s a)); case_decide; try done.
    + by rewrite last_snoc.
    + rewrite app_nil_r. apply IH; [done|set_solver|lia].
Qed.

(** ** The invariant of the slots *)
Definition key (r : buf) : blkid := (bdev r, blockno r).
Definition locked (r : buf) : bool := sl_locked (block_lock r).
Definition slots : list nat := seq 0 NBUF.
Definition caches (k : blkid) (r : buf) : Prop := is_dev (bdev r) ∧ key r = k.
Definition cached (t : nat → buf) (k : blkid) : option nat := head (filter (λ i, caches k (t i)) slots).
Definition view (t : nat → buf) (dk : blkid → blockdata) (k : blkid) : blockdata :=
  match cached t k with Some i => data (t i) | None => dk k end.
Definition keys (P : buf → Prop) `{∀ r, Decision (P r)} (t : nat → buf) : gset blkid :=
  list_to_set ((λ i, key (t i)) <$> filter (λ i, P (t i)) slots).
Definition is_dirty (r : buf) : Prop := flags r = 6.

(** A buffer was never used, or it holds the contents of a block; then it is
    referenced exactly while it is locked, and a clean unlocked one agrees with the
    disk. *)
Definition slot_ok (dk : blkid → blockdata) (me : Z) (r : buf) : Prop :=
  (flags r = 0 ∧ ¬ is_dev (bdev r) ∧ locked r = false ∧ refcnt r = 0) ∨
  ((flags r = 2 ∨ flags r = 6) ∧ is_dev (bdev r) ∧ 0 <= blockno r < FSSIZE ∧
   refcnt r = (if locked r then 1 else 0) ∧ (locked r = true → sl_pid (block_lock r) = me) ∧
   (flags r = 2 → locked r = false → data r = dk (key r))).
Record slots_ok (t : nat → buf) (dk : blkid → blockdata) (me : Z) : Prop := {
  so_slot : ∀ i, (i < NBUF)%nat → slot_ok dk me (t i);
  so_uniq : ∀ i j k, (i < NBUF)%nat → (j < NBUF)%nat → caches k (t i) → caches k (t j) → i = j;
}.

#[export] Instance caches_dec k r : Decision (caches k r).
Proof. unfold caches. apply _. Defined.
#[export] Instance is_dirty_dec r : Decision (is_dirty r).
Proof. unfold is_dirty. apply _. Defined.

Lemma elem_slots i : i ∈ slots ↔ (i < NBUF)%nat.
Proof. unfold slots. rewrite elem_of_seq. lia. Qed.
Lemma elem_keys P `{∀ r, Decision (P r)} t k :
  k ∈ keys P t ↔ ∃ i, (i < NBUF)%nat ∧ P (t i) ∧ key (t i) = k.
Proof.
  unfold keys. rewrite elem_of_list_to_set, list_elem_of_fmap. split.
  - intros (i & -> & [? ?%elem_slots]%list_elem_of_filter). eauto.
  - intros (i & Hi & HP & <-). exists i. split; [done|]. apply list_elem_of_filter. by rewrite elem_slots.
Qed.
Lemma cached_Some t k i : cached t k = Some i → (i < NBUF)%nat ∧ caches k (t i).
Proof.
  unfold cached. intros Hh. assert (i ∈ filter (λ i, caches k (t i)) slots) as Hi.
  { destruct (filter _ _); simplify_eq/=. set_solver. }
  apply list_elem_of_filter in Hi as [? ?%elem_slots]. done.
Qed.
Lemma cached_None t k i : cached t k = None → (i < NBUF)%nat → ¬ caches k (t i).
Proof.
  unfold cached. intros Hh Hi Hc. assert (i ∈ filter (λ i, caches k (t i)) slots) as Hi'.
  { apply list_elem_of_filter. by rewrite elem_slots. }
  destruct (filter _ _); simplify_eq/=. set_solver.
Qed.
Lemma cached_is t dk me k i : slots_ok t dk me → (i < NBUF)%nat → caches k (t i) → cached t k = Some i.
Proof.
  intros Hok Hi Hc. destruct (cached t k) as [j|] eqn:Hj.
  - apply cached_Some in Hj as [Hj Hcj]. f_equal. by eapply so_uniq.
  - by apply cached_None with (i := i) in Hj.
Qed.

(** Writing one slot, and the disk. *)
Section put.
Context (t : nat → buf) (dk : blkid → blockdata) (me : Z) (h : nat) (r : buf).
Hypothesis Hok : slots_ok t dk me.
Hypothesis Hh : (h < NBUF)%nat.

Lemma slots_ok_put dk' :
  slot_ok dk' me r →
  (∀ j k, j ≠ h → (j < NBUF)%nat → caches k (t j) → dk' k = dk k ∧ ¬ caches k r) →
  slots_ok (<[h := r]> t) dk' me.
Proof using Hok Hh.
  intros Hr Hne. split.
  - intros i Hi. rewrite fn_insert_case. case_decide as E; [done|].
    destruct (so_slot _ _ _ Hok i Hi) as [|(? & Hd & ? & ? & ? & ?)]; [by left|right]. split_and!; try done; try lia.
    destruct (Hne i (key (t i)) E Hi) as [-> _]; [done|]. done.
  - intros i j k Hi Hj. rewrite !fn_insert_case. repeat case_decide; subst; try done.
    + intros Hc Hcj. by destruct (Hne j k) as [_ ?].
    + intros Hc Hcj. by destruct (Hne i k) as [_ ?].
    + intros. by eapply so_uniq.
Qed.

(** A slot that keeps its block. *)
Hypothesis Hc : is_dev (bdev (t h)).
Hypothesis Hr : bdev r = bdev (t h).
Hypothesis Hn : blockno r = blockno (t h).

Lemma put_key : key r = key (t h).
Proof using Hr Hn. unfold key. congruence. Qed.
Lemma put_others j k : j ≠ h → (j < NBUF)%nat → caches k (t j) → k ≠ key (t h) ∧ ¬ caches k r.
Proof using Hok Hh Hc Hr Hn.
  intros Hj Hlt Hck. assert (k ≠ key (t h)) as Hk.
  { intros ->. apply Hj. by eapply so_uniq. }
  split; [done|]. intros [_ Hk']. by rewrite put_key in Hk'.
Qed.
Lemma cached_put k : cached (<[h := r]> t) k = cached t k.
Proof using Hr Hn.
  unfold cached. f_equal. apply filter_ext_in. intros i _. rewrite fn_insert_case.
  case_decide; [subst|done]. unfold caches. by rewrite put_key, Hr.
Qed.
Lemma view_put dk' d : data r = d → (∀ k, k ≠ key (t h) → dk' k = dk k) →
  view (<[h := r]> t) dk' = <[key (t h) := d]> (view t dk).
Proof using Hok Hh Hc Hr Hn.
  intros <- Hd. apply functional_extensionality. intros k. unfold view. rewrite cached_put, fn_insert_case.
  case_decide as E; [subst|].
  - rewrite (cached_is t dk me _ h) by done. by rewrite fn_lookup_insert.
  - destruct (cached t k) as [i|] eqn:Hi; [|by apply Hd].
    rewrite fn_lookup_insert_ne; [done|]. intros ->. by apply cached_Some in Hi as (_ & _ & ?).
Qed.
Lemma view_at : view t dk (key (t h)) = data (t h).
Proof using Hok Hh Hc. unfold view. by rewrite (cached_is t dk me _ h). Qed.
Lemma view_put_same dk' : data r = data (t h) → (∀ k, k ≠ key (t h) → dk' k = dk k) →
  view (<[h := r]> t) dk' = view t dk.
Proof using Hok Hh Hc Hr Hn.
  intros Hd Hk. rewrite (view_put dk' (data (t h))) by done. apply fn_insert_same, view_at.
Qed.
(** The blocks with a property, when one slot gains it, loses it or keeps it. *)
Lemma keys_put_add P `{∀ x, Decision (P x)} : P r → keys P (<[h := r]> t) = {[key (t h)]} ∪ keys P t.
Proof using Hh Hr Hn.
  intros HP. apply set_eq. intros k. rewrite elem_of_union, elem_of_singleton, !elem_keys. split.
  - intros (i & Hi & HPi & <-). rewrite fn_insert_case in *. case_decide; [left; apply put_key|eauto].
  - intros [->|(i & Hi & HPi & <-)].
    + exists h. rewrite fn_lookup_insert. by rewrite put_key.
    + exists i. rewrite fn_insert_case. case_decide; subst; [by rewrite put_key|done].
Qed.
Lemma keys_put_del P `{∀ x, Decision (P x)} : (∀ i, (i < NBUF)%nat → P (t i) → is_dev (bdev (t i))) →
  ¬ P r → keys P (<[h := r]> t) = keys P t ∖ {[key (t h)]}.
Proof using Hok Hh Hc Hr Hn.
  intros Hdev HP. apply set_eq. intros k. rewrite elem_of_difference, elem_of_singleton, !elem_keys. split.
  - intros (i & Hi & HPi & <-). rewrite fn_insert_case in *. case_decide; [done|]. split; [eauto|].
    apply (put_others i); [done..|]. split; [by apply Hdev|done].
  - intros [(i & Hi & HPi & <-) Hk]. exists i. rewrite fn_insert_case. case_decide; subst; done.
Qed.
Lemma keys_put_same P `{∀ x, Decision (P x)} : (P r ↔ P (t h)) → keys P (<[h := r]> t) = keys P t.
Proof using Hr Hn.
  intros HP. apply set_eq. intros k. rewrite !elem_keys. split; intros (i & Hi & HPi & <-); exists i;
    rewrite fn_insert_case in *; case_decide; subst; rewrite ?put_key; tauto.
Qed.
End put.

(** A clean unlocked slot that is given another block, as [bget] and then [iderw] do. *)
Section recycle.
Context (t : nat → buf) (dk : blkid → blockdata) (me : Z) (h : nat) (k : blkid).
Hypothesis Hok : slots_ok t dk me.
Hypothesis Hh : (h < NBUF)%nat.
Hypothesis Hfree : is_free (t h) = true.
Hypothesis Hk0 : is_dev k.1.
Hypothesis Hkb : 0 <= k.2 < FSSIZE.
Hypothesis Hnone : cached t k = None.

Lemma free_slot : flags (t h) ≠ 6 ∧ locked (t h) = false ∧ (is_dev (bdev (t h)) → data (t h) = dk (key (t h))).
Proof using Hok Hh Hfree.
  unfold is_free in Hfree. zbool.
  destruct (so_slot _ _ _ Hok h Hh) as [(E & ? & ? & ?)|([E|E] & ? & ? & Hrc & ? & Hcl)].
  - rewrite E. done.
  - rewrite E. destruct (locked (t h)) eqn:El; [congruence|]. split_and!; [done..|]. intros _. by apply Hcl.
  - match goal with H : Z.land _ _ = 0 |- _ => rewrite E in H; vm_compute in H; done end.
Qed.

Definition fresh (r : buf) : buf := mkBuf 2 k.1 k.2 (mkSl true me) 1 (prev r) (next r) (dk k).

Lemma fresh_key r : key (fresh r) = k.
Proof using Type. unfold key. simpl. by rewrite <- surjective_pairing. Qed.

Lemma recycle_ok : slots_ok (<[h := fresh (t h)]> t) dk me.
Proof using Hok Hh Hk0 Hkb Hnone.
  eapply slots_ok_put; [done..| |].
  - right. split_and!; simpl; try done; try lia; tauto.
  - intros j k' Hj Hlt Hc. split; [done|]. intros [_ Hkk].
    assert (k' = k) as -> by (rewrite <- Hkk; unfold key; simpl; by destruct k).
    by eapply cached_None in Hc.
Qed.
Lemma recycle_view : view (<[h := fresh (t h)]> t) dk = view t dk.
Proof using Hok Hh Hk0 Hkb Hnone Hfree.
  apply functional_extensionality. intros k'. unfold view.
  destruct (cached (<[h := fresh (t h)]> t) k') as [i|] eqn:Hi.
  - apply cached_Some in Hi as [Hi Hc]. rewrite fn_insert_case in *. case_decide; subst.
    + destruct Hc as [_ <-]. unfold key. simpl. rewrite <- surjective_pairing, Hnone. done.
    + by rewrite (cached_is t dk me _ i).
  - destruct (cached t k') as [i|] eqn:Hi'; [|done].
    apply cached_Some in Hi' as [Hlt Hc]. destruct (decide (i = h)) as [->|Hne].
    + destruct free_slot as (_ & _ & Hd), Hc as [? <-]. symmetry. by apply Hd.
    + exfalso. eapply (cached_None _ _ i) in Hi; [|done]. by rewrite fn_lookup_insert_ne in Hi.
Qed.
Lemma recycle_keys P `{∀ x, Decision (P x)} : ¬ P (t h) → ¬ P (fresh (t h)) →
  keys P (<[h := fresh (t h)]> t) = keys P t.
Proof using Type.
  intros HP HP'. apply set_eq. intros k'. rewrite !elem_keys. split; intros (i & Hi & HPi & <-); exists i;
    rewrite fn_insert_case in *; case_decide; subst; try done; tauto.
Qed.
Lemma recycle_keys_add P `{∀ x, Decision (P x)} : ¬ P (t h) → P (fresh (t h)) →
  keys P (<[h := fresh (t h)]> t) = {[k]} ∪ keys P t.
Proof using Hh.
  intros HP HP'. apply set_eq. intros k'. rewrite elem_of_union, elem_of_singleton, !elem_keys. split.
  - intros (i & Hi & HPi & <-). rewrite fn_insert_case in *. case_decide; [left|eauto].
    by rewrite fresh_key.
  - intros [->|(i & Hi & HPi & <-)].
    + exists h. rewrite fn_lookup_insert. split_and!; [done..|]. by rewrite fresh_key.
    + exists i. rewrite fn_insert_case. case_decide; subst; done.
Qed.
End recycle.

(** ** The operations on an ordered cache *)
Definition ordered (s : bst) (l : list nat) : Prop :=
  l ≡ₚ slots ∧ seg (nx s) (pv s) HEAD l HEAD.
(** [s'] has the list, the disk and the process of [s], and the slots [t]. *)
Record same_but (s s' : bst) (t : nat → buf) : Prop := {
  sb_nx : nx s' = nx s;
  sb_pv : pv s' = pv s;
  sb_sl : sl s' = t;
  sb_disk : disk s' = disk s;
  sb_written : written s' = written s;
  sb_havedisk1 : havedisk1 s' = havedisk1 s;
  sb_curpid : curpid s' = curpid s;
}.

Lemma same_logical s s' t : same_but s s' t →
  sl s' = t ∧ ldisk s' = ldisk s ∧ lwritten s' = lwritten s ∧ havedisk1 s' = havedisk1 s ∧ curpid s' = curpid s.
Proof. intros []. unfold ldisk, lwritten. split_and!; congruence. Qed.
Lemma same_refl s : same_but s s (sl s).
Proof. done. Qed.
Lemma same_upd s s' t b f : (∀ p n r, f (set_prev p (set_next n r)) = set_prev p (set_next n (f r))) →
  same_but s s' t → same_but s (upd b f s') (<[b := f (t b)]> t).
Proof.
  intros Hf []. destruct (upd_slot b f s' Hf) as (Hn & Hp & Hs). split; try done; congruence.
Qed.
Lemma same_insert s s' t b r r' : same_but s s' (<[b := r]> (<[b := r']> t)) → same_but s s' (<[b := r]> t).
Proof. by rewrite fn_insert_insert. Qed.
Lemma same_ordered s s' t l : same_but s s' t → ordered s l → ordered s' l.
Proof. intros [] [Hp Hs]. split; congruence. Qed.

Lemma ordered_fuel s l : ordered s l → HEAD ∉ l ∧ (length l < S NBUF)%nat ∧ NoDup (HEAD :: l).
Proof.
  intros [Hp _]. assert (HEAD ∉ l) as Hh.
  { rewrite Hp. intros Hi%elem_slots. unfold HEAD in Hi. lia. }
  split_and!; [done| |].
  - rewrite Hp. unfold slots. rewrite length_seq. lia.
  - apply NoDup_cons. split; [done|]. rewrite Hp. apply NoDup_seq.
Qed.

(** The search of [bget] for a block on a device finds the slot that caches it. *)
Lemma find_cached_cached s l dev no : ordered s l → slots_ok (sl s) (ldisk s) (curpid s) → is_dev dev →
  find_cached (S NBUF) (nx s HEAD) dev no s = Ret (cached (sl s) (dev, no)) s.
Proof.
  intros Ho Hok Hd. destruct (ordered_fuel s l Ho) as (Hh & Hf & Hnd). destruct Ho as [Hp Hs].
  rewrite (find_cached_spec s dev no _ HEAD l) by done. f_equal.
  assert (filter (λ i, is_key dev no (sl s i)) l ≡ₚ filter (λ i, caches (dev, no) (sl s i)) slots) as Hpe.
  { rewrite (filter_ext_in (λ i, Is_true (is_key dev no (sl s i))) (λ i, caches (dev, no) (sl s i))).
    - by rewrite Hp.
    - intros i _. unfold is_key, caches, key. rewrite Is_true_true, andb_true_iff, !Z.eqb_eq. naive_solver congruence. }
  assert (∀ i j, i ∈ filter (λ i, caches (dev, no) (sl s i)) slots →
    j ∈ filter (λ i, caches (dev, no) (sl s i)) slots → i = j) as Hu.
  { intros i j [? ?%elem_slots]%list_elem_of_filter [? ?%elem_slots]%list_elem_of_filter. by eapply so_uniq. }
  unfold cached. destruct (filter _ slots) as [|i m]; [apply Permutation_nil_r in Hpe; by rewrite Hpe|].
  destruct (filter _ l) as [|j m'] eqn:E; [by apply Permutation_nil_l in Hpe|].
  simpl. f_equal. apply Hu; [rewrite <- Hpe|]; set_solver.
Qed.
(** The other one finds the last recyclable buffer of the list. *)
Definition victim (s : bst) (l : list nat) : option nat := last (filter (λ i, is_free (sl s i)) l).
Lemma find_free_victim s l : ordered s l → find_free (S NBUF) (pv s HEAD) s = Ret (victim s l) s.
Proof. intros Ho. destruct (ordered_fuel s l Ho) as (? & ? & ?). apply find_free_spec; [apply Ho|done..]. Qed.
Lemma victim_Some s l h : ordered s l → victim s l = Some h → (h < NBUF)%nat ∧ is_free (sl s h) = true.
Proof.
  intros [Hp _] Hv. unfold victim in Hv. apply last_Some_elem_of in Hv. apply list_elem_of_filter in Hv as [? Hi].
  rewrite Hp in Hi. apply elem_slots in Hi. split; [done|]. by apply Is_true_true.
Qed.

Definition lock_slot (me : Z) (r : buf) : buf :=
  set_block_lock (mkSl true me) (set_refcnt 1 r).

Ltac slot_fn := by intros ? ? [].
(** Symbolic execution that keeps track of the slots: [H : same_but s s' t] for the
    current state [s']; [bio_read] computes the field a condition depends on. *)
Ltac bio_cbn :=
  cbn [flags bdev blockno block_lock refcnt prev next data sl_locked sl_pid
       set_flags set_bdev set_blockno set_block_lock set_refcnt set_prev set_next set_data].
Ltac bio_read :=
  repeat match goal with
  | H : same_but ?s ?s' ?t |- context [havedisk1 ?s'] => rewrite (sb_havedisk1 _ _ _ H)
  | H : same_but ?s ?s' ?t |- context [curpid ?s'] => rewrite (sb_curpid _ _ _ H)
  | H : same_but ?s ?s' ?t |- context [disk ?s'] => rewrite (sb_disk _ _ _ H)
  | H : same_but ?s ?s' ?t |- context [written ?s'] => rewrite (sb_written _ _ _ H)
  | H : same_but ?s ?s' ?t |- context [?f (bufs ?s' ?b)] =>
      change (f (bufs s' b)) with (f (sl s' b)); rewrite (sb_sl _ _ _ H), ?fn_lookup_insert
  end; bio_cbn.
Ltac bio_step :=
  lazymatch goal with
  | H : same_but ?s ?s' ?t |- wp (bset ?b ?f) _ ?s' =>
      apply wp_bset; apply (same_upd s s' t b f ltac:(slot_fn)) in H;
      rewrite ?fn_lookup_insert, ?fn_insert_insert in H;
      let s2 := fresh "s1" in generalize dependent (upd b f s'); intros s2 H; try clear s'
  | |- wp (bget_field _ _) _ _ => apply wp_bget_field
  | |- wp (mbind _ _) _ _ => apply wp_bind
  | |- wp (mret _) _ _ => apply wp_mret
  | |- wp (gets _) _ _ => apply wp_gets
  | |- wp (when _ _) _ _ => apply wp_when
  end.
Ltac bio_steps := repeat (bio_read; bio_step; cbn beta); bio_read.

Lemma bread_hit s l dev no h : ordered s l → slots_ok (sl s) (ldisk s) (curpid s) → is_dev dev →
  cached (sl s) (dev, no) = Some h → locked (sl s h) = false →
  ∃ s', bread dev no s = Ret h s' ∧ same_but s s' (<[h := lock_slot (curpid s) (sl s h)]> (sl s)).
Proof.
  intros Ho Hok Hd Hc Hl. apply cached_Some in Hc as Hh. destruct Hh as [Hh [Hb _]].
  destruct (so_slot _ _ _ Hok h Hh) as [(? & ? & ?)|(Hfl & _ & _ & Hrc & _)]; [done|]. rewrite Hl in Hrc.
  enough (∀ s1, same_but s s1 (sl s) → find_cached (S NBUF) (nx s1 HEAD) dev no s1 = Ret (Some h) s1 →
    wp (bread dev no) (λ r s', r = h ∧ same_but s s' (<[h := lock_slot (curpid s) (sl s h)]> (sl s))) s1) as Hw.
  { specialize (Hw s (same_refl s)). rewrite <- Hc in Hw.
    apply wp_returns in Hw as (? & s' & Hm & -> & Hq); [by eauto|]. by eapply find_cached_cached. }
  intros s1 Hs Hfind. unfold bread, bget. bio_steps.
  eapply wp_intro; [exact Hfind|]. bio_steps.
  unfold acquiresleep. bio_steps. bio_read. change (sl_locked _) with (locked (sl s h)).
  rewrite Hl. bio_steps. bio_read. rewrite Hrc in Hs. destruct Hfl as [->| ->]; bio_steps; done.
Qed.

Lemma bread_miss s l dev no h : ordered s l → havedisk1 s = true → slots_ok (sl s) (ldisk s) (curpid s) → is_dev dev →
  0 <= no < FSSIZE → cached (sl s) (dev, no) = None → victim s l = Some h →
  ∃ s', bread dev no s = Ret h s' ∧
    same_but s s' (<[h := fresh (ldisk s) (curpid s) (dev, no) (sl s h)]> (sl s)).
Proof.
  intros Ho Hdisk1 Hok Hd Hno Hc Hv. destruct (victim_Some s l h Ho Hv) as [Hh Hf].
  destruct (free_slot _ _ _ _ Hok Hh Hf) as (_ & Hl & _).
  enough (∀ s1, same_but s s1 (sl s) → find_cached (S NBUF) (nx s1 HEAD) dev no s1 = Ret None s1 →
    find_free (S NBUF) (pv s1 HEAD) s1 = Ret (Some h) s1 →
    wp (bread dev no) (λ r s', r = h ∧
      same_but s s' (<[h := fresh (ldisk s) (curpid s) (dev, no) (sl s h)]> (sl s))) s1) as Hw.
  { specialize (Hw s (same_refl s)). rewrite <- Hc, <- Hv in Hw.
    apply wp_returns in Hw as (? & s' & Hm & -> & Hq);
      [by eauto|by eapply find_cached_cached|by apply find_free_victim]. }
  intros s1 Hs Hfind Hfree. unfold bread, bget. bio_steps.
  eapply wp_intro; [exact Hfind|]. bio_steps.
  eapply wp_intro; [exact Hfree|]. bio_steps.
  unfold acquiresleep. bio_steps. change (sl_locked _) with (locked (sl s h)). rewrite Hl.
  bio_steps. change (Z.land 0 B_VALID =? 0) with true. cbn iota.
  unfold iderw, idestart, ideintr, holdingsleep. bio_steps. rewrite Z.eqb_refl. cbn [andb negb]. bio_steps.
  change (Z.land 0 (Z.lor B_VALID B_DIRTY) =? B_VALID) with false. cbn iota. bio_steps.
  rewrite Hdisk1, andb_false_r. bio_steps. rewrite (proj2 (Z.leb_gt _ _)) by apply Hno. bio_steps.
  change (Z.land 0 B_DIRTY =? 0) with true. cbn [negb]. bio_steps. change (Z.land 0 B_DIRTY =? 0) with true.
  cbn iota. bio_steps. split; [done|]. unfold fresh. by rewrite ldisk_at.
Qed.

Lemma bread_no_buffers s l dev no : ordered s l → slots_ok (sl s) (ldisk s) (curpid s) → is_dev dev →
  cached (sl s) (dev, no) = None → victim s l = None → bread dev no s = Panic "bget: no buffers".
Proof.
  intros Ho Hok Hd Hc Hv. unfold bread, bget, bget_field.
  unfold mbind, M_bind, gets. change (next (bufs s HEAD)) with (nx s HEAD).
  rewrite (find_cached_cached s l) by done. rewrite Hc.
  change (prev (bufs s HEAD)) with (pv s HEAD). by rewrite (find_free_victim s l), Hv.
Qed.

Lemma nx_set_prev b p s : nx (upd b (set_prev p) s) = nx s.
Proof. rewrite nx_upd. by apply fn_insert_same. Qed.
Lemma pv_set_prev b p s : pv (upd b (set_prev p) s) = <[b := p]> (pv s).
Proof. by rewrite pv_upd. Qed.
Lemma sl_set_prev b p s : sl (upd b (set_prev p) s) = sl s.
Proof. rewrite sl_upd. by apply fn_insert_same. Qed.
Lemma nx_set_next b p s : nx (upd b (set_next p) s) = <[b := p]> (nx s).
Proof. by rewrite nx_upd. Qed.
Lemma pv_set_next b p s : pv (upd b (set_next p) s) = pv s.
Proof. rewrite pv_upd. by apply fn_insert_same. Qed.
Lemma sl_set_next b p s : sl (upd b (set_next p) s) = sl s.
Proof. rewrite sl_upd. by apply fn_insert_same. Qed.

Lemma wp_push_front s h l (Q : () → bst → Prop) :
  h ∉ HEAD :: l → NoDup (HEAD :: l) → seg (nx s) (pv s) HEAD l HEAD →
  (∀ s', seg (nx s') (pv s') HEAD (h :: l) HEAD → sl s' = sl s → disk s' = disk s → written s' = written s →
     curpid s' = curpid s → havedisk1 s' = havedisk1 s → Q () s') →
  wp (push_front h) Q s.
Proof.
  intros Hh Hnd Hs HQ. unfold push_front.
  repeat first [bio_step; cbn beta|lazymatch goal with |- wp (bset _ _) _ _ => apply wp_bset; cbn beta end].
  apply HQ; repeat rewrite ?sl_set_next, ?sl_set_prev; try done.
  rewrite !nx_set_next, !nx_set_prev, !nx_set_next, !pv_set_next, !pv_set_prev, !pv_set_next.
  pose proof (seg_push _ _ _ _ Hh Hnd Hs) as Hp.
  match goal with |- context [<[?x := h]> (<[h := HEAD]> _)] =>
    change x with (nx (upd h (set_prev HEAD) (upd h (set_next (next (bufs s HEAD))) s)) HEAD) end.
  rewrite nx_set_prev, nx_set_next, fn_lookup_insert_ne by set_solver. exact Hp.
Qed.

Lemma wp_unlink_push s l1 h l2 (Q : () → bst → Prop) : ordered s (l1 ++ h :: l2) →
  (∀ s', ordered s' (h :: l1 ++ l2) → sl s' = sl s → disk s' = disk s → written s' = written s →
     curpid s' = curpid s → havedisk1 s' = havedisk1 s → Q () s') →
  wp (unlink_push h) Q s.
Proof.
  intros Ho HQ. destruct (ordered_fuel _ _ Ho) as (Hh & _ & Hnd). destruct Ho as [Hp Hs].
  pose proof (seg_unlink _ _ _ _ _ Hnd Hs) as Hu.
  assert (h ∉ HEAD :: l1 ++ l2) as Hhl.
  { apply NoDup_cons in Hnd as [Hhd (_ & Hd & Hd2)%NoDup_app]. apply NoDup_cons in Hd2. set_solver. }
  assert (NoDup (HEAD :: l1 ++ l2)) as Hnd'.
  { eapply sublist_NoDup; [exact Hnd|]. apply sublist_skip, sublist_app; [done|by apply sublist_cons]. }
  assert (nx s h ≠ h) as Hne.
  { apply seg_app in Hs as [_ Hs]. destruct (seg_first _ _ _ _ _ Hs) as [-> _].
    generalize (hd_in l2 HEAD), Hnd, Hhl. generalize (hd HEAD l2). clear. intros n Hi Hnd Hh ->.
    apply NoDup_cons in Hnd as [Hhd (_ & Hd & Hd2)%NoDup_app]. apply NoDup_cons in Hd2. set_solver. }
  unfold unlink_push. do 2 (apply wp_bind, wp_bget_field). apply wp_bind, wp_bset.
  do 2 (apply wp_bind, wp_bget_field). apply wp_bind, wp_bset.
  change (next (bufs s h)) with (nx s h). change (prev (bufs s h)) with (pv s h).
  set (s1 := upd (nx s h) _ s). change (next (bufs s1 h)) with (nx s1 h). change (prev (bufs s1 h)) with (pv s1 h).
  apply wp_push_front with (l := l1 ++ l2); [done..| |].
  - subst s1. rewrite nx_set_next, pv_set_next, nx_set_prev, pv_set_prev, fn_lookup_insert_ne by done. done.
  - intros s' Hs' Hsl ? ? ? ?. apply HQ; [|by rewrite Hsl, sl_set_next; subst s1; rewrite sl_set_prev|done..].
    split; [|done]. rewrite <- Hp. by rewrite Permutation_middle.
Qed.

(** The state after block [k] is written to disk with contents [d]. *)
Definition wrote (k : blkid) (d : blockdata) (s : bst) : bst :=
  set_written (written s ++ [((drive k.1, k.2), d)]) (set_disk (<[(drive k.1, k.2) := d]> (disk s)) s).
Lemma ldisk_wrote k d s : is_dev k.1 → ldisk (wrote k d s) = <[k := d]> (ldisk s).
Proof. apply by_dev_insert. Qed.
Lemma lwritten_wrote k d s : is_dev k.1 → lwritten (wrote k d s) = lwritten s ++ [(k, d)].
Proof. intros Hk. unfold lwritten. simpl. rewrite fmap_app. simpl. rewrite dev_of_drive by done. by destruct k. Qed.

Lemma same_wrote k d s s' t : same_but s s' t → same_but (wrote k d s) (wrote k d s') t.
Proof. intros []. unfold wrote. split; try done; simpl; congruence. Qed.

Lemma bwrite_steps s h : havedisk1 s = true → locked (sl s h) = true → sl_pid (block_lock (sl s h)) = curpid s →
  flags (sl s h) = 2 ∨ flags (sl s h) = 6 → blockno (sl s h) < FSSIZE →
  ∃ s', bwrite h s = Ret () s' ∧
    same_but (wrote (key (sl s h)) (data (sl s h)) s) s' (<[h := set_flags 2 (sl s h)]> (sl s)).
Proof.
  intros Hdisk1 Hl Hp Hf Hb.
  enough (∀ s1, same_but s s1 (sl s) → wp (bwrite h) (λ _ s',
    same_but (wrote (key (sl s h)) (data (sl s h)) s) s' (<[h := set_flags 2 (sl s h)]> (sl s))) s1) as Hw.
  { specialize (Hw s (same_refl s)). apply wp_returns in Hw as ([] & s' & Hm & Hq). eauto. }
  intros s1 Hs. change (sl_locked (block_lock (sl s h)) = true) in Hl.
  unfold bwrite, iderw, idestart, ideintr, holdingsleep. bio_steps. rewrite Hl, Hp, Z.eqb_refl. cbn [andb negb]. bio_steps.
  rewrite Hl, Hp, Z.eqb_refl. cbn [andb negb]. bio_steps.
  assert (Z.lor (flags (sl s h)) B_DIRTY = 6) as E6 by (by destruct Hf as [-> | ->]).
  rewrite E6 in *. change (Z.land 6 (Z.lor B_VALID B_DIRTY) =? B_VALID) with false. cbn iota. bio_steps.
  rewrite Hdisk1, andb_false_r. bio_steps.
  rewrite (proj2 (Z.leb_gt _ _)) by done. bio_steps. change (Z.land 6 B_DIRTY =? 0) with false. cbn [negb].
  bio_steps. apply wp_modify.
  apply (same_wrote (key (sl s h)) (data (sl s h))) in Hs.
  match goal with H : same_but _ (wrote ?k ?d ?x) _ |- wp _ _ ?y => change y with (wrote k d x) end.
  bio_steps. change (Z.land 6 B_DIRTY =? 0) with false. cbn iota. bio_steps. exact Hs.
Qed.

Lemma brelse_steps s l1 h l2 : ordered s (l1 ++ h :: l2) →
  locked (sl s h) = true → sl_pid (block_lock (sl s h)) = curpid s → refcnt (sl s h) = 1 →
  ∃ s', brelse h s = Ret () s' ∧ ordered s' (h :: l1 ++ l2) ∧
    sl s' = <[h := set_refcnt 0 (set_block_lock (mkSl false 0) (sl s h))]> (sl s) ∧
    ldisk s' = ldisk s ∧ lwritten s' = lwritten s ∧ curpid s' = curpid s ∧ havedisk1 s' = havedisk1 s.
Proof.
  intros Ho Hl Hp Hr.
  enough (∀ s1, same_but s s1 (sl s) → wp (brelse h) (λ _ s', ordered s' (h :: l1 ++ l2) ∧
    sl s' = <[h := set_refcnt 0 (set_block_lock (mkSl false 0) (sl s h))]> (sl s) ∧
    ldisk s' = ldisk s ∧ lwritten s' = lwritten s ∧ curpid s' = curpid s ∧ havedisk1 s' = havedisk1 s) s1) as Hw.
  { specialize (Hw s (same_refl s)). apply wp_returns in Hw as ([] & s' & Hm & Hq). eauto. }
  intros s1 Hs. change (sl_locked (block_lock (sl s h)) = true) in Hl.
  unfold brelse, holdingsleep, releasesleep. bio_steps. rewrite Hl, Hp, Z.eqb_refl. cbn [andb negb]. bio_steps.
  change (refcnt (set_block_lock _ (sl s h))) with (refcnt (sl s h)) in Hs.
  rewrite Hr in *. change (u32 (1 - 1)) with 0 in *. cbn iota.
  apply (same_ordered _ _ _ _ Hs) in Ho.
  eapply wp_unlink_push; [exact Ho|]. intros s' ? Hsl Hd Hwr Hc Hhd. destruct Hs. unfold ldisk, lwritten. split_and!; congruence.
Qed.

(** ** The interface *)
Definition held : buf → Prop := λ r, locked r = true.
#[export] Instance held_dec r : Decision (held r).
Proof. unfold held. apply _. Defined.
Definition cache_inv (s : bst) : Prop :=
  slots_ok (sl s) (ldisk s) (curpid s) ∧ havedisk1 s = true ∧ ∃ l, ordered s l.
Definition holds_block (s : bst) (h : nat) (k : blkid) : Prop :=
  (h < NBUF)%nat ∧ locked (sl s h) = true ∧ is_dev (bdev (sl s h)) ∧ key (sl s h) = k.

Lemma held_slot t dk me i : slots_ok t dk me → (i < NBUF)%nat → locked (t i) = true →
  (flags (t i) = 2 ∨ flags (t i) = 6) ∧ is_dev (bdev (t i)) ∧ 0 <= blockno (t i) < FSSIZE ∧ refcnt (t i) = 1 ∧
  sl_pid (block_lock (t i)) = me.
Proof.
  intros Hok Hi Hl. destruct (so_slot _ _ _ Hok i Hi) as [(? & ? & ? & ?)|(? & ? & ? & Hr & Hp & ?)]; [congruence|].
  rewrite Hl in Hr. split_and!; try done; try lia. by apply Hp.
Qed.
Lemma dirty_dev t dk me i : slots_ok t dk me → (i < NBUF)%nat → is_dirty (t i) → is_dev (bdev (t i)).
Proof.
  unfold is_dirty. intros Hok Hi Hd.
  destruct (so_slot _ _ _ Hok i Hi) as [(? & _)|(_ & ? & _)]; [congruence|done].
Qed.
Lemma held_dev t dk me i : slots_ok t dk me → (i < NBUF)%nat → held (t i) → is_dev (bdev (t i)).
Proof. intros Hok Hi Hd. by destruct (held_slot _ _ _ _ Hok Hi Hd) as (_ & ? & _). Qed.

(** When the blocks in use leave room for one more, there is a buffer to recycle. *)
Lemma some_victim s l k : slots_ok (sl s) (ldisk s) (curpid s) → ordered s l → cached (sl s) k = None →
  (size ({[ k ]} ∪ keys is_dirty (sl s) ∪ keys held (sl s)) ≤ NBUF)%nat → is_Some (victim s l).
Proof.
  intros Hok [Hp _] Hc Hsz. unfold victim. destruct (last _) as [h|] eqn:E; [by eexists|exfalso].
  apply last_None in E.
  assert (∀ i, (i < NBUF)%nat → is_free (sl s i) = false) as Hb.
  { intros i Hi. destruct (is_free (sl s i)) eqn:Ef; [|done]. exfalso.
    assert (i ∈ filter (λ i, is_free (sl s i)) l) as Hin; [|rewrite E in Hin; set_solver].
    apply list_elem_of_filter. rewrite Ef, Hp, elem_slots. done. }
  set (K := list_to_set ((λ i, key (sl s i)) <$> slots) : gset blkid).
  assert (size K = NBUF) as HK.
  { unfold K. rewrite size_list_to_set.
    - rewrite length_fmap. unfold slots. by rewrite length_seq.
    - apply NoDup_fmap_2_strong; [|apply NoDup_seq]. intros i j Hi%elem_slots Hj%elem_slots Hk.
      assert (is_dev (bdev (sl s i)) ∧ is_dev (bdev (sl s j))) as [Hi' Hj'].
      { assert (∀ i, (i < NBUF)%nat → is_dev (bdev (sl s i))) as Hn; [|split; by apply Hn].
        intros x Hx. destruct (so_slot _ _ _ Hok x Hx) as [(Hf & _ & _ & Hr)|(_ & ? & _)]; [|done].
        specialize (Hb x Hx). unfold is_free in Hb. by rewrite Hr, Hf in Hb. }
      by eapply (so_uniq _ _ _ Hok i j (key (sl s j))). }
  assert ({[k]} ∪ K ⊆ {[ k ]} ∪ keys is_dirty (sl s) ∪ keys held (sl s)) as Hsub.
  { intros x Hx. rewrite !elem_of_union, !elem_keys. apply elem_of_union in Hx as [?|Hx]; [by do 2 left|].
    apply elem_of_list_to_set, list_elem_of_fmap in Hx as (i & -> & Hi%elem_slots).
    destruct (so_slot _ _ _ Hok i Hi) as [(Hf & _ & _ & Hr)|(Hf & _ & _ & Hr & _)];
      specialize (Hb i Hi); unfold is_free in Hb; [by rewrite Hr, Hf in Hb|].
    destruct (locked (sl s i)) eqn:El; [right; eauto|]. left; right. exists i. split_and!; [done| |done].
    rewrite Hr in Hb. destruct Hf as [Hf|Hf]; [by rewrite Hf in Hb|done]. }
  apply subseteq_size in Hsub. rewrite size_union, size_singleton, HK in Hsub; [lia|].
  intros x ->%elem_of_singleton Hx.
  apply elem_of_list_to_set, list_elem_of_fmap in Hx as (i & -> & Hi%elem_slots).
  eapply cached_None; [done..|]. split; [|done].
  destruct (so_slot _ _ _ Hok i Hi) as [(Hf & _ & _ & Hr)|(_ & ? & _)]; [|done].
  specialize (Hb i Hi). unfold is_free in Hb. by rewrite Hr, Hf in Hb.
Qed.
Ltac slot_goals := right; unfold locked, key in *; bio_cbn; split_and!; try done; try lia.


(** [bread] in every case the interface allows. *)
Lemma bread_cases s l dev b : slots_ok (sl s) (ldisk s) (curpid s) → ordered s l → havedisk1 s = true → is_dev dev → 0 <= b < FSSIZE →
  (dev, b) ∉ keys held (sl s) →
  match cached (sl s) (dev, b), victim s l with
  | Some h, _ => ∃ s', bread dev b s = Ret h s' ∧ same_but s s' (<[h := lock_slot (curpid s) (sl s h)]> (sl s))
  | None, Some h => ∃ s', bread dev b s = Ret h s' ∧
      same_but s s' (<[h := fresh (ldisk s) (curpid s) (dev, b) (sl s h)]> (sl s))
  | None, None => bread dev b s = Panic "bget: no buffers"
  end.
Proof.
  intros Hok Ho Hdisk1 Hd Hb Hh. destruct (cached (sl s) (dev, b)) as [h|] eqn:Hc.
  - eapply bread_hit; try done. apply cached_Some in Hc as [Hlt [_ Hk]].
    destruct (locked (sl s h)) eqn:El; [|done]. exfalso. apply Hh, elem_keys. eauto.
  - destruct (victim s l) as [h|] eqn:Hv; [by eapply bread_miss|by eapply bread_no_buffers].
Qed.

Lemma lock_ok s h : slots_ok (sl s) (ldisk s) (curpid s) → (h < NBUF)%nat → is_dev (bdev (sl s h)) →
  locked (sl s h) = false → slots_ok (<[h := lock_slot (curpid s) (sl s h)]> (sl s)) (ldisk s) (curpid s).
Proof.
  intros Hok Hh Hb Hl. eapply slots_ok_put; [done..| |].
  - destruct (so_slot _ _ _ Hok h Hh) as [(? & ? & ?)|(Hf & ? & ? & Hr & _)]; [done|right].
    split_and!; simpl; try done; try lia; tauto.
  - intros j k Hj Hlt Hc. split; [done|]. by eapply (put_others (sl s) (ldisk s) (curpid s) h) with (j := j).
Qed.

Lemma bread_ok s dev b : cache_inv s → is_dev dev → 0 <= b < FSSIZE → (dev, b) ∉ keys held (sl s) →
  (size ({[ (dev, b) ]} ∪ keys is_dirty (sl s) ∪ keys held (sl s)) ≤ NBUF)%nat →
  ∃ h s', bread dev b s = Ret h s' ∧ cache_inv s' ∧ view (sl s') (ldisk s') = view (sl s) (ldisk s) ∧
    ldisk s' = ldisk s ∧ lwritten s' = lwritten s ∧
    keys is_dirty (sl s') = keys is_dirty (sl s) ∧ keys held (sl s') = {[ (dev, b) ]} ∪ keys held (sl s) ∧
    holds_block s' h (dev, b) ∧ ∀ h' k, holds_block s h' k → holds_block s' h' k.
Proof.
  intros [Hok [Hdisk1 [l Ho]]] Hd Hb Hh Hsz. pose proof (bread_cases s l dev b Hok Ho Hdisk1 Hd Hb Hh) as Hcases.
  destruct (cached (sl s) (dev, b)) as [h|] eqn:Hc.
  - destruct Hcases as (s' & Hm & Hs). exists h, s'. pose proof (same_ordered _ _ _ _ Hs Ho) as Ho'.
    destruct (same_logical _ _ _ Hs) as (Hsl & Hdk & Hwr & Hhd & Hcp). apply cached_Some in Hc as [Hlt [Hbd Hk]].
    assert (locked (sl s h) = false) as Hl.
    { destruct (locked (sl s h)) eqn:El; [|done]. exfalso. apply Hh, elem_keys. eauto. }
    unfold cache_inv, holds_block. rewrite Hsl, Hdk, Hwr, Hcp, ?Hhd, fn_lookup_insert. rewrite <- Hk. split_and!; try done.
    + by apply lock_ok.
    + eauto.
    + by eapply view_put_same.
    + by eapply keys_put_same.
    + by eapply keys_put_add.
    + intros h' k (? & ? & ? & ?). rewrite fn_lookup_insert_ne by congruence. done.
  - destruct (some_victim s l (dev, b)) as [h Hv]; [done..|]. rewrite Hv in Hcases.
    destruct Hcases as (s' & Hm & Hs). exists h, s'. pose proof (same_ordered _ _ _ _ Hs Ho) as Ho'.
    destruct (same_logical _ _ _ Hs) as (Hsl & Hdk & Hwr & Hhd & Hcp). destruct (victim_Some s l h Ho Hv) as [Hlt Hf].
    destruct (free_slot _ _ _ _ Hok Hlt Hf) as (Hf6 & Hl & _).
    unfold cache_inv, holds_block. rewrite Hsl, Hdk, Hwr, Hcp, ?Hhd, fn_lookup_insert. split_and!; try done.
    + by apply recycle_ok.
    + eauto.
    + by apply recycle_view.
    + by apply recycle_keys.
    + apply recycle_keys_add; [done|unfold held; by rewrite Hl|done].
    + intros h' k (? & ? & ? & ?). rewrite fn_lookup_insert_ne by congruence. done.
Qed.

Lemma bwrite_ok s h k : cache_inv s → holds_block s h k →
  ∃ s', bwrite h s = Ret () s' ∧ cache_inv s' ∧ view (sl s') (ldisk s') = view (sl s) (ldisk s) ∧
    ldisk s' = <[k := view (sl s) (ldisk s) k]> (ldisk s) ∧ lwritten s' = lwritten s ++ [(k, view (sl s) (ldisk s) k)] ∧
    keys is_dirty (sl s') = keys is_dirty (sl s) ∖ {[k]} ∧ keys held (sl s') = keys held (sl s) ∧
    ∀ h' k', holds_block s h' k' → holds_block s' h' k'.
Proof.
  intros [Hok [Hdisk1 [l Ho]]] (Hlt & Hl & Hb & <-). destruct (held_slot _ _ _ _ Hok Hlt Hl) as (Hf & _ & Hr & Hrc & Hp).
  destruct (bwrite_steps s h) as (s' & Hm & Hs); try done; [by apply Hr|]. exists s'.
  assert (ordered s' l) as Hord by (destruct Hs as [Hn Hpv _ _ _ _ _]; destruct Ho as [? Hs]; split; [done|]; by rewrite Hn, Hpv).
  destruct (same_logical _ _ _ Hs) as (Hsl & Hdk & Hwr & Hhd & Hcp).
  rewrite ldisk_wrote in Hdk by done. rewrite lwritten_wrote in Hwr by done.
  rewrite (view_at (sl s) (ldisk s) (curpid s) h) by done.
  unfold cache_inv, holds_block. rewrite Hsl, Hdk, Hwr, Hcp, ?Hhd. split_and!; try done.
  - eapply slots_ok_put; [done..| |].
    + slot_goals; [by rewrite Hl|]. intros _ Hl'. by rewrite Hl in Hl'.
    + intros j k Hj Hlj Hc. destruct (put_others (sl s) (ldisk s) (curpid s) h (set_flags 2 (sl s h))) with (j := j) (k := k)
        as [? ?]; try done. split; [|done]. simpl. by rewrite fn_lookup_insert_ne.
  - eauto.
  - eapply view_put_same; try done. intros k Hk. simpl. by rewrite fn_lookup_insert_ne.
  - eapply keys_put_del; try done. intros i Hi. by eapply dirty_dev.
  - by eapply keys_put_same.
  - intros h' k' (? & ? & ? & ?). rewrite fn_insert_case. case_decide; [subst h'|]; done.
Qed.

Lemma brelse_ok s h k : cache_inv s → holds_block s h k →
  (k ∈ keys is_dirty (sl s) ∨ view (sl s) (ldisk s) k = ldisk s k) →
  ∃ s', brelse h s = Ret () s' ∧ cache_inv s' ∧ view (sl s') (ldisk s') = view (sl s) (ldisk s) ∧ ldisk s' = ldisk s ∧
    lwritten s' = lwritten s ∧ keys is_dirty (sl s') = keys is_dirty (sl s) ∧
    keys held (sl s') = keys held (sl s) ∖ {[k]} ∧ ∀ h' k', k' ≠ k → holds_block s h' k' → holds_block s' h' k'.
Proof.
  intros [Hok [Hdisk1 [l Ho]]] (Hlt & Hl & Hb & <-) Hclean.
  destruct (held_slot _ _ _ _ Hok Hlt Hl) as (Hf & _ & Hr & Hrc & Hp).
  assert (h ∈ l) as (l1 & l2 & ->)%list_elem_of_split by (destruct Ho as [Hperm _]; rewrite Hperm; by apply elem_slots).
  destruct (brelse_steps s l1 h l2) as (s' & Hm & Ho' & Hsl & Hdk & Hwr & Hcp & Hhd); try done. exists s'.
  rewrite (view_at (sl s) (ldisk s) (curpid s) h) in Hclean by done.
  unfold cache_inv, holds_block. rewrite Hsl, Hdk, Hwr, Hcp, ?Hhd. split_and!; try done.
  - eapply slots_ok_put; [done..| |].
    + slot_goals. intros Hf2 _.
      destruct Hclean as [(i & Hi & Hdi & Hk)%elem_keys|]; [|done]. unfold is_dirty in Hdi.
      assert (i = h) as -> by (eapply (so_uniq _ _ _ Hok i h (key (sl s h))); try done; split; [by eapply dirty_dev|done]).
      congruence.
    + intros j k Hj Hlj Hc. split; [done|].
      by eapply (put_others (sl s) (ldisk s) (curpid s) h) with (j := j).
  - eauto.
  - by eapply view_put_same.
  - by eapply keys_put_same.
  - eapply keys_put_del; try done. intros i Hi. by eapply held_dev.
  - intros h' k' Hk (? & ? & ? & ?). rewrite fn_lookup_insert_ne by congruence. done.
Qed.

Lemma set_data_ok s h k d : cache_inv s → holds_block s h k →
  ∃ s', bset h (set_data d) s = Ret () s' ∧ cache_inv s' ∧ view (sl s') (ldisk s') = <[k := d]> (view (sl s) (ldisk s)) ∧
    ldisk s' = ldisk s ∧ lwritten s' = lwritten s ∧ keys is_dirty (sl s') = keys is_dirty (sl s) ∧
    keys held (sl s') = keys held (sl s) ∧ ∀ h' k', holds_block s h' k' → holds_block s' h' k'.
Proof.
  intros [Hok [Hdisk1 [l Ho]]] (Hlt & Hl & Hb & <-). destruct (held_slot _ _ _ _ Hok Hlt Hl) as (Hf & _ & Hr & Hrc & Hp).
  pose proof (same_upd s s (sl s) h (set_data d) ltac:(slot_fn) (same_refl s)) as Hs.
  exists (upd h (set_data d) s). pose proof (same_ordered _ _ _ _ Hs Ho) as Ho'.
  destruct (same_logical _ _ _ Hs) as (Hsl & Hdk & Hwr & Hhd & Hcp). unfold cache_inv, holds_block. rewrite Hsl, Hdk, Hwr, Hcp, ?Hhd. split_and!; try done.
  - eapply slots_ok_put; [done..| |].
    + slot_goals; [by rewrite Hl|]. intros _ Hl'. by rewrite Hl in Hl'.
    + intros j k Hj Hlj Hc. split; [done|].
      by eapply (put_others (sl s) (ldisk s) (curpid s) h) with (j := j).
  - eauto.
  - by eapply view_put.
  - by eapply keys_put_same.
  - by eapply keys_put_same.
  - intros h' k' (? & ? & ? & ?). rewrite fn_insert_case. case_decide; [subst h'|]; done.
Qed.

Lemma set_dirty_ok s h k : cache_inv s → holds_block s h k →
  ∃ s', bset h (λ r, set_flags (Z.lor (flags r) B_DIRTY) r) s = Ret () s' ∧ cache_inv s' ∧
    view (sl s') (ldisk s') = view (sl s) (ldisk s) ∧ ldisk s' = ldisk s ∧ lwritten s' = lwritten s ∧
    keys is_dirty (sl s') = {[k]} ∪ keys is_dirty (sl s) ∧ keys held (sl s') = keys held (sl s) ∧
    ∀ h' k', holds_block s h' k' → holds_block s' h' k'.
Proof.
  intros [Hok [Hdisk1 [l Ho]]] (Hlt & Hl & Hb & <-). destruct (held_slot _ _ _ _ Hok Hlt Hl) as (Hf & _ & Hr & Hrc & Hp).
  pose proof (same_upd s s (sl s) h (λ r, set_flags (Z.lor (flags r) B_DIRTY) r) ltac:(slot_fn) (same_refl s)) as Hs.
  exists (upd h (λ r, set_flags (Z.lor (flags r) B_DIRTY) r) s). pose proof (same_ordered _ _ _ _ Hs Ho) as Ho'.
  assert (Z.lor (flags (sl s h)) B_DIRTY = 6) as E6 by (by destruct Hf as [-> | ->]). cbn beta in Hs. rewrite E6 in Hs.
  destruct (same_logical _ _ _ Hs) as (Hsl & Hdk & Hwr & Hhd & Hcp). unfold cache_inv, holds_block. rewrite Hsl, Hdk, Hwr, Hcp, ?Hhd. split_and!; try done.
  - eapply slots_ok_put; [done..| |].
    + slot_goals; by rewrite Hl.
    + intros j k Hj Hlj Hc. split; [done|].
      by eapply (put_others (sl s) (ldisk s) (curpid s) h) with (j := j).
  - eauto.
  - by eapply view_put_same.
  - by eapply keys_put_add.
  - by eapply keys_put_same.
  - intros h' k' (? & ? & ? & ?). rewrite fn_insert_case. case_decide; [subst h'|]; done.
Qed.

#[export] Instance bio_laws : BufferCacheLaws bst.
Proof.
  refine {|
    binv := cache_inv;
    vw := λ s, view (sl s) (ldisk s);
    dsk := ldisk;
    wr := lwritten;
    pins := λ s, keys is_dirty (sl s);
    hld := λ s, keys held (sl s);
    at_ := holds_block;
    bread_law := bread_ok; bwrite_law := bwrite_ok; brelse_law := brelse_ok;
    b_set_data_law := set_data_ok; b_set_dirty_law := set_dirty_ok;
  |}.
  - intros s h k (? & ? & ? & <-). apply elem_keys. eauto.
  - intros s h k [Hok _] (? & ? & ? & <-). symmetry. exact (view_at (sl s) (ldisk s) (curpid s) h Hok ltac:(done) ltac:(done)).
  - by intros s h k _ (? & ? & ? & <-).
  - intros s k [Hok _] Hp Hh. unfold view. destruct (cached (sl s) k) as [i|] eqn:Hc; [|done].
    apply cached_Some in Hc as [Hi [Hb <-]].
    destruct (so_slot _ _ _ Hok i Hi) as [(? & ? & _)|(Hf & _ & _ & _ & _ & Hcl)]; [done|].
    apply Hcl; [destruct Hf as [|Hf]; [done|]|].
    + exfalso. apply Hp, elem_keys. exists i. done.
    + destruct (locked (sl s i)) eqn:El; [|done]. exfalso. apply Hh, elem_keys. eauto.
Defined.

(** ** Booting *)
(** Static memory at boot, and a disk. *)
Definition zero_buf : buf := mkBuf 0 0 0 (mkSl false 0) 0 O O (λ _, 0).
Definition boot (dk : blkid → blockdata) (me : Z) : bst := mkB (λ _, zero_buf) dk [] true me.

(** The loop of [binit] puts one buffer after the other in front. *)
Lemma wp_binit_loop todo done_ s (Q : () → bst → Prop) :
  NoDup (done_ ++ todo) → HEAD ∉ done_ ++ todo → seg (nx s) (pv s) HEAD done_ HEAD → sl s = (λ _, zero_buf) →
  (∀ s', seg (nx s') (pv s') HEAD (rev todo ++ done_) HEAD → sl s' = (λ _, zero_buf) → disk s' = disk s →
     written s' = written s → curpid s' = curpid s → havedisk1 s' = havedisk1 s → Q () s') →
  wp (mfor todo binit_one) Q s.
Proof.
  revert done_ s. induction todo as [|b todo IH]; intros dn s Hnd Hh Hs Hz HQ; simpl; [by apply HQ|].
  apply wp_bind. assert (b ∉ dn ∧ b ∉ todo) as [Hb1 Hb2].
  { apply NoDup_app in Hnd as (_ & H1 & [H2 _]%NoDup_cons). set_solver. }
  assert (b ∉ HEAD :: dn) as Hb by (clear -Hh Hb1; set_solver).
  assert (NoDup (HEAD :: dn)) as Hnd' by (apply NoDup_cons; split; [clear -Hh; set_solver|by apply NoDup_app in Hnd as [? _]]).
  unfold binit_one, initsleeplock.
  apply wp_bind, wp_bget_field. do 3 apply wp_bind, wp_bset.
  set (s1 := upd b _ (upd b _ _)).
  assert (nx s1 = <[b := nx s HEAD]> (nx s) ∧ pv s1 = <[b := HEAD]> (pv s) ∧ sl s1 = sl s) as (Hn & Hp & Hsl).
  { subst s1. destruct (upd_slot b (set_block_lock (mkSl false 0)) (upd b (set_prev HEAD) (upd b (set_next (next (bufs s HEAD))) s)))
      as (-> & -> & ->); [by intros ? ? []|].
    rewrite !nx_set_prev, !nx_set_next, !pv_set_prev, !pv_set_next, sl_set_prev, sl_set_next.
    split_and!; [done..|]. apply fn_insert_same. by rewrite Hz. }
  assert (disk s1 = disk s ∧ written s1 = written s ∧ curpid s1 = curpid s ∧ havedisk1 s1 = havedisk1 s) as
    (Hd & Hw & Hc & Hhd) by done.
  clearbody s1. apply wp_bind, wp_bget_field. change (next (bufs s1 HEAD)) with (nx s1 HEAD).
  apply wp_bind, wp_bset. apply wp_bset.
  eapply (IH (b :: dn)).
  - simpl. rewrite Permutation_middle. done.
  - clear -Hh. set_solver.
  - rewrite nx_set_next, nx_set_prev, pv_set_next, pv_set_prev, Hn, Hp.
    rewrite (fn_lookup_insert_ne _ b HEAD) by set_solver. by apply seg_push.
  - rewrite sl_set_next, sl_set_prev, Hsl. done.
  - intros s' Hs' H1 H2 H3 H4 H5.
    apply HQ; [|done|rewrite H2; exact Hd|rewrite H3; exact Hw|rewrite H4; exact Hc|rewrite H5; exact Hhd].
    simpl. by rewrite <- app_assoc.
Qed.

Lemma wp_binit todo s (Q : () → bst → Prop) : NoDup todo → HEAD ∉ todo → sl s = (λ _, zero_buf) →
  (∀ s', seg (nx s') (pv s') HEAD (rev todo) HEAD → sl s' = (λ _, zero_buf) → disk s' = disk s →
     written s' = written s → curpid s' = curpid s → havedisk1 s' = havedisk1 s → Q () s') →
  wp (bset HEAD (set_prev HEAD) ;; bset HEAD (set_next HEAD) ;; mfor todo binit_one) Q s.
Proof.
  intros Hnd Hh Hz HQ. apply wp_bind, wp_bset, wp_bind, wp_bset. apply (wp_binit_loop todo []); [done|done| | |].
  - simpl. rewrite nx_set_next, pv_set_next, pv_set_prev. by rewrite !fn_lookup_insert.
  - by rewrite sl_set_next, sl_set_prev.
  - intros s' Hs' Hz' ????. rewrite app_nil_r in Hs'. by apply HQ.
Qed.
Lemma binit_spec dk me : ∃ s, binit (boot dk me) = Ret () s ∧ ordered s (rev slots) ∧
  sl s = (λ _, zero_buf) ∧ disk s = dk ∧ written s = [] ∧ curpid s = me ∧ havedisk1 s = true.
Proof.
  assert (wp binit (λ _ s, ordered s (rev slots) ∧ sl s = (λ _, zero_buf) ∧ disk s = dk ∧ written s = [] ∧
    curpid s = me ∧ havedisk1 s = true) (boot dk me)) as Hw.
  { apply (wp_binit slots); [apply NoDup_seq| |done|].
    - intros Hi. apply elem_slots in Hi. unfold HEAD in Hi. lia.
    - intros s' ? ? ? ? ? ?. split_and!; try done. split; [|done]. symmetry. apply Permutation_rev. }
  destruct (proj1 (wp_returns _ _ _) Hw) as ([] & s & Hm & Hq). exists s. exact (conj Hm Hq).
Qed.
#[local] Opaque binit.

Lemma zero_ok dk me : slots_ok (λ _, zero_buf) dk me.
Proof. split; [intros; left; split_and!; [done|by intros [?|?]|done|done]|]. by intros i j k _ _ [[?|?] _]. Qed.

Lemma cached_zero k : cached (λ _, zero_buf) k = None.
Proof.
  destruct (cached (λ _, zero_buf) k) as [i|] eqn:Hc; [|reflexivity].
  destruct (cached_Some _ _ _ Hc) as [_ [Hb _]]. by destruct Hb.
Qed.

Lemma boot_inv dk me : ∃ s, binit (boot dk me) = Ret () s ∧ cache_inv s ∧ ordered s (rev slots) ∧
  sl s = (λ _, zero_buf) ∧ disk s = dk ∧ curpid s = me.
Proof.
  destruct (binit_spec dk me) as (s & Hm & Ho & Hz & Hd & Hw & Hc & Hhd). exists s.
  split; [exact Hm|]. split; [|split_and!; done].
  split; [rewrite Hz; apply zero_ok|split; [exact Hhd|by exists (rev slots)]].
Qed.

(** ** Clients that read and write whole blocks *)
Inductive cmd := Get (k : blkid) | Put (k : blkid) (d : blockdata).
Definition cmd_block (c : cmd) : blkid := match c with Get k => k | Put k _ => k end.
Definition run_cmd (c : cmd) : M bst (option blockdata) :=
  match c with
  | Get k => h ← bread k.1 k.2; d ← bget_field h data; brelse h ;; mret (Some d)
  | Put k d => h ← bread k.1 k.2; bset h (set_data d) ;; bwrite h ;; brelse h ;; mret None
  end.
Fixpoint run_cmds (cs : list cmd) : M bst (list (option blockdata)) :=
  match cs with
  | [] => mret []
  | c :: cs => o ← run_cmd c; os ← run_cmds cs; mret (o :: os)
  end.
(** The same commands on a plain map from blocks to contents. *)
Definition spec_cmd (c : cmd) (m : blkid → blockdata) : option blockdata * (blkid → blockdata) :=
  match c with Get k => (Some (m k), m) | Put k d => (None, <[k := d]> m) end.
Fixpoint spec_cmds (cs : list cmd) (m : blkid → blockdata) : list (option blockdata) * (blkid → blockdata) :=
  match cs with
  | [] => ([], m)
  | c :: cs =>
      let '(o, m) := spec_cmd c m in
      let '(os, m) := spec_cmds cs m in
      (o :: os, m)
  end.

(** Between commands nothing is locked and nothing is pinned. *)
Definition idle (m : blkid → blockdata) (s : bst) : Prop :=
  cache_inv s ∧ hld s = ∅ ∧ pins s = ∅ ∧ vw s = m ∧ dsk s = m.

Lemma run_cmd_ok c m s : idle m s → is_dev (cmd_block c).1 → 0 <= (cmd_block c).2 < FSSIZE →
  ∃ s', run_cmd c s = Ret (spec_cmd c m).1 s' ∧ idle (spec_cmd c m).2 s'.
Proof.
  intros (Hi & Hh & Hp & Hv & Hd) Hdev Hb.
  destruct (bread_law s (cmd_block c).1 (cmd_block c).2) as (h & s1 & Hm1 & Hi1 & Hv1 & Hd1 & _ & Hp1 & Hh1 & Ha1 & _);
    [done..|by rewrite Hh|rewrite Hp, Hh, !(right_id_L ∅ (∪)), size_singleton; unfold NBUF; lia|].
  rewrite <- surjective_pairing in Hh1, Ha1. pose proof (at_data _ _ _ Hi1 Ha1) as Hdat.
  destruct c as [k|k d]; simpl cmd_block in *; simpl run_cmd.
  - destruct (brelse_law s1 h k) as (s2 & Hm2 & Hi2 & Hv2 & Hd2 & _ & Hp2 & Hh2 & _);
      [done..|right; by rewrite Hv1, Hd1, Hv, Hd|].
    exists s2. split.
    + rewrite (bind_Ret _ _ _ _ _ Hm1). unfold bget_field. unfold mbind, M_bind, gets. simpl in Hm2. rewrite Hm2.
      change (b_data h s1) with (data (bufs s1 h)) in Hdat.
      rewrite Hdat, Hv1, Hv. done.
    + split; [exact Hi2|]. cbn [spec_cmd snd]. split_and!.
      * rewrite Hh2, Hh1, Hh. clear. set_solver.
      * by rewrite Hp2, Hp1, Hp.
      * by rewrite Hv2, Hv1, Hv.
      * by rewrite Hd2, Hd1, Hd.
  - destruct (b_set_data_law s1 h k d) as (s2 & Hm2 & Hi2 & Hv2 & Hd2 & _ & Hp2 & Hh2 & Ha2); [done..|].
    destruct (bwrite_law s2 h k) as (s3 & Hm3 & Hi3 & Hv3 & Hd3 & _ & Hp3 & Hh3 & Ha3); [done|by apply Ha2|].
    destruct (brelse_law s3 h k) as (s4 & Hm4 & Hi4 & Hv4 & Hd4 & _ & Hp4 & Hh4 & _);
      [done|by apply Ha3, Ha2|right; by rewrite Hv3, Hd3, fn_lookup_insert|].
    exists s4. split.
    + rewrite (bind_Ret _ _ _ _ _ Hm1). rewrite (bind_Ret _ _ _ _ _ Hm2). rewrite (bind_Ret _ _ _ _ _ Hm3).
      by rewrite (bind_Ret _ _ _ _ _ Hm4).
    + split; [exact Hi4|]. cbn [spec_cmd snd]. split_and!.
      * rewrite Hh4, Hh3, Hh2, Hh1, Hh. clear. set_solver.
      * rewrite Hp4, Hp3, Hp2, Hp1, Hp. clear. set_solver.
      * by rewrite Hv4, Hv3, Hv2, Hv1, Hv.
      * by rewrite Hd4, Hd3, Hv2, Hd2, Hd1, Hd, fn_lookup_insert.
Qed.
Lemma run_cmds_ok cs m s : idle m s → Forall (λ c, is_dev (cmd_block c).1 ∧ 0 <= (cmd_block c).2 < FSSIZE) cs →
  ∃ s', run_cmds cs s = Ret (spec_cmds cs m).1 s' ∧ idle (spec_cmds cs m).2 s'.
Proof.
  intros Hi Hcs. revert m s Hi. induction Hcs as [|c cs [Hd Hb] _ IH]; intros m s Hi; [by exists s|].
  destruct (run_cmd_ok c m s Hi Hd Hb) as (s1 & Hm1 & Hi1).
  simpl. destruct (spec_cmd c m) as [o m1]. destruct (IH m1 s1 Hi1) as (s2 & Hm2 & Hi2).
  destruct (spec_cmds cs m1) as [os m2]. exists s2. split; [|done].
  rewrite (bind_Ret _ _ _ _ _ Hm1). by rewrite (bind_Ret _ _ _ _ _ Hm2).
Qed.

(** C23: the buffer cache refines a plain map of blocks: from boot, any sequence of
    whole-block reads and writes of the two devices runs to its end without a panic,
    every read returns what the map holds (the block's last write, or what the device's
    drive held), and at the end each drive holds what the map says of its device. *)
Theorem cache_refines_store dk me cs : 
  Forall (λ c, is_dev (cmd_block c).1 ∧ 0 <= (cmd_block c).2 < FSSIZE) cs →
  ∃ s s', binit (boot dk me) = Ret () s ∧ run_cmds cs s = Ret (spec_cmds cs (by_dev dk)).1 s' ∧
    by_dev (disk s') = (spec_cmds cs (by_dev dk)).2.
Proof.
  intros Hcs. destruct (boot_inv dk me) as (s & Hm & Hi & _ & Hz & Hd & _).
  assert (idle (by_dev dk) s) as Hidle.
  { assert (ldisk s = by_dev dk) as Hld by (unfold ldisk; by rewrite Hd).
    assert (vw s = by_dev dk) as Hv.
    { simpl. rewrite Hz, Hld. apply functional_extensionality. intros k. unfold view.
      by rewrite cached_zero. }
    split; [exact Hi|]. split_and!; [| |done|done]; simpl; rewrite Hz; apply elem_of_equiv_empty_L; intros k;
      rewrite elem_keys; intros (i & _ & Hx & _); discriminate Hx. }
  destruct (run_cmds_ok cs (by_dev dk) s Hidle Hcs) as (s' & Hr & _ & _ & _ & _ & Hd').
  exists s, s'. exact (conj Hm (conj Hr Hd')).
Qed.
(** Block 5 of one drive is written; block 5 of the other is what it was. *)
Lemma cache_refines_store_witness :
  let dk := λ k : blkid, λ _ : Z, k.1 in
  let cs := [Put (1, 5) (λ _, 7); Get (1, 6); Get (2, 5); Get (1, 5)] in
  ∃ s s', binit (boot dk 1) = Ret () s ∧
    run_cmds cs s = Ret [None; Some (λ _, 1); Some (λ _, 0); Some (λ _, 7)] s' ∧
    by_dev (disk s') = <[(1, 5) := λ _, 7]> (by_dev dk).
Proof.
  apply (cache_refines_store (λ k _, k.1) 1 [Put (1, 5) (λ _, 7); Get (1, 6); Get (2, 5); Get (1, 5)]).
  repeat constructor; done.
Defined.

Lemma last_filter_split {A} (f : A → bool) (l : list A) h :
  last (filter (λ i, f i) l) = Some h →
  f h = true ∧ ∃ l1 l2, l = l1 ++ h :: l2 ∧ ∀ i, i ∈ l2 → f i = false.
Proof.
  induction l as [|a l IH] using rev_ind; [done|]. rewrite filter_app, filter_cons, filter_nil.
  case_decide as Ha.
  - rewrite last_snoc. intros [= ->]. split; [by apply Is_true_true|]. exists l, []. split; [done|]. set_solver.
  - rewrite app_nil_r. intros (Hh & l1 & l2 & -> & Hl2)%IH. split; [done|]. exists l1, (l2 ++ [a]).
    rewrite <- app_assoc. split; [done|]. intros i [?| ->%list_elem_of_singleton]%elem_of_app; [auto|].
    destruct (f a); naive_solver.
Qed.

(** Replacement is least recently used: when the block is not locked by anyone,
    [bread] returns the buffer that caches it, or else the last buffer of the list
    (the least recently released one) that is neither referenced nor dirty, locked
    and with the block's current contents in it, leaving the order of the list; it
    panics exactly when the block is not cached and every buffer is in use. *)
Theorem bread_lru s l dev b :
  cache_inv s → ordered s l → is_dev dev → 0 <= b < FSSIZE → (dev, b) ∉ hld s →
  (∃ h s', bread dev b s = Ret h s' ∧ ordered s' l ∧ locked (bufs s' h) = true ∧
     cached (sl s') (dev, b) = Some h ∧ data (bufs s' h) = vw s (dev, b) ∧
     (cached (sl s) (dev, b) = Some h ∨
      cached (sl s) (dev, b) = None ∧ is_free (bufs s h) = true ∧
      ∃ l1 l2, l = l1 ++ h :: l2 ∧ ∀ i, i ∈ l2 → is_free (bufs s i) = false)) ∨
  (bread dev b s = Panic "bget: no buffers" ∧ cached (sl s) (dev, b) = None ∧
     ∀ i, i ∈ l → is_free (bufs s i) = false).
Proof.
  intros [Hok [Hdisk1 Hl]] Ho Hd Hb Hh. pose proof (bread_cases s l dev b Hok Ho Hdisk1 Hd Hb Hh) as Hc.
  destruct (cached (sl s) (dev, b)) as [h|] eqn:Eh; [left|destruct (victim s l) as [h|] eqn:Ev; [left|right]].
  - destruct Hc as (s' & Hm & Hs). exists h, s'. pose proof (same_ordered _ _ _ _ Hs Ho).
    apply cached_Some in Eh as Hx. destruct Hx as [Hlt [Hbd Hk]]. destruct (same_logical _ _ _ Hs) as (Hsl & _).
    split_and!; [done..| | | |by left].
    + change (locked (sl s' h) = true). by rewrite Hsl, fn_lookup_insert.
    + by rewrite Hsl, cached_put.
    + change (data (sl s' h) = vw s (dev, b)). rewrite Hsl, fn_lookup_insert. simpl. unfold view. by rewrite Eh.
  - destruct Hc as (s' & Hm & Hs). exists h, s'. pose proof (same_ordered _ _ _ _ Hs Ho).
    destruct (victim_Some s l h Ho Ev) as [Hlt Hf]. destruct (same_logical _ _ _ Hs) as (Hsl & _).
    split_and!; [done..| | | |right; split_and!; [done|exact Hf|by apply last_filter_split in Ev as [_ ?]]].
    + change (locked (sl s' h) = true). by rewrite Hsl, fn_lookup_insert.
    + rewrite Hsl. eapply (cached_is _ (ldisk s) (curpid s)); [by apply recycle_ok|done|]. by rewrite fn_lookup_insert.
    + change (data (sl s' h) = vw s (dev, b)). rewrite Hsl, fn_lookup_insert. simpl. unfold view. by rewrite Eh.
  - split_and!; [done..|]. intros i Hi. change (is_free (sl s i) = false).
    destruct (is_free (sl s i)) eqn:Ef; [|done]. exfalso. apply last_None in Ev.
    assert (i ∈ filter (λ i, is_free (sl s i)) l) as Hin; [|rewrite Ev in Hin; set_solver].
    apply list_elem_of_filter. by rewrite Ef.
Qed.
Lemma zero_in_order : O ∈ rev slots.
Proof. rewrite <- (Permutation_rev slots). apply elem_slots. unfold NBUF. lia. Qed.
Lemma bread_lru_witness : ∃ s h s', cache_inv s ∧ bread 1 7 s = Ret h s' ∧ data (bufs s' h) = λ _, 3.
Proof.
  destruct (boot_inv (λ _ _, 3) 1) as (s & _ & Hi & Ho & Hz & Hd & _).
  destruct (bread_lru s (rev slots) 1 7) as [(h & s' & Hm & _ & _ & _ & Hdat & _)|(_ & _ & Hf)];
    [done|done|by left|done|simpl; rewrite Hz; by vm_compute|exists s, h, s'|exfalso].
  - split_and!; [done..|]. rewrite Hdat. simpl. unfold view. unfold ldisk. rewrite Hz, Hd. by vm_compute.
  - specialize (Hf O). change (is_free (bufs s 0%nat)) with (is_free (sl s 0%nat)) in Hf. rewrite Hz in Hf.
    discriminate Hf. apply zero_in_order.
Defined.

(** Releasing a buffer moves it to the front of the list, unlocked and
    unreferenced, and changes nothing else of the order; releasing (or writing) a
    buffer that the process has not locked panics. *)
Theorem brelse_mru s l1 h l2 :
  cache_inv s → ordered s (l1 ++ h :: l2) →
  if locked (bufs s h)
  then ∃ s', brelse h s = Ret () s' ∧ ordered s' (h :: l1 ++ l2) ∧ locked (bufs s' h) = false ∧
         refcnt (bufs s' h) = 0 ∧ ∀ k, cached (sl s') k = cached (sl s) k
  else brelse h s = Panic "brelse" ∧ bwrite h s = Panic "bwrite".
Proof.
  intros [Hok _] Ho. change (locked (bufs s h)) with (locked (sl s h)).
  assert (h < NBUF)%nat as Hlt.
  { apply elem_slots. destruct Ho as [<- _]. set_solver. }
  destruct (locked (sl s h)) eqn:Hl.
  - destruct (held_slot _ _ _ _ Hok Hlt Hl) as (_ & Hb & _ & Hrc & Hp).
    destruct (brelse_steps s l1 h l2) as (s' & Hm & Ho' & Hsl & _); [done..|]. exists s'.
    change (locked (bufs s' h)) with (locked (sl s' h)). change (refcnt (bufs s' h)) with (refcnt (sl s' h)).
    rewrite Hsl, fn_lookup_insert. split_and!; [done..|]. intros k. by apply cached_put.
  - change (sl_locked (block_lock (bufs s h)) = false) in Hl.
    unfold brelse, bwrite, holdingsleep, bget_field, mbind, M_bind, gets, mret, M_ret. by rewrite Hl.
Qed.
Lemma brelse_mru_witness : ∃ s, cache_inv s ∧ brelse 0%nat s = Panic "brelse" ∧ bwrite 0%nat s = Panic "bwrite".
Proof.
  destruct (boot_inv (λ _ _, 3) 1) as (s & _ & Hi & Ho & Hz & _). exists s. split; [done|].
  assert (O ∈ rev slots) as (l1 & l2 & E)%list_elem_of_split.
  { apply zero_in_order. }
  rewrite E in Ho. pose proof (brelse_mru s l1 0%nat l2 Hi Ho) as Hb.
  change (locked (bufs s 0%nat)) with (locked (sl s 0%nat)) in Hb. by rewrite Hz in Hb.
Defined.
