(* ===== verification/Log.v ===== *)
(** * The redo log (src/07_xv6_File_System/PartA/log.c)

    Written against the block layer's interface: the log's code is generic in the
    cache it runs on, and its theorems use only the laws of [BufferCacheLaws].

    [log] is [struct log] together with the cache below it; log.lock only makes a
    function body atomic, a sleep on the log blocks.  The section [Crash] studies
    the disk between any two block writes. *)

From S2P Require Import Prelude Bio Blocks.
From Stdlib Require Import FunctionalExtensionality.

Definition MAXOPBLOCKS : Z := 10.

(** [struct superblock], as [readsb] of fs.c copies it from block 1. *)
Record superblock := mkSb {
  sb_size : Z;
  sb_nblocks : Z;
  sb_ninodes : Z;
  sb_nlog : Z;
  sb_logstart : Z;
  sb_inodestart : Z;
  sb_bmapstart : Z;
}.
Definition sb_of (b : blockdata) : superblock :=
  mkSb (get32 b 0) (get32 b 4) (get32 b 8) (get32 b 12) (get32 b 16) (get32 b 20) (get32 b 24).

(** [struct log], and below it the cache. *)
Record log (S : Type) := mkLog {
  start : Z;
  lsize : Z;  (* size *)
  outstanding : Z;
  committing : bool;
  ldev : Z;  (* dev *)
  lh_n : Z;  (* lh.n *)
  lh_block : Z → Z;  (* lh.block *)
  bc : S;  (* the buffer cache *)
}.
Arguments mkLog {S} _ _ _ _ _ _ _ _.
Arguments start {S} _.
Arguments lsize {S} _.
Arguments outstanding {S} _.
Arguments committing {S} _.
Arguments ldev {S} _.
Arguments lh_n {S} _.
Arguments lh_block {S} _.
Arguments bc {S} _.
Definition set_start {S} (x : Z) (r : log S) : log S :=
  mkLog x (lsize r) (outstanding r) (committing r) (ldev r) (lh_n r) (lh_block r) (bc r).
Definition set_lsize {S} (x : Z) (r : log S) : log S :=
  mkLog (start r) x (outstanding r) (committing r) (ldev r) (lh_n r) (lh_block r) (bc r).
Definition set_outstanding {S} (x : Z) (r : log S) : log S :=
  mkLog (start r) (lsize r) x (committing r) (ldev r) (lh_n r) (lh_block r) (bc r).
Definition set_committing {S} (x : bool) (r : log S) : log S :=
  mkLog (start r) (lsize r) (outstanding r) x (ldev r) (lh_n r) (lh_block r) (bc r).
Definition set_ldev {S} (x : Z) (r : log S) : log S :=
  mkLog (start r) (lsize r) (outstanding r) (committing r) x (lh_n r) (lh_block r) (bc r).
Definition set_lh_n {S} (x : Z) (r : log S) : log S :=
  mkLog (start r) (lsize r) (outstanding r) (committing r) (ldev r) x (lh_block r) (bc r).
Definition set_lh_block {S} (x : Z → Z) (r : log S) : log S :=
  mkLog (start r) (lsize r) (outstanding r) (committing r) (ldev r) (lh_n r) x (bc r).
Definition set_bc {S} (x : S) (r : log S) : log S :=
  mkLog (start r) (lsize r) (outstanding r) (committing r) (ldev r) (lh_n r) (lh_block r) x.

Section code.
Context {S : Type} `{BufferCache S}.

Definition on_bc {A} (m : M S A) : M (log S) A := zoom bc set_bc m.

Definition readsb (dev : Z) : M S superblock :=
  bp ← bread dev 1;
  d ← gets (b_data bp);
  brelse bp ;;
  mret (sb_of d).

Definition install_one (tail : Z) : M (log S) () :=
  dev ← gets ldev;
  st ← gets start;
  lbuf ← on_bc (bread dev (u32 (st + tail + 1)));
  bl ← gets lh_block;
  dbuf ← on_bc (bread dev (u32 (bl tail)));
  d ← on_bc (gets (b_data lbuf));
  on_bc (b_set_data dbuf d) ;;
  on_bc (bwrite dbuf) ;;
  on_bc (brelse lbuf) ;;
  on_bc (brelse dbuf).
Definition install_trans : M (log S) () :=
  n ← gets lh_n;
  mfor (seqZ 0 n) install_one.

(** The header's [n] and [block] array lie at the start of the header block; the
    in-memory array has [LOGSIZE] entries. *)
Definition read_head : M (log S) () :=
  dev ← gets ldev;
  st ← gets start;
  buf ← on_bc (bread dev (u32 st));
  lh ← on_bc (gets (b_data buf));
  modify (set_lh_n (s32 (get32 lh 0))) ;;
  n ← gets lh_n;
  mfor (seqZ 0 n) (λ i,
    if LOGSIZE <=? i then fault "log.lh.block index out of bounds"
    else modify (λ s, set_lh_block (<[i := s32 (get32 lh (4 + 4 * i))]> (lh_block s)) s)) ;;
  on_bc (brelse buf).

Definition write_head : M (log S) () :=
  dev ← gets ldev;
  st ← gets start;
  buf ← on_bc (bread dev (u32 st));
  n ← gets lh_n;
  hb ← on_bc (gets (b_data buf));
  on_bc (b_set_data buf (put32 hb 0 (u32 n))) ;;
  mfor (seqZ 0 n) (λ i,
    if LOGSIZE <=? i then fault "log.lh.block index out of bounds"
    else
      bl ← gets lh_block;
      hb ← on_bc (gets (b_data buf));
      on_bc (b_set_data buf (put32 hb (4 + 4 * i) (u32 (bl i))))) ;;
  on_bc (bwrite buf) ;;
  on_bc (brelse buf).

Definition recover_from_log : M (log S) () :=
  read_head ;;
  install_trans ;;
  modify (set_lh_n 0) ;;
  write_head.

(** [sizeof(struct logheader)] is [4 + 4 * LOGSIZE]. *)
Definition initlog (dev : Z) : M (log S) () :=
  when (BSIZE <=? 4 + 4 * LOGSIZE) (panic "initlog: too big logheader") ;;
  sb ← on_bc (readsb dev);
  modify (set_start (s32 (sb_logstart sb))) ;;
  modify (set_lsize (s32 (sb_nlog sb))) ;;
  modify (set_ldev dev) ;;
  recover_from_log.

Definition begin_op : M (log S) () :=
  c ← gets committing;
  n ← gets lh_n;
  o ← gets outstanding;
  if (c : bool) then block
  else if LOGSIZE <? n + (o + 1) * MAXOPBLOCKS then block
  else modify (set_outstanding (o + 1)).

Definition write_one (tail : Z) : M (log S) () :=
  dev ← gets ldev;
  st ← gets start;
  to ← on_bc (bread dev (u32 (st + tail + 1)));
  bl ← gets lh_block;
  from ← on_bc (bread dev (u32 (bl tail)));
  d ← on_bc (gets (b_data from));
  on_bc (b_set_data to d) ;;
  on_bc (bwrite to) ;;
  on_bc (brelse from) ;;
  on_bc (brelse to).
Definition write_log : M (log S) () :=
  n ← gets lh_n;
  mfor (seqZ 0 n) write_one.

Definition commit : M (log S) () :=
  n ← gets lh_n;
  when (0 <? n) (
    write_log ;;
    write_head ;;
    install_trans ;;
    modify (set_lh_n 0) ;;
    write_head).

(** [end_op]: whether the processes that sleep on the log are woken is left to the
    scheduler; what remains is the count and the commit of the last one. *)
Definition end_op : M (log S) () :=
  o ← gets outstanding;
  modify (set_outstanding (o - 1)) ;;
  c ← gets committing;
  when c (panic "log.committing") ;;
  when (o - 1 =? 0) (
    modify (set_committing true) ;;
    commit ;;
    modify (set_committing false)).

(** The search for an absorbed block: [i] after the loop. *)
Definition absorb (no n : Z) (bl : Z → Z) : Z :=
  match find (λ i, u32 (bl i) =? no) (seqZ 0 n) with Some i => i | None => n end.

Definition log_write (b : nat) : M (log S) () :=
  n ← gets lh_n;
  sz ← gets lsize;
  when ((LOGSIZE <=? n) || (sz - 1 <=? n)) (panic "too big a transaction") ;;
  o ← gets outstanding;
  when (o <? 1) (panic "log_write outside of trans") ;;
  bl ← gets lh_block;
  no ← on_bc (gets (b_no b));
  let i := absorb no n bl in
  modify (set_lh_block (<[i := s32 no]> bl)) ;;
  when (i =? n) (modify (set_lh_n (n + 1))) ;;
  on_bc (b_set_dirty b).
End code.

(** * Theory over the laws of the cache *)

(** A disk, or a view, after some block writes. *)
Definition apply_writes (ws : list (blkid * blockdata)) (d : blkid → blockdata) : blkid → blockdata :=
  foldl (λ d w, <[w.1 := w.2]> d) d ws.

Lemma apply_writes_app ws ws' d : apply_writes (ws ++ ws') d = apply_writes ws' (apply_writes ws d).
Proof. apply foldl_app. Qed.
Lemma apply_writes_ne ws d k : k ∉ ws.*1 → apply_writes ws d k = d k.
Proof.
  revert d. induction ws as [|w ws IH]; intros d Hk; simpl; [done|].
  rewrite IH by set_solver. rewrite fn_lookup_insert_ne; [done|]. set_solver.
Qed.
(** The last write to a block decides. *)
Lemma apply_writes_in ws d d' k : k ∈ ws.*1 → apply_writes ws d k = apply_writes ws d' k.
Proof.
  revert d d'. induction ws as [|w ws IH]; intros d d' Hk; simpl in *; [set_solver|].
  destruct (decide (k ∈ ws.*1)) as [Hi|Hi]; [by apply IH|].
  rewrite !apply_writes_ne by done. apply elem_of_cons in Hk as [->|]; [|done]. by rewrite !fn_lookup_insert.
Qed.
Lemma apply_writes_at l (t : Z → blkid) (c : Z → blockdata) d i :
  i ∈ l → (∀ j, j ∈ l → t j = t i → c j = c i) → apply_writes ((λ j, (t j, c j)) <$> l) d (t i) = c i.
Proof.
  induction l as [|j l IH] using rev_ind; [set_solver|]. intros Hi Hc. rewrite fmap_app, apply_writes_app. simpl.
  destruct (decide (t j = t i)) as [E|E].
  - rewrite E, fn_lookup_insert. apply Hc; set_solver.
  - rewrite fn_lookup_insert_ne by done. apply IH; [set_solver|]. intros. apply Hc; set_solver.
Qed.

Section theory.
Context {S : Type} `{BufferCacheLaws S}.
Implicit Types c : S.
Implicit Types s : log S.

Lemma on_bc_Ret {A} (m : M S A) s (a : A) c' : m (bc s) = Ret a c' → on_bc m s = Ret a (set_bc c' s).
Proof. intros Hm. unfold on_bc, zoom. by rewrite Hm. Qed.
Lemma wp_on_bc {A} (m : M S A) (Q : A → log S → Prop) s a c' :
  m (bc s) = Ret a c' → Q a (set_bc c' s) → wp (on_bc m) Q s.
Proof. intros Hm HQ. eapply wp_intro; [by apply on_bc_Ret|done]. Qed.
Lemma wp_on_gets {A} (f : S → A) (Q : A → log S → Prop) s : Q (f (bc s)) s → wp (on_bc (gets f)) Q s.
Proof. intros HQ. unfold wp, on_bc, zoom, gets. by destruct s. Qed.

(** Between the steps of the log: nothing is locked, and only the blocks of [P] are
    pinned. *)
Record quiet (P : gset blkid) (c : S) : Prop := {
  q_inv : binv c;
  q_hld : hld c = ∅;
  q_pins : pins c ⊆ P;
}.
(** [c'] is [c] after the contents [d] of a block were written to block [t]. *)
Record wrote1 (t : blkid) (d : blockdata) (c c' : S) : Prop := {
  w1_inv : binv c';
  w1_hld : hld c' = hld c;
  w1_vw : vw c' = <[t := d]> (vw c);
  w1_dsk : dsk c' = <[t := d]> (dsk c);
  w1_wr : wr c' = wr c ++ [(t, d)];
  w1_pins : pins c' = pins c ∖ {[t]};
}.
Definition on_disk (k : blkid) : Prop := is_dev k.1 ∧ 0 <= k.2 < FSSIZE.

(** One turn of the loops of [write_log] and [install_trans]: two blocks are read,
    the contents of one are put into the other, which is written; both are released,
    in either order. *)
Lemma two_reads P c k1 k2 : quiet P c → on_disk k1 → on_disk k2 → k1 ≠ k2 →
  (size ({[k1; k2]} ∪ P) ≤ NBUF)%nat →
  ∃ h1 h2 c1 c2, bread k1.1 k1.2 c = Ret h1 c1 ∧ bread k2.1 k2.2 c1 = Ret h2 c2 ∧ binv c2 ∧
    vw c2 = vw c ∧ dsk c2 = dsk c ∧ wr c2 = wr c ∧ pins c2 = pins c ∧ hld c2 = {[k1; k2]} ∧
    at_ c2 h1 k1 ∧ at_ c2 h2 k2.
Proof.
  intros [Hi Hh Hp] [Hd1 Hr1] [Hd2 Hr2] Hne Hsz. rewrite (surjective_pairing k1), (surjective_pairing k2) in *.
  destruct (bread_law c k1.1 k1.2) as (h1 & c1 & Hm1 & Hi1 & Hv1 & Hk1 & Hw1 & Hp1 & Hh1 & Ha1 & _); [done..|set_solver| |].
  { etrans; [|exact Hsz]. apply subseteq_size. rewrite Hh. clear -Hp. set_solver. }
  destruct (bread_law c1 k2.1 k2.2) as (h2 & c2 & Hm2 & Hi2 & Hv2 & Hk2 & Hw2 & Hp2 & Hh2 & Ha2 & Hpre);
    [done..|rewrite Hh1, Hh; set_solver| |].
  { etrans; [|exact Hsz]. apply subseteq_size. rewrite Hp1, Hh1, Hh. clear -Hp. set_solver. }
  exists h1, h2, c1, c2. split_and!; try done; try congruence; [|by apply Hpre].
  rewrite Hh2, Hh1, Hh. clear. set_solver.
Qed.

Lemma put_write c h t d : binv c → at_ c h t →
  ∃ c1 c2, b_set_data h d c = Ret () c1 ∧ bwrite h c1 = Ret () c2 ∧ wrote1 t d c c2 ∧ vw c2 t = dsk c2 t ∧
    ∀ h' k', at_ c h' k' → at_ c2 h' k'.
Proof.
  intros Hi Ha. destruct (b_set_data_law c h t d) as (c1 & Hm1 & Hi1 & Hv1 & Hd1 & Hw1 & Hp1 & Hh1 & Ha1); [done..|].
  destruct (bwrite_law c1 h t) as (c2 & Hm2 & Hi2 & Hv2 & Hd2 & Hw2 & Hp2 & Hh2 & Ha2); [done|by apply Ha1|].
  rewrite Hv1, fn_lookup_insert in Hd2, Hw2. exists c1, c2. split_and!; try done.
  - split; try done; congruence.
  - by rewrite Hv2, Hd2, Hv1, !fn_lookup_insert.
  - auto.
Qed.

Lemma release c h k : binv c → at_ c h k → (k ∈ pins c ∨ vw c k = dsk c k) →
  ∃ c', brelse h c = Ret () c' ∧ binv c' ∧ vw c' = vw c ∧ dsk c' = dsk c ∧ wr c' = wr c ∧ pins c' = pins c ∧
    hld c' = hld c ∖ {[k]} ∧ ∀ h' k', k' ≠ k → at_ c h' k' → at_ c' h' k'.
Proof. apply brelse_law. Qed.

Definition lblk s (i : Z) : blkid := (ldev s, u32 (start s + i + 1)).
Definition hblk s (i : Z) : blkid := (ldev s, u32 (lh_block s i)).
Definition hdrblk s : blkid := (ldev s, u32 (start s)).

Lemma set_bc_eta s : set_bc (bc s) s = s.
Proof. by destruct s. Qed.

(** Both loop bodies copy one block to another. *)
Definition copies (body : M (log S) ()) (t f : blkid) s : Prop :=
  ∃ c', body s = Ret () (set_bc c' s) ∧ wrote1 t (vw (bc s) f) (bc s) c'.

Ltac log_step :=
  lazymatch goal with
  | |- wp (mbind _ _) _ _ => apply wp_bind
  | |- wp (gets _) _ _ => apply wp_gets
  | |- wp (on_bc (gets _)) _ _ => apply wp_on_gets
  | |- wp (mret _) _ _ => apply wp_mret
  | |- wp (modify _) _ _ => apply wp_modify
  | Hm : ?m (bc ?s) = Ret _ _ |- wp (on_bc ?m) _ ?s => eapply wp_on_bc; [exact Hm|]
  | Hm : ?m ?c = Ret _ _ |- wp (on_bc ?m) _ (set_bc ?c _) => eapply wp_on_bc; [exact Hm|]
  end.
Ltac log_steps := repeat (log_step; cbn beta; cbn [bc set_bc]).

Lemma copies_intro (body : M (log S) ()) t f s :
  wp body (λ _ s', ∃ c', s' = set_bc c' s ∧ wrote1 t (vw (bc s) f) (bc s) c') s → copies body t f s.
Proof. intros ([] & s' & Hm & c' & -> & Hw)%wp_returns. by exists c'. Qed.

Lemma write_one_copies P s i : quiet P (bc s) → on_disk (lblk s i) → on_disk (hblk s i) → lblk s i ≠ hblk s i →
  (size ({[lblk s i; hblk s i]} ∪ P) ≤ NBUF)%nat → copies (write_one i) (lblk s i) (hblk s i) s.
Proof.
  intros Hq H1 H2 Hne Hsz.
  destruct (two_reads P (bc s) _ _ Hq H1 H2 Hne Hsz) as (h1 & h2 & c1 & c2 & Hm1 & Hm2 & Hi2 & Hv & Hd & Hw & Hp & Hh & Ha1 & Ha2).
  destruct (put_write c2 h1 _ (vw (bc s) (hblk s i)) Hi2 Ha1) as (c3 & c4 & Hm3 & Hm4 & [Hi4 Hh4 Hv4 Hd4 Hw4 Hp4] & Hc4 & Ha4).
  assert (hblk s i ∈ pins c4 ∨ vw c4 (hblk s i) = dsk c4 (hblk s i)) as Hcl.
  { rewrite Hp4, Hv4, Hd4, Hp, Hv, Hd. rewrite !fn_lookup_insert_ne by congruence.
    destruct (decide (hblk s i ∈ pins (bc s))); [left; set_solver|right].
    apply vw_disk; [apply Hq|done|]. destruct Hq as [_ -> _]. set_solver. }
  destruct (release c4 h2 _ Hi4 (Ha4 _ _ Ha2) Hcl) as (c5 & Hm5 & Hi5 & Hv5 & Hd5 & Hw5 & Hp5 & Hh5 & Ha5).
  destruct (release c5 h1 (lblk s i) Hi5) as (c6 & Hm6 & Hi6 & Hv6 & Hd6 & Hw6 & Hp6 & Hh6 & _);
    [by apply Ha5; [|apply Ha4]|right; congruence|].
  pose proof (at_data _ _ _ Hi2 Ha2) as Hdat. rewrite Hv in Hdat. rewrite <- Hdat in Hm3.
  apply copies_intro. unfold write_one. log_steps. exists c6. split; [by destruct s|].
  split; try congruence. rewrite Hh6, Hh5, Hh4, Hh. destruct Hq as [_ -> _]. set_solver.
Qed.

Lemma install_one_copies P s i : quiet P (bc s) → on_disk (lblk s i) → on_disk (hblk s i) → lblk s i ≠ hblk s i →
  (size ({[lblk s i; hblk s i]} ∪ P) ≤ NBUF)%nat → copies (install_one i) (hblk s i) (lblk s i) s.
Proof.
  intros Hq H1 H2 Hne Hsz.
  destruct (two_reads P (bc s) _ _ Hq H1 H2 Hne Hsz) as (h1 & h2 & c1 & c2 & Hm1 & Hm2 & Hi2 & Hv & Hd & Hw & Hp & Hh & Ha1 & Ha2).
  destruct (put_write c2 h2 _ (vw (bc s) (lblk s i)) Hi2 Ha2) as (c3 & c4 & Hm3 & Hm4 & [Hi4 Hh4 Hv4 Hd4 Hw4 Hp4] & Hc4 & Ha4).
  assert (lblk s i ∈ pins c4 ∨ vw c4 (lblk s i) = dsk c4 (lblk s i)) as Hcl.
  { rewrite Hp4, Hv4, Hd4, Hp, Hv, Hd. rewrite !fn_lookup_insert_ne by congruence.
    destruct (decide (lblk s i ∈ pins (bc s))); [left; set_solver|right].
    apply vw_disk; [apply Hq|done|]. destruct Hq as [_ -> _]. set_solver. }
  destruct (release c4 h1 _ Hi4 (Ha4 _ _ Ha1) Hcl) as (c5 & Hm5 & Hi5 & Hv5 & Hd5 & Hw5 & Hp5 & Hh5 & Ha5).
  destruct (release c5 h2 (hblk s i) Hi5) as (c6 & Hm6 & Hi6 & Hv6 & Hd6 & Hw6 & Hp6 & Hh6 & _);
    [by apply Ha5; [|apply Ha4]|right; congruence|].
  pose proof (at_data _ _ _ Hi2 Ha1) as Hdat. rewrite Hv in Hdat. rewrite <- Hdat in Hm3.
  apply copies_intro. unfold install_one. log_steps. exists c6. split; [by destruct s|].
  split; try congruence. rewrite Hh6, Hh5, Hh4, Hh. destruct Hq as [_ -> _]. set_solver.
Qed.

(** A loop of copies whose targets are never sources. *)
Lemma copy_loop_at (body : Z → M (log S) ()) (t f : Z → blkid) P l s c :
  (∀ i c, i ∈ l → quiet P c → copies (body i) (t i) (f i) (set_bc c s)) →
  (∀ i j, i ∈ l → j ∈ l → t i ≠ f j) → quiet P c →
  let tr := (λ i, (t i, vw c (f i))) <$> l in
  ∃ c', mfor l body (set_bc c s) = Ret () (set_bc c' s) ∧ quiet P c' ∧ vw c' = apply_writes tr (vw c) ∧
    dsk c' = apply_writes tr (dsk c) ∧ wr c' = wr c ++ tr ∧ pins c' = pins c ∖ list_to_set (t <$> l).
Proof.
  intros Hb Hne Hq tr. subst tr. revert c Hq. induction l as [|i l IH]; intros c Hq; simpl.
  - exists c. split; [done|]. split; [done|]. split_and!; [done|done|by rewrite app_nil_r|set_solver].
  - destruct (Hb i c) as (c1 & Hm & [Hi1 Hh1 Hv1 Hd1 Hw1 Hp1]); [set_solver|done|]. cbn [bc set_bc] in *.
    destruct (IH) with (c := c1) as (c2 & Hm2 & Hq2 & Hv2 & Hd2 & Hw2 & Hp2).
    { intros j c' Hj. apply Hb. set_solver. }
    { intros j k Hj Hk. apply Hne; set_solver. }
    { destruct Hq as [Hi Hh Hp]. split; [done|congruence|]. rewrite Hp1. set_solver. }
    assert ((λ j, (t j, vw c1 (f j))) <$> l = (λ j, (t j, vw c (f j))) <$> l) as E.
    { apply list_fmap_ext. intros k j Hj%list_elem_of_lookup_2. f_equal. rewrite Hv1, fn_lookup_insert_ne; [done|].
      apply Hne; set_solver. }
    rewrite E in *. exists c2. split; [rewrite (bind_Ret _ _ _ _ _ Hm); exact Hm2|]. split; [exact Hq2|]. split_and!.
    + by rewrite Hv2, Hv1.
    + by rewrite Hd2, Hd1.
    + rewrite Hw2, Hw1, <- app_assoc. done.
    + rewrite Hp2, Hp1. set_solver.
Qed.
Lemma copy_loop (body : Z → M (log S) ()) (t f : Z → blkid) P l s :
  (∀ i c, i ∈ l → quiet P c → copies (body i) (t i) (f i) (set_bc c s)) →
  (∀ i j, i ∈ l → j ∈ l → t i ≠ f j) → quiet P (bc s) →
  let tr := (λ i, (t i, vw (bc s) (f i))) <$> l in
  ∃ c', mfor l body s = Ret () (set_bc c' s) ∧ quiet P c' ∧ vw c' = apply_writes tr (vw (bc s)) ∧
    dsk c' = apply_writes tr (dsk (bc s)) ∧ wr c' = wr (bc s) ++ tr ∧
    pins c' = pins (bc s) ∖ list_to_set (t <$> l).
Proof. intros Hb Hne Hq. pose proof (copy_loop_at body t f P l s (bc s) Hb Hne Hq) as Hc. by rewrite set_bc_eta in Hc. Qed.

(** ** The header block *)
Definition hdr_block (b : blockdata) (n : Z) (bl : Z → Z) : blockdata :=
  foldl (λ b i, put32 b (4 + 4 * i) (u32 (bl i))) (put32 b 0 (u32 n)) (seqZ 0 n).

Lemma hdr_fold b l bl j : (∀ i, i ∈ l → 0 <= i) → j <= 0 →
  get32 (foldl (λ b i, put32 b (4 + 4 * i) (u32 (bl i))) b l) j = get32 b j.
Proof.
  intros Hl Hj. revert b. induction l as [|i l IH]; intros b; simpl; [done|].
  rewrite IH by set_solver. apply get32_put32_ne. specialize (Hl i ltac:(set_solver)). lia.
Qed.
Lemma hdr_block_n b n bl : get32 (hdr_block b n bl) 0 = u32 n.
Proof.
  unfold hdr_block. rewrite hdr_fold; [|intros i Hi%elem_of_seqZ; lia|lia]. apply get32_put32, u32_range.
Qed.
Lemma hdr_fold_at b l bl i : (∀ j, j ∈ l → 0 <= j) → i ∈ l → NoDup l →
  get32 (foldl (λ b i, put32 b (4 + 4 * i) (u32 (bl i))) b l) (4 + 4 * i) = u32 (bl i).
Proof.
  intros Hl Hi Hnd. revert b. induction l as [|j l IH] using rev_ind; intros b; [set_solver|].
  rewrite foldl_snoc. apply NoDup_app in Hnd as (? & Hd & _).
  destruct (decide (i = j)) as [->|Hne]; [apply get32_put32, u32_range|].
  rewrite get32_put32_ne by lia. apply IH; set_solver.
Qed.
Lemma hdr_block_at b n bl i : 0 <= i < n → get32 (hdr_block b n bl) (4 + 4 * i) = u32 (bl i).
Proof.
  intros Hi. unfold hdr_block. apply hdr_fold_at; [intros j Hj%elem_of_seqZ; lia|apply elem_of_seqZ; lia|apply NoDup_seqZ].
Qed.

Lemma write_head_spec P s : quiet P (bc s) → on_disk (hdrblk s) → (size ({[hdrblk s]} ∪ P) ≤ NBUF)%nat →
  lh_n s <= LOGSIZE →
  ∃ c', write_head s = Ret () (set_bc c' s) ∧
    wrote1 (hdrblk s) (hdr_block (vw (bc s) (hdrblk s)) (lh_n s) (lh_block s)) (bc s) c'.
Proof.
  intros [Hi Hh Hp] [Hd1 Hr1] Hsz Hn.
  destruct (bread_law (bc s) (ldev s) (u32 (start s))) as (h & c1 & Hm1 & Hi1 & Hv1 & Hk1 & Hw1 & Hp1 & Hh1 & Ha1 & _);
    [done..|rewrite Hh; set_solver| |].
  { etrans; [|exact Hsz]. apply subseteq_size. rewrite Hh. fold (hdrblk s). clear -Hp. set_solver. }
  fold (hdrblk s) in *. rewrite Hh in Hh1.
  pose (I := λ (b : blockdata) c, binv c ∧ at_ c h (hdrblk s) ∧ vw c = <[hdrblk s := b]> (vw (bc s)) ∧ dsk c = dsk (bc s) ∧
     wr c = wr (bc s) ∧ pins c = pins (bc s) ∧ hld c = {[hdrblk s]}).
  assert (∀ b b' c, I b c → ∃ c', b_data h c = b ∧ b_set_data h b' c = Ret () c' ∧ I b' c') as Hset.
  { intros b b' c (Hic & Hac & Hvc & Hdc & Hwc & Hpc & Hhc).
    destruct (b_set_data_law c h (hdrblk s) b') as (c' & Hm & ? & Hv & ? & ? & ? & ? & Ha); [done..|].
    exists c'. split; [by rewrite (at_data _ _ _ Hic Hac), Hvc, fn_lookup_insert|]. split; [done|].
    split; [done|]. split_and!; [by apply Ha| |congruence..]. by rewrite Hv, Hvc, fn_insert_insert. }
  assert (I (vw (bc s) (hdrblk s)) c1) as HI1.
  { split; [done|]. split_and!; [done| |done..|by rewrite Hh1, (right_id_L ∅ (∪))].
    rewrite Hv1. symmetry. by apply fn_insert_same. }
  destruct (Hset _ (put32 (vw (bc s) (hdrblk s)) 0 (u32 (lh_n s))) c1 HI1) as (c2 & Hdat & Hm2 & HI2).
  enough (wp write_head (λ _ s', ∃ c', s' = set_bc c' s ∧
    wrote1 (hdrblk s) (hdr_block (vw (bc s) (hdrblk s)) (lh_n s) (lh_block s)) (bc s) c') s) as
    ([] & s' & Hm & c' & -> & Hw)%wp_returns by (by exists c').
  unfold write_head. log_steps. rewrite Hdat. log_steps.
  apply (wp_mono _ (λ _ s', ∃ c, s' = set_bc c s ∧ I (hdr_block (vw (bc s) (hdrblk s)) (lh_n s) (lh_block s)) c)).
  - change (lh_n (set_bc c1 s)) with (lh_n s).
    assert (∀ i, i ∈ seqZ 0 (lh_n s) → i < LOGSIZE) as Hlt by (intros i Hi'%elem_of_seqZ; lia).
    unfold hdr_block. revert HI2. generalize (put32 (vw (bc s) (hdrblk s)) 0 (u32 (lh_n s))). clear Hm2.
    change (set_bc c2 (set_bc c1 s)) with (set_bc c2 s). revert c2 Hlt.
    induction (seqZ 0 (lh_n s)) as [|i l IH]; intros c2 Hlt b HI2; simpl; [by exists c2|].
    apply wp_bind. rewrite (proj2 (Z.leb_gt _ _)) by (apply Hlt; set_solver).
    destruct (Hset b (put32 b (4 + 4 * i) (u32 (lh_block s i))) c2 HI2) as (c3 & Hdat3 & Hm3 & HI3).
    log_steps. rewrite Hdat3. log_steps. apply IH; [set_solver|done].
  - intros [] s' (c3 & -> & Hic & Hac & Hvc & Hdc & Hwc & Hpc & Hhc). cbn beta.
    destruct (bwrite_law c3 h (hdrblk s)) as (c4 & Hm4 & Hi4 & Hv4 & Hd4 & Hw4 & Hp4 & Hh4 & Ha4); [done..|].
    destruct (release c4 h (hdrblk s)) as (c5 & Hm5 & Hi5 & Hv5 & Hd5 & Hw5 & Hp5 & Hh5 & _);
      [done|by apply Ha4|right; by rewrite Hd4, fn_lookup_insert, Hv4|].
    rewrite Hvc, fn_lookup_insert in Hd4, Hw4.
    log_steps. exists c5. split; [by destruct s|]. split; try congruence.
    rewrite Hh5, Hh4, Hhc, Hh. clear. set_solver.
Qed.

Lemma size_union_le (X Y : gset blkid) : (size (X ∪ Y) ≤ size X + size Y)%nat.
Proof.
  rewrite (union_difference_L X (X ∪ Y)) at 1 by set_solver. rewrite size_union by set_solver.
  apply Nat.add_le_mono_l, subseteq_size. set_solver.
Qed.

(** ** The invariant between two calls *)
Definition lblocks s : gset blkid := list_to_set (hblk s <$> seqZ 0 (lh_n s)).
Definition in_log s (k : blkid) : Prop := k.1 = ldev s ∧ start s <= k.2 < start s + lsize s.
Record geometry s : Prop := {
  g_dev : is_dev (ldev s);
  g_start : 2 <= start s;
  g_size : 1 <= lsize s <= LOGSIZE;
  g_end : start s + lsize s <= FSSIZE;
}.
Record log_inv s : Prop := {
  li_b : binv (bc s);
  li_geo : geometry s;
  li_n : 0 <= lh_n s <= lsize s - 1;
  li_home : ∀ i, 0 <= i < lh_n s → 0 <= lh_block s i < FSSIZE ∧ ¬ in_log s (hblk s i);
  li_nodup : ∀ i j, 0 <= i < lh_n s → 0 <= j < lh_n s → lh_block s i = lh_block s j → i = j;
  li_pins : pins (bc s) = lblocks s;
  li_clear : get32 (dsk (bc s) (hdrblk s)) 0 = 0;
}.

Lemma lblk_is s i : geometry s → 0 <= i < lsize s - 1 → lblk s i = (ldev s, start s + i + 1).
Proof. intros [] Hi. unfold lblk, FSSIZE, LOGSIZE in *. f_equal. apply u32_small. lia. Qed.
Lemma hdrblk_is s : geometry s → hdrblk s = (ldev s, start s).
Proof. intros []. unfold hdrblk, FSSIZE, LOGSIZE in *. f_equal. apply u32_small. lia. Qed.
Lemma lblk_log s i : geometry s → 0 <= i < lsize s - 1 → in_log s (lblk s i) ∧ on_disk (lblk s i) ∧ lblk s i ≠ hdrblk s.
Proof.
  intros Hg Hi. rewrite lblk_is, hdrblk_is by done. destruct Hg. unfold in_log, on_disk. simpl.
  split_and!; try done; try lia. intros [=]. lia.
Qed.
Lemma hdrblk_log s : geometry s → in_log s (hdrblk s) ∧ on_disk (hdrblk s).
Proof. intros Hg. rewrite hdrblk_is by done. destruct Hg. unfold in_log, on_disk. simpl. split_and!; try done; lia. Qed.
Lemma elem_lblocks s k : k ∈ lblocks s ↔ ∃ i, 0 <= i < lh_n s ∧ k = hblk s i.
Proof.
  unfold lblocks. rewrite elem_of_list_to_set, list_elem_of_fmap. split.
  - intros (i & -> & Hi%elem_of_seqZ). exists i. split; [lia|done].
  - intros (i & Hi & ->). exists i. split; [done|]. apply elem_of_seqZ. lia.
Qed.
Lemma lblocks_size s : 0 <= lh_n s → (size (lblocks s) ≤ Z.to_nat (lh_n s))%nat.
Proof.
  intros Hn. unfold lblocks. pose proof (length_seqZ 0 (lh_n s)) as Hl.
  rewrite <- Hl. clear Hl. induction (seqZ 0 (lh_n s)) as [|i l IH]; [done|].
  cbn [fmap list_fmap list_to_set length]. etrans; [apply size_union_le|]. rewrite size_singleton. lia.
Qed.
(** The pinned blocks leave one buffer of the cache: this is why [NBUF] buffers
    suffice for a log of [LOGSIZE] blocks. *)
Lemma room s k : geometry s → 0 <= lh_n s <= lsize s - 1 → (size ({[k]} ∪ lblocks s) ≤ NBUF)%nat.
Proof.
  intros Hg Hn. pose proof (lblocks_size s ltac:(lia)). destruct Hg. unfold LOGSIZE, NBUF in *.
  etrans; [apply size_union_le|]. rewrite size_singleton. lia.
Qed.

Lemma log_home s i : log_inv s → 0 <= i < lh_n s → on_disk (hblk s i) ∧ ¬ in_log s (hblk s i) ∧ hblk s i = (ldev s, lh_block s i).
Proof.
  intros Hi Hlt. destruct (li_home s Hi i Hlt) as [Hr Hl]. destruct (li_geo s Hi) as [? ? ? ?].
  assert (hblk s i = (ldev s, lh_block s i)) as E.
  { unfold hblk, FSSIZE in *. f_equal. apply u32_small. lia. }
  split; [rewrite E; split; [done|exact Hr]|]. by split.
Qed.

(** ** [commit] *)
Definition tlog s : list (blkid * blockdata) := (λ i, (lblk s i, vw (bc s) (hblk s i))) <$> seqZ 0 (lh_n s).
Definition tinst s : list (blkid * blockdata) := (λ i, (hblk s i, vw (bc s) (hblk s i))) <$> seqZ 0 (lh_n s).
Definition hdr_full s : blockdata := hdr_block (vw (bc s) (hdrblk s)) (lh_n s) (lh_block s).
Definition hdr_clear s : blockdata := put32 (hdr_full s) 0 0.
(** The disk writes of a commit, in order. *)
Definition trace s : list (blkid * blockdata) :=
  if 0 <? lh_n s then tlog s ++ (hdrblk s, hdr_full s) :: tinst s ++ [(hdrblk s, hdr_clear s)] else [].

Lemma write_log_spec s : log_inv s → hld (bc s) = ∅ →
  ∃ c', write_log s = Ret () (set_bc c' s) ∧ quiet (lblocks s) c' ∧ vw c' = apply_writes (tlog s) (vw (bc s)) ∧
    dsk c' = apply_writes (tlog s) (dsk (bc s)) ∧ wr c' = wr (bc s) ++ tlog s ∧ pins c' = lblocks s.
Proof.
  intros Hi Hh. pose proof (li_geo s Hi) as Hg. pose proof (li_n s Hi) as Hn.
  destruct (copy_loop write_one (lblk s) (hblk s) (lblocks s) (seqZ 0 (lh_n s)) s) as
    (c' & Hm & Hq & Hv & Hd & Hw & Hp).
  - intros i c Hlt%elem_of_seqZ Hq. destruct (lblk_log s i Hg) as (Hl & Hod & _); [lia|].
    destruct (log_home s i Hi) as (Hod' & Hl' & _); [lia|].
    apply (write_one_copies (lblocks s) (set_bc c s)); [done..| |].
    { intros E. change (lblk s i = hblk s i) in E. apply Hl'. by rewrite <- E. }
    etrans; [|by apply (room s (lblk s i))]. apply subseteq_size.
    assert (hblk s i ∈ lblocks s) by (apply elem_lblocks; exists i; split; [lia|done]). set_solver.
  - intros i j Hlt%elem_of_seqZ Hlt'%elem_of_seqZ. destruct (lblk_log s i Hg) as (Hl & _); [lia|].
    destruct (log_home s j Hi) as (_ & Hl' & _); [lia|]. intros E. apply Hl'. by rewrite <- E.
  - split; [apply Hi|done|]. by rewrite (li_pins s Hi).
  - exists c'. split; [exact Hm|]. split; [done|]. split_and!; [done..|]. rewrite Hp, (li_pins s Hi).
    assert (list_to_set (lblk s <$> seqZ 0 (lh_n s)) ## lblocks s) as Hdis; [|set_solver].
    intros k Hk (j & Hj & ->)%elem_lblocks. apply elem_of_list_to_set, list_elem_of_fmap in Hk as (i & E & Hlt%elem_of_seqZ).
    destruct (lblk_log s i Hg) as (Hl & _); [lia|]. destruct (log_home s j Hi) as (_ & Hl' & _); [lia|].
    apply Hl'. by rewrite E.
Qed.

Lemma install_spec P s : quiet P (bc s) → geometry s → 0 <= lh_n s <= lsize s - 1 →
  (∀ i, 0 <= i < lh_n s → on_disk (hblk s i) ∧ ¬ in_log s (hblk s i)) →
  (∀ i, 0 <= i < lh_n s → (size ({[lblk s i; hblk s i]} ∪ P) ≤ NBUF)%nat) →
  let tr := (λ i, (hblk s i, vw (bc s) (lblk s i))) <$> seqZ 0 (lh_n s) in
  ∃ c', install_trans s = Ret () (set_bc c' s) ∧ quiet P c' ∧ vw c' = apply_writes tr (vw (bc s)) ∧
    dsk c' = apply_writes tr (dsk (bc s)) ∧ wr c' = wr (bc s) ++ tr ∧ pins c' = pins (bc s) ∖ lblocks s.
Proof.
  intros Hq Hg Hn Hhome Hsz tr. apply copy_loop; [| |done].
  - intros i c Hlt%elem_of_seqZ Hqc. destruct (lblk_log s i Hg) as (Hl & Hod & _); [lia|].
    destruct (Hhome i) as (Hod' & Hl'); [lia|].
    apply (install_one_copies P (set_bc c s)); [done..| |apply Hsz; lia].
    intros E. change (lblk s i = hblk s i) in E. apply Hl'. by rewrite <- E.
  - intros i j Hlt%elem_of_seqZ Hlt'%elem_of_seqZ. destruct (lblk_log s j Hg) as (Hl & _); [lia|].
    destruct (Hhome i) as (_ & Hl'); [lia|]. intros E. apply Hl'. by rewrite E.
Qed.

(** A trace that writes to each block the contents [V] has there. *)
Lemma apply_writes_view ws (V d : blkid → blockdata) k :
  Forall (λ w, w.2 = V w.1) ws → apply_writes ws d k = if decide (k ∈ ws.*1) then V k else d k.
Proof.
  intros Hws. case_decide as Hk; [|by apply apply_writes_ne].
  revert d. induction Hws as [|w ws Hw Hws IH]; intros d; simpl in *; [set_solver|].
  destruct (decide (k ∈ ws.*1)) as [Hi|Hi]; [by apply IH|]. rewrite apply_writes_ne by done.
  apply elem_of_cons in Hk as [->|]; [|done]. by rewrite fn_lookup_insert, Hw.
Qed.
Lemma tinst_view s : Forall (λ w, w.2 = vw (bc s) w.1) (tinst s).
Proof. apply Forall_fmap, Forall_true. done. Qed.
Lemma tinst_blocks s k : k ∈ (tinst s).*1 ↔ k ∈ lblocks s.
Proof.
  unfold tinst. rewrite <- list_fmap_compose. rewrite list_elem_of_fmap, elem_lblocks. split.
  - intros (i & -> & Hi%elem_of_seqZ). exists i. split; [lia|done].
  - intros (i & Hi & ->). exists i. split; [done|]. apply elem_of_seqZ. lia.
Qed.
Lemma tlog_blocks s k : log_inv s → k ∈ (tlog s).*1 → in_log s k ∧ k ≠ hdrblk s.
Proof.
  intros Hi. unfold tlog. rewrite <- list_fmap_compose. intros (i & -> & Hlt%elem_of_seqZ)%list_elem_of_fmap.
  simpl. destruct (lblk_log s i (li_geo s Hi)) as (? & _ & ?); [pose proof (li_n s Hi); lia|]. done.
Qed.
Lemma lblocks_home s k : log_inv s → k ∈ lblocks s → ¬ in_log s k ∧ on_disk k.
Proof. intros Hi (i & Hlt & ->)%elem_lblocks. by destruct (log_home s i Hi Hlt) as (? & ? & _). Qed.
(** What the log block of an index holds once the log is written. *)
Lemma tlog_at s d i : log_inv s → 0 <= i < lh_n s → apply_writes (tlog s) d (lblk s i) = vw (bc s) (hblk s i).
Proof.
  intros Hi Hlt. unfold tlog. apply (apply_writes_at _ (lblk s) (λ i, vw (bc s) (hblk s i))).
  - apply elem_of_seqZ. lia.
  - intros j Hj%elem_of_seqZ. pose proof (li_n s Hi). rewrite !lblk_is by (apply Hi || lia).
    intros [=]. do 2 f_equal. lia.
Qed.
Lemma unlogged_clean s k : log_inv s → hld (bc s) = ∅ → k ∉ lblocks s → vw (bc s) k = dsk (bc s) k.
Proof. intros Hi Hh Hk. apply vw_disk; [apply Hi|by rewrite (li_pins s Hi)|rewrite Hh; set_solver]. Qed.

Lemma commit_spec s : log_inv s → hld (bc s) = ∅ →
  ∃ c', commit s = Ret () (set_lh_n 0 (set_bc c' s)) ∧ wr c' = wr (bc s) ++ trace s ∧
    dsk c' = apply_writes (trace s) (dsk (bc s)) ∧ binv c' ∧ hld c' = ∅ ∧ pins c' = ∅ ∧
    ∀ k, ¬ in_log s k → vw c' k = vw (bc s) k.
Proof.
  intros Hi Hh. pose proof (li_geo s Hi) as Hg. pose proof (li_n s Hi) as Hn.
  destruct (hdrblk_log s Hg) as [Hhl Hhd]. unfold trace.
  change (commit s) with (when (0 <? lh_n s) (write_log ;; write_head ;; install_trans ;;
    modify (set_lh_n 0) ;; write_head) s).
  destruct (Z.ltb_spec 0 (lh_n s)) as [Hpos|Hz]; cbn [when].
  2: { exists (bc s). split_and!; try done; [|by rewrite app_nil_r|apply Hi|].
    - unfold mret, M_ret. rewrite set_bc_eta. assert (lh_n s = 0) as E by lia.
      f_equal. rewrite <- E. by destruct s.
    - rewrite (li_pins s Hi). unfold lblocks. rewrite seqZ_nil by lia. done. }
  destruct (write_log_spec s Hi Hh) as (c1 & Hm1 & Hq1 & Hv1 & Hd1 & Hw1 & Hp1).
  destruct (write_head_spec (lblocks s) (set_bc c1 s)) as (c2 & Hm2 & [Hi2 Hh2 Hv2 Hd2 Hw2 Hp2]); [done|done|by apply room|
    destruct Hg; change (lh_n (set_bc c1 s)) with (lh_n s); lia|].
  cbn [bc set_bc] in *.
  assert (vw c1 (hdrblk s) = vw (bc s) (hdrblk s)) as Ehdr.
  { rewrite Hv1. apply apply_writes_ne. intros Hk. by apply (tlog_blocks s _ Hi) in Hk as [_ ?]. }
  change (hdrblk (set_bc c1 s)) with (hdrblk s) in *. rewrite Ehdr in *.
  change (hdr_block (vw (bc s) (hdrblk s)) (lh_n (set_bc c1 s)) (lh_block (set_bc c1 s))) with (hdr_full s) in *.
  assert (hdrblk s ∉ lblocks s) as Hhn by (intros Hk; by apply (lblocks_home s) in Hk as [? _]).
  assert (pins c2 = lblocks s) as Hp2' by (rewrite Hp2, Hp1; clear -Hhn; set_solver).
  destruct (install_spec (lblocks s) (set_bc c2 s)) as (c3 & Hm3 & Hq3 & Hv3 & Hd3 & Hw3 & Hp3); [|by destruct Hg|done| | |].
  { split; cbn [bc set_bc]; [done|by rewrite Hh2; apply Hq1|by rewrite Hp2']. }
  { intros i Hlt. by destruct (log_home s i Hi Hlt) as (? & ? & _). }
  { intros i Hlt. etrans; [|by apply (room s (lblk s i))]. apply subseteq_size.
    assert (hblk s i ∈ lblocks s) by (apply elem_lblocks; eauto).
    change (lblk (set_bc c2 s) i) with (lblk s i). change (hblk (set_bc c2 s) i) with (hblk s i). set_solver. }
  cbn [bc set_bc] in *.
  assert ((λ i, (hblk (set_bc c2 s) i, vw c2 (lblk (set_bc c2 s) i))) <$> seqZ 0 (lh_n (set_bc c2 s)) = tinst s) as Etr.
  { apply list_fmap_ext. intros j i Hlt%list_elem_of_lookup_2%elem_of_seqZ. simpl in Hlt. f_equal.
    destruct (lblk_log s i Hg) as (_ & _ & Hne); [lia|]. change (lblk (set_bc c2 s) i) with (lblk s i).
    rewrite Hv2, fn_lookup_insert_ne, Hv1 by done. apply tlog_at; [done|lia]. }
  rewrite Etr in *. change (lblocks (set_bc c2 s)) with (lblocks s) in *.
  assert (pins c3 = ∅) as Hp3' by (rewrite Hp3, Hp2'; clear; set_solver).
  destruct (write_head_spec ∅ (set_lh_n 0 (set_bc c3 s))) as (c4 & Hm4 & [Hi4 Hh4 Hv4 Hd4 Hw4 Hp4]); [|done| |done|].
  { split; cbn [bc set_bc set_lh_n]; [apply Hq3|apply Hq3|by rewrite Hp3']. }
  { rewrite (right_id_L ∅ (∪)), size_singleton. unfold NBUF. lia. }
  cbn [bc set_bc set_lh_n] in *. change (hdrblk (set_lh_n 0 (set_bc c3 s))) with (hdrblk s) in *.
  assert (vw c3 (hdrblk s) = hdr_full s) as Ehdr3.
  { rewrite Hv3, apply_writes_ne, Hv2, fn_lookup_insert; [done|]. by rewrite tinst_blocks. }
  rewrite Ehdr3 in *.
  change (hdr_block (hdr_full s) (lh_n (set_lh_n 0 (set_bc c3 s))) (lh_block (set_lh_n 0 (set_bc c3 s)))) with (hdr_clear s) in *.
  exists c4. split.
  { rewrite (bind_Ret _ _ _ _ _ Hm1). rewrite (bind_Ret _ _ _ _ _ Hm2). rewrite (bind_Ret _ _ _ _ _ Hm3). exact Hm4. }
  split_and!.
  - rewrite Hw4, Hw3, Hw2, Hw1. by rewrite <- !app_assoc.
  - rewrite Hd4, Hd3, Hd2, Hd1. by rewrite apply_writes_app; simpl; rewrite apply_writes_app.
  - done.
  - rewrite Hh4. apply Hq3.
  - rewrite Hp4, Hp3'. set_solver.
  - intros k Hk. assert (k ≠ hdrblk s) as Hkh by (intros ->; done).
    rewrite Hv4, fn_lookup_insert_ne, Hv3 by done. rewrite (apply_writes_view _ (vw (bc s))) by apply tinst_view.
    case_decide; [done|]. rewrite Hv2, fn_lookup_insert_ne, Hv1 by done. apply apply_writes_ne.
    intros Hin. by apply (tlog_blocks s _ Hi) in Hin as [? _].
Qed.

Lemma commit_inv s c' : log_inv s → binv c' → hld c' = ∅ → pins c' = ∅ →
  dsk c' = apply_writes (trace s) (dsk (bc s)) → log_inv (set_lh_n 0 (set_bc c' s)).
Proof.
  intros Hi Hb Hh Hp Hd. pose proof (li_geo s Hi) as Hg. pose proof (li_n s Hi). split; cbn.
  - done.
  - by destruct Hg.
  - destruct Hg. lia.
  - intros; lia.
  - intros; lia.
  - rewrite Hp. unfold lblocks. by rewrite seqZ_nil.
  - change (hdrblk (set_lh_n 0 (set_bc c' s))) with (hdrblk s). rewrite Hd. unfold trace.
    destruct (Z.ltb_spec 0 (lh_n s)); [|exact (li_clear s Hi)].
    rewrite app_comm_cons, app_assoc, apply_writes_app. simpl. rewrite fn_lookup_insert.
    unfold hdr_clear. by apply get32_put32.
Qed.

(** ** Recovery *)

(** The disk that recovery makes of a disk: the blocks of a committed transaction
    copied to their homes. *)
Definition hdr_n (h : blockdata) : Z := s32 (get32 h 0).
Definition hdr_addr (h : blockdata) (i : Z) : Z := s32 (get32 h (4 + 4 * i)).
Definition replay s (d : blkid → blockdata) : blkid → blockdata :=
  let h := d (hdrblk s) in
  apply_writes ((λ i, ((ldev s, u32 (hdr_addr h i)), d (lblk s i))) <$> seqZ 0 (hdr_n h)) d.
(** The header names at most as many blocks as the log has, none of them in the log. *)
Definition header_ok s (h : blockdata) : Prop :=
  0 <= hdr_n h <= lsize s - 1 ∧
  ∀ i, 0 <= i < hdr_n h → on_disk (ldev s, u32 (hdr_addr h i)) ∧ ¬ in_log s (ldev s, u32 (hdr_addr h i)).

Lemma read_head_spec s : quiet ∅ (bc s) → geometry s → header_ok s (dsk (bc s) (hdrblk s)) →
  let h := dsk (bc s) (hdrblk s) in
  ∃ c' bl, read_head s = Ret () (set_lh_block bl (set_lh_n (hdr_n h) (set_bc c' s))) ∧
    (∀ i, 0 <= i < hdr_n h → bl i = hdr_addr h i) ∧ quiet ∅ c' ∧ vw c' = vw (bc s) ∧ dsk c' = dsk (bc s) ∧
    wr c' = wr (bc s).
Proof.
  intros [Hi Hh Hp] Hg [Hn _] h. fold h in Hn. destruct (hdrblk_log s Hg) as [_ [Hdd Hdr]].
  assert (pins (bc s) = ∅) as Hp' by set_solver.
  assert (vw (bc s) (hdrblk s) = h) as Ehdr by (apply vw_disk; [done|set_solver..]).
  destruct (bread_law (bc s) (ldev s) (u32 (start s))) as (b & c1 & Hm1 & Hi1 & Hv1 & Hk1 & Hw1 & Hp1 & Hh1 & Ha1 & _);
    [done..|rewrite Hh; set_solver| |].
  { rewrite Hp', Hh, !(right_id_L ∅ (∪)), size_singleton. unfold NBUF. lia. }
  fold (hdrblk s) in *. pose proof (at_data _ _ _ Hi1 Ha1) as Hdat. rewrite Hv1, Ehdr in Hdat.
  destruct (release c1 b (hdrblk s) Hi1 Ha1) as (c2 & Hm2 & Hi2 & Hv2 & Hd2 & Hw2 & Hp2 & Hh2 & _).
  { right. by rewrite Hv1, Hk1, Ehdr. }
  assert (quiet ∅ c2) as Hq2.
  { split; [done| |by rewrite Hp2, Hp1, Hp']. rewrite Hh2, Hh1, Hh. clear. set_solver. }
  enough (wp read_head (λ _ s', ∃ bl, s' = set_lh_block bl (set_lh_n (hdr_n h) (set_bc c2 s)) ∧
    ∀ i, 0 <= i < hdr_n h → bl i = hdr_addr h i) s) as ([] & s' & Hm & bl & -> & Hbl)%wp_returns.
  { exists c2, bl. split; [exact Hm|]. split; [done|]. split; [done|]. split_and!; congruence. }
  unfold read_head. log_steps. rewrite Hdat. fold (hdr_n h).
  change (lh_n (set_lh_n (hdr_n h) (set_bc c1 s))) with (hdr_n h).
  eapply (wp_mono _ (λ _ s', ∃ bl, s' = set_lh_block bl (set_lh_n (hdr_n h) (set_bc c1 s)) ∧
    ∀ i, i ∈ seqZ 0 (hdr_n h) → bl i = hdr_addr h i)).
  - assert (∀ i, i ∈ seqZ 0 (hdr_n h) → i < LOGSIZE) as Hlt.
    { intros i Hi'%elem_of_seqZ. destruct Hg. lia. }
    enough (∀ dn l bl, (∀ i, i ∈ l → i < LOGSIZE) → (∀ i, i ∈ dn → bl i = hdr_addr h i) →
      wp (mfor l (λ i, if LOGSIZE <=? i then fault "log.lh.block index out of bounds"
           else modify (λ s, set_lh_block (<[i := hdr_addr h i]> (lh_block s)) s)))
        (λ _ s', ∃ bl, s' = set_lh_block bl (set_lh_n (hdr_n h) (set_bc c1 s)) ∧ ∀ i, i ∈ dn ++ l → bl i = hdr_addr h i)
        (set_lh_block bl (set_lh_n (hdr_n h) (set_bc c1 s)))) as Hw.
    { apply (Hw [] _ (lh_block s)); [done|set_solver]. }
    intros dn l. revert dn. induction l as [|i l IH]; intros dn bl Hl Hdn; simpl.
    + exists bl. split; [done|]. rewrite app_nil_r. done.
    + apply wp_bind. rewrite (proj2 (Z.leb_gt _ _)) by (apply Hl; set_solver). apply wp_modify.
      rewrite cons_middle, app_assoc. apply IH; [set_solver|]. simpl. intros j [Hj| ->%list_elem_of_singleton]%elem_of_app.
      * rewrite fn_insert_case. case_decide; [by subst|by apply Hdn].
      * by rewrite fn_lookup_insert.
  - intros [] s' (bl & -> & Hbl). cbn beta.
    eapply (wp_on_bc (brelse b) _ _ () c2); [exact Hm2|]. exists bl. split; [by destruct s|].
    intros i Hlt. apply Hbl, elem_of_seqZ. lia.
Qed.

(** The disk writes of a recovery. *)
Definition rtrace s (d : blkid → blockdata) : list (blkid * blockdata) :=
  let h := d (hdrblk s) in
  ((λ i, ((ldev s, u32 (hdr_addr h i)), d (lblk s i))) <$> seqZ 0 (hdr_n h)) ++ [(hdrblk s, put32 h 0 0)].

Lemma recover_spec s : quiet ∅ (bc s) → geometry s → header_ok s (dsk (bc s) (hdrblk s)) →
  ∃ s', recover_from_log s = Ret () s' ∧ log_inv s' ∧ hld (bc s') = ∅ ∧ lh_n s' = 0 ∧
    wr (bc s') = wr (bc s) ++ rtrace s (dsk (bc s)) ∧
    ∀ k, ¬ in_log s k → dsk (bc s') k = replay s (dsk (bc s)) k ∧ vw (bc s') k = replay s (dsk (bc s)) k.
Proof.
  intros Hq Hg Hok. destruct (read_head_spec s Hq Hg Hok) as (c1 & bl & Hm1 & Hbl & Hq1 & Hv1 & Hd1 & Hw1).
  set (h := dsk (bc s) (hdrblk s)) in *. destruct Hok as [Hn Hhome].
  set (s1 := set_lh_block bl (set_lh_n (hdr_n h) (set_bc c1 s))) in *.
  destruct (install_spec ∅ s1) as (c2 & Hm2 & Hq2 & Hv2 & Hd2 & Hw2 & Hp2); [done|by destruct Hg|done| | |].
  { intros i Hlt. simpl in Hlt. unfold hblk. simpl. rewrite Hbl by done. by apply Hhome. }
  { intros i _. rewrite (right_id_L ∅ (∪)). etrans; [apply size_union_le|]. rewrite !size_singleton. unfold NBUF. lia. }
  assert (vw (bc s) = dsk (bc s)) as Hvd.
  { apply functional_extensionality. intros k. destruct Hq as [? Hh Hp]. apply vw_disk; [done|set_solver..]. }
  set (tr := (λ i, ((ldev s, u32 (hdr_addr h i)), dsk (bc s) (lblk s i))) <$> seqZ 0 (hdr_n h)).
  assert ((λ i, (hblk s1 i, vw (bc s1) (lblk s1 i))) <$> seqZ 0 (lh_n s1) = tr) as Etr.
  { apply list_fmap_ext. intros j i Hlt%list_elem_of_lookup_2%elem_of_seqZ. simpl in Hlt. unfold hblk. simpl.
    rewrite Hbl by lia. rewrite Hv1, Hvd. done. }
  rewrite Etr in *. change (bc s1) with c1 in *. rewrite Hv1, Hvd in Hv2. rewrite Hd1 in Hd2.
  destruct (hdrblk_log s Hg) as [Hhl Hhd].
  destruct (write_head_spec ∅ (set_lh_n 0 (set_bc c2 s1))) as (c3 & Hm3 & [Hi3 Hh3 Hv3 Hd3 Hw3 Hp3]); [done|done| |done|].
  { rewrite (right_id_L ∅ (∪)), size_singleton. unfold NBUF. lia. }
  cbn [bc set_bc set_lh_n] in *. change (hdrblk (set_lh_n 0 (set_bc c2 s1))) with (hdrblk s) in *.
  assert (hdr_block (vw c2 (hdrblk s)) (lh_n (set_lh_n 0 (set_bc c2 s1))) (lh_block (set_lh_n 0 (set_bc c2 s1))) =
    put32 h 0 0) as Eh.
  { transitivity (put32 (vw c2 (hdrblk s)) 0 0); [done|]. f_equal.
    rewrite Hv2. apply apply_writes_ne. subst tr. rewrite <- list_fmap_compose.
    intros (i & E & Hi%elem_of_seqZ)%list_elem_of_fmap. simpl in E.
    destruct (Hhome i) as [_ Hnl]; [lia|]. apply Hnl. by rewrite <- E. }
  exists (set_bc c3 (set_lh_n 0 (set_bc c2 s1))). split_and!; cbn.
  - unfold recover_from_log. rewrite (bind_Ret _ _ _ _ _ Hm1). fold s1. rewrite (bind_Ret _ _ _ _ _ Hm2). exact Hm3.
  - split; cbn; try (intros; lia); [done|by destruct Hg| |].
    + change (lblocks _) with (∅ : gset blkid). rewrite Hp3. destruct Hq2. set_solver.
    + change (hdrblk (set_bc c3 _)) with (hdrblk s). rewrite Hd3, fn_lookup_insert. by rewrite hdr_block_n.
  - rewrite Hh3. apply Hq2.
  - done.
  - rewrite Hw3, Hw2, Hw1, Eh, <- app_assoc. done.
  - intros k Hk. assert (k ≠ hdrblk s) by (by intros ->).
    rewrite Hv3, Hd3, !fn_lookup_insert_ne, Hv2, Hd2 by done. done.
Qed.

(** ** Crashes *)
Lemma prefix_app_cases {A} (w l1 l2 : list A) x : w `prefix_of` l1 ++ x :: l2 →
  w `prefix_of` l1 ∨ ∃ w', w = l1 ++ x :: w' ∧ w' `prefix_of` l2.
Proof.
  intros [r Hr]. destruct (app_eq_inv _ _ _ _ Hr) as [(k & -> & Hk)|(k & -> & Hk)].
  - left. by exists k.
  - destruct k as [|y k]; [left; by rewrite app_nil_r|]. simplify_eq/=. right. exists k. split; [done|]. by exists r.
Qed.
Lemma prefix_keys (w l : list (blkid * blockdata)) k : w `prefix_of` l → k ∈ w.*1 → k ∈ l.*1.
Proof. intros [r ->]. rewrite fmap_app. set_solver. Qed.
Lemma prefix_Forall {A} (P : A → Prop) w l : w `prefix_of` l → Forall P l → Forall P w.
Proof. intros [r ->] [? _]%Forall_app. done. Qed.

Lemma hdr_full_ok s : log_inv s → hdr_n (hdr_full s) = lh_n s ∧
  (∀ i, 0 <= i < lh_n s → u32 (hdr_addr (hdr_full s) i) = u32 (lh_block s i)) ∧ header_ok s (hdr_full s).
Proof.
  intros Hi. pose proof (li_n s Hi) as Hn. destruct (li_geo s Hi) as [? ? ? ?]. unfold FSSIZE, LOGSIZE in *.
  assert (hdr_n (hdr_full s) = lh_n s) as En.
  { unfold hdr_n, hdr_full. rewrite hdr_block_n, u32_small by lia. apply s32_small. lia. }
  assert (∀ i, 0 <= i < lh_n s → u32 (hdr_addr (hdr_full s) i) = u32 (lh_block s i)) as Ea.
  { intros i Hlt. unfold hdr_addr, hdr_full. rewrite hdr_block_at by lia.
    destruct (li_home s Hi i Hlt) as [Hr _]. unfold FSSIZE in Hr. rewrite (u32_small (lh_block s i)) by lia.
    rewrite s32_small by lia. apply u32_small. lia. }
  split_and!; [done..|]. split; rewrite En; [lia|]. intros i Hlt. rewrite Ea by done.
  destruct (log_home s i Hi Hlt) as (? & ? & _). done.
Qed.

(** The disk at any point of a commit: either recovery changes nothing and the home
    blocks are as before, or it makes the home blocks the new ones. *)
Lemma crash_states s w : log_inv s → hld (bc s) = ∅ → w `prefix_of` trace s →
  let d := apply_writes w (dsk (bc s)) in
  header_ok s (d (hdrblk s)) ∧
  ((length w ≤ length (tlog s))%nat ∧ (∀ k, ¬ in_log s k → replay s d k = dsk (bc s) k) ∨
   (length (tlog s) < length w)%nat ∧ ∀ k, ¬ in_log s k → replay s d k = vw (bc s) k).
Proof.
  intros Hi Hh Hw d. pose proof (li_geo s Hi) as Hg. destruct (hdrblk_log s Hg) as [Hhl _].
  assert (∀ h, get32 h 0 = 0 → header_ok s h ∧ ∀ d, d (hdrblk s) = h → replay s d = d) as Hclear.
  { intros h E. assert (hdr_n h = 0) as E' by (unfold hdr_n; by rewrite E).
    split; [split; rewrite E'; [destruct Hg; lia|intros; lia]|].
    intros d' Ed. unfold replay. rewrite Ed, E'. by rewrite seqZ_nil. }
  assert (w = [] → header_ok s (d (hdrblk s)) ∧ ∀ k, ¬ in_log s k → replay s d k = dsk (bc s) k) as Hnil.
  { intros ->. destruct (Hclear _ (li_clear s Hi)) as [? Hr]. split; [done|]. intros k _. by rewrite Hr. }
  unfold trace in Hw. destruct (Z.ltb_spec 0 (lh_n s)) as [Hpos|].
  2: { apply prefix_nil_inv in Hw. destruct (Hnil Hw). split; [done|]. left. subst. split; [simpl; lia|done]. }
  apply prefix_app_cases in Hw as [Hw|(w' & -> & Hw)].
  { assert (d (hdrblk s) = dsk (bc s) (hdrblk s)) as Ed.
    { apply apply_writes_ne. intros Hk%(prefix_keys _ _ _ Hw). by apply (tlog_blocks s _ Hi) in Hk as [_ ?]. }
    destruct (Hclear _ (li_clear s Hi)) as [? Hr]. rewrite Ed. split; [done|]. left.
    split; [by apply prefix_length|]. intros k Hk. rewrite Hr by done. apply apply_writes_ne.
    intros Hin%(prefix_keys _ _ _ Hw). by apply (tlog_blocks s _ Hi) in Hin as [? _]. }
  set (d1 := <[hdrblk s := hdr_full s]> (apply_writes (tlog s) (dsk (bc s)))).
  assert (d = apply_writes w' d1) as Ed by (unfold d; by rewrite apply_writes_app).
  destruct (hdr_full_ok s Hi) as (En & Ea & Hok).
  assert (hdrblk s ∉ (tinst s).*1) as Hhn by (rewrite tinst_blocks; intros Hk; by apply (lblocks_home s) in Hk as [? _]).
  assert (∀ k, ¬ in_log s k → k ∉ lblocks s → d1 k = vw (bc s) k) as Hold.
  { intros k Hk Hnk. unfold d1. rewrite fn_lookup_insert_ne by (by intros <-).
    rewrite apply_writes_ne; [symmetry; by apply unlogged_clean|].
    intros Hin. by apply (tlog_blocks s _ Hi) in Hin as [? _]. }
  apply prefix_app_cases in Hw as [Hw|(w2 & -> & Hw)].
  - assert (d (hdrblk s) = hdr_full s) as Eh.
    { rewrite Ed, apply_writes_ne; [by apply fn_lookup_insert|]. by intros Hk%(prefix_keys _ _ _ Hw). }
    rewrite Eh. split; [done|]. right. split; [rewrite length_app; simpl; lia|]. intros k Hk.
    assert (replay s d = apply_writes (tinst s) d) as Er.
    { unfold replay. rewrite Eh, En. unfold tinst. f_equal. apply list_fmap_ext.
      intros j i Hlt%list_elem_of_lookup_2%elem_of_seqZ. rewrite Ea by lia. f_equal.
      destruct (lblk_log s i Hg) as (Hl & _ & Hne); [pose proof (li_n s Hi); lia|].
      rewrite Ed, apply_writes_ne; [unfold d1; rewrite fn_lookup_insert_ne by done; apply tlog_at; [done|lia]|].
      intros Hin%(prefix_keys _ _ _ Hw). apply tinst_blocks in Hin. by apply (lblocks_home s) in Hin as [? _]. }
    rewrite Er, (apply_writes_view _ (vw (bc s))) by apply tinst_view. case_decide as Hin; [done|].
    rewrite tinst_blocks in Hin. rewrite Ed, apply_writes_ne; [by apply Hold|].
    intros Hin'%(prefix_keys _ _ _ Hw). by apply Hin, tinst_blocks.
  - apply prefix_nil_inv in Hw as ->. assert (d (hdrblk s) = hdr_clear s) as Eh.
    { rewrite Ed, apply_writes_app. simpl. by apply fn_lookup_insert. }
    assert (get32 (hdr_clear s) 0 = 0) as Ez by (by apply get32_put32).
    destruct (Hclear _ Ez) as [? Hr]. rewrite Eh. split; [done|]. right.
    split; [rewrite !length_app; simpl; lia|]. intros k Hk. rewrite Hr by done.
    rewrite Ed, apply_writes_app. simpl. rewrite fn_lookup_insert_ne by (by intros <-).
    rewrite (apply_writes_view _ (vw (bc s))) by apply tinst_view. case_decide as Hin; [done|].
    rewrite tinst_blocks in Hin. by apply Hold.
Qed.

(** A log on another run of the machine: the same place on the disk, a cache in which
    nothing is locked or pinned, and [d] on the disk. *)
Record restarted s (d : blkid → blockdata) (r : log S) : Prop := {
  re_start : start r = start s;
  re_size : lsize r = lsize s;
  re_dev : ldev r = ldev s;
  re_quiet : quiet ∅ (bc r);
  re_dsk : dsk (bc r) = d;
}.
Lemma restarted_geo s d r : restarted s d r → geometry s → geometry r ∧ hdrblk r = hdrblk s ∧
  (∀ i, lblk r i = lblk s i) ∧ (∀ k, in_log r k ↔ in_log s k) ∧ (∀ h, header_ok s h → header_ok r h) ∧
  replay r d = replay s d ∧ rtrace r d = rtrace s d.
Proof.
  intros [H1 H2 H3 _ _] [? ? ? ?].
  unfold hdrblk, lblk, in_log, header_ok, replay, rtrace, hdrblk, lblk, in_log. rewrite H1, H2, H3.
  split_and!; [split; congruence|done..].
Qed.

(** C17: commits are atomic under crashes.  From a state of the log between calls,
    [commit] returns, with every block's current contents on the disk; and if the
    machine stops after any number of the block writes commit makes, recovery at the
    next boot returns and leaves the home blocks all as they were before the commit
    or all as they are after it. *)
Theorem commit_crash_atomic s : log_inv s → hld (bc s) = ∅ →
  ∃ w s', commit s = Ret () s' ∧ log_inv s' ∧ lh_n s' = 0 ∧ wr (bc s') = wr (bc s) ++ w ∧
    (∀ k, ¬ in_log s k → dsk (bc s') k = vw (bc s) k) ∧
    ∀ w1 r, w1 `prefix_of` w → restarted s (apply_writes w1 (dsk (bc s))) r →
      ∃ r', recover_from_log r = Ret () r' ∧ log_inv r' ∧
        ((∀ k, ¬ in_log s k → dsk (bc r') k = dsk (bc s) k) ∨
         (∀ k, ¬ in_log s k → dsk (bc r') k = vw (bc s) k)).
Proof.
  intros Hi Hh. destruct (commit_spec s Hi Hh) as (c' & Hm & Hw & Hd & Hb & Hh' & Hp & Hv).
  exists (trace s), (set_lh_n 0 (set_bc c' s)). split; [exact Hm|].
  split; [by apply commit_inv|]. split; [done|]. split; [exact Hw|]. split.
  { intros k Hk. cbn [bc set_lh_n set_bc]. rewrite <- Hv by done. symmetry. apply vw_disk; [done|by rewrite Hp|by rewrite Hh']. }
  intros w1 r Hw1 Hr. destruct (crash_states s w1 Hi Hh Hw1) as [Hok Hcases].
  destruct (restarted_geo _ _ _ Hr (li_geo s Hi)) as (Hg & Eh & _ & El & Hho & Er & _).
  destruct (recover_spec r) as (r' & Hm' & Hi' & _ & _ & _ & Hdsk).
  { apply Hr. } { done. } { rewrite (re_dsk _ _ _ Hr), Eh. by apply Hho. }
  exists r'. split; [exact Hm'|]. split; [done|]. rewrite (re_dsk _ _ _ Hr), Er in Hdsk.
  destruct Hcases as [[_ Hc]|[_ Hc]]; [left|right]; intros k Hk; rewrite <- Hc by done; apply Hdsk; by rewrite El.
Qed.

(** C18: recovery can itself be interrupted: if the machine stops after any number of
    its block writes, recovering again ends with the same home blocks as one
    uninterrupted recovery. *)
Theorem recovery_restartable s w1 r : quiet ∅ (bc s) → geometry s → header_ok s (dsk (bc s) (hdrblk s)) →
  w1 `prefix_of` rtrace s (dsk (bc s)) → restarted s (apply_writes w1 (dsk (bc s))) r →
  ∃ s' r', recover_from_log s = Ret () s' ∧ wr (bc s') = wr (bc s) ++ rtrace s (dsk (bc s)) ∧
    recover_from_log r = Ret () r' ∧ ∀ k, ¬ in_log s k → dsk (bc r') k = dsk (bc s') k.
Proof.
  intros Hq Hg Hok Hw Hr. destruct (recover_spec s Hq Hg Hok) as (s' & Hm & _ & _ & _ & Hwr & Hd).
  set (d := dsk (bc s)) in *. set (h := d (hdrblk s)) in *. destruct (hdrblk_log s Hg) as [Hhl _].
  set (tr := (λ i, ((ldev s, u32 (hdr_addr h i)), d (lblk s i))) <$> seqZ 0 (hdr_n h)).
  assert (∀ k, k ∈ tr.*1 → ¬ in_log s k) as Htr.
  { intros k. subst tr. rewrite <- list_fmap_compose. intros (i & -> & Hi%elem_of_seqZ)%list_elem_of_fmap.
    destruct Hok as [_ Hk]. apply (Hk i). lia. }
  assert (header_ok s (apply_writes w1 d (hdrblk s)) ∧
    ∀ k, ¬ in_log s k → replay s (apply_writes w1 d) k = replay s d k) as [Hok' Hrep].
  { unfold rtrace in Hw. fold h tr in Hw. apply prefix_app_cases in Hw as [Hw|(w' & -> & Hw)].
    - assert (∀ k, k ∈ w1.*1 → ¬ in_log s k) as Hw1 by (intros k Hk; eapply Htr, prefix_keys; done).
      assert (apply_writes w1 d (hdrblk s) = h) as Eh by (apply apply_writes_ne; intros Hk; by apply Hw1 in Hk).
      rewrite Eh. split; [done|]. intros k Hk.
      assert (replay s (apply_writes w1 d) = apply_writes tr (apply_writes w1 d)) as Er.
      { unfold replay. rewrite Eh. f_equal. subst tr. apply list_fmap_ext.
        intros j i Hlt%list_elem_of_lookup_2%elem_of_seqZ. f_equal. apply apply_writes_ne. intros Hin.
        apply (Hw1 _ Hin), lblk_log; [done|]. destruct Hok. lia. }
      rewrite Er. change (replay s d) with (apply_writes tr d).
      destruct (decide (k ∈ tr.*1)) as [Hin|Hin]; [by apply apply_writes_in|].
      rewrite !apply_writes_ne; [done|done| |done]. intros Hin2. eapply Hin, prefix_keys; done.
    - apply prefix_nil_inv in Hw as ->. rewrite apply_writes_app. simpl. rewrite fn_lookup_insert.
      assert (hdr_n (put32 h 0 0) = 0) as En by (unfold hdr_n; by rewrite get32_put32).
      split; [split; rewrite En; [destruct Hg; lia|intros; lia]|].
      intros k Hk. unfold replay at 1. rewrite fn_lookup_insert, En, seqZ_nil by done. simpl.
      rewrite fn_lookup_insert_ne by (by intros <-). done. }
  destruct (restarted_geo _ _ _ Hr Hg) as (Hg' & Eh & _ & El & Hho & Er & _).
  destruct (recover_spec r) as (r' & Hm' & _ & _ & _ & _ & Hdr).
  { apply Hr. } { done. } { rewrite (re_dsk _ _ _ Hr), Eh. by apply Hho. }
  exists s', r'. split; [exact Hm|]. split; [exact Hwr|]. split; [exact Hm'|]. intros k Hk.
  destruct (Hdr k) as [-> _]; [by rewrite El|]. destruct (Hd k Hk) as [-> _].
  rewrite (re_dsk _ _ _ Hr), Er. by apply Hrep.
Qed.

(** ** Logging a block *)
Lemma absorb_spec no n bl : 0 <= n →
  let i := absorb no n bl in
  (0 <= i < n ∧ u32 (bl i) = no) ∨ (i = n ∧ ∀ j, 0 <= j < n → u32 (bl j) ≠ no).
Proof.
  intros Hn. unfold absorb. destruct (find _ _) as [i|] eqn:E.
  - apply find_some in E as [Hi Hb]. left. apply Z.eqb_eq in Hb.
    apply list_elem_of_In, elem_of_seqZ in Hi. split; [lia|done].
  - right. split; [done|]. intros j Hj Hb. pose proof (find_none _ _ E j) as Hf. simpl in Hf.
    rewrite Hb, Z.eqb_refl in Hf. discriminate Hf. apply list_elem_of_In, elem_of_seqZ. lia.
Qed.

Lemma log_write_ok s h no : log_inv s → at_ (bc s) h (ldev s, no) → 0 <= no < FSSIZE → ¬ in_log s (ldev s, no) →
  lh_n s < lsize s - 1 → 1 <= outstanding s →
  ∃ s', log_write h s = Ret () s' ∧ log_inv s' ∧ lblocks s' = {[ (ldev s, no) ]} ∪ lblocks s ∧
    lh_n s' = (if decide ((ldev s, no) ∈ lblocks s) then lh_n s else lh_n s + 1) ∧
    outstanding s' = outstanding s ∧ committing s' = committing s ∧ vw (bc s') = vw (bc s) ∧
    dsk (bc s') = dsk (bc s) ∧ hld (bc s') = hld (bc s).
Proof.
  intros Hi Ha Hno Hnl Hlt Ho. pose proof (li_geo s Hi) as Hg. pose proof (li_n s Hi) as Hn.
  destruct (b_set_dirty_law (bc s) h (ldev s, no)) as (c' & Hm & Hb' & Hv & Hd & Hw & Hp & Hh & Ha'); [apply Hi|done|].
  pose proof (at_no _ _ _ (li_b s Hi) Ha) as Hbno. simpl in Hbno.
  set (i := absorb no (lh_n s) (lh_block s)).
  set (n' := if i =? lh_n s then lh_n s + 1 else lh_n s).
  set (s' := set_bc c' (set_lh_n n' (set_lh_block (<[i := no]> (lh_block s)) s))).
  assert (s32 no = no) as Hs32 by (apply s32_small; unfold FSSIZE in *; lia).
  assert (u32 no = no) as Hu32 by (apply u32_small; unfold FSSIZE in *; lia).
  assert (log_write h s = Ret () s') as Hrun.
  { enough (wp (log_write h) (λ _ x, x = s') s) as ([] & x & Hx & ->)%wp_returns by done.
    unfold log_write. log_steps.
    replace ((LOGSIZE <=? lh_n s) || (lsize s - 1 <=? lh_n s)) with false.
    2: { symmetry. apply orb_false_iff. destruct Hg. rewrite !Z.leb_gt. lia. }
    cbn [when]. log_steps. rewrite (proj2 (Z.ltb_ge _ _)) by lia. cbn [when]. log_steps.
    rewrite Hbno, Hs32. fold i. apply wp_when. subst s' n'.
    destruct (i =? lh_n s); log_steps; (eapply wp_on_bc; [exact Hm|by destruct s]). }
  pose proof (absorb_spec no (lh_n s) (lh_block s) ltac:(lia)) as Hspec. cbv zeta in Hspec. fold i in Hspec. clearbody i.
  assert (∀ j, 0 <= j < n' → hblk s' j = if decide (j = i) then (ldev s, no) else hblk s j) as Hblk.
  { intros j Hj. unfold hblk, s'. simpl. rewrite fn_insert_case. case_decide; [by rewrite Hu32|done]. }
  destruct Hspec as [[Hir Hib]|[Hin Hnew]].
  - assert (n' = lh_n s) as En by (unfold n'; destruct (Z.eqb_spec i (lh_n s)); lia).
    assert (hblk s i = (ldev s, no)) as Ei by (unfold hblk; by rewrite Hib).
    assert (∀ j, 0 <= j < lh_n s → hblk s' j = hblk s j) as Hsame.
    { intros j Hj. rewrite Hblk by lia. case_decide; subst; [by rewrite Ei|done]. }
    assert ((ldev s, no) ∈ lblocks s) as Hin by (apply elem_lblocks; eauto).
    assert (lblocks s' = lblocks s) as El.
    { apply set_eq. intros k. rewrite !elem_lblocks. change (lh_n s') with n'. rewrite En.
      split; intros (j & Hj & ->); exists j; by rewrite Hsame. }
    assert (lh_block s i = no) as Hlb.
    { destruct (log_home s i Hi Hir) as (_ & _ & E). congruence. }
    assert (<[i := no]> (lh_block s) = lh_block s) as Efn by (by apply fn_insert_same).
    exists s'. split; [exact Hrun|]. rewrite El, decide_True by done. split_and!; try done.
    + split; change (lh_n s') with n'; change (lsize s') with (lsize s); rewrite ?En; [done|by destruct Hg|done|..].
      * intros j Hj. rewrite Hsame by done. change (lh_block s') with (<[i := no]> (lh_block s)).
        rewrite Efn. by apply (li_home s Hi).
      * change (lh_block s') with (<[i := no]> (lh_block s)). rewrite Efn. by apply (li_nodup s Hi).
      * change (bc s') with c'. rewrite Hp, (li_pins s Hi), El. clear -Hin. set_solver.
      * change (bc s') with c'. rewrite Hd. apply (li_clear s Hi).
    + clear -Hin. set_solver.
  - assert (n' = lh_n s + 1) as En by (unfold n'; by rewrite Hin, Z.eqb_refl).
    assert ((ldev s, no) ∉ lblocks s) as Hnot.
    { intros (j & Hj & E)%elem_lblocks. apply (Hnew j Hj). unfold hblk in E. congruence. }
    assert (∀ j, 0 <= j < lh_n s → hblk s' j = hblk s j ∧ lh_block s' j = lh_block s j) as Hsame.
    { intros j Hj. rewrite Hblk, decide_False by lia. split; [done|]. unfold s'. simpl.
      by rewrite fn_lookup_insert_ne by lia. }
    assert (hblk s' (lh_n s) = (ldev s, no) ∧ lh_block s' (lh_n s) = no) as [Hlast Hlast'].
    { rewrite Hblk, decide_True by lia. split; [done|]. unfold s'. simpl. by rewrite Hin, fn_lookup_insert. }
    assert (lblocks s' = {[ (ldev s, no) ]} ∪ lblocks s) as El.
    { apply set_eq. intros k. rewrite elem_of_union, elem_of_singleton, !elem_lblocks. change (lh_n s') with n'. rewrite En. split.
      - intros (j & Hj & ->). destruct (decide (j = lh_n s)) as [->|]; [by left|right].
        exists j. split; [lia|]. apply Hsame. lia.
      - intros [->|(j & Hj & ->)]; [exists (lh_n s); split; [lia|done]|exists j; split; [lia|symmetry; by apply Hsame]]. }
    exists s'. split; [exact Hrun|]. rewrite El, decide_False by done. split_and!; try done.
    split; change (lh_n s') with n'; change (lsize s') with (lsize s); rewrite ?En; [done|by destruct Hg|lia|..].
    + intros j Hj. destruct (decide (j = lh_n s)) as [->|]; [by rewrite Hlast, Hlast'|].
      destruct (Hsame j) as [-> ->]; [lia|]. apply (li_home s Hi). lia.
    + intros j k Hj Hk. destruct (decide (j = lh_n s)) as [->|], (decide (k = lh_n s)) as [->|]; [done| | |].
      * rewrite Hlast'. destruct (Hsame k) as [_ ->]; [lia|]. intros E. exfalso. apply (Hnew k); [lia|].
        rewrite <- E. done.
      * rewrite Hlast'. destruct (Hsame j) as [_ ->]; [lia|]. intros E. exfalso. apply (Hnew j); [lia|].
        rewrite E. done.
      * destruct (Hsame j) as [_ ->]; [lia|]. destruct (Hsame k) as [_ ->]; [lia|]. apply (li_nodup s Hi); lia.
    + change (bc s') with c'. by rewrite Hp, (li_pins s Hi), El.
    + change (bc s') with c'. rewrite Hd. apply (li_clear s Hi).
Qed.

(** What [log_write] does in every case: outside a transaction or with a full
    log it panics, even when the block is already in the log; otherwise the block is
    in the log once (it is absorbed when it was there), it stays in the cache, and
    nothing reaches the disk. *)
Theorem log_write_exact s h no : log_inv s → at_ (bc s) h (ldev s, no) → 0 <= no < FSSIZE → ¬ in_log s (ldev s, no) →
  if decide (lsize s - 1 <= lh_n s) then log_write h s = Panic "too big a transaction"
  else if decide (outstanding s < 1) then log_write h s = Panic "log_write outside of trans"
  else ∃ s', log_write h s = Ret () s' ∧ log_inv s' ∧ lblocks s' = {[ (ldev s, no) ]} ∪ lblocks s ∧
    lh_n s' = (if decide ((ldev s, no) ∈ lblocks s) then lh_n s else lh_n s + 1) ∧
    pins (bc s') = lblocks s' ∧ vw (bc s') = vw (bc s) ∧ dsk (bc s') = dsk (bc s).
Proof.
  intros Hi Ha Hno Hnl. pose proof (li_geo s Hi) as Hg. pose proof (li_n s Hi) as Hn. unfold log_write.
  case_decide as Hf; [|case_decide as Ho].
  - unfold mbind, M_bind, gets. rewrite (proj2 (Z.leb_le (lsize s - 1) _)), orb_true_r by done. done.
  - unfold mbind, M_bind, gets. replace ((LOGSIZE <=? lh_n s) || (lsize s - 1 <=? lh_n s)) with false.
    + cbn [when]. unfold mret, M_ret. by rewrite (proj2 (Z.ltb_lt _ _) Ho).
    + symmetry. apply orb_false_iff. destruct Hg. rewrite !Z.leb_gt. lia.
  - destruct (log_write_ok s h no) as (s' & Hm & Hi' & El & En & _ & _ & Hv & Hd & _); [done..|lia|lia|].
    exists s'. split; [exact Hm|]. split; [done|]. split_and!; try done. apply Hi'.
Qed.

(** ** Admission *)

(** Code that changes only the cache. *)
Definition frame {A} (m : M (log S) A) : Prop := ∀ s a s', m s = Ret a s' → ∃ c, s' = set_bc c s.
Lemma frame_bind {A B} (m : M (log S) A) (f : A → M (log S) B) : frame m → (∀ a, frame (f a)) → frame (m ≫= f).
Proof.
  intros Hm Hf s b s' (a & s1 & (c1 & ->)%Hm & (c2 & ->)%Hf)%bind_Ret_inv. exists c2. by destruct s.
Qed.
Lemma frame_on_bc {A} (m : M S A) : frame (on_bc m).
Proof. intros s a s'. unfold on_bc, zoom. destruct (m (bc s)); intros [=]; subst. eauto. Qed.
Lemma frame_id {A} (m : M (log S) A) : (∀ s a s', m s = Ret a s' → s' = s) → frame m.
Proof. intros Hm s a s' ->%Hm. exists (bc s). by destruct s. Qed.
Lemma frame_gets {A} (f : log S → A) : frame (gets f).
Proof. apply frame_id. by intros s a s' [=]. Qed.
Lemma frame_mret {A} (a : A) : frame (mret a).
Proof. apply frame_id. by intros s b s' [=]. Qed.
Lemma frame_fault {A} why : frame (fault why : M (log S) A).
Proof. by intros s a s' [=]. Qed.
Lemma frame_mfor {A} (l : list A) (body : A → M (log S) ()) : (∀ x, frame (body x)) → frame (mfor l body).
Proof. intros Hb. induction l; simpl; [apply frame_mret|]. by apply frame_bind. Qed.
Lemma frame_write_log : frame write_log.
Proof.
  unfold write_log, write_one. repeat first [apply frame_bind; [|intros ?]|apply frame_mfor; intros ?|
    apply frame_gets|apply frame_on_bc].
Qed.
Lemma frame_install : frame install_trans.
Proof.
  unfold install_trans, install_one. repeat first [apply frame_bind; [|intros ?]|apply frame_mfor; intros ?|
    apply frame_gets|apply frame_on_bc].
Qed.
Lemma frame_write_head : frame write_head.
Proof.
  unfold write_head. repeat first [apply frame_bind; [|intros ?]|apply frame_mfor; intros ?|
    apply frame_gets|apply frame_on_bc|apply frame_fault|case_match].
Qed.
Lemma commit_fields s s' : commit s = Ret () s' → 0 <= lh_n s →
  lh_n s' = 0 ∧ lsize s' = lsize s ∧ outstanding s' = outstanding s.
Proof.
  intros Hm Hn. unfold commit in Hm. apply bind_Ret_inv in Hm as (n & s1 & [= <- <-] & Hm).
  destruct (Z.ltb_spec 0 (lh_n s)); cbn [when] in Hm; [|injection Hm as <-; split_and!; [lia|done..]].
  apply bind_Ret_inv in Hm as ([] & s1 & (c1 & ->)%frame_write_log & Hm).
  apply bind_Ret_inv in Hm as ([] & s2 & (c2 & ->)%frame_write_head & Hm).
  apply bind_Ret_inv in Hm as ([] & s3 & (c3 & ->)%frame_install & Hm).
  apply bind_Ret_inv in Hm as ([] & s4 & [= <-] & (c4 & ->)%frame_write_head). done.
Qed.

(** The processes that use the log: one entry per system call between its
    [begin_op] and its [end_op], the number of further distinct blocks it may log; at
    most [B] at the start.  Between calls on the log the cache may change freely. *)
Inductive txn (B : Z) : log S → list Z → Prop :=
| txn_start s : lh_n s = 0 → outstanding s = 0 → lsize s = LOGSIZE → txn B s []
| txn_cache s c rem : txn B s rem → txn B (set_bc c s) rem
| txn_begin s s' rem m : txn B s rem → begin_op s = Ret () s' → 0 <= m <= B → txn B s' (m :: rem)
| txn_write s s' h l1 m l2 :
    txn B s (l1 ++ m :: l2) → log_write h s = Ret () s' → lh_n s' - lh_n s <= m →
    txn B s' (l1 ++ (m - (lh_n s' - lh_n s)) :: l2)
| txn_end s s' l1 m l2 : txn B s (l1 ++ m :: l2) → end_op s = Ret () s' → txn B s' (l1 ++ l2).

Fixpoint total (l : list Z) : Z := match l with [] => 0 | m :: l => m + total l end.
Lemma total_app l1 l2 : total (l1 ++ l2) = total l1 + total l2.
Proof. induction l1; simpl; lia. Qed.
Lemma total_bounds B l : Forall (λ m, 0 <= m <= B) l → 0 <= total l <= B * Z.of_nat (length l).
Proof. induction 1; simpl; lia. Qed.

Lemma log_write_fields h s s' : log_write h s = Ret () s' →
  lsize s' = lsize s ∧ outstanding s' = outstanding s ∧ (lh_n s' = lh_n s ∨ lh_n s' = lh_n s + 1).
Proof.
  unfold log_write. intros Hm.
  apply bind_Ret_inv in Hm as (? & ? & [= <- <-] & Hm). apply bind_Ret_inv in Hm as (? & ? & [= <- <-] & Hm).
  apply bind_Ret_inv in Hm as (? & ? & Hw & Hm). destruct (_ || _) in Hw; [done|]. injection Hw as _ <-.
  apply bind_Ret_inv in Hm as (? & ? & [= <- <-] & Hm).
  apply bind_Ret_inv in Hm as (? & ? & Hw & Hm). destruct (_ <? _) in Hw; [done|]. injection Hw as _ <-.
  apply bind_Ret_inv in Hm as (? & ? & [= <- <-] & Hm).
  apply bind_Ret_inv in Hm as (no & ? & (c & ->)%frame_on_bc & Hm).
  apply bind_Ret_inv in Hm as (? & ? & [= _ <-] & Hm).
  apply bind_Ret_inv in Hm as (? & ? & Hw & (c' & ->)%frame_on_bc).
  destruct (_ =? _) in Hw; injection Hw as _ <-; simpl; auto.
Qed.

Lemma txn_bound s rem : txn (MAXOPBLOCKS - 1) s rem →
  Forall (λ m, 0 <= m <= MAXOPBLOCKS - 1) rem ∧ outstanding s = Z.of_nat (length rem) ∧ lsize s = LOGSIZE ∧
  0 <= lh_n s ∧ (rem = [] → lh_n s = 0) ∧ lh_n s + total rem <= 28.
Proof.
  unfold MAXOPBLOCKS. intros Ht. induction Ht as [s Hn Ho Hs|s c rem Ht IH|s s' rem m Ht IH Hb Hm|s s' h l1 m l2 Ht IH Hw Hm|s s' l1 m l2 Ht IH He].
  - split_and!; [done|done|done|lia|done|]. simpl. lia.
  - done.
  - destruct IH as (Hf & Ho & Hs & Hn & Hz & Ht').
    assert (lh_n s + (outstanding s + 1) * MAXOPBLOCKS <= LOGSIZE ∧ s' = set_outstanding (outstanding s + 1) s) as [Ha ->].
    { unfold begin_op in Hb. unfold mbind, M_bind, gets in Hb. destruct (committing s); [done|].
      destruct (Z.ltb_spec LOGSIZE (lh_n s + (outstanding s + 1) * MAXOPBLOCKS)); [done|]. by injection Hb as <-. }
    unfold MAXOPBLOCKS, LOGSIZE in *. cbn. pose proof (total_bounds _ _ Hf) as Hb'.
    split_and!; [by constructor|lia|done|done|done|].
    destruct rem; simpl in *; [specialize (Hz eq_refl); lia|lia].
  - destruct IH as (Hf & Ho & Hs & Hn & Hz & Ht'). destruct (log_write_fields _ _ _ Hw) as (-> & -> & Hn').
    apply Forall_app in Hf as [Hf1 [Hm0 Hf2]%Forall_cons]. rewrite length_app in *. simpl in *.
    rewrite total_app in *. simpl in *. split_and!; [|lia|done|lia| |lia].
    + apply Forall_app. split; [done|]. constructor; [|done]. lia.
    + intros E. apply app_eq_nil in E as [_ [=]].
  - destruct IH as (Hf & Ho & Hs & Hn & Hz & Ht').
    apply Forall_app in Hf as [Hf1 [Hm0 Hf2]%Forall_cons]. rewrite length_app in *. simpl in *. rewrite total_app in *. simpl in *.
    assert (outstanding s' = outstanding s - 1 ∧ lsize s' = lsize s ∧
      lh_n s' = (if decide (outstanding s - 1 = 0) then 0 else lh_n s)) as (Ho' & Hs' & Hn').
    { unfold end_op in He. apply bind_Ret_inv in He as (? & ? & [= <- <-] & He).
      apply bind_Ret_inv in He as (? & ? & [= _ <-] & He). apply bind_Ret_inv in He as (c & ? & [= <- <-] & He).
      apply bind_Ret_inv in He as (? & ? & Hw & He). destruct (committing _) in Hw; [done|]. injection Hw as _ <-.
      destruct (Z.eqb_spec (outstanding s - 1) 0) as [E|E]; cbn [when] in He; rewrite ?decide_True, ?decide_False by done.
      - apply bind_Ret_inv in He as (? & ? & [= _ <-] & He). apply bind_Ret_inv in He as ([] & s1 & Hc & [= <-]).
        destruct (commit_fields _ _ Hc Hn) as (? & ? & ?). done.
      - by injection He as <-. }
    pose proof (total_bounds _ _ Hf1). pose proof (total_bounds _ _ Hf2).
    split_and!; [by apply Forall_app|rewrite Ho'; lia|congruence|case_decide; lia| |].
    + intros E. apply app_eq_nil in E as [-> ->]. simpl in *. rewrite Hn', decide_True by lia. done.
    + rewrite Hn'. case_decide; lia.
Qed.

(** C22: admission control: when every system call logs fewer than [MAXOPBLOCKS]
    distinct blocks, a [log_write] inside a system call never panics, whatever the
    interleaving of system calls [begin_op] admits. *)
Theorem admitted_log_write_returns s rem h k :
  txn (MAXOPBLOCKS - 1) s rem → rem ≠ [] → binv (bc s) → at_ (bc s) h k →
  ∃ s', log_write h s = Ret () s'.
Proof.
  intros Ht Hne Hb Ha. destruct (txn_bound s rem Ht) as (Hf & Ho & Hs & Hn & _ & Hb').
  pose proof (total_bounds _ _ Hf). destruct rem as [|m rem]; [done|]. simpl in Ho.
  destruct (b_set_dirty_law (bc s) h k Hb Ha) as (c' & Hm & _).
  enough (wp (log_write h) (λ _ _, True) s) as ([] & x & Hx & _)%wp_returns by eauto.
  unfold log_write. log_steps. unfold LOGSIZE in *.
  replace ((30 <=? lh_n s) || (lsize s - 1 <=? lh_n s)) with false.
  2: { symmetry. apply orb_false_iff. rewrite !Z.leb_gt. lia. }
  cbn [when]. log_steps. rewrite (proj2 (Z.ltb_ge _ _)) by lia. cbn [when]. log_steps. apply wp_when.
  destruct (_ =? _); log_steps; (eapply wp_on_bc; [exact Hm|done]).
Qed.

Lemma log_inv_bc s c' : log_inv s → binv c' → pins c' = pins (bc s) → dsk c' = dsk (bc s) → log_inv (set_bc c' s).
Proof.
  intros Hi Hb Hp Hd. split; cbn; [done|by destruct (li_geo s Hi)|apply (li_n s Hi)|apply (li_home s Hi)|
    apply (li_nodup s Hi)|rewrite Hp; apply (li_pins s Hi)|].
  change (hdrblk (set_bc c' s)) with (hdrblk s). rewrite Hd. apply (li_clear s Hi).
Qed.
End theory.

(** * The log over the buffer cache *)
Notation zero_disk := (λ (_ : blkid) (_ : Z), 0).

(** A system call that has begun on a freshly booted machine, then one that holds a
    buffer, then one that has logged it and released it. *)
Definition begun (c : bst) : log bst := mkLog 2 LOGSIZE 1 false 1 0 (λ _, 0) c.
(** A machine whose devices hold [D]. *)
Lemma begun_on D : get32 (D (1, 2)) 0 = 0 →
  ∃ c, log_inv (begun c) ∧ hld c = ∅ ∧ pins c = ∅ ∧ dsk c = λ k, if decide (is_dev k.1) then D k else λ _, 0.
Proof.
  intros HD. destruct (boot_inv (λ k, D (dev_of k.1, k.2)) 1) as (c & _ & Hi & _ & Hz & Hd & _). exists c.
  assert (∀ P `{∀ r, Decision (P r)}, ¬ P zero_buf → keys P (sl c) = ∅) as Hk.
  { intros P HP HnP. rewrite Hz. apply elem_of_equiv_empty_L. intros k. rewrite elem_keys. naive_solver. }
  assert (dsk c = λ k, if decide (is_dev k.1) then D k else λ _, 0) as Hd'.
  { change (ldisk c = λ k, if decide (is_dev k.1) then D k else λ _, 0). unfold ldisk. rewrite Hd.
    apply FunctionalExtensionality.functional_extensionality. intros k. unfold by_dev. case_decide as Hdev; [|done].
    simpl. by rewrite dev_of_drive, <- surjective_pairing. }
  assert (hld c = ∅ ∧ pins c = ∅) as (Hh & Hp) by (split_and!; by apply Hk).
  split; [|done]. split.
  - exact Hi.
  - split; cbn; unfold LOGSIZE, FSSIZE; first [lia|by left].
  - cbn. unfold LOGSIZE. lia.
  - cbn. lia.
  - cbn. lia.
  - change (pins c = ∅). exact Hp.
  - change (get32 (dsk c (1, 2)) 0 = 0). by rewrite Hd'.
Qed.
Lemma begun_inv : ∃ c, log_inv (begun c) ∧ hld c = ∅ ∧ pins c = ∅ ∧ dsk c = zero_disk.
Proof.
  destruct (begun_on zero_disk eq_refl) as (c & Hi & Hh & Hp & Hd). exists c. split_and!; [done..|]. rewrite Hd.
  apply FunctionalExtensionality.functional_extensionality. intros k. by case_decide.
Qed.
Lemma held_inv : ∃ s h, log_inv s ∧ hld (bc s) = {[ (1, 100) ]} ∧ at_ (bc s) h (ldev s, 100) ∧ lh_n s = 0 ∧
  lsize s = LOGSIZE ∧ outstanding s = 1 ∧ start s = 2 ∧ ldev s = 1 ∧ txn (MAXOPBLOCKS - 1) s [1].
Proof.
  destruct begun_inv as (c & Hi & Hh & Hp & Hd).
  destruct (bread_law c 1 100) as (h & c' & _ & Hi' & _ & Hd' & _ & Hp' & Hh' & Ha & _);
    [apply Hi|by left|done|rewrite Hh; set_solver| |].
  { rewrite Hp, Hh, !(right_id_L ∅ (∪)), size_singleton. unfold NBUF. lia. }
  exists (begun c'), h. split; [by apply (log_inv_bc (begun c))|].
  rewrite Hh, (right_id_L ∅ (∪)) in Hh'. split_and!; try done.
  apply (txn_begin _ (mkLog 2 LOGSIZE 0 false 1 0 (λ _, 0) c')); [by apply txn_start|done|unfold MAXOPBLOCKS; lia].
Qed.
Lemma logged_inv : ∃ s, log_inv s ∧ hld (bc s) = ∅ ∧ lh_n s = 1.
Proof.
  destruct begun_inv as (c & Hi & Hh & Hp & Hd).
  destruct (bread_law c 1 100) as (h & c1 & _ & Hi1 & _ & Hd1 & _ & Hp1 & Hh1 & Ha1 & _);
    [apply Hi|by left|done|rewrite Hh; set_solver| |].
  { rewrite Hp, Hh, !(right_id_L ∅ (∪)), size_singleton. unfold NBUF. lia. }
  destruct (b_set_dirty_law c1 h (1, 100)) as (c2 & _ & Hi2 & _ & Hd2 & _ & Hp2 & Hh2 & Ha2); [done|done|].
  destruct (brelse_law c2 h (1, 100)) as (c3 & _ & Hi3 & _ & Hd3 & _ & Hp3 & Hh3 & _); [done|by apply Ha2|left; rewrite Hp2; clear; set_solver|].
  exists (mkLog 2 LOGSIZE 1 false 1 1 (λ _, 100) c3).
  split; [|split; [cbn [bc]; rewrite Hh3, Hh2, Hh1, Hh; clear; set_solver|done]]. split.
  - exact Hi3.
  - split; cbn; unfold LOGSIZE, FSSIZE; first [lia|by left].
  - cbn. unfold LOGSIZE. lia.
  - cbn. intros i _. split; [unfold FSSIZE; lia|]. change (hblk _ i) with (1, 100). unfold in_log, LOGSIZE. cbn. lia.
  - cbn. lia.
  - change (pins c3 = {[ (1, 100) ]} ∪ ∅). rewrite Hp3, Hp2, Hp1, Hp. done.
  - change (get32 (dsk c3 (1, 2)) 0 = 0). by rewrite Hd3, Hd2, Hd1, Hd.
Qed.

Lemma commit_crash_atomic_witness :
  ∃ s s', log_inv s ∧ lh_n s = 1 ∧ commit s = Ret () s' ∧ log_inv s' ∧ lh_n s' = 0.
Proof.
  destruct logged_inv as (s & Hi & Hh & Hn).
  destruct (commit_crash_atomic s Hi Hh) as (w & s' & Hm & Hi' & Hn' & _). exists s, s'.
  split; [exact Hi|]. split; [exact Hn|]. split; [exact Hm|]. by split.
Defined.
Lemma recovery_restartable_witness : ∃ s s', recover_from_log s = Ret () s' ∧ log_inv s.
Proof.
  destruct begun_inv as (c & Hi & Hh & Hp & Hd).
  destruct (recovery_restartable (begun c) [] (begun c)) as (s' & r' & Hm & _);
    [by split; [apply Hi|exact Hh|change (pins c ⊆ ∅); by rewrite Hp]|apply Hi| |apply prefix_nil| |].
  - change (header_ok (begun c) (dsk c (1, 2))). rewrite Hd.
    split; [change (hdr_n (λ _, 0)) with 0; cbn; unfold LOGSIZE; lia|].
    intros i Hlt. change (hdr_n (λ _, 0)) with 0 in Hlt. lia.
  - split; [done|done|done| |done]. split; [apply Hi|exact Hh|change (pins c ⊆ ∅); by rewrite Hp].
  - exists (begun c), s'. split; [exact Hm|exact Hi].
Defined.
Lemma log_write_exact_witness : ∃ s h s', log_write h s = Ret () s' ∧ log_inv s'.
Proof.
  destruct held_inv as (s & h & Hi & Hh & Ha & Hn & Hs & Ho & Hst & Hd & _).
  pose proof (log_write_exact s h 100 Hi Ha ltac:(unfold FSSIZE; lia)) as Hl.
  rewrite Hn, Hs, Ho in Hl. destruct Hl as (s' & Hm & Hi' & _).
  { unfold in_log. rewrite Hst, Hs. simpl. unfold LOGSIZE. lia. }
  exists s, h, s'. split; [exact Hm|exact Hi'].
Defined.
Lemma admitted_log_write_returns_witness : ∃ (s : log bst) h s', log_write h s = Ret () s'.
Proof.
  destruct held_inv as (s & h & Hi & _ & Ha & _ & _ & _ & _ & _ & Ht).
  destruct (admitted_log_write_returns s [1] h (ldev s, 100)) as (s' & Hm); [exact Ht|done|apply Hi|exact Ha|].
  exists s, h, s'. exact Hm.
Defined.

(** Three system calls, admitted together, that log [MAXOPBLOCKS] blocks each: the
    blocks 100 to 129. *)
Definition log_block (no : Z) : M (log bst) () :=
  h ← on_bc (Blocks.bread 1 no);
  log_write h ;;
  on_bc (Blocks.brelse h).
Definition three_calls (blocks : Z) : M (log bst) () :=
  begin_op ;; begin_op ;; begin_op ;;
  mfor (seqZ 100 blocks) log_block.
Definition fresh_log : M (log bst) () := on_bc binit ;; modify (set_lh_n 0).
Definition blank : log bst := mkLog 2 LOGSIZE 0 false 1 0 (λ _, 0) (boot zero_disk 1).
Definition ending {A} (o : outcome (log bst) A) : string :=
  match o with Panic m => m | Ret _ _ => "returns" | _ => "does not return" end.

(** The admission bound is off by one: [begin_op] admits three system calls of
    [MAXOPBLOCKS] blocks at once, [LOGSIZE] in all, but the log holds one block less
    (one block of the log area is the header), so the last block they log panics. *)
Theorem three_full_calls_panic :
  ending ((fresh_log ;; three_calls (3 * MAXOPBLOCKS)) blank) = "too big a transaction" ∧
  ending ((fresh_log ;; three_calls (3 * MAXOPBLOCKS - 1)) blank) = "returns".
Proof. split; vm_compute; reflexivity. Qed.
