(* ===== verification/CText.v ===== *)
(** * C strings and the lines of text files

    A string or a file is the list of its bytes.  What the user programs of the repository use of the C
    library to read lines and to compare and print strings. *)

From S2P Require Import Prelude.

(** What a C function sees of a buffer: the characters before the first NUL. *)
Fixpoint c_str (s : list Z) : list Z :=
  match s with c :: s => if c =? 0 then [] else c :: c_str s | [] => [] end.
(** [fgets(line, n + 1, fp)]: at most [n] characters, up to and with the first newline, and the rest. *)
Fixpoint fgets (n : nat) (s : list Z) : list Z * list Z :=
  match n, s with
  | S n, c :: s => if c =? 10 then ([c], s) else let '(l, r) := fgets n s in (c :: l, r)
  | _, _ => ([], s)
  end.
(** What a loop over [fgets] reads, to the end of the file; every turn takes a character. *)
Fixpoint fgets_loop (fuel n : nat) (s : list Z) : list (list Z) :=
  match fuel, s with
  | S fuel, _ :: _ => let '(l, r) := fgets n s in l :: fgets_loop fuel n r
  | _, _ => []
  end.
Definition fgets_all (n : nat) (s : list Z) : list (list Z) := fgets_loop (length s) n s.
(** What a loop over getline reads: whole lines. *)
Fixpoint getlines (s : list Z) : list (list Z) :=
  match s with
  | [] => []
  | c :: s' =>
      if c =? 10 then [c] :: getlines s'
      else match getlines s' with l :: r => (c :: l) :: r | [] => [[c]] end
  end.
(** [strncmp(p, q, n) == 0]; past the end of the list is the NUL. *)
Fixpoint strncmp_eq (n : nat) (p q : list Z) : bool :=
  match n with
  | O => true
  | S n =>
      let c := default 0 (head p) in
      let d := default 0 (head q) in
      (c =? d) && ((c =? 0) || strncmp_eq n (tail p) (tail q))
  end.
(** The bytes of a literal. *)
Fixpoint bytes (s : string) : list Z :=
  match s with String c s => Z.of_nat (Ascii.nat_of_ascii c) :: bytes s | EmptyString => [] end.

(** A text: its lines, and what is after the last newline. *)
Definition text (ls : list (list Z)) (last : list Z) : list Z := (ls ≫= λ l, l ++ [10]) ++ last.
Definition lines_of (ls : list (list Z)) (last : list Z) : list (list Z) :=
  ((λ l, l ++ [10]) <$> ls) ++ (if decide (last = []) then [] else [last]).

Lemma fgets_line l n r : (length l < n)%nat → (∀ c, c ∈ l → c ≠ 10 ∧ c ≠ 0) → fgets n (l ++ 10 :: r) = (l ++ [10], r).
Proof.
  revert n. induction l as [|c l IH]; intros [|n] Hl Hc; simpl in *; try lia; [done|].
  destruct (Hc c ltac:(by left)) as [Hc1 _]. rewrite (proj2 (Z.eqb_neq _ _) Hc1).
  rewrite IH; [done|lia|]. intros d Hd. apply Hc. by right.
Qed.
Lemma fgets_last l n : (length l <= n)%nat → (∀ c, c ∈ l → c ≠ 10 ∧ c ≠ 0) → fgets n l = (l, []).
Proof.
  revert n. induction l as [|c l IH]; intros [|n] Hl Hc; simpl in *; try lia; try done.
  destruct (Hc c ltac:(by left)) as [Hc1 _]. rewrite (proj2 (Z.eqb_neq _ _) Hc1).
  rewrite IH; [done|lia|]. intros d Hd. apply Hc. by right.
Qed.
Lemma c_str_id l : (∀ c, c ∈ l → c ≠ 0) → c_str l = l.
Proof.
  induction l as [|c l IH]; intros Hc; [done|]. simpl.
  rewrite (proj2 (Z.eqb_neq _ _) (Hc c ltac:(by left))), IH; [done|]. intros d Hd. apply Hc. by right.
Qed.
(** On lines that fit, [fgets] reads the lines. *)
Lemma fgets_all_text n ls last : Forall (λ l, (length l < n)%nat ∧ ∀ c, c ∈ l → c ≠ 10 ∧ c ≠ 0) ls →
  (length last <= n)%nat → (∀ c, c ∈ last → c ≠ 10 ∧ c ≠ 0) → fgets_all n (text ls last) = lines_of ls last.
Proof.
  intros Hls Hlast Hc. unfold fgets_all, lines_of.
  assert (∀ fuel, (length (text ls last) <= fuel)%nat → fgets_loop fuel n (text ls last) =
    ((λ l, l ++ [10]) <$> ls) ++ (if decide (last = []) then [] else [last])) as Hgen; [|by apply Hgen].
  unfold text. induction Hls as [|l ls [Hl Hlc] Hls IH]; intros fuel Hf.
  - cbn [mbind list_bind app fmap list_fmap] in *. destruct (decide (last = [])) as [->|Hne]; [by destruct fuel|].
    destruct last as [|c last']; [done|]. destruct fuel as [|fuel]; [simpl in *; lia|].
    cbn [fgets_loop]. rewrite fgets_last by done. by destruct fuel.
  - cbn [mbind list_bind fmap list_fmap] in *. rewrite <- !app_assoc in *. cbn [app] in *. rewrite length_app in Hf. cbn [length] in Hf.
    destruct fuel as [|fuel]; [lia|]. cbn [fgets_loop].
    destruct (l ++ 10 :: (ls ≫= λ l, l ++ [10]) ++ last) as [|c s] eqn:E; [by destruct l|]. rewrite <- E.
    rewrite fgets_line by done. f_equal. apply IH. lia.
Qed.
Lemma getlines_app l s : (∀ c, c ∈ l → c ≠ 10) → getlines (l ++ 10 :: s) = (l ++ [10]) :: getlines s.
Proof.
  induction l as [|c l IH]; intros Hc; [done|]. cbn [app getlines]. rewrite (proj2 (Z.eqb_neq _ _)) by (apply Hc; set_solver).
  rewrite IH; [done|]. intros d Hd. apply Hc. set_solver.
Qed.
Lemma getlines_text ls last : Forall (λ l, ∀ c, c ∈ l → c ≠ 10) ls → (∀ c, c ∈ last → c ≠ 10) → getlines (text ls last) = lines_of ls last.
Proof.
  intros Hls Hc. unfold text, lines_of. induction Hls as [|l ls Hl Hls IH].
  - cbn. induction last as [|c last IH]; [done|]. cbn [getlines]. rewrite (proj2 (Z.eqb_neq _ _)) by (apply Hc; set_solver).
    rewrite IH by (intros d Hd; apply Hc; set_solver). by destruct last.
  - cbn [mbind list_bind fmap list_fmap app] in *. rewrite <- !app_assoc. cbn [app]. rewrite getlines_app by done. by rewrite IH.
Qed.
(** Comparing with a string is comparing the beginning. *)
Lemma strncmp_eq_prefix p q : (∀ c, c ∈ p → c ≠ 0) → strncmp_eq (length p) p q = bool_decide (p `prefix_of` q).
Proof.
  revert q. induction p as [|c p IH]; intros q Hp; [by rewrite bool_decide_eq_true_2 by apply prefix_nil|].
  cbn [length strncmp_eq head default tail]. assert (c ≠ 0) as Hc by (apply Hp; set_solver).
  destruct q as [|d q]; cbn.
  - rewrite (proj2 (Z.eqb_neq _ _) Hc). by rewrite bool_decide_eq_false_2 by (intros []%prefix_nil_not).
  - destruct (Z.eqb_spec c d) as [->|Hne]; cbn [andb].
    + rewrite (proj2 (Z.eqb_neq _ _) Hc). cbn [orb]. rewrite IH by (intros e He; apply Hp; set_solver).
      apply bool_decide_ext. split; [apply prefix_cons|apply prefix_cons_inv_2].
    + rewrite bool_decide_eq_false_2; [done|]. intros Hpre. by apply prefix_cons_inv_1 in Hpre.
Qed.
