(* ===== verification/HashMap.v ===== *)
(** * The string map of the MapReduce library (src/06_Map-Reduce/mapreduce.c, lines 8 to 255)

    A bucket's chain of nodes is the list of its nodes.  A C string is the list of its
    bytes, without the terminator.  Whether an allocation succeeds is an argument of
    the functions that allocate.

    The map refines stdpp's finite maps ([map_refines_gmap]), and its iterator visits
    every key once ([map_iteration_complete]). *)

From S2P Require Import Prelude.

Definition cstr := list Z.
(** The value of a [char] whose byte is [b]: chars are signed here. *)
Definition char_of (b : Z) : Z := s8 b.

(** [map_node_t] and [map_base_t], for maps from strings to int. *)
Record map_node := mkNode {
  hash : Z;
  value : Z;
  nkey : cstr;  (* char key[], after the struct *)
}.
Record map_base := mkMap {
  buckets : list (list map_node);
  nbuckets : Z;
  nnodes : Z;
}.

Definition map_init : map_base := mkMap [] 0 0.

Definition map_hash (str : cstr) : Z :=
  foldl (λ hash c, Z.lxor (u32 (u32 (Z.shiftl hash 5) + hash)) (u32 (char_of c))) 5381 str.

Definition map_newnode (key : cstr) (v : Z) : map_node := mkNode (map_hash key) v key.

Definition map_bucketidx (m : map_base) (hash : Z) : Z := s32 (Z.land hash (u32 (nbuckets m - 1))).

Definition get_bucket (n : Z) : M map_base (list map_node) := bks ← gets buckets; aget bks n.
Definition put_bucket (n : Z) (b : list map_node) : M map_base () :=
  modify (λ m, mkMap (<[Z.to_nat n := b]> (buckets m)) (nbuckets m) (nnodes m)).

Definition map_addnode (node : map_node) : M map_base () :=
  n ← gets (λ m, map_bucketidx m (hash node));
  b ← get_bucket n;
  put_bucket n (node :: b).

(** All the nodes in one chain: the buckets from the last to the first, each node put
    in front. *)
Definition chain_nodes (bks : list (list map_node)) : list map_node :=
  foldl (λ nodes b, foldl (λ nodes node, node :: nodes) nodes b) [] (reverse bks).

Definition map_resize (n : Z) (realloc_ok : bool) : M map_base Z :=
  nodes ← gets (λ m, chain_nodes (buckets m));
  when realloc_ok (modify (λ m, mkMap (replicate (Z.to_nat n) []) (u32 n) (nnodes m))) ;;
  null ← gets (λ m, bool_decide (buckets m = []));
  when (negb null) (
    modify (λ m, mkMap (replicate (Z.to_nat (nbuckets m)) []) (nbuckets m) (nnodes m)) ;;
    mfor nodes map_addnode) ;;
  mret (if realloc_ok then 0 else -1).

(** The place of a key: its bucket and its position in the chain. *)
Fixpoint find_node (h : Z) (key : cstr) (b : list map_node) : option nat :=
  match b with
  | [] => None
  | x :: b' => if (hash x =? h) && bool_decide (nkey x = key) then Some O else S <$> find_node h key b'
  end.
Definition map_getref (key : cstr) : M map_base (option (Z * nat)) :=
  let h := map_hash key in
  nb ← gets nbuckets;
  if 0 <? nb then
    n ← gets (λ m, map_bucketidx m h);
    b ← get_bucket n;
    mret (pair n <$> find_node h key b)
  else mret None.

Definition map_get_ (key : cstr) : M map_base (option Z) :=
  r ← map_getref key;
  match r with
  | Some (n, p) => b ← get_bucket n; mret (value <$> b !! p)
  | None => mret None
  end.

Definition map_set_ (key : cstr) (v : Z) (malloc_ok realloc_ok : bool) : M map_base Z :=
  r ← map_getref key;
  match r with
  | Some (n, p) =>
      b ← get_bucket n;
      put_bucket n (alter (λ x, mkNode (hash x) v (nkey x)) p b) ;;
      mret 0
  | None =>
      if negb malloc_ok then mret (-1)
      else
        nn ← gets nnodes;
        nb ← gets nbuckets;
        err ← (if nb <=? nn then
                 map_resize (if 0 <? nb then s32 (u32 (Z.shiftl nb 1)) else 1) realloc_ok
               else mret 0);
        if negb (err =? 0) then mret (-1)
        else
          map_addnode (map_newnode key v) ;;
          modify (λ m, mkMap (buckets m) (nbuckets m) (u32 (nnodes m + 1))) ;;
          mret 0
  end.

Definition map_remove_ (key : cstr) : M map_base () :=
  r ← map_getref key;
  match r with
  | Some (n, p) =>
      b ← get_bucket n;
      put_bucket n (delete p b) ;;
      modify (λ m, mkMap (buckets m) (nbuckets m) (u32 (nnodes m - 1)))
  | None => mret ()
  end.

(** [map_iter_t]: [node] is the rest of the chain from the current node on. *)
Record map_iter_t := mkIter {
  bucketidx : Z;
  node : list map_node;
}.
Definition map_iter_ : map_iter_t := mkIter (u32 (-1)) [].
(** The loop that looks for the next bucket with a node. *)
Fixpoint next_bucket (fuel : nat) (m : map_base) (i : Z) : M map_iter_t (option cstr) :=
  match fuel with
  | O => diverge
  | S fuel =>
      let i := u32 (i + 1) in
      if nbuckets m <=? i then modify (λ it, mkIter i []) ;; mret None
      else
        b ← aget (buckets m) i;
        match b with
        | [] => next_bucket fuel m i
        | x :: _ => modify (λ it, mkIter i b) ;; mret (Some (nkey x))
        end
  end.
Definition map_next_ (m : map_base) : M map_iter_t (option cstr) :=
  it ← gets (λ it, it);
  let fuel := S (length (buckets m)) in
  match node it with
  | _ :: (x :: _) as rest => modify (λ it, mkIter (bucketidx it) (tail (node it))) ;; mret (Some (nkey x))
  | _ => next_bucket fuel m (bucketidx it)
  end.

(** [map_deinit_]: the nodes freed, in order. *)
Definition map_deinit_ (m : map_base) : list map_node := concat (reverse (buckets m)).

(** * Correctness *)

Definition nodes (m : map_base) : list map_node := concat (buckets m).
Definition entries (l : list map_node) : gmap cstr Z := list_to_map ((λ x, (nkey x, value x)) <$> l).
(** The finite map a hash map stands for. *)
Definition abs (m : map_base) : gmap cstr Z := entries (nodes m).

Record shape (m : map_base) : Prop := {
  sh_len : nbuckets m = Z.of_nat (length (buckets m));
  sh_pow : ∃ k, 0 <= k <= 30 ∧ nbuckets m = 2 ^ k;
  sh_place : ∀ i b x, buckets m !! i = Some b → x ∈ b →
    hash x = map_hash (nkey x) ∧ map_bucketidx m (hash x) = Z.of_nat i;
}.
Record map_inv (m : map_base) : Prop := {
  mi_shape : m = map_init ∨ shape m;
  mi_nodup : NoDup (nkey <$> nodes m);
  mi_n : nnodes m = Z.of_nat (length (nodes m));
  mi_load : nnodes m <= nbuckets m;
}.

Lemma map_hash_range key : 0 <= map_hash key < 2 ^ 32.
Proof.
  unfold map_hash. cut (∀ a, 0 <= a < 2 ^ 32 →
    0 <= foldl (λ hash c, Z.lxor (u32 (u32 (Z.shiftl hash 5) + hash)) (u32 (char_of c))) a key < 2 ^ 32).
  { intros H. apply H. lia. }
  induction key as [|c key IH]; intros a Ha; simpl; [done|]. apply IH.
  pose proof (u32_range (u32 (Z.shiftl a 5) + a)) as H1. pose proof (u32_range (char_of c)) as H2.
  split; [apply Z.lxor_nonneg; lia|].
  apply Z.log2_lt_cancel. change (Z.log2 (2 ^ 32)) with 32.
  eapply Z.le_lt_trans; [apply Z.log2_lxor; lia|].
  destruct (Z.eq_dec (u32 (u32 (Z.shiftl a 5) + a)) 0) as [->|], (Z.eq_dec (u32 (char_of c)) 0) as [->|];
    rewrite ?Z.max_lub_lt_iff; try split; try (apply Z.log2_lt_pow2; lia); vm_compute; done.
Qed.

Lemma bucketidx_range m h : shape m → 0 <= h → 0 <= map_bucketidx m h < nbuckets m.
Proof.
  intros [_ (k & Hk & Hn) _] Hh. unfold map_bucketidx. rewrite Hn.
  assert (2 ^ k <= 2 ^ 30) by (apply Z.pow_le_mono_r; lia).
  assert (0 < 2 ^ k) by (apply Z.pow_pos_nonneg; lia).
  rewrite (u32_small (2 ^ k - 1)) by lia.
  replace (2 ^ k - 1) with (Z.ones k) by (rewrite Z.ones_equiv; lia). rewrite Z.land_ones by lia.
  pose proof (Z.mod_pos_bound h (2 ^ k)). rewrite s32_small; lia.
Qed.
Lemma bucket_of m h : shape m → 0 <= h →
  ∃ b, buckets m !! Z.to_nat (map_bucketidx m h) = Some b ∧ get_bucket (map_bucketidx m h) m = Ret b m.
Proof.
  intros Hs Hh. pose proof (bucketidx_range m h Hs Hh). destruct Hs as [Hl _ _].
  destruct (lookup_lt_is_Some_2 (buckets m) (Z.to_nat (map_bucketidx m h))) as [b Hb]; [lia|].
  exists b. split; [done|]. unfold get_bucket, mbind, M_bind, gets, aget.
  rewrite (proj2 (Z.ltb_ge _ _)) by lia. by rewrite Hb.
Qed.

Lemma find_node_Some h key b p : find_node h key b = Some p → ∃ x, b !! p = Some x ∧ nkey x = key.
Proof.
  revert p. induction b as [|x b IH]; intros p; simpl; [done|].
  destruct (hash x =? h), (bool_decide (nkey x = key)) eqn:E; simpl; intros Hp; simplify_eq.
  - apply bool_decide_eq_true in E. by exists x.
  - apply fmap_Some in Hp as (q & Hq & ->). by apply IH.
  - apply fmap_Some in Hp as (q & Hq & ->). by apply IH.
  - apply fmap_Some in Hp as (q & Hq & ->). by apply IH.
Qed.
Lemma find_node_None key b : (∀ x, x ∈ b → hash x = map_hash (nkey x)) →
  find_node (map_hash key) key b = None → ∀ x, x ∈ b → nkey x ≠ key.
Proof.
  intros Hh. induction b as [|y b IH]; simpl; [set_solver|]. intros Hf x Hx Hk.
  destruct (_ && _) eqn:E in Hf; [done|]. apply fmap_None in Hf.
  apply elem_of_cons in Hx as [->|Hx]; [|eapply IH; set_solver].
  rewrite (Hh y), Hk, Z.eqb_refl, bool_decide_true in E by set_solver. done.
Qed.

Lemma elem_nodes m x : x ∈ nodes m ↔ ∃ i b, buckets m !! i = Some b ∧ x ∈ b.
Proof.
  unfold nodes. rewrite list_elem_of_In, in_concat. split.
  - intros (b & Hb & Hx). apply list_elem_of_In, list_elem_of_lookup_1 in Hb as [i Hi].
    exists i, b. by rewrite list_elem_of_In.
  - intros (i & b & Hi & Hx). exists b. rewrite <- !list_elem_of_In. split; [|done]. by eapply list_elem_of_lookup_2.
Qed.

(** The search, in a map of some shape. *)
Lemma getref_spec m key : (m = map_init ∨ shape m) →
  (map_getref key m = Ret None m ∧ key ∉ nkey <$> nodes m) ∨
  ∃ n p b x, map_getref key m = Ret (Some (n, p)) m ∧ get_bucket n m = Ret b m ∧ buckets m !! Z.to_nat n = Some b ∧
    b !! p = Some x ∧ nkey x = key.
Proof.
  intros [->|Hs]; [left; split; [done|set_solver]|].
  pose proof (map_hash_range key) as Hr. destruct (bucket_of m (map_hash key) Hs) as (b & Hb & Hget); [lia|].
  assert (0 < nbuckets m) as Hpos.
  { destruct (sh_pow m Hs) as (k & Hk & ->). apply Z.pow_pos_nonneg; lia. }
  assert (map_getref key m = Ret (pair (map_bucketidx m (map_hash key)) <$> find_node (map_hash key) key b) m) as Hm.
  { unfold map_getref. unfold mbind at 1, M_bind, gets. rewrite (proj2 (Z.ltb_lt _ _)) by done.
    unfold mbind at 1. by rewrite (bind_Ret _ _ _ _ _ Hget). }
  destruct (find_node (map_hash key) key b) as [p|] eqn:Hf.
  - right. destruct (find_node_Some _ _ _ _ Hf) as (x & Hx & Hk). by exists (map_bucketidx m (map_hash key)), p, b, x.
  - left. split; [done|]. intros (x & Hk & Hx)%list_elem_of_fmap.
    apply elem_nodes in Hx as (i & b' & Hb' & Hx). destruct (sh_place m Hs i b' x Hb' Hx) as [Hh Hi].
    rewrite Hh, <- Hk in Hi. assert (b' = b) as ->.
    { rewrite Hi, Nat2Z.id in Hb. congruence. }
    eapply find_node_None; [|exact Hf|exact Hx|done]. intros y Hy.
    by destruct (sh_place m Hs i b y Hb' Hy).
Qed.

(** Writing one bucket. *)
Lemma concat_split (bks : list (list map_node)) n b p x f : bks !! n = Some b → b !! p = Some x →
  ∃ l1 l2, concat bks = l1 ++ x :: l2 ∧ concat (<[n := alter f p b]> bks) = l1 ++ f x :: l2 ∧
    concat (<[n := delete p b]> bks) = l1 ++ l2.
Proof.
  intros Hn Hp. pose proof (take_drop_middle _ _ _ Hn) as Eb. pose proof (take_drop_middle _ _ _ Hp) as Ex.
  assert (n < length bks)%nat by (by eapply lookup_lt_Some).
  assert (p < length b)%nat by (by eapply lookup_lt_Some).
  assert (∀ b', concat (<[n := b']> bks) = concat (take n bks) ++ b' ++ concat (drop (S n) bks)) as Hc.
  { intros b'. rewrite insert_take_drop by done. rewrite concat_app. done. }
  exists (concat (take n bks) ++ take p b), (drop (S p) b ++ concat (drop (S n) bks)). split_and!.
  - rewrite <- Eb at 1. rewrite concat_app. simpl. rewrite <- Ex at 1. by rewrite <- !app_assoc.
  - rewrite Hc. assert (alter f p b = take p b ++ f x :: drop (S p) b) as ->.
    { rewrite <- insert_take_drop by done. apply list_eq. intros i.
      destruct (decide (i = p)) as [->|]; [rewrite list_lookup_alter_eq, list_lookup_insert_eq by done; by rewrite Hp|].
      by rewrite list_lookup_alter_ne, list_lookup_insert_ne. }
    by rewrite <- !app_assoc.
  - rewrite Hc, delete_take_drop. by rewrite <- !app_assoc.
Qed.

Lemma entries_perm l l' : NoDup (nkey <$> l) → l ≡ₚ l' → entries l = entries l'.
Proof.
  intros Hnd Hp. unfold entries. apply list_to_map_proper; [|by apply fmap_Permutation].
  by rewrite <- list_fmap_compose.
Qed.
Lemma entries_cons x l : entries (x :: l) = <[nkey x := value x]> (entries l).
Proof. done. Qed.
Lemma entries_notin l key : key ∉ nkey <$> l → entries l !! key = None.
Proof. intros Hk. apply not_elem_of_list_to_map_1. by rewrite <- list_fmap_compose. Qed.
Lemma entries_at l x : NoDup (nkey <$> l) → x ∈ l → entries l !! nkey x = Some (value x).
Proof.
  intros Hnd Hx. apply elem_of_list_to_map_1; [by rewrite <- list_fmap_compose|].
  apply list_elem_of_fmap. by exists x.
Qed.

(** [map_addnode], in a map with buckets, adds the node to its bucket. *)
Lemma addnode_spec node m : shape m → hash node = map_hash (nkey node) →
  ∃ m', map_addnode node m = Ret () m' ∧ shape m' ∧ nodes m' ≡ₚ node :: nodes m ∧ nbuckets m' = nbuckets m ∧
    nnodes m' = nnodes m.
Proof.
  intros Hs Hh. pose proof (map_hash_range (nkey node)) as Hr.
  destruct (bucket_of m (hash node) Hs) as (b & Hb & Hget); [lia|].
  pose proof (bucketidx_range m (hash node) Hs ltac:(lia)) as Hi. set (n := map_bucketidx m (hash node)) in *.
  set (m' := mkMap (<[Z.to_nat n := node :: b]> (buckets m)) (nbuckets m) (nnodes m)). exists m'. split_and!; try done.
  - unfold map_addnode. unfold mbind at 1, M_bind at 1, gets. fold n. by rewrite (bind_Ret _ _ _ _ _ Hget).
  - destruct Hs as [Hl Hp Hpl]. split; simpl; [by rewrite length_insert|done|].
    intros i b' x Hb' Hx. apply list_lookup_insert_Some in Hb' as [(<- & <- & Hlt)|[Hne Hb']].
    + apply elem_of_cons in Hx as [->|Hx]; [|by apply (Hpl (Z.to_nat n) b)].
      split; [done|]. change (map_bucketidx m' (hash node)) with n. lia.
    + by apply (Hpl i b').
  - unfold nodes. simpl. pose proof (take_drop_middle _ _ _ Hb) as Eb.
    rewrite insert_take_drop; [|eapply lookup_lt_Some; exact Hb]. rewrite <- Eb at 3.
    rewrite !concat_app. simpl. apply Permutation_sym, Permutation_middle.
Qed.
Lemma addnodes_spec l m : shape m → Forall (λ x, hash x = map_hash (nkey x)) l →
  ∃ m', mfor l map_addnode m = Ret () m' ∧ shape m' ∧ nodes m' ≡ₚ l ++ nodes m ∧ nbuckets m' = nbuckets m ∧
    nnodes m' = nnodes m.
Proof.
  intros Hs Hl. revert m Hs. induction Hl as [|x l Hx Hl IH]; intros m Hs; simpl; [by exists m|].
  destruct (addnode_spec x m Hs Hx) as (m1 & Hm1 & Hs1 & Hp1 & Hb1 & Hn1).
  destruct (IH m1 Hs1) as (m2 & Hm2 & Hs2 & Hp2 & Hb2 & Hn2). exists m2. split_and!; [|done| |congruence..].
  - by rewrite (bind_Ret _ _ _ _ _ Hm1).
  - rewrite Hp2, Hp1. symmetry. apply Permutation_middle.
Qed.

Lemma chain_nodes_perm bks : chain_nodes bks ≡ₚ concat bks.
Proof.
  unfold chain_nodes.
  assert (∀ b acc, foldl (λ nodes (node : map_node), node :: nodes) acc b ≡ₚ b ++ acc) as Hin.
  { induction b as [|x b IH]; intros acc; simpl; [done|]. rewrite IH. symmetry. apply Permutation_middle. }
  assert (∀ l acc, foldl (λ nodes b, foldl (λ nodes (node : map_node), node :: nodes) nodes b) acc l ≡ₚ concat l ++ acc) as Hout.
  { induction l as [|b l IH]; intros acc; simpl; [done|]. rewrite IH, Hin. rewrite <- app_assoc.
    rewrite !(app_assoc (concat l)), !(app_assoc b). apply Permutation_app_tail, Permutation_app_comm. }
  rewrite Hout, app_nil_r. clear. induction bks as [|b l IH]; [done|].
  rewrite reverse_cons, concat_app. simpl. rewrite app_nil_r, IH. apply Permutation_app_comm.
Qed.
Lemma empty_shape k nn : 0 <= k <= 30 → shape (mkMap (replicate (Z.to_nat (2 ^ k)) []) (2 ^ k) nn).
Proof.
  intros Hk. assert (0 < 2 ^ k) by (apply Z.pow_pos_nonneg; lia). split; simpl.
  - rewrite length_replicate. lia.
  - by exists k.
  - intros i b x [-> _]%lookup_replicate. set_solver.
Qed.
Lemma empty_nodes n nb nn : nodes (mkMap (replicate n []) nb nn) = [].
Proof. unfold nodes. simpl. by induction n. Qed.

(** Resizing keeps the nodes, whether or not the allocation succeeds. *)
Lemma resize_spec m k ok : (m = map_init ∨ shape m) → Forall (λ x, hash x = map_hash (nkey x)) (nodes m) →
  0 <= k <= 30 →
  ∃ m', map_resize (2 ^ k) ok m = Ret (if ok then 0 else -1) m' ∧ nodes m' ≡ₚ nodes m ∧ nnodes m' = nnodes m ∧
    (if ok then shape m' ∧ nbuckets m' = 2 ^ k else (m' = map_init ∨ shape m') ∧ nbuckets m' = nbuckets m).
Proof.
  intros Hm Hh Hk. assert (0 < 2 ^ k <= 2 ^ 30) as Hpos by (split; [apply Z.pow_pos_nonneg|apply Z.pow_le_mono_r]; lia).
  assert (Forall (λ x, hash x = map_hash (nkey x)) (chain_nodes (buckets m))) as Hh'.
  { by rewrite chain_nodes_perm. }
  set (m1 := if ok then mkMap (replicate (Z.to_nat (2 ^ k)) []) (u32 (2 ^ k)) (nnodes m) else m).
  assert (map_resize (2 ^ k) ok m = (null ← gets (λ m, bool_decide (buckets m = []));
    when (negb null) (modify (λ m, mkMap (replicate (Z.to_nat (nbuckets m)) []) (nbuckets m) (nnodes m)) ;;
      mfor (chain_nodes (buckets m)) map_addnode) ;; mret (if ok then 0 else -1)) m1) as Hrun by (by destruct ok).
  rewrite Hrun. clear Hrun. unfold mbind at 1, M_bind at 1, gets.
  destruct (bool_decide_reflect (buckets m1 = [])) as [Hnil|Hnn].
  - destruct ok; [exfalso|].
    { simpl in Hnil. destruct (Z.to_nat (2 ^ k)) eqn:E; [lia|done]. }
    subst m1. exists m. split_and!; done.
  - assert (shape m1 ∧ nbuckets m1 = (if ok then 2 ^ k else nbuckets m) ∧ nnodes m1 = nnodes m) as (Hs1 & Hb1 & Hn1).
    { subst m1. destruct ok; simpl; [|destruct Hm as [->|]; done].
      rewrite u32_small by lia. split; [by apply empty_shape|done]. }
    destruct (sh_pow m1 Hs1) as (j & Hj & Ej).
    set (m2 := mkMap (replicate (Z.to_nat (nbuckets m1)) []) (nbuckets m1) (nnodes m1)).
    destruct (addnodes_spec (chain_nodes (buckets m)) m2) as (m3 & Hm3 & Hs3 & Hp3 & Hb3 & Hn3); [|done|].
    { subst m2. rewrite Ej. by apply empty_shape. }
    exists m3. split_and!.
    + cbn [negb when]. unfold mbind, M_bind, modify. fold m2. by rewrite Hm3.
    + rewrite Hp3. unfold m2. rewrite empty_nodes, app_nil_r. apply chain_nodes_perm.
    + by rewrite Hn3.
    + destruct ok; [split; [done|]|split; [by right|]]; rewrite Hb3; exact Hb1.
Qed.

Lemma inv_hashes m : map_inv m → Forall (λ x, hash x = map_hash (nkey x)) (nodes m).
Proof.
  intros [[->|Hs] _ _ _]; [by constructor|]. apply Forall_forall. intros x (i & b & Hb & Hx)%elem_nodes.
  by destruct (sh_place m Hs i b x Hb Hx).
Qed.
Lemma empty_inv : map_inv map_init.
Proof. split; [by left|constructor|done|done]. Qed.

Lemma get_spec m key : map_inv m → map_get_ key m = Ret (abs m !! key) m.
Proof.
  intros Hi. unfold map_get_.
  destruct (getref_spec m key (mi_shape m Hi)) as [[Hm Hk]|(n & p & b & x & Hm & Hget & Hb & Hp & <-)];
    rewrite (bind_Ret _ _ _ _ _ Hm).
  - unfold abs. by rewrite entries_notin.
  - rewrite (bind_Ret _ _ _ _ _ Hget), Hp. simpl. unfold abs. rewrite (entries_at _ x); [done|apply Hi|].
    apply elem_nodes. exists (Z.to_nat n), b. split; [done|]. by eapply list_elem_of_lookup_2.
Qed.

Lemma place_write m n b b' : shape m → buckets m !! n = Some b →
  (∀ x, x ∈ b' → ∃ y, y ∈ b ∧ hash x = hash y ∧ nkey x = nkey y) →
  shape (mkMap (<[n := b']> (buckets m)) (nbuckets m) (nnodes m)).
Proof.
  intros [Hl Hp Hpl] Hb Hb'. split; simpl; [by rewrite length_insert|done|].
  intros i c x Hc Hx. apply list_lookup_insert_Some in Hc as [(<- & <- & _)|[_ Hc]]; [|by apply (Hpl i c)].
  destruct (Hb' x Hx) as (y & Hy & -> & ->). by apply (Hpl n b).
Qed.

Lemma set_old m key v : map_inv m → key ∈ nkey <$> nodes m → ∀ mok rok,
  ∃ m', map_set_ key v mok rok m = Ret 0 m' ∧ map_inv m' ∧ abs m' = <[key := v]> (abs m) ∧ nnodes m' = nnodes m.
Proof.
  intros Hi Hin mok rok. destruct (getref_spec m key (mi_shape m Hi)) as [[_ ?]|(n & p & b & x & Hm & Hget & Hb & Hp & <-)]; [done|].
  destruct (concat_split (buckets m) _ b p x (λ x, mkNode (hash x) v (nkey x)) Hb Hp) as (l1 & l2 & E1 & E2 & _).
  destruct (mi_shape m Hi) as [->|Hs]; [done|].
  eexists. split; [unfold map_set_; rewrite (bind_Ret _ _ _ _ _ Hm), (bind_Ret _ _ _ _ _ Hget); reflexivity|].
  assert (nodes m = l1 ++ x :: l2) as En by done.
  pose proof (mi_nodup m Hi) as Hnd. rewrite En in Hnd.
  assert (NoDup (nkey <$> l1 ++ mkNode (hash x) v (nkey x) :: l2)) as Hnd' by (rewrite fmap_app in *; exact Hnd).
  split_and!; [split|..]; simpl.
  - right. eapply place_write; [done|done|]. intros y Hy. apply list_elem_of_lookup in Hy as [j Hj].
    destruct (decide (j = p)) as [->|Hne].
    + rewrite list_lookup_alter_eq, Hp in Hj. injection Hj as <-. exists x. split; [by eapply list_elem_of_lookup_2|done].
    + rewrite list_lookup_alter_ne in Hj by done. exists y. split; [by eapply list_elem_of_lookup_2|done].
  - unfold nodes. simpl. rewrite E2. exact Hnd'.
  - unfold nodes. simpl. rewrite E2, (mi_n m Hi), En. by rewrite !length_app.
  - apply (mi_load m Hi).
  - unfold abs at 1, nodes. simpl. rewrite E2. unfold abs. rewrite En.
    rewrite (entries_perm (l1 ++ x :: l2) (x :: l1 ++ l2)) by (done || (symmetry; apply Permutation_middle)).
    rewrite (entries_perm (l1 ++ mkNode (hash x) v (nkey x) :: l2) (mkNode (hash x) v (nkey x) :: l1 ++ l2))
      by (done || (symmetry; apply Permutation_middle)).
    rewrite !entries_cons. simpl. by rewrite insert_insert_eq.
  - done.
Qed.

Lemma set_new m key v mok rok : map_inv m → key ∉ nkey <$> nodes m → nnodes m < 2 ^ 29 →
  let r := if mok && ((nnodes m <? nbuckets m) || rok) then 0 else -1 in
  ∃ m', map_set_ key v mok rok m = Ret r m' ∧ map_inv m' ∧
    (r = 0 → abs m' = <[key := v]> (abs m) ∧ nnodes m' = nnodes m + 1) ∧
    (r ≠ 0 → abs m' = abs m ∧ nnodes m' = nnodes m).
Proof.
  intros Hi Hin Hbig. destruct (getref_spec m key (mi_shape m Hi)) as [[Hm _]|(n & p & b & x & Hm & Hget & Hb & Hp & <-)].
  2: { exfalso. apply Hin, list_elem_of_fmap. exists x. split; [done|]. apply elem_nodes.
       exists (Z.to_nat n), b. split; [done|]. by eapply list_elem_of_lookup_2. }
  unfold map_set_. rewrite (bind_Ret _ _ _ _ _ Hm). clear Hm.
  destruct mok; cbn [andb negb]; [|exists m; by split_and!].
  unfold mbind at 1 2, M_bind at 1 2, gets.
  assert (∀ m0, shape m0 → nodes m0 ≡ₚ nodes m → nnodes m0 = nnodes m → nnodes m < nbuckets m0 →
    ∃ m', (map_addnode (map_newnode key v) ;; modify (λ m, mkMap (buckets m) (nbuckets m) (u32 (nnodes m + 1))) ;;
      mret 0) m0 = Ret 0 m' ∧ map_inv m' ∧ abs m' = <[key := v]> (abs m) ∧ nnodes m' = nnodes m + 1) as Hadd.
  { intros m0 Hs0 Hp0 Hn0 Hl0. destruct (addnode_spec (map_newnode key v) m0 Hs0 eq_refl) as (m1 & Hm1 & Hs1 & Hp1 & Hb1 & Hn1).
    rewrite (bind_Ret _ _ _ _ _ Hm1). eexists. split; [reflexivity|].
    assert (nodes m1 ≡ₚ map_newnode key v :: nodes m) as Hpm by (by rewrite Hp1, Hp0).
    assert (0 <= nnodes m) by (rewrite (mi_n m Hi); lia).
    assert (u32 (nnodes m1 + 1) = nnodes m + 1) as E by (rewrite Hn1, Hn0; apply u32_small; lia).
    assert (NoDup (nkey <$> nodes m1)) as Hnd1.
    { rewrite Hpm. simpl. apply NoDup_cons. split; [done|apply Hi]. }
    split_and!; [split|..]; simpl; rewrite ?E; try done.
    - right. destruct Hs1. by split.
    - unfold nodes. simpl. fold (nodes m1). rewrite Hpm. simpl. rewrite (mi_n m Hi). lia.
    - rewrite Hb1. lia.
    - unfold abs at 1, nodes. simpl. fold (nodes m1). by rewrite (entries_perm _ _ Hnd1 Hpm). }
  pose proof (mi_load m Hi) as Hload. pose proof (mi_n m Hi) as Hnn.
  destruct (Z.leb_spec (nbuckets m) (nnodes m)) as [Hfull|Hroom].
  - rewrite (proj2 (Z.ltb_ge (nnodes m) (nbuckets m)) Hfull). cbn [orb].
    assert (∃ k, 0 <= k <= 30 ∧ (if 0 <? nbuckets m then s32 (u32 (Z.shiftl (nbuckets m) 1)) else 1) = 2 ^ k ∧
      nnodes m < 2 ^ k) as (k & Hk & -> & Hgrow).
    { destruct (mi_shape m Hi) as [->|Hs]; [exists 0; done|].
      destruct (sh_pow m Hs) as (k & Hk & E). rewrite E in *.
      assert (0 < 2 ^ k) by (apply Z.pow_pos_nonneg; lia).
      assert (k < 29) by (apply (Z.pow_lt_mono_r_iff 2); lia).
      exists (k + 1). split; [lia|]. rewrite (proj2 (Z.ltb_lt _ _)) by done.
      rewrite Z.shiftl_mul_pow2 by lia. rewrite Z.pow_add_r by lia. change (2 ^ 1) with 2.
      split; [|lia]. rewrite u32_small, s32_small; lia. }
    destruct (resize_spec m k rok (mi_shape m Hi) (inv_hashes m Hi) Hk) as (m0 & Hm0 & Hp0 & Hn0 & Hs0).
    rewrite (bind_Ret _ _ _ _ _ Hm0). destruct rok; cbn [orb].
    + destruct Hs0 as [Hs0 Hb0]. change (negb (0 =? 0)) with false. cbn iota.
      destruct (Hadd m0) as (m' & Hm' & Hi' & Ha' & Hn'); [done|done|done|lia|]. exists m'. by split_and!.
    + destruct Hs0 as [Hs0 Hb0]. change (negb (-1 =? 0)) with true. cbn iota. exists m0.
      assert (NoDup (nkey <$> nodes m0)) as Hnd0 by (rewrite Hp0; apply Hi).
      split; [done|]. split; [|split; [done|]].
      * split; [done|done|by rewrite Hn0, Hp0|lia].
      * intros _. split; [|done]. unfold abs. by apply entries_perm.
  - rewrite (proj2 (Z.ltb_lt (nnodes m) (nbuckets m)) Hroom). cbn [orb].
    change (mbind (M:=M map_base) (λ err, if negb (err =? 0) then mret (-1) else _) (mret 0) m) with
      ((map_addnode (map_newnode key v) ;; modify (λ m, mkMap (buckets m) (nbuckets m) (u32 (nnodes m + 1))) ;;
      mret 0) m).
    destruct (mi_shape m Hi) as [->|Hs]; [simpl in Hroom; lia|].
    destruct (Hadd m) as (m' & Hm' & Hi' & Ha' & Hn'); [done..|]. exists m'. by split_and!.
Qed.

Lemma remove_spec m key : map_inv m → nnodes m < 2 ^ 32 →
  ∃ m', map_remove_ key m = Ret () m' ∧ map_inv m' ∧ abs m' = delete key (abs m) ∧ nnodes m' <= nnodes m.
Proof.
  intros Hi Hbig. unfold map_remove_.
  destruct (getref_spec m key (mi_shape m Hi)) as [[Hm Hk]|(n & p & b & x & Hm & Hget & Hb & Hp & <-)];
    rewrite (bind_Ret _ _ _ _ _ Hm).
  - exists m. split_and!; [done|done| |done]. symmetry. apply delete_id. unfold abs. by apply entries_notin.
  - rewrite (bind_Ret _ _ _ _ _ Hget).
    destruct (concat_split (buckets m) _ b p x (λ x, x) Hb Hp) as (l1 & l2 & E1 & _ & E3).
    destruct (mi_shape m Hi) as [->|Hs]; [done|].
    assert (nodes m = l1 ++ x :: l2) as En by done.
    pose proof (mi_nodup m Hi) as Hnd. rewrite En in Hnd.
    assert (x :: l1 ++ l2 ≡ₚ l1 ++ x :: l2) as Hpm by apply Permutation_middle.
    assert (NoDup (nkey <$> x :: l1 ++ l2)) as Hnd' by (by rewrite Hpm).
    simpl in Hnd'. apply NoDup_cons in Hnd' as [Hnx Hnd'].
    assert (u32 (nnodes m - 1) = nnodes m - 1) as E.
    { apply u32_small. rewrite (mi_n m Hi), En, length_app in *. simpl in *. lia. }
    eexists. split; [reflexivity|]. split_and!; [split|..]; simpl; rewrite ?E.
    + right. destruct (place_write m _ b (delete p b) Hs Hb) as [? ? ?]; [|by split].
      intros y Hy. exists y. split; [|done]. apply list_elem_of_lookup in Hy as [j Hj].
      apply list_elem_of_lookup. destruct (decide (j < p)%nat).
      * rewrite list_lookup_delete_lt in Hj by done. eauto.
      * rewrite list_lookup_delete_ge in Hj by lia. eauto.
    + unfold nodes. simpl. by rewrite E3.
    + unfold nodes. simpl. rewrite E3, (mi_n m Hi), En, !length_app. simpl. lia.
    + pose proof (mi_load m Hi). lia.
    + unfold abs at 1, nodes. simpl. rewrite E3. unfold abs. rewrite En.
      rewrite (entries_perm (l1 ++ x :: l2) (x :: l1 ++ l2)) by (done || (symmetry; apply Permutation_middle)).
      rewrite entries_cons, delete_insert_id; [done|]. by apply entries_notin.
    + lia.
Qed.

(** ** Histories *)
Inductive map_op := OpSet (key : cstr) (v : Z) | OpGet (key : cstr) | OpRemove (key : cstr).
Definition run_op (o : map_op) : M map_base (option Z) :=
  match o with
  | OpSet key v => r ← map_set_ key v true true; mret (Some r)
  | OpGet key => map_get_ key
  | OpRemove key => map_remove_ key ;; mret None
  end.
Fixpoint run_ops (os : list map_op) : M map_base (list (option Z)) :=
  match os with
  | [] => mret []
  | o :: os => x ← run_op o; xs ← run_ops os; mret (x :: xs)
  end.
(** The same operations on a finite map. *)
Definition spec_op (o : map_op) (m : gmap cstr Z) : option Z * gmap cstr Z :=
  match o with
  | OpSet key v => (Some 0, <[key := v]> m)
  | OpGet key => (m !! key, m)
  | OpRemove key => (None, delete key m)
  end.
Fixpoint spec_ops (os : list map_op) (m : gmap cstr Z) : list (option Z) * gmap cstr Z :=
  match os with
  | [] => ([], m)
  | o :: os =>
      let '(x, m) := spec_op o m in
      let '(xs, m) := spec_ops os m in
      (x :: xs, m)
  end.

Lemma set_spec m key v : map_inv m → nnodes m < 2 ^ 29 →
  ∃ m', map_set_ key v true true m = Ret 0 m' ∧ map_inv m' ∧ abs m' = <[key := v]> (abs m) ∧ nnodes m' <= nnodes m + 1.
Proof.
  intros Hi Hb. destruct (decide (key ∈ nkey <$> nodes m)) as [Hin|Hin].
  - destruct (set_old m key v Hi Hin true true) as (m' & ? & ? & ? & Hn). exists m'. split_and!; try done; lia.
  - destruct (set_new m key v true true Hi Hin Hb) as (m' & Hm & Hi' & Hs & _). rewrite orb_true_r in *. cbn [andb] in *.
    destruct Hs as [Ha Hn]; [done|]. exists m'. split_and!; try done; lia.
Qed.
Lemma run_ops_ok os m : map_inv m → nnodes m + Z.of_nat (length os) < 2 ^ 29 →
  ∃ m', run_ops os m = Ret (spec_ops os (abs m)).1 m' ∧ map_inv m' ∧ abs m' = (spec_ops os (abs m)).2.
Proof.
  revert m. induction os as [|o os IH]; intros m Hi Hb; simpl; [by exists m|].
  assert (∃ m1, run_op o m = Ret (spec_op o (abs m)).1 m1 ∧ map_inv m1 ∧ abs m1 = (spec_op o (abs m)).2 ∧
    nnodes m1 <= nnodes m + 1) as (m1 & Hm1 & Hi1 & Ha1 & Hn1).
  { simpl in Hb. destruct o as [key v|key|key]; simpl.
    - destruct (set_spec m key v Hi) as (m1 & Hm1 & ? & ? & ?); [lia|]. exists m1. by rewrite (bind_Ret _ _ _ _ _ Hm1).
    - exists m. split_and!; [by apply get_spec|done|done|lia].
    - destruct (remove_spec m key Hi) as (m1 & Hm1 & ? & ? & ?); [lia|]. exists m1.
      rewrite (bind_Ret _ _ _ _ _ Hm1). split_and!; [done..|lia]. }
  destruct (spec_op o (abs m)) as [x g]. simpl in *. destruct (IH m1 Hi1) as (m2 & Hm2 & Hi2 & Ha2); [lia|].
  rewrite Ha1 in *. destruct (spec_ops os g) as [xs g']. simpl in *. exists m2. split; [|done].
  rewrite (bind_Ret _ _ _ _ _ Hm1). by rewrite (bind_Ret _ _ _ _ _ Hm2).
Qed.

(** C24: the hash map refines a finite map from strings to ints: any sequence of
    [map_set], [map_get] and [map_remove] on an initialised map gives the results of
    the same sequence on the finite map, through every resize and hash collision. *)
Theorem map_refines_gmap os : Z.of_nat (length os) < 2 ^ 29 →
  ∃ m', run_ops os map_init = Ret (spec_ops os ∅).1 m' ∧ abs m' = (spec_ops os ∅).2.
Proof.
  intros Hb. destruct (run_ops_ok os map_init empty_inv) as (m' & Hm & _ & Ha); [exact Hb|]. by exists m'.
Qed.
Lemma map_refines_gmap_witness :
  let k1 := [97; 98] in let k2 := [98; 97; 255] in
  let os := [OpSet k1 1; OpSet k2 2; OpSet k1 3; OpGet k1; OpRemove k1; OpGet k1; OpGet k2] in
  ∃ m', run_ops os map_init = Ret [Some 0; Some 0; Some 0; Some 3; None; None; Some 2] m' ∧ abs m' !! k2 = Some 2.
Proof.
  intros k1 k2 os. destruct (map_refines_gmap os) as (m' & Hm & Ha); [done|]. exists m'. split; [exact Hm|].
  rewrite Ha. by vm_compute.
Defined.

(** ** Iteration *)
(** [while ((key = map_next(m, &iter)))] *)
Fixpoint iterate (fuel : nat) (m : map_base) : M map_iter_t (list cstr) :=
  match fuel with
  | O => diverge
  | S fuel =>
      o ← map_next_ m;
      match o with
      | Some key => keys ← iterate fuel m; mret (key :: keys)
      | None => mret []
      end
  end.

(** The nodes an iterator still has to visit. *)
Definition ahead (m : map_base) (it : map_iter_t) : list map_node :=
  tail (node it) ++ concat (drop (Z.to_nat (u32 (bucketidx it + 1))) (buckets m)).

Lemma next_bucket_spec fuel m i it : map_inv m → nbuckets m < 2 ^ 31 →
  0 <= u32 (i + 1) <= nbuckets m → nbuckets m - u32 (i + 1) < Z.of_nat fuel →
  let rest := concat (drop (Z.to_nat (u32 (i + 1))) (buckets m)) in
  ∃ it', next_bucket fuel m i it = Ret (nkey <$> head rest) it' ∧ 0 <= u32 (bucketidx it' + 1) <= nbuckets m + 1 ∧
    (rest = [] ∨ ahead m it' = tail rest ∧ u32 (bucketidx it' + 1) <= nbuckets m).
Proof.
  intros Hi Hnb. assert (nbuckets m = Z.of_nat (length (buckets m))) as Hlen.
  { destruct (mi_shape m Hi) as [->|[? _ _]]; done. }
  revert i. induction fuel as [|fuel IH]; intros i Hr Hf; [lia|]. cbn [next_bucket].
  set (j := u32 (i + 1)) in *. destruct (Z.leb_spec (nbuckets m) j) as [Hend|Hlt].
  - rewrite drop_ge by lia. eexists. split; [reflexivity|]. simpl. split; [rewrite u32_small; lia|by left].
  - destruct (lookup_lt_is_Some_2 (buckets m) (Z.to_nat j)) as [b Hb]; [lia|].
    rewrite (drop_S _ b) by done.
    assert (u32 (j + 1) = j + 1) as Ej by (apply u32_small; lia).
    replace (S (Z.to_nat j)) with (Z.to_nat (u32 (j + 1))) by lia.
    unfold aget. rewrite (proj2 (Z.ltb_ge _ _)) by lia. rewrite Hb.
    unfold mbind at 1, M_bind, mret, M_ret. destruct b as [|x b].
    + simpl. apply IH; lia.
    + eexists. split; [reflexivity|]. simpl. split; [lia|]. right. split; [done|lia].
Qed.
Lemma iterate_spec fuel m it : map_inv m → nbuckets m < 2 ^ 31 → 0 <= u32 (bucketidx it + 1) <= nbuckets m →
  (length (ahead m it) < fuel)%nat → ∃ it', iterate fuel m it = Ret (nkey <$> ahead m it) it'.
Proof.
  intros Hi Hnb. assert (nbuckets m = Z.of_nat (length (buckets m))) as Hlen.
  { destruct (mi_shape m Hi) as [->|[? _ _]]; done. }
  revert it. induction fuel as [|fuel IH]; intros it Hr Hf; [lia|]. simpl.
  assert ((∃ x y l, node it = x :: y :: l) ∨ tail (node it) = []) as [(x & y & l & En)|En].
  { destruct (node it) as [|x [|y l]]; [by right..|]. left. by exists x, y, l. }
  - assert (map_next_ m it = Ret (Some (nkey y)) (mkIter (bucketidx it) (y :: l))) as Hn.
    { destruct it as [i nd]. simpl in En. by subst nd. }
    rewrite (bind_Ret _ _ _ _ _ Hn).
    destruct (IH (mkIter (bucketidx it) (y :: l))) as (it' & Hit).
    + done.
    + unfold ahead in *. rewrite En in Hf. simpl in *. lia.
    + exists it'. rewrite (bind_Ret _ _ _ _ _ Hit). unfold ahead. by rewrite En.
  - assert (map_next_ m it = next_bucket (S (length (buckets m))) m (bucketidx it) it) as Hn.
    { destruct it as [i [|x [|y l]]]; done. }
    destruct (next_bucket_spec (S (length (buckets m))) m (bucketidx it) it Hi Hnb Hr) as (it1 & Hm1 & _ & Hc); [lia|].
    rewrite Hm1 in Hn. rewrite (bind_Ret _ _ _ _ _ Hn). unfold ahead in *. rewrite En in *. simpl in *.
    destruct (concat _) as [|x rest] eqn:Er; [by eexists|]. simpl. destruct Hc as [?|[Hc Hb]]; [done|].
    simpl in Hc. destruct (IH it1) as (it' & Hit).
    + split; [apply u32_range|done].
    + rewrite Hc. simpl in Hf. lia.
    + rewrite Hc in Hit. exists it'. by rewrite (bind_Ret _ _ _ _ _ Hit).
Qed.

(** An iteration over an unchanged map visits each key of the map exactly once
    and then ends. *)
Theorem map_iteration_complete os m : Z.of_nat (length os) < 2 ^ 29 →
  run_ops os map_init = Ret (spec_ops os ∅).1 m →
  ∃ fuel keys it, iterate fuel m map_iter_ = Ret keys it ∧ NoDup keys ∧
    ∀ key, key ∈ keys ↔ is_Some ((spec_ops os ∅).2 !! key).
Proof.
  intros Hb Hm. destruct (run_ops_ok os map_init empty_inv) as (m' & Hm' & Hi & Ha); [exact Hb|].
  change (abs map_init) with (∅ : gmap cstr Z) in *. rewrite Hm in Hm'. injection Hm' as <-.
  assert (nbuckets m < 2 ^ 31) as Hnb.
  { destruct (mi_shape m Hi) as [->|Hs]; [done|]. destruct (sh_pow m Hs) as (k & Hk & ->).
    apply Z.pow_lt_mono_r; lia. }
  assert (0 <= nbuckets m) by (pose proof (mi_load m Hi); pose proof (mi_n m Hi); lia).
  destruct (iterate_spec (S (length (nodes m))) m map_iter_ Hi Hnb) as (it & Hit).
  - change (u32 (bucketidx map_iter_ + 1)) with 0. lia.
  - apply Nat.lt_succ_diag_r.
  - exists (S (length (nodes m))), (nkey <$> nodes m), it. split; [exact Hit|]. split; [apply Hi|].
    intros key. rewrite <- Ha. unfold abs. split.
    + intros (x & -> & Hx)%list_elem_of_fmap. exists (value x). apply entries_at; [apply Hi|done].
    + intros [v Hv]. destruct (decide (key ∈ nkey <$> nodes m)) as [|Hn]; [done|].
      by rewrite entries_notin in Hv.
Qed.
Lemma map_iteration_complete_witness :
  ∃ m fuel keys it, iterate fuel m map_iter_ = Ret keys it ∧ NoDup keys ∧ [97] ∈ keys.
Proof.
  destruct (run_ops_ok [OpSet [97] 1; OpSet [98] 2] map_init empty_inv) as (m & Hm & _); [done|].
  destruct (map_iteration_complete [OpSet [97] 1; OpSet [98] 2] m) as (fuel & keys & it & Hit & Hnd & Hk); [done|exact Hm|].
  exists m, fuel, keys, it. split; [exact Hit|]. split; [exact Hnd|]. apply Hk. by exists 1.
Defined.
