(* ===== verification/MapReduce.v ===== *)
(** * The MapReduce library and its two programs (src/06_Map-Reduce/mapreduce.c from
    line 256 on, wordcount.c, sort.c)

    [mr] holds the library's static variables and heap.  A partition's list of
    pair pointers is the list of the pairs, [None] where the pointer was never set;
    arrays from malloc start as [None] everywhere.  [qsort] and the partition
    function are parameters: the C library promises a sorted permutation.

    Mutexes make a function body, or the part between lock and unlock, one step.
    The sequential functions come first; the section [threads] has the mapper
    threads as a step relation. *)

From S2P Require Import Prelude CText HashMap.

Record kv_pair := mkKv {
  key : cstr;
  val : cstr;  (* value *)
}.
Record partition_data := mkPart {
  kv_pair_list : list (option kv_pair);
  size_of_list : Z;
  next_to_fill : Z;
  num_keys : Z;
  start_idxs : list (option Z);
  end_idxs : list (option Z);
  cur_idxs : list (option Z);
  cur_key_idx : Z;
  pmap : map_base;  (* m *)
  sent_flag : Z;
}.
Definition set_kv_pair_list (x : list (option kv_pair)) (r : partition_data) : partition_data :=
  mkPart x (size_of_list r) (next_to_fill r) (num_keys r) (start_idxs r) (end_idxs r) (cur_idxs r) (cur_key_idx r) (pmap r) (sent_flag r).
Definition set_size_of_list (x : Z) (r : partition_data) : partition_data :=
  mkPart (kv_pair_list r) x (next_to_fill r) (num_keys r) (start_idxs r) (end_idxs r) (cur_idxs r) (cur_key_idx r) (pmap r) (sent_flag r).
Definition set_next_to_fill (x : Z) (r : partition_data) : partition_data :=
  mkPart (kv_pair_list r) (size_of_list r) x (num_keys r) (start_idxs r) (end_idxs r) (cur_idxs r) (cur_key_idx r) (pmap r) (sent_flag r).
Definition set_num_keys (x : Z) (r : partition_data) : partition_data :=
  mkPart (kv_pair_list r) (size_of_list r) (next_to_fill r) x (start_idxs r) (end_idxs r) (cur_idxs r) (cur_key_idx r) (pmap r) (sent_flag r).
Definition set_start_idxs (x : list (option Z)) (r : partition_data) : partition_data :=
  mkPart (kv_pair_list r) (size_of_list r) (next_to_fill r) (num_keys r) x (end_idxs r) (cur_idxs r) (cur_key_idx r) (pmap r) (sent_flag r).
Definition set_end_idxs (x : list (option Z)) (r : partition_data) : partition_data :=
  mkPart (kv_pair_list r) (size_of_list r) (next_to_fill r) (num_keys r) (start_idxs r) x (cur_idxs r) (cur_key_idx r) (pmap r) (sent_flag r).
Definition set_cur_idxs (x : list (option Z)) (r : partition_data) : partition_data :=
  mkPart (kv_pair_list r) (size_of_list r) (next_to_fill r) (num_keys r) (start_idxs r) (end_idxs r) x (cur_key_idx r) (pmap r) (sent_flag r).
Definition set_cur_key_idx (x : Z) (r : partition_data) : partition_data :=
  mkPart (kv_pair_list r) (size_of_list r) (next_to_fill r) (num_keys r) (start_idxs r) (end_idxs r) (cur_idxs r) x (pmap r) (sent_flag r).
Definition set_pmap (x : map_base) (r : partition_data) : partition_data :=
  mkPart (kv_pair_list r) (size_of_list r) (next_to_fill r) (num_keys r) (start_idxs r) (end_idxs r) (cur_idxs r) (cur_key_idx r) x (sent_flag r).
Definition set_sent_flag (x : Z) (r : partition_data) : partition_data :=
  mkPart (kv_pair_list r) (size_of_list r) (next_to_fill r) (num_keys r) (start_idxs r) (end_idxs r) (cur_idxs r) (cur_key_idx r) (pmap r) x.
(** The static variables: the arguments that are left for the mappers and the partitions
    that are left for the reducers are indices. *)
Record mr := mkMr {
  partition_list : list partition_data;
  my_num_partitions : Z;
  input_args : list cstr;
  arg_idx : Z;  (* my_arg_next.idx *)
  cur_reduce_partition : Z;
}.
Definition set_partition_list (x : list partition_data) (r : mr) : mr :=
  mkMr x (my_num_partitions r) (input_args r) (arg_idx r) (cur_reduce_partition r).
Definition set_my_num_partitions (x : Z) (r : mr) : mr :=
  mkMr (partition_list r) x (input_args r) (arg_idx r) (cur_reduce_partition r).
Definition set_input_args (x : list cstr) (r : mr) : mr :=
  mkMr (partition_list r) (my_num_partitions r) x (arg_idx r) (cur_reduce_partition r).
Definition set_arg_idx (x : Z) (r : mr) : mr :=
  mkMr (partition_list r) (my_num_partitions r) (input_args r) x (cur_reduce_partition r).
Definition set_cur_reduce_partition (x : Z) (r : mr) : mr :=
  mkMr (partition_list r) (my_num_partitions r) (input_args r) (arg_idx r) x.

(** ** Partition functions *)
Definition MR_DefaultHashPartition (key : cstr) (num_partitions : Z) : Z :=
  let hash := foldl (λ hash c, u64 (hash * 33 + char_of c)) 5381 key in
  hash mod u64 num_partitions.

(** [strtoul(s, NULL, 0)]: white space, a sign, a prefix that gives the base, and the
    digits up to the first that is not one; saturating. *)
Definition is_space (c : Z) : bool := (c =? 32) || ((9 <=? c) && (c <=? 13)).
Fixpoint skip_space (s : cstr) : cstr :=
  match s with c :: s' => if is_space c then skip_space s' else s | [] => [] end.
Definition digit_of (c : Z) : Z :=
  if (48 <=? c) && (c <=? 57) then c - 48
  else if (97 <=? c) && (c <=? 122) then c - 87
  else if (65 <=? c) && (c <=? 90) then c - 55
  else 99.
Fixpoint digits (base acc : Z) (s : cstr) : Z :=
  match s with
  | c :: s' => if digit_of c <? base then digits base (acc * base + digit_of c) s' else acc
  | [] => acc
  end.
Definition magnitude (s : cstr) : Z :=
  match s with
  | 48 :: x :: d :: s' =>
      if ((x =? 120) || (x =? 88)) && (digit_of d <? 16) then digits 16 0 (d :: s') else digits 8 0 s
  | 48 :: _ => digits 8 0 s
  | _ => digits 10 0 s
  end.
Definition ULONG_MAX : Z := 2 ^ 64 - 1.
Definition strtoul (s : cstr) : Z :=
  match skip_space s with
  | 45 :: s' => if ULONG_MAX <? magnitude s' then ULONG_MAX else u64 (- magnitude s')
  | 43 :: s' => Z.min ULONG_MAX (magnitude s')
  | s' => Z.min ULONG_MAX (magnitude s')
  end.

Definition MR_SortedPartition (key : cstr) (num_partitions : Z) : Z :=
  let key_num := strtoul key in
  Z.shiftr (u64 (key_num * u64 num_partitions)) 32.

(** ** Arrays *)
Definition aput {S A} (why : string) (l : list A) (i : Z) (x : A) : M S (list A) :=
  if (0 <=? i) && (i <? Z.of_nat (length l)) then mret (<[Z.to_nat i := x]> l) else fault why.
(** Reading an array cell that must have been written. *)
Definition aread {S A} (l : list (option A)) (i : Z) : M S A :=
  o ← aget l i;
  match o with Some x => mret x | None => fault "uninitialised value" end.

(** The sign of [strcmp(a, b)]: characters compare as unsigned bytes. *)
Fixpoint strcmp (a b : cstr) : Z :=
  match a, b with
  | [], [] => 0
  | [], _ :: _ => -1
  | _ :: _, [] => 1
  | c :: a, d :: b => if c <? d then -1 else if d <? c then 1 else strcmp a b
  end.
Definition kv_pair_comparator (p1 p2 : kv_pair) : Z := strcmp (key p1) (key p2).

Section library.
Context (qsort : list kv_pair → list kv_pair) (partitioner : cstr → Z → Z).

Definition get_part (i : Z) : M mr partition_data := l ← gets partition_list; aget l i.
Definition put_part (i : Z) (p : partition_data) : M mr () :=
  modify (λ s, set_partition_list (<[Z.to_nat i := p]> (partition_list s)) s).

Definition INIT_MAX_KV_PAIR_PARTITION : Z := 2.
Definition fresh_partition : partition_data :=
  mkPart (replicate (Z.to_nat INIT_MAX_KV_PAIR_PARTITION) None) INIT_MAX_KV_PAIR_PARTITION 0 0 [] [] [] 0 map_init 0.
Definition init_partition_list : M mr () :=
  n ← gets my_num_partitions;
  modify (set_partition_list (replicate (Z.to_nat n) fresh_partition)).

Definition MR_Emit (k v : cstr) : M mr () :=
  n ← gets my_num_partitions;
  let partition_num := partitioner k n in
  p ← get_part partition_num;
  p ← (if next_to_fill p =? size_of_list p then
         let original_size := size_of_list p in
         let size := u64 (original_size * 2) in
         mret (set_kv_pair_list (take (Z.to_nat original_size) (kv_pair_list p) ++
                 replicate (Z.to_nat (size - original_size)) None) (set_size_of_list size p))
       else mret p);
  l ← aput "kv_pair_list index out of bounds" (kv_pair_list p) (next_to_fill p) (Some (mkKv k v));
  put_part partition_num (set_next_to_fill (u64 (next_to_fill p + 1)) (set_kv_pair_list l p)).

(** The first loop of [sort_partition]: how often the key changes, and the last key. *)
Definition count_keys (l : list kv_pair) : Z * option cstr :=
  foldl (λ '(num_keys, key_tmp) p,
    if bool_decide (key_tmp = Some (key p)) then (num_keys, key_tmp)
    else (num_keys + 1, Some (key p))) (0, None) l.

(** The second loop, from index [i] on, with its variables [key_tmp] and
    [cur_key_idx]; the result is the last [cur_key_idx]. *)
Fixpoint index_keys (l : list kv_pair) (i : Z) (key_tmp : option cstr) (cur : Z) : M partition_data Z :=
  match l with
  | [] => mret cur
  | p :: l =>
      if bool_decide (key_tmp = Some (key p)) then index_keys l (i + 1) key_tmp cur
      else
        (if -1 <? cur then
           e ← gets end_idxs;
           e ← aput "end_idxs index out of bounds" e cur (Some i);
           modify (set_end_idxs e)
         else mret ()) ;;
        let cur := cur + 1 in
        st ← gets start_idxs;
        st ← aput "start_idxs index out of bounds" st cur (Some i);
        modify (set_start_idxs st) ;;
        zoom pmap set_pmap (map_set_ (key p) cur true true) ;;
        c ← gets cur_idxs;
        c ← aput "cur_idxs index out of bounds" c cur (Some i);
        modify (set_cur_idxs c) ;;
        index_keys l (i + 1) (Some (key p)) cur
  end.

(** The body of [sort_partition], on the partition. *)
Definition sort_part : M partition_data () :=
  n ← gets next_to_fill;
  all ← gets kv_pair_list;
  match mapM (λ o, o) (take (Z.to_nat n) all) with
  | None => fault "null pair pointer"
  | Some l =>
      let sorted := qsort l in
      modify (set_kv_pair_list ((Some <$> sorted) ++ drop (Z.to_nat n) all)) ;;
      let '(num, key_tmp) := count_keys sorted in
      modify (set_num_keys num) ;;
      let arr := replicate (Z.to_nat num) None in
      modify (set_start_idxs arr) ;;
      modify (set_end_idxs arr) ;;
      modify (set_cur_idxs arr) ;;
      modify (set_pmap map_init) ;;
      cur ← index_keys sorted 0 key_tmp (-1);
      when (negb (cur =? -1)) (
        e ← gets end_idxs;
        e ← aput "end_idxs index out of bounds" e cur (Some n);
        modify (set_end_idxs e)) ;;
      modify (set_cur_key_idx 0)
  end.
(** Running code on one partition. *)
Definition on_part {A} (i : Z) (m : M partition_data A) : M mr A := λ s,
  match get_part i s with
  | Ret p s => zoom (λ _, p) (λ p' s, set_partition_list (<[Z.to_nat i := p']> (partition_list s)) s) m s
  | Panic msg => Panic msg
  | Fault why => Fault why
  | Block s => Block s
  | Diverge => Diverge
  end.
Definition sort_partition (partition_idx : Z) : M mr () := on_part partition_idx sort_part.

(** [Get]: the next value of a key, or NULL. *)
Definition Get (k : cstr) : M partition_data (option cstr) :=
  m ← gets pmap;
  match map_get_ k m with
  | Ret (Some key_idx) _ =>
      c ← gets cur_idxs;
      cur ← aread c key_idx;
      e ← gets end_idxs;
      end_idx ← aread e key_idx;
      if end_idx <=? cur then mret None
      else
        c ← aput "cur_idxs index out of bounds" c key_idx (Some (u64 (cur + 1)));
        modify (set_cur_idxs c) ;;
        l ← gets kv_pair_list;
        p ← aread l cur;
        mret (Some (val p))
  | _ => fault "null pointer from map_get"
  end.

(** A reducer's loop [while ((value = get_next(key, p)) != NULL)]: the values. *)
Fixpoint get_all (fuel : nat) (k : cstr) : M partition_data (list cstr) :=
  match fuel with
  | O => diverge
  | S fuel =>
      o ← Get k;
      match o with
      | Some v => vs ← get_all fuel k; mret (v :: vs)
      | None => mret []
      end
  end.
(** The loop of [reduce_controller] over the keys of its partition, for a reducer
    that reads all values of its key; the result lists its calls: key and values. *)
Fixpoint reduce_keys (idxs : list Z) : M partition_data (list (cstr * list cstr)) :=
  match idxs with
  | [] => mret []
  | i :: idxs =>
      st ← gets start_idxs;
      kv_pair_idx ← aread st i;
      l ← gets kv_pair_list;
      p ← aread l kv_pair_idx;
      fuel ← gets (λ p, S (Z.to_nat (next_to_fill p)));
      vs ← get_all fuel (key p);
      modify (λ p, set_sent_flag (sent_flag p + 1) p) ;;
      rest ← reduce_keys idxs;
      mret ((key p, vs) :: rest)
  end.
(** [reduce_controller] from the partition it took to the end of that partition; it
    waits for the flag of the one before. *)
Definition reduce_partition (i : Z) : M mr (list (cstr * list cstr)) :=
  sort_partition i ;;
  when (0 <? i) (
    p ← get_part (i - 1);
    if 0 <? sent_flag p then put_part (i - 1) (set_sent_flag (sent_flag p - 1) p) else block) ;;
  p ← get_part i;
  calls ← on_part i (reduce_keys (seqZ 0 (num_keys p)));
  when (num_keys p =? 0) (on_part i (modify (λ p, set_sent_flag (sent_flag p + 1) p))) ;;
  mret calls.

(** The worker loops run by one thread: take the next index under the lock. *)
Definition take_arg : M mr (option cstr) :=
  next_idx ← gets arg_idx;
  modify (set_arg_idx (next_idx + 1)) ;;
  args ← gets input_args;
  if Z.of_nat (length args) <=? next_idx then mret None
  else a ← aget args next_idx; mret (Some a).
Definition take_partition : M mr (option Z) :=
  p ← gets cur_reduce_partition;
  n ← gets my_num_partitions;
  if n <=? p then mret None
  else modify (set_cur_reduce_partition (p + 1)) ;; mret (Some p).
End library.

(** * Correctness of a partition *)
Lemma strcmp_refl a : strcmp a a = 0.
Proof. induction a as [|c a IH]; simpl; [done|]. by rewrite !Z.ltb_irrefl. Qed.
Lemma strcmp_antisym a b : strcmp a b <= 0 → strcmp b a <= 0 → a = b.
Proof.
  revert b. induction a as [|c a IH]; intros [|d b]; simpl; [done|lia|lia|].
  destruct (Z.ltb_spec c d), (Z.ltb_spec d c); try lia. intros. f_equal; [lia|by apply IH].
Qed.
Lemma strcmp_trans a b c : strcmp a b <= 0 → strcmp b c <= 0 → strcmp a c <= 0.
Proof.
  revert b c. induction a as [|x a IH]; intros [|y b] [|z c]; simpl; try lia.
  destruct (Z.ltb_spec x y), (Z.ltb_spec y x), (Z.ltb_spec y z), (Z.ltb_spec z y), (Z.ltb_spec x z), (Z.ltb_spec z x);
    try lia; intros; eapply IH; eauto.
Qed.

(** A sorted list is a sequence of runs, one for each key: the key and its values. *)
Notation run := (cstr * list cstr)%type.
Definition flat (rs : list run) : list kv_pair := rs ≫= λ r, mkKv r.1 <$> r.2.
Record runs_of (rs : list run) (l : list kv_pair) : Prop := {
  ro_flat : flat rs = l;
  ro_nonempty : Forall (λ r, r.2 ≠ []) rs;
  ro_sorted : StronglySorted (λ r1 r2, strcmp r1.1 r2.1 < 0) rs;
}.
Lemma strcmp_lt a b : strcmp a b <= 0 → a ≠ b → strcmp a b < 0.
Proof.
  intros Hle Hne. destruct (decide (strcmp a b = 0)) as [E|]; [exfalso|lia]. apply Hne.
  apply strcmp_antisym; [done|]. clear -E. revert b E. induction a as [|c a IH]; intros [|d b]; simpl; [lia|lia|lia|].
  destruct (Z.ltb_spec c d), (Z.ltb_spec d c); try lia. apply IH.
Qed.
Lemma runs_exist l : StronglySorted (λ p q, kv_pair_comparator p q <= 0) l → ∃ rs, runs_of rs l.
Proof.
  induction 1 as [|p l Hs (rs & [Hf Hn Hr]) Hp]; [exists []; by split; [|constructor..]|].
  destruct rs as [|[k vs] rs].
  - exists [(key p, [val p])]. simpl in Hf. subst l. split; [by destruct p|by repeat constructor|by repeat constructor].
  - apply Forall_cons in Hn as [Hvs Hn]. apply StronglySorted_inv in Hr as [Hr Hk].
    assert (∀ k' vs' q, (k', vs') ∈ (k, vs) :: rs → q ∈ vs' → strcmp (key p) k' <= 0) as Hle.
    { intros k' vs' q Hin Hq. rewrite Forall_forall in Hp. apply (Hp (mkKv k' q)). rewrite <- Hf.
      apply list_elem_of_bind. exists (k', vs'). split; [|done]. apply list_elem_of_fmap. by exists q. }
    assert (strcmp (key p) k <= 0) as Hpk.
    { destruct vs as [|v vs]; [done|]. apply (Hle k (v :: vs) v); set_solver. }
    destruct (decide (key p = k)) as [E|Hne].
    + exists ((k, val p :: vs) :: rs). split; [|by constructor|by constructor].
      unfold flat in *. simpl in *. rewrite <- Hf. f_equal. destruct p. by subst.
    + exists ((key p, [val p]) :: (k, vs) :: rs). split.
      * unfold flat in *. simpl in *. rewrite <- Hf. by destruct p.
      * by repeat constructor.
      * constructor; [by constructor|]. apply Forall_forall. intros [k' vs'] Hin. simpl. apply strcmp_lt.
        -- rewrite Forall_forall in Hn. destruct vs' as [|q vs'].
           ++ apply elem_of_cons in Hin as [[= -> E]|Hin]; [by rewrite <- E in Hvs|]. by specialize (Hn _ Hin).
           ++ apply (Hle k' (q :: vs') q); [done|set_solver].
        -- intros E. apply elem_of_cons in Hin as [[= <- _]|Hin]; [done|].
           rewrite Forall_forall in Hk. specialize (Hk _ Hin). simpl in Hk. rewrite <- E in Hk.
           apply Hne, strcmp_antisym; [done|]. lia.
Qed.
Lemma runs_nodup rs l : runs_of rs l → NoDup rs.*1.
Proof.
  intros [_ _ Hs]. induction Hs as [|r rs Hs IH Hr]; simpl; constructor; [|done].
  intros (r' & E & Hin)%list_elem_of_fmap. rewrite Forall_forall in Hr. specialize (Hr _ Hin).
  simpl in Hr. rewrite E, strcmp_refl in Hr. lia.
Qed.
(** The values of a run are the values of its key in the list. *)
Lemma run_values rs l k vs : runs_of rs l → (k, vs) ∈ rs → val <$> filter (λ p, key p = k) l = vs.
Proof.
  intros Hro Hin. pose proof (runs_nodup _ _ Hro) as Hnd. destruct Hro as [<- _ _].
  assert (∀ k' vs', val <$> filter (λ p, key p = k) (mkKv k' <$> vs') = if decide (k' = k) then vs' else []) as Hrun.
  { intros k' vs'. induction vs' as [|v vs' IH]; [by case_decide|]. cbn [fmap list_fmap]. rewrite filter_cons. simpl.
    destruct (decide (k' = k)); [simpl; by f_equal|done]. }
  assert (∀ rs, k ∉ rs.*1 → filter (λ p, key p = k) (flat rs) = []) as Hout.
  { clear. induction rs as [|[k' vs'] rs IH]; intros Hk; [done|].
    change (flat ((k', vs') :: rs)) with ((mkKv k' <$> vs') ++ flat rs). simpl in Hk.
    rewrite filter_app, IH by set_solver. rewrite app_nil_r. induction vs' as [|v vs' IH']; [done|].
    cbn [fmap list_fmap]. rewrite filter_cons_False; [done|]. simpl. set_solver. }
  induction rs as [|[k' vs'] rs IH]; [set_solver|].
  change (flat ((k', vs') :: rs)) with ((mkKv k' <$> vs') ++ flat rs). rewrite filter_app, fmap_app, Hrun.
  simpl in Hnd. apply NoDup_cons in Hnd as [Hk' Hnd]. apply elem_of_cons in Hin as [E|Hin].
  - injection E as <- <-. by rewrite decide_True, Hout, app_nil_r.
  - rewrite decide_False, app_nil_l; [by apply IH|]. intros ->. apply Hk', list_elem_of_fmap. by exists (k, vs).
Qed.

(** ** Counting the keys *)
Lemma count_run k vs l n : foldl (λ '(num_keys, key_tmp) p,
    if bool_decide (key_tmp = Some (key p)) then (num_keys, key_tmp) else (num_keys + 1, Some (key p))) (n, Some k)
    ((mkKv k <$> vs) ++ l) =
  foldl (λ '(num_keys, key_tmp) p,
    if bool_decide (key_tmp = Some (key p)) then (num_keys, key_tmp) else (num_keys + 1, Some (key p))) (n, Some k) l.
Proof. induction vs as [|v vs IH]; [done|]. simpl. by rewrite bool_decide_true. Qed.
Lemma count_keys_runs rs l : runs_of rs l →
  count_keys l = (Z.of_nat (length rs), fst <$> last rs).
Proof.
  intros Hro. pose proof (runs_nodup _ _ Hro) as Hnd. destruct Hro as [<- Hn _]. unfold count_keys.
  assert (∀ rs n kt, Forall (λ r, r.2 ≠ []) rs → NoDup rs.*1 → (∀ k, kt = Some k → k ∉ rs.*1) →
    foldl (λ '(num_keys, key_tmp) p,
      if bool_decide (key_tmp = Some (key p)) then (num_keys, key_tmp) else (num_keys + 1, Some (key p))) (n, kt) (flat rs)
    = (n + Z.of_nat (length rs), match last rs with Some r => Some r.1 | None => kt end)) as Hgen.
  { clear. induction rs as [|[k [|v vs]] rs IH]; intros n kt Hne Hnd Hkt; [by rewrite Z.add_0_r|by inversion Hne|].
    apply Forall_cons in Hne as [_ Hne]. simpl in Hnd. apply NoDup_cons in Hnd as [Hk Hnd].
    change (flat ((k, v :: vs) :: rs)) with (mkKv k v :: (mkKv k <$> vs) ++ flat rs). simpl.
    rewrite bool_decide_false; [|intros ->; apply (Hkt k eq_refl); simpl; set_solver].
    rewrite count_run. rewrite IH; [|done|done|by intros ? [= <-]]. f_equal; [lia|].
    rewrite last_cons. by destruct (last rs). }
  rewrite Hgen by done. rewrite Z.add_0_l. destruct (last rs); reflexivity.
Qed.

(** ** The index arrays *)
Lemma aput_next {S A} why (a : list A) m i x (s : S) : i = Z.of_nat (length a) →
  aput why ((Some <$> a) ++ replicate (Datatypes.S m) None) i (Some x) s =
  Ret ((Some <$> (a ++ [x])) ++ replicate m None) s.
Proof.
  intros ->. unfold aput. rewrite length_app, length_fmap, length_replicate.
  rewrite (proj2 (Z.leb_le _ _)), (proj2 (Z.ltb_lt _ _)) by lia. cbn [andb]. rewrite Nat2Z.id.
  unfold mret, M_ret. f_equal. simpl. rewrite insert_app_r_alt by (rewrite length_fmap; done).
  rewrite length_fmap, Nat.sub_diag, fmap_app. simpl. by rewrite <- app_assoc.
Qed.

(** Where each run starts, when the first starts at [i]; and the index map. *)
Fixpoint offs (rs : list run) (i : Z) : list Z :=
  match rs with [] => [] | r :: rs => i :: offs rs (i + Z.of_nat (length r.2)) end.
Fixpoint ins (rs : list run) (j : Z) (g : gmap cstr Z) : gmap cstr Z :=
  match rs with [] => g | r :: rs => ins rs (j + 1) (<[r.1 := j]> g) end.
Lemma length_offs rs i : length (offs rs i) = length rs.
Proof. revert i. induction rs as [|r rs IH]; intros i; simpl; [done|]. by rewrite IH. Qed.

Lemma index_run k vs l i cur :
  index_keys ((mkKv k <$> vs) ++ l) i (Some k) cur = index_keys l (i + Z.of_nat (length vs)) (Some k) cur.
Proof.
  revert i. induction vs as [|v vs IH]; intros i; simpl; [by rewrite Z.add_0_r|].
  rewrite bool_decide_true by done. rewrite IH. f_equal. lia.
Qed.

(** The state of the second loop: [a] are the starts written so far, [b] the ends. *)
Definition indexing (P : partition_data) (a b : list Z) (m mb : nat) (g : map_base) : partition_data :=
  set_pmap g (set_cur_idxs ((Some <$> a) ++ replicate m None) (set_end_idxs ((Some <$> b) ++ replicate mb None)
    (set_start_idxs ((Some <$> a) ++ replicate m None) P))).

Lemma index_first (P : partition_data) a b m mb g k v l i kt cur : kt ≠ Some k → length a = Z.to_nat (cur + 1) →
  -1 <= cur → map_inv g → nnodes g < 2 ^ 29 →
  (if decide (cur = -1) then b = [] else length b = Z.to_nat cur) →
  ∃ g', index_keys (mkKv k v :: l) i kt cur (indexing P a b (S m) (if decide (cur = -1) then mb else S mb) g) =
    index_keys l (i + 1) (Some k) (cur + 1)
      (indexing P (a ++ [i]) (if decide (cur = -1) then b else b ++ [i]) m mb g') ∧
    map_inv g' ∧ abs g' = <[k := cur + 1]> (abs g) ∧ nnodes g' <= nnodes g + 1.
Proof.
  intros Hk Ha Hcur Hg Hn Hb. destruct (set_spec g k (cur + 1) Hg Hn) as (g' & Hset & Hi' & Ha' & Hn').
  exists g'. split; [|done]. cbn [index_keys]. rewrite bool_decide_false by done.
  assert (∀ why (s : partition_data), aput why ((Some <$> a) ++ replicate (S m) None) (cur + 1) (Some i) s =
    Ret ((Some <$> (a ++ [i])) ++ replicate m None) s) as Hput by (intros ? s; apply aput_next; lia).
  assert (∀ P', pmap P' = g → zoom pmap set_pmap (map_set_ k (cur + 1) true true) P' = Ret 0 (set_pmap g' P')) as Hz.
  { intros P' <-. unfold zoom. by rewrite Hset. }
  destruct (Z.ltb_spec (-1) cur) as [Hpos|Hneg].
  - rewrite !decide_False in * by lia.
    assert (∀ why (s : partition_data), aput why ((Some <$> b) ++ replicate (S mb) None) cur (Some i) s =
      Ret ((Some <$> (b ++ [i])) ++ replicate mb None) s) as Hput' by (intros ? s; apply aput_next; lia).
    unfold mbind, M_bind, gets, modify, indexing. destruct P. cbn -[map_set_ replicate zoom aput fmap index_keys].
    rewrite Hput'. cbn -[map_set_ replicate zoom aput fmap index_keys].
    rewrite Hput. cbn -[map_set_ replicate zoom aput fmap index_keys].
    rewrite Hz by done. cbn -[map_set_ replicate zoom aput fmap index_keys].
    rewrite Hput. done.
  - rewrite !decide_True in * by lia.
    unfold mbind, M_bind, gets, modify, indexing, mret, M_ret. destruct P. cbn -[map_set_ replicate zoom aput fmap index_keys].
    rewrite Hput. cbn -[map_set_ replicate zoom aput fmap index_keys].
    rewrite Hz by done. cbn -[map_set_ replicate zoom aput fmap index_keys].
    rewrite Hput. done.
Qed.

Lemma index_rest (P : partition_data) rs a b g i kl cur : Forall (λ r, r.2 ≠ []) rs → NoDup (kl :: rs.*1) →
  length a = Z.to_nat (cur + 1) → length b = Z.to_nat cur → 0 <= cur → map_inv g →
  nnodes g + Z.of_nat (length rs) < 2 ^ 29 →
  ∃ g', index_keys (flat rs) i (Some kl) cur (indexing P a b (length rs) (S (length rs)) g) =
    Ret (cur + Z.of_nat (length rs)) (indexing P (a ++ offs rs i) (b ++ offs rs i) 0 1 g') ∧
    map_inv g' ∧ abs g' = ins rs (cur + 1) (abs g).
Proof.
  revert a b g i kl cur. induction rs as [|[k [|v vs]] rs IH]; intros a b g i kl cur Hne Hnd Ha Hb Hcur Hg Hn; [|by inversion Hne|].
  - exists g. simpl. rewrite !app_nil_r, Z.add_0_r. done.
  - apply Forall_cons in Hne as [_ Hne]. simpl in Hnd. apply NoDup_cons in Hnd as [Hkl Hnd].
    change (flat ((k, v :: vs) :: rs)) with (mkKv k v :: (mkKv k <$> vs) ++ flat rs).
    destruct (index_first P a b (length rs) (S (length rs)) g k v ((mkKv k <$> vs) ++ flat rs) i (Some kl) cur)
      as (g1 & Hm1 & Hi1 & Ha1 & Hn1).
    { intros [= ->]. set_solver. } { done. } { lia. } { done. } { simpl in Hn. lia. }
    { rewrite decide_False by lia. done. }
    rewrite !decide_False in Hm1 by lia. cbn [length]. rewrite Hm1, index_run.
    destruct (IH (a ++ [i]) (b ++ [i]) g1 (i + 1 + Z.of_nat (length vs)) k (cur + 1)) as (g2 & Hm2 & Hi2 & Ha2).
    { done. } { done. } { rewrite length_app. simpl. lia. } { rewrite length_app. simpl. lia. } { lia. } { done. }
    { simpl in Hn. lia. }
    exists g2. rewrite Hm2. split; [|split; [done|by rewrite Ha2, Ha1]].
    assert (∀ c : list Z, (c ++ [i]) ++ offs rs (i + 1 + Z.of_nat (length vs)) = c ++ offs ((k, v :: vs) :: rs) i) as Eo.
    { intros c. rewrite <- app_assoc. simpl. do 3 f_equal. lia. }
    rewrite !Eo. f_equal. simpl. lia.
Qed.

(** Where each run ends. *)
Fixpoint ends (rs : list run) (i : Z) : list Z :=
  match rs with
  | [] => []
  | r :: rs => i + Z.of_nat (length r.2) :: ends rs (i + Z.of_nat (length r.2))
  end.
Lemma length_ends rs i : length (ends rs i) = length rs.
Proof. revert i. induction rs as [|r rs IH]; intros i; simpl; [done|]. by rewrite IH. Qed.
Lemma length_flat_cons r rs : length (flat (r :: rs)) = (length r.2 + length (flat rs))%nat.
Proof. change (flat (r :: rs)) with ((mkKv r.1 <$> r.2) ++ flat rs). by rewrite length_app, length_fmap. Qed.
Lemma flat_app rs1 rs2 : flat (rs1 ++ rs2) = flat rs1 ++ flat rs2.
Proof. apply bind_app. Qed.
Lemma ends_offs r rs i :
  offs rs (i + Z.of_nat (length r.2)) ++ [i + Z.of_nat (length (flat (r :: rs)))] = ends (r :: rs) i.
Proof.
  revert r i. induction rs as [|r' rs IH]; intros r i.
  - rewrite length_flat_cons. cbn. f_equal. lia.
  - cbn [offs ends app]. f_equal. change (i + Z.of_nat (length r.2) + Z.of_nat (length r'.2) ::
      ends rs (i + Z.of_nat (length r.2) + Z.of_nat (length r'.2))) with (ends (r' :: rs) (i + Z.of_nat (length r.2))).
    rewrite <- IH. do 2 f_equal. rewrite !length_flat_cons. lia.
Qed.
Lemma offs_at d r t i : offs (d ++ r :: t) i !! length d = Some (i + Z.of_nat (length (flat d))).
Proof.
  revert i. induction d as [|r' d IH]; intros i; cbn [offs ends app length lookup list_lookup]; [try rewrite length_flat_cons; cbn; f_equal; lia|].
  rewrite IH, length_flat_cons. f_equal. lia.
Qed.
Lemma ends_at d r t i : ends (d ++ r :: t) i !! length d = Some (i + Z.of_nat (length (flat d) + length r.2)).
Proof.
  revert i. induction d as [|r' d IH]; intros i; cbn [offs ends app length lookup list_lookup]; [try rewrite length_flat_cons; cbn; f_equal; lia|].
  rewrite IH, length_flat_cons. f_equal. lia.
Qed.
Lemma ins_notin rs j g k : k ∉ rs.*1 → ins rs j g !! k = g !! k.
Proof.
  revert j g. induction rs as [|r rs IH]; intros j g Hk; simpl in *; [done|]. rewrite IH by set_solver.
  apply lookup_insert_ne. set_solver.
Qed.
Lemma ins_at d r t j g : NoDup (d ++ r :: t).*1 → ins (d ++ r :: t) j g !! r.1 = Some (j + Z.of_nat (length d)).
Proof.
  revert j g. induction d as [|r' d IH]; intros j g Hnd; simpl in *; apply NoDup_cons in Hnd as [Hk Hnd].
  - rewrite ins_notin, lookup_insert_eq by done. f_equal. lia.
  - rewrite IH by done. f_equal. lia.
Qed.

(** A partition that holds the pairs [l], in unspecified space [rest]; and one that is
    sorted, with runs [rs]. *)
Record holds_pairs (P : partition_data) (l : list kv_pair) (rest : list (option kv_pair)) : Prop := {
  hp_list : kv_pair_list P = (Some <$> l) ++ rest;
  hp_next : next_to_fill P = Z.of_nat (length l);
}.
Record sorted_part (P : partition_data) (rs : list run) (rest : list (option kv_pair)) : Prop := {
  sp_pairs : holds_pairs P (flat rs) rest;
  sp_num : num_keys P = Z.of_nat (length rs);
  sp_start : start_idxs P = Some <$> offs rs 0;
  sp_end : end_idxs P = Some <$> ends rs 0;
  sp_map : map_inv (pmap P);
  sp_abs : abs (pmap P) = ins rs 0 ∅;
}.

Section partition.
Context (qsort : list kv_pair → list kv_pair).

Lemma mapM_id {A} (l : list A) : mapM (M:=option) (λ o, o) (Some <$> l) = Some l.
Proof. apply mapM_Some_2. induction l; by constructor. Qed.

Lemma sort_part_spec P l rest rs : holds_pairs P l rest → runs_of rs (qsort l) → length (qsort l) = length l →
  length rs ≠ 1%nat → Z.of_nat (length l) < 2 ^ 29 →
  ∃ P', sort_part qsort P = Ret () P' ∧ sorted_part P' rs rest ∧ cur_idxs P' = Some <$> offs rs 0 ∧
    sent_flag P' = sent_flag P.
Proof.
  intros [Hl Hn] Hro Hql H1 Hbig. pose proof (runs_nodup _ _ Hro) as Hnd.
  assert (take (Z.to_nat (next_to_fill P)) (kv_pair_list P) = Some <$> l) as Et.
  { rewrite Hl, Hn, Nat2Z.id. by rewrite take_app_length' by (by rewrite length_fmap). }
  assert (drop (Z.to_nat (next_to_fill P)) (kv_pair_list P) = rest) as Ed.
  { rewrite Hl, Hn, Nat2Z.id. by rewrite drop_app_length' by (by rewrite length_fmap). }
  unfold sort_part. unfold mbind at 1 2, M_bind at 1 2, gets. rewrite Et, Ed, mapM_id.
  rewrite (count_keys_runs rs _ Hro). rewrite Nat2Z.id. destruct Hro as [Hfl Hne _].
  set (P1 := set_pmap map_init (set_cur_idxs (replicate (length rs) None) (set_end_idxs (replicate (length rs) None)
    (set_start_idxs (replicate (length rs) None) (set_num_keys (Z.of_nat (length rs))
      (set_kv_pair_list ((Some <$> qsort l) ++ rest) P)))))).
  destruct rs as [|[k [|v vs]] [|r2 rs]].
  - rewrite <- Hfl in *. eexists. split; [reflexivity|]. split; [split; try done|done]; [|apply empty_inv].
    split; [done|]. simpl. rewrite Hn, <- Hql. done.
  - by inversion Hne.
  - by inversion Hne.
  - done.
  - remember (r2 :: rs) as rs' eqn:Ers. apply Forall_cons in Hne as [_ Hne]. apply NoDup_cons in Hnd as [Hk Hnd].
    rewrite <- Hfl.
    change (flat ((k, v :: vs) :: rs')) with (mkKv k v :: (mkKv k <$> vs) ++ flat rs').
    assert (∃ kt, fst <$> last ((k, v :: vs) :: rs') = Some kt ∧ Some kt ≠ Some k) as (kt & Ekt & Hkt).
    { clear P1. subst rs'. rewrite last_cons_cons. destruct (last (r2 :: rs)) as [r|] eqn:El; [|by apply last_None in El].
      exists r.1. split; [done|]. intros [= E]. apply Hk. apply last_Some_elem_of in El.
      change (k ∈ (r2 :: rs).*1). apply list_elem_of_fmap. by exists r. }
    rewrite Ekt. change (length ((k, v :: vs) :: rs')) with (S (length rs')) in *.
    destruct (index_first P1 [] [] (length rs') (S (length rs')) map_init k v ((mkKv k <$> vs) ++ flat rs') 0 (Some kt) (-1))
      as (g1 & Hm1 & Hi1 & Ha1 & Hn1); [done|done|lia|apply empty_inv|done|done|].
    rewrite !decide_True in Hm1 by done. cbn [app] in Hm1.
    assert (Z.of_nat (length (flat ((k, v :: vs) :: rs'))) = Z.of_nat (length l)) as Hlen by (by rewrite Hfl, Hql).
    assert (length rs' <= length (flat rs'))%nat as Hrl.
    { clear -Hne. induction rs' as [|r rs' IH]; [done|]. apply Forall_cons in Hne as [? Hne].
      rewrite length_flat_cons. specialize (IH Hne). destruct r as [k0 [|v0 vs0]]; cbn [snd length] in *; [done|]. lia. }
    destruct (index_rest P1 rs' [0] [] g1 (0 + 1 + Z.of_nat (length vs)) k 0) as (g2 & Hm2 & Hi2 & Ha2);
      [done|by constructor|done|done|lia|done| |].
    { rewrite length_flat_cons in Hlen. cbn [snd length] in Hlen. change (nnodes map_init) with 0 in Hn1. lia. }
    assert (∀ s, s = indexing P1 [] [] (S (length rs')) (S (length rs')) map_init →
      index_keys (mkKv k v :: (mkKv k <$> vs) ++ flat rs') 0 (Some kt) (-1) s =
      Ret (0 + Z.of_nat (length rs')) (indexing P1 ([0] ++ offs rs' (0 + 1 + Z.of_nat (length vs)))
         ([] ++ offs rs' (0 + 1 + Z.of_nat (length vs))) 0 1 g2)) as Hidx.
    { intros s ->. rewrite Hm1. change (-1 + 1) with 0. by rewrite index_run. }
    unfold mbind, M_bind, modify. cbn -[index_keys aput offs replicate fmap Z.of_nat].
    rewrite Hidx.
    2: { unfold indexing, P1. destruct P. cbn -[replicate fmap]. rewrite <- Hfl. done. }
    cbn -[index_keys aput offs replicate fmap Z.of_nat].
    match goal with |- context [(?a =? -1)] => rewrite (proj2 (Z.eqb_neq a (-1))) by lia end. cbn -[index_keys aput offs replicate fmap Z.of_nat].
    rewrite aput_next by (rewrite length_offs; lia). cbn -[index_keys offs replicate fmap Z.of_nat].
    eexists. split; [reflexivity|].
    assert (offs ((k, v :: vs) :: rs') 0 = 0 :: offs rs' (0 + 1 + Z.of_nat (length vs))) as Eo.
    { cbn [offs]. do 2 f_equal. cbn [snd length]. lia. }
    split; [split|split; [|done]]; try (cbn -[offs]; rewrite Eo, app_nil_r; done); try done.
    + split; [cbn; by rewrite <- Hfl|]. cbn -[flat Z.of_nat]. by rewrite Hlen.
    + cbn -[offs ends]. rewrite app_nil_r. f_equal.
      assert (next_to_fill P = 0 + Z.of_nat (length (flat ((k, v :: vs) :: rs')))) as -> by lia.
      rewrite <- (ends_offs (k, v :: vs) rs' 0). do 2 f_equal. cbn [snd length]. lia.
    + cbn -[ins]. rewrite Ha2, Ha1. done.
Qed.

Lemma flat_at d k vs t rest j v : vs !! j = Some v →
  ((Some <$> flat (d ++ (k, vs) :: t)) ++ rest) !! (length (flat d) + j)%nat = Some (Some (mkKv k v)).
Proof.
  intros Hj. rewrite lookup_app_l.
  - rewrite list_lookup_fmap, flat_app, lookup_app_r by lia. rewrite Nat.add_comm, Nat.add_sub.
    change (flat ((k, vs) :: t)) with ((mkKv k <$> vs) ++ flat t). rewrite lookup_app_l.
    + by rewrite list_lookup_fmap, Hj.
    + rewrite length_fmap. by eapply lookup_lt_Some.
  - apply lookup_lt_Some in Hj. rewrite length_fmap, flat_app, length_app, length_flat_cons. cbn [snd]. lia.
Qed.
Lemma aget_at {S A} (l : list A) i x (s : S) : l !! i = Some x → aget l (Z.of_nat i) s = Ret x s.
Proof.
  intros Hi. unfold aget. rewrite (proj2 (Z.ltb_ge _ _)), Nat2Z.id, Hi by lia. done.
Qed.
Lemma aread_at {S A} (l : list (option A)) i x (s : S) : l !! i = Some (Some x) → aread l (Z.of_nat i) s = Ret x s.
Proof. intros Hi. unfold aread, mbind, M_bind. by rewrite (aget_at _ _ _ _ Hi). Qed.

Lemma Get_spec P d k vs t rest c j : sorted_part P (d ++ (k, vs) :: t) rest → NoDup (d ++ (k, vs) :: t).*1 →
  Z.of_nat (length (flat (d ++ (k, vs) :: t))) < 2 ^ 64 →
  cur_idxs P = Some <$> c → c !! length d = Some (Z.of_nat (length (flat d) + j)) → (j <= length vs)%nat →
  Get k P = match vs !! j with
    | Some v => Ret (Some v) (set_cur_idxs (Some <$> <[length d := Z.of_nat (length (flat d) + S j)]> c) P)
    | None => Ret None P
    end.
Proof.
  intros [[Hpl Hpn] Hnum Hst He Hmi Hma] Hnd Hbig Hcur Hc Hj. unfold Get, mbind, M_bind, gets.
  rewrite (get_spec _ k Hmi), Hma, (ins_at d (k, vs) t 0 ∅ Hnd : _ !! k = _). rewrite Z.add_0_l.
  rewrite Hcur, (aread_at _ _ (Z.of_nat (length (flat d) + j))) by (by rewrite list_lookup_fmap, Hc).
  rewrite He, (aread_at _ _ (0 + Z.of_nat (length (flat d) + length vs))) by (by rewrite list_lookup_fmap, ends_at).
  destruct (vs !! j) as [v|] eqn:Hv.
  - pose proof (lookup_lt_Some _ _ _ Hv). rewrite (proj2 (Z.leb_gt _ _)) by lia.
    unfold aput. rewrite length_fmap. pose proof (lookup_lt_Some _ _ _ Hc).
    rewrite (proj2 (Z.leb_le 0 _)), (proj2 (Z.ltb_lt _ _)) by lia. cbn [andb]. unfold mret, M_ret, modify.
    replace (kv_pair_list (set_cur_idxs _ P)) with (kv_pair_list P) by done. rewrite Hpl.
    rewrite (aread_at _ _ (mkKv k v)) by (by apply flat_at).
    do 2 f_equal. rewrite Nat2Z.id, <- list_fmap_insert. do 2 f_equal.
    rewrite flat_app, length_app, length_flat_cons in Hbig. cbn [snd] in Hbig.
    unfold u64. rewrite Z.mod_small by lia. lia.
  - apply lookup_ge_None in Hv. rewrite (proj2 (Z.leb_le _ _)) by lia. done.
Qed.

Lemma sorted_set_cur P rs rest c : sorted_part P rs rest → sorted_part (set_cur_idxs c P) rs rest.
Proof. intros [[? ?] ? ? ? ? ?]. by split. Qed.
Lemma sorted_set_flag P rs rest n : sorted_part P rs rest → sorted_part (set_sent_flag n P) rs rest.
Proof. intros [[? ?] ? ? ? ? ?]. by split. Qed.

Lemma get_all_spec fuel P d k vs t rest c j : sorted_part P (d ++ (k, vs) :: t) rest → NoDup (d ++ (k, vs) :: t).*1 →
  Z.of_nat (length (flat (d ++ (k, vs) :: t))) < 2 ^ 64 →
  cur_idxs P = Some <$> c → c !! length d = Some (Z.of_nat (length (flat d) + j)) → (j <= length vs)%nat →
  (length vs - j < fuel)%nat →
  get_all fuel k P = Ret (drop j vs) (set_cur_idxs (Some <$> <[length d := Z.of_nat (length (flat d) + length vs)]> c) P).
Proof.
  intros HP Hnd Hbig. revert P c j HP. induction fuel as [|fuel IH]; intros P c j HP Hcur Hc Hj Hf; [lia|].
  cbn [get_all]. unfold mbind, M_bind. rewrite (Get_spec P d k vs t rest c j) by done.
  destruct (vs !! j) as [v|] eqn:Hv.
  - pose proof (lookup_lt_Some _ _ _ Hv). pose proof (lookup_lt_Some _ _ _ Hc).
    erewrite (IH _ (<[length d := Z.of_nat (length (flat d) + S j)]> c) (S j)).
    + rewrite list_insert_insert_eq. rewrite (drop_S _ _ _ Hv). reflexivity.
    + by apply sorted_set_cur.
    + done.
    + by apply list_lookup_insert_eq.
    + lia.
    + lia.
  - apply lookup_ge_None in Hv. assert (j = length vs) as -> by lia. rewrite drop_all.
    rewrite list_insert_id by done. rewrite <- Hcur. by destruct P.
Qed.

Lemma reduce_keys_spec P d t rest c : sorted_part P (d ++ t) rest → NoDup (d ++ t).*1 → Forall (λ r, r.2 ≠ []) t →
  Z.of_nat (length (flat (d ++ t))) < 2 ^ 64 →
  cur_idxs P = Some <$> c → drop (length d) c = offs t (Z.of_nat (length (flat d))) → 
  ∃ P', reduce_keys (seqZ (Z.of_nat (length d)) (Z.of_nat (length t))) P = Ret t P' ∧
    sent_flag P' = sent_flag P + Z.of_nat (length t).
Proof.
  revert P d c. induction t as [|[k vs] t IH]; intros P d c HP Hnd Hne Hbig Hcur Hc.
  { exists P. split; [done|]. simpl. lia. }
  apply Forall_cons in Hne as [Hvs Hne]. cbn [snd] in Hvs.
  rewrite seqZ_cons by (simpl; lia). cbn [reduce_keys].
  assert (c !! length d = Some (Z.of_nat (length (flat d) + 0))) as Hcd.
  { rewrite <- (Nat.add_0_r (length d)), <- lookup_drop, Hc. cbn [offs lookup list_lookup]. f_equal. lia. }
  assert (drop (S (length d)) c = offs t (Z.of_nat (length (flat (d ++ [(k, vs)]))))) as Hc'.
  { rewrite <- Nat.add_1_r, <- drop_drop, Hc. rewrite flat_app, length_app, length_flat_cons.
    cbn [offs drop snd]. rewrite drop_0. f_equal. change (length (flat [])) with 0%nat. lia. }
  pose proof HP as [[Hpl Hpn] Hnum Hst He Hmi Hma].
  assert (∃ v, vs !! 0%nat = Some v) as [v Hv] by (destruct vs; [done|by eexists]).
  unfold mbind, M_bind, gets, modify. rewrite Hst.
  rewrite (aread_at _ _ (Z.of_nat (length (flat d) + 0))) by (rewrite list_lookup_fmap, offs_at; simpl; do 2 f_equal; lia).
  rewrite Hpl, (aread_at _ _ (mkKv k v)) by (by apply flat_at). cbn [key].
  rewrite (get_all_spec _ P d k vs t rest c 0); [|done..|lia|].
  2: { rewrite Hpn, Nat2Z.id, flat_app, length_app, length_flat_cons. cbn [snd]. lia. }
  rewrite drop_0. set (P1 := set_sent_flag _ _).
  destruct (IH P1 (d ++ [(k, vs)]) (<[length d := Z.of_nat (length (flat d) + length vs)]> c)) as (P' & Hm & Hs).
  - unfold P1. apply sorted_set_flag, sorted_set_cur. by rewrite <- app_assoc.
  - by rewrite <- app_assoc.
  - done.
  - by rewrite <- app_assoc.
  - done.
  - rewrite length_app, Nat.add_comm. simpl length. rewrite drop_insert_lt by lia. done.
  - exists P'. rewrite length_app in Hm. simpl length in Hm.
    replace (Z.of_nat (length d + 1)) with (Z.succ (Z.of_nat (length d))) in Hm by lia.
    replace (Z.pred (Z.of_nat (length ((k, vs) :: t)))) with (Z.of_nat (length t)) by (simpl; lia).
    rewrite Hm. split; [done|]. rewrite Hs. unfold P1. cbn [sent_flag set_sent_flag set_cur_idxs length]. lia.
Qed.

(** [on_part] works on the partition in its place. *)
Lemma on_part_Ret {A} i (m : M partition_data A) s P a P' : partition_list s !! i = Some P → m P = Ret a P' →
  on_part (Z.of_nat i) m s = Ret a (set_partition_list (<[i := P']> (partition_list s)) s).
Proof.
  intros Hi Hm. unfold on_part, get_part, mbind, M_bind, gets. rewrite (aget_at _ _ _ _ Hi).
  unfold zoom. rewrite Hm, Nat2Z.id. done.
Qed.
Lemma on_part_Fault {A} i (m : M partition_data A) s P why : partition_list s !! i = Some P → m P = Fault why →
  on_part (Z.of_nat i) m s = Fault why.
Proof.
  intros Hi Hm. unfold on_part, get_part, mbind, M_bind, gets. rewrite (aget_at _ _ _ _ Hi).
  unfold zoom. by rewrite Hm.
Qed.
Lemma part_set s i P l : partition_list s = l → (i < length l)%nat →
  partition_list (set_partition_list (<[i := P]> l) s) !! i = Some P.
Proof. intros <- Hi. by apply list_lookup_insert_eq. Qed.

Lemma runs_keys rs l k : runs_of rs l → k ∈ rs.*1 ↔ k ∈ key <$> l.
Proof.
  intros [<- Hne _]. rewrite !list_elem_of_fmap. split.
  - intros ([k' vs] & -> & Hin). rewrite Forall_forall in Hne. specialize (Hne _ Hin).
    destruct vs as [|v vs]; [done|]. exists (mkKv k' v). split; [done|]. apply list_elem_of_bind.
    exists (k', v :: vs). split; [|done]. cbn [fst snd fmap list_fmap]. set_solver.
  - intros (p & -> & (r & Hp & Hr)%list_elem_of_bind). apply list_elem_of_fmap in Hp as (v & -> & _).
    by exists r.
Qed.
Lemma one_run rs l : runs_of rs l → length rs = 1%nat ↔ l ≠ [] ∧ ∀ p q, p ∈ l → q ∈ l → key p = key q.
Proof.
  intros Hro. pose proof (runs_keys rs l) as Hk. split.
  - destruct rs as [|[k vs] [|]]; try done. intros _. split.
    + intros ->. destruct Hro as [Hf Hne _]. apply Forall_cons in Hne as [Hvs _]. destruct vs; [done|]. done.
    + assert (∀ p, p ∈ l → key p = k) as Hall.
      { intros p Hp. apply list_elem_of_singleton. rewrite (Hk _ Hro). apply list_elem_of_fmap. by exists p. }
      intros p q Hp Hq. by rewrite !Hall.
  - intros [Hl Hall]. pose proof (runs_nodup _ _ Hro) as Hnd. destruct rs as [|r1 [|r2 rs]]; [|done|].
    + by destruct Hro as [<- _ _].
    + exfalso. assert (r1.1 ∈ key <$> l ∧ r2.1 ∈ key <$> l) as [(p & E1 & Hp)%list_elem_of_fmap (q & E2 & Hq)%list_elem_of_fmap].
      { rewrite <- (Hk r1.1 Hro), <- (Hk r2.1 Hro). cbn [fmap list_fmap]. clear. set_solver. }
      pose proof (Hall p q Hp Hq) as E. rewrite <- E1, <- E2 in E.
      simpl in Hnd. apply NoDup_cons in Hnd as [Hnd _]. rewrite E in Hnd. apply Hnd. by left.
Qed.

Context (qsort_perm : ∀ l, qsort l ≡ₚ l) (qsort_sorted : ∀ l, StronglySorted (λ p q, kv_pair_comparator p q <= 0) (qsort l)).

(** What a reducer is called with, for a partition that holds the pairs [l]. *)
Definition reduced (l : list kv_pair) (calls : list run) : Prop :=
  StronglySorted (λ k1 k2, strcmp k1 k2 < 0) calls.*1 ∧
  (∀ k, k ∈ calls.*1 ↔ k ∈ key <$> l) ∧
  ∀ k vs, (k, vs) ∈ calls → vs ≡ₚ val <$> filter (λ p, key p = k) l.

Lemma runs_reduced rs l : runs_of rs (qsort l) → reduced l rs.
Proof.
  intros Hro. split; [|split].
  - destruct Hro as [_ _ Hs]. induction Hs as [|r rs Hs IH Hr]; simpl; constructor; [done|].
    apply Forall_fmap. done.
  - intros k. rewrite (runs_keys _ _ _ Hro). by rewrite (qsort_perm l).
  - intros k vs Hin. rewrite <- (run_values _ _ _ _ Hro Hin). by rewrite (qsort_perm l).
Qed.

(** What the semaphore of the partition before allows. *)
Definition previous_sent (s : mr) (i : nat) : Prop :=
  match i with O => True | S j => ∃ P, partition_list s !! j = Some P ∧ 0 < sent_flag P end.

Lemma get_part_at s j P : partition_list s !! j = Some P → get_part (Z.of_nat j) s = Ret P s.
Proof. intros Hj. unfold get_part, mbind, M_bind, gets. by apply aget_at. Qed.

(** The wait for the partition before, after the sort. *)
Lemma wait_previous s i P1 : (i < length (partition_list s))%nat → previous_sent s i →
  ∃ s2, when (0 <? Z.of_nat i) (
    p ← get_part (Z.of_nat i - 1);
    if 0 <? sent_flag p then put_part (Z.of_nat i - 1) (set_sent_flag (sent_flag p - 1) p) else block)
    (set_partition_list (<[i := P1]> (partition_list s)) s) = Ret () s2 ∧ partition_list s2 !! i = Some P1.
Proof.
  intros Hi Hprev. set (s1 := set_partition_list _ _).
  assert (partition_list s1 !! i = Some P1) as Hi1 by (by apply list_lookup_insert_eq).
  destruct i as [|j]; [by exists s1|]. destruct Hprev as (Pj & Hj & Hfj).
  assert (partition_list s1 !! j = Some Pj) as Hj1.
  { unfold s1. cbn [partition_list set_partition_list]. rewrite list_lookup_insert_ne by lia. done. }
  exists (set_partition_list (<[j := set_sent_flag (sent_flag Pj - 1) Pj]> (partition_list s1)) s1).
  rewrite (proj2 (Z.ltb_lt _ _)) by lia. cbn [when].
  replace (Z.of_nat (S j) - 1) with (Z.of_nat j) by lia.
  rewrite (bind_Ret _ _ _ _ _ (get_part_at _ _ _ Hj1)). rewrite (proj2 (Z.ltb_lt _ _)) by done.
  unfold put_part, modify. rewrite Nat2Z.id. split; [done|].
  cbn [partition_list set_partition_list]. rewrite list_lookup_insert_ne by lia. done.
Qed.

(** C25: the reducers are called exactly as they should be for a partition: once with
    each distinct key of the emitted pairs, in ascending order, and [Get] hands a
    key exactly the values that were emitted with it, each once; then the next
    partition may be sent.  (The pairs have no key or at least two: the
    theorem [single_key_faults] has the other case.)  The calls return: no cell
    is read out of bounds or before it is written. *)
Theorem reduce_partition_exact i s P l rest :
  partition_list s !! i = Some P → holds_pairs P l rest → Z.of_nat (length l) < 2 ^ 29 → 0 <= sent_flag P →
  (l = [] ∨ ∃ p q, p ∈ l ∧ q ∈ l ∧ key p ≠ key q) → previous_sent s i →
  ∃ calls s' P', reduce_partition qsort (Z.of_nat i) s = Ret calls s' ∧ reduced l calls ∧
    partition_list s' !! i = Some P' ∧ 0 < sent_flag P'.
Proof.
  intros Hi HP Hbig Hfl Hkeys Hprev. destruct (runs_exist _ (qsort_sorted l)) as [rs Hro].
  assert (length rs ≠ 1%nat) as H1.
  { rewrite (one_run _ _ Hro). intros [Hne Hall]. destruct Hkeys as [->|(p & q & Hp & Hq & Hpq)].
    - apply Hne, Permutation_nil. by rewrite qsort_perm.
    - apply Hpq, Hall; by rewrite qsort_perm. }
  destruct (sort_part_spec P l rest rs) as (P1 & Hsort & HP1 & Hcur1 & Hs1); [done|done|by rewrite qsort_perm|done|done|].
  exists rs. unfold reduce_partition, sort_partition.
  rewrite (bind_Ret _ _ _ _ _ (on_part_Ret i _ s P () P1 Hi Hsort)).
  destruct (wait_previous s i P1) as (s2 & Hw & Hi2); [by eapply lookup_lt_Some|done|].
  rewrite (bind_Ret _ _ _ _ _ Hw), (bind_Ret _ _ _ _ _ (get_part_at _ _ _ Hi2)), (sp_num _ _ _ HP1).
  destruct (reduce_keys_spec P1 [] rs rest (offs rs 0)) as (P2 & Hred & Hs2);
    [done|by eapply runs_nodup|by eapply ro_nonempty| |done|done|].
  { cbn [app]. rewrite (ro_flat _ _ Hro), qsort_perm. lia. }
  change (Z.of_nat (length [])) with 0 in Hred.
  rewrite (bind_Ret _ _ _ _ _ (on_part_Ret i _ s2 P1 rs P2 Hi2 Hred)). set (s3 := set_partition_list _ s2).
  assert (partition_list s3 !! i = Some P2) as Hi3 by (apply list_lookup_insert_eq; by eapply lookup_lt_Some).
  destruct rs as [|r rs].
  - change (Z.of_nat (length []) =? 0) with true. cbn [when].
    rewrite (bind_Ret _ _ _ _ _ (on_part_Ret i _ s3 P2 () (set_sent_flag (sent_flag P2 + 1) P2) Hi3 eq_refl)).
    eexists _, _. split; [done|]. split; [by apply runs_reduced|].
    split; [apply list_lookup_insert_eq; by eapply lookup_lt_Some|]. cbn [sent_flag set_sent_flag]. lia.
  - rewrite (proj2 (Z.eqb_neq _ _)) by (cbn [length]; lia). cbn [when].
    exists s3, P2. split; [done|]. split; [by apply runs_reduced|]. split; [done|]. rewrite Hs2. cbn [length]. lia.
Qed.

(** A partition whose pairs all have the same key is not reduced: the second loop of
    [sort_partition] starts with the last key of the first loop as the previous key,
    so it never writes the start of the only run, and [reduce_controller] reads a
    cell of [start_idxs] that is still as malloc returned it. *)
Theorem single_key_faults i s P l rest :
  partition_list s !! i = Some P → holds_pairs P l rest →
  l ≠ [] → (∀ p q, p ∈ l → q ∈ l → key p = key q) → previous_sent s i →
  reduce_partition qsort (Z.of_nat i) s = Fault "uninitialised value".
Proof.
  intros Hi [Hl Hn] Hne Hall Hprev. destruct (runs_exist _ (qsort_sorted l)) as [rs Hro].
  assert (length rs = 1%nat) as H1.
  { apply (one_run _ _ Hro). split; [intros E; apply Hne, Permutation_nil; by rewrite <- E|].
    intros p q. rewrite qsort_perm. auto. }
  destruct rs as [|[k vs] [|]]; try done.
  assert (∃ P1, sort_part qsort P = Ret () P1 ∧ num_keys P1 = 1 ∧ start_idxs P1 = [None]) as (P1 & Hsort & Hn1 & Hst).
  { unfold sort_part, mbind, M_bind, gets.
    rewrite Hl, Hn, Nat2Z.id, take_app_length' by (by rewrite length_fmap).
    rewrite mapM_id, (count_keys_runs _ _ Hro). destruct Hro as [Hfl _ _]. rewrite <- Hfl.
    change (flat [(k, vs)]) with ((mkKv k <$> vs) ++ []). cbn -[index_keys fmap app].
    rewrite index_run. eexists. split; [reflexivity|]. done. }
  unfold reduce_partition, sort_partition.
  rewrite (bind_Ret _ _ _ _ _ (on_part_Ret i _ s P () P1 Hi Hsort)).
  destruct (wait_previous s i P1) as (s2 & Hw & Hi2); [by eapply lookup_lt_Some|done|].
  rewrite (bind_Ret _ _ _ _ _ Hw), (bind_Ret _ _ _ _ _ (get_part_at _ _ _ Hi2)), Hn1.
  unfold mbind at 1, M_bind at 1. erewrite on_part_Fault; [done|exact Hi2|].
  change (seqZ 0 1) with [0]. cbn [reduce_keys]. unfold mbind, M_bind, gets. by rewrite Hst.
Qed.
End partition.

(** * The mapper threads *)
(** A partition between two calls of [MR_Emit]: it holds [l], in an array that grows. *)
Record part_ok (P : partition_data) (l : list kv_pair) : Prop := {
  po_holds : ∃ rest, holds_pairs P l rest ∧ size_of_list P = Z.of_nat (length l + length rest);
  po_room : size_of_list P <= 2 * (Z.of_nat (length l) + 1);
  po_size : 2 <= size_of_list P;
  po_flag : sent_flag P = 0;
}.
Lemma fresh_ok : part_ok fresh_partition [].
Proof. split; [|done..]. by exists [None; None]. Qed.

(** One call appends the pair, whether the array has to grow or not. *)
Lemma append_ok P l kv : part_ok P l → Z.of_nat (length l) < 2 ^ 61 →
  ∃ (L : list (option kv_pair)) (n : Z), 
    (if next_to_fill P =? size_of_list P then
         let original_size := size_of_list P in
         let size := u64 (original_size * 2) in
         mret (set_kv_pair_list (take (Z.to_nat original_size) (kv_pair_list P) ++
                 replicate (Z.to_nat (size - original_size)) None) (set_size_of_list size P))
       else mret P : M mr partition_data) = mret (set_kv_pair_list L (set_size_of_list n P)) ∧
    ∃ L', (∀ s, aput "kv_pair_list index out of bounds" L (next_to_fill P) (Some kv) s = Ret L' (s : mr)) ∧
    part_ok (set_next_to_fill (u64 (next_to_fill P + 1)) (set_kv_pair_list L' (set_size_of_list n P))) (l ++ [kv]).
Proof.
  intros [(rest & [Hl Hn] & Hs) Hroom Hsz Hfl] Hbig.
  assert (∃ o rest' (n : Z), 
    (if next_to_fill P =? size_of_list P then
         let original_size := size_of_list P in
         let size := u64 (original_size * 2) in
         mret (set_kv_pair_list (take (Z.to_nat original_size) (kv_pair_list P) ++
                 replicate (Z.to_nat (size - original_size)) None) (set_size_of_list size P))
       else mret P : M mr partition_data) =
    mret (set_kv_pair_list ((Some <$> l) ++ o :: rest') (set_size_of_list n P)) ∧
    n = Z.of_nat (length l + S (length rest')) ∧ n <= 2 * (Z.of_nat (length l) + 1) ∧ 2 <= n) as (o & rest' & n & Hif & Hn' & Hb & H2).
  { destruct (Z.eqb_spec (next_to_fill P) (size_of_list P)) as [E|E].
    - assert (rest = []) as -> by (apply nil_length_inv; lia). simpl in Hs.
      exists None, (replicate (length l - 1) None), (u64 (size_of_list P * 2)). cbn zeta.
      assert (u64 (size_of_list P * 2) = size_of_list P * 2) as -> by (apply Z.mod_small; lia).
      split_and!; [|rewrite length_replicate; lia|lia|lia]. rewrite Hl, app_nil_r.
      rewrite take_ge by (rewrite length_fmap; lia). do 3 f_equal.
      replace (Z.to_nat (size_of_list P * 2 - size_of_list P)) with (S (length l - 1)) by lia. done.
    - destruct rest as [|o rest]; [exfalso; simpl in *; lia|]. exists o, rest, (size_of_list P).
      split_and!; [|simpl in *; lia..]. rewrite <- Hl. by destruct P. }
  exists ((Some <$> l) ++ o :: rest'), n. split; [done|]. exists ((Some <$> (l ++ [kv])) ++ rest'). split.
  - intros s. unfold aput. rewrite length_app, length_fmap. cbn [length].
    rewrite (proj2 (Z.leb_le _ _)), (proj2 (Z.ltb_lt _ _)) by lia. cbn [andb]. unfold mret, M_ret. f_equal.
    rewrite Hn, Nat2Z.id, insert_app_r_alt by (rewrite length_fmap; done).
    rewrite length_fmap, Nat.sub_diag, fmap_app. simpl. by rewrite <- app_assoc.
  - split; cbn [size_of_list sent_flag set_next_to_fill set_kv_pair_list set_size_of_list].
    + exists rest'. split; [split; [done|]|rewrite length_app; simpl; lia].
      cbn [next_to_fill set_next_to_fill]. rewrite length_app. simpl. unfold u64. rewrite Z.mod_small; lia.
    + rewrite length_app. simpl. lia.
    + done.
    + done.
Qed.

Section threads.
Context (partitioner : cstr → Z → Z) (mapper : cstr → list kv_pair).

(** A mapper thread is in [map_control]: about to take an argument, or inside
    [my_mapper], with the calls of [MR_Emit] still to come, or gone.  The two steps
    of [MR_Emit] and of the choice of an argument are under their locks. *)
Inductive mthread := Choosing | Mapping (todo : list kv_pair) | Gone.
Inductive mstep : mr * list mthread → mr * list mthread → Prop :=
  | mstep_take ts t s a s' : ts !! t = Some Choosing → take_arg s = Ret (Some a) s' →
      mstep (s, ts) (s', <[t := Mapping (mapper a)]> ts)
  | mstep_gone ts t s s' : ts !! t = Some Choosing → take_arg s = Ret None s' →
      mstep (s, ts) (s', <[t := Gone]> ts)
  | mstep_emit ts t s kv todo s' : ts !! t = Some (Mapping (kv :: todo)) →
      MR_Emit partitioner (key kv) (val kv) s = Ret () s' →
      mstep (s, ts) (s', <[t := Mapping todo]> ts)
  | mstep_return ts t s : ts !! t = Some (Mapping []) → mstep (s, ts) (s, <[t := Choosing]> ts).

Definition todo_of (t : mthread) : list kv_pair := match t with Mapping l => l | _ => [] end.
(** Everything that the mappers are to emit, have still to emit, and have emitted. *)
Definition all_pairs (args : list cstr) : list kv_pair := args ≫= mapper.
Definition pending (s : mr) (ts : list mthread) : list kv_pair :=
  (ts ≫= todo_of) ++ all_pairs (drop (Z.to_nat (arg_idx s)) (input_args s)).
Definition emitted (L : list (list kv_pair)) : list kv_pair := concat L.

Record mapping_inv (args : list cstr) (n : nat) (s : mr) (ts : list mthread) (L : list (list kv_pair)) : Prop := {
  mi_parts : Forall2 part_ok (partition_list s) L;
  mi_n : length L = n;
  mi_num : my_num_partitions s = Z.of_nat n;
  mi_args : input_args s = args;
  mi_idx : 0 <= arg_idx s;
  mi_all : emitted L ++ pending s ts ≡ₚ all_pairs args;
  mi_home : ∀ j l p, L !! j = Some l → p ∈ l → partitioner (key p) (Z.of_nat n) = Z.of_nat j;
}.

Lemma take_arg_cases s : 0 <= arg_idx s →
  match drop (Z.to_nat (arg_idx s)) (input_args s) with
  | a :: _ => take_arg s = Ret (Some a) (set_arg_idx (arg_idx s + 1) s)
  | [] => take_arg s = Ret None (set_arg_idx (arg_idx s + 1) s)
  end.
Proof.
  intros Hi. destruct (drop _ _) as [|a rest] eqn:E.
  - assert (length (input_args s) <= Z.to_nat (arg_idx s))%nat.
    { apply (f_equal length) in E. rewrite length_drop in E. simpl in E. lia. }
    unfold take_arg, mbind, M_bind, gets, modify. cbn [input_args set_arg_idx].
    by rewrite (proj2 (Z.leb_le _ _)) by lia.
  - assert (input_args s !! Z.to_nat (arg_idx s) = Some a) as Ha.
    { by rewrite <- (Nat.add_0_r (Z.to_nat _)), <- lookup_drop, E. }
    pose proof (lookup_lt_Some _ _ _ Ha).
    unfold take_arg, mbind, M_bind, gets, modify. cbn [input_args set_arg_idx].
    rewrite (proj2 (Z.leb_gt _ _)) by lia. unfold aget. rewrite (proj2 (Z.ltb_ge _ _)) by lia. by rewrite Ha.
Qed.

Lemma MR_Emit_spec n s L k v : Forall2 part_ok (partition_list s) L → length L = n →
  my_num_partitions s = Z.of_nat n → 0 <= partitioner k (Z.of_nat n) < Z.of_nat n →
  Forall (λ l : list kv_pair, Z.of_nat (length l) < 2 ^ 61) L →
  ∃ j l s', Z.of_nat j = partitioner k (Z.of_nat n) ∧ L !! j = Some l ∧
    MR_Emit partitioner k v s = Ret () s' ∧ Forall2 part_ok (partition_list s') (<[j := l ++ [mkKv k v]]> L) ∧
    my_num_partitions s' = my_num_partitions s ∧ input_args s' = input_args s ∧ arg_idx s' = arg_idx s.
Proof.
  intros HP Hn Hnum Hp Hbig. set (j := Z.to_nat (partitioner k (Z.of_nat n))).
  assert (Z.of_nat j = partitioner k (Z.of_nat n)) as Hj by lia.
  destruct (lookup_lt_is_Some_2 L j) as [l Hl]; [lia|].
  destruct (Forall2_lookup_r _ _ _ _ _ HP Hl) as (P & HPj & Hok).
  rewrite Forall_lookup in Hbig. specialize (Hbig _ _ Hl).
  destruct (append_ok P l (mkKv k v) Hok Hbig) as (L1 & m & Hif & L2 & Hput & Hok').
  eexists j, l, _. split; [done|]. split; [done|]. unfold MR_Emit. unfold mbind at 1, M_bind at 1, gets at 1.
  rewrite Hnum, <- Hj. cbn zeta. rewrite (bind_Ret _ _ _ _ _ (get_part_at _ _ _ HPj)).
  cbn zeta in Hif. rewrite Hif. unfold mbind, M_bind, mret, M_ret. cbn [kv_pair_list set_kv_pair_list next_to_fill set_size_of_list].
  rewrite Hput. unfold put_part, modify. rewrite Nat2Z.id. split; [reflexivity|].
  cbn [partition_list set_partition_list my_num_partitions input_args arg_idx]. split; [|done].
  by apply Forall2_insert.
Qed.

Lemma todo_insert ts t x y : ts !! t = Some x →
  ∃ r, (ts ≫= todo_of) ≡ₚ todo_of x ++ r ∧ (<[t := y]> ts ≫= todo_of) ≡ₚ todo_of y ++ r.
Proof.
  revert t. induction ts as [|z ts IH]; intros [|t] Ht; simpl in *; try done.
  - injection Ht as ->. by eexists.
  - destruct (IH t Ht) as (r & H1 & H2). exists (todo_of z ++ r). rewrite H1, H2. 
    split; rewrite !(assoc_L (++)), (Permutation_app_comm (todo_of z)); done.
Qed.
Lemma concat_insert (L : list (list kv_pair)) j l p : L !! j = Some l →
  concat (<[j := l ++ [p]]> L) ≡ₚ p :: concat L.
Proof.
  revert j. induction L as [|x L IH]; intros [|j] Hj; simpl in *; try done.
  - injection Hj as ->. rewrite <- app_assoc. symmetry. apply Permutation_middle.
  - rewrite (IH _ Hj). symmetry. apply Permutation_middle.
Qed.

(** What [MR_Run] sets before it starts the mapper threads. *)
Definition MR_Run_setup (args : list cstr) (num_partitions : Z) : M mr () :=
  modify (set_my_num_partitions num_partitions) ;;
  modify (set_input_args args) ;;
  init_partition_list ;;
  modify (set_arg_idx 0).  (* init_mapper_concurrency *)

(** Steps that are left at most. *)
Definition work (t : mthread) : nat :=
  match t with Gone => 0 | Choosing => 1 | Mapping l => 2 + length l end.
Definition work_left (st : mr * list mthread) : nat :=
  sum_list (work <$> st.2) + sum_list ((λ a, (3 + length (mapper a))%nat) <$> drop (Z.to_nat (arg_idx st.1)) (input_args st.1)).
Lemma work_insert (ts : list mthread) t x y : ts !! t = Some x →
  (sum_list (work <$> <[t := y]> ts) + work x = sum_list (work <$> ts) + work y)%nat.
Proof.
  revert t. induction ts as [|z ts IH]; intros [|t] Ht; simpl in *; try done.
  - injection Ht as ->. cbn. lia.
  - specialize (IH t Ht). unfold fmap in IH. lia.
Qed.

Record threads_inv (args : list cstr) (n : nat) (s : mr) (ts : list mthread) : Prop := {
  ti_map : ∃ L, mapping_inv args n s ts L;
  ti_some : ts ≠ [];
  ti_gone : Gone ∈ ts → drop (Z.to_nat (arg_idx s)) args = [];
}.
Lemma drop_next {A} (l : list A) i a rest : 0 <= i → drop (Z.to_nat i) l = a :: rest → drop (Z.to_nat (i + 1)) l = rest.
Proof. intros Hi E. replace (Z.to_nat (i + 1)) with (Z.to_nat i + 1)%nat by lia. by rewrite <- drop_drop, E. Qed.
Lemma drop_end {A} (l : list A) i : 0 <= i → drop (Z.to_nat i) l = [] → drop (Z.to_nat (i + 1)) l = [].
Proof. intros Hi E. replace (Z.to_nat (i + 1)) with (Z.to_nat i + 1)%nat by lia. by rewrite <- drop_drop, E. Qed.
Lemma insert_nonempty {A} (ts : list A) t x y : ts !! t = Some x → <[t := y]> ts ≠ [].
Proof. by destruct ts, t. Qed.
Lemma gone_insert (ts : list mthread) t y : y ≠ Gone → Gone ∈ <[t := y]> ts → Gone ∈ ts.
Proof.
  intros Hy [i Hi]%list_elem_of_lookup_1. apply list_lookup_insert_Some in Hi as [(_ & E & _)|(_ & Hi)]; [done|].
  by eapply list_elem_of_lookup_2.
Qed.

Lemma emitted_length args n s ts L j l : mapping_inv args n s ts L → L !! j = Some l →
  (length l <= length (all_pairs args))%nat.
Proof.
  intros [_ _ _ _ _ Hall _] Hj. rewrite <- Hall, length_app.
  assert (length l <= length (emitted L))%nat; [|lia]. clear -Hj. unfold emitted. revert j Hj.
  induction L as [|x L IH]; intros [|j] Hj; simpl in *; try done; rewrite length_app.
  - injection Hj as ->. lia.
  - specialize (IH _ Hj). lia.
Qed.

Lemma threads_step args n s ts s' ts' : (∀ k, 0 <= partitioner k (Z.of_nat n) < Z.of_nat n) →
  Z.of_nat (length (all_pairs args)) < 2 ^ 61 → threads_inv args n s ts → mstep (s, ts) (s', ts') →
  threads_inv args n s' ts' ∧ (work_left (s', ts') < work_left (s, ts))%nat.
Proof.
  intros Hpart Hbig [[L HL] Hne Hgone] Hst. pose proof HL as [HP Hn Hnum Ha Hi Hall Hhome].
  pose proof (take_arg_cases s Hi) as Htake. unfold work_left. cbn [fst snd].
  inversion Hst as [ts0 t s0 a s1 Ht Hm|ts0 t s0 s1 Ht Hm|ts0 t s0 kv todo s1 Ht Hm|ts0 t s0 Ht]; subst; cycle 3.
  - destruct (todo_insert ts t _ Choosing Ht) as (r & H1 & H2). pose proof (work_insert ts t _ Choosing Ht) as Hw.
    simpl in Hw. split; [|lia]. split; [|by eapply insert_nonempty|intros H; by apply Hgone, (gone_insert ts t Choosing)].
    exists L. split; try done. rewrite <- Hall. unfold pending. by rewrite H1, H2.
  - destruct (drop _ _) as [|a' rest] eqn:E in Htake; [by rewrite Htake in Hm|].
    rewrite Htake in Hm. injection Hm as <- <-. cbn [arg_idx set_arg_idx input_args].
    rewrite E. pose proof (drop_next _ _ _ _ Hi E) as E'. rewrite E'.
    destruct (todo_insert ts t _ (Mapping (mapper a')) Ht) as (r & H1 & H2).
    pose proof (work_insert ts t _ (Mapping (mapper a')) Ht) as Hw. simpl in Hw. split; [|cbn in Hw |- *; lia].
    split; [|by eapply insert_nonempty|intros H%gone_insert; [|done]; specialize (Hgone H); by rewrite Hgone in E].
    exists L. split; try done. { simpl. lia. }
    rewrite <- Hall. unfold pending. rewrite H1, H2. cbn [arg_idx set_arg_idx input_args]. rewrite E, E'.
    cbn [todo_of all_pairs]. change (all_pairs (a' :: rest)) with (mapper a' ++ all_pairs rest). cbn [app].
    apply Permutation_app_head. rewrite <- !app_assoc. by rewrite !(assoc_L (++)), (Permutation_app_comm r).
  - destruct (drop _ _) as [|a' rest] eqn:E in Htake; [|by rewrite Htake in Hm].
    rewrite Htake in Hm. injection Hm as <-. cbn [arg_idx set_arg_idx input_args].
    rewrite E. pose proof (drop_end _ _ Hi E) as E'. rewrite E'.
    destruct (todo_insert ts t _ Gone Ht) as (r & H1 & H2).
    pose proof (work_insert ts t _ Gone Ht) as Hw. simpl in Hw. split; [|simpl; lia].
    split; [|by eapply insert_nonempty|done].
    exists L. split; try done. { simpl. lia. }
    rewrite <- Hall. unfold pending. rewrite H1, H2. cbn [arg_idx set_arg_idx input_args]. by rewrite E, E'.
  - destruct (MR_Emit_spec (length L) s L (key kv) (val kv) HP eq_refl Hnum (Hpart _)) as (j & l & s2 & Hj & Hl & Hm' & HP' & Hnum' & Ha' & Hi').
    { apply Forall_lookup. intros j l Hl. pose proof (emitted_length _ _ _ _ _ _ _ HL Hl). lia. }
    rewrite Hm in Hm'. injection Hm' as <-. rewrite Ha', Hi'. destruct kv as [k v]. cbn [key val] in *.
    destruct (todo_insert ts t _ (Mapping todo) Ht) as (r & H1 & H2).
    pose proof (work_insert ts t _ (Mapping todo) Ht) as Hw. simpl in Hw. split; [|lia].
    split; [|by eapply insert_nonempty|intros H%gone_insert; [|done]; rewrite Hi'; auto].
    exists (<[j := l ++ [mkKv k v]]> L). split; try done.
    + by rewrite length_insert.
    + by rewrite Hnum'.
    + by rewrite Hi'.
    + rewrite <- Hall. unfold pending, emitted. rewrite (concat_insert _ _ _ _ Hl), H1, H2, Hi', Ha'.
      cbn [todo_of app]. apply Permutation_middle.
    + intros j' l' p Hj' Hp. destruct (decide (j = j')) as [<-|Hjj].
      * rewrite list_lookup_insert_eq in Hj' by (by eapply lookup_lt_Some). injection Hj' as <-.
        apply elem_of_app in Hp as [Hp|Hp]; [by apply (Hhome j l)|]. apply list_elem_of_singleton in Hp as ->. done.
      * rewrite list_lookup_insert_ne in Hj' by done. by apply (Hhome j' l').
Qed.

Lemma setup_spec args n s : ∃ s', MR_Run_setup args (Z.of_nat n) s = Ret () s' ∧
  mapping_inv args n s' [] (replicate n []) ∧ arg_idx s' = 0 ∧ input_args s' = args.
Proof.
  eexists. split; [reflexivity|]. split; [|done]. split; try done.
  - cbn [partition_list set_arg_idx set_partition_list my_num_partitions set_input_args set_my_num_partitions].
    rewrite Nat2Z.id. apply Forall2_replicate, fresh_ok.
  - apply length_replicate.
  - unfold emitted, pending. cbn. assert (concat (replicate n ([] : list kv_pair)) = []) as -> by (by induction n). done.
  - intros j l p [-> _]%lookup_replicate Hp. by apply elem_of_nil in Hp.
Qed.

(** A thread that is not gone can take its step: nothing it does faults. *)
Lemma threads_progress args n s ts t x : (∀ k, 0 <= partitioner k (Z.of_nat n) < Z.of_nat n) →
  Z.of_nat (length (all_pairs args)) < 2 ^ 61 → threads_inv args n s ts → ts !! t = Some x → x ≠ Gone →
  ∃ s' y, mstep (s, ts) (s', <[t := y]> ts).
Proof.
  intros Hpart Hbig [[L HL] _ _] Ht Hx. pose proof HL as [HP Hn Hnum Ha Hi _ _]. destruct x as [|[|kv todo]|]; [| | |done].
  - pose proof (take_arg_cases s Hi) as Htake. destruct (drop _ _); eexists _, _;
      [by apply mstep_gone|by eapply mstep_take].
  - eexists _, _. by apply mstep_return.
  - destruct (MR_Emit_spec n s L (key kv) (val kv) HP Hn Hnum (Hpart _)) as (j & l & s2 & _ & _ & Hm & _).
    { apply Forall_lookup. intros j l Hl. pose proof (emitted_length _ _ _ _ _ _ _ HL Hl). lia. }
    eexists _, _. by eapply mstep_emit.
Qed.

Lemma filter_none {A} (P : A → Prop) `{∀ x, Decision (P x)} (l : list A) : (∀ x, x ∈ l → ¬ P x) → filter P l = [].
Proof.
  induction l as [|x l IH]; intros HP; [done|]. rewrite filter_cons_False by (apply HP; by left).
  apply IH. intros y Hy. apply HP. by right.
Qed.
(** The pairs of one partition, among all of them. *)
Lemma partition_of L n j l :
  (∀ j l p, L !! j = Some l → p ∈ l → partitioner (key p) (Z.of_nat n) = Z.of_nat j) → L !! j = Some l →
  filter (λ p, partitioner (key p) (Z.of_nat n) = Z.of_nat j) (concat L) = l.
Proof.
  intros Hhome Hj.
  assert (∀ L' d, (∀ j' l' p, L' !! j' = Some l' → p ∈ l' → partitioner (key p) (Z.of_nat n) = Z.of_nat (d + j')) →
    filter (λ p, partitioner (key p) (Z.of_nat n) = Z.of_nat j) (concat L') =
    if decide (d <= j)%nat then default [] (L' !! (j - d)%nat) else []) as Hgen.
  { clear. induction L' as [|l L' IH]; intros d HL; [by case_decide|]. cbn [concat]. rewrite filter_app.
    rewrite (IH (S d)). 2: { intros j' l' p Hj' Hp. rewrite (HL (S j') l' p Hj' Hp). f_equal. lia. }
    destruct (decide (d = j)) as [->|Hne].
    - rewrite (decide_True (P := (j <= j)%nat)), (decide_False (P := (S j <= j)%nat)), Nat.sub_diag, app_nil_r by lia.
      apply filter_all. intros p Hp. rewrite (HL 0%nat l p eq_refl Hp). f_equal. lia.
    - rewrite (filter_none _ l), app_nil_l.
      2: { intros p Hp E. rewrite (HL 0%nat l p eq_refl Hp) in E. lia. }
      destruct (decide (d <= j)%nat).
      + rewrite decide_True by lia. by replace (j - d)%nat with (S (j - S d)) by lia.
      + by rewrite decide_False by lia. }
  rewrite (Hgen L 0%nat) by (intros; by eapply Hhome). by rewrite decide_True, Nat.sub_0_r, Hj by lia.
Qed.

(** C26: for any number of mapper threads and any interleaving of their steps: the threads
    are done after a bounded number of steps, none of them ever faults or waits
    for ever, and when they are done every partition holds exactly the pairs that
    the mapper emits for the arguments and that the partition function sends to
    it, each as often as it is emitted. *)
Theorem mappers_emit_all args n m s0 s1 k s ts :
  (0 < m)%nat → (∀ key, 0 <= partitioner key (Z.of_nat n) < Z.of_nat n) →
  Z.of_nat (length (all_pairs args)) < 2 ^ 61 →
  MR_Run_setup args (Z.of_nat n) s0 = Ret () s1 → nsteps mstep k (s1, replicate m Choosing) (s, ts) →
  (k <= m + 3 * length args + length (all_pairs args))%nat ∧
  (∀ t x, ts !! t = Some x → x ≠ Gone → ∃ s' y, mstep (s, ts) (s', <[t := y]> ts)) ∧
  (Forall (eq Gone) ts → ∀ j, (j < n)%nat → ∃ P l rest, partition_list s !! j = Some P ∧ holds_pairs P l rest ∧
    sent_flag P = 0 ∧ l ≡ₚ filter (λ p, partitioner (key p) (Z.of_nat n) = Z.of_nat j) (all_pairs args)).
Proof.
  intros Hm Hpart Hbig Hset Hk.
  assert (threads_inv args n s1 (replicate m Choosing) ∧
    work_left (s1, replicate m Choosing) = (m + 3 * length args + length (all_pairs args))%nat) as [Hinv0 Hw0].
  { destruct (setup_spec args n s0) as (s1' & Hset' & HI & Hi & Ha). rewrite Hset in Hset'. injection Hset' as <-. split.
    - split; [|destruct m; [lia|done]|by intros [? _]%elem_of_replicate].
      exists (replicate n []). destruct HI as [? ? ? ? ? Hall ?]. split; try done. rewrite <- Hall. unfold pending.
      assert (replicate m Choosing ≫= todo_of = []) as -> by (clear; by induction m). done.
    - unfold work_left. cbn [fst snd]. rewrite Hi, Ha. change (Z.to_nat 0) with 0%nat. rewrite drop_0.
      assert (sum_list (work <$> replicate m Choosing) = m) as -> by (clear; induction m; cbn in *; lia).
      assert (sum_list ((λ a, (3 + length (mapper a))%nat) <$> args) = 3 * length args + length (all_pairs args))%nat as ->.
      { clear. unfold all_pairs. induction args as [|a args IH]; [done|]. cbn in *. rewrite length_app. lia. }
      lia. }
  assert (threads_inv args n s ts ∧ (k + work_left (s, ts) <= work_left (s1, replicate m Choosing))%nat) as [Hinv Hw].
  { clear Hset Hw0 Hm. revert Hk Hinv0. generalize (replicate m Choosing). revert s1. induction k as [|k IH]; intros s1 ts1 Hk Hinv0.
    - inversion Hk; subst. split; [done|lia].
    - inversion Hk as [|? ? [s2 ts2] ? Hst Hk']; subst.
      destruct (threads_step _ _ _ _ _ _ Hpart Hbig Hinv0 Hst) as [Hinv1 Hlt]. destruct (IH _ _ Hk' Hinv1). split; [done|lia]. }
  split; [lia|]. split; [intros t x; by apply threads_progress with args n|].
  intros Hgone j Hj. destruct Hinv as [[L [HP Hn Hnum Ha Hi Hall Hhome]] Hne Hend].
  destruct (lookup_lt_is_Some_2 L j) as [l Hl]; [lia|].
  destruct (Forall2_lookup_r _ _ _ _ _ HP Hl) as (P & HPj & [(rest & Hh & _) _ _ Hfl]).
  exists P, l, rest. split; [done|]. split; [done|]. split; [done|].
  assert (pending s ts = []) as Hpend.
  { unfold pending. rewrite Ha. rewrite Hend.
    - rewrite app_nil_r. clear -Hgone. by induction Hgone as [|? ? <- ? IH].
    - destruct Hgone as [|? ? <- _]; [done|by left]. }
  rewrite Hpend, app_nil_r in Hall. rewrite <- Hall. unfold emitted. by rewrite (partition_of L n j l).
Qed.
End threads.

(** * The two programs: wordcount.c and sort.c *)
(** The loop of the two [Map] functions: the pairs they emit; [None] when a buffer
    starts with a NUL and the character before its end is before the buffer. *)
Fixpoint map_lines (fuel : nat) (v : cstr) (content : cstr) : option (list kv_pair) :=
  match fuel, content with
  | _, [] => Some []
  | O, _ => Some []
  | S fuel, _ =>
      let '(buffer, content) := fgets 99 content in
      let line := c_str buffer in
      if decide (line = []) then None
      else (λ kvs, mkKv (take (length line - 1) line) v :: kvs) <$> map_lines fuel v content
  end.
Definition one_str : cstr := [49].
Definition dummy_str : cstr := [100; 117; 109; 109; 121].
Definition wordcount_Map (content : cstr) : option (list kv_pair) := map_lines (length content) one_str content.
Definition sort_Map (content : cstr) : option (list kv_pair) := map_lines (length content) dummy_str content.
(** [atoi] of a value, and the count that wordcount's [Reduce] prints. *)
Definition atoi (s : cstr) : Z :=
  match skip_space s with
  | 45 :: s' => s32 (- digits 10 0 s')
  | 43 :: s' => s32 (digits 10 0 s')
  | s' => s32 (digits 10 0 s')
  end.
Definition wordcount_Reduce (values : list cstr) : Z := foldl (λ count v, s32 (count + atoi v)) 0 values.

(** A line that [fgets] reads whole. *)
Definition short_line (l : cstr) : Prop := (length l <= 98)%nat ∧ ∀ c, c ∈ l → c ≠ 10 ∧ c ≠ 0.
(** What is emitted for the characters after the last newline. *)
Definition last_line (l : cstr) : list cstr := if decide (l = []) then [] else [take (length l - 1) l].

(** On a text of lines of at most 98 characters, the [Map] functions emit each line once, in
    order; a last line without a newline is emitted without its last character.  What wordcount's [Reduce]
    prints for a key is the number of its pairs. *)
Theorem wordcount_exact ls last : Forall short_line ls → short_line last →
  wordcount_Map (text ls last) =
    Some ((λ l, mkKv l one_str) <$> ls ++ last_line last) ∧
  sort_Map (text ls last) =
    Some ((λ l, mkKv l dummy_str) <$> ls ++ last_line last) ∧
  ∀ n, Z.of_nat n < 2 ^ 31 → wordcount_Reduce (replicate n one_str) = Z.of_nat n.
Proof.
  intros Hls [Hlast Hlc].
  assert (∀ (v : cstr) (fuel : nat), (length (text ls last) <= fuel)%nat →
    map_lines fuel v (text ls last) =
    Some (fmap (M:=list) (λ l : cstr, mkKv l v) (ls ++ last_line last))) as Hgen.
  { intros v. unfold text. induction Hls as [|l ls [Hl Hlc'] Hls IH]; intros fuel Hf.
    - cbn [mbind list_bind app] in *. unfold last_line. destruct (decide (last = [])) as [->|Hne]; [by destruct fuel|].
      destruct fuel as [|fuel]; [destruct last; [done|simpl in *; lia]|]. cbn [map_lines].
      destruct last as [|c last'] eqn:El; [done|]. rewrite <- El in *. rewrite fgets_last; [|lia|done].
      rewrite c_str_id by (intros d Hd; by apply Hlc). rewrite decide_False by done. by destruct fuel.
    - cbn [mbind list_bind] in *. rewrite <- !app_assoc in *. cbn [app] in *. rewrite length_app in Hf. cbn [length] in Hf.
      destruct fuel as [|fuel]; [lia|]. cbn [map_lines].
      destruct (l ++ 10 :: (ls ≫= λ l, l ++ [10]) ++ last) as [|c s] eqn:E; [by destruct l|]. rewrite <- E.
      rewrite fgets_line; [|lia|done].
      rewrite c_str_id; [|intros d [Hd|Hd]%elem_of_app; [by apply Hlc'|apply list_elem_of_singleton in Hd; lia]].
      rewrite decide_False by (by destruct l).
      rewrite IH by lia. rewrite length_app. cbn [length]. 
      rewrite Nat.add_sub, take_app_length. done. }
  split; [by apply Hgen|]. split; [by apply Hgen|]. intros n Hn. unfold wordcount_Reduce.
  assert (∀ n a, 0 <= a → a + Z.of_nat n < 2 ^ 31 →
    foldl (λ count v, s32 (count + atoi v)) a (replicate n one_str) = a + Z.of_nat n) as Hfold.
  { clear. induction n as [|n IH]; intros a Ha Hn; [simpl; lia|]. cbn [replicate foldl].
    change (atoi one_str) with 1. rewrite s32_small by lia. rewrite IH; lia. }
  rewrite Hfold; lia.
Qed.

Lemma digits_nonneg base acc s : 0 <= base → 0 <= acc → 0 <= digits base acc s.
Proof.
  intros Hb. revert acc. induction s as [|c s IH]; intros acc Ha; simpl; [done|].
  destruct (digit_of c <? base); [|done]. apply IH.
  assert (0 <= digit_of c); [|nia]. unfold digit_of.
  destruct (Z.leb_spec 48 c), (Z.leb_spec c 57), (Z.leb_spec 97 c), (Z.leb_spec c 122), (Z.leb_spec 65 c), (Z.leb_spec c 90);
    cbn [andb]; lia.
Qed.
Lemma magnitude_nonneg s : 0 <= magnitude s.
Proof. unfold magnitude. repeat case_match; apply digits_nonneg; lia. Qed.
Lemma strtoul_nonneg s : 0 <= strtoul s.
Proof.
  unfold strtoul.
  assert (∀ s', 0 <= Z.min ULONG_MAX (magnitude s')) as Hmin
    by (intros s'; pose proof (magnitude_nonneg s'); unfold ULONG_MAX; lia).
  repeat case_match; try apply Hmin; try (by apply Z.mod_pos_bound); unfold ULONG_MAX; lia.
Qed.

(** The partition functions: the hash stays below the number of partitions, for every
    key; the sorted partition of a key does if and only if the key is below 2^32 (for larger keys
    [MR_Emit] may index [partition_list] out of bounds), and then it is monotone in the number
    that the key denotes, so the partitions in order hold the keys in order. *)
Theorem partition_functions n k k' : 0 < n < 2 ^ 31 →
  0 <= MR_DefaultHashPartition k n < n ∧
  (strtoul k < 2 ^ 32 → 0 <= MR_SortedPartition k n < n) ∧
  (strtoul k <= strtoul k' < 2 ^ 32 → MR_SortedPartition k n <= MR_SortedPartition k' n).
Proof.
  intros Hn.
  assert (0 <= strtoul k ∧ 0 <= strtoul k') as [Hk Hk'] by (split; apply strtoul_nonneg).
  assert (∀ j, 0 <= strtoul j < 2 ^ 32 → MR_SortedPartition j n = strtoul j * n / 2 ^ 32) as Hs.
  { intros j Hj. unfold MR_SortedPartition, u64. rewrite (Z.mod_small n) by lia.
    rewrite Z.mod_small by nia. rewrite Z.shiftr_div_pow2 by lia. done. }
  split; [|split].
  - unfold MR_DefaultHashPartition, u64. rewrite (Z.mod_small n) by lia. apply Z.mod_pos_bound. lia.
  - intros. rewrite Hs by lia. split; [apply Z.div_pos; nia|]. apply Z.div_lt_upper_bound; nia.
  - intros. rewrite !Hs by lia. apply Z.div_le_mono; nia.
Qed.

(** * Witnesses *)
(** A sort that keeps what [qsort] promises. *)
Definition comparator_le (p q : kv_pair) : Prop := kv_pair_comparator p q <= 0.
#[export] Instance comparator_le_dec : RelDecision comparator_le.
Proof. intros p q. unfold comparator_le. apply _. Defined.
#[export] Instance comparator_le_trans : Transitive comparator_le.
Proof. intros p q r. apply strcmp_trans. Qed.
#[export] Instance comparator_le_total : Total comparator_le.
Proof.
  intros p q. unfold comparator_le, kv_pair_comparator. generalize (key p), (key q).
  intros a. induction a as [|c a IH]; intros [|d b]; simpl; try lia.
  destruct (Z.ltb_spec c d), (Z.ltb_spec d c); try lia. apply IH.
Qed.
Definition sort_pairs : list kv_pair → list kv_pair := merge_sort comparator_le.
Lemma sort_pairs_perm l : sort_pairs l ≡ₚ l.
Proof. apply merge_sort_Permutation. Qed.
Lemma sort_pairs_sorted l : StronglySorted (λ p q, kv_pair_comparator p q <= 0) (sort_pairs l).
Proof. apply (StronglySorted_merge_sort comparator_le). Qed.

Definition demo_pairs : list kv_pair := [mkKv [98] one_str; mkKv [97] dummy_str; mkKv [98] dummy_str].
Definition demo_part (l : list kv_pair) : partition_data :=
  mkPart ((Some <$> l) ++ [None]) (Z.of_nat (length l) + 1) (Z.of_nat (length l)) 0 [] [] [] 0 map_init 0.
Definition demo_mr (l : list kv_pair) : mr := mkMr [demo_part l] 1 [] 0 0.
Lemma reduce_partition_exact_witness :
  ∃ calls s' P', reduce_partition sort_pairs 0 (demo_mr demo_pairs) = Ret calls s' ∧ reduced demo_pairs calls ∧
    partition_list s' !! 0%nat = Some P' ∧ 0 < sent_flag P'.
Proof.
  apply (reduce_partition_exact sort_pairs sort_pairs_perm sort_pairs_sorted 0 (demo_mr demo_pairs)
    (demo_part demo_pairs) demo_pairs [None]); [done|done|done|done| |done].
  right. exists (mkKv [98] one_str), (mkKv [97] dummy_str). split; [by left|]. split; [by right; left|done].
Defined.
Lemma single_key_faults_witness :
  reduce_partition sort_pairs 0 (demo_mr [mkKv [97] one_str; mkKv [97] one_str]) = Fault "uninitialised value".
Proof.
  apply (single_key_faults sort_pairs sort_pairs_perm sort_pairs_sorted 0 _
    (demo_part [mkKv [97] one_str; mkKv [97] one_str]) [mkKv [97] one_str; mkKv [97] one_str] [None]); try done.
  intros p q Hp Hq. rewrite !elem_of_cons, elem_of_nil in Hp, Hq. by destruct Hp as [->|[->|[]]], Hq as [->|[->|[]]].
Defined.

(** One thread, one file, two partitions. *)
Definition demo_mapper (file : cstr) : list kv_pair := default [] (wordcount_Map file).
Definition demo_file : cstr := [97; 10; 98; 10].
Definition mr0 : mr := mkMr [] 0 [] 0 0.
Definition after {A} (m : M mr A) (s : mr) : mr := match m s with Ret _ s' => s' | _ => s end.
Lemma mappers_emit_all_witness :
  let s1 := after (MR_Run_setup [demo_file] 2) mr0 in
  let emit k := after (MR_Emit MR_DefaultHashPartition k one_str) in
  let s := after take_arg (emit [98] (emit [97] (after take_arg s1))) in
  ∃ P l rest, partition_list s !! 1%nat = Some P ∧ holds_pairs P l rest ∧
    sent_flag P = 0 ∧ l ≡ₚ filter (λ p, MR_DefaultHashPartition (key p) 2 = 1) (all_pairs demo_mapper [demo_file]).
Proof.
  intros s1 emit s.
  apply (mappers_emit_all MR_DefaultHashPartition demo_mapper [demo_file] 2 1 mr0 s1 5 s [Gone]); [lia| |done|done| |by repeat constructor|lia].
  - intros k. unfold MR_DefaultHashPartition. by apply Z.mod_pos_bound.
  - set (a1 := after take_arg s1). set (a2 := emit [97] a1). set (a3 := emit [98] a2).
    eapply nsteps_l; [apply (mstep_take _ _ [Choosing] 0 s1 demo_file a1); vm_compute; reflexivity|].
    eapply nsteps_l; [apply (mstep_emit _ _ _ 0 a1 (mkKv [97] one_str) [mkKv [98] one_str] a2); vm_compute; reflexivity|].
    eapply nsteps_l; [apply (mstep_emit _ _ _ 0 a2 (mkKv [98] one_str) [] a3); vm_compute; reflexivity|].
    eapply nsteps_l; [apply (mstep_return _ _ _ 0 a3); reflexivity|].
    eapply nsteps_l; [apply (mstep_gone _ _ _ 0 a3 s); vm_compute; reflexivity|]. apply nsteps_O.
Defined.
Lemma wordcount_exact_witness :
  wordcount_Map [97; 98; 10; 10; 99; 100] = Some [mkKv [97; 98] one_str; mkKv [] one_str; mkKv [99] one_str].
Proof.
  apply (wordcount_exact [[97; 98]; []] [99; 100]).
  - repeat (apply Forall_cons_2 || apply Forall_nil_2); (split; [simpl; lia|]); intros c Hc;
      rewrite ?elem_of_cons, ?elem_of_nil in Hc; lia.
  - split; [simpl; lia|]. intros c Hc. rewrite !elem_of_cons, elem_of_nil in Hc. lia.
Defined.
Lemma partition_functions_witness :
  0 <= MR_SortedPartition [55] 4 < 4 ∧ MR_SortedPartition [55] 4 <= MR_SortedPartition [57] 4.
Proof.
  destruct (partition_functions 4 [55] [57]) as (_ & H1 & H2); [lia|]. split; [by apply H1|by apply H2].
Defined.
