(* ===== verification/Txn.v ===== *)
(** * The layer below fs.c: buffers inside a transaction

    [Transactions] has the operations of bio.c and log.c that fs.c and file.c call.
    [TransactionLaws] is what they promise inside a transaction with room: blocks have one
    current content, [tvw]; a block may be changed while its buffer is locked, and must be logged
    before the buffer is released.  The instances are the log of Log.v over any block cache. *)

From S2P Require Import Prelude Bio Blocks Log.

Class Transactions (S : Type) := {
  t_bread : Z → Z → M S nat;
  t_brelse : nat → M S ();
  t_log_write : nat → M S ();
  t_data : nat → S → blockdata;            (* b->data *)
  t_set_data : nat → blockdata → M S ();
  t_begin_op : M S ();
  t_end_op : M S ();
}.

#[export] Instance log_transactions {S : Type} `{BufferCache S} : Transactions (log S) := {|
  t_bread dev b := on_bc (bread dev b);
  t_brelse h := on_bc (brelse h);
  t_log_write h := log_write h;
  t_data h s := b_data h (bc s);
  t_set_data h d := on_bc (b_set_data h d);
  t_begin_op := begin_op;
  t_end_op := end_op;
|}.

(** What a client sees of a transaction: the current content of the blocks, the logged blocks,
    which buffers it holds, which blocks the file system may touch, how many blocks
    a transaction may log. *)
Class TransactionView (T : Type) := {
  tinv : T → Prop;
  tvw : T → blkid → blockdata;
  tdsk : T → blkid → blockdata;
  tlogged : T → gset blkid;
  theld : T → gset blkid;
  tat : T → nat → blkid → Prop;
  thome : T → blkid → Prop;
  tcap : T → Z;
}.
(** All but the held buffers stays the same. *)
Record tsame {T} `{TransactionView T} (l l' : T) : Prop := {
  ts_vw : tvw l' = tvw l;
  ts_dsk : tdsk l' = tdsk l;
  ts_logged : tlogged l' = tlogged l;
  ts_home : thome l' = thome l;
  ts_cap : tcap l' = tcap l;
}.
Class TransactionLaws (T : Type) `{Transactions T, TransactionView T} := {
  t_at_held l h k : tat l h k → k ∈ theld l;
  t_data_law l h k : tinv l → tat l h k → t_data h l = tvw l k;
  t_disk_law l k : tinv l → k ∉ tlogged l → k ∉ theld l → tvw l k = tdsk l k;
  t_bread_law l dev b : tinv l → thome l (dev, b) → (dev, b) ∉ theld l →
    (size (tlogged l) + size (theld l) < NBUF)%nat →
    ∃ h l', t_bread dev b l = Ret h l' ∧ tinv l' ∧ tsame l l' ∧ theld l' = {[ (dev, b) ]} ∪ theld l ∧
      tat l' h (dev, b) ∧ ∀ h' k, tat l h' k → tat l' h' k;
  t_brelse_law l h k : tinv l → tat l h k → k ∈ tlogged l ∨ tvw l k = tdsk l k →
    ∃ l', t_brelse h l = Ret () l' ∧ tinv l' ∧ tsame l l' ∧ theld l' = theld l ∖ {[k]} ∧
      ∀ h' k', k' ≠ k → tat l h' k' → tat l' h' k';
  t_set_data_law l h k d : tinv l → tat l h k →
    ∃ l', t_set_data h d l = Ret () l' ∧ tinv l' ∧ tvw l' = <[k := d]> (tvw l) ∧ tdsk l' = tdsk l ∧
      tlogged l' = tlogged l ∧ thome l' = thome l ∧ tcap l' = tcap l ∧ theld l' = theld l ∧
      ∀ h' k', tat l h' k' → tat l' h' k';
  t_log_write_law l h k : tinv l → tat l h k → thome l k → Z.of_nat (size (tlogged l)) < tcap l →
    ∃ l', t_log_write h l = Ret () l' ∧ tinv l' ∧ tvw l' = tvw l ∧ tdsk l' = tdsk l ∧
      tlogged l' = {[k]} ∪ tlogged l ∧ thome l' = thome l ∧ tcap l' = tcap l ∧ theld l' = theld l ∧
      ∀ h' k', tat l h' k' → tat l' h' k';
}.

(** * The log keeps these promises *)
Section instance.
Context {S : Type} `{BufferCacheLaws S}.
Implicit Types s : log S.

#[export] Instance log_view : TransactionView (log S) := {|
  tinv s := log_inv s ∧ 1 <= outstanding s ∧ size (lblocks s) = Z.to_nat (lh_n s);
  tvw s := vw (bc s);
  tdsk s := dsk (bc s);
  tlogged s := lblocks s;
  theld s := hld (bc s);
  tat s h k := at_ (bc s) h k;
  thome s k := k.1 = ldev s ∧ 0 <= k.2 < FSSIZE ∧ ¬ in_log s k;
  tcap s := lsize s - 1;
|}.

Lemma tsame_bc s c : vw c = vw (bc s) → dsk c = dsk (bc s) → tsame s (set_bc c s).
Proof. intros Hv Hd. split; cbn; try done. Qed.
Lemma log_write_frame h s s' : log_write h s = Ret () s' →
  ldev s' = ldev s ∧ lsize s' = lsize s ∧ start s' = start s ∧ ∃ c c', b_set_dirty h c = Ret () c' ∧ bc s' = c' ∧ c = bc s.
Proof.
  unfold log_write. intros Hm. apply bind_Ret_inv in Hm as (n & s1 & [= <- <-] & Hm).
  apply bind_Ret_inv in Hm as (sz & s1 & [= <- <-] & Hm).
  apply bind_Ret_inv in Hm as ([] & s1 & Hw & Hm). unfold when in Hw. destruct (_ || _) in Hw; [done|]. injection Hw as <-.
  apply bind_Ret_inv in Hm as (o & s1 & [= <- <-] & Hm).
  apply bind_Ret_inv in Hm as ([] & s1 & Hw & Hm). unfold when in Hw. destruct (_ <? _) in Hw; [done|]. injection Hw as <-.
  apply bind_Ret_inv in Hm as (bl & s1 & [= <- <-] & Hm).
  apply bind_Ret_inv in Hm as (no & s1 & Hno & Hm). unfold on_bc, zoom, gets in Hno. injection Hno as <- <-.
  apply bind_Ret_inv in Hm as ([] & s1 & [= <-] & Hm).
  apply bind_Ret_inv in Hm as ([] & s2 & Hw & Hm).
  assert (ldev s2 = ldev s ∧ lsize s2 = lsize s ∧ start s2 = start s ∧ bc s2 = bc s) as (E1 & E2 & E3 & E4).
  { unfold when, modify, mret, M_ret in Hw. destruct (_ =? _) in Hw; injection Hw as <-; done. }
  unfold on_bc, zoom in Hm. destruct (b_set_dirty h (bc s2)) as [[] c'| | | |] eqn:E; try done. injection Hm as <-.
  cbn. split; [done|]. split; [done|]. split; [done|]. exists (bc s2), c'. by rewrite E4 in *.
Qed.
#[export] Instance log_laws : TransactionLaws (log S).
Proof.
  split.
  - intros s h k. apply at_hld.
  - intros s h k [Hi _] Ha. apply at_data; [apply Hi|done].
  - intros s k [Hi _] Hl Hh. apply vw_disk; [apply Hi|by rewrite (li_pins s Hi)|done].
  - intros s dev b [Hi Ho] (Hd & Hb & Hnl) Hh Hsz. cbn in *. subst dev.
    destruct (bread_law (bc s) (ldev s) b) as (h & c & Hm & Hc & Hv & Hdk & _ & Hp & Hhd & Ha & Hat); [apply Hi|apply (g_dev s), Hi|done|done| |].
    { rewrite (li_pins s Hi). etrans; [apply size_union_le|]. etrans; [apply Nat.add_le_mono_r, size_union_le|].
      rewrite size_singleton. lia. }
    exists h, (set_bc c s). split; [unfold t_bread, log_transactions, on_bc, zoom; by rewrite Hm|].
    split; [|split; [by apply tsame_bc|done]]. split; [|done]. by apply log_inv_bc.
  - intros s h k [Hi Ho] Ha Hk. cbn in *.
    destruct (brelse_law (bc s) h k) as (c & Hm & Hc & Hv & Hdk & _ & Hp & Hhd & Hat); [apply Hi|done|by rewrite (li_pins s Hi)|].
    exists (set_bc c s). split; [unfold t_brelse, log_transactions, on_bc, zoom; by rewrite Hm|].
    split; [|split; [by apply tsame_bc|done]]. split; [|done]. by apply log_inv_bc.
  - intros s h k d [Hi Ho] Ha. cbn in *.
    destruct (b_set_data_law (bc s) h k d) as (c & Hm & Hc & Hv & Hdk & _ & Hp & Hhd & Hat); [apply Hi|done|].
    exists (set_bc c s). split; [unfold t_set_data, log_transactions, on_bc, zoom; by rewrite Hm|].
    split; [|done]. split; [|done]. by apply log_inv_bc.
  - intros s h [kd kb] (Hi & Ho & Hsz) Ha (Hd & Hb & Hnl) Hcap. cbn in *. subst kd. pose proof (li_n s Hi).
    destruct (log_write_ok s h kb) as (s' & Hm & Hi' & Hl' & Hn' & Ho' & _ & Hv & Hdk & Hhd); [done|done|done|done|lia|done|].
    destruct (log_write_frame h s s' Hm) as (E1 & E2 & E3 & c & c' & Hm' & Hc' & ->).
    destruct (b_set_dirty_law (bc s) h (ldev s, kb)) as (c2 & Hm2 & _ & _ & _ & _ & _ & _ & Hat); [apply Hi|done|].
    rewrite Hm' in Hm2. injection Hm2 as <-. rewrite <- Hc' in Hat.
    exists s'. split; [done|]. rewrite Ho', Hl', Hn'. split.
    { split; [done|]. split; [done|]. destruct (decide ((ldev s, kb) ∈ lblocks s)) as [Hin|Hin].
      - replace ({[(ldev s, kb)]} ∪ lblocks s) with (lblocks s) by (clear -Hin; set_solver). lia.
      - rewrite size_union by (clear -Hin; set_solver). rewrite size_singleton. lia. }
    split; [done|]. split; [done|]. split; [done|]. split; [|split; [lia|split; done]].
    unfold in_log. by rewrite E1, E2, E3.
Qed.
End instance.
