(* ===== verification/Fs.v ===== *)
(** * The file system (src/07_xv6_File_System/PartA/fs.c): blocks, inodes,
    directories and path names, with symbolic links

    The code runs on the operations of log.c and bio.c through [Transactions].  A [struct inode *]
    is an index into the inode cache; [None] is the null pointer.  icache.lock only makes the
    part that holds it one step; a process that would sleep on an inode's lock blocks.  Buffers
    of the caller are lists of bytes: [readi] returns what it copies out.  Devices are a
    parameter, [Devices].

    [namex] calls itself for a symbolic link: it has fuel, one unit for each nested call. *)

From S2P Require Import Prelude Bio Blocks Log Txn.

Definition NINODE : nat := 50.
Definition NDEV : Z := 10.
Definition ROOTDEV : Z := 1.
Definition ROOTINO : Z := 1.
Definition NDIRECT : Z := 12.
Definition NINDIRECT : Z := BSIZE / 4.
Definition MAXFILE : Z := NDIRECT + NINDIRECT.
Definition DIRSIZ : Z := 14.
Definition IPB : Z := BSIZE / 64.
Definition BPB : Z := BSIZE * 8.
Definition IBLOCK (i : Z) (sb : superblock) : Z := u32 (i / IPB + sb_inodestart sb).
Definition BBLOCK (b : Z) (sb : superblock) : Z := u32 (b / BPB + sb_bmapstart sb).
Definition T_DIR : Z := 1.
Definition T_FILE : Z := 2.
Definition T_DEV : Z := 3.
Definition T_SYM : Z := 4.

(** [struct dirent] and [struct inode]. *)
Record dirent := mkDe { de_inum : Z; de_name : list Z }.
Record inode := mkInode {
  i_dev : Z;  (* dev *)
  i_inum : Z;  (* inum *)
  i_ref : Z;  (* ref *)
  i_lock : sleeplock;  (* lock *)
  i_valid : bool;  (* valid *)
  i_type : Z;  (* type *)
  i_major : Z;  (* major *)
  i_minor : Z;  (* minor *)
  i_nlink : Z;  (* nlink *)
  i_size : Z;  (* size *)
  i_addrs : list Z;  (* addrs *)
}.
Definition set_i_dev (x : Z) (r : inode) : inode :=
  mkInode x (i_inum r) (i_ref r) (i_lock r) (i_valid r) (i_type r) (i_major r) (i_minor r) (i_nlink r) (i_size r) (i_addrs r).
Definition set_i_inum (x : Z) (r : inode) : inode :=
  mkInode (i_dev r) x (i_ref r) (i_lock r) (i_valid r) (i_type r) (i_major r) (i_minor r) (i_nlink r) (i_size r) (i_addrs r).
Definition set_i_ref (x : Z) (r : inode) : inode :=
  mkInode (i_dev r) (i_inum r) x (i_lock r) (i_valid r) (i_type r) (i_major r) (i_minor r) (i_nlink r) (i_size r) (i_addrs r).
Definition set_i_lock (x : sleeplock) (r : inode) : inode :=
  mkInode (i_dev r) (i_inum r) (i_ref r) x (i_valid r) (i_type r) (i_major r) (i_minor r) (i_nlink r) (i_size r) (i_addrs r).
Definition set_i_valid (x : bool) (r : inode) : inode :=
  mkInode (i_dev r) (i_inum r) (i_ref r) (i_lock r) x (i_type r) (i_major r) (i_minor r) (i_nlink r) (i_size r) (i_addrs r).
Definition set_i_type (x : Z) (r : inode) : inode :=
  mkInode (i_dev r) (i_inum r) (i_ref r) (i_lock r) (i_valid r) x (i_major r) (i_minor r) (i_nlink r) (i_size r) (i_addrs r).
Definition set_i_major (x : Z) (r : inode) : inode :=
  mkInode (i_dev r) (i_inum r) (i_ref r) (i_lock r) (i_valid r) (i_type r) x (i_minor r) (i_nlink r) (i_size r) (i_addrs r).
Definition set_i_minor (x : Z) (r : inode) : inode :=
  mkInode (i_dev r) (i_inum r) (i_ref r) (i_lock r) (i_valid r) (i_type r) (i_major r) x (i_nlink r) (i_size r) (i_addrs r).
Definition set_i_nlink (x : Z) (r : inode) : inode :=
  mkInode (i_dev r) (i_inum r) (i_ref r) (i_lock r) (i_valid r) (i_type r) (i_major r) (i_minor r) x (i_size r) (i_addrs r).
Definition set_i_size (x : Z) (r : inode) : inode :=
  mkInode (i_dev r) (i_inum r) (i_ref r) (i_lock r) (i_valid r) (i_type r) (i_major r) (i_minor r) (i_nlink r) x (i_addrs r).
Definition set_i_addrs (x : list Z) (r : inode) : inode :=
  mkInode (i_dev r) (i_inum r) (i_ref r) (i_lock r) (i_valid r) (i_type r) (i_major r) (i_minor r) (i_nlink r) (i_size r) x.
Record stat := mkStat { st_type : Z; st_dev : Z; st_ino : Z; st_nlink : Z; st_size : Z }.

(** The variables of fs.c, the current process's directory and pid, the devices, and the log
    and disk below. *)
Record fs (T D : Type) := mkFs {
  icache : list inode;
  sb : superblock;
  is_sym : Z;
  cwd : nat;  (* myproc()->cwd *)
  fs_pid : Z;  (* myproc()->pid *)
  devs : D;
  lg : T;
}.
Arguments mkFs {T D} _ _ _ _ _ _ _.
Arguments icache {T D} _.
Arguments sb {T D} _.
Arguments is_sym {T D} _.
Arguments cwd {T D} _.
Arguments fs_pid {T D} _.
Arguments devs {T D} _.
Arguments lg {T D} _.
Definition set_icache {T D} (x : list inode) (r : fs T D) : fs T D :=
  mkFs x (sb r) (is_sym r) (cwd r) (fs_pid r) (devs r) (lg r).
Definition set_sb {T D} (x : superblock) (r : fs T D) : fs T D :=
  mkFs (icache r) x (is_sym r) (cwd r) (fs_pid r) (devs r) (lg r).
Definition set_is_sym {T D} (x : Z) (r : fs T D) : fs T D :=
  mkFs (icache r) (sb r) x (cwd r) (fs_pid r) (devs r) (lg r).
Definition set_cwd {T D} (x : nat) (r : fs T D) : fs T D :=
  mkFs (icache r) (sb r) (is_sym r) x (fs_pid r) (devs r) (lg r).
Definition set_fs_pid {T D} (x : Z) (r : fs T D) : fs T D :=
  mkFs (icache r) (sb r) (is_sym r) (cwd r) x (devs r) (lg r).
Definition set_devs {T D} (x : D) (r : fs T D) : fs T D :=
  mkFs (icache r) (sb r) (is_sym r) (cwd r) (fs_pid r) x (lg r).
Definition set_lg {T D} (x : T) (r : fs T D) : fs T D :=
  mkFs (icache r) (sb r) (is_sym r) (cwd r) (fs_pid r) (devs r) x.


(** [devsw]: the device with a major number reads and writes for an inode (its index). *)
Class Devices (D : Type) := {
  dev_read : Z → option (nat → Z → M D (Z * list Z));
  dev_write : Z → option (nat → list Z → Z → M D Z);
}.

(** ** C strings (string.c): a string is its bytes; past the end of the list is NUL *)
Definition cstring := list Z.
Fixpoint strncmp (n : nat) (p q : cstring) : Z :=
  match n with
  | O => 0
  | S n' =>
      let c := default 0 (head p) in
      let d := default 0 (head q) in
      if negb (c =? 0) && (c =? d) then strncmp n' (tail p) (tail q) else u8 c - u8 d
  end.
Fixpoint strncpy (n : nat) (t : cstring) : list Z :=
  match n with
  | O => []
  | S n' =>
      let c := default 0 (head t) in
      if c =? 0 then replicate n 0 else c :: strncpy n' (tail t)
  end.
Definition namecmp (s t : cstring) : Z := strncmp (Z.to_nat DIRSIZ) s t.
(** What is a string in an array: the bytes before the first NUL. *)
Fixpoint c_string (s : list Z) : cstring :=
  match s with c :: s => if c =? 0 then [] else c :: c_string s | [] => [] end.

(** ** Bytes of blocks *)
(** [memmove] from and to a block. *)
Definition bytes_of (d : blockdata) (i n : Z) : list Z := d <$> seqZ i n.
Definition put_list (d : blockdata) (i : Z) (l : list Z) : blockdata :=
  put_bytes d i (λ j, default 0 (l !! Z.to_nat j)) (Z.of_nat (length l)).
Definition zero_bytes (d : blockdata) (i n : Z) : blockdata := put_bytes d i (λ _, 0) n.
Definition dirent_of (l : list Z) : dirent :=
  mkDe (default 0 (l !! 0%nat) + 2 ^ 8 * default 0 (l !! 1%nat)) (drop 2 l).
Definition bytes_of_dirent (de : dirent) : list Z := u8 (de_inum de) :: u8 (Z.shiftr (de_inum de) 8) :: de_name de.

(** ** Path elements *)
Fixpoint skip_slashes (p : cstring) : cstring :=
  match p with c :: p' => if c =? 47 then skip_slashes p' else p | [] => [] end.
(** The bytes up to the next slash, and the rest. *)
Fixpoint take_elem (p : cstring) : cstring * cstring :=
  match p with
  | c :: p' => if c =? 47 then ([], p) else let '(e, r) := take_elem p' in (c :: e, r)
  | [] => ([], [])
  end.
(** [skipelem(path, name)]: [None] for the null pointer, otherwise the rest of the path and
    the array [name] afterwards. *)
Definition skipelem (path : cstring) (name : list Z) : option (cstring * list Z) :=
  match skip_slashes path with
  | [] => None
  | s =>
      let '(elem, path) := take_elem s in
      let name :=
        if DIRSIZ <=? Z.of_nat (length elem) then take (Z.to_nat DIRSIZ) elem ++ drop (Z.to_nat DIRSIZ) name
        else elem ++ 0 :: drop (length elem + 1) name in
      Some (skip_slashes path, name)
  end.

Section code.
Context {T D : Type} `{Transactions T} `{Devices D}.
Notation M_fs := (M (fs T D)).

Definition low {A} (m : M T A) : M_fs A := zoom lg set_lg m.
(** A pointer that C dereferences. *)
Definition nonnull (ip : option nat) : M_fs nat :=
  match ip with Some i => mret i | None => fault "null inode pointer" end.
Definition inode_at (ip : nat) : M_fs inode := l ← gets icache; aget l (Z.of_nat ip).
Definition iset (ip : nat) (f : inode → inode) : M_fs () := modify (λ s, set_icache (alter f ip (icache s)) s).

Definition readsb (dev : Z) : M_fs () :=
  bp ← low (t_bread dev 1);
  d ← low (gets (t_data bp));
  modify (set_sb (sb_of d)) ;;
  low (t_brelse bp).

Definition bzero (dev bno : Z) : M_fs () :=
  bp ← low (t_bread dev bno);
  d ← low (gets (t_data bp));
  low (t_set_data bp (zero_bytes d 0 BSIZE)) ;;
  low (t_log_write bp) ;;
  low (t_brelse bp).

(** ** Blocks *)
(** The body of the inner loop of [balloc], for the bit [bi] of the bitmap block in [bp]. *)
Definition try_bit (dev b : Z) (bp : nat) (bi : Z) : M_fs (option Z) :=
  let m := Z.shiftl 1 (bi mod 8) in
  d ← low (gets (t_data bp));
  if Z.land (d (bi / 8)) m =? 0 then
    low (t_set_data bp (<[bi / 8 := u8 (Z.lor (d (bi / 8)) m)]> d)) ;;
    low (t_log_write bp) ;;
    low (t_brelse bp) ;;
    bzero dev (b + bi) ;;
    mret (Some (b + bi))
  else mret None.
(** The loops run while [b < sb.size] and [b + bi < sb.size]. *)
Definition balloc (dev : Z) : M_fs Z :=
  sbk ← gets sb;
  o ← for_find (seqZ 0 ((sb_size sbk + BPB - 1) / BPB)) (λ i,
    let b := i * BPB in
    bp ← low (t_bread dev (BBLOCK b sbk));
    o ← for_find (seqZ 0 (Z.min BPB (sb_size sbk - b))) (try_bit dev b bp);
    match o with
    | Some r => mret (Some r)
    | None => low (t_brelse bp) ;; mret None
    end);
  match o with
  | Some r => mret r
  | None => panic "balloc: out of blocks"
  end.

Definition bfree (dev b : Z) : M_fs () :=
  readsb dev ;;
  sbk ← gets sb;
  bp ← low (t_bread dev (BBLOCK b sbk));
  let bi := b mod BPB in
  let m := Z.shiftl 1 (bi mod 8) in
  d ← low (gets (t_data bp));
  when (Z.land (d (bi / 8)) m =? 0) (panic "freeing free block") ;;
  low (t_set_data bp (<[bi / 8 := u8 (Z.land (d (bi / 8)) (Z.lnot m))]> d)) ;;
  low (t_log_write bp) ;;
  low (t_brelse bp).

(** ** Inodes *)
Definition empty_inode : inode := mkInode 0 0 0 (mkSl false 0) false 0 0 0 0 0 (replicate 13 0).
Definition iinit (dev : Z) : M_fs () :=
  modify (λ s, set_icache ((λ i, set_i_lock (mkSl false 0) i) <$> icache s) s) ;;
  readsb dev.

(** The loop of [iget] from slot [i] on: the cached inode, or the first empty slot. *)
Fixpoint iget_scan (dev inum : Z) (l : list inode) (i : nat) (empty : option nat) : nat + option nat :=
  match l with
  | [] => inr empty
  | ip :: l =>
      if (0 <? i_ref ip) && (i_dev ip =? dev) && (i_inum ip =? inum) then inl i
      else iget_scan dev inum l (i + 1)
             (match empty with
              | None => if i_ref ip =? 0 then Some i else None
              | Some e => Some e
              end)
  end.
Definition iget (dev inum : Z) : M_fs nat :=
  l ← gets icache;
  match iget_scan dev inum l 0 None with
  | inl ip => iset ip (λ r, set_i_ref (i_ref r + 1) r) ;; mret ip
  | inr None => panic "iget: no inodes"
  | inr (Some ip) =>
      iset ip (λ r, set_i_valid false (set_i_ref 1 (set_i_inum inum (set_i_dev dev r)))) ;; mret ip
  end.
Definition idup (ip : nat) : M_fs nat := iset ip (λ r, set_i_ref (i_ref r + 1) r) ;; mret ip.

(** The place of an inode in its block. *)
Definition dip (inum : Z) : Z := 64 * (inum mod IPB).
Definition ialloc (dev type : Z) : M_fs nat :=
  sbk ← gets sb;
  o ← for_find (seqZ 1 (sb_ninodes sbk - 1)) (λ inum,
    bp ← low (t_bread dev (IBLOCK inum sbk));
    d ← low (gets (t_data bp));
    if get16 d (dip inum) =? 0 then
      low (t_set_data bp (put16 (zero_bytes d (dip inum) 64) (dip inum) (u16 type))) ;;
      low (t_log_write bp) ;;
      low (t_brelse bp) ;;
      ip ← iget dev inum;
      mret (Some ip)
    else low (t_brelse bp) ;; mret None);
  match o with
  | Some ip => mret ip
  | None => panic "ialloc: no inodes"
  end.

(** [memmove(dip->addrs, ip->addrs, sizeof(ip->addrs))] *)
Definition put_addrs (d : blockdata) (i : Z) (l : list Z) : blockdata :=
  foldl (λ d k, put32 d (i + 4 * Z.of_nat k) (default 0 (l !! k))) d (seq 0 (length l)).
Definition get_addrs (d : blockdata) (i : Z) : list Z := (λ k, get32 d (i + 4 * k)) <$> seqZ 0 (NDIRECT + 1).
Definition dinode_put (ip : inode) (d : blockdata) : blockdata :=
  let o := dip (i_inum ip) in
  put_addrs (put32 (put16 (put16 (put16 (put16 d o (u16 (i_type ip))) (o + 2) (u16 (i_major ip)))
    (o + 4) (u16 (i_minor ip))) (o + 6) (u16 (i_nlink ip))) (o + 8) (i_size ip)) (o + 12) (i_addrs ip).
Definition dinode_get (d : blockdata) (ip : inode) : inode :=
  let o := dip (i_inum ip) in
  set_i_addrs (get_addrs d (o + 12)) (set_i_size (get32 d (o + 8)) (set_i_nlink (s16 (get16 d (o + 6)))
    (set_i_minor (s16 (get16 d (o + 4))) (set_i_major (s16 (get16 d (o + 2))) (set_i_type (s16 (get16 d o)) ip))))).
Definition iupdate (ip : nat) : M_fs () :=
  sbk ← gets sb;
  r ← inode_at ip;
  bp ← low (t_bread (i_dev r) (IBLOCK (i_inum r) sbk));
  d ← low (gets (t_data bp));
  low (t_set_data bp (dinode_put r d)) ;;
  low (t_log_write bp) ;;
  low (t_brelse bp).

(** [acquiresleep(&ip->lock)] *)
Definition lock_inode (ip : nat) : M_fs () :=
  r ← inode_at ip;
  pid ← gets fs_pid;
  if sl_locked (i_lock r) then block else iset ip (set_i_lock (mkSl true pid)).
Definition unlock_inode (ip : nat) : M_fs () := iset ip (set_i_lock (mkSl false 0)).
Definition ilock (o : option nat) : M_fs () :=
  match o with
  | None => panic "ilock"
  | Some ip =>
      r ← inode_at ip;
      when (i_ref r <? 1) (panic "ilock") ;;
      lock_inode ip ;;
      when (negb (i_valid r)) (
        sbk ← gets sb;
        bp ← low (t_bread (i_dev r) (IBLOCK (i_inum r) sbk));
        d ← low (gets (t_data bp));
        iset ip (dinode_get d) ;;
        low (t_brelse bp) ;;
        iset ip (set_i_valid true) ;;
        r ← inode_at ip;
        when (i_type r =? 0) (panic "ilock: no type"))
  end.
Definition iunlock (o : option nat) : M_fs () :=
  match o with
  | None => panic "iunlock"
  | Some ip =>
      r ← inode_at ip;
      pid ← gets fs_pid;
      when (negb (sl_locked (i_lock r) && (sl_pid (i_lock r) =? pid)) || (i_ref r <? 1)) (panic "iunlock") ;;
      unlock_inode ip
  end.

(** ** Inode content *)
Definition bmap (ip : nat) (bn : Z) : M_fs Z :=
  r ← inode_at ip;
  if bn <? NDIRECT then
    addr ← aget (i_addrs r) bn;
    if addr =? 0 then
      addr ← balloc (i_dev r);
      iset ip (λ r, set_i_addrs (<[Z.to_nat bn := addr]> (i_addrs r)) r) ;;
      mret addr
    else mret addr
  else
    let bn := bn - NDIRECT in
    if bn <? NINDIRECT then
      addr ← aget (i_addrs r) NDIRECT;
      addr ← (if addr =? 0 then
                addr ← balloc (i_dev r);
                iset ip (λ r, set_i_addrs (<[Z.to_nat NDIRECT := addr]> (i_addrs r)) r) ;;
                mret addr
              else mret addr);
      bp ← low (t_bread (i_dev r) addr);
      a ← low (gets (t_data bp));
      addr ← (if get32 a (4 * bn) =? 0 then
                addr ← balloc (i_dev r);
                a ← low (gets (t_data bp));
                low (t_set_data bp (put32 a (4 * bn) addr)) ;;
                low (t_log_write bp) ;;
                mret addr
              else mret (get32 a (4 * bn)));
      low (t_brelse bp) ;;
      mret addr
    else panic "bmap: out of range".

Definition itrunc (ip : nat) : M_fs () :=
  mfor (seqZ 0 NDIRECT) (λ i,
    r ← inode_at ip;
    addr ← aget (i_addrs r) i;
    when (negb (addr =? 0)) (
      bfree (i_dev r) addr ;;
      iset ip (λ r, set_i_addrs (<[Z.to_nat i := 0]> (i_addrs r)) r))) ;;
  r ← inode_at ip;
  addr ← aget (i_addrs r) NDIRECT;
  when (negb (addr =? 0)) (
    bp ← low (t_bread (i_dev r) addr);
    mfor (seqZ 0 NINDIRECT) (λ j,
      a ← low (gets (t_data bp));
      when (negb (get32 a (4 * j) =? 0)) (bfree (i_dev r) (get32 a (4 * j)))) ;;
    low (t_brelse bp) ;;
    bfree (i_dev r) addr ;;
    iset ip (λ r, set_i_addrs (<[Z.to_nat NDIRECT := 0]> (i_addrs r)) r)) ;;
  iset ip (set_i_size 0) ;;
  iupdate ip.

Definition iput (ip : nat) : M_fs () :=
  lock_inode ip ;;
  r ← inode_at ip;
  when (i_valid r && (i_nlink r =? 0)) (
    when (i_ref r =? 1) (
      itrunc ip ;;
      iset ip (set_i_type 0) ;;
      iupdate ip ;;
      iset ip (set_i_valid false))) ;;
  unlock_inode ip ;;
  iset ip (λ r, set_i_ref (i_ref r - 1) r).
Definition iunlockput (ip : nat) : M_fs () := iunlock (Some ip) ;; iput ip.

Definition stati (ip : nat) : M_fs stat :=
  r ← inode_at ip;
  mret (mkStat (i_type r) (i_dev r) (i_inum r) (i_nlink r) (i_size r)).

(** The loops of [readi] and [writei] from offset [off] on, with [n] bytes to go; a round moves
    at least one byte and all but the first and the last move a block. *)
Definition chunks (n : Z) : nat := Z.to_nat (n / BSIZE) + 2.
Fixpoint read_loop (fuel : nat) (ip : nat) (off n : Z) : M_fs (list Z) :=
  if n <=? 0 then mret []
  else match fuel with
  | O => diverge
  | S fuel =>
      r ← inode_at ip;
      addr ← bmap ip (off / BSIZE);
      bp ← low (t_bread (i_dev r) addr);
      let m := Z.min n (BSIZE - off mod BSIZE) in
      d ← low (gets (t_data bp));
      low (t_brelse bp) ;;
      l ← read_loop fuel ip (u32 (off + m)) (n - m);
      mret (bytes_of d (off mod BSIZE) m ++ l)
  end.
(** The result: the return value, and the bytes stored to [dst]. *)
Definition readi (ip : nat) (off n : Z) : M_fs (Z * list Z) :=
  r ← inode_at ip;
  if i_type r =? T_DEV then
    if (i_major r <? 0) || (NDEV <=? i_major r) then mret (-1, [])
    else match dev_read (i_major r) with
         | None => mret (-1, [])
         | Some read => zoom devs set_devs (read ip (s32 n))
         end
  else if (i_size r <? off) || (u32 (off + n) <? off) then mret (-1, [])
  else
    let n := if i_size r <? u32 (off + n) then u32 (i_size r - off) else n in
    l ← read_loop (chunks n) ip off n;
    mret (s32 n, l).

Fixpoint write_loop (fuel : nat) (ip : nat) (src : list Z) (off n : Z) : M_fs Z :=
  if n <=? 0 then mret off
  else match fuel with
  | O => diverge
  | S fuel =>
      r ← inode_at ip;
      addr ← bmap ip (off / BSIZE);
      bp ← low (t_bread (i_dev r) addr);
      let m := Z.min n (BSIZE - off mod BSIZE) in
      d ← low (gets (t_data bp));
      low (t_set_data bp (put_list d (off mod BSIZE) (take (Z.to_nat m) src))) ;;
      low (t_log_write bp) ;;
      low (t_brelse bp) ;;
      write_loop fuel ip (drop (Z.to_nat m) src) (u32 (off + m)) (n - m)
  end.
(** [src] must have [n] bytes. *)
Definition writei (ip : nat) (src : list Z) (off n : Z) : M_fs Z :=
  r ← inode_at ip;
  if i_type r =? T_DEV then
    if (i_major r <? 0) || (NDEV <=? i_major r) then mret (-1)
    else match dev_write (i_major r) with
         | None => mret (-1)
         | Some write => zoom devs set_devs (write ip src (s32 n))
         end
  else if (i_size r <? off) || (u32 (off + n) <? off) then mret (-1)
  else if MAXFILE * BSIZE <? u32 (off + n) then mret (-1)
  else
    off ← write_loop (chunks n) ip src off n;
    r ← inode_at ip;
    when ((0 <? n) && (i_size r <? off)) (
      iset ip (set_i_size off) ;;
      iupdate ip) ;;
    mret (s32 n).

(** ** Directories *)
Definition DIRENT : Z := 16.
(** The offsets of a directory's entries: [off = 0; off < size; off += 16]. *)
Definition entry_offs (size : Z) : list Z := (λ i, i * DIRENT) <$> seqZ 0 ((size + DIRENT - 1) / DIRENT).
Definition read_dirent (dp : nat) (off : Z) (msg : string) : M_fs dirent :=
  '(n, l) ← readi dp off DIRENT;
  when (negb (n =? DIRENT)) (panic msg) ;;
  mret (dirent_of l).
(** The inode, and [*poff]. *)
Definition dirlookup (dp : nat) (name : cstring) : M_fs (option (nat * Z)) :=
  r ← inode_at dp;
  when (negb (i_type r =? T_DIR)) (panic "dirlookup not DIR") ;;
  for_find (entry_offs (i_size r)) (λ off,
    de ← read_dirent dp off "dirlookup read";
    if de_inum de =? 0 then mret None
    else if namecmp name (de_name de) =? 0 then
      ip ← iget (i_dev r) (de_inum de);
      mret (Some (ip, off))
    else mret None).
Definition dirlink (dp : nat) (name : cstring) (inum : Z) : M_fs Z :=
  o ← dirlookup dp name;
  match o with
  | Some (ip, _) => iput ip ;; mret (-1)
  | None =>
      r ← inode_at dp;
      o ← for_find (entry_offs (i_size r)) (λ off,
        de ← read_dirent dp off "dirlink read";
        mret (if de_inum de =? 0 then Some off else None));
      let off := match o with Some off => off | None => Z.of_nat (length (entry_offs (i_size r))) * DIRENT end in
      let de := mkDe (u16 inum) (strncpy (Z.to_nat DIRSIZ) name) in
      n ← writei dp (bytes_of_dirent de) off DIRENT;
      when (negb (n =? DIRENT)) (panic "dirlink") ;;
      mret 0
  end.

(** ** Paths *)
(** The loop of [namex]; [follow] is the nested call for a symbolic link's target. *)
Fixpoint namex_loop (follow : nat → cstring → M_fs (option nat)) (fuel : nat) (ip : option nat)
    (path : cstring) (nameiparent : bool) (name : list Z) : M_fs (option nat * list Z) :=
  match fuel with
  | O => diverge
  | S fuel =>
      match skipelem path name with
      | None =>
          if nameiparent then
            i ← nonnull ip;
            iput i ;;
            mret (None, name)
          else mret (ip, name)
      | Some (path, name) =>
          ilock ip ;;
          i ← nonnull ip;
          r ← inode_at i;
          if negb (i_type r =? T_DIR) then iunlockput i ;; mret (None, name)
          else if nameiparent && bool_decide (path = []) then iunlock ip ;; mret (ip, name)
          else
            o ← dirlookup i name;
            match o with
            | None => iunlockput i ;; mret (None, name)
            | Some (next, _) =>
                iunlock ip ;;
                ilock (Some next) ;;
                rn ← inode_at next;
                if i_type rn =? T_SYM then
                  '(n, buf) ← (if 512 <=? i_size rn then mret (-1, []) else readi next 0 (i_size rn));
                  if (512 <=? i_size rn) || negb (n =? i_size rn) then
                    iunlockput next ;; iput i ;; mret (None, name)
                  else
                    iunlockput next ;;
                    next ← follow i (c_string buf);
                    modify (set_is_sym 1) ;;
                    iput i ;;
                    namex_loop follow fuel next path nameiparent name
                else
                  iunlock (Some next) ;;
                  iput i ;;
                  namex_loop follow fuel (Some next) path nameiparent name
            end
      end
  end.
Fixpoint namex (fuel : nat) (root : option nat) (path : cstring) (nameiparent : bool) (name : list Z) :
    M_fs (option nat * list Z) :=
  match fuel with
  | O => diverge
  | S fuel =>
      modify (set_is_sym 0) ;;
      ip ← (if bool_decide (head path = Some 47) then iget ROOTDEV ROOTINO
            else match root with
                 | Some r => idup r
                 | None => c ← gets cwd; idup c
                 end);
      namex_loop (λ ip buf, '(next, _) ← namex fuel (Some ip) buf false (replicate (Z.to_nat DIRSIZ) 0); mret next)
        (length path + 1) (Some ip) path nameiparent name
  end.
Definition check_sym : M_fs Z := gets is_sym.
(** The stack has room for a few nested calls only; [links] of them are followed. *)
Definition namei (links : nat) (path : cstring) : M_fs (option nat) :=
  '(ip, _) ← namex (links + 1) None path false (replicate (Z.to_nat DIRSIZ) 0);
  mret ip.
Definition nameiparent (links : nat) (path : cstring) (name : list Z) : M_fs (option nat * list Z) :=
  namex (links + 1) None path true name.
End code.

(** * Path elements *)
(** The reference: the non-empty fields between slashes. *)
Fixpoint fields (p : cstring) : list cstring :=
  match p with
  | [] => [[]]
  | c :: p =>
      if c =? 47 then [] :: fields p
      else match fields p with e :: r => (c :: e) :: r | [] => [[c]] end
  end.
Definition elements (p : cstring) : list cstring := filter (λ e, e ≠ []) (fields p).

(** What the loop of [namex] sees: the names that [skipelem] stores, as strings of at most
    [DIRSIZ] bytes, until it returns null; [None] when the fuel is out. *)
Fixpoint walk_names (fuel : nat) (path : cstring) (name : list Z) : option (list cstring) :=
  match fuel with
  | O => None
  | S fuel =>
      match skipelem path name with
      | None => Some []
      | Some (path, name) => cons (c_string (take (Z.to_nat DIRSIZ) name)) <$> walk_names fuel path name
      end
  end.

Lemma fields_nonempty p : fields p ≠ [].
Proof. destruct p as [|c p]; simpl; [done|]. by repeat case_match. Qed.
Lemma elements_skip p : elements (skip_slashes p) = elements p.
Proof.
  induction p as [|c p IH]; [done|]. cbn [skip_slashes]. destruct (c =? 47) eqn:E; [|done].
  rewrite IH. unfold elements. cbn [fields]. rewrite E. by rewrite filter_cons_False by tauto.
Qed.
Lemma skip_head p : match skip_slashes p with [] => True | c :: _ => c ≠ 47 end.
Proof. induction p as [|c p IH]; [done|]. cbn [skip_slashes]. destruct (Z.eqb_spec c 47); done. Qed.
Lemma skip_suffix p : ∃ q, p = q ++ skip_slashes p.
Proof.
  induction p as [|c p [q Hq]]; [by exists []|]. cbn [skip_slashes].
  destruct (c =? 47); [exists (c :: q); by rewrite Hq at 1|by exists []].
Qed.
Lemma take_elem_spec p e r : take_elem p = (e, r) → p = e ++ r ∧ (r = [] ∨ ∃ r', r = 47 :: r') ∧
  fields p = e :: match r with [] => [] | _ :: r => fields r end.
Proof.
  revert e r. induction p as [|c p IH]; intros e r; cbn [take_elem]; [intros [= <- <-]; auto|].
  destruct (Z.eqb_spec c 47) as [->|Hc].
  - intros [= <- <-]. split; [done|]. split; [right; by eexists|done].
  - destruct (take_elem p) as [e' r'] eqn:E. intros [= <- <-]. destruct (IH e' r' eq_refl) as (-> & Hr & Hf).
    split; [done|]. split; [done|]. cbn [fields]. rewrite (proj2 (Z.eqb_neq _ _) Hc), Hf. done.
Qed.
Lemma c_string_id l r : Forall (λ c, c ≠ 0) l → c_string (l ++ 0 :: r) = l.
Proof. induction 1 as [|c l Hc _ IH]; simpl; [done|]. by rewrite (proj2 (Z.eqb_neq _ _) Hc), IH. Qed.
Lemma c_string_all l : Forall (λ c, c ≠ 0) l → c_string l = l.
Proof. induction 1 as [|c l Hc _ IH]; simpl; [done|]. by rewrite (proj2 (Z.eqb_neq _ _) Hc), IH. Qed.

(** One step: the first element, and a rest with the other elements. *)
Lemma skipelem_spec path name : Forall (λ c, c ≠ 0) path → length name = Z.to_nat DIRSIZ →
  match skipelem path name with
  | None => elements path = []
  | Some (path', name') => ∃ e, elements path = e :: elements path' ∧
      c_string (take (Z.to_nat DIRSIZ) name') = take (Z.to_nat DIRSIZ) e ∧ length name' = Z.to_nat DIRSIZ ∧
      Forall (λ c, c ≠ 0) path' ∧ (length path' < length path)%nat
  end.
Proof.
  intros Hp Hn. unfold skipelem. rewrite <- (elements_skip path). pose proof (skip_head path) as Hh.
  destruct (skip_suffix path) as [q Hq]. destruct (skip_slashes path) as [|c s] eqn:Es; [done|].
  destruct (take_elem (c :: s)) as [e r] eqn:Et. destruct (take_elem_spec _ _ _ Et) as (Hce & Hr & Hf).
  assert (e ≠ []) as Hne.
  { intros ->. cbn [take_elem] in Et. rewrite (proj2 (Z.eqb_neq _ _) Hh) in Et. by destruct (take_elem s). }
  assert (Forall (λ c, c ≠ 0) e ∧ Forall (λ c, c ≠ 0) r) as [Hze Hzr].
  { apply Forall_app. rewrite <- Hce. rewrite Hq in Hp. by apply Forall_app in Hp as [_ Hp]. }
  destruct (skip_suffix r) as [q' Hq'].
  exists e. rewrite elements_skip. split; [|split; [|split; [|split]]].
  - unfold elements. rewrite Hf, filter_cons_True by done. f_equal. destruct Hr as [->|[r' ->]]; [done|].
    cbn [fields]. change (47 =? 47) with true. cbv iota. by rewrite filter_cons_False by tauto.
  - destruct (Z.leb_spec DIRSIZ (Z.of_nat (length e))) as [Hl|Hl].
    + rewrite take_app_le by (rewrite length_take; lia). rewrite take_take, Nat.min_id.
      apply c_string_all. by apply Forall_take.
    + rewrite take_ge by (rewrite length_app, length_cons, length_drop; unfold DIRSIZ in *; lia).
      rewrite (take_ge e) by lia. by apply c_string_id.
  - destruct (Z.leb_spec DIRSIZ (Z.of_nat (length e))) as [Hl|Hl];
      rewrite length_app, ?length_cons, ?length_take, length_drop; unfold DIRSIZ in *; lia.
  - rewrite Hq' in Hzr. by apply Forall_app in Hzr as [_ Hzr].
  - rewrite Hq, Hce, !length_app. apply (f_equal length) in Hq'. rewrite length_app in Hq'.
    destruct e; [done|]. simpl. lia.
Qed.

(** The loop of [namex] sees exactly the path's elements, the non-empty strings between slashes, each cut
    off after [DIRSIZ] bytes; it ends within the fuel that [namex] gives it. *)
Theorem path_elements path name : Forall (λ c, c ≠ 0) path → length name = Z.to_nat DIRSIZ →
  walk_names (length path + 1) path name = Some (take (Z.to_nat DIRSIZ) <$> elements path).
Proof.
  intros Hp Hn. remember (length path + 1)%nat as fuel eqn:Ef. assert (length path < fuel)%nat as Hf by lia. clear Ef.
  revert path name Hp Hn Hf. induction fuel as [|fuel IH]; intros path name Hp Hn Hf; [lia|]. cbn [walk_names].
  pose proof (skipelem_spec path name Hp Hn) as Hs. destruct (skipelem path name) as [[path' name']|]; [|by rewrite Hs].
  destruct Hs as (e & He & Hc & Hn' & Hp' & Hl). rewrite IH by (done || lia). by rewrite He, Hc.
Qed.

Lemma path_elements_witness :
  walk_names 10 [47; 47; 97; 47; 98; 98; 47; 99; 47] (replicate 14 0) = Some [[97]; [98; 98]; [99]].
Proof.
  apply (path_elements [47; 47; 97; 47; 98; 98; 47; 99; 47] (replicate 14 0)); [by repeat constructor|done].
Defined.
