(* ===== verification/FileData.v ===== *)
(** * The content of a file: the bitmap, an inode's block pointers, and what changes them

    A file is the list of its bytes, [content].  [file_ok] and [disk_ok] are the invariants of an
    inode's pointers and of the disk; [grows], [wrote] and [written] say what a new block,
    the loop of writei and the whole of writei do to them.  The operations of fs.c are proved to
    do this in FileOps.v. *)

From S2P Require Import Prelude Bio Blocks Log Txn Fs.

(** * The bitmap *)
Definition bit_free (d : blockdata) (b : Z) : bool := negb (Z.testbit (d (b / 8)) (b mod 8)).
Definition set_bit (d : blockdata) (b : Z) : blockdata :=
  <[b / 8 := u8 (Z.lor (d (b / 8)) (Z.shiftl 1 (b mod 8)))]> d.
(** The free blocks among the first [n]. *)
Definition free_list (d : blockdata) (n : Z) : list Z := filter (λ b, bit_free d b = true) (seqZ 0 n).
Definition nfree (d : blockdata) (n : Z) : Z := Z.of_nat (length (free_list d n)).

Lemma set_bit_free d b b' : 0 <= b → 0 <= b' → bit_free (set_bit d b) b' = bit_free d b' && negb (b' =? b).
Proof.
  intros Hb Hb'. unfold bit_free, set_bit. rewrite fn_insert_case. pose proof (Z.mod_pos_bound b' 8 ltac:(lia)).
  destruct (decide (b' / 8 = b / 8)) as [Ed|Ed].
  - unfold u8. rewrite Z.mod_pow2_bits_low by lia.
    rewrite Z.lor_spec, Z.shiftl_1_l, Z.pow2_bits_eqb by (apply Z.mod_pos_bound; lia). rewrite <- Ed.
    pose proof (Z.div_mod b 8 ltac:(lia)). pose proof (Z.div_mod b' 8 ltac:(lia)).
    destruct (Z.eqb_spec (b mod 8) (b' mod 8)); destruct (Z.eqb_spec b' b); subst; try lia;
      by rewrite ?orb_true_r, ?orb_false_r, ?andb_false_r, ?andb_true_r.
  - destruct (Z.eqb_spec b' b) as [->|]; [done|]. by rewrite andb_true_r.
Qed.

Lemma elem_free_list d n b : b ∈ free_list d n ↔ 0 <= b < n ∧ bit_free d b = true.
Proof. unfold free_list. rewrite list_elem_of_filter, elem_of_seqZ. naive_solver lia. Qed.
Lemma nfree_split d n : 0 < nfree d n → ∃ b, 0 <= b < n ∧ bit_free d b = true ∧
  ∀ b', 0 <= b' < b → bit_free d b' = false.
Proof.
  intros Hn. destruct (free_list d n) as [|b l] eqn:E; [unfold nfree in Hn; rewrite E in Hn; done|].
  exists b. assert (b ∈ free_list d n) as Hb by (rewrite E; set_solver). apply elem_free_list in Hb as [Hb Hf].
  split; [done|]. split; [done|]. intros b' Hb'. destruct (bit_free d b') eqn:Ef; [|done].
  exfalso. unfold free_list in E. replace n with (b + (n - b)) in E by lia.
  rewrite seqZ_app, filter_app in E by lia.
  destruct (filter _ (seqZ 0 b)) as [|x l1] eqn:E1.
  - assert (b' ∈ filter (λ b, bit_free d b = true) (seqZ 0 b)) as Hc by (rewrite list_elem_of_filter, elem_of_seqZ; lia || (split; [done|lia])).
    rewrite E1 in Hc. by apply not_elem_of_nil in Hc.
  - assert (x ∈ filter (λ b, bit_free d b = true) (seqZ 0 b)) as Hc by (rewrite E1; set_solver).
    injection E as -> _. apply list_elem_of_filter in Hc as [_ Hc%elem_of_seqZ]. lia.
Qed.
Lemma nfree_set_bit d n b : 0 <= b < n → bit_free d b = true → nfree (set_bit d b) n = nfree d n - 1.
Proof.
  intros Hb Hf. unfold nfree, free_list. replace n with (b + (1 + (n - b - 1))) by lia.
  rewrite !seqZ_app, !filter_app, !length_app by lia.
  assert (∀ m k, 0 <= m → (b < m ∨ m + k <= b) → filter (λ c, bit_free (set_bit d b) c = true) (seqZ m k) = filter (λ c, bit_free d c = true) (seqZ m k)) as Hsame.
  { intros m k Hm Hk. apply filter_ext_in. intros x Hx%elem_of_seqZ. rewrite set_bit_free by lia.
    rewrite (proj2 (Z.eqb_neq x b)) by lia. by rewrite andb_true_r. }
  rewrite (Hsame 0 b), (Hsame (0 + b + 1)) by lia. change (seqZ (0 + b) 1) with [0 + b]. rewrite Z.add_0_l, !filter_cons, !filter_nil.
  rewrite decide_False by (rewrite set_bit_free, Z.eqb_refl, andb_false_r by lia; done).
  rewrite decide_True by done. simpl. lia.
Qed.

(** * An inode's block pointers *)
Definition bmb (sbk : superblock) : Z := BBLOCK 0 sbk.
(** The pointers, in one numbering: the direct ones, the indirect block, then its entries. *)
Definition NPTR : Z := NDIRECT + 1 + NINDIRECT.
Definition ind_of (r : inode) : Z := default 0 (i_addrs r !! Z.to_nat NDIRECT).
Definition ptr (V : blkid → blockdata) (r : inode) (j : Z) : Z :=
  if j <=? NDIRECT then default 0 (i_addrs r !! Z.to_nat j)
  else if ind_of r =? 0 then 0 else get32 (V (i_dev r, ind_of r)) (4 * (j - (NDIRECT + 1))).
(** The pointer for block [i] of the file. *)
Definition pidx (i : Z) : Z := if i <? NDIRECT then i else i + 1.
Definition blk (V : blkid → blockdata) (r : inode) (i : Z) : Z := ptr V r (pidx i).
(** The byte at offset [o]; a block that is not there reads as zeros. *)
Definition fbyte (V : blkid → blockdata) (r : inode) (o : Z) : Z :=
  let b := blk V r (o / BSIZE) in if b =? 0 then 0 else V (i_dev r, b) (o mod BSIZE).
Definition fbytes (V : blkid → blockdata) (r : inode) (o n : Z) : list Z := fbyte V r <$> seqZ o n.

(** Every pointer is to an allocated data block, and no two are the same. *)
Record file_ok (sbk : superblock) (ds : Z) (V : blkid → blockdata) (r : inode) : Prop := {
  fo_len : length (i_addrs r) = 13%nat;
  fo_ptr j : 0 <= j < NPTR → ptr V r j ≠ 0 →
    ds <= ptr V r j < sb_size sbk ∧ bit_free (V (i_dev r, bmb sbk)) (ptr V r j) = false;
  fo_inj j j' : 0 <= j < NPTR → 0 <= j' < NPTR → ptr V r j ≠ 0 → ptr V r j = ptr V r j' → j = j';
}.
(** [ds] is where the data blocks start: what is before is marked allocated. *)
Record disk_ok (sbk : superblock) (ds dev ib : Z) (home : blkid → Prop) : Prop := {
  do_size : 0 < sb_size sbk <= FSSIZE;
  do_ds : 0 < ds;
  do_home b : ds <= b < sb_size sbk → home (dev, b);
  do_bm : home (dev, bmb sbk) ∧ bmb sbk < ds;
  do_ib : home (dev, ib) ∧ ib < ds ∧ ib ≠ bmb sbk;
}.
Definition map_ok (sbk : superblock) (ds dev : Z) (V : blkid → blockdata) : Prop :=
  ∀ b, 0 <= b < sb_size sbk → bit_free (V (dev, bmb sbk)) b = true → ds <= b.

Lemma pidx_range i : 0 <= i < MAXFILE → 0 <= pidx i < NPTR ∧ pidx i ≠ NDIRECT.
Proof. unfold pidx, MAXFILE, NPTR, NINDIRECT, NDIRECT, BSIZE. change (512 / 4) with 128. zcase; lia. Qed.
Lemma pidx_inj i i' : pidx i = pidx i' → i = i'.
Proof. unfold pidx. repeat zcase; lia. Qed.
Lemma ptr_direct V V' r j : j <= NDIRECT → ptr V r j = ptr V' r j.
Proof. intros Hj. unfold ptr. by rewrite (proj2 (Z.leb_le _ _) Hj). Qed.
Lemma ptr_ind V r : ptr V r NDIRECT = ind_of r.
Proof. done. Qed.

(** ** One more pointer: pointer [j], null before, now is the free block [a] *)
Section grow.
Context (sbk : superblock) (ds : Z) (V V' : blkid → blockdata) (r r' : inode) (j a : Z).
Context (Hok : file_ok sbk ds V r) (Hr : r' = set_i_addrs (i_addrs r') r) (Hlen : length (i_addrs r') = 13%nat)
  (Hj : 0 <= j < NPTR) (Hnull : ptr V r j = 0) (Ha : 0 < ds <= a) (Ha2 : a < sb_size sbk) (Hbm : bmb sbk < ds)
  (Hfree : bit_free (V (i_dev r, bmb sbk)) a = true)
  (Hmap : V' (i_dev r, bmb sbk) = set_bit (V (i_dev r, bmb sbk)) a)
  (Hnew : ∀ o, 0 <= o < BSIZE → V' (i_dev r, a) o = 0)
  (Hptr : ∀ j', 0 <= j' < NPTR → ptr V' r' j' = if decide (j' = j) then a else ptr V r j')
  (Hsame : ∀ k, k ≠ (i_dev r, bmb sbk) → k ≠ (i_dev r, a) → (ind_of r = 0 ∨ k ≠ (i_dev r, ind_of r)) → V' k = V k).

Lemma grow_ptr_ne j' : 0 <= j' < NPTR → ptr V r j' ≠ a.
Proof.
  intros Hj' E. destruct (fo_ptr sbk ds V r Hok j' Hj') as [_ Hb]; [lia|]. rewrite E in Hb. by rewrite Hfree in Hb.
Qed.
Lemma grow_dev : i_dev r' = i_dev r.
Proof. by rewrite Hr. Qed.
Lemma grow_file_ok : file_ok sbk ds V' r'.
Proof.
  split; [done| |].
  - intros j' Hj'. rewrite Hptr, grow_dev, Hmap by done. case_decide as Ed.
    + intros _. split; [lia|]. rewrite set_bit_free by lia. rewrite Z.eqb_refl. by rewrite andb_false_r.
    + intros Hp. destruct (fo_ptr sbk ds V r Hok j' Hj' Hp) as [H1 H2]. split; [done|]. rewrite set_bit_free by lia. by rewrite H2.
  - intros j1 j2 H1 H2. rewrite !Hptr by done. pose proof (grow_ptr_ne j1 H1). pose proof (grow_ptr_ne j2 H2).
    repeat case_decide; subst; intros; first [done|congruence|by apply (fo_inj sbk ds V r Hok)].
Qed.
Lemma grow_fbyte o : 0 <= o < MAXFILE * BSIZE → fbyte V' r' o = fbyte V r o.
Proof.
  intros Ho. assert (0 <= o / BSIZE < MAXFILE) as Hi.
  { unfold MAXFILE, NDIRECT, NINDIRECT, BSIZE in *. change (512 / 4) with 128 in *. split; [apply Z.div_pos; lia|apply Z.div_lt_upper_bound; lia]. }
  destruct (pidx_range _ Hi) as [Hp Hnd]. unfold fbyte, blk. rewrite grow_dev, Hptr by done.
  assert (0 <= o mod BSIZE < BSIZE) as Hm by (apply Z.mod_pos_bound; done).
  case_decide as Ed.
  - rewrite Ed, Hnull. rewrite (proj2 (Z.eqb_neq a 0)) by lia. by apply Hnew.
  - destruct (Z.eqb_spec (ptr V r (pidx (o / BSIZE))) 0) as [|Hz]; [done|].
    destruct (fo_ptr sbk ds V r Hok _ Hp Hz) as [Hr1 _]. rewrite Hsame; [done|..].
    + intros [= E]. lia.
    + intros [= E]. by apply (grow_ptr_ne _ Hp).
    + destruct (decide (ind_of r = 0)) as [|Hi0]; [by left|right]. intros [= E]. apply Hnd.
      by apply (fo_inj sbk ds V r Hok).
Qed.
End grow.

(** ** New content for a block of the file *)
Section set_block.
Context (sbk : superblock) (ds : Z) (V : blkid → blockdata) (r : inode) (i : Z) (d : blockdata).
Context (Hok : file_ok sbk ds V r) (Hi : 0 <= i < MAXFILE) (Hb : blk V r i ≠ 0) (Hbm : bmb sbk < ds).
Let V' : blkid → blockdata := <[(i_dev r, blk V r i) := d]> V.

Lemma set_block_ptr j : 0 <= j < NPTR → ptr V' r j = ptr V r j.
Proof.
  intros Hj. unfold ptr. destruct (Z.leb_spec j NDIRECT); [done|]. destruct (Z.eqb_spec (ind_of r) 0) as [|Hz]; [done|].
  unfold V'. rewrite fn_lookup_insert_ne; [done|]. intros [= E]. destruct (pidx_range i Hi) as [Hp Hne]. apply Hne.
  by apply (fo_inj sbk ds V r Hok).
Qed.
Lemma set_block_bits : V' (i_dev r, bmb sbk) = V (i_dev r, bmb sbk).
Proof.
  unfold V'. apply fn_lookup_insert_ne. intros [= E]. destruct (pidx_range i Hi) as [Hp Hne].
  destruct (fo_ptr sbk ds V r Hok _ Hp Hb) as [H1 _]. unfold blk in E. lia.
Qed.
Lemma set_block_file_ok : file_ok sbk ds V' r.
Proof.
  split; [apply Hok| |].
  - intros j Hj. rewrite set_block_ptr, set_block_bits by done. by apply (fo_ptr sbk ds V r Hok).
  - intros j j' Hj Hj'. rewrite !set_block_ptr by done. by apply (fo_inj sbk ds V r Hok).
Qed.
Lemma set_block_fbyte o : 0 <= o < MAXFILE * BSIZE →
  fbyte V' r o = if decide (o / BSIZE = i) then d (o mod BSIZE) else fbyte V r o.
Proof.
  intros Ho. assert (0 <= o / BSIZE < MAXFILE) as Hi'.
  { unfold MAXFILE, NDIRECT, NINDIRECT, BSIZE in *. change (512 / 4) with 128 in *. split; [apply Z.div_pos; lia|apply Z.div_lt_upper_bound; lia]. }
  destruct (pidx_range _ Hi) as [Hp _]. destruct (pidx_range _ Hi') as [Hp' _].
  unfold fbyte. replace (blk V' r (o / BSIZE)) with (blk V r (o / BSIZE)) by (symmetry; by apply set_block_ptr).
  case_decide as E.
  - rewrite E, (proj2 (Z.eqb_neq _ _) Hb). unfold V'. by rewrite fn_lookup_insert.
  - destruct (Z.eqb_spec (blk V r (o / BSIZE)) 0); [done|]. unfold V'. rewrite fn_lookup_insert_ne; [done|].
    intros [= E']. apply E. symmetry. apply pidx_inj. by apply (fo_inj sbk ds V r Hok).
Qed.
End set_block.

(** ** What growing and writing leave alone *)
Record evolves (sbk : superblock) (V : blkid → blockdata) (r : inode) (V' : blkid → blockdata) (r' : inode) : Prop := {
  ev_fields : r' = set_i_addrs (i_addrs r') r;
  ev_ptr j : 0 <= j < NPTR → ptr V' r' j = ptr V r j ∨
    ptr V r j = 0 ∧ bit_free (V (i_dev r, bmb sbk)) (ptr V' r' j) = true;
  ev_free b : 0 <= b → bit_free (V' (i_dev r, bmb sbk)) b = true → bit_free (V (i_dev r, bmb sbk)) b = true;
  ev_frame k : k ≠ (i_dev r, bmb sbk) → (∀ j, 0 <= j < NPTR → ptr V' r' j ≠ 0 → k ≠ (i_dev r, ptr V' r' j)) → V' k = V k;
}.
Lemma evolves_refl sbk V r : evolves sbk V r V r.
Proof. split; auto. by destruct r. Qed.
Lemma evolves_trans sbk ds V1 r1 V2 r2 V3 r3 : 0 < ds → file_ok sbk ds V3 r3 →
  evolves sbk V1 r1 V2 r2 → evolves sbk V2 r2 V3 r3 → evolves sbk V1 r1 V3 r3.
Proof.
  intros Hds Hok H12 H23. assert (i_dev r2 = i_dev r1) as Ed by (by rewrite (ev_fields _ _ _ _ _ H12)).
  assert (i_dev r3 = i_dev r1) as Ed3 by (by rewrite (ev_fields _ _ _ _ _ H23)).
  destruct (H23) as [F23 P23 B23 K23]. destruct H12 as [F12 P12 B12 K12]. rewrite Ed in *. split.
  - transitivity (set_i_addrs (i_addrs r3) r2); [done|]. by rewrite F12.
  - intros j Hj. destruct (P23 j Hj) as [E|[E Hf]]; [rewrite E; by apply P12|].
    destruct (decide (ptr V3 r3 j = 0)) as [Ez|Hz].
    { left. rewrite Ez. destruct (P12 j Hj) as [|[]]; congruence. }
    right. destruct (P12 j Hj) as [E'|[E' _]].
    + split; [congruence|]. apply B12; [|done]. destruct (fo_ptr sbk ds V3 r3 Hok j Hj Hz). lia.
    + split; [done|]. apply B12; [|done]. destruct (fo_ptr sbk ds V3 r3 Hok j Hj Hz). lia.
  - auto.
  - intros k Hk Hn. rewrite K23 by done. apply K12; [done|]. intros j Hj Hz. destruct (P23 j Hj) as [E|[E _]]; [|congruence].
    rewrite <- E in *. by apply Hn.
Qed.

Section grow.
Context (sbk : superblock) (ds : Z) (V V' : blkid → blockdata) (r r' : inode) (j a : Z).
Lemma grow_evolves : file_ok sbk ds V r → r' = set_i_addrs (i_addrs r') r → 0 <= j < NPTR → ptr V r j = 0 → 0 < ds <= a →
  bit_free (V (i_dev r, bmb sbk)) a = true → V' (i_dev r, bmb sbk) = set_bit (V (i_dev r, bmb sbk)) a →
  (∀ j', 0 <= j' < NPTR → ptr V' r' j' = if decide (j' = j) then a else ptr V r j') →
  (∀ k, k ≠ (i_dev r, bmb sbk) → k ≠ (i_dev r, a) → (ind_of r = 0 ∨ k ≠ (i_dev r, ind_of r)) → V' k = V k) →
  evolves sbk V r V' r'.
Proof.
  intros Hok Hr Hj Hnull Ha Hfree Hmap Hptr Hsame. split; [done|..].
  - intros j' Hj'. rewrite Hptr by done. case_decide; subst; [right|left]; done.
  - intros b Hb. rewrite Hmap, set_bit_free by lia. intros [? _]%andb_true_iff. done.
  - intros k Hk Hn. apply Hsame; [done|..].
    + specialize (Hn j Hj). rewrite Hptr, decide_True in Hn by done. apply Hn. lia.
    + assert (0 <= NDIRECT < NPTR) as Hnd by (unfold NPTR, NDIRECT, NINDIRECT, BSIZE; change (512 / 4) with 128; lia).
      specialize (Hn NDIRECT Hnd). rewrite Hptr in Hn by done. case_decide; [left; by subst|].
      destruct (decide (ind_of r = 0)); [by left|right]. by apply Hn.
Qed.
End grow.
Lemma set_block_evolves sbk ds V r i d : file_ok sbk ds V r → 0 <= i < MAXFILE → blk V r i ≠ 0 → bmb sbk < ds →
  evolves sbk V r (<[(i_dev r, blk V r i) := d]> V) r.
Proof.
  intros Hok Hi Hb Hbm. destruct (pidx_range _ Hi) as [Hp _]. split.
  - by destruct r.
  - intros j Hj. left. by apply (set_block_ptr sbk ds).
  - intros b Hb0. by rewrite (set_block_bits sbk ds).
  - intros k Hk Hn. apply fn_lookup_insert_ne. intros E. apply (Hn (pidx i) Hp).
    + by rewrite (set_block_ptr sbk ds).
    + rewrite (set_block_ptr sbk ds) by done. done.
Qed.


(** * The layer below, in one transaction on one device; [ib] is the block of the inode *)
Section layer.
Context {T : Type} `{TransactionLaws T} {sbk : superblock} {ds dev ib : Z}.

(** ** The layer below
    What a step did to it: the blocks, the logged blocks, the buffers held. *)
Record trans (l l' : T) (V' : blkid → blockdata) (L' : gset blkid) (H' : gset blkid) : Prop := {
  tr_inv : tinv l';
  tr_vw : tvw l' = V';
  tr_logged : tlogged l' = L';
  tr_held : theld l' = H';
  tr_home : thome l' = thome l;
  tr_cap : tcap l' = tcap l;
}.
(** The same, with the buffers of [l] still held and no others. *)
Definition after (l l' : T) V' L' : Prop := trans l l' V' L' (theld l) ∧ ∀ h k, tat l h k → tat l' h k.
(** A block that may be released. *)
Definition clean (l : T) (k : blkid) : Prop := k ∈ tlogged l ∨ tvw l k = tdsk l k.
Lemma after_trans l1 l2 l3 V2 L2 V3 L3 : after l1 l2 V2 L2 → after l2 l3 V3 L3 → after l1 l3 V3 L3.
Proof. intros [[] A1] [[] A2]. split; [split; congruence|auto]. Qed.
Lemma after_refl l : tinv l → after l l (tvw l) (tlogged l).
Proof. by split. Qed.
Definition fixed : gset blkid := {[ (dev, bmb sbk) ]} ∪ {[ (dev, ib) ]}.
Record ready (l : T) : Prop := {
  rd_inv : tinv l;
  rd_disk : disk_ok sbk ds dev ib (thome l);
  rd_map : map_ok sbk ds dev (tvw l);
}.
(** Room for [n] more blocks, in the log and, with two buffers to spare, in the cache. *)
Definition room (l : T) (n : Z) : Prop := Z.of_nat (size (tlogged l ∪ fixed)) + n <= Z.min (tcap l) (Z.of_nat NBUF - 2).
Lemma room_weaken l n n' : n' <= n → room l n → room l n'.
Proof. unfold room. lia. Qed.
Lemma room_same l l' n : tcap l' = tcap l → tlogged l' ⊆ tlogged l ∪ fixed → room l n → room l' n.
Proof.
  unfold room. intros -> Hs Hr. assert (size (tlogged l' ∪ fixed) ≤ size (tlogged l ∪ fixed))%nat; [|lia].
  apply subseteq_size. set_solver.
Qed.
Lemma room_one l l' n k : tcap l' = tcap l → tlogged l' ⊆ {[k]} ∪ (tlogged l ∪ fixed) → room l (n + 1) → room l' n.
Proof.
  unfold room. intros -> Hs Hr. assert (size (tlogged l' ∪ fixed) ≤ size ({[k]} ∪ (tlogged l ∪ fixed)))%nat.
  { apply subseteq_size. set_solver. }
  pose proof (size_union_le {[k]} (tlogged l ∪ fixed)) as Hu. rewrite size_singleton in Hu. lia.
Qed.
Lemma room_two l l' n k k' : tcap l' = tcap l → tlogged l' ⊆ {[k]} ∪ ({[k']} ∪ (tlogged l ∪ fixed)) → room l (n + 2) → room l' n.
Proof.
  unfold room. intros -> Hs Hr. assert (size (tlogged l' ∪ fixed) ≤ size ({[k]} ∪ ({[k']} ∪ (tlogged l ∪ fixed))))%nat.
  { apply subseteq_size. set_solver. }
  pose proof (size_union_le {[k]} ({[k']} ∪ (tlogged l ∪ fixed))) as Hu. pose proof (size_union_le {[k']} (tlogged l ∪ fixed)) as Hu'.
  rewrite size_singleton in Hu, Hu'. lia.
Qed.
Lemma room_logged l n : room l n → Z.of_nat (size (tlogged l)) + n <= Z.min (tcap l) (Z.of_nat NBUF - 2).
Proof.
  unfold room. assert (size (tlogged l) ≤ size (tlogged l ∪ fixed))%nat; [|lia]. apply subseteq_size. set_solver.
Qed.
Definition new_block (V : blkid → blockdata) (a : Z) : blkid → blockdata :=
  <[(dev, a) := zero_bytes (V (dev, a)) 0 BSIZE]> (<[(dev, bmb sbk) := set_bit (V (dev, bmb sbk)) a]> V).
(** ** Pointers: what [bmap] keeps *)
Definition nf (l : T) : Z := nfree (tvw l (dev, bmb sbk)) (sb_size sbk).
Record finv (l : T) (r : inode) : Prop := {
  fi_ready : ready l;
  fi_file : file_ok sbk ds (tvw l) r;
  fi_dev : i_dev r = dev;
  fi_held : theld l = ∅;
}.
(** The file keeps its content while up to [c] blocks are allocated for it. *)
Record grows (c : Z) (l : T) (r : inode) (l' : T) (r' : inode) : Prop := {
  gr_inv : finv l' r';
  gr_ev : evolves sbk (tvw l) r (tvw l') r';
  gr_byte o : 0 <= o < MAXFILE * BSIZE → fbyte (tvw l') r' o = fbyte (tvw l) r o;
  gr_free : nf l - c <= nf l';
  gr_room n : room l (n + c) → room l' n;
  gr_home : thome l' = thome l;
  gr_cap : tcap l' = tcap l;
}.
Lemma grows_trans c1 c2 l1 r1 l2 r2 l3 r3 : grows c1 l1 r1 l2 r2 → grows c2 l2 r2 l3 r3 → grows (c1 + c2) l1 r1 l3 r3.
Proof.
  intros [] []. split; try done; try congruence; try lia.
  - apply (evolves_trans sbk ds _ _ (tvw l2) r2); try done; [|apply gr_inv1]. apply gr_inv0.
  - intros o Ho. rewrite gr_byte1, gr_byte0 by done. done.
  - intros n Hn. apply gr_room1, gr_room0. eapply room_weaken; [|done]. lia.
Qed.
Lemma grows_weaken c c' l r l' r' : c <= c' → grows c l r l' r' → grows c' l r l' r'.
Proof. intros Hc []. split; try done; [lia|]. intros n Hn. apply gr_room0. eapply room_weaken; [|done]. lia. Qed.
Lemma finv_after l r l' L : finv l r → after l l' (tvw l) L → finv l' r.
Proof.
  intros [[] ] [[] _]. split; [split| | |]; try congruence. by rewrite tr_vw0.
Qed.
Lemma finv_bmb l r : finv l r → bmb sbk < ds ∧ 0 < ds.
Proof. intros []. split; apply (rd_disk _ fi_ready0). Qed.
Lemma finv_ptr l r j : finv l r → 0 <= j < NPTR → ptr (tvw l) r j ≠ 0 →
  ds <= ptr (tvw l) r j < sb_size sbk ∧ thome l (dev, ptr (tvw l) r j) ∧ bit_free (tvw l (dev, bmb sbk)) (ptr (tvw l) r j) = false.
Proof.
  intros [] Hj Hz. destruct (fo_ptr _ _ _ _ fi_file0 j Hj Hz) as [Hr Hb]. rewrite fi_dev0 in Hb.
  split; [done|]. split; [|done]. by apply (do_home _ _ _ _ _ (rd_disk _ fi_ready0)).
Qed.
Lemma finv_room l r n : finv l r → room l n → 0 <= n → (size (tlogged l) + size (theld l) < NBUF)%nat.
Proof. intros [] Hr Hn. apply room_logged in Hr. rewrite fi_held0, size_empty. unfold NBUF in *. lia. Qed.
(** One pointer more. *)
Lemma grows_intro j a c l r l' r' : finv l r → 0 <= j < NPTR → ptr (tvw l) r j = 0 → ds <= a < sb_size sbk →
  bit_free (tvw l (dev, bmb sbk)) a = true → 1 <= c →
  tinv l' → theld l' = ∅ → thome l' = thome l → tcap l' = tcap l → r' = set_i_addrs (i_addrs r') r → length (i_addrs r') = 13%nat →
  tvw l' (dev, bmb sbk) = set_bit (tvw l (dev, bmb sbk)) a →
  (∀ o, 0 <= o < BSIZE → tvw l' (dev, a) o = 0) →
  (∀ j', 0 <= j' < NPTR → ptr (tvw l') r' j' = if decide (j' = j) then a else ptr (tvw l) r j') →
  (∀ k, k ≠ (dev, bmb sbk) → k ≠ (dev, a) → (ind_of r = 0 ∨ k ≠ (dev, ind_of r)) → tvw l' k = tvw l k) →
  (∀ n, room l (n + c) → room l' n) →
  grows c l r l' r'.
Proof.
  intros Hf Hj Hnull Ha Hfree Hc Hi Hh Hhome Hcap Hr Hlen Hmap Hnew Hptr Hsame Hroom.
  destruct (finv_bmb l r Hf) as [Hb Hds]. pose proof Hf as Hf'. destruct Hf' as [[? Hd Hm] Hfile Hdev Hheld].
  assert (0 < ds <= a) as Ha' by lia. pose proof (proj2 Ha) as Ha2. rewrite <- Hdev in Hfree, Hmap, Hnew, Hsame.
  split; try done.
  - split; [split|..]; try done.
    + by rewrite Hhome.
    + intros b Hb0. rewrite <- Hdev, Hmap, set_bit_free by lia. intros [Hbf _]%andb_true_iff. rewrite Hdev in Hbf. by apply Hm.
    + by apply (grow_file_ok sbk ds (tvw l) (tvw l') r r' j a).
    + by rewrite Hr.
  - by apply (grow_evolves sbk ds _ _ _ _ j a).
  - intros o Ho. by apply (grow_fbyte sbk ds (tvw l) (tvw l') r r' j a).
  - unfold nf. rewrite <- Hdev, Hmap, nfree_set_bit by (done || lia). lia.
Qed.
Lemma nptr : NPTR = 141 ∧ NDIRECT = 12 ∧ MAXFILE = 140 ∧ NINDIRECT = 128.
Proof. done. Qed.
Lemma zero_bytes_at d o : 0 <= o < BSIZE → zero_bytes d 0 BSIZE o = 0.
Proof. intros Ho. unfold zero_bytes, put_bytes. repeat zcase; lia || done. Qed.
Lemma zero_get32 d j : 0 <= j < NINDIRECT → get32 (zero_bytes d 0 BSIZE) (4 * j) = 0.
Proof.
  intros Hj. destruct nptr as (_ & _ & _ & En). rewrite En in Hj. unfold get32. rewrite !zero_bytes_at by (unfold BSIZE; lia). done.
Qed.
Lemma new_block_new V a : new_block V a (dev, a) = zero_bytes (V (dev, a)) 0 BSIZE.
Proof. unfold new_block. by rewrite fn_lookup_insert. Qed.
Lemma new_block_map V a : a ≠ bmb sbk → new_block V a (dev, bmb sbk) = set_bit (V (dev, bmb sbk)) a.
Proof. intros Ha. unfold new_block. rewrite fn_lookup_insert_ne, fn_lookup_insert by congruence. done. Qed.
Lemma new_block_ne V a k : k ≠ (dev, a) → k ≠ (dev, bmb sbk) → new_block V a k = V k.
Proof. intros. unfold new_block. by rewrite !fn_lookup_insert_ne by congruence. Qed.
(** A new block for a pointer in the inode. *)
Lemma grows_addr j a l r l' : finv l r → 0 <= j <= NDIRECT → ptr (tvw l) r j = 0 → ds <= a < sb_size sbk →
  bit_free (tvw l (dev, bmb sbk)) a = true →
  after l l' (new_block (tvw l) a) ({[(dev, a)]} ∪ ({[(dev, bmb sbk)]} ∪ tlogged l)) →
  let r' := set_i_addrs (<[Z.to_nat j := a]> (i_addrs r)) r in
  grows 1 l r l' r' ∧ ptr (tvw l') r' j = a ∧ (dev, a) ∈ tlogged l'.
Proof.
  intros Hf Hj Hnull Ha Hfree [[] _] r'. destruct (finv_bmb l r Hf) as [Hb Hds]. destruct nptr as (En & Ed & _ & Ei).
  pose proof (fo_len _ _ _ _ (fi_file _ _ Hf)) as Hlen.
  assert (∀ j', 0 <= j' < NPTR → ptr (tvw l') r' j' = if decide (j' = j) then a else ptr (tvw l) r j') as Hptr.
  { intros j' Hj'. destruct (Z.leb_spec j' NDIRECT) as [Hle|Hgt].
    - unfold ptr. rewrite (proj2 (Z.leb_le _ _) Hle). cbn. case_decide as E.
      + subst. rewrite list_lookup_insert_eq by lia. done.
      + rewrite list_lookup_insert_ne by lia. done.
    - rewrite decide_False by lia. unfold ptr. rewrite (proj2 (Z.leb_gt _ _) Hgt).
      destruct (decide (j = NDIRECT)) as [->|Hne].
      + unfold ptr in Hnull. cbn in Hnull. replace (ind_of r) with 0 by (symmetry; exact Hnull).
        unfold ind_of. cbn. rewrite list_lookup_insert_eq by lia. cbn. rewrite (proj2 (Z.eqb_neq a 0)) by lia.
        rewrite tr_vw0, (fi_dev _ _ Hf), new_block_new. apply zero_get32. lia.
      + assert (ind_of r' = ind_of r) as -> by (unfold ind_of; cbn; rewrite list_lookup_insert_ne by lia; done).
        destruct (Z.eqb_spec (ind_of r) 0) as [|Hz]; [done|]. cbn. rewrite tr_vw0, (fi_dev _ _ Hf).
        destruct (finv_ptr l r NDIRECT Hf) as (Hr & _ & Hnf); [lia|done|]. rewrite ptr_ind in *.
        rewrite new_block_ne; [done|..]; intros [= E]; [|lia]. rewrite E in Hnf. congruence. }
  split; [|split; [by rewrite Hptr, decide_True by lia|rewrite tr_logged0; set_solver]].
  apply (grows_intro j a); try done; try lia.
  - rewrite tr_held0. apply Hf.
  - cbn. by rewrite length_insert.
  - rewrite tr_vw0. apply new_block_map. lia.
  - intros o Ho. rewrite tr_vw0, new_block_new. by apply zero_bytes_at.
  - intros k Hk1 Hk2 _. rewrite tr_vw0. by apply new_block_ne.
  - intros n. apply (room_one _ _ _ (dev, a)); [done|]. rewrite tr_logged0. unfold fixed. set_solver.
Qed.
(** A new block for an entry of the indirect block. *)
Lemma grows_entry i a l r l' : finv l r → 0 <= i < NINDIRECT → ind_of r ≠ 0 → get32 (tvw l (dev, ind_of r)) (4 * i) = 0 →
  ds <= a < sb_size sbk → bit_free (tvw l (dev, bmb sbk)) a = true →
  after l l' (<[(dev, ind_of r) := put32 (tvw l (dev, ind_of r)) (4 * i) a]> (new_block (tvw l) a))
    ({[(dev, ind_of r)]} ∪ ({[(dev, a)]} ∪ ({[(dev, bmb sbk)]} ∪ tlogged l))) →
  grows 2 l r l' r ∧ ptr (tvw l') r (NDIRECT + 1 + i) = a ∧ (dev, a) ∈ tlogged l' ∧
  ((dev, ind_of r) ∈ tlogged l → grows 1 l r l' r).
Proof.
  intros Hf Hi Hz Hnull Ha Hfree [[] _]. destruct (finv_bmb l r Hf) as [Hb Hds]. destruct nptr as (En & Ed & _ & Ei).
  destruct (finv_ptr l r NDIRECT Hf) as (Hr & _ & Hnf); [lia|done|]. rewrite ptr_ind in *.
  assert (a ≠ ind_of r) as Hai by (intros ->; congruence). assert (0 <= a < 2 ^ 32) as Ha32.
  { pose proof (do_size _ _ _ _ _ (rd_disk _ (fi_ready _ _ Hf))). unfold FSSIZE in *. lia. }
  assert (∀ j', 0 <= j' < NPTR → ptr (tvw l') r j' = if decide (j' = NDIRECT + 1 + i) then a else ptr (tvw l) r j') as Hptr.
  { intros j' Hj'. unfold ptr. destruct (Z.leb_spec j' NDIRECT); [by rewrite decide_False by lia|].
    rewrite (proj2 (Z.eqb_neq _ _) Hz), tr_vw0, (fi_dev _ _ Hf), fn_lookup_insert. case_decide as E.
    - rewrite E. replace (NDIRECT + 1 + i - (NDIRECT + 1)) with i by lia. by apply get32_put32.
    - apply get32_put32_ne. lia. }
  assert (∀ c, 1 <= c → (∀ n, room l (n + c) → room l' n) → grows c l r l' r) as Hg.
  { intros c Hc Hroom. apply (grows_intro (NDIRECT + 1 + i) a); try done; try lia.
    - unfold ptr. rewrite (proj2 (Z.leb_gt _ _)) by lia. rewrite (proj2 (Z.eqb_neq _ _) Hz), (fi_dev _ _ Hf).
      by replace (NDIRECT + 1 + i - (NDIRECT + 1)) with i by lia.
    - rewrite tr_held0. apply Hf.
    - by destruct r.
    - apply (fi_file _ _ Hf).
    - rewrite tr_vw0, fn_lookup_insert_ne by (intros [=]; lia). apply new_block_map. lia.
    - intros o Ho. rewrite tr_vw0, fn_lookup_insert_ne by congruence. rewrite new_block_new. by apply zero_bytes_at.
    - intros k H3 H4 [?|H5]; [done|]. rewrite tr_vw0, fn_lookup_insert_ne by congruence. by apply new_block_ne. }
  split; [|split; [by rewrite Hptr, decide_True by lia|split; [rewrite tr_logged0; set_solver|]]].
  - apply Hg; [lia|]. intros n. apply (room_two _ _ _ (dev, ind_of r) (dev, a)); [done|]. rewrite tr_logged0. unfold fixed. set_solver.
  - intros Hin. apply Hg; [lia|]. intros n. apply (room_one _ _ _ (dev, a)); [done|]. rewrite tr_logged0. unfold fixed. set_solver.
Qed.
Lemma blk_direct V r bn : bn < NDIRECT → blk V r bn = default 0 (i_addrs r !! Z.to_nat bn).
Proof.
  intros Hb. unfold blk, pidx. rewrite (proj2 (Z.ltb_lt _ _) Hb). unfold ptr. by rewrite (proj2 (Z.leb_le _ _)) by lia.
Qed.
Lemma blk_indirect V r bn : NDIRECT <= bn → ind_of r ≠ 0 → blk V r bn = get32 (V (i_dev r, ind_of r)) (4 * (bn - NDIRECT)).
Proof.
  intros Hb Hz. unfold blk, pidx. rewrite (proj2 (Z.ltb_ge _ _) Hb). unfold ptr. rewrite (proj2 (Z.leb_gt _ _)) by lia.
  rewrite (proj2 (Z.eqb_neq _ _) Hz). f_equal. lia.
Qed.
(** ** Writing *)
Record wrote (c off : Z) (src : list Z) (l : T) (r : inode) (l' : T) (r' : inode) : Prop := {
  wr_inv : finv l' r';
  wr_ev : evolves sbk (tvw l) r (tvw l') r';
  wr_byte o : 0 <= o < MAXFILE * BSIZE → fbyte (tvw l') r' o =
    if (off <=? o) && (o <? off + Z.of_nat (length src)) then default 0 (src !! Z.to_nat (o - off)) else fbyte (tvw l) r o;
  wr_free : nf l - c <= nf l';
  wr_room n : 1 <= n → room l (n + c) → room l' n;
  wr_home : thome l' = thome l;
  wr_cap : tcap l' = tcap l;
  wr_blk o : off <= o < off + Z.of_nat (length src) → blk (tvw l') r' (o / BSIZE) ≠ 0;
  wr_same : (∀ o, off <= o < off + Z.of_nat (length src) → blk (tvw l) r (o / BSIZE) ≠ 0) → r' = r;
}.
Lemma evolves_blk V r V' r' i : evolves sbk V r V' r' → 0 <= i < MAXFILE → blk V r i ≠ 0 → blk V' r' i ≠ 0.
Proof.
  intros Hev Hi Hz. destruct (pidx_range i Hi) as [Hp _]. unfold blk in *. destruct (ev_ptr _ _ _ _ _ Hev _ Hp) as [->|[? _]]; congruence.
Qed.
Lemma wrote_nil off l r : finv l r → wrote 0 off [] l r l r.
Proof.
  intros Hf. split; try done; try (simpl; lia).
  - apply evolves_refl.
  - intros o Ho. change (Z.of_nat (length (@nil Z))) with 0. repeat (zcase; cbn [andb]); first [done|exfalso; lia].
  - intros n _. by rewrite Z.add_0_r.
Qed.
Lemma wrote_app c1 c2 off s1 s2 l1 r1 l2 r2 l3 r3 : 0 <= off → off + Z.of_nat (length s1 + length s2) <= MAXFILE * BSIZE → 0 <= c2 →
  wrote c1 off s1 l1 r1 l2 r2 → wrote c2 (off + Z.of_nat (length s1)) s2 l2 r2 l3 r3 → wrote (c1 + c2) off (s1 ++ s2) l1 r1 l3 r3.
Proof.
  intros Hoff Hlen Hc [] []. rewrite Nat2Z.inj_add in Hlen.
  assert (∀ o, off <= o < off + (Z.of_nat (length s1) + Z.of_nat (length s2)) → 0 <= o / BSIZE < MAXFILE) as Hblk.
  { intros o Ho. unfold BSIZE in *. split; [apply Z.div_pos; lia|apply Z.div_lt_upper_bound; lia]. }
  split; rewrite ?length_app, ?Nat2Z.inj_add; try done; try congruence; try lia.
  - apply (evolves_trans sbk ds _ _ (tvw l2) r2); try done; [|apply wr_inv1]. apply (finv_bmb l2 r2 wr_inv0).
  - intros o Ho. rewrite wr_byte1, wr_byte0 by done. repeat (zcase; cbn [andb]); try (exfalso; lia); try done;
      first [rewrite lookup_app_l by lia; done|rewrite lookup_app_r by lia; do 2 f_equal; lia].
  - intros n Hn Hr. apply wr_room1; [done|]. apply wr_room0; [lia|]. by replace (n + c2 + c1) with (n + (c1 + c2)) by lia.
  - intros o Ho. destruct (decide (o < off + Z.of_nat (length s1))); [|apply wr_blk1; lia].
    apply (evolves_blk (tvw l2) r2); [done|by apply Hblk|]. apply wr_blk0. lia.
  - intros Hall. rewrite wr_same1; [apply wr_same0; intros; apply Hall; lia|].
    intros o Ho. apply (evolves_blk (tvw l1) r1); [done|apply Hblk; lia|apply Hall; lia].
Qed.
(** One round of the loop of [writei]: a part of one block. *)
Lemma wrote_round off s l r l1 r1 l2 a : 0 <= off → off mod BSIZE + Z.of_nat (length s) <= BSIZE → s ≠ [] → off / BSIZE < MAXFILE →
  finv l r → grows 2 l r l1 r1 → blk (tvw l1) r1 (off / BSIZE) = a → a ≠ 0 → (blk (tvw l) r (off / BSIZE) ≠ 0 → r1 = r) →
  (∀ n, 1 <= n → room l (n + 2) → room l2 n) →
  after l1 l2 (<[(dev, a) := put_list (tvw l1 (dev, a)) (off mod BSIZE) s]> (tvw l1)) ({[(dev, a)]} ∪ tlogged l1) →
  wrote 2 off s l r l2 r1.
Proof.
  intros Hoff Hlen Hs Hmax Hf [] <- Ha Hsame Hroom [[] _]. set (i := off / BSIZE) in *.
  pose proof (Z.div_mod off BSIZE ltac:(done)) as Hdm. pose proof (Z.mod_pos_bound off BSIZE ltac:(done)) as Hmod.
  assert (0 < length s)%nat as Hs0 by (destruct s; simpl; [done|lia]).
  assert (0 <= i < MAXFILE) as Hi by (split; [apply Z.div_pos; done|done]).
  pose proof gr_inv0 as Hf1. destruct Hf1 as [[? Hd Hm] Hfile Hdev Hheld]. destruct (finv_bmb _ _ gr_inv0) as [Hb Hds].
  rewrite <- Hdev in tr_vw0. assert (∀ o, off <= o < off + Z.of_nat (length s) → o / BSIZE = i) as Hblk.
  { intros o Ho. symmetry. apply (Z.div_unique_pos _ _ _ (o - BSIZE * i)); lia. }
  assert (∀ j, 0 <= j < NPTR → ptr (tvw l2) r1 j = ptr (tvw l1) r1 j) as Hptr.
  { intros j Hj. rewrite tr_vw0. by apply (set_block_ptr sbk ds). }
  split; try congruence.
  - split; [split; [done|congruence|]| |done|congruence].
    + rewrite tr_vw0. intros b Hb0. rewrite <- Hdev, (set_block_bits sbk ds) by done. rewrite Hdev. by apply Hm.
    + rewrite tr_vw0. by apply set_block_file_ok.
  - apply (evolves_trans sbk ds _ _ (tvw l1) r1); [done|rewrite tr_vw0; by apply set_block_file_ok|done|].
    rewrite tr_vw0. by apply (set_block_evolves sbk ds).
  - intros o Ho. rewrite tr_vw0, (set_block_fbyte sbk ds) by done. unfold put_list, put_bytes. rewrite gr_byte0 by done.
    pose proof (Z.div_mod o BSIZE ltac:(done)). pose proof (Z.mod_pos_bound o BSIZE ltac:(done)). case_decide as E.
    + assert (tvw l1 (i_dev r1, blk (tvw l1) r1 i) (o mod BSIZE) = fbyte (tvw l) r o) as Hkeep.
      { rewrite <- gr_byte0 by done. unfold fbyte. rewrite E. cbn zeta. by rewrite (proj2 (Z.eqb_neq _ _) Ha). }
      repeat (zcase; cbn [andb]); first [exfalso; lia|done|do 2 f_equal; lia].
    + repeat (zcase; cbn [andb]); try done. exfalso. apply E, Hblk. lia.
  - unfold nf in *. rewrite tr_vw0, <- Hdev, (set_block_bits sbk ds), Hdev by done. done.
  - by intros n; apply Hroom.
  - intros o Ho. rewrite (Hblk o) by done. destruct (pidx_range i Hi). unfold blk. by rewrite Hptr.
  - intros Hall. apply Hsame. replace i with (off / BSIZE) by done. apply Hall. lia.
Qed.
(** How many blocks a range of bytes touches. *)
Definition rounds (off n : Z) : Z := if n <=? 0 then 0 else (off + n - 1) / BSIZE - off / BSIZE + 1.
Lemma rounds_step off n : 0 <= off → 0 < n → let m := Z.min n (BSIZE - off mod BSIZE) in
  0 < m ∧ off mod BSIZE + m <= BSIZE ∧ rounds off n = 1 + rounds (off + m) (n - m) ∧ 0 <= rounds (off + m) (n - m).
Proof.
  intros Hoff Hn m. unfold rounds, m, BSIZE. pose proof (Z.mod_pos_bound off 512 ltac:(lia)).
  split; [lia|]. split; [lia|]. repeat zcase; Z.to_euclidean_division_equations; lia.
Qed.
Lemma chunks_rounds off n : 0 <= off → 0 <= n → 0 <= rounds off n <= Z.of_nat (chunks n).
Proof.
  intros Hoff Hn. unfold rounds, chunks, BSIZE. rewrite Nat2Z.inj_add, Z2Nat.id by (apply Z.div_pos; lia).
  zcase; Z.to_euclidean_division_equations; lia.
Qed.
(** ** Reading *)
Lemma bytes_of_fbytes V r off m : 0 <= off → 0 < m → off mod BSIZE + m <= BSIZE → blk V r (off / BSIZE) ≠ 0 →
  bytes_of (V (i_dev r, blk V r (off / BSIZE))) (off mod BSIZE) m = fbytes V r off m.
Proof.
  intros Hoff Hm Hle Hz. pose proof (Z.div_mod off BSIZE ltac:(done)) as Hdm. pose proof (Z.mod_pos_bound off BSIZE ltac:(done)) as Hmod.
  unfold bytes_of, fbytes. apply list_eq. intros k. rewrite !list_lookup_fmap.
  destruct (decide (Z.of_nat k < m)) as [Hk|Hk]; [|rewrite !lookup_seqZ_ge by lia; done].
  rewrite !lookup_seqZ_lt by lia. cbn. unfold fbyte.
  replace ((off + Z.of_nat k) / BSIZE) with (off / BSIZE) by (apply (Z.div_unique_pos _ _ _ (off mod BSIZE + Z.of_nat k)); lia).
  replace ((off + Z.of_nat k) mod BSIZE) with (off mod BSIZE + Z.of_nat k) by (apply (Z.mod_unique_pos _ _ (off / BSIZE)); lia).
  cbn zeta. by rewrite (proj2 (Z.eqb_neq _ _) Hz).
Qed.
(** ** The inode in its block *)
Lemma get16_put32_ne b i j v : j + 2 <= i ∨ i + 4 <= j → get16 (put32 b i v) j = get16 b j.
Proof. intros Hij. unfold get16. rewrite !put32_at. by repeat rewrite decide_False by lia. Qed.
Lemma get32_put16_ne b i j v : j + 4 <= i ∨ i + 2 <= j → get32 (put16 b i v) j = get32 b j.
Proof. intros Hij. unfold get32, put16. by rewrite !fn_lookup_insert_ne by lia. Qed.
Lemma put_addrs_spec d i l : Forall (λ a, 0 <= a < 2 ^ 32) l →
  (∀ k, (k < length l)%nat → get32 (put_addrs d i l) (i + 4 * Z.of_nat k) = default 0 (l !! k)) ∧
  (∀ o, o < i ∨ i + 4 * Z.of_nat (length l) <= o → put_addrs d i l o = d o).
Proof.
  intros Hl. unfold put_addrs. assert (length l ≤ length l)%nat as Hn by lia. revert Hn.
  generalize (length l) at 1 3 4 5 6. intros n. induction n as [|n IH]; intros Hn; [split; [lia|done]|].
  rewrite seq_S, foldl_app. cbn [foldl]. destruct IH as [IHin IHout]; [lia|].
  rewrite Nat.add_0_l. split.
  - intros k Hk. destruct (decide (k = n)) as [->|Hne].
    + apply get32_put32. destruct (lookup_lt_is_Some_2 l n) as [x Hx]; [lia|]. rewrite Hx. cbn.
      rewrite Forall_lookup in Hl. by apply (Hl n).
    + rewrite get32_put32_ne by lia. apply IHin. lia.
  - intros o Ho. rewrite put32_at. repeat rewrite decide_False by lia. apply IHout. lia.
Qed.
Lemma get16_put_addrs d i l o : Forall (λ a, 0 <= a < 2 ^ 32) l → o + 2 <= i → get16 (put_addrs d i l) o = get16 d o.
Proof. intros Hl Ho. destruct (put_addrs_spec d i l Hl) as [_ Hout]. unfold get16. by rewrite !Hout by lia. Qed.
Lemma get32_put_addrs d i l o : Forall (λ a, 0 <= a < 2 ^ 32) l → o + 4 <= i → get32 (put_addrs d i l) o = get32 d o.
Proof. intros Hl Ho. destruct (put_addrs_spec d i l Hl) as [_ Hout]. unfold get32. by rewrite !Hout by lia. Qed.
Lemma s16_u16 z : - 2 ^ 15 <= z < 2 ^ 15 → s16 (u16 z) = z.
Proof.
  intros Hz. rewrite <- (swrap_small 16 z) at 2 by lia. unfold s16, swrap, u16. by rewrite Z.mod_mod by lia.
Qed.
Lemma u16_range z : 0 <= u16 z < 2 ^ 16.
Proof. apply Z.mod_pos_bound. lia. Qed.
(** What fits in an inode of the disk. *)
Record inode_range (r : inode) : Prop := {
  ir_type : - 2 ^ 15 <= i_type r < 2 ^ 15;
  ir_major : - 2 ^ 15 <= i_major r < 2 ^ 15;
  ir_minor : - 2 ^ 15 <= i_minor r < 2 ^ 15;
  ir_nlink : - 2 ^ 15 <= i_nlink r < 2 ^ 15;
  ir_size : 0 <= i_size r < 2 ^ 32;
  ir_addrs : Forall (λ a, 0 <= a < 2 ^ 32) (i_addrs r);
}.
Lemma dinode_roundtrip r d : inode_range r → length (i_addrs r) = 13%nat → dinode_get (dinode_put r d) r = r.
Proof.
  intros [] Hlen. unfold dinode_get, dinode_put. set (o := dip (i_inum r)).
  rewrite !get16_put_addrs, !get32_put_addrs by (done || lia).
  rewrite get32_put32, !get16_put32_ne by lia.
  rewrite (get16_put16_ne _ (o + 6) o), (get16_put16_ne _ (o + 6) (o + 2)), (get16_put16_ne _ (o + 6) (o + 4)) by lia.
  rewrite (get16_put16_ne _ (o + 4) o), (get16_put16_ne _ (o + 4) (o + 2)), (get16_put16_ne _ (o + 2) o) by lia.
  rewrite !get16_put16 by apply u16_range. rewrite !s16_u16 by done.
  unfold get_addrs. destruct (put_addrs_spec (put32 (put16 (put16 (put16 (put16 d o (u16 (i_type r))) (o + 2) (u16 (i_major r)))
    (o + 4) (u16 (i_minor r))) (o + 6) (u16 (i_nlink r))) (o + 8) (i_size r)) (o + 12) (i_addrs r) ir_addrs0) as [Hin _].
  assert (∀ d' : blockdata, (∀ k, (k < length (i_addrs r))%nat → get32 d' (o + 12 + 4 * Z.of_nat k) = default 0 (i_addrs r !! k)) →
    (λ k, get32 d' (o + 12 + 4 * k)) <$> seqZ 0 (NDIRECT + 1) = i_addrs r) as Haddrs.
  { intros d' Hd'. apply list_eq. intros k. rewrite list_lookup_fmap. rewrite Hlen in Hd'. change (NDIRECT + 1) with 13.
    destruct (decide (k < 13)%nat) as [Hk|Hk].
    - rewrite lookup_seqZ_lt by lia. cbn. rewrite Z.add_0_l, Hd' by done.
      destruct (lookup_lt_is_Some_2 (i_addrs r) k) as [x Hx]; [lia|]. by rewrite Hx.
    - rewrite lookup_seqZ_ge by lia. symmetry. cbn. apply lookup_ge_None. lia. }
  rewrite Haddrs by done. by destruct r.
Qed.
Lemma put16_out d i v o : o < i ∨ i + 2 <= o → put16 d i v o = d o.
Proof. intros Ho. unfold put16. by rewrite !fn_lookup_insert_ne by lia. Qed.
Lemma put32_out d i v o : o < i ∨ i + 4 <= o → put32 d i v o = d o.
Proof. intros Ho. rewrite put32_at. by repeat rewrite decide_False by lia. Qed.
Lemma dinode_put_out r d o : inode_range r → length (i_addrs r) = 13%nat → o < dip (i_inum r) ∨ dip (i_inum r) + 64 <= o → dinode_put r d o = d o.
Proof.
  intros [] Hlen Ho. unfold dinode_put. destruct (put_addrs_spec (put32 (put16 (put16 (put16 (put16 d (dip (i_inum r)) (u16 (i_type r)))
    (dip (i_inum r) + 2) (u16 (i_major r))) (dip (i_inum r) + 4) (u16 (i_minor r))) (dip (i_inum r) + 6) (u16 (i_nlink r)))
    (dip (i_inum r) + 8) (i_size r)) (dip (i_inum r) + 12) (i_addrs r) ir_addrs0) as [_ Hout].
  rewrite Hout, put32_out, !put16_out by lia. done.
Qed.
(** * readi and writei on the list of bytes *)
Definition splice (off : nat) (src c : list Z) : list Z := take off c ++ src ++ drop (off + length src) c.
Definition content (l : T) (r : inode) : list Z := fbytes (tvw l) r 0 (i_size r).
(** The invariant of an inode between two calls: the file has all its blocks, and the disk has the inode. *)
Record file_inv (l : T) (r : inode) : Prop := {
  vi_inv : finv l r;
  vi_full o : 0 <= o < i_size r → blk (tvw l) r (o / BSIZE) ≠ 0;
  vi_size : 0 <= i_size r <= MAXFILE * BSIZE;
  vi_type : i_type r ≠ T_DEV;
  vi_ib : IBLOCK (i_inum r) sbk = ib;
  vi_sync : dinode_get (tvw l (dev, ib)) r = r;
}.
(** Every file that shares no block with this one keeps its pointers and its bytes. *)
Definition others_kept (l : T) (r : inode) (l' : T) : Prop :=
  ∀ r2, file_ok sbk ds (tvw l) r2 → i_dev r2 = dev →
    (∀ j j', 0 <= j < NPTR → 0 <= j' < NPTR → ptr (tvw l) r j ≠ 0 → ptr (tvw l) r j ≠ ptr (tvw l) r2 j') →
    file_ok sbk ds (tvw l') r2 ∧ ∀ o, 0 <= o < MAXFILE * BSIZE → fbyte (tvw l') r2 o = fbyte (tvw l) r2 o.
Lemma length_fbytes V r o n : length (fbytes V r o n) = Z.to_nat n.
Proof. unfold fbytes. by rewrite length_fmap, length_seqZ. Qed.
Lemma fbytes_app V r o n m : 0 <= n → 0 <= m → fbytes V r o (n + m) = fbytes V r o n ++ fbytes V r (o + n) m.
Proof. intros. unfold fbytes. by rewrite seqZ_app, fmap_app by done. Qed.
Lemma fbytes_same V r V' r' o n : (∀ i, o <= i < o + n → fbyte V r i = fbyte V' r' i) → fbytes V r o n = fbytes V' r' o n.
Proof. intros Hs. unfold fbytes. apply list_fmap_ext. intros i x Hx%list_elem_of_lookup_2%elem_of_seqZ. by apply Hs. Qed.
Lemma fbytes_splice V r V' r' off src N : 0 <= off <= N →
  (∀ o, 0 <= o < Z.max N (off + Z.of_nat (length src)) → fbyte V' r' o =
    if (off <=? o) && (o <? off + Z.of_nat (length src)) then default 0 (src !! Z.to_nat (o - off)) else fbyte V r o) →
  fbytes V' r' 0 (Z.max N (off + Z.of_nat (length src))) = splice (Z.to_nat off) src (fbytes V r 0 N).
Proof.
  intros Hoff Hb. set (n := Z.of_nat (length src)) in *. unfold splice.
  replace (Z.max N (off + n)) with (off + (n + (Z.max N (off + n) - off - n))) by lia. rewrite !fbytes_app, !Z.add_0_l by lia.
  f_equal; [|f_equal].
  - replace N with (off + (N - off)) by lia. rewrite fbytes_app, take_app_length' by (rewrite ?length_fbytes; lia).
    apply fbytes_same. intros i Hi. rewrite Hb by lia. by rewrite (proj2 (Z.leb_gt _ _)) by lia.
  - apply list_eq. intros k. unfold fbytes. rewrite list_lookup_fmap. destruct (decide (Z.of_nat k < n)) as [Hk|Hk].
    + rewrite lookup_seqZ_lt by lia. cbn. rewrite Hb by lia.
      rewrite (proj2 (Z.leb_le _ _)), (proj2 (Z.ltb_lt _ _)) by lia. cbn. replace (Z.to_nat (off + Z.of_nat k - off)) with k by lia.
      destruct (lookup_lt_is_Some_2 src k) as [x Hx]; [lia|]. by rewrite Hx.
    + rewrite lookup_seqZ_ge by lia. symmetry. cbn. apply lookup_ge_None. lia.
  - destruct (decide (off + n <= N)) as [Hle|Hgt].
    + replace N with (off + n + (N - off - n)) at 2 by lia. rewrite fbytes_app, drop_app_length' by (rewrite ?length_fbytes; lia).
      replace (Z.max N (off + n) - off - n) with (N - off - n) by lia. rewrite Z.add_0_l. apply fbytes_same. intros i Hi. rewrite Hb by lia.
      rewrite (proj2 (Z.ltb_ge i _)) by lia. by rewrite andb_false_r.
    + rewrite drop_ge by (rewrite length_fbytes; lia). replace (Z.max N (off + n) - off - n) with 0 by lia. done.
Qed.
Lemma addrs_range l r : finv l r → Forall (λ a, 0 <= a < 2 ^ 32) (i_addrs r).
Proof.
  intros Hf. pose proof (fo_len _ _ _ _ (fi_file _ _ Hf)) as Hlen. pose proof (do_size _ _ _ _ _ (rd_disk _ (fi_ready _ _ Hf))) as Hsz.
  destruct nptr as (En & Ed & _ & _). destruct (finv_bmb _ _ Hf) as [_ Hds].
  apply Forall_lookup. intros k a Hk. pose proof (lookup_lt_Some _ _ _ Hk).
  destruct (decide (a = 0)) as [->|Ha]; [done|]. destruct (finv_ptr l r (Z.of_nat k) Hf) as (Hr & _); [lia|..].
  - unfold ptr. rewrite (proj2 (Z.leb_le _ _)), Nat2Z.id, Hk by lia. done.
  - unfold ptr in Hr. rewrite (proj2 (Z.leb_le _ _)), Nat2Z.id, Hk in Hr by lia. cbn in Hr. unfold FSSIZE in *. lia.
Qed.
Lemma sync_fields d r : dinode_get d r = r → - 2 ^ 15 <= i_type r < 2 ^ 15 ∧ - 2 ^ 15 <= i_major r < 2 ^ 15 ∧
  - 2 ^ 15 <= i_minor r < 2 ^ 15 ∧ - 2 ^ 15 <= i_nlink r < 2 ^ 15.
Proof.
  intros Hs. pose proof (f_equal i_type Hs) as <-. pose proof (f_equal i_major Hs) as <-. pose proof (f_equal i_minor Hs) as <-.
  pose proof (f_equal i_nlink Hs) as <-. unfold dinode_get. cbn. split_and!; by apply (swrap_range 16).
Qed.
(** The inode's block is no block of the file or the bitmap. *)
Section set_inode.
Context (l l' : T) (r : inode) (d : blockdata) (L : gset blkid).
Context (Hf : finv l r) (Hl : after l l' (<[(dev, ib) := d]> (tvw l)) L).
Lemma set_inode_ptr r2 j : file_ok sbk ds (tvw l) r2 → i_dev r2 = dev → 0 <= j < NPTR → ptr (tvw l') r2 j = ptr (tvw l) r2 j.
Proof.
  intros Hr2 Hd Hj. destruct Hl as [[] _]. unfold ptr. destruct (Z.leb_spec j NDIRECT); [done|].
  destruct (Z.eqb_spec (ind_of r2) 0) as [|Hz]; [done|]. rewrite tr_vw0, fn_lookup_insert_ne; [done|]. rewrite Hd. intros [= E].
  destruct (fo_ptr _ _ _ _ Hr2 NDIRECT) as [Hr _]; [done..|]. rewrite ptr_ind in Hr.
  destruct (do_ib _ _ _ _ _ (rd_disk _ (fi_ready _ _ Hf))) as (_ & ? & _). lia.
Qed.
Lemma set_inode_map : tvw l' (dev, bmb sbk) = tvw l (dev, bmb sbk).
Proof.
  destruct Hl as [[] _]. rewrite tr_vw0. apply fn_lookup_insert_ne. intros [= E].
  destruct (do_ib _ _ _ _ _ (rd_disk _ (fi_ready _ _ Hf))) as (_ & _ & ?). congruence.
Qed.
Lemma set_inode_file r2 : file_ok sbk ds (tvw l) r2 → i_dev r2 = dev → file_ok sbk ds (tvw l') r2.
Proof.
  intros Hr2 Hd. split; [apply Hr2| |].
  - intros j Hj. rewrite set_inode_ptr, Hd, set_inode_map by done. rewrite <- Hd. by apply (fo_ptr _ _ _ _ Hr2).
  - intros j j' Hj Hj'. rewrite !set_inode_ptr by done. by apply (fo_inj _ _ _ _ Hr2).
Qed.
Lemma set_inode_byte r2 o : file_ok sbk ds (tvw l) r2 → i_dev r2 = dev → 0 <= o < MAXFILE * BSIZE →
  fbyte (tvw l') r2 o = fbyte (tvw l) r2 o.
Proof.
  intros Hr2 Hd Ho. assert (0 <= o / BSIZE < MAXFILE) as Hi.
  { unfold BSIZE in *. split; [apply Z.div_pos; lia|apply Z.div_lt_upper_bound; lia]. }
  destruct (pidx_range _ Hi) as [Hp _]. unfold fbyte, blk. rewrite set_inode_ptr by done.
  destruct (Z.eqb_spec (ptr (tvw l) r2 (pidx (o / BSIZE))) 0) as [|Hz]; [done|]. destruct Hl as [[] _].
  rewrite tr_vw0, fn_lookup_insert_ne; [done|]. rewrite Hd. intros [= E]. destruct (fo_ptr _ _ _ _ Hr2 _ Hp Hz) as [Hr _].
  destruct (do_ib _ _ _ _ _ (rd_disk _ (fi_ready _ _ Hf))) as (_ & ? & _). lia.
Qed.
Lemma set_inode_finv : finv l' r.
Proof.
  destruct Hf as [[] ]. split.
  - destruct Hl as [[] _]. split; [done|by rewrite tr_home0|]. intros b Hb. rewrite set_inode_map. by apply rd_map0.
  - by apply set_inode_file.
  - done.
  - destruct Hl as [[] _]. congruence.
Qed.
End set_inode.
(** The other files: [others_kept] for each kind of change. *)
Lemma others_evolves l r l' r' : finv l r → finv l' r' → evolves sbk (tvw l) r (tvw l') r' → others_kept l r l'.
Proof.
  intros Hf Hf' Hev r2 Hr2 Hd Hdis. destruct (finv_bmb _ _ Hf) as [Hb Hds].
  assert (∀ j, 0 <= j < NPTR → ptr (tvw l) r2 j ≠ 0 → tvw l' (dev, ptr (tvw l) r2 j) = tvw l (dev, ptr (tvw l) r2 j)) as Hsame.
  { intros j Hj Hz. destruct (fo_ptr _ _ _ _ Hr2 j Hj Hz) as [Hr Hfr]. apply (ev_frame _ _ _ _ _ Hev).
    - rewrite (fi_dev _ _ Hf). intros [= E]. lia.
    - intros j' Hj' Hz'. rewrite (fi_dev _ _ Hf). intros [= E]. destruct (ev_ptr _ _ _ _ _ Hev j' Hj') as [E'|[_ E']].
      + rewrite E' in *. by apply (Hdis j' j).
      + rewrite <- E, (fi_dev _ _ Hf) in E'. rewrite Hd in Hfr. congruence. }
  assert (∀ j, 0 <= j < NPTR → ptr (tvw l') r2 j = ptr (tvw l) r2 j) as Hptr.
  { intros j Hj. unfold ptr. destruct (Z.leb_spec j NDIRECT); [done|]. destruct (Z.eqb_spec (ind_of r2) 0) as [|Hz]; [done|].
    rewrite Hd. specialize (Hsame NDIRECT ltac:(done) Hz). rewrite ptr_ind in Hsame. by rewrite Hsame. }
  split; [split; [apply Hr2| |]|].
  - intros j Hj. rewrite Hptr by done. intros Hz. destruct (fo_ptr _ _ _ _ Hr2 j Hj Hz) as [Hr Hfr]. split; [done|].
    destruct (bit_free (tvw l' _) _) eqn:E; [|done]. rewrite Hd, <- (fi_dev _ _ Hf) in E. apply (ev_free _ _ _ _ _ Hev) in E; [|lia].
    rewrite (fi_dev _ _ Hf), <- Hd in E. congruence.
  - intros j j' Hj Hj'. rewrite !Hptr by done. by apply (fo_inj _ _ _ _ Hr2).
  - intros o Ho. assert (0 <= o / BSIZE < MAXFILE) as Hi.
    { unfold BSIZE in *. split; [apply Z.div_pos; lia|apply Z.div_lt_upper_bound; lia]. }
    destruct (pidx_range _ Hi) as [Hp _]. unfold fbyte, blk. rewrite Hptr by done.
    destruct (Z.eqb_spec (ptr (tvw l) r2 (pidx (o / BSIZE))) 0) as [|Hz]; [done|]. by rewrite Hd, Hsame.
Qed.
Lemma others_set_inode l r l' d L : finv l r → after l l' (<[(dev, ib) := d]> (tvw l)) L → others_kept l r l'.
Proof.
  intros Hf Hl r2 Hr2 Hd _. split; [by apply (set_inode_file l l' r d L)|]. intros o Ho. by apply (set_inode_byte l l' r d L).
Qed.
(** What a successful [writei] has done. *)
Record written (off : Z) (src : list Z) (l : T) (r : inode) (l' : T) (r' : inode) : Prop := {
  wn_inv : file_inv l' r';
  wn_fields : r' = set_i_addrs (i_addrs r') (set_i_size (i_size r') r);
  wn_content : content l' r' = splice (Z.to_nat off) src (content l r);
  wn_others : others_kept l r l';
  wn_dinodes o : o < dip (i_inum r) ∨ dip (i_inum r) + 64 <= o → tvw l' (dev, ib) o = tvw l (dev, ib) o;
  wn_log : Z.of_nat (size (tlogged l')) <= Z.of_nat (size (tlogged l)) + 2 * rounds off (Z.of_nat (length src)) + 2;
  wn_free : nf l - 2 * rounds off (Z.of_nat (length src)) <= nf l';
  wn_home : thome l' = thome l;
  wn_cap : tcap l' = tcap l;
}.
Lemma log_bound l l' c : 0 <= c → room l (c + 1) → (∀ n, 1 <= n → room l (n + c) → room l' n) → tcap l' = tcap l →
  Z.of_nat (size (tlogged l' ∪ fixed)) <= Z.of_nat (size (tlogged l)) + c + 2.
Proof.
  intros Hc Hr Hall Hcap. specialize (Hall (Z.min (tcap l) (Z.of_nat NBUF - 2) - Z.of_nat (size (tlogged l ∪ fixed)) - c)).
  unfold room in *. specialize (Hall ltac:(lia) ltac:(lia)). rewrite Hcap in Hall.
  pose proof (size_union_le (tlogged l) fixed). pose proof (size_union_le {[ (dev, bmb sbk) ]} {[ (dev, ib) ]}) as Hfx.
  rewrite !size_singleton in Hfx. fold fixed in Hfx. lia.
Qed.
Lemma ib_frame l r l' r' : finv l r → finv l' r' → evolves sbk (tvw l) r (tvw l') r' → tvw l' (dev, ib) = tvw l (dev, ib).
Proof.
  intros Hf Hf' Hev. destruct (do_ib _ _ _ _ _ (rd_disk _ (fi_ready _ _ Hf))) as (_ & ? & ?). apply (ev_frame _ _ _ _ _ Hev).
  - rewrite (fi_dev _ _ Hf). congruence.
  - intros j Hj Hz. rewrite (fi_dev _ _ Hf). intros [= E]. destruct (finv_ptr _ _ _ Hf' Hj Hz) as (Hr & _). lia.
Qed.
Lemma finv_size l r x : finv l r → finv l (set_i_size x r).
Proof. intros [? [] ? ?]. by split. Qed.
End layer.
Arguments fixed : clear implicits.
Arguments ready {T _} _ _ _ _ _ .
Arguments room {T _} _ _ _ _ _ .
Arguments new_block : clear implicits.
Arguments nf {T _} _ _ _ .
Arguments finv {T _} _ _ _ _ _ _ .
Arguments grows {T _} _ _ _ _ _ _ _ _ _ .
Arguments wrote {T _} _ _ _ _ _ _ _ _ _ _ _ .
Arguments file_inv {T _} _ _ _ _ _ _ .
Arguments others_kept {T _} _ _ _ _ _ _ .
Arguments written {T _} _ _ _ _ _ _ _ _ _ _ .
