(* ===== verification/FileOps.v ===== *)
(** * What balloc, bmap, readi and writei of fs.c do to the content of files

    The operations, run on an inode that the process has locked, in any layer with
    [TransactionLaws]: [writei_refines] and [readi_refines] are on the list of the file's bytes.
    The witnesses run on the log over the buffer cache. *)

From S2P Require Import Prelude Bio Blocks Log Txn Fs FileData.

(** * The operations *)
Lemma wp_for_find_skip {S A R} (l1 l2 : list A) (body : A → M S (option R)) (Q : option R → S → Prop) s :
  (∀ x, x ∈ l1 → body x s = Ret None s) → wp (for_find l2 body) Q s → wp (for_find (l1 ++ l2) body) Q s.
Proof.
  induction l1 as [|x l1 IH]; intros Hn Hl; [done|]. cbn [app for_find]. apply wp_bind.
  apply (wp_intro _ _ _ None s); [apply Hn; set_solver|]. apply IH; [|done]. intros. apply Hn. set_solver.
Qed.


Section ops.
Context {T D : Type} `{TransactionLaws T} `{Devices D}.
(** The process works on the inode in slot [ip]; the rest of the state stays as in [s0]. *)
Context (s0 : fs T D) (ip : nat) (Hip : (ip < length (icache s0))%nat).
Notation sbk := (sb s0).
Definition st (r : inode) (l : T) : fs T D := set_icache (<[ip := r]> (icache s0)) (set_lg l s0).
Lemma wp_inode_at r l (Q : inode → fs T D → Prop) : Q r (st r l) → wp (inode_at ip) Q (st r l).
Proof.
  intros HQ. unfold inode_at. apply wp_bind, wp_gets. apply (wp_aget _ _ r); [lia| |done].
  rewrite Nat2Z.id. unfold st. cbn. by apply list_lookup_insert_eq.
Qed.
Lemma wp_iset r l f (Q : () → fs T D → Prop) : Q () (st (f r) l) → wp (iset ip f) Q (st r l).
Proof.
  intros HQ. unfold iset. apply wp_modify. unfold st in *. cbn.
  replace (alter f ip (<[ip := r]> (icache s0))) with (<[ip := f r]> (icache s0)); [done|].
  symmetry. apply list_eq. intros i. destruct (decide (i = ip)) as [->|].
  - by rewrite list_lookup_alter_eq, !list_lookup_insert_eq.
  - by rewrite list_lookup_alter_ne, !list_lookup_insert_ne.
Qed.
Lemma wp_low {A} (m : M T A) r l (Q : A → fs T D → Prop) : wp m (λ a l', Q a (st r l')) l → wp (low m) Q (st r l).
Proof. intros HQ. apply wp_zoom. cbn. done. Qed.
Lemma wp_bread dev b r l (Q : nat → fs T D → Prop) : tinv l → thome l (dev, b) → (dev, b) ∉ theld l →
  (size (tlogged l) + size (theld l) < NBUF)%nat →
  (∀ h l', trans l l' (tvw l) (tlogged l) ({[ (dev, b) ]} ∪ theld l) → tat l' h (dev, b) → clean l' (dev, b) →
    (∀ h' k, tat l h' k → tat l' h' k) → Q h (st r l')) →
  wp (low (t_bread dev b)) Q (st r l).
Proof.
  intros Hi Hh Hn Hr HQ. apply wp_low. destruct (t_bread_law l dev b Hi Hh Hn Hr) as (h & l' & Hm & Hi' & [] & Hhd & Ha & Hat).
  apply (wp_intro _ _ _ _ _ Hm). apply HQ; [by split|done| |done]. unfold clean. rewrite ts_logged, ts_vw, ts_dsk.
  destruct (decide ((dev, b) ∈ tlogged l)); [by left|right]. by apply t_disk_law.
Qed.
Lemma wp_data h k r l (Q : blockdata → fs T D → Prop) : tinv l → tat l h k → Q (tvw l k) (st r l) →
  wp (low (gets (t_data h))) Q (st r l).
Proof. intros Hi Ha HQ. apply wp_low, wp_gets. by rewrite (t_data_law l h k). Qed.
(** A change of the buffer's content, logged. *)
Lemma wp_set_log {A} h k d r l (m : M (fs T D) A) (Q : A → fs T D → Prop) : tinv l → tat l h k → thome l k →
  Z.of_nat (size (tlogged l)) < tcap l →
  (∀ l', after l l' (<[k := d]> (tvw l)) ({[k]} ∪ tlogged l) → tat l' h k → clean l' k → wp m Q (st r l')) →
  wp (low (t_set_data h d) ;; low (t_log_write h) ;; m) Q (st r l).
Proof.
  intros Hi Ha Hh Hc HQ. destruct (t_set_data_law l h k d Hi Ha) as (l1 & Hm1 & Hi1 & Hv1 & _ & Hl1 & Hh1 & Hc1 & Hd1 & Hat1).
  destruct (t_log_write_law l1 h k) as (l2 & Hm2 & Hi2 & Hv2 & _ & Hl2 & Hh2 & Hc2 & Hd2 & Hat2); [done|auto|congruence|congruence|].
  apply wp_bind, wp_low. apply (wp_intro _ _ _ _ _ Hm1). apply wp_bind, wp_low. apply (wp_intro _ _ _ _ _ Hm2).
  apply HQ; [|auto|unfold clean; rewrite Hl2; set_solver]. split; [split; congruence|auto].
Qed.
Lemma wp_brelse h k r l0 l V L (Q : () → fs T D → Prop) : trans l0 l V L ({[k]} ∪ theld l0) → k ∉ theld l0 → tat l h k → clean l k →
  (∀ h k, tat l0 h k → tat l h k) →
  (∀ l', after l0 l' V L → Q () (st r l')) → wp (low (t_brelse h)) Q (st r l).
Proof.
  intros [] Hk Ha Hc Hat HQ. apply wp_low. destruct (t_brelse_law l h k tr_inv Ha Hc) as (l' & Hm & Hi' & [] & Hhd & Hat').
  apply (wp_intro _ _ _ _ _ Hm). apply HQ. split; [split; try congruence; rewrite Hhd; set_solver|].
  intros h' k' Hk'. pose proof (t_at_held l0 h' k' Hk'). apply Hat'; [congruence|auto].
Qed.
(** The common case: a block is read, changed, logged and released. *)
Lemma wp_change {A} dev b (f : blockdata → blockdata) r l (m : nat → M (fs T D) A) (Q : A → fs T D → Prop) :
  tinv l → thome l (dev, b) → (dev, b) ∉ theld l →
  (size (tlogged l) + size (theld l) < NBUF)%nat → Z.of_nat (size (tlogged l)) < tcap l →
  (∀ h l', (∀ Q' : () → fs T D → Prop,
      (∀ l2, after l l2 (<[(dev, b) := f (tvw l (dev, b))]> (tvw l)) ({[(dev, b)]} ∪ tlogged l) → Q' () (st r l2)) →
      wp (low (t_brelse h)) Q' (st r l')) → wp (m h) Q (st r l')) →
  wp (bp ← low (t_bread dev b); d ← low (gets (t_data bp)); low (t_set_data bp (f d)) ;; low (t_log_write bp) ;; m bp) Q (st r l).
Proof.
  intros Hi Hh Hn Hr Hc HQ. apply wp_bind, wp_bread; [done..|]. intros h l1 T1 A1 C1 P1.
  pose proof T1 as T1'. destruct T1' as [].
  apply wp_bind, (wp_data h (dev, b)); [done|done|]. apply (wp_set_log h (dev, b)); [done|done|congruence|congruence|].
  intros l2 [[] P2] A2 C2. apply HQ. intros Q' HQ'. eapply (wp_brelse h (dev, b) _ l l2); [|done|done|done|auto|].
  - split; try done; congruence.
  - intros l' Hl'. apply HQ'. by rewrite <- tr_vw, <- tr_logged.
Qed.
Lemma wp_update {A} dev b (f : blockdata → blockdata) r l (m : M (fs T D) A) (Q : A → fs T D → Prop) :
  tinv l → thome l (dev, b) → (dev, b) ∉ theld l →
  (size (tlogged l) + size (theld l) < NBUF)%nat → Z.of_nat (size (tlogged l)) < tcap l →
  (∀ l', after l l' (<[(dev, b) := f (tvw l (dev, b))]> (tvw l)) ({[(dev, b)]} ∪ tlogged l) → wp m Q (st r l')) →
  wp (bp ← low (t_bread dev b); d ← low (gets (t_data bp)); low (t_set_data bp (f d)) ;; low (t_log_write bp) ;;
      low (t_brelse bp) ;; m) Q (st r l).
Proof.
  intros Hi Hh Hn Hr Hc HQ. apply (wp_change dev b f r l (λ bp, low (t_brelse bp) ;; m)); try done.
  intros h l' Hb. by apply wp_bind, Hb.
Qed.
Lemma wp_update_end dev b (f : blockdata → blockdata) r l (Q : () → fs T D → Prop) :
  tinv l → thome l (dev, b) → (dev, b) ∉ theld l →
  (size (tlogged l) + size (theld l) < NBUF)%nat → Z.of_nat (size (tlogged l)) < tcap l →
  (∀ l', after l l' (<[(dev, b) := f (tvw l (dev, b))]> (tvw l)) ({[(dev, b)]} ∪ tlogged l) → Q () (st r l')) →
  wp (bp ← low (t_bread dev b); d ← low (gets (t_data bp)); low (t_set_data bp (f d)) ;; low (t_log_write bp) ;;
      low (t_brelse bp)) Q (st r l).
Proof.
  intros Hi Hh Hn Hr Hc HQ. apply (wp_change dev b f r l (λ bp, low (t_brelse bp))); try done.
  intros h l' Hb. by apply Hb.
Qed.
(** The same for reading only. *)
Lemma wp_read {A} dev b r l (m : blockdata → M (fs T D) A) (Q : A → fs T D → Prop) :
  tinv l → thome l (dev, b) → (dev, b) ∉ theld l → (size (tlogged l) + size (theld l) < NBUF)%nat →
  (∀ l', after l l' (tvw l) (tlogged l) → wp (m (tvw l (dev, b))) Q (st r l')) →
  wp (bp ← low (t_bread dev b); d ← low (gets (t_data bp)); low (t_brelse bp) ;; m d) Q (st r l).
Proof.
  intros Hi Hh Hn Hr HQ. apply wp_bind, wp_bread; [done..|]. intros h l1 T1 A1 C1 P1.
  pose proof T1 as T1'. destruct T1' as [].
  apply wp_bind, (wp_data h (dev, b)); [done|done|]. apply wp_bind. eapply (wp_brelse h (dev, b) _ l l1); try done.
  intros l' Hl'. rewrite tr_vw. by apply HQ.
Qed.
(** ** Blocks: the transaction is on device [dev], and [ib] is the block of the inode *)
Context (ds dev ib : Z).
Notation fixed := (FileData.fixed sbk dev ib).
Notation ready := (FileData.ready sbk ds dev ib).
Notation room := (FileData.room sbk dev ib).
Notation new_block := (FileData.new_block sbk dev).
Notation nf := (FileData.nf sbk dev).
Notation finv := (FileData.finv sbk ds dev ib).
Notation grows := (FileData.grows sbk ds dev ib).
Notation wrote := (FileData.wrote sbk ds dev ib).
Notation file_inv := (FileData.file_inv sbk ds dev ib).
Notation others_kept := (FileData.others_kept sbk ds dev).
Notation written := (FileData.written sbk ds dev ib).
Lemma wp_balloc r l (Q : Z → fs T D → Prop) : ready l → room l 1 → 0 < nfree (tvw l (dev, bmb sbk)) (sb_size sbk) →
  (∀ b, ds <= b → bit_free (tvw l (dev, bmb sbk)) b = true → (dev, b) ∉ theld l) → (dev, bmb sbk) ∉ theld l → (size (theld l) ≤ 1)%nat →
  (∀ a l', ds <= a < sb_size sbk → bit_free (tvw l (dev, bmb sbk)) a = true →
    after l l' (new_block (tvw l) a) ({[(dev, a)]} ∪ ({[(dev, bmb sbk)]} ∪ tlogged l)) → Q a (st r l')) →
  wp (balloc dev) Q (st r l).
Proof.
  intros [Hi Hd Hmap] Hroom Hn Hfh Hbh Hsz HQ. pose proof (do_size _ _ _ _ _ Hd) as Hsize. pose proof (room_logged _ _ Hroom) as Hl.
  destruct (nfree_split _ _ Hn) as (a & Ha & Hfree & Hlow). pose proof (Hmap a Ha Hfree) as Hda.
  unfold balloc. apply wp_bind, wp_gets. change (sb (st r l)) with sbk.
  replace ((sb_size sbk + BPB - 1) / BPB) with 1.
  2: { unfold BPB, BSIZE, FSSIZE in *. apply (Z.div_unique _ _ _ (sb_size sbk - 1)); lia. }
  change (seqZ 0 1) with [0]. apply wp_bind. cbn [for_find]. change (0 * BPB) with 0. change (BBLOCK 0 sbk) with (bmb sbk).
  replace (Z.min BPB (sb_size sbk - 0)) with (sb_size sbk) by (unfold BPB, BSIZE, FSSIZE in *; lia).
  apply wp_bind, wp_bind, wp_bread; [done|apply (do_bm _ _ _ _ _ Hd)|done|lia|]. intros bp l1 T1 A1 C1 P1. pose proof T1 as T1'. destruct T1' as [].
  apply wp_bind. replace (sb_size sbk) with (a + (1 + (sb_size sbk - a - 1))) by lia. rewrite !seqZ_app, Z.add_0_l by lia.
  apply wp_for_find_skip.
  { intros b Hb%elem_of_seqZ. unfold try_bit, low, zoom, gets, mbind, M_bind, bmap. cbn.
    rewrite (t_data_law l1 bp (dev, bmb sbk)), tr_vw by done. rewrite land_bit by (apply Z.mod_pos_bound; lia).
    specialize (Hlow b ltac:(lia)). unfold bit_free in Hlow. by rewrite Hlow. }
  change (seqZ a 1) with [a]. cbn [app for_find]. apply wp_bind. unfold try_bit.
  apply wp_bind, (wp_data bp (dev, bmb sbk)); [done|done|]. rewrite tr_vw, land_bit by (apply Z.mod_pos_bound; lia).
  unfold bit_free in Hfree at 1. rewrite Hfree. fold (set_bit (tvw l (dev, bmb sbk)) a).
  apply (wp_set_log bp (dev, bmb sbk)); [done|done|rewrite tr_home; apply (do_bm _ _ _ _ _ Hd)|rewrite tr_cap, tr_logged; lia|].
  intros l2 [[] P2] A2 C2. apply wp_bind. eapply (wp_brelse bp (dev, bmb sbk) _ l l2); [|done|done|done|auto|].
  { split; try done; congruence. }
  intros l3 Hl3. pose proof Hl3 as Hl3'. destruct Hl3' as [[] P3]. apply wp_bind. unfold bzero.
  assert (room l3 1) as Hs3%room_logged.
  { eapply (room_same l); [congruence|..|done]. rewrite tr_logged1, ?tr_logged0, tr_logged. unfold fixed. set_solver. }
  change (0 + a) with a. unfold NBUF in *. apply (wp_update_end dev a (λ d, zero_bytes d 0 BSIZE)).
  - done.
  - rewrite tr_home1. apply (do_home _ _ _ _ _ Hd). lia.
  - rewrite tr_held1. by apply Hfh.
  - rewrite tr_held1. unfold NBUF. lia.
  - rewrite tr_cap1. lia.
  - intros l4 Hl4. apply wp_mret, wp_mret. apply HQ; [lia|done|].
    clear Hl. pose proof (after_trans _ _ _ _ _ _ _ Hl3 Hl4) as Hl. unfold new_block.
    rewrite tr_vw1, ?tr_vw0, tr_logged1, ?tr_logged0, tr_vw, tr_logged in Hl.
    rewrite fn_lookup_insert_ne in Hl; [done|]. intros [= E]. destruct (do_bm _ _ _ _ _ Hd). lia.
Qed.
Lemma wp_addrs r l j (Q : Z → fs T D → Prop) : length (i_addrs r) = 13%nat → 0 <= j <= NDIRECT →
  Q (default 0 (i_addrs r !! Z.to_nat j)) (st r l) → wp (aget (i_addrs r) j) Q (st r l).
Proof.
  intros Hlen Hj HQ. destruct nptr as (_ & Ed & _ & _).
  destruct (lookup_lt_is_Some_2 (i_addrs r) (Z.to_nat j)) as [x Hx]; [lia|]. rewrite Hx in HQ. by apply (wp_aget _ _ x); [lia|..].
Qed.
(** [bmap] of a block that is there only looks it up. *)
Lemma wp_bmap_hit bn r l (Q : Z → fs T D → Prop) : finv l r → 0 <= bn < MAXFILE → blk (tvw l) r bn ≠ 0 → room l 0 →
  (∀ l', after l l' (tvw l) (tlogged l) → Q (blk (tvw l) r bn) (st r l')) → wp (bmap ip bn) Q (st r l).
Proof.
  intros Hf Hbn Hz Hroom HQ. destruct nptr as (En & Ed & Em & Ei). pose proof (fo_len _ _ _ _ (fi_file _ _ Hf)) as Hlen.
  pose proof (rd_inv _ (fi_ready _ _ Hf)) as Hi. unfold bmap. apply wp_bind, wp_inode_at.
  destruct (Z.ltb_spec bn NDIRECT) as [Hd|Hd].
  - apply wp_bind, wp_addrs; [done|lia|]. rewrite <- (blk_direct (tvw l)), (proj2 (Z.eqb_neq _ _) Hz) by done.
    apply wp_mret, HQ. by apply after_refl.
  - rewrite (proj2 (Z.ltb_lt _ _)) by lia. apply wp_bind, wp_addrs; [done|lia|]. fold (ind_of r).
    assert (ind_of r ≠ 0) as Hiz.
    { intros E. apply Hz. unfold blk, pidx. rewrite (proj2 (Z.ltb_ge _ _) Hd). unfold ptr. rewrite (proj2 (Z.leb_gt _ _)) by lia. by rewrite E. }
    rewrite (proj2 (Z.eqb_neq _ _) Hiz). apply wp_bind, wp_mret. rewrite (fi_dev _ _ Hf).
    destruct (finv_ptr l r NDIRECT Hf) as (Hr & Hho & _); [lia|done|]. rewrite ptr_ind in *.
    apply wp_bind, wp_bread; [done|done|by rewrite (fi_held _ _ Hf)|by eapply (finv_room l r 0)|].
    intros h l1 T1 A1 C1 P1. pose proof T1 as T1'. destruct T1' as [].
    apply wp_bind, (wp_data h (dev, ind_of r)); [done|done|]. rewrite tr_vw.
    rewrite (blk_indirect (tvw l) r bn), (fi_dev _ _ Hf) in Hz, HQ by done. rewrite (proj2 (Z.eqb_neq _ _) Hz).
    apply wp_bind, wp_mret, wp_bind. eapply (wp_brelse h (dev, ind_of r) _ l l1); try done.
    by rewrite (fi_held _ _ Hf).
Qed.
(** The part of [bmap] behind the indirect block. *)
Lemma wp_bmap_entry i r l (Q : Z → fs T D → Prop) n : finv l r → 0 <= i < NINDIRECT → ind_of r ≠ 0 →
  get32 (tvw l (dev, ind_of r)) (4 * i) = 0 → room l (n + 1) → 1 <= n → 1 <= nf l →
  (∀ a l', grows 2 l r l' r → ((dev, ind_of r) ∈ tlogged l → grows 1 l r l' r) → ptr (tvw l') r (NDIRECT + 1 + i) = a → a ≠ 0 →
    (dev, a) ∈ tlogged l' → Q a (st r l')) →
  wp (bp ← low (t_bread dev (ind_of r)); a ← low (gets (t_data bp));
      addr ← (if get32 a (4 * i) =? 0 then
                addr ← balloc dev; a ← low (gets (t_data bp));
                low (t_set_data bp (put32 a (4 * i) addr)) ;; low (t_log_write bp) ;; mret addr
              else mret (get32 a (4 * i)));
      low (t_brelse bp) ;; mret addr) Q (st r l).
Proof.
  intros Hf Hi Hz Hnull Hroom Hn Hnf HQ. destruct nptr as (En & Ed & Em & Ei).
  pose proof Hf as Hf'. destruct Hf' as [[Hinv Hdisk Hmap] Hfile Hdev Hheld]. destruct (finv_bmb l r Hf) as [Hb Hds].
  destruct (finv_ptr l r NDIRECT Hf) as (Hr & Hho & Hbit); [lia|done|]. rewrite ptr_ind in *.
  apply wp_bind, wp_bread; [done|done|by rewrite Hheld|eapply (finv_room l r (n + 1)); (done || lia)|].
  intros h l1 T1 A1 C1 P1. pose proof T1 as T1'. destruct T1' as [].
  assert (theld l1 = {[(dev, ind_of r)]}) as Hh1 by (rewrite tr_held, Hheld; set_solver).
  apply wp_bind, (wp_data h (dev, ind_of r)); [done|done|]. rewrite tr_vw, Hnull. change (0 =? 0) with true. cbv iota.
  apply wp_bind, wp_bind, (wp_balloc r l1).
  - split; [done|by rewrite tr_home|by rewrite tr_vw].
  - eapply (room_same l); [done|rewrite tr_logged; set_solver|]. eapply room_weaken; [|done]. lia.
  - rewrite tr_vw. change (0 < nf l). lia.
  - intros b _ Hbf. rewrite Hh1, tr_vw in *. intros [= ->]%elem_of_singleton. congruence.
  - rewrite Hh1. intros [= E]%elem_of_singleton. lia.
  - rewrite Hh1, size_singleton. done.
  - intros a l2 Ha Hfree [[] P2]. rewrite tr_vw in *.
    apply wp_bind, (wp_data h (dev, ind_of r)); [done|auto|]. assert (a ≠ ind_of r) as Hai by (intros ->; congruence).
    rewrite tr_vw0, new_block_ne by (intros [=]; lia).
    assert (room l2 1) as Hr2.
    { eapply (room_one l _ _ (dev, a)); [congruence|rewrite tr_logged0, tr_logged; unfold fixed; set_solver|].
      eapply room_weaken; [|done]. lia. }
    apply (wp_set_log h (dev, ind_of r)); [done|auto|by rewrite tr_home0, tr_home|apply room_logged in Hr2; lia|].
    intros l3 [[] P3] A3 C3. apply wp_mret, wp_bind. eapply (wp_brelse h (dev, ind_of r) _ l l3); [|by rewrite Hheld|done|done|auto|].
    { split; try congruence; [rewrite tr_vw1, tr_vw0; done|rewrite tr_logged1, tr_logged0, tr_logged; done]. }
    intros l' Hl'. apply wp_mret. destruct (grows_entry i a l r l' Hf) as (G1 & G2 & G3 & G4); try done.
    apply HQ; try done. lia.
Qed.
(** [bmap] of a block that is not there: at most two new blocks. *)
Lemma wp_bmap_miss bn r l (Q : Z → fs T D → Prop) n : finv l r → 0 <= bn < MAXFILE → blk (tvw l) r bn = 0 →
  room l (n + 2) → 1 <= n → 2 <= nf l →
  (∀ a r' l', grows 2 l r l' r' → blk (tvw l') r' bn = a → a ≠ 0 → (dev, a) ∈ tlogged l' → Q a (st r' l')) →
  wp (bmap ip bn) Q (st r l).
Proof.
  intros Hf Hbn Hz Hroom Hn Hnf HQ. destruct nptr as (En & Ed & Em & Ei). pose proof (fo_len _ _ _ _ (fi_file _ _ Hf)) as Hlen.
  assert (∀ j (Q' : Z → fs T D → Prop), 0 <= j <= NDIRECT → ptr (tvw l) r j = 0 →
    (∀ a l', let r' := set_i_addrs (<[Z.to_nat j := a]> (i_addrs r)) r in grows 1 l r l' r' → ptr (tvw l') r' j = a →
      (dev, a) ∈ tlogged l' → a ≠ 0 → (∀ i, 0 <= i < NINDIRECT → get32 (tvw l' (dev, a)) (4 * i) = 0) → Q' a (st r' l')) →
    wp (addr ← balloc (i_dev r); iset ip (λ r, set_i_addrs (<[Z.to_nat j := addr]> (i_addrs r)) r) ;; mret addr) Q' (st r l)) as Hone.
  { intros j Q' Hj Hnull HQ'. rewrite (fi_dev _ _ Hf). destruct (finv_bmb l r Hf) as [Hb Hds].
    apply wp_bind, wp_balloc; [apply Hf|eapply room_weaken; [|done]; lia|change (0 < nf l); lia|..];
      [intros; rewrite (fi_held _ _ Hf); set_solver|rewrite (fi_held _ _ Hf); set_solver|by rewrite (fi_held _ _ Hf), size_empty by lia; lia|].
    intros a l' Ha Hfree Hl'. apply wp_bind, wp_iset, wp_mret.
    destruct (grows_addr j a l r l' Hf Hj Hnull Ha Hfree Hl') as (G1 & G2 & G3). apply HQ'; try done; [lia|].
    intros i Hi. destruct Hl' as [[] _]. rewrite tr_vw, new_block_new. by apply zero_get32. }
  unfold bmap. apply wp_bind, wp_inode_at. destruct (Z.ltb_spec bn NDIRECT) as [Hd|Hd].
  - apply wp_bind, wp_addrs; [done|lia|]. rewrite <- (blk_direct (tvw l)), Hz by done. change (0 =? 0) with true. cbv iota.
    apply Hone; [lia|by rewrite <- Hz; unfold blk, pidx; rewrite (proj2 (Z.ltb_lt _ _) Hd)|].
    intros a l' r' G1 G2 G3 Ha _. apply HQ; try done.
    + by eapply (grows_weaken 1).
    + rewrite <- G2. unfold blk, pidx. by rewrite (proj2 (Z.ltb_lt _ _) Hd).
  - rewrite (proj2 (Z.ltb_lt (bn - NDIRECT) _)) by lia. apply wp_bind, wp_addrs; [done|lia|]. fold (ind_of r).
    assert (∀ V r, blk V r bn = ptr V r (NDIRECT + 1 + (bn - NDIRECT))) as Hblk.
    { intros. unfold blk, pidx. rewrite (proj2 (Z.ltb_ge _ _) Hd). f_equal. lia. }
    destruct (Z.eqb_spec (ind_of r) 0) as [Hiz|Hiz].
    + apply wp_bind, Hone; [lia|done|]. intros a0 l1 r1 G1 G2 G3 Ha0 Hnew. rewrite (fi_dev _ _ Hf).
      pose proof (gr_inv _ _ _ _ _ G1) as Hf1. rewrite ptr_ind in G2. rewrite <- G2 in *.
      apply (wp_bmap_entry (bn - NDIRECT) r1 l1 _ n Hf1); [lia|done|apply Hnew; lia| |done| |].
      * apply (gr_room _ _ _ _ _ G1). by replace (n + 1 + 1) with (n + 2) by lia.
      * pose proof (gr_free _ _ _ _ _ G1). lia.
      * intros a l' _ G4 G5 Ha Hin. apply HQ; try done; [|by rewrite Hblk].
        eapply (grows_trans 1 1 l r l1 r1 l' r1); [done|by apply G4].
    + apply wp_bind, wp_mret. rewrite (fi_dev _ _ Hf).
      apply (wp_bmap_entry (bn - NDIRECT) r l _ n Hf); [lia|done| |eapply room_weaken; [|done]; lia|done|lia|].
      * rewrite blk_indirect, (fi_dev _ _ Hf) in Hz by done. done.
      * intros a l' G4 _ G5 Ha Hin. apply HQ; try done. by rewrite Hblk.
Qed.
(** Both cases together; afterwards there is room to log the block. *)
Lemma wp_bmap bn r l (Q : Z → fs T D → Prop) n : finv l r → 0 <= bn < MAXFILE → room l (n + 2) → 1 <= n → 2 <= nf l →
  (∀ a r' l', grows 2 l r l' r' → blk (tvw l') r' bn = a → a ≠ 0 → room l' 1 →
    (∀ l'' k, tcap l'' = tcap l' → tlogged l'' = {[(dev, a)]} ∪ tlogged l' → room l (k + 2) → room l'' k) →
    (blk (tvw l) r bn ≠ 0 → r' = r) → Q a (st r' l')) →
  wp (bmap ip bn) Q (st r l).
Proof.
  intros Hf Hbn Hroom Hn Hnf HQ. destruct (decide (blk (tvw l) r bn = 0)) as [Hz|Hz].
  - apply (wp_bmap_miss bn r l _ n); try done. intros a r' l' G Hb Ha Hin. pose proof (gr_room _ _ _ _ _ G n Hroom) as Hr.
    apply HQ; try done; [by eapply room_weaken|]. intros l'' k Hc Hl Hk. apply (gr_room _ _ _ _ _ G) in Hk.
    eapply (room_same l'); [done|rewrite Hl; set_solver|done].
  - apply wp_bmap_hit; try done; [eapply room_weaken; [|done]; lia|]. intros l' Hl'. pose proof (finv_after _ _ _ _ Hf Hl') as Hf'.
    destruct Hl' as [[] _]. assert (∀ k, room l k → room l' k) as Hrs by (intros k; apply room_same; [done|rewrite tr_logged; set_solver]).
    apply HQ; try done.
    + split; try done.
      * rewrite tr_vw. apply evolves_refl.
      * by rewrite tr_vw.
      * unfold nf. rewrite tr_vw. lia.
      * intros k Hk. apply Hrs. eapply room_weaken; [|done]. lia.
    + by rewrite tr_vw.
    + apply Hrs. eapply room_weaken; [|done]. lia.
    + intros l'' k Hc Hl Hk. eapply (room_one l' _ _ (dev, blk (tvw l) r bn)); [done|rewrite Hl; set_solver|].
      apply Hrs. eapply room_weaken; [|done]. lia.
Qed.
Lemma wp_write_loop fuel src off n r l (Q : Z → fs T D → Prop) : finv l r → 0 <= off → off + n <= MAXFILE * BSIZE →
  n = Z.of_nat (length src) → rounds off n <= Z.of_nat fuel → room l (2 * rounds off n + 1) → 2 * rounds off n <= nf l →
  (∀ r' l', wrote (2 * rounds off n) off src l r l' r' → Q (off + n) (st r' l')) →
  wp (write_loop fuel ip src off n) Q (st r l).
Proof.
  revert src off n r l. induction fuel as [|fuel IH]; intros src off n r l Hf Hoff Hmax Hn Hfuel Hroom Hnf HQ; cbn [write_loop];
    (destruct (Z.leb_spec n 0) as [Hz|Hz];
     [destruct src; [|simpl in Hn; lia]; subst n; rewrite Z.add_0_r in HQ; apply wp_mret, HQ, wrote_nil, Hf|]);
    destruct (rounds_step off n Hoff Hz) as (Hm0 & Hm & Hr & Hrn); [lia|].
  set (m := Z.min n (BSIZE - off mod BSIZE)) in *. rewrite Hr in *.
  assert (off / BSIZE < MAXFILE) as Hblk by (apply Z.div_lt_upper_bound; [done|lia]).
  assert (0 <= off / BSIZE) as Hblk0 by (by apply Z.div_pos).
  apply wp_bind, wp_inode_at, wp_bind. apply (wp_bmap _ _ _ _ (2 * rounds (off + m) (n - m) + 1)); [done|lia| |lia|lia|].
  { eapply room_weaken; [|done]. lia. }
  intros a r1 l1 G Hb Ha Hr1 Hroom2 Hsame. rewrite (fi_dev _ _ Hf). pose proof (gr_inv _ _ _ _ _ G) as Hf1.
  destruct (pidx_range (off / BSIZE) ltac:(lia)) as [Hp _].
  destruct (finv_ptr l1 r1 _ Hf1 Hp) as (_ & Hho & _); [by rewrite <- Hb in Ha|]. change (ptr (tvw l1) r1 (pidx (off / BSIZE))) with (blk (tvw l1) r1 (off / BSIZE)) in Hho. rewrite Hb in Hho.
  apply (wp_update dev a (λ d, put_list d (off mod BSIZE) (take (Z.to_nat m) src))).
  - apply Hf1.
  - done.
  - rewrite (fi_held _ _ Hf1). set_solver.
  - by eapply (finv_room l1 r1 1).
  - apply room_logged in Hr1. lia.
  - intros l2 Hl2. assert (length (take (Z.to_nat m) src) = Z.to_nat m) as Hlen by (rewrite length_take; lia).
    assert (wrote 2 off (take (Z.to_nat m) src) l r l2 r1) as Hw.
    { eapply (wrote_round off _ l r l1 r1 l2 a); try done; try lia.
      - intros E. rewrite E in Hlen. simpl in Hlen. lia.
      - intros k _ Hk. destruct Hl2 as [[] _]. by apply (Hroom2 l2). }
    rewrite u32_small by (unfold MAXFILE, NDIRECT, NINDIRECT, BSIZE in *; change (512 / 4) with 128 in *; lia).
    apply (IH _ _ _ _ _ (wr_inv _ _ _ _ _ _ _ Hw)); try lia.
    + rewrite length_drop. lia.
    + apply (wr_room _ _ _ _ _ _ _ Hw); [lia|]. eapply room_weaken; [|done]. lia.
    + pose proof (wr_free _ _ _ _ _ _ _ Hw). lia.
    + intros r' l' Hw'. replace (off + m + (n - m)) with (off + n) by lia. apply HQ.
      replace src with (take (Z.to_nat m) src ++ drop (Z.to_nat m) src) by apply take_drop.
      replace (2 * (1 + rounds (off + m) (n - m))) with (2 + 2 * rounds (off + m) (n - m)) by lia.
      eapply (wrote_app _ _ _ _ _ _ _ l2 r1); try done; [|lia|].
      * rewrite <- length_app, take_drop. lia.
      * rewrite Hlen, Z2Nat.id by lia. done.
Qed.
Lemma wp_read_loop fuel off n r l (Q : list Z → fs T D → Prop) : finv l r → 0 <= off → 0 <= n → off + n <= MAXFILE * BSIZE →
  (∀ o, off <= o < off + n → blk (tvw l) r (o / BSIZE) ≠ 0) → rounds off n <= Z.of_nat fuel → room l 0 →
  (∀ l', after l l' (tvw l) (tlogged l) → Q (fbytes (tvw l) r off n) (st r l')) →
  wp (read_loop fuel ip off n) Q (st r l).
Proof.
  revert off n l Q. induction fuel as [|fuel IH]; intros off n l Q Hf Hoff Hn Hmax Hall Hfuel Hroom HQ; cbn [read_loop];
    (destruct (Z.leb_spec n 0) as [Hz|Hz];
     [replace n with 0 in * by lia; apply wp_mret, (HQ l), after_refl; apply Hf|]);
    destruct (rounds_step off n Hoff Hz) as (Hm0 & Hm & Hr & Hrn); [lia|].
  set (m := Z.min n (BSIZE - off mod BSIZE)) in *. rewrite Hr in *.
  assert (off / BSIZE < MAXFILE) as Hblk by (apply Z.div_lt_upper_bound; [done|lia]).
  assert (0 <= off / BSIZE) as Hblk0 by (by apply Z.div_pos).
  assert (blk (tvw l) r (off / BSIZE) ≠ 0) as Hz0 by (apply Hall; lia).
  apply wp_bind, wp_inode_at, wp_bind, wp_bmap_hit; [done..|]. intros l1 Hl1. rewrite (fi_dev _ _ Hf).
  destruct (pidx_range (off / BSIZE) ltac:(lia)) as [Hp _]. pose proof (finv_after _ _ _ _ Hf Hl1) as Hf1.
  pose proof Hl1 as [[] _].
  destruct (finv_ptr l r _ Hf Hp Hz0) as (_ & Hho & _). fold (blk (tvw l) r (off / BSIZE)) in Hho.
  assert (room l1 0) as Hroom1 by (apply (room_same l); [done|rewrite tr_logged; set_solver|done]).
  apply (wp_read dev (blk (tvw l) r (off / BSIZE)) r l1 (λ d, l ← read_loop fuel ip (u32 (off + m)) (n - m); mret (bytes_of d (off mod BSIZE) m ++ l))).
  - done.
  - by rewrite tr_home.
  - rewrite (fi_held _ _ Hf1). set_solver.
  - by eapply (finv_room l1 r 0).
  - intros l2 Hl2. pose proof (finv_after _ _ _ _ Hf1 Hl2) as Hf2. pose proof (after_trans _ _ _ _ _ _ _ Hl1 Hl2) as Hl3.
    rewrite tr_vw, tr_logged in Hl3. pose proof Hl3 as [[] _].
    rewrite u32_small by (unfold MAXFILE, NDIRECT, NINDIRECT, BSIZE in *; change (512 / 4) with 128 in *; lia).
    apply wp_bind. apply IH; try done; try lia.
    + intros o Ho. rewrite tr_vw0. apply Hall. lia.
    + eapply (room_same l); [done|rewrite tr_logged0; set_solver|done].
    + intros l4 Hl4. rewrite tr_vw0, tr_logged0 in Hl4. apply wp_mret. rewrite tr_vw, tr_vw0, <- (fi_dev _ _ Hf).
      rewrite bytes_of_fbytes by lia. unfold fbytes. rewrite <- fmap_app, <- seqZ_app by lia. replace (m + (n - m)) with n by lia.
      apply HQ. pose proof (after_trans _ _ _ _ _ _ _ Hl3 Hl4) as Hl5. done.
Qed.
Lemma wp_iupdate r l (Q : () → fs T D → Prop) : finv l r → IBLOCK (i_inum r) sbk = ib → room l 1 →
  (∀ l', after l l' (<[(dev, ib) := dinode_put r (tvw l (dev, ib))]> (tvw l)) ({[(dev, ib)]} ∪ tlogged l) → Q () (st r l')) →
  wp (iupdate ip) Q (st r l).
Proof.
  intros Hf Hib Hroom HQ. unfold iupdate. apply wp_bind, wp_gets. change (sb (st r l)) with sbk.
  apply wp_bind, wp_inode_at. rewrite (fi_dev _ _ Hf), Hib. apply (wp_update_end dev ib (dinode_put r)).
  - apply Hf.
  - apply (do_ib _ _ _ _ _ (rd_disk _ (fi_ready _ _ Hf))).
  - rewrite (fi_held _ _ Hf). set_solver.
  - by eapply (finv_room l r 1).
  - apply room_logged in Hroom. lia.
  - done.
Qed.
Lemma wp_writei off src r l (Q : Z → fs T D → Prop) : let n := Z.of_nat (length src) in
  file_inv l r → 0 <= off <= i_size r → off + n <= MAXFILE * BSIZE → room l (2 * rounds off n + 1) → 2 * rounds off n <= nf l →
  (∀ r' l', written off src l r l' r' → Q n (st r' l')) → wp (writei ip src off n) Q (st r l).
Proof.
  intros n [Hf Hfull Hsize Htype Hib Hsync] Hoff Hmax Hroom Hnf HQ.
  assert (MAXFILE * BSIZE = 71680) as Em by done. destruct (chunks_rounds off n) as [Hr0 Hrc]; [lia..|].
  unfold writei. apply wp_bind, wp_inode_at. rewrite (proj2 (Z.eqb_neq _ _) Htype).
  rewrite (u32_small (off + n)) by lia. rewrite (proj2 (Z.ltb_ge (i_size r) off)), (proj2 (Z.ltb_ge (off + n) off)) by lia.
  rewrite (proj2 (Z.ltb_ge (MAXFILE * BSIZE) _)) by lia. cbn [orb]. rewrite s32_small by lia.
  apply wp_bind, (wp_write_loop _ _ _ _ _ _ _ Hf); try done; try lia. intros r1 l1 [].
  assert (i_size r1 = i_size r ∧ i_type r1 = i_type r ∧ i_inum r1 = i_inum r) as (Es & Et & Ei).
  { rewrite (ev_fields _ _ _ _ _ wr_ev). done. }
  assert (∀ r', i_addrs r' = i_addrs r1 → i_dev r' = i_dev r1 → i_size r' = Z.max (i_size r) (off + n) →
    content l1 r' = splice (Z.to_nat off) src (content l r)) as Hcont.
  { intros r' E1 E2 E3. unfold content. rewrite E3. apply fbytes_splice; [lia|]. intros o Ho. rewrite <- wr_byte by lia.
    unfold fbyte, blk, ptr, ind_of. by rewrite E1, E2. }
  assert (∀ o, 0 <= o < Z.max (i_size r) (off + n) → blk (tvw l1) r1 (o / BSIZE) ≠ 0) as Hfull1.
  { intros o Ho. destruct (decide (off <= o < off + n)); [by apply wr_blk|]. eapply (evolves_blk (tvw l) r); [done| |apply Hfull; lia].
    unfold BSIZE in *. split; [apply Z.div_pos; lia|apply Z.div_lt_upper_bound; lia]. }
  assert (room l1 1) as Hroom1 by (apply wr_room; [lia|]; by rewrite Z.add_comm).
  pose proof (log_bound l l1 (2 * rounds off n) ltac:(lia) Hroom wr_room wr_cap) as Hlog.
  pose proof (ib_frame l r l1 r1 Hf wr_inv wr_ev) as Hibf. pose proof (others_evolves l r l1 r1 Hf wr_inv wr_ev) as Hoth.
  apply wp_bind, wp_inode_at. rewrite Es. apply wp_bind, wp_when.
  destruct ((0 <? n) && (i_size r <? off + n)) eqn:Egrow; zbool.
  - apply wp_bind, wp_iset. set (r2 := set_i_size (off + n) r1). pose proof (finv_size l1 r1 (off + n) wr_inv) as Hf2. fold r2 in Hf2.
    apply wp_iupdate; [done|cbn; congruence|done|]. intros l2 Hl2. apply wp_mret, HQ.
    assert (inode_range r2) as Hrange.
    { destruct (sync_fields _ _ Hsync) as (? & ? & ? & ?). 
      assert (i_major r1 = i_major r ∧ i_minor r1 = i_minor r ∧ i_nlink r1 = i_nlink r) as (E1 & E2 & E3) by (rewrite (ev_fields _ _ _ _ _ wr_ev); done).
      split; cbn; rewrite ?Et, ?E1, ?E2, ?E3; try done; [lia|]. by eapply (addrs_range l1). }
    pose proof Hl2 as [[] _]. pose proof (fo_len _ _ _ _ (fi_file _ _ Hf2)) as Hlen2. split; try congruence.
    + split; try done; cbn; try lia; try congruence.
      * by apply (set_inode_finv l1 l2 r2 (dinode_put r2 (tvw l1 (dev, ib))) _ Hf2 Hl2).
      * intros o Ho. unfold blk. rewrite (set_inode_ptr l1 l2 r2 _ _ Hf2 Hl2); [apply Hfull1; cbn in Ho; lia|apply (fi_file _ _ Hf2)|apply (fi_dev _ _ Hf2)|].
        destruct (pidx_range (o / BSIZE)) as [Hp _]; [|done]. unfold BSIZE in *. cbn in Ho. split; [apply Z.div_pos; lia|apply Z.div_lt_upper_bound; lia].
      * rewrite tr_vw, fn_lookup_insert. by apply dinode_roundtrip.
    + transitivity (set_i_size (off + n) (set_i_addrs (i_addrs r1) r)); [|done]. by rewrite <- (ev_fields _ _ _ _ _ wr_ev).
    + rewrite <- (Hcont r2); [|done|done|cbn; lia]. apply fbytes_same. intros i Hi.
      eapply (set_inode_byte l1 l2 r2 _ _ Hf2 Hl2); [apply (fi_file _ _ Hf2)|apply (fi_dev _ _ Hf2)|]. cbn in Hi. lia.
    + intros r3 Hr3 Hd3 Hdis. destruct (Hoth r3 Hr3 Hd3 Hdis) as [Hr3' Hb3]. split; [by apply (set_inode_file l1 l2 r2 _ _ Hf2 Hl2)|].
      intros o Ho. rewrite (set_inode_byte l1 l2 r2 _ _ Hf2 Hl2) by done. by apply Hb3.
    + intros o Ho. rewrite tr_vw, fn_lookup_insert, dinode_put_out, Hibf; try done. cbn. by rewrite Ei.
    + rewrite tr_logged. fold n. assert (size ({[(dev, ib)]} ∪ tlogged l1) ≤ size (tlogged l1 ∪ fixed))%nat; [|lia].
      apply subseteq_size. unfold fixed. set_solver.
    + fold n. unfold nf in *. rewrite (set_inode_map l1 l2 r2 _ _ Hf2 Hl2). done.
  - assert (r1 = r) as ->.
    { apply wr_same. intros o Ho. apply Hfull. apply andb_false_iff in Egrow as [E|E]; zbool; lia. }
    assert (off + n <= i_size r) as Hle by (apply andb_false_iff in Egrow as [E|E]; zbool; lia).
    apply wp_mret, HQ. split; try done.
    + split; try done; [|by rewrite Hibf]. intros o Ho. apply Hfull1. lia.
    + by destruct r.
    + apply Hcont; [done..|lia].
    + intros o _. by rewrite Hibf.
    + fold n. assert (size (tlogged l1) ≤ size (tlogged l1 ∪ fixed))%nat; [|lia]. apply subseteq_size. set_solver.
Qed.
Lemma wp_readi off n r l (Q : Z * list Z → fs T D → Prop) : file_inv l r → 0 <= off <= i_size r → 0 <= n → off + n < 2 ^ 32 → room l 0 →
  (∀ l', after l l' (tvw l) (tlogged l) → let bs := take (Z.to_nat n) (drop (Z.to_nat off) (content l r)) in
    Q (Z.of_nat (length bs), bs) (st r l')) → wp (readi ip off n) Q (st r l).
Proof.
  intros [Hf Hfull Hsize Htype Hib Hsync] Hoff Hn Hmax Hroom HQ. assert (MAXFILE * BSIZE = 71680) as Em by done.
  unfold readi. apply wp_bind, wp_inode_at. rewrite (proj2 (Z.eqb_neq _ _) Htype).
  rewrite (u32_small (off + n)) by lia. rewrite (proj2 (Z.ltb_ge (i_size r) off)), (proj2 (Z.ltb_ge (off + n) off)) by lia.
  cbn [orb]. set (m := if i_size r <? off + n then u32 (i_size r - off) else n).
  assert (m = Z.min n (i_size r - off)) as Hm by (unfold m; rewrite u32_small by lia; destruct (Z.ltb_spec (i_size r) (off + n)); lia).
  destruct (chunks_rounds off m) as [_ Hrc]; [lia..|]. apply wp_bind, (wp_read_loop _ _ _ _ _ _ Hf); try done; try lia.
  { intros o Ho. apply Hfull. lia. }
  intros l' Hl'. apply wp_mret. specialize (HQ l' Hl'). cbn zeta in HQ.
  replace (take (Z.to_nat n) (drop (Z.to_nat off) (content l r))) with (fbytes (tvw l) r off m) in HQ.
  - rewrite length_fbytes, Z2Nat.id in HQ by lia. by rewrite s32_small by lia.
  - unfold content. replace (i_size r) with (off + (m + (i_size r - off - m))) by lia.
    rewrite fbytes_app, drop_app_length' by (rewrite ?length_fbytes; lia). rewrite fbytes_app, Z.add_0_l by lia.
    destruct (decide (m = n)) as [->|Hmn].
    + by rewrite take_app_length' by (rewrite length_fbytes; lia).
    + replace (i_size r - off - m) with 0 by lia. rewrite app_nil_r. symmetry. apply take_ge. rewrite length_fbytes. lia.
Qed.
End ops.

Lemma st_eta {T D} (s : fs T D) ip r : icache s !! ip = Some r → st s ip r (lg s) = s.
Proof. intros Hr. destruct s. unfold st, set_icache, set_lg. cbn in *. by rewrite list_insert_id. Qed.

Lemma inode_at_Ret {T D} (s : fs T D) ip r : icache s !! ip = Some r → inode_at ip s = Ret r s.
Proof.
  intros Hr. unfold inode_at, gets, aget, mbind, M_bind. destruct (Z.ltb_spec (Z.of_nat ip) 0); [lia|]. by rewrite Nat2Z.id, Hr.
Qed.

(** C20: [writei] on a file that keeps its invariant splices the bytes into its content, keeps the
    invariant, and changes no other file, no other inode and at most two blocks for each block
    written, besides the bitmap and the inode; outside the file or beyond its largest size it does
    nothing and returns -1.  It returns when the log has room and the disk has free blocks. *)
Theorem writei_refines {T D} `{TransactionLaws T} `{Devices D} (s : fs T D) ip r ds dev ib off src :
  icache s !! ip = Some r → file_inv (sb s) ds dev ib (lg s) r → 0 <= off < 2 ^ 32 → Z.of_nat (length src) < 2 ^ 32 →
  let n := Z.of_nat (length src) in
  if decide (off <= i_size r ∧ off + n <= MAXFILE * BSIZE)
  then room (sb s) dev ib (lg s) (2 * rounds off n + 1) → 2 * rounds off n <= nf (sb s) dev (lg s) →
    ∃ r' l', writei ip src off n s = Ret n (st s ip r' l') ∧ written (sb s) ds dev ib off src (lg s) r l' r'
  else writei ip src off n s = Ret (-1) s.
Proof.
  intros Hr Hinv Hoff Hlen n. assert (MAXFILE * BSIZE = 71680) as Em by done. case_decide as Hok.
  - intros Hroom Hnf. pose proof (wp_writei s ip (lookup_lt_Some _ _ _ Hr) ds dev ib off src r (lg s)
      (λ a s', a = n ∧ ∃ r' l', s' = st s ip r' l' ∧ written (sb s) ds dev ib off src (lg s) r l' r')) as Hwp.
    rewrite (st_eta s ip r Hr) in Hwp. apply wp_returns in Hwp as (a & s' & Hm & -> & r' & l' & -> & Hw); [by eauto|done|lia|lia|done|done|].
    intros r' l' Hw. split; [done|]. by eauto.
  - unfold writei. rewrite (bind_Ret _ _ _ _ _ (inode_at_Ret s ip r Hr)). rewrite (proj2 (Z.eqb_neq _ _) (vi_type _ _ Hinv)). pose proof (vi_size _ _ Hinv).
    destruct (Z.ltb_spec (i_size r) off); [done|]. destruct (Z.ltb_spec (u32 (off + n)) off) as [|Hu]; [done|]. cbn [orb].
    destruct (Z.ltb_spec (MAXFILE * BSIZE) (u32 (off + n))) as [|Hu2]; [done|]. exfalso.
    destruct (decide (off + n < 2 ^ 32)); [rewrite u32_small in * by lia; lia|].
    assert (u32 (off + n) = off + n - 2 ^ 32) as E.
    { unfold u32. symmetry. apply (Z.mod_unique_pos _ _ 1); lia. }
    lia.
Qed.

(** C21: [readi] on a file that keeps its invariant returns the bytes from [off] on, [n] of them or up
    to the end of the file, and changes nothing on the disk; from beyond the end, or where
    [off + n] overflows, it returns -1. *)
Theorem readi_refines {T D} `{TransactionLaws T} `{Devices D} (s : fs T D) ip r ds dev ib off n :
  icache s !! ip = Some r → file_inv (sb s) ds dev ib (lg s) r → 0 <= off < 2 ^ 32 → 0 <= n < 2 ^ 32 → room (sb s) dev ib (lg s) 0 →
  if decide (off <= i_size r ∧ off + n < 2 ^ 32)
  then ∃ l', let bs := take (Z.to_nat n) (drop (Z.to_nat off) (content (lg s) r)) in
    readi ip off n s = Ret (Z.of_nat (length bs), bs) (st s ip r l') ∧ after (lg s) l' (tvw (lg s)) (tlogged (lg s)) ∧
    file_inv (sb s) ds dev ib l' r
  else readi ip off n s = Ret (-1, []) s.
Proof.
  intros Hr Hinv Hoff Hn Hroom. assert (MAXFILE * BSIZE = 71680) as Em by done. case_decide as Hok.
  - set (bs := take _ _). pose proof (wp_readi s ip (lookup_lt_Some _ _ _ Hr) ds dev ib off n r (lg s)
      (λ a s', a = (Z.of_nat (length bs), bs) ∧ ∃ l', s' = st s ip r l' ∧ after (lg s) l' (tvw (lg s)) (tlogged (lg s)))) as Hwp.
    rewrite (st_eta s ip r Hr) in Hwp. apply wp_returns in Hwp as (a & s' & Hm & -> & l' & -> & Ha); [|done|lia|lia|lia|done|].
    + exists l'. split; [done|]. split; [done|]. destruct Hinv as [Hf Hfull Hsize Htype Hib Hsync].
      pose proof (finv_after _ _ _ _ Hf Ha) as Hf'. destruct Ha as [[] _]. by split; rewrite ?tr_vw.
    + intros l' Ha. split; [done|]. by eauto.
  - unfold readi. rewrite (bind_Ret _ _ _ _ _ (inode_at_Ret s ip r Hr)). rewrite (proj2 (Z.eqb_neq _ _) (vi_type _ _ Hinv)).
    destruct (Z.ltb_spec (i_size r) off); [done|]. destruct (Z.ltb_spec (u32 (off + n)) off) as [|Hu]; [done|]. exfalso.
    assert (u32 (off + n) = off + n - 2 ^ 32) as E.
    { unfold u32. symmetry. apply (Z.mod_unique_pos _ _ 1); lia. }
    lia.
Qed.

(** * An empty file or directory on a formatted disk, in a system call that has just begun *)
Definition no_devices : Devices () := {| dev_read _ := None; dev_write _ := None |}.
#[local] Existing Instance no_devices.
Definition mkfs_sb : superblock := mkSb 1000 941 200 30 2 32 58.
Definition new_inode (type : Z) : inode := mkInode 1 2 1 (mkSl true 1) true type 0 0 1 0 (replicate 13 0).
Definition empty_file : inode := new_inode T_FILE.
Definition mkfs_disk (r : inode) : blkid → blockdata :=
  <[(1, 58) := λ o, if o <? 7 then 255 else if o =? 7 then 7 else 0]> (<[(1, 32) := dinode_put r (λ _, 0)]> zero_disk).
Definition in_call (r : inode) (c : bst) : fs (log bst) () := mkFs [r] mkfs_sb 0 0 1 () (begun c).

Lemma new_inode_inv type : type = T_FILE ∨ type = T_DIR → let r := new_inode type in ∃ c, file_inv mkfs_sb 59 1 32 (begun c) r ∧ room mkfs_sb 1 32 (begun c) 23 ∧
  nf mkfs_sb 1 (begun c) = 941.
Proof.
  intros Htype r. destruct (begun_on (mkfs_disk r)) as (c & Hi & Hh & Hp & Hd); [by destruct Htype as [-> | ->]; vm_compute|]. exists c.
  assert (tinv (begun c)) as Ht by (split; [done|split; [done|vm_compute; done]]).
  assert (tlogged (begun c) = ∅) as Hlog by done.
  assert (∀ k, tvw (begun c) k = mkfs_disk r k) as Hv.
  { intros k. rewrite (t_disk_law (begun c) k Ht); [change (dsk c k = mkfs_disk r k); rewrite Hd; case_decide as Hdev; [done|]|rewrite Hlog; set_solver|change (k ∉ hld c); rewrite Hh; set_solver].
    unfold mkfs_disk. rewrite !fn_lookup_insert_ne; [done|..]; intros <-; apply Hdev; by left. }
  assert (∀ V j, 0 <= j < NPTR → ptr V r j = 0) as Hptr.
  { intros V j Hj. unfold ptr. destruct (Z.leb_spec j NDIRECT); [|done]. change (i_addrs r) with (replicate 13 0). unfold NDIRECT in *.
    destruct (lookup_lt_is_Some_2 (replicate 13 0) (Z.to_nat j)) as [x Hx]; [rewrite length_replicate; lia|].
    rewrite Hx. by apply lookup_replicate in Hx as [-> _]. }
  split; [|split].
  - split; [|intros o Ho; cbn in Ho; lia|destruct Htype as [-> | ->]; split; vm_compute; done|destruct Htype as [-> | ->]; vm_compute; done|done|rewrite Hv; destruct Htype as [-> | ->]; by vm_compute].
    split; [split; [done| |]|split; [done|..]|done|exact Hh].
    + split; cbn; unfold FSSIZE, in_log; cbn; unfold LOGSIZE; try lia.
      * change (bmb mkfs_sb) with 58. lia.
      * change (bmb mkfs_sb) with 58. lia.
    + intros b Hb. change (sb_size _) with 1000 in Hb. change (bmb _) with 58. rewrite Hv. intros Hf.
      destruct (decide (59 <= b)) as [|Hlt]; [done|]. exfalso.
      assert (Forall (λ b, bit_free (mkfs_disk r (1, 58)) b = false) (seqZ 0 59)) as Ha by (vm_compute; repeat constructor).
      rewrite Forall_forall in Ha. rewrite Ha in Hf; [done|]. apply elem_of_seqZ. lia.
    + intros j Hj. by rewrite Hptr.
    + intros j j' Hj Hj'. by rewrite Hptr.
  - unfold room. rewrite Hlog. change (tcap (begun c)) with 29. unfold fixed, NBUF. change (bmb _) with 58.
    rewrite (left_id_L ∅ (∪)), size_union by set_solver. rewrite !size_singleton. lia.
  - unfold nf. change (bmb _) with 58. change (sb_size _) with 1000. rewrite Hv. vm_compute. done.
Qed.
Lemma writei_refines_witness : ∃ (s s' : fs (log bst) ()), writei 0 (replicate 600 7) 0 600 s = Ret 600 s'.
Proof.
  destruct (new_inode_inv T_FILE (or_introl eq_refl)) as (c & Hi & Hr & Hn). change (new_inode T_FILE) with empty_file in Hi.
  pose proof (writei_refines (in_call empty_file c) 0 empty_file 59 1 32 0 (replicate 600 7) eq_refl Hi ltac:(done) ltac:(done)) as Hw.
  cbn zeta in Hw. change (lg (in_call empty_file c)) with (begun c) in Hw. change (sb (in_call empty_file c)) with mkfs_sb in Hw. rewrite decide_True in Hw by (vm_compute; done).
  destruct Hw as (r' & l' & Hm & _).
  { apply (room_weaken (begun c) 23); [vm_compute; done|exact Hr]. }
  { rewrite Hn. vm_compute. done. }
  exists (in_call empty_file c), (st (in_call empty_file c) 0 r' l'). exact Hm.
Defined.
Lemma readi_refines_witness : ∃ (s s' : fs (log bst) ()), readi 0 598 100 s = Ret (2, [7; 7]) s'.
Proof.
  destruct (new_inode_inv T_FILE (or_introl eq_refl)) as (c & Hi & Hr & Hn). change (new_inode T_FILE) with empty_file in Hi.
  assert (wp (writei 0 (replicate 600 7) 0 600) (λ _ s', ∃ r' l', s' = st (in_call empty_file c) 0 r' l' ∧
    written mkfs_sb 59 1 32 0 (replicate 600 7) (begun c) empty_file l' r') (in_call empty_file c)) as Hwp.
  { rewrite <- (st_eta (in_call empty_file c) 0 empty_file eq_refl). change 600 with (Z.of_nat (length (replicate 600 7))).
    apply (wp_writei (in_call empty_file c) 0 (le_n 1) 59 1 32 0); [exact Hi|done|vm_compute; done|..].
    - apply (room_weaken (begun c) 23); [vm_compute; done|exact Hr].
    - change (2 * rounds 0 (Z.of_nat (length (replicate 600 7))) <= nf mkfs_sb 1 (begun c)). rewrite Hn. vm_compute. done.
    - intros r' l' Hw. by eauto. }
  apply wp_returns in Hwp as (a & s1 & _ & r' & l' & -> & []).
  exists (st (in_call empty_file c) 0 r' l').
  pose proof (readi_refines (st (in_call empty_file c) 0 r' l') 0 r' 59 1 32 598 100 eq_refl wn_inv ltac:(done) ltac:(done)) as Hrd.
  assert (i_size r' = 600) as Hs.
  { apply (f_equal (λ l, Z.of_nat (length l))) in wn_content. unfold content in wn_content.
    rewrite length_fbytes in wn_content. pose proof (vi_size _ _ wn_inv). rewrite Z2Nat.id in wn_content by lia.
    rewrite wn_content. vm_compute. done. }
  rewrite decide_True in Hrd by (rewrite Hs; done).
  destruct Hrd as (l2 & Hm & _).
  { unfold room. change (lg (st (in_call empty_file c) 0 r' l')) with l'. rewrite wn_cap. change (tcap (begun c)) with 29.
    change (tlogged (begun c)) with (∅ : gset blkid) in wn_log. rewrite size_empty in wn_log.
    replace (rounds 0 (Z.of_nat (length (replicate 600 7)))) with 2 in wn_log by (vm_compute; done). pose proof (size_union_le (tlogged l') (fixed mkfs_sb 1 32)) as Hu.
    pose proof (size_union_le {[ (1, bmb mkfs_sb) ]} {[ (1, 32) ]}) as Hfx. rewrite !size_singleton in Hfx.
    change (sb (st (in_call empty_file c) 0 r' l')) with mkfs_sb. unfold fixed in *. unfold NBUF. lia. }
  exists (st (st (in_call empty_file c) 0 r' l') 0 r' l2). change (lg (st (in_call empty_file c) 0 r' l')) with l' in Hm.
  rewrite wn_content in Hm. exact Hm.
Defined.
