(* ===== verification/Files.v ===== *)
(** * Open files and pipes (src/07_xv6_File_System/PartA/file.c and pipe.c)

    A [struct file *] is an index into ftable, a [struct pipe *] the number of a page that
    [pipes] holds while it is a pipe.  What kalloc gives [pipealloc] is an argument; wakeups are
    left to the scheduler.  A process that sleeps in [pipewrite] or [piperead] goes on from there:
    a turn ends asleep, with the progress so far, or returns.

    The second half shows that a pipe is a queue of at most [PIPESIZE] bytes, over any number of
    turns of readers and writers and across the wrap-around of the two counters. *)

From S2P Require Import Prelude Bio Blocks Log Txn Fs FileData.

Definition NFILE : nat := 100.
Definition PIPESIZE : Z := 512.
Inductive file_type := FD_NONE | FD_PIPE | FD_INODE.
#[export] Instance file_type_eq_dec : EqDecision file_type.
Proof. solve_decision. Defined.
Record file := mkFile {
  f_type : file_type;  (* type *)
  f_ref : Z;  (* ref *)
  readable : Z;
  writable : Z;
  f_pipe : nat;  (* pipe *)
  f_ip : nat;  (* ip *)
  f_off : Z;  (* off *)
}.
Definition set_f_type (x : file_type) (r : file) : file :=
  mkFile x (f_ref r) (readable r) (writable r) (f_pipe r) (f_ip r) (f_off r).
Definition set_f_ref (x : Z) (r : file) : file :=
  mkFile (f_type r) x (readable r) (writable r) (f_pipe r) (f_ip r) (f_off r).
Definition set_readable (x : Z) (r : file) : file :=
  mkFile (f_type r) (f_ref r) x (writable r) (f_pipe r) (f_ip r) (f_off r).
Definition set_writable (x : Z) (r : file) : file :=
  mkFile (f_type r) (f_ref r) (readable r) x (f_pipe r) (f_ip r) (f_off r).
Definition set_f_pipe (x : nat) (r : file) : file :=
  mkFile (f_type r) (f_ref r) (readable r) (writable r) x (f_ip r) (f_off r).
Definition set_f_ip (x : nat) (r : file) : file :=
  mkFile (f_type r) (f_ref r) (readable r) (writable r) (f_pipe r) x (f_off r).
Definition set_f_off (x : Z) (r : file) : file :=
  mkFile (f_type r) (f_ref r) (readable r) (writable r) (f_pipe r) (f_ip r) x.
Record pipe := mkPipe {
  p_data : Z → Z;  (* data *)
  nread : Z;
  nwrite : Z;
  readopen : Z;
  writeopen : Z;
}.
Definition set_p_data (x : Z → Z) (r : pipe) : pipe :=
  mkPipe x (nread r) (nwrite r) (readopen r) (writeopen r).
Definition set_nread (x : Z) (r : pipe) : pipe :=
  mkPipe (p_data r) x (nwrite r) (readopen r) (writeopen r).
Definition set_nwrite (x : Z) (r : pipe) : pipe :=
  mkPipe (p_data r) (nread r) x (readopen r) (writeopen r).
Definition set_readopen (x : Z) (r : pipe) : pipe :=
  mkPipe (p_data r) (nread r) (nwrite r) x (writeopen r).
Definition set_writeopen (x : Z) (r : pipe) : pipe :=
  mkPipe (p_data r) (nread r) (nwrite r) (readopen r) x.
(** ftable, the pipes, the fields of the current process, and the file system. *)
Record files (T D : Type) := mkFiles {
  ftable : list file;
  pipes : gmap nat pipe;
  killed : bool;  (* myproc()->killed *)
  fsys : fs T D;
}.
Arguments mkFiles {T D} _ _ _ _.
Arguments ftable {T D} _.
Arguments pipes {T D} _.
Arguments killed {T D} _.
Arguments fsys {T D} _.
Definition set_ftable {T D} (x : list file) (r : files T D) : files T D :=
  mkFiles x (pipes r) (killed r) (fsys r).
Definition set_pipes {T D} (x : gmap nat pipe) (r : files T D) : files T D :=
  mkFiles (ftable r) x (killed r) (fsys r).
Definition set_killed {T D} (x : bool) (r : files T D) : files T D :=
  mkFiles (ftable r) (pipes r) x (fsys r).
Definition set_fsys {T D} (x : fs T D) (r : files T D) : files T D :=
  mkFiles (ftable r) (pipes r) (killed r) x.

(** How a turn of a pipe operation ends: asleep before byte [i], or with a return value. *)
Inductive turn := Asleep (i : Z) | Returned (r : Z).

(** ** pipe.c, on one pipe *)
Section pipe.
(** The loop of [pipewrite] of [n] bytes from byte [i] on; [addr] are the bytes from there. *)
Fixpoint write_bytes (killed : bool) (addr : list Z) (n i : Z) : M pipe turn :=
  match addr with
  | [] => mret (Returned n)
  | c :: addr =>
      p ← gets (λ p, p);
      if nwrite p =? u32 (nread p + PIPESIZE) then
        if (readopen p =? 0) || killed then mret (Returned (-1))
        else mret (Asleep i)
      else
        modify (λ p, set_nwrite (u32 (nwrite p + 1)) (set_p_data (<[nwrite p mod PIPESIZE := c]> (p_data p)) p)) ;;
        write_bytes killed addr n (i + 1)
  end.
(** A turn of [pipewrite]: from the start ([i = 0]) or from a sleep before byte [i]. *)
Definition pipewrite (killed : bool) (addr : list Z) (n i : Z) : M pipe turn :=
  write_bytes killed (drop (Z.to_nat i) (take (Z.to_nat n) addr)) n i.

(** The copy loop of [piperead]: [n] bytes are still wanted. *)
Fixpoint read_bytes (n : nat) : M pipe (list Z) :=
  match n with
  | O => mret []
  | S n =>
      p ← gets (λ p, p);
      if nread p =? nwrite p then mret []
      else
        modify (set_nread (u32 (nread p + 1))) ;;
        l ← read_bytes n;
        mret (p_data p (nread p mod PIPESIZE) :: l)
  end.
(** A turn of [piperead]: the bytes stored to [addr] are the second result. *)
Definition piperead (killed : bool) (n : Z) : M pipe (turn * list Z) :=
  p ← gets (λ p, p);
  if (nread p =? nwrite p) && negb (writeopen p =? 0) then
    if killed then mret (Returned (-1), []) else mret (Asleep 0, [])
  else
    l ← read_bytes (Z.to_nat n);
    mret (Returned (Z.of_nat (length l)), l).
End pipe.

Section code.
Context {T D : Type} `{Transactions T} `{Devices D}.
Notation M_files := (M (files T D)).

Definition in_fs {A} (m : M (fs T D) A) : M_files A := zoom fsys set_fsys m.
Definition in_log {A} (m : M T A) : M_files A := in_fs (low m).
Definition file_at (f : nat) : M_files file := l ← gets ftable; aget l (Z.of_nat f).
Definition fset (f : nat) (g : file → file) : M_files () := modify (λ s, set_ftable (alter g f (ftable s)) s).
(** A pipe operation on the page [p]; a page that is no pipe any more is a wild pointer. *)
Definition on_pipe {A} (p : nat) (m : M pipe A) : M_files A := λ s,
  match pipes s !! p with
  | Some x => zoom (λ _, x) (λ x s, set_pipes (<[p := x]> (pipes s)) s) m s
  | None => Fault "pipe page was freed"
  end.

(** ** file.c *)
Definition empty_file : file := mkFile FD_NONE 0 0 0 0 0 0.
Fixpoint free_file (l : list file) (i : nat) : option nat :=
  match l with
  | [] => None
  | f :: l => if f_ref f =? 0 then Some i else free_file l (i + 1)
  end.
Definition filealloc : M_files (option nat) :=
  l ← gets ftable;
  match free_file l 0 with
  | Some f => fset f (set_f_ref 1) ;; mret (Some f)
  | None => mret None
  end.
Definition filedup (f : nat) : M_files nat :=
  r ← file_at f;
  when (f_ref r <? 1) (panic "filedup") ;;
  fset f (set_f_ref (f_ref r + 1)) ;;
  mret f.

Definition pipeclose (p : nat) (writable : bool) : M_files () :=
  on_pipe p (modify (if writable then set_writeopen 0 else set_readopen 0)) ;;
  x ← on_pipe p (gets (λ x, x));
  when ((readopen x =? 0) && (writeopen x =? 0)) (modify (λ s, set_pipes (delete p (pipes s)) s)).

Definition fileclose (f : nat) : M_files () :=
  r ← file_at f;
  when (f_ref r <? 1) (panic "fileclose") ;;
  fset f (set_f_ref (f_ref r - 1)) ;;
  if 0 <? f_ref r - 1 then mret ()
  else
    fset f (λ r, set_f_type FD_NONE (set_f_ref 0 r)) ;;
    match f_type r with
    | FD_PIPE => pipeclose (f_pipe r) (negb (writable r =? 0))
    | FD_INODE =>
        in_log t_begin_op ;;
        in_fs (iput (f_ip r)) ;;
        in_log t_end_op
    | FD_NONE => mret ()
    end.

Definition filestat (f : nat) : M_files (option stat) :=
  r ← file_at f;
  match f_type r with
  | FD_INODE =>
      in_fs (ilock (Some (f_ip r))) ;;
      st ← in_fs (stati (f_ip r));
      in_fs (iunlock (Some (f_ip r))) ;;
      mret (Some st)
  | _ => mret None
  end.

(** The result of the first turn of an operation that may sleep on a pipe. *)
Definition fileread (f : nat) (n : Z) : M_files (turn * list Z) :=
  r ← file_at f;
  if readable r =? 0 then mret (Returned (-1), [])
  else
    match f_type r with
    | FD_PIPE => k ← gets killed; on_pipe (f_pipe r) (piperead k n)
    | FD_INODE =>
        in_fs (ilock (Some (f_ip r))) ;;
        '(c, l) ← in_fs (readi (f_ip r) (f_off r) (u32 n));
        when (0 <? c) (fset f (set_f_off (u32 (f_off r + c)))) ;;
        in_fs (iunlock (Some (f_ip r))) ;;
        mret (Returned c, l)
    | FD_NONE => panic "fileread"
    end.

(** [filewrite] on an inode: pieces of at most [max] bytes, each in its own transaction. *)
Definition max_piece : Z := (MAXOPBLOCKS - 1 - 1 - 2) / 2 * 512.
Fixpoint write_pieces (fuel : nat) (f : nat) (addr : list Z) (i n : Z) : M_files Z :=
  if n <=? i then mret i
  else match fuel with
  | O => diverge
  | S fuel =>
      let n1 := if max_piece <? n - i then max_piece else n - i in
      in_log t_begin_op ;;
      r ← file_at f;
      in_fs (ilock (Some (f_ip r))) ;;
      c ← in_fs (writei (f_ip r) (drop (Z.to_nat i) addr) (f_off r) n1);
      when (0 <? c) (fset f (set_f_off (u32 (f_off r + c)))) ;;
      in_fs (iunlock (Some (f_ip r))) ;;
      in_log t_end_op ;;
      if c <? 0 then mret i
      else if negb (c =? n1) then panic "short filewrite"
      else write_pieces fuel f addr (i + c) n
  end.
Definition filewrite (f : nat) (addr : list Z) (n : Z) : M_files turn :=
  r ← file_at f;
  if writable r =? 0 then mret (Returned (-1))
  else
    match f_type r with
    | FD_PIPE => k ← gets killed; on_pipe (f_pipe r) (pipewrite k addr n 0)
    | FD_INODE =>
        i ← write_pieces (Z.to_nat (n / max_piece) + 1) f addr 0 n;
        mret (Returned (if i =? n then n else -1))
    | FD_NONE => panic "filewrite"
    end.

(** [pipealloc], with what kalloc returns: the two files, or [None]. *)
Definition new_pipe : pipe := mkPipe (λ _, 0) 0 0 1 1.
Definition close_opt (f : option nat) : M_files () := match f with Some f => fileclose f | None => mret () end.
Definition pipealloc (page : option nat) : M_files (option (nat * nat)) :=
  f0 ← filealloc;
  f1 ← match f0 with Some _ => filealloc | None => mret None end;
  match f0, f1, page with
  | Some f0, Some f1, Some p =>
      modify (λ s, set_pipes (<[p := new_pipe]> (pipes s)) s) ;;
      fset f0 (λ r, set_f_pipe p (set_writable 0 (set_readable 1 (set_f_type FD_PIPE r)))) ;;
      fset f1 (λ r, set_f_pipe p (set_writable 1 (set_readable 0 (set_f_type FD_PIPE r)))) ;;
      mret (Some (f0, f1))
  | _, _, _ =>
      close_opt f0 ;;
      close_opt f1 ;;
      mret None
  end.
End code.

(** * A pipe is a queue *)
(** What is in the pipe: the bytes from [nread] to [nwrite], both counted modulo 2^32. *)
Definition fill (p : pipe) : Z := u32 (nwrite p - nread p).
Definition contents (p : pipe) : list Z := (λ k, p_data p ((nread p + k) mod PIPESIZE)) <$> seqZ 0 (fill p).
Record pipe_ok (p : pipe) : Prop := {
  po_nread : 0 <= nread p < 2 ^ 32;
  po_nwrite : 0 <= nwrite p < 2 ^ 32;
  po_fill : fill p <= PIPESIZE;
}.

(** The queue: its bytes, and whether each end is open. *)
Record queue := mkQ { bytes : list Z; ropen : bool; wopen : bool }.
Inductive pipe_op :=
  | OpWrite (killed : bool) (addr : list Z) (n i : Z)
  | OpRead (killed : bool) (n : Z)
  | OpCloseRead
  | OpCloseWrite.
Definition run_op (o : pipe_op) : M pipe (turn * list Z) :=
  match o with
  | OpWrite killed addr n i => t ← pipewrite killed addr n i; mret (t, [])
  | OpRead killed n => piperead killed n
  | OpCloseRead => modify (set_readopen 0) ;; mret (Returned 0, [])
  | OpCloseWrite => modify (set_writeopen 0) ;; mret (Returned 0, [])
  end.
(** A writer appends what there is room for; it returns when all is written, and otherwise sleeps, or gives up
    when nobody can read.  A reader takes what there is, up to what it asks for; it sleeps
    on an empty pipe that can still be written. *)
Definition spec_op (o : pipe_op) (q : queue) : (turn * list Z) * queue :=
  match o with
  | OpWrite killed addr n i =>
      let todo := drop (Z.to_nat i) (take (Z.to_nat n) addr) in
      let room := (Z.to_nat PIPESIZE - length (bytes q))%nat in
      let q' := mkQ (bytes q ++ take room todo) (ropen q) (wopen q) in
      if (length todo <=? room)%nat then ((Returned n, []), q')
      else if negb (ropen q) || killed then ((Returned (-1), []), q')
      else ((Asleep (i + Z.of_nat room), []), q')
  | OpRead killed n =>
      if bool_decide (bytes q = []) && wopen q then
        ((if killed then Returned (-1) else Asleep 0, []), q)
      else
        let l := take (Z.to_nat n) (bytes q) in
        ((Returned (Z.of_nat (length l)), l), mkQ (drop (Z.to_nat n) (bytes q)) (ropen q) (wopen q))
  | OpCloseRead => ((Returned 0, []), mkQ (bytes q) false (wopen q))
  | OpCloseWrite => ((Returned 0, []), mkQ (bytes q) (ropen q) false)
  end.
Fixpoint run_ops (os : list pipe_op) : M pipe (list (turn * list Z)) :=
  match os with
  | [] => mret []
  | o :: os => r ← run_op o; rs ← run_ops os; mret (r :: rs)
  end.
Fixpoint spec_ops (os : list pipe_op) (q : queue) : list (turn * list Z) * queue :=
  match os with
  | [] => ([], q)
  | o :: os => let '(r, q) := spec_op o q in let '(rs, q) := spec_ops os q in (r :: rs, q)
  end.
Definition abs (p : pipe) : queue := mkQ (contents p) (negb (readopen p =? 0)) (negb (writeopen p =? 0)).

Lemma fill_range p : 0 <= fill p.
Proof. apply u32_range. Qed.
Lemma length_contents p : length (contents p) = Z.to_nat (fill p).
Proof. unfold contents. by rewrite length_fmap, length_seqZ. Qed.
(** The counters wrap at a multiple of the buffer's size. *)
Lemma wrap_pipesize z : u32 z mod PIPESIZE = z mod PIPESIZE.
Proof.
  unfold u32, PIPESIZE. change (2 ^ 32) with (512 * 8388608). rewrite Z.rem_mul_r by lia.
  rewrite (Z.mul_comm 512), Z.mod_add, Z.mod_mod by lia. done.
Qed.
Lemma nwrite_at p : pipe_ok p → nwrite p = u32 (nread p + fill p).
Proof.
  intros [Hr Hw _]. unfold fill, u32. rewrite Zplus_mod_idemp_r.
  replace (nread p + (nwrite p - nread p)) with (nwrite p) by lia. by rewrite Z.mod_small.
Qed.
Lemma full_spec p : pipe_ok p → (nwrite p =? u32 (nread p + PIPESIZE)) = (fill p =? PIPESIZE).
Proof.
  intros Hp. pose proof Hp as [Hr Hw Hf]. pose proof (fill_range p). rewrite (nwrite_at p Hp).
  apply eq_bool_prop_intro. rewrite !Is_true_true, !Z.eqb_eq. split; [|by intros ->].
  unfold u32, PIPESIZE in *. intros E.
  assert ((nread p + 512 - (nread p + fill p)) mod 2 ^ 32 = 0) as E'.
  { rewrite Zminus_mod, E, Z.sub_diag. done. }
  replace (nread p + 512 - (nread p + fill p)) with (512 - fill p) in E' by lia.
  rewrite Z.mod_small in E' by lia. lia.
Qed.
Lemma empty_spec p : pipe_ok p → (nread p =? nwrite p) = (fill p =? 0).
Proof.
  intros [Hr Hw Hf]. unfold fill, u32 in *. apply eq_bool_prop_intro. rewrite !Is_true_true, !Z.eqb_eq. split.
  - intros ->. by rewrite Z.sub_diag.
  - intros E. apply Z.mod_divide in E as [k Hk]; [|lia]. assert (k = 0) as -> by nia. lia.
Qed.

Lemma push_byte p c : pipe_ok p → fill p < PIPESIZE →
  let p' := set_nwrite (u32 (nwrite p + 1)) (set_p_data (<[nwrite p mod PIPESIZE := c]> (p_data p)) p) in
  pipe_ok p' ∧ fill p' = fill p + 1 ∧ contents p' = contents p ++ [c].
Proof.
  intros Hp Hlt p'. pose proof Hp as [Hr Hw Hf]. pose proof (fill_range p) as H0.
  assert (fill p' = fill p + 1) as Hf'.
  { unfold fill, p'. cbn [nwrite nread set_nwrite set_p_data]. unfold u32. rewrite Zminus_mod_idemp_l.
    replace (nwrite p + 1 - nread p) with (nwrite p - nread p + 1) by lia. rewrite <- Zplus_mod_idemp_l.
    fold (u32 (nwrite p - nread p)). fold (fill p). unfold PIPESIZE in *. rewrite Z.mod_small by lia. done. }
  split; [|split; [done|]].
  - split; [done|apply u32_range|rewrite Hf'; lia].
  - unfold contents. rewrite Hf'. unfold p'. cbn [nread p_data set_nwrite set_p_data].
    rewrite seqZ_app, fmap_app by lia. rewrite Z.add_0_l. f_equal.
    + apply list_fmap_ext. intros i k Hk%list_elem_of_lookup_2%elem_of_seqZ. rewrite fn_lookup_insert_ne; [done|].
      rewrite (nwrite_at p Hp), wrap_pipesize. unfold PIPESIZE in *. intros E.
      pose proof (Z.div_mod (nread p + fill p) 512). pose proof (Z.div_mod (nread p + k) 512).
      pose proof (Z.mod_pos_bound (nread p + k) 512). nia.
    + assert (seqZ (0 + fill p) 1 = [fill p]) as E by (unfold seqZ; simpl; f_equal; lia).
      rewrite ?Z.add_0_l in *. rewrite E. cbn [fmap list_fmap].
      rewrite (nwrite_at p Hp), wrap_pipesize. by rewrite fn_lookup_insert.
Qed.
Lemma pop_byte p : pipe_ok p → 0 < fill p →
  let p' := set_nread (u32 (nread p + 1)) p in
  pipe_ok p' ∧ contents p = p_data p (nread p mod PIPESIZE) :: contents p'.
Proof.
  intros Hp Hlt p'. pose proof Hp as [Hr Hw Hf].
  assert (fill p' = fill p - 1) as Hf'.
  { unfold fill, p'. cbn [nwrite nread set_nread]. unfold u32. rewrite Zminus_mod_idemp_r.
    replace (nwrite p - (nread p + 1)) with (nwrite p - nread p - 1) by lia. rewrite <- Zminus_mod_idemp_l.
    fold (u32 (nwrite p - nread p)). fold (fill p). unfold PIPESIZE in *. rewrite Z.mod_small by lia. done. }
  split; [split; [apply u32_range|done|rewrite Hf'; lia]|].
  unfold contents. rewrite Hf'. rewrite seqZ_cons by done. cbn [fmap list_fmap]. rewrite Z.add_0_r. f_equal.
  rewrite <- (Z.sub_1_r (fill p)). change (Z.succ 0) with 1. 
  replace (seqZ 1 (fill p - 1)) with (Z.add 1 <$> seqZ 0 (fill p - 1)) by (by rewrite fmap_add_seqZ).
  rewrite <- list_fmap_compose. apply list_fmap_ext. intros i k _. cbn [compose nread p_data set_nread p'].
  unfold p'. cbn [nread p_data set_nread]. f_equal. rewrite <- (Zplus_mod_idemp_l (u32 _)), wrap_pipesize, Zplus_mod_idemp_l. f_equal. lia.
Qed.

Lemma contents_nil p : pipe_ok p → bool_decide (contents p = []) = (fill p =? 0).
Proof.
  intros _. pose proof (length_contents p) as Hl. pose proof (fill_range p). destruct (Z.eqb_spec (fill p) 0) as [E|E].
  - apply bool_decide_true, nil_length_inv. rewrite Hl, E. done.
  - apply bool_decide_false. intros Hn. rewrite Hn in Hl. simpl in Hl. lia.
Qed.
Lemma write_bytes_spec killed addr n i p : pipe_ok p → let room := (Z.to_nat PIPESIZE - length (contents p))%nat in
  ∃ p', write_bytes killed addr n i p = Ret (if (length addr <=? room)%nat then Returned n
      else if (readopen p =? 0) || killed then Returned (-1) else Asleep (i + Z.of_nat room)) p' ∧
    pipe_ok p' ∧ contents p' = contents p ++ take room addr ∧ readopen p' = readopen p ∧ writeopen p' = writeopen p.
Proof.
  revert i p. induction addr as [|c addr IH]; intros i p Hp room.
  { exists p. rewrite take_nil, app_nil_r. done. }
  cbn [write_bytes]. unfold mbind, M_bind, gets, modify. rewrite (full_spec p Hp).
  pose proof (length_contents p) as Hl. pose proof (fill_range p). pose proof (po_fill p Hp).
  destruct (Z.eqb_spec (fill p) PIPESIZE) as [E|E].
  - assert (room = 0)%nat as -> by (unfold room; lia). exists p. rewrite take_0, app_nil_r. cbn [length Nat.leb].
    rewrite Z.add_0_r. by destruct ((readopen p =? 0) || killed).
  - destruct (push_byte p c Hp ltac:(lia)) as (Hp1 & Hf1 & Hc1). set (p1 := set_nwrite _ _) in *.
    destruct (IH (i + 1) p1 Hp1) as (p' & Hm & Hp' & Hc' & Hr' & Hw'). exists p'.
    assert (room = S (Z.to_nat PIPESIZE - length (contents p1))) as Hroom.
    { unfold room. rewrite Hc1, length_app. simpl. unfold PIPESIZE in *. lia. }
    rewrite Hm, Hroom. split.
    + f_equal. change (readopen p1) with (readopen p). cbn [length Nat.leb].
      destruct (length addr <=? _)%nat; [done|]. destruct ((readopen p =? 0) || killed); [done|]. f_equal. lia.
    + split; [done|]. split; [|done]. rewrite Hc', Hc1, <- app_assoc. done.
Qed.
Lemma read_bytes_spec n p : pipe_ok p → ∃ p', read_bytes n p = Ret (take n (contents p)) p' ∧
  pipe_ok p' ∧ contents p' = drop n (contents p) ∧ readopen p' = readopen p ∧ writeopen p' = writeopen p.
Proof.
  revert p. induction n as [|n IH]; intros p Hp; [by exists p|].
  cbn [read_bytes]. unfold mbind, M_bind, gets, modify. rewrite (empty_spec p Hp).
  pose proof (fill_range p). pose proof (contents_nil p Hp) as Hnil. destruct (Z.eqb_spec (fill p) 0) as [E|E].
  - apply bool_decide_eq_true in Hnil. exists p. by rewrite Hnil.
  - destruct (pop_byte p Hp ltac:(lia)) as [Hp1 Hc1]. set (p1 := set_nread _ _) in *.
    destruct (IH p1 Hp1) as (p' & Hm & Hp' & Hc' & Hr' & Hw'). exists p'. rewrite Hm, Hc1. done.
Qed.
Lemma run_op_spec o p : pipe_ok p → ∃ p', run_op o p = Ret (spec_op o (abs p)).1 p' ∧ pipe_ok p' ∧ abs p' = (spec_op o (abs p)).2.
Proof.
  intros Hp. destruct o as [killed addr n i|killed n| |]; cbn [run_op spec_op abs bytes ropen wopen].
  - unfold pipewrite. set (todo := drop _ _).
    destruct (write_bytes_spec killed todo n i p Hp) as (p' & Hm & Hp' & Hc' & Hr' & Hw'). exists p'.
    unfold mbind, M_bind. rewrite Hm. rewrite negb_involutive.
    unfold abs. rewrite Hc', Hr', Hw'. cbn zeta. repeat case_match; done.
  - unfold piperead, mbind, M_bind, gets. rewrite (empty_spec p Hp), <- (contents_nil p Hp).
    destruct (bool_decide (contents p = []) && negb (writeopen p =? 0)).
    + exists p. by destruct killed.
    + destruct (read_bytes_spec (Z.to_nat n) p Hp) as (p' & Hm & Hp' & Hc' & Hr' & Hw'). exists p'. rewrite Hm.
      unfold abs. rewrite Hc', Hr', Hw'. done.
  - eexists. split; [reflexivity|]. split; [by destruct Hp|done].
  - eexists. split; [reflexivity|]. split; [by destruct Hp|done].
Qed.

(** C27: a new pipe behaves as an empty queue of at most [PIPESIZE] bytes, whatever turns of writers, readers
    and closes follow, in any order and for any length of time (the counters wrap): every turn
    ends as on the queue, with the same bytes, and nothing is lost, repeated or reordered. *)
Theorem pipe_refines_queue os : ∃ p', run_ops os new_pipe = Ret (spec_ops os (mkQ [] true true)).1 p' ∧
  pipe_ok p' ∧ abs p' = (spec_ops os (mkQ [] true true)).2 ∧ Z.of_nat (length (contents p')) <= PIPESIZE.
Proof.
  assert (pipe_ok new_pipe) as Hnew by (by split).
  assert (∀ p, pipe_ok p → ∃ p', run_ops os p = Ret (spec_ops os (abs p)).1 p' ∧
    pipe_ok p' ∧ abs p' = (spec_ops os (abs p)).2) as Hgen.
  { clear. induction os as [|o os IH]; intros p Hp; [by exists p|]. cbn [run_ops spec_ops].
    destruct (run_op_spec o p Hp) as (p1 & Hm1 & Hp1 & Ha1). destruct (IH p1 Hp1) as (p2 & Hm2 & Hp2 & Ha2).
    exists p2. unfold mbind, M_bind. rewrite Hm1, Hm2, Ha2, Ha1. destruct (spec_op o (abs p)) as [r q]. cbn [fst snd].
    by destruct (spec_ops os q). }
  destruct (Hgen new_pipe Hnew) as (p' & Hm & Hp' & Ha'). exists p'. split; [done|]. split; [done|]. split; [done|].
  rewrite length_contents. pose proof (po_fill p' Hp'). pose proof (fill_range p'). lia.
Qed.

(** * The pieces of filewrite
    By the bound of [written], a piece of [filewrite] logs at most [MAXOPBLOCKS] blocks, wherever it begins. *)
Lemma max_piece_fits off n : 0 <= off → 0 <= n <= max_piece → 2 * rounds off n + 2 <= MAXOPBLOCKS.
Proof.
  intros Hoff Hn. change max_piece with 1536 in Hn. unfold rounds, BSIZE, MAXOPBLOCKS.
  zcase; [lia|]. Z.to_euclidean_division_equations. lia.
Qed.
