(* ===== verification/Sysfile.v ===== *)
(** * File system calls (src/07_xv6_File_System/PartA/sysfile.c, and the argument fetching of
    syscall.c)

    The state adds the current process to the one of Files.v: its descriptor table, its memory
    and the saved stack pointer and result register.  A string argument is represented by its bytes: the process
    cannot change them before the call is over. *)

From S2P Require Import Prelude Bio Blocks Log Txn Fs Files.

Definition NOFILE : Z := 16.
Definition MAXARG : Z := 32.
Definition O_RDONLY : Z := 0x000.
Definition O_WRONLY : Z := 0x001.
Definition O_RDWR : Z := 0x002.
Definition O_CREATE : Z := 0x200.

Record sys (T D : Type) := mkSys {
  ofile : list (option nat);  (* myproc()->ofile *)
  umem : Z → Z;  (* user memory, by byte *)
  usz : Z;  (* myproc()->sz *)
  tf_esp : Z;  (* myproc()->tf->esp *)
  tf_eax : Z;  (* myproc()->tf->eax *)
  fls : files T D;
}.
Arguments mkSys {T D} _ _ _ _ _ _.
Arguments ofile {T D} _.
Arguments umem {T D} _.
Arguments usz {T D} _.
Arguments tf_esp {T D} _.
Arguments tf_eax {T D} _.
Arguments fls {T D} _.
Definition set_ofile {T D} (x : list (option nat)) (r : sys T D) : sys T D :=
  mkSys x (umem r) (usz r) (tf_esp r) (tf_eax r) (fls r).
Definition set_umem {T D} (x : Z → Z) (r : sys T D) : sys T D :=
  mkSys (ofile r) x (usz r) (tf_esp r) (tf_eax r) (fls r).
Definition set_usz {T D} (x : Z) (r : sys T D) : sys T D :=
  mkSys (ofile r) (umem r) x (tf_esp r) (tf_eax r) (fls r).
Definition set_tf_esp {T D} (x : Z) (r : sys T D) : sys T D :=
  mkSys (ofile r) (umem r) (usz r) x (tf_eax r) (fls r).
Definition set_tf_eax {T D} (x : Z) (r : sys T D) : sys T D :=
  mkSys (ofile r) (umem r) (usz r) (tf_esp r) x (fls r).
Definition set_fls {T D} (x : files T D) (r : sys T D) : sys T D :=
  mkSys (ofile r) (umem r) (usz r) (tf_esp r) (tf_eax r) x.

Section code.
Context {T D : Type} `{Transactions T} `{Devices D}.
Notation M_sys := (M (sys T D)).

Definition in_files {A} (m : M (files T D) A) : M_sys A := zoom fls set_fls m.
Definition fsm {A} (m : M (fs T D) A) : M_sys A := in_files (in_fs m).
Definition begin_op : M_sys () := in_files (in_log t_begin_op).
Definition end_op : M_sys () := in_files (in_log t_end_op).

(** ** syscall.c: arguments; [None] is the return value -1 *)
Definition fetchint (addr : Z) : M_sys (option Z) :=
  sz ← gets usz;
  if (sz <=? addr) || (sz <? u32 (addr + 4)) then mret None
  else m ← gets umem; mret (Some (s32 (get32 m addr))).
(** The loop of [fetchstr]: [n] addresses from [s] on. *)
Fixpoint scan_str (m : Z → Z) (s : Z) (n : nat) : option cstring :=
  match n with
  | O => None
  | S n => if m s =? 0 then Some [] else cons (m s) <$> scan_str m (s + 1) n
  end.
Definition fetchstr (addr : Z) : M_sys (option cstring) :=
  sz ← gets usz;
  if sz <=? addr then mret None
  else m ← gets umem; mret (scan_str m addr (Z.to_nat (sz - addr))).
Definition argint (n : Z) : M_sys (option Z) :=
  esp ← gets tf_esp;
  fetchint (u32 (u32 (esp + 4) + 4 * n)).
Definition argptr (n size : Z) : M_sys (option Z) :=
  o ← argint n;
  sz ← gets usz;
  match o with
  | None => mret None
  | Some i =>
      if (size <? 0) || (sz <=? u32 i) || (sz <? u32 (u32 i + size)) then mret None
      else mret (Some (u32 i))
  end.
Definition argstr (n : Z) : M_sys (option cstring) :=
  o ← argint n;
  match o with Some addr => fetchstr (u32 addr) | None => mret None end.

(** User memory through a checked pointer. *)
Definition user_bytes (p n : Z) : M_sys (list Z) := m ← gets umem; mret (bytes_of m p n).
Definition store_user (p : Z) (l : list Z) : M_sys () := modify (λ s, set_umem (put_list (umem s) p l) s).

(** ** Descriptors *)
Definition argfd (n : Z) : M_sys (option (Z * nat)) :=
  o ← argint n;
  l ← gets ofile;
  match o with
  | None => mret None
  | Some fd =>
      if (fd <? 0) || (NOFILE <=? fd) then mret None
      else
        f ← aget l fd;
        match f with Some f => mret (Some (fd, f)) | None => mret None end
  end.
Definition set_fd (fd : Z) (f : option nat) : M_sys () :=
  modify (λ s, set_ofile (<[Z.to_nat fd := f]> (ofile s)) s).
Definition fdalloc (f : nat) : M_sys Z :=
  o ← for_find (seqZ 0 NOFILE) (λ fd,
    l ← gets ofile;
    x ← aget l fd;
    match x with
    | None => set_fd fd (Some f) ;; mret (Some fd)
    | Some _ => mret None
    end);
  match o with Some fd => mret fd | None => mret (-1) end.

Definition sys_dup : M_sys Z :=
  o ← argfd 0;
  match o with
  | None => mret (-1)
  | Some (_, f) =>
      fd ← fdalloc f;
      if fd <? 0 then mret (-1) else in_files (filedup f) ;; mret fd
  end.
(** [sys_read] and [sys_write] may go to sleep on a pipe: their first turn. *)
Definition sys_read : M_sys turn :=
  o ← argfd 0;
  match o with
  | None => mret (Returned (-1))
  | Some (_, f) =>
      on ← argint 2;
      match on with
      | None => mret (Returned (-1))
      | Some n =>
          op ← argptr 1 n;
          match op with
          | None => mret (Returned (-1))
          | Some p =>
              '(t, l) ← in_files (fileread f n);
              store_user p l ;;
              mret t
          end
      end
  end.
Definition sys_write : M_sys turn :=
  o ← argfd 0;
  match o with
  | None => mret (Returned (-1))
  | Some (_, f) =>
      on ← argint 2;
      match on with
      | None => mret (Returned (-1))
      | Some n =>
          op ← argptr 1 n;
          match op with
          | None => mret (Returned (-1))
          | Some p => l ← user_bytes p n; in_files (filewrite f l n)
          end
      end
  end.
Definition sys_close : M_sys Z :=
  o ← argfd 0;
  match o with
  | None => mret (-1)
  | Some (fd, f) => set_fd fd None ;; in_files (fileclose f) ;; mret 0
  end.
(** The bytes of [struct stat]: type and padding, dev, ino, nlink and padding, size. *)
Definition bytes_of_stat (st : stat) : list Z :=
  bytes_of (put32 (put16 (put32 (put32 (put16 (λ _, 0) 0 (u16 (st_type st))) 4 (st_dev st)) 8 (st_ino st))
    12 (u16 (st_nlink st))) 16 (st_size st)) 0 20.
Definition sys_fstat : M_sys Z :=
  o ← argfd 0;
  match o with
  | None => mret (-1)
  | Some (_, f) =>
      op ← argptr 1 20;
      match op with
      | None => mret (-1)
      | Some p =>
          ost ← in_files (filestat f);
          match ost with
          | Some st => store_user p (bytes_of_stat st) ;; mret 0
          | None => mret (-1)
          end
      end
  end.

(** ** Paths; [links] bounds the nested symbolic links that are followed *)
Context (links : nat).
Definition no_name : list Z := replicate (Z.to_nat DIRSIZ) 0.
Definition dot : cstring := [46].
Definition dotdot : cstring := [46; 46].

Definition link_bad (ip : nat) : M_sys Z :=
  fsm (ilock (Some ip)) ;;
  fsm (iset ip (λ r, set_i_nlink (s16 (i_nlink r - 1)) r)) ;;
  fsm (iupdate ip) ;;
  fsm (iunlockput ip) ;;
  end_op ;;
  mret (-1).
Definition sys_link : M_sys Z :=
  o ← argstr 0;
  match o with
  | None => mret (-1)
  | Some old =>
      o ← argstr 1;
      match o with
      | None => mret (-1)
      | Some new =>
          begin_op ;;
          o ← fsm (namei links old);
          match o with
          | None => end_op ;; mret (-1)
          | Some ip =>
              fsm (ilock (Some ip)) ;;
              r ← fsm (inode_at ip);
              if i_type r =? T_DIR then fsm (iunlockput ip) ;; end_op ;; mret (-1)
              else
                fsm (iset ip (λ r, set_i_nlink (s16 (i_nlink r + 1)) r)) ;;
                fsm (iupdate ip) ;;
                fsm (iunlock (Some ip)) ;;
                '(odp, name) ← fsm (nameiparent links new no_name);
                match odp with
                | None => link_bad ip
                | Some dp =>
                    fsm (ilock (Some dp)) ;;
                    rd ← fsm (inode_at dp);
                    r ← fsm (inode_at ip);
                    bad ← (if negb (i_dev rd =? i_dev r) then mret true
                           else c ← fsm (dirlink dp name (i_inum r)); mret (c <? 0));
                    if (bad : bool) then fsm (iunlockput dp) ;; link_bad ip
                    else
                      fsm (iunlockput dp) ;;
                      fsm (iput ip) ;;
                      end_op ;;
                      mret 0
                end
          end
      end
  end.

Definition isdirempty (dp : nat) : M_sys bool :=
  r ← fsm (inode_at dp);
  o ← for_find (drop 2 (entry_offs (i_size r))) (λ off,
    de ← fsm (read_dirent dp off "isdirempty: readi");
    mret (if negb (de_inum de =? 0) then Some () else None));
  mret (match o with Some _ => false | None => true end).

Definition unlink_bad (dp : nat) : M_sys Z := fsm (iunlockput dp) ;; end_op ;; mret (-1).
Definition sys_unlink : M_sys Z :=
  o ← argstr 0;
  match o with
  | None => mret (-1)
  | Some path =>
      begin_op ;;
      '(odp, name) ← fsm (nameiparent links path no_name);
      match odp with
      | None => end_op ;; mret (-1)
      | Some dp =>
          fsm (ilock (Some dp)) ;;
          if (namecmp name dot =? 0) || (namecmp name dotdot =? 0) then unlink_bad dp
          else
            o ← fsm (dirlookup dp name);
            match o with
            | None => unlink_bad dp
            | Some (ip, off) =>
                fsm (ilock (Some ip)) ;;
                r ← fsm (inode_at ip);
                when (i_nlink r <? 1) (panic "unlink: nlink < 1") ;;
                full ← (if i_type r =? T_DIR then e ← isdirempty ip; mret (negb e) else mret false);
                if (full : bool) then fsm (iunlockput ip) ;; unlink_bad dp
                else
                  n ← fsm (writei dp (replicate (Z.to_nat DIRENT) 0) off DIRENT);
                  when (negb (n =? DIRENT)) (panic "unlink: writei") ;;
                  when (i_type r =? T_DIR) (
                    fsm (iset dp (λ r, set_i_nlink (s16 (i_nlink r - 1)) r)) ;;
                    fsm (iupdate dp)) ;;
                  fsm (iunlockput dp) ;;
                  fsm (iset ip (λ r, set_i_nlink (s16 (i_nlink r - 1)) r)) ;;
                  fsm (iupdate ip) ;;
                  fsm (iunlockput ip) ;;
                  end_op ;;
                  mret 0
            end
      end
  end.

(** [create]: a new inode, or an existing regular file; locked. *)
Definition create (path : cstring) (type major minor : Z) : M_sys (option nat) :=
  '(odp, name) ← fsm (nameiparent links path no_name);
  match odp with
  | None => mret None
  | Some dp =>
      fsm (ilock (Some dp)) ;;
      o ← fsm (dirlookup dp name);
      match o with
      | Some (ip, _) =>
          fsm (iunlockput dp) ;;
          fsm (ilock (Some ip)) ;;
          r ← fsm (inode_at ip);
          if (type =? T_FILE) && (i_type r =? T_FILE) then mret (Some ip)
          else fsm (iunlockput ip) ;; mret None
      | None =>
          rd ← fsm (inode_at dp);
          ip ← fsm (ialloc (i_dev rd) type);
          fsm (ilock (Some ip)) ;;
          fsm (iset ip (λ r, set_i_nlink 1 (set_i_minor minor (set_i_major major r)))) ;;
          fsm (iupdate ip) ;;
          r ← fsm (inode_at ip);
          when (type =? T_DIR) (
            fsm (iset dp (λ r, set_i_nlink (s16 (i_nlink r + 1)) r)) ;;
            fsm (iupdate dp) ;;
            c ← fsm (dirlink ip dot (i_inum r));
            when (c <? 0) (panic "create dots") ;;
            c ← fsm (dirlink ip dotdot (i_inum rd));
            when (c <? 0) (panic "create dots")) ;;
          c ← fsm (dirlink dp name (i_inum r));
          when (c <? 0) (panic "create: dirlink") ;;
          fsm (iunlockput dp) ;;
          mret (Some ip)
      end
  end.

(** The part of [sys_open] after the inode is found and locked. *)
Definition open_file (ip : nat) (omode : Z) : M_sys Z :=
  fo ← in_files filealloc;
  fd ← match fo with Some f => fdalloc f | None => mret (-1) end;
  match fo with
  | Some f =>
      if fd <? 0 then
        in_files (fileclose f) ;;
        fsm (iunlockput ip) ;;
        end_op ;;
        mret (-1)
      else
        fsm (iunlock (Some ip)) ;;
        end_op ;;
        let wronly := negb (Z.land omode O_WRONLY =? 0) in
        let rdwr := negb (Z.land omode O_RDWR =? 0) in
        in_files (fset f (λ r, set_writable (if wronly || rdwr then 1 else 0)
          (set_readable (if wronly then 0 else 1) (set_f_off 0 (set_f_ip ip (set_f_type FD_INODE r)))))) ;;
        mret fd
  | None => fsm (iunlockput ip) ;; end_op ;; mret (-1)
  end.
Definition sys_open : M_sys Z :=
  o ← argstr 0;
  match o with
  | None => mret (-1)
  | Some path =>
      o ← argint 1;
      match o with
      | None => mret (-1)
      | Some omode =>
          begin_op ;;
          if negb (Z.land omode O_CREATE =? 0) then
            o ← create path T_FILE 0 0;
            match o with
            | None => end_op ;; mret (-1)
            | Some ip => open_file ip omode
            end
          else
            o ← fsm (namei links path);
            match o with
            | None => end_op ;; mret (-1)
            | Some ip =>
                fsm (ilock (Some ip)) ;;
                r ← fsm (inode_at ip);
                c ← fsm check_sym;
                if (i_type r =? T_DIR) && negb (c =? 0) then fsm (iunlockput ip) ;; end_op ;; mret (-1)
                else if (i_type r =? T_DIR) && negb (omode =? O_RDONLY) then fsm (iunlockput ip) ;; end_op ;; mret (-1)
                else open_file ip omode
            end
      end
  end.

Definition finish_create (o : option nat) : M_sys Z :=
  match o with
  | None => end_op ;; mret (-1)
  | Some ip => fsm (iunlockput ip) ;; end_op ;; mret 0
  end.
Definition sys_mkdir : M_sys Z :=
  begin_op ;;
  o ← argstr 0;
  o ← match o with Some path => create path T_DIR 0 0 | None => mret None end;
  finish_create o.
Definition sys_mknod : M_sys Z :=
  begin_op ;;
  o ← argstr 0;
  o1 ← match o with Some _ => argint 1 | None => mret None end;
  o2 ← match o1 with Some _ => argint 2 | None => mret None end;
  o ← match o, o1, o2 with
      | Some path, Some major, Some minor => create path T_DEV (s16 major) (s16 minor)
      | _, _, _ => mret None
      end;
  finish_create o.
Definition sys_chdir : M_sys Z :=
  begin_op ;;
  o ← argstr 0;
  o ← match o with Some path => fsm (namei links path) | None => mret None end;
  match o with
  | None => end_op ;; mret (-1)
  | Some ip =>
      fsm (ilock (Some ip)) ;;
      r ← fsm (inode_at ip);
      if negb (i_type r =? T_DIR) then fsm (iunlockput ip) ;; end_op ;; mret (-1)
      else
        fsm (iunlock (Some ip)) ;;
        c ← fsm (gets cwd);
        fsm (iput c) ;;
        end_op ;;
        fsm (modify (set_cwd ip)) ;;
        mret 0
  end.

(** [sys_exec] up to its call of exec: the path and the arguments that it passes. *)
Fixpoint exec_argv (fuel : nat) (uargv i : Z) : M_sys (option (list cstring)) :=
  match fuel with
  | O => mret None
  | S fuel =>
      o ← fetchint (u32 (uargv + 4 * i));
      match o with
      | None => mret None
      | Some uarg =>
          if uarg =? 0 then mret (Some [])
          else
            o ← fetchstr (u32 uarg);
            match o with
            | None => mret None
            | Some arg =>
                rest ← exec_argv fuel uargv (i + 1);
                mret (cons arg <$> rest)
            end
      end
  end.
Definition sys_exec_args : M_sys (option (cstring * list cstring)) :=
  o ← argstr 0;
  match o with
  | None => mret None
  | Some path =>
      o ← argint 1;
      match o with
      | None => mret None
      | Some uargv =>
          argv ← exec_argv (Z.to_nat MAXARG) (u32 uargv) 0;
          mret (pair path <$> argv)
      end
  end.

Definition sys_pipe (page : option nat) : M_sys Z :=
  o ← argptr 0 8;
  match o with
  | None => mret (-1)
  | Some fd =>
      o ← in_files (pipealloc page);
      match o with
      | None => mret (-1)
      | Some (rf, wf) =>
          fd0 ← fdalloc rf;
          fd1 ← (if fd0 <? 0 then mret (-1) else fdalloc wf);
          if (fd0 <? 0) || (fd1 <? 0) then
            when (0 <=? fd0) (set_fd fd0 None) ;;
            in_files (fileclose rf) ;;
            in_files (fileclose wf) ;;
            mret (-1)
          else
            store_user fd (bytes_of (put32 (put32 (λ _, 0) 0 fd0) 4 fd1) 0 8) ;;
            mret 0
      end
  end.

Definition sys_symlink : M_sys Z :=
  o ← argstr 0;
  match o with
  | None => mret (-1)
  | Some target =>
      o ← argstr 1;
      match o with
      | None => mret (-1)
      | Some link_name =>
          begin_op ;;
          o ← create link_name T_SYM 0 0;
          match o with
          | None => end_op ;; mret (-1)
          | Some ip =>
              fsm (writei ip target 0 (Z.of_nat (length target))) ;;
              fsm (iunlockput ip) ;;
              end_op ;;
              mret 0
          end
      end
  end.
End code.

(** * Arguments *)
Section arguments.
Context {T D : Type} `{Transactions T} `{Devices D}.
Implicit Types s : sys T D.

(** A string of the process: where it is. *)
Definition string_at s (p : Z) (l : cstring) : Prop :=
  0 <= p ∧ p + Z.of_nat (length l) < usz s ∧
  (∀ k c, l !! k = Some c → umem s (p + Z.of_nat k) = c ∧ c ≠ 0) ∧ umem s (p + Z.of_nat (length l)) = 0.

Lemma scan_str_spec m a n : match scan_str m a n with
  | Some l => (length l < n)%nat ∧ (∀ k c, l !! k = Some c → m (a + Z.of_nat k) = c ∧ c ≠ 0) ∧ m (a + Z.of_nat (length l)) = 0
  | None => ∀ k, (k < n)%nat → m (a + Z.of_nat k) ≠ 0
  end.
Proof.
  revert a. induction n as [|n IH]; intros a; cbn [scan_str]; [lia|]. destruct (Z.eqb_spec (m a) 0) as [E|E].
  - split; [simpl; lia|]. split; [done|]. simpl. by rewrite Z.add_0_r.
  - specialize (IH (a + 1)). destruct (scan_str m (a + 1) n) as [l|]; simpl.
    + destruct IH as (Hl & Hk & Hz). split; [lia|]. split.
      * intros [|k] c Hc; simpl in Hc; [injection Hc as <-; by rewrite Z.add_0_r|].
        replace (a + Z.of_nat (S k)) with (a + 1 + Z.of_nat k) by lia. by apply Hk.
      * by replace (a + Z.of_nat (S (length l))) with (a + 1 + Z.of_nat (length l)) by lia.
    + intros [|k] Hk; [by rewrite Z.add_0_r|]. replace (a + Z.of_nat (S k)) with (a + 1 + Z.of_nat k) by lia.
      apply IH. lia.
Qed.

Definition arg_addr s (n : Z) : Z := u32 (u32 (tf_esp s + 4) + 4 * n).
Lemma argint_spec n s : 0 <= usz s <= 2 ^ 31 →
  argint n s = Ret (if decide (arg_addr s n + 4 <= usz s) then Some (s32 (get32 (umem s) (arg_addr s n))) else None) s.
Proof.
  intros Hsz. unfold argint, fetchint, mbind, M_bind, gets. fold (arg_addr s n). pose proof (u32_range (u32 (tf_esp s + 4) + 4 * n)) as Ha.
  fold (arg_addr s n) in Ha. destruct (Z.leb_spec (usz s) (arg_addr s n)).
  - by rewrite decide_False by lia.
  - rewrite (u32_small (arg_addr s n + 4)) by lia. cbn [orb]. destruct (Z.ltb_spec (usz s) (arg_addr s n + 4)).
    + by rewrite decide_False by lia.
    + by rewrite decide_True by lia.
Qed.

Lemma argptr_spec n size s : 0 <= usz s <= 2 ^ 31 → - 2 ^ 31 <= size < 2 ^ 31 → arg_addr s n + 4 <= usz s →
  let i := s32 (get32 (umem s) (arg_addr s n)) in
  argptr n size s = Ret (if decide (0 <= size ∧ u32 i < usz s ∧ u32 i + size <= usz s) then Some (u32 i) else None) s.
Proof.
  intros Hsz Hsize Hin i. unfold argptr, mbind, M_bind, gets. rewrite (argint_spec n s Hsz), decide_True by done. fold i.
  pose proof (u32_range i). destruct (Z.ltb_spec size 0); cbn [orb]; [by rewrite decide_False by lia|].
  destruct (Z.leb_spec (usz s) (u32 i)); cbn [orb]; [by rewrite decide_False by lia|].
  rewrite (u32_small (u32 i + size)) by lia. destruct (Z.ltb_spec (usz s) (u32 i + size));
    [by rewrite decide_False by lia|by rewrite decide_True by lia].
Qed.
Lemma fetchstr_spec a s : 0 <= a → 
  fetchstr a s = Ret (if usz s <=? a then None else scan_str (umem s) a (Z.to_nat (usz s - a))) s ∧
  match (if usz s <=? a then None else scan_str (umem s) a (Z.to_nat (usz s - a))) with
  | Some l => string_at s a l
  | None => ∀ b, a <= b < usz s → umem s b ≠ 0
  end.
Proof.
  intros Ha. unfold fetchstr, mbind, M_bind, gets. destruct (Z.leb_spec (usz s) a) as [Hge|Hlt].
  { split; [done|]. intros b Hb. lia. }
  split; [done|]. pose proof (scan_str_spec (umem s) a (Z.to_nat (usz s - a))) as Hs.
  destruct (scan_str _ _ _) as [l|].
  - destruct Hs as (Hl & Hk & Hz). split; [done|]. split; [lia|]. done.
  - intros b Hb. specialize (Hs (Z.to_nat (b - a)) ltac:(lia)). by replace (a + Z.of_nat (Z.to_nat (b - a))) with b in Hs by lia.
Qed.

(** C28: what a system call may rely on, for a process of at most 2 GB: an integer argument is read inside the
    process's memory; [argptr] succeeds exactly when the whole block of [size] bytes lies inside it; a string
    argument lies inside it with its NUL, and [argstr] fails for an address
    inside the process only if there is no NUL up to its end. *)
Theorem arguments_in_bounds n size s : 0 <= usz s <= 2 ^ 31 → - 2 ^ 31 <= size < 2 ^ 31 →
  ∃ oi op ol, argint n s = Ret oi s ∧ argptr n size s = Ret op s ∧ argstr n s = Ret ol s ∧
    match oi with
    | None => op = None ∧ ol = None ∧ usz s < arg_addr s n + 4
    | Some i =>
        i = s32 (get32 (umem s) (arg_addr s n)) ∧ arg_addr s n + 4 <= usz s ∧
        op = (if decide (0 <= size ∧ u32 i < usz s ∧ u32 i + size <= usz s) then Some (u32 i) else None) ∧
        match ol with
        | Some l => string_at s (u32 i) l
        | None => ∀ a, u32 i <= a < usz s → umem s a ≠ 0
        end
    end.
Proof.
  intros Hsz Hsize. pose proof (argint_spec n s Hsz) as Hi. destruct (decide (arg_addr s n + 4 <= usz s)) as [Hin|Hout].
  - set (i := s32 (get32 _ _)) in Hi. pose proof (u32_range i) as Hr.
    destruct (fetchstr_spec (u32 i) s ltac:(lia)) as [Hf Hs].
    eexists (Some i), _, _. split; [exact Hi|]. split; [by apply argptr_spec|]. split; [|by eauto].
    unfold argstr, mbind, M_bind. by rewrite Hi.
  - eexists None, None, None. unfold argptr, argstr, mbind, M_bind, gets. rewrite Hi.
    split; [done|]. split; [done|]. split; [done|]. split; [done|]. split; [done|lia].
Qed.
End arguments.

(** A process of one page with the string "ab" at 64, and pointers to it on its stack. *)
Definition demo_mem : Z → Z := put_list (put32 (put32 (λ _, 0) 2004 64) 2008 200) 64 [97; 98].
Definition demo_sys : sys () () :=
  mkSys [] demo_mem 4096 2000 0 (mkFiles [] ∅ false (mkFs [] (mkSb 0 0 0 0 0 0 0) 0 0 0 () ())).
Lemma arguments_in_bounds_witness :
  ∃ oi op ol, argint 0 demo_sys = Ret oi demo_sys ∧ argptr 0 32 demo_sys = Ret op demo_sys ∧
    argstr 0 demo_sys = Ret ol demo_sys ∧ op = Some 64.
Proof.
  destruct (arguments_in_bounds 0 32 demo_sys) as (oi & op & ol & H1 & H2 & H3 & _); [done|lia|].
  exists oi, op, ol. split; [exact H1|]. split; [exact H2|]. split; [exact H3|].
  enough (argptr 0 32 demo_sys = Ret (Some 64) demo_sys) as H4 by (rewrite H2 in H4; by injection H4).
  reflexivity.
Defined.
