(* ===== verification/Shell.v ===== *)
(** * The shell (src/03_Shell/mysh.c)

    The state is the shell's static variables: the job numbers, the table of background jobs and
    what must be freed at the end.  A line is the list of its bytes.  What the operating
    system answers is an argument: the pid of a new child, and for which pids waitpid with WNOHANG
    says that the child is gone.  What the shell does is returned as a list of events.

    [parse_roundtrip] shows that a printed command is read back as it was meant; the other theorems
    say what goes wrong at the edges. *)

From S2P Require Import Prelude.

Definition cstr := list Z.
Definition MAX_PARSE_NUM : Z := 260.
Definition MAX_SIM_JOBS : nat := 40.
Definition MAX_JID : Z := 1000.
Definition WAIT_CMD : cstr := [119; 97; 105; 116].
Definition JOBS_CMD : cstr := [106; 111; 98; 115].
Definition EXIT_CMD : cstr := [101; 120; 105; 116].
Definition amp : cstr := [38].

(** [struct job_info_s]; the flag [running] is written only. *)
Record job_info := mkJob { jobid : Z; jobpid : Z; argv : list cstr }.
Record shell := mkShell {
  jobid_next : Z;
  bg_flag : Z → Z;
  job_arr : list (option job_info);
  batch_fd : option bool;  (* open or closed; [None] without a batch file *)
  line : option bool;      (* allocated or freed; [None] without one *)
}.
Definition set_jobid_next (x : Z) (r : shell) : shell := mkShell x (bg_flag r) (job_arr r) (batch_fd r) (line r).
Definition set_bg_flag (x : Z → Z) (r : shell) : shell := mkShell (jobid_next r) x (job_arr r) (batch_fd r) (line r).
Definition set_job_arr (x : list (option job_info)) (r : shell) : shell := mkShell (jobid_next r) (bg_flag r) x (batch_fd r) (line r).
Definition set_batch_fd (x : option bool) (r : shell) : shell := mkShell (jobid_next r) (bg_flag r) (job_arr r) x (line r).
Definition set_line (x : option bool) (r : shell) : shell := mkShell (jobid_next r) (bg_flag r) (job_arr r) (batch_fd r) x.

(** What can be seen of the shell: a child with its arguments (in the background or waited for, its output
    redirected or not), the messages, the end. *)
Inductive event :=
  | Started (argv : list cstr) (background : bool) (redirect : option cstr)
  | InvalidJid (n : Z)
  | Waited (pid : Z)
  | Terminated (n : Z)
  | JobLine (n : Z) (command : list cstr)
  | TooManyJobs
  | MultipleRedirections
  | MultipleArguments
  | LineTooLong
  | Exited.
#[export] Instance event_eq_dec : EqDecision event.
Proof. solve_decision. Defined.

Section code.
Context (gone : Z → bool).

(** ** Jobs *)
Definition read_bg_flag (n : Z) : M shell Z :=
  if (0 <=? n) && (n <? MAX_JID) then gets (λ s, bg_flag s n) else fault "bg_flag index out of bounds".
Definition func_wait (n : Z) : M shell (list event) :=
  next ← gets jobid_next;
  invalid ← (if next <=? n then mret true else b ← read_bg_flag n; mret (negb (b =? 1)));
  if (invalid : bool) then mret [InvalidJid n]
  else
    l ← gets job_arr;
    mret (match find (λ o, match o with Some j => jobid j =? n | None => false end) l with
          | Some (Some j) => [Waited (jobpid j)]
          | _ => []
          end ++ [Terminated n]).

(** The clean-up of the entries whose child is gone. *)
Definition reap (l : list (option job_info)) : list (option job_info) :=
  (λ o, match o with Some j => if gone (jobpid j) then None else Some j | None => None end) <$> l.
Definition func_jobs : M shell (list event) :=
  modify (λ s, set_job_arr (reap (job_arr s)) s) ;;
  l ← gets job_arr;
  mret (omap (λ o, match o with Some j => Some (JobLine (jobid j) (argv j)) | None => None end) l).

(** [fclose] and [free] of what may be closed or freed once. *)
Definition fclose_batch : M shell () :=
  o ← gets batch_fd;
  match o with
  | None => mret ()
  | Some true => modify (set_batch_fd (Some false))
  | Some false => fault "fclose of a closed file"
  end.
Definition free_line : M shell () :=
  o ← gets line;
  match o with
  | None => mret ()
  | Some true => modify (set_line (Some false))
  | Some false => fault "double free"
  end.
Definition cleanup_slot (i : nat) : M shell () :=
  l ← gets job_arr;
  o ← aget l (Z.of_nat i);
  match o with
  | None => mret ()
  | Some _ =>
      modify (λ s, set_job_arr (<[i := None]> (job_arr s)) s) ;;
      fclose_batch ;;
      free_line
  end.
Definition exit_cleanup : M shell () := mfor (seq 0 MAX_SIM_JOBS) cleanup_slot.
Definition func_exit : M shell (list event) := exit_cleanup ;; mret [Exited].

Fixpoint free_slot (l : list (option job_info)) (i : nat) : option nat :=
  match l with
  | [] => None
  | None :: _ => Some i
  | Some _ :: l => free_slot l (i + 1)
  end.
Definition job_arr_add (args : list cstr) (pid : Z) : M shell (list event) :=
  n ← gets jobid_next;
  when (negb ((0 <=? n) && (n <? MAX_JID))) (fault "bg_flag index out of bounds") ;;
  modify (λ s, set_bg_flag (<[n := 1]> (bg_flag s)) s) ;;
  modify (λ s, set_job_arr (reap (job_arr s)) s) ;;
  l ← gets job_arr;
  match free_slot l 0 with
  | Some i => modify (λ s, set_job_arr (<[i := Some (mkJob n pid args)]> (job_arr s)) s) ;; mret []
  | None => mret [TooManyJobs]
  end.

(** [func_general_cmd]: [args] is arg_arr, with [argc] arguments; the file name of a redirection is
    [argv\[argc\]]. *)
Definition func_general_cmd (args : list cstr) (argc : Z) (bg rd : bool) (pid : Z) : M shell (list event) :=
  file ← (if rd then f ← aget args argc; mret (Some f) else mret None);
  let child := Started (take (Z.to_nat argc) args) bg file in
  evs ← (if bg then job_arr_add (take (Z.to_nat argc) args) pid else mret []);
  modify (λ s, set_jobid_next (jobid_next s + 1) s) ;;
  mret (child :: evs).

(** ** Built-in commands *)
Definition isdigit (c : Z) : bool := (48 <=? c) && (c <=? 57).
Definition isnumber (s : cstr) : bool := forallb isdigit s.
Definition atoi (s : cstr) : Z := s32 (foldl (λ n c, n * 10 + (c - 48)) 0 s).
Definition check_built_in (args : list cstr) (argc : Z) : M shell (option (list event)) :=
  if argc =? 1 then
    a0 ← aget args 0;
    if bool_decide (a0 = EXIT_CMD) then evs ← func_exit; mret (Some evs)
    else if bool_decide (a0 = JOBS_CMD) then evs ← func_jobs; mret (Some evs)
    else mret None
  else if argc =? 2 then
    a0 ← aget args 0;
    if bool_decide (a0 = WAIT_CMD) then
      a1 ← aget args 1;
      if isnumber a1 then evs ← func_wait (atoi a1); mret (Some evs) else mret (Some [InvalidJid (-1)])
    else mret None
  else mret None.

(** ** The parser *)
(** [strtok_r(command, delim, &command)] until it returns null: the non-empty fields. *)
Fixpoint split_at (delim : Z) (s : cstr) : cstr * list cstr :=
  match s with
  | [] => ([], [])
  | c :: s =>
      let '(f, fs) := split_at delim s in
      if c =? delim then ([], f :: fs) else (c :: f, fs)
  end.
Definition tokens (s : cstr) : list cstr := let '(f, fs) := split_at 32 s in filter (λ t, t ≠ []) (f :: fs).
(** [strchr(token, '>')]: what is before and after the first. *)
Fixpoint at_redirect (t : cstr) : option (cstr * cstr) :=
  match t with
  | [] => None
  | c :: t => if c =? 62 then Some ([], t) else (λ '(l, r), (c :: l, r)) <$> at_redirect t
  end.
(** The loop over the tokens: [args] are the arguments so far. *)
Fixpoint collect (ts : list cstr) (args : list cstr) (rd : bool) (after : Z) : event + (list cstr * bool) :=
  match ts with
  | [] => inr (args, rd)
  | t :: ts =>
      match at_redirect t with
      | Some (l, r) =>
          if rd || bool_decide (62 ∈ r) then inl MultipleRedirections
          else
            let args := if decide (l = []) then args else args ++ [l] in
            if decide (r = []) then collect ts args true after
            else collect ts (args ++ [r]) true (after + 1)
      | None =>
          if rd then
            if 1 <? after + 1 then inl MultipleArguments
            else collect ts (args ++ [t]) rd (after + 1)
          else collect ts (args ++ [t]) rd after
      end
  end.
(** The newline at the end of the last argument, or as the last argument. *)
Definition strip_newline (args : list cstr) (tok : cstr) : list cstr :=
  if (1 <? Z.of_nat (length tok)) && bool_decide (last tok = Some 10) then
    take (length args - 1) args ++ [take (length tok - 1) tok]
  else if bool_decide (head tok = Some 10) then take (length args - 1) args
  else args.
Definition parse_command (command : cstr) (pid : Z) : M shell (list event) :=
  match collect (tokens command) [] false 0 with
  | inl e => mret [e]
  | inr (args, rd) =>
      when (MAX_PARSE_NUM <? Z.of_nat (length args)) (fault "arg_arr index out of bounds") ;;
      match last args with
      | None => fault "arg_arr[-1]"
      | Some tok =>
          let args := strip_newline args tok in
          match last args with
          | None => mret []
          | Some tok =>
              let bg := bool_decide (tok = amp) in
              let argc := Z.of_nat (length args) - (if bg then 1 else 0) - (if rd then 1 else 0) in
              o ← check_built_in args argc;
              match o with
              | Some evs => mret evs
              | None => func_general_cmd args argc bg rd pid
              end
          end
      end
  end.

(** The batch loop of [main] over the lines that getline returns, each with the pid its child gets. *)
Fixpoint run_batch (lines : list (cstr * Z)) : M shell (list event) :=
  match lines with
  | [] => exit_cleanup ;; mret [Exited]
  | (l, pid) :: lines =>
      evs ← (if 512 <? Z.of_nat (length l) then mret [LineTooLong] else parse_command l pid);
      if bool_decide (Exited ∈ evs) then mret evs
      else rest ← run_batch lines; mret (evs ++ rest)
  end.
End code.

(** * Commands as they are meant *)
Record cmd := mkCmd { words : list cstr; redirect : option cstr; background : bool }.
Definition word_ok (w : cstr) : Prop := w ≠ [] ∧ Forall (λ c, c ≠ 32 ∧ c ≠ 62 ∧ c ≠ 10) w.
(** The shell takes a redirection or a background job, not both; a lone [&] at the end means the
    background. *)
Record cmd_ok (c : cmd) : Prop := {
  ok_words : Forall word_ok (words c);
  ok_some : words c ≠ [];
  ok_few : Z.of_nat (length (words c)) + 2 <= MAX_PARSE_NUM;
  ok_redirect : match redirect c with Some f => word_ok f ∧ f ≠ amp ∧ background c = false | None => True end;
  ok_last : background c = false → redirect c = None → last (words c) ≠ Some amp;
}.
Definition built_in (ws : list cstr) : bool :=
  match ws with
  | [w] => bool_decide (w = EXIT_CMD) || bool_decide (w = JOBS_CMD)
  | [w; _] => bool_decide (w = WAIT_CMD)
  | _ => false
  end.
(** The tokens but the last, the last, and the line. *)
Definition cmd_tokens (c : cmd) : list cstr :=
  words c ++ (match redirect c with Some f => [[62]; f] | None => [] end) ++ (if background c then [amp] else []).
Definition print_tokens (ts : list cstr) : cstr :=
  match last ts with
  | None => [10]
  | Some t => (take (length ts - 1) ts ≫= λ t, t ++ [32]) ++ t ++ [10]
  end.
Definition print_cmd (c : cmd) : cstr := print_tokens (cmd_tokens c).

Lemma split_at_word d w s : Forall (λ c, c ≠ d) w →
  split_at d (w ++ s) = let '(f, fs) := split_at d s in (w ++ f, fs).
Proof.
  induction 1 as [|c w Hc _ IH]; simpl; [by destruct (split_at d s)|]. rewrite IH. destruct (split_at d s) as [f fs].
  by rewrite (proj2 (Z.eqb_neq _ _) Hc).
Qed.
Lemma tokens_words ts t : Forall (λ w, w ≠ [] ∧ Forall (λ c, c ≠ 32) w) ts → t ≠ [] → Forall (λ c, c ≠ 32) t →
  tokens ((ts ≫= λ t, t ++ [32]) ++ t) = ts ++ [t].
Proof.
  intros Hts Ht Ht'. unfold tokens.
  assert (split_at 32 t = (t, [])) as Et by (rewrite <- (app_nil_r t) at 1; by rewrite split_at_word by done; simpl; rewrite app_nil_r).
  induction Hts as [|w ts [Hw Hw'] Hts IH]; [cbn [mbind list_bind app]; by rewrite Et, filter_cons_True|].
  cbn [mbind list_bind]. rewrite <- !app_assoc. rewrite split_at_word by done. cbn [app split_at].
  change (list_bind cstr Z (λ t0, t0 ++ [32]) ts) with (ts ≫= λ t0 : cstr, t0 ++ [32]).
  destruct (split_at 32 ((ts ≫= λ t0, t0 ++ [32]) ++ t)) as [f fs] eqn:E. cbn [Z.eqb Pos.eqb].
  rewrite app_nil_r. try rewrite E in IH. rewrite filter_cons_True by done. cbn [app]. f_equal. exact IH.
Qed.
Lemma at_redirect_none t : Forall (λ c, c ≠ 62) t → at_redirect t = None.
Proof. induction 1 as [|c t Hc _ IH]; [done|]. simpl. by rewrite (proj2 (Z.eqb_neq _ _) Hc), IH. Qed.
Lemma collect_words ts rest args : Forall (Forall (λ c, c ≠ 62)) ts →
  collect (ts ++ rest) args false 0 = collect rest (args ++ ts) false 0.
Proof.
  intros Hts. revert args. induction Hts as [|t ts Ht _ IH]; intros args; cbn [app collect]; [by rewrite app_nil_r|].
  rewrite (at_redirect_none t Ht), IH, <- app_assoc. done.
Qed.
(** Stripping the newline that was printed after the last token. *)
Lemma strip_printed args t : t ≠ [] → strip_newline (args ++ [t ++ [10]]) (t ++ [10]) = args ++ [t].
Proof.
  intros Ht. unfold strip_newline. rewrite !length_app. cbn [length].
  rewrite (proj2 (Z.ltb_lt _ _)) by (destruct t; [done|simpl; lia]).
  rewrite bool_decide_true by (by rewrite last_snoc). cbn [andb].
  by rewrite !Nat.add_sub, !take_app_length.
Qed.

(** What follows the words in [arg_arr]. *)
Definition tail_args (c : cmd) : list cstr :=
  match redirect c with Some f => [f] | None => if background c then [amp] else [] end.
Definition is_redirected (c : cmd) : bool := match redirect c with Some _ => true | None => false end.

Lemma word_no d w : word_ok w → d = 32 ∨ d = 62 ∨ d = 10 → Forall (λ c, c ≠ d) w.
Proof. intros [_ Hw] Hd. eapply Forall_impl; [exact Hw|]. intros c (? & ? & ?). lia. Qed.
Lemma amp_ok : word_ok amp.
Proof. split; [done|]. by repeat constructor. Qed.
(** The tokens of a printed line, when all but the [>] are words. *)
Lemma tokens_print ts t : Forall (λ w, word_ok w ∨ w = [62]) ts → word_ok t →
  tokens (print_tokens (ts ++ [t])) = ts ++ [t ++ [10]].
Proof.
  intros Hts Ht. unfold print_tokens. rewrite last_snoc, length_app. cbn [length]. rewrite Nat.add_sub, take_app_length.
  apply tokens_words.
  - eapply Forall_impl; [exact Hts|]. intros w [Hw| ->]; [|by repeat constructor].
    split; [apply Hw|]. by apply word_no; [|left].
  - destruct t; done.
  - apply Forall_app. split; [by apply word_no; [|left]|by repeat constructor].
Qed.
Lemma newline_no w : word_ok w → Forall (λ c, c ≠ 62) (w ++ [10]).
Proof. intros Hw. apply Forall_app. split; [by apply word_no; [|right; left]|by repeat constructor]. Qed.

(** The parser's view of a printed command. *)
Lemma collect_print c : cmd_ok c → ∃ A t, collect (tokens (print_cmd c)) [] false 0 = inr (A, is_redirected c) ∧
  last A = Some t ∧ length A = length (words c ++ tail_args c) ∧ strip_newline A t = words c ++ tail_args c.
Proof.
  intros [Hw Hne Hfew Hr Hl]. unfold print_cmd, cmd_tokens, is_redirected, tail_args.
  assert (Forall (Forall (λ c, c ≠ 62)) (words c)) as Hw62.
  { eapply Forall_impl; [exact Hw|]. intros w Hok. apply word_no; [done|by right; left]. }
  assert (Forall (λ w, word_ok w ∨ w = [62]) (words c)) as Hw'.
  { eapply Forall_impl; [exact Hw|]. by left. }
  destruct (redirect c) as [f|]; [destruct Hr as (Hf & _ & ->)|destruct (background c)].
  - exists (words c ++ [f ++ [10]]), (f ++ [10]). rewrite app_nil_r.
    change [[62]; f] with ([[62]] ++ [f]). rewrite (assoc_L (++)).
    rewrite tokens_print; [|apply Forall_app; split; [done|]; constructor; [by right|constructor]|done].
    rewrite <- (assoc_L (++)), collect_words by done. cbn [app collect at_redirect Z.eqb Pos.eqb].
    rewrite (bool_decide_false (62 ∈ ([] : cstr))) by (by intros ?%elem_of_nil). cbn [orb]. rewrite decide_True by done.
    rewrite (at_redirect_none (f ++ [10])) by (by apply newline_no).
    split; [done|]. split; [by rewrite last_snoc|]. split; [by rewrite !length_app|]. apply strip_printed, Hf.
  - exists (words c ++ [amp ++ [10]]), (amp ++ [10]). rewrite app_nil_l.
    rewrite tokens_print by (done || apply amp_ok).
    rewrite collect_words by done. cbn [app collect]. rewrite (at_redirect_none (amp ++ [10])) by (by repeat constructor).
    split; [done|]. split; [by rewrite last_snoc|]. split; [by rewrite !length_app|]. by apply strip_printed.
  - rewrite !app_nil_r. destruct (exists_last Hne) as (ws & w & E). rewrite E in *.
    apply Forall_app in Hw as [Hw Hw1]. apply Forall_cons in Hw1 as [Hw1 _].
    apply Forall_app in Hw' as [Hw' _]. apply Forall_app in Hw62 as [Hw62 _].
    exists (ws ++ [w ++ [10]]), (w ++ [10]). rewrite tokens_print by done.
    rewrite collect_words by done. cbn [app collect]. rewrite (at_redirect_none (w ++ [10])) by (by apply newline_no).
    split; [done|]. split; [by rewrite last_snoc|]. split; [by rewrite !length_app|]. apply strip_printed, Hw1.
Qed.

Lemma not_built_in gone c s : words c ≠ [] → built_in (words c) = false →
  check_built_in gone (words c ++ tail_args c) (Z.of_nat (length (words c))) s = Ret None s.
Proof.
  intros Hne Hb. unfold check_built_in. destruct (words c) as [|w1 [|w2 [|w3 ws]]]; [done| | |].
  - apply orb_false_iff in Hb as [H1 H2]. apply bool_decide_eq_false in H1, H2.
    rewrite (proj2 (Z.eqb_eq _ _)) by done. rewrite (bind_Ret _ _ s w1 s) by done. by rewrite !bool_decide_false.
  - simpl in Hb. rewrite (proj2 (Z.eqb_neq _ _)), (proj2 (Z.eqb_eq _ _)) by done.
    rewrite (bind_Ret _ _ s w1 s) by done. by rewrite Hb.
  - rewrite !(proj2 (Z.eqb_neq _ _)) by (cbn [length]; lia). done.
Qed.
Lemma free_slot_spec l i : match free_slot l i with
  | Some j => (i <= j)%nat ∧ l !! (j - i)%nat = Some None
  | None => True
  end.
Proof.
  revert i. induction l as [|[j|] l IH]; intros i; cbn [free_slot]; [done| |by rewrite Nat.sub_diag].
  specialize (IH (i + 1)%nat). destruct (free_slot l (i + 1)) as [k|]; [|done]. destruct IH as [Hk Hl]. split; [lia|].
  by replace (k - i)%nat with (S (k - (i + 1))) by lia.
Qed.

(** C29: a command that is printed as a line, its words, a redirection or an ampersand, and a newline, is read
    back as it was meant: if it is not a built-in command, one child is started with exactly its words, its file and
    its place, the job number goes up by one, and a background child is in the job table under its number unless the
    table was full. *)
Theorem parse_roundtrip gone c pid s : cmd_ok c → built_in (words c) = false → 0 <= jobid_next s < MAX_JID →
  ∃ evs s', parse_command gone (print_cmd c) pid s = Ret (Started (words c) (background c) (redirect c) :: evs) s' ∧
    jobid_next s' = jobid_next s + 1 ∧
    if background c then
      bg_flag s' = <[jobid_next s := 1]> (bg_flag s) ∧
      (evs = [TooManyJobs] ∨ evs = [] ∧ Some (mkJob (jobid_next s) pid (words c)) ∈ job_arr s')
    else evs = [] ∧ s' = set_jobid_next (jobid_next s + 1) s.
Proof.
  intros Hok Hb Hn. destruct (collect_print c Hok) as (A & t & Hcol & Ht & HA & Hstrip).
  pose proof Hok as [Hw Hne Hfew Hr Hl]. unfold parse_command. rewrite Hcol, Ht, Hstrip.
  assert (length (tail_args c) <= 1)%nat as Htl by (unfold tail_args; repeat case_match; simpl; lia).
  rewrite (bind_Ret _ _ s () s) by (rewrite HA, length_app, (proj2 (Z.ltb_ge _ _)) by lia; done).
  assert (∃ t', last (words c ++ tail_args c) = Some t' ∧ bool_decide (t' = amp) = background c ∧
    Z.of_nat (length (words c ++ tail_args c)) - (if background c then 1 else 0) - (if is_redirected c then 1 else 0) =
    Z.of_nat (length (words c))) as (t' & Ht' & Hbg & Hargc).
  { rewrite length_app. unfold tail_args, is_redirected. destruct (redirect c) as [f|] eqn:Er.
    - destruct Hr as (Hf & Hfa & ->). exists f. rewrite last_snoc. split; [done|]. split; [by apply bool_decide_false|simpl; lia].
    - destruct (background c) eqn:Eb.
      + exists amp. rewrite last_snoc. split; [done|]. split; [done|simpl; lia].
      + rewrite app_nil_r. destruct (last (words c)) as [t'|] eqn:El; [|by apply last_None in El].
        exists t'. split; [done|]. split; [apply bool_decide_false; intros ->; by apply Hl|simpl; lia]. }
  rewrite Ht', Hbg, Hargc. cbn zeta. rewrite (bind_Ret _ _ _ _ _ (not_built_in gone c s Hne Hb)).
  unfold func_general_cmd. rewrite Nat2Z.id, take_app_length.
  assert ((if is_redirected c then f ← aget (words c ++ tail_args c) (Z.of_nat (length (words c))); mret (Some f)
    else mret None) s = Ret (redirect c) s) as Hfile.
  { unfold is_redirected, tail_args. destruct (redirect c) as [f|]; [|done]. unfold mbind, M_bind, aget.
    rewrite (proj2 (Z.ltb_ge _ _)) by lia. rewrite Nat2Z.id, lookup_app_r, Nat.sub_diag by lia. done. }
  rewrite (bind_Ret _ _ _ _ _ Hfile). destruct (background c); [|by eexists _, _].
  unfold job_arr_add. unfold mbind, M_bind, gets, modify. 
  rewrite (proj2 (Z.leb_le _ _)), (proj2 (Z.ltb_lt _ _)) by lia. cbn [andb negb when mret M_ret jobid_next set_bg_flag].
  unfold mret, M_ret. set (s1 := set_job_arr _ _). pose proof (free_slot_spec (job_arr s1) 0) as Hfree.
  destruct (free_slot (job_arr s1) 0) as [k|].
  - eexists _, _. split; [reflexivity|]. split; [done|]. split; [done|]. right. split; [done|].
    destruct Hfree as [_ Hk]. rewrite Nat.sub_0_r in Hk. apply list_elem_of_lookup_2 with k.
    apply list_lookup_insert_eq. by eapply lookup_lt_Some.
  - eexists _, _. split; [reflexivity|]. split; [done|]. split; [done|]. by left.
Qed.

(** * At the edges *)
Definition jobs (l : list (option job_info)) : list job_info := omap id l.
Lemma cleanup_slot_spec s d o l : job_arr s = d ++ o :: l → cleanup_slot (length d) s =
  match o with
  | None => Ret () s
  | Some _ => (fclose_batch ;; free_line) (set_job_arr (d ++ None :: l) s)
  end.
Proof.
  intros Hl. unfold cleanup_slot, mbind, M_bind, gets, aget, modify.
  rewrite (proj2 (Z.ltb_ge _ _)), Nat2Z.id, Hl, lookup_app_r, Nat.sub_diag by lia. cbn [lookup list_lookup].
  destruct o as [j|]; [|done]. unfold mret, M_ret. rewrite Hl, insert_app_r_alt, Nat.sub_diag by lia. done.
Qed.
Lemma cleanup_next {A} d (o : A) l : seq (length d) (length (o :: l)) = length d :: seq (length (d ++ [o])) (length l).
Proof. rewrite length_app, Nat.add_1_r. done. Qed.
Lemma cleanup_none s d l : job_arr s = d ++ l → jobs l = [] → mfor (seq (length d) (length l)) cleanup_slot s = Ret () s.
Proof.
  revert d. induction l as [|[j|] l IH]; intros d Hl Hj; [done|done|].
  rewrite cleanup_next. cbn [mfor]. unfold mbind, M_bind. rewrite (cleanup_slot_spec s d None l Hl).
  apply IH; [by rewrite <- app_assoc|done].
Qed.
Lemma cleanup_closed s d l : job_arr s = d ++ l → jobs l ≠ [] → batch_fd s = Some false →
  mfor (seq (length d) (length l)) cleanup_slot s = Fault "fclose of a closed file".
Proof.
  revert d. induction l as [|[j|] l IH]; intros d Hl Hj Hb; [done| |].
  - rewrite cleanup_next. cbn [mfor]. unfold mbind at 1, M_bind at 1. rewrite (cleanup_slot_spec s d (Some j) l Hl).
    unfold fclose_batch, mbind, M_bind, gets. cbn [batch_fd set_job_arr]. by rewrite Hb.
  - rewrite cleanup_next. cbn [mfor]. unfold mbind, M_bind. rewrite (cleanup_slot_spec s d None l Hl).
    apply IH; [by rewrite <- app_assoc|done|done].
Qed.
Lemma cleanup_open s d l : job_arr s = d ++ l → batch_fd s = Some true → line s = Some true →
  mfor (seq (length d) (length l)) cleanup_slot s =
  match jobs l with
  | [] => Ret () s
  | [_] => Ret () (set_line (Some false) (set_batch_fd (Some false) (set_job_arr (d ++ ((λ _, None) <$> l)) s)))
  | _ => Fault "fclose of a closed file"
  end.
Proof.
  revert d. induction l as [|[j|] l IH]; intros d Hl Hb Hline; [done| |].
  - change (length (Some j :: l)) with (length (@None job_info :: l)). rewrite cleanup_next. cbn [mfor].
    unfold mbind at 1, M_bind at 1. rewrite (cleanup_slot_spec s d (Some j) l Hl).
    set (s1 := set_line (Some false) (set_batch_fd (Some false) (set_job_arr (d ++ None :: l) s))).
    assert ((fclose_batch ;; free_line) (set_job_arr (d ++ None :: l) s) = Ret () s1) as ->.
    { unfold fclose_batch, free_line, mbind, M_bind, gets. cbn [batch_fd set_job_arr]. rewrite Hb.
      unfold modify. cbn [line set_batch_fd set_job_arr]. by rewrite Hline. }
    cbv beta iota. change (jobs (Some j :: l)) with (j :: jobs l). destruct (jobs l) as [|j' js] eqn:Ej.
    + rewrite (cleanup_none s1) by (done || by rewrite <- app_assoc). unfold s1. do 4 f_equal. cbn. do 2 f_equal.
      clear -Ej. induction l as [|[j'|] l IH]; [done|done|]. cbn. f_equal. by apply IH.
    + apply cleanup_closed; [by rewrite <- app_assoc|by rewrite Ej|done].
  - rewrite cleanup_next. cbn [mfor]. unfold mbind, M_bind. rewrite (cleanup_slot_spec s d None l Hl).
    rewrite (IH (d ++ [None])) by (done || by rewrite <- app_assoc). change (jobs (None :: l)) with (jobs l).
    repeat case_match; try done. do 4 f_equal. by rewrite <- app_assoc.
Qed.

(** Leaving the shell in batch mode: with one background job in the table the batch file is closed and
    the line freed, as it should be; with none they are leaked; with two or more they are closed and freed
    once for every job, which is undefined. *)
Theorem exit_cleanup_exact s : length (job_arr s) = MAX_SIM_JOBS → batch_fd s = Some true → line s = Some true →
  exit_cleanup s =
  match jobs (job_arr s) with
  | [] => Ret () s
  | [_] => Ret () (set_line (Some false) (set_batch_fd (Some false) (set_job_arr (replicate MAX_SIM_JOBS None) s)))
  | _ => Fault "fclose of a closed file"
  end.
Proof.
  intros Hlen Hb Hl. unfold exit_cleanup. rewrite <- Hlen. change 0%nat with (length (@nil (option job_info))).
  rewrite (cleanup_open s [] (job_arr s)) by done.
  cbn [app]. replace ((λ _ : option job_info, None) <$> job_arr s) with (replicate (length (job_arr s)) (@None job_info)). { done. }
  clear. induction (job_arr s) as [|o l IH]; [done|]. cbn. by f_equal.
Qed.

(** Two lines that the parser mishandles: a line of spaces without a newline (the end of a batch file) makes it
    look before the start of [arg_arr]; and a word with a redirection but no file starts a child without
    a command whose output overwrites the file named by the word. *)
Theorem parse_edges gone n w pid s : word_ok w → w ≠ amp → 0 <= jobid_next s →
  parse_command gone (replicate n 32) pid s = Fault "arg_arr[-1]" ∧
  parse_command gone (w ++ [32; 62; 10]) pid s = Ret [Started [] false (Some w)] (set_jobid_next (jobid_next s + 1) s).
Proof.
  intros Hw Hamp Hn. split.
  - unfold parse_command. assert (tokens (replicate n 32) = []) as ->; [|done]. unfold tokens.
    assert (split_at 32 (replicate n 32) = ([], replicate n [])) as ->.
    { induction n as [|n IH]; [done|]. cbn [replicate split_at]. by rewrite IH. }
    induction n as [|n IH]; [done|]. cbn [replicate]. rewrite filter_cons_False by tauto. done.
  - unfold parse_command.
    assert (tokens (w ++ [32; 62; 10]) = [w; [62; 10]]) as ->.
    { pose proof (tokens_words [w] [62; 10]) as Ht. cbn [mbind list_bind app] in Ht. rewrite app_nil_r, <- app_assoc in Ht.
      apply Ht; [|done|by repeat constructor]. constructor; [|done]. split; [apply Hw|]. by apply word_no; [|left]. }
    assert (Forall (λ c, c ≠ 62) w) as Hw62 by (apply word_no; [done|by right; left]).
    change [w; [62; 10]] with ([w] ++ [[62; 10]]). rewrite collect_words by (by constructor).
    change (collect [[62; 10]] ([] ++ [w]) false 0) with (inr (A := event) ([w; [10]], true)).
    cbv beta iota. rewrite (bind_Ret _ _ s () s) by done. change (last [w; [10]]) with (Some [10]). cbv beta iota.
    change (strip_newline [w; [10]] [10]) with [w]. change (last [w]) with (Some w). cbv beta iota.
    rewrite bool_decide_false by done. reflexivity.
Qed.

(** * Witnesses: [ls -l > f], two background jobs, and [ls] with an empty redirection *)
Definition ls : cstr := [108; 115].
Definition demo_cmd : cmd := mkCmd [ls; [45; 108]] (Some [102]) false.
Definition demo_shell (js : list (option job_info)) : shell :=
  mkShell 2 (λ _, 1) (js ++ replicate (MAX_SIM_JOBS - length js) None) (Some true) (Some true).
Lemma ls_ok : word_ok ls.
Proof. split; [done|]. by repeat constructor. Qed.
Lemma parse_roundtrip_witness : cmd_ok demo_cmd ∧
  ∃ evs s', parse_command (λ _, false) (print_cmd demo_cmd) 7 (demo_shell []) =
    Ret (Started [ls; [45; 108]] false (Some [102]) :: evs) s'.
Proof.
  assert (cmd_ok demo_cmd) as Hok.
  { split; try done.
    - cbn. repeat (apply Forall_cons_2 || apply Forall_nil_2); [apply ls_ok|]. split; [done|]. by repeat constructor.
    - split; [|done]. split; [done|]. by repeat constructor. }
  split; [exact Hok|].
  destruct (parse_roundtrip (λ _, false) demo_cmd 7 (demo_shell []) Hok) as (evs & s' & H & _); [done|done|].
  by exists evs, s'.
Defined.
Definition demo_job : job_info := mkJob 0 5 [ls].
Lemma exit_cleanup_exact_witness :
  exit_cleanup (demo_shell [Some demo_job; Some demo_job]) = Fault "fclose of a closed file".
Proof. apply (exit_cleanup_exact (demo_shell [Some demo_job; Some demo_job])); done. Defined.
Lemma parse_edges_witness :
  parse_command (λ _, false) (ls ++ [32; 62; 10]) 7 (demo_shell []) =
    Ret [Started [] false (Some ls)] (set_jobid_next 3 (demo_shell [])).
Proof. apply (parse_edges (λ _, false) 3 ls 7 (demo_shell [])); [apply ls_ok|done|done]. Defined.
