(* ===== verification/Fscheck.v ===== *)
(** * The file-system checker (src/07_xv6_File_System/PartB/fscheck.c)

    The image is mapped into memory: [img] is its bytes, [fs_size] its size; past the end, to the
    end of the page, the mapping reads as zeros, and beyond it there is nothing.  The arrays that main
    allocates are the state; malloc gives what it is asked for.  print_err ends the program: it
    is [Panic] with the message.  Arithmetic on int that overflows is undefined.

    The second half shows what an accepted image is. *)

From S2P Require Import Prelude Blocks.

Definition ROOTINO : Z := 1.
Definition NDIRECT : Z := 12.
Definition NINDIRECT : Z := BSIZE / 4.
Definition BPB : Z := BSIZE * 8.
(** The offsets of the fields of [struct superblock] and [struct dinode]. *)
Definition superblk : Z := BSIZE.
Definition sb_nblocks : Z := superblk + 4.
Definition sb_ninodes : Z := superblk + 8.
Definition sb_inodestart : Z := superblk + 20.
Definition sb_bmapstart : Z := superblk + 24.
Definition DINODE : Z := 64.
Definition di_size (curr : Z) : Z := curr + 8.
Definition di_addrs (curr i : Z) : Z := curr + 12 + 4 * i.

(** The arrays that main allocates. *)
Record chk := mkChk {
  dmap : list Z;
  data_use : list Z;
  inode_use : list Z;
  dir_inode : list Z;
}.
Definition set_dmap (x : list Z) (r : chk) : chk := mkChk x (data_use r) (inode_use r) (dir_inode r).
Definition set_data_use (x : list Z) (r : chk) : chk := mkChk (dmap r) x (inode_use r) (dir_inode r).
Definition set_inode_use (x : list Z) (r : chk) : chk := mkChk (dmap r) (data_use r) x (dir_inode r).
Definition set_dir_inode (x : list Z) (r : chk) : chk := mkChk (dmap r) (data_use r) (inode_use r) x.

Definition print_err {A} (msg : string) : M chk A := panic msg.
(** The value of an int expression. *)
Definition int (z : Z) : M chk Z := if (- 2 ^ 31 <=? z) && (z <? 2 ^ 31) then mret z else fault "signed overflow".
(** An assignment to an element of one of the arrays. *)
Definition aset (get : chk → list Z) (put : list Z → chk → chk) (i v : Z) : M chk () :=
  l ← gets get;
  if (0 <=? i) && (i <? Z.of_nat (length l)) then modify (put (<[Z.to_nat i := v]> l)) else fault "array index out of bounds".
Definition use_data (i : Z) : M chk () := aset data_use set_data_use i 1.
Definition use_inode (i : Z) : M chk () := aset inode_use set_inode_use i 1.
Definition refer_inode (i : Z) : M chk () := aset dir_inode set_dir_inode i 1.
(** [malloc] and [memset] of an array of ints. *)
Definition int_array (n : Z) : M chk (list Z) := if n <? 0 then fault "malloc failed" else mret (replicate (Z.to_nat n) 0).

Section code.
Context (img : Z → Z) (fs_size : Z).

(** Reading at an offset from [fs_ptr]. *)
Definition page_end : Z := (fs_size + 4095) / 4096 * 4096.
Definition rd8 (p : Z) : M chk Z :=
  if (0 <=? p) && (p <? fs_size) then mret (img p)
  else if (fs_size <=? p) && (p <? page_end) then mret 0
  else fault "read outside the mapping".
Definition rd16 (p : Z) : M chk Z := b0 ← rd8 p; b1 ← rd8 (p + 1); mret (s16 (b0 + b1 * 2 ^ 8)).
Definition rd32 (p : Z) : M chk Z :=
  b0 ← rd8 p; b1 ← rd8 (p + 1); b2 ← rd8 (p + 2); b3 ← rd8 (p + 3);
  mret (s32 (b0 + b1 * 2 ^ 8 + b2 * 2 ^ 16 + b3 * 2 ^ 24)).

(** The loops of [cal_num_block] over block addresses, which are at the offsets [ps]. *)
Fixpoint count_addrs (ps : list Z) (num_b : Z) : M chk Z :=
  match ps with
  | [] => mret num_b
  | p :: ps =>
      a ← rd32 p;
      if negb (a =? 0) then use_data a ;; count_addrs ps (num_b + 1) else count_addrs ps num_b
  end.
Definition direct_addrs (curr : Z) : list Z := di_addrs curr <$> seqZ 0 NDIRECT.
Definition indirect_addrs (data_add : Z) : list Z := (λ i, data_add + 4 * i) <$> seqZ 0 NINDIRECT.
Definition cal_num_block (curr : Z) : M chk Z :=
  num_b ← count_addrs (direct_addrs curr) 0;
  a ← rd32 (di_addrs curr NDIRECT);
  if a =? 0 then mret num_b
  else
    use_data a ;;
    data_add ← int (a * BSIZE);
    count_addrs (indirect_addrs data_add) num_b.

Definition check_dot (inode data_b_add : Z) : M chk Z :=
  dot ← int (data_b_add * BSIZE);
  temp ← rd16 dot;
  when (negb (inode =? temp)) (print_err "ERROR: current directory mismatch.") ;;
  mret temp.

Definition count_refer_node (ref_inode : Z) : M chk () :=
  mfor (seqZ 0 (512 / 16)) (λ i,
    temp ← rd16 (ref_inode + 16 * i);
    when (negb (temp =? 0)) (refer_inode temp)).

(** The loop of [init_map] over the block numbers. *)
Fixpoint init_map_loop (l : list Z) (curr_pos map_ptr : Z) : M chk () :=
  match l with
  | [] => mret ()
  | i :: l =>
      b ← rd8 map_ptr;
      aset dmap set_dmap i (Z.land (Z.shiftl 1 curr_pos) b) ;;
      if curr_pos =? 7 then init_map_loop l 0 (map_ptr + 1) else init_map_loop l (curr_pos + 1) map_ptr
  end.
Definition init_map : M chk () :=
  bmapstart ← rd32 sb_bmapstart;
  map_ptr ← int (bmapstart * BSIZE);
  nblocks ← rd32 sb_nblocks;
  init_map_loop (seqZ 0 nblocks) 0 map_ptr.

(** The bodies of the loops of main, for the inode at [temp_i]. *)
Definition check_inode (first_inode i : Z) : M chk () :=
  let temp_i := first_inode + DINODE * i in
  type ← rd16 temp_i;
  when (negb (type =? 0)) (
    use_inode (i + 1) ;;
    when (negb (type =? 1) && negb (type =? 2) && negb (type =? 3)) (print_err "ERROR: bad inode.") ;;
    file_size ← rd32 (di_size temp_i);
    num_of_block ← cal_num_block temp_i;
    when ((num_of_block * BSIZE <? file_size) || (file_size <? (num_of_block - 1) * BSIZE))
      (print_err "ERROR: bad size in inode.")).
Definition check_directory (inodes i : Z) : M chk () :=
  let temp_i := inodes + DINODE * i in
  when (i =? ROOTINO) (
    type ← rd16 temp_i;
    when (negb (type =? 1)) (print_err "ERROR: root directory does not exist.") ;;
    a ← rd32 (di_addrs temp_i 0);
    dir ← int (BSIZE * a);
    d0 ← rd16 dir;
    when (negb (d0 =? ROOTINO)) (print_err "ERROR: root directory does not exist.") ;;
    d1 ← rd16 (dir + 16);
    when (negb (d1 =? ROOTINO)) (print_err "ERROR: root directory does not exist.")) ;;
  type ← rd16 temp_i;
  when (type =? 1) (a ← rd32 (di_addrs temp_i 0); check_dot i a ;; mret ()).
Definition check_used (i : Z) : M chk () :=
  u ← gets data_use; u ← aget u i;
  when (u =? 1) (m ← gets dmap; m ← aget m i;
    when (m =? 0) (print_err "ERROR: bitmap marks data free but data block used by inode.")).
Definition check_marked (i : Z) : M chk () :=
  m ← gets dmap; m ← aget m i;
  when (negb (m =? 0)) (u ← gets data_use; u ← aget u i;
    when (u =? 0) (print_err "ERROR: bitmap marks data block in use but not used.")).
Definition refer_node (first_inode i : Z) : M chk () :=
  let temp_i := first_inode + DINODE * i in
  type ← rd16 temp_i;
  when (type =? 1) (a ← rd32 (di_addrs temp_i 0); p ← int (a * BSIZE); count_refer_node p).
Definition check_referred (i : Z) : M chk () :=
  d ← gets dir_inode; d ← aget d i;
  u ← gets inode_use; u ← aget u i;
  when ((d =? 1) && (u =? 0)) (print_err "ERROR: inode marked free but referred to in directory.") ;;
  when ((u =? 1) && (d =? 0)) (print_err "ERROR: inode marked in use but not found in a directory.").

(** main, from the mapping of the image on. *)
Definition main : M chk () :=
  inodestart ← rd32 sb_inodestart;
  inodes ← int (inodestart * BSIZE);
  let first_inode := inodes + DINODE * ROOTINO in
  nblocks ← rd32 sb_nblocks;
  map_num ← int (Z.quot nblocks BPB + 1);
  bmapstart ← rd32 sb_bmapstart;
  data_block ← int (bmapstart + map_num);
  data_ptr ← int (data_block * BSIZE);
  n ← int (map_num * BPB);
  ninodes ← rd32 sb_ninodes;
  a1 ← int_array n;
  a2 ← int_array nblocks;
  a3 ← int_array ninodes;
  a4 ← int_array ninodes;
  modify (λ _, mkChk a1 a2 a3 a4) ;;
  init_map ;;
  last ← int (ninodes - 1);
  mfor (seqZ 0 last) (check_inode first_inode) ;;
  mfor (seqZ 0 ninodes) (check_directory inodes) ;;
  mfor (seqZ 0 nblocks) check_used ;;
  let data_begin := Z.quot data_ptr BSIZE in
  mfor (seqZ data_begin (n - data_begin)) check_marked ;;
  mfor (seqZ 0 ninodes) (refer_node first_inode) ;;
  mfor (seqZ 0 ninodes) check_referred.
End code.

(** * What an accepted image is *)
Section spec.
Context (img : Z → Z) (fs_size : Z).

Definition g8 (p : Z) : Z := if (0 <=? p) && (p <? fs_size) then img p else 0.
Definition g16 (p : Z) : Z := s16 (g8 p + g8 (p + 1) * 2 ^ 8).
Definition g32 (p : Z) : Z := s32 (g8 p + g8 (p + 1) * 2 ^ 8 + g8 (p + 2) * 2 ^ 16 + g8 (p + 3) * 2 ^ 24).
Definition nblocks : Z := g32 sb_nblocks.
Definition ninodes : Z := g32 sb_ninodes.
Definition inodes : Z := g32 sb_inodestart * BSIZE.
Definition bitmap : Z := g32 sb_bmapstart * BSIZE.
(** The first data block. *)
Definition data_begin : Z := g32 sb_bmapstart + (nblocks / BPB + 1).

(** Inode [i] and its blocks: of data, and with the indirect block. *)
Definition ino (i : Z) : Z := inodes + DINODE * i.
Definition itype (i : Z) : Z := g16 (ino i).
Definition isize (i : Z) : Z := g32 (di_size (ino i)).
Definition addr (i k : Z) : Z := g32 (di_addrs (ino i) k).
Definition nonzero (l : list Z) : list Z := filter (λ a, a ≠ 0) l.
Definition direct (i : Z) : list Z := g32 <$> direct_addrs (ino i).
Definition entries (i : Z) : list Z :=
  if addr i NDIRECT =? 0 then [] else g32 <$> indirect_addrs (addr i NDIRECT * BSIZE).
Definition data_blocks (i : Z) : list Z := nonzero (direct i) ++ nonzero (entries i).
Definition blocks (i : Z) : list Z := nonzero (direct i) ++ nonzero [addr i NDIRECT] ++ nonzero (entries i).
Definition in_use (i : Z) : Prop := 1 <= i < ninodes ∧ itype i ≠ 0.
Definition bit (b : Z) : bool := Z.testbit (g8 (bitmap + b / 8)) (b mod 8).
(** The inode number in entry [k] of the first block of directory [i]. *)
Definition block_entry (b k : Z) : Z := g16 (b * BSIZE + 16 * k).
Definition entry (i k : Z) : Z := block_entry (addr i 0) k.
(** The loop over the inodes ends with the one behind the last. *)
Definition refers (i j : Z) : Prop := itype i = 1 ∧ ∃ k, 0 <= k < 32 ∧ entry i k = j.
Definition uses (b : Z) : Prop := ∃ i, in_use i ∧ b ∈ blocks i.

Record consistent : Prop := {
  co_type i : in_use i → itype i = 1 ∨ itype i = 2 ∨ itype i = 3;
  co_size i : in_use i → (Z.of_nat (length (data_blocks i)) - 1) * BSIZE <= isize i <= Z.of_nat (length (data_blocks i)) * BSIZE;
  co_root : ROOTINO < ninodes → itype ROOTINO = 1 ∧ entry ROOTINO 0 = ROOTINO ∧ entry ROOTINO 1 = ROOTINO;
  co_dot i : 0 <= i < ninodes → itype i = 1 → entry i 0 = i;
  co_used b : 0 <= b < nblocks → uses b → bit b = true;
  co_marked b : data_begin <= b < nblocks → bit b = true → uses b;
  co_refer j : 1 <= j < ninodes → itype j ≠ 0 ↔ ∃ i, 1 <= i <= ninodes ∧ refers i j;
}.
(** Every read is inside the image, every block number below [nblocks], every inode number in
    the directories below [ninodes]. *)
Record readable : Prop := {
  re_size : 2 * BSIZE <= fs_size < 2 ^ 31;
  re_nblocks : 0 <= nblocks <= 2 ^ 30;
  re_ninodes : 0 <= ninodes;
  re_inodes : 0 <= inodes ∧ inodes + DINODE * (ninodes + 1) <= fs_size;
  re_bitmap : 0 <= bitmap ∧ bitmap + nblocks / 8 + 1 <= fs_size ∧ data_begin * BSIZE < 2 ^ 31;
  re_blocks i : in_use i → ∀ b, b ∈ blocks i → 0 <= b < nblocks;
  re_ind i : in_use i → addr i NDIRECT ≠ 0 → (addr i NDIRECT + 1) * BSIZE <= fs_size;
  re_dir i : 0 <= i <= ninodes → itype i = 1 → 0 <= addr i 0 ∧ (addr i 0 + 1) * BSIZE <= fs_size;
  re_entry i k : 1 <= i <= ninodes → itype i = 1 → 0 <= k < 32 → 0 <= entry i k < ninodes;
}.
(** ** Consistency of an image, whatever a checker looks at

    Entry [n] of a directory lies within its size and in block [n / 32] of its blocks. *)
Definition dirent (i n : Z) : option Z :=
  if 16 * n <? isize i
  then (λ b, block_entry b (n mod 32)) <$> (data_blocks i !! Z.to_nat (n / 32)) else None.
Definition lists (i j : Z) : Prop := itype i = 1 ∧ ∃ n, 0 <= n ∧ dirent i n = Some j.

(** Directory, file, device or symbolic link; a root; "." right everywhere; the bitmap
    marks exactly the data blocks in use; the inodes in use are the ones named. *)
Record valid : Prop := {
  va_type i : in_use i → itype i = 1 ∨ itype i = 2 ∨ itype i = 3 ∨ itype i = 4;
  va_size i : in_use i → (Z.of_nat (length (data_blocks i)) - 1) * BSIZE <= isize i <= Z.of_nat (length (data_blocks i)) * BSIZE;
  va_root : ROOTINO < ninodes ∧ itype ROOTINO = 1 ∧ dirent ROOTINO 0 = Some ROOTINO ∧ dirent ROOTINO 1 = Some ROOTINO;
  va_dot i : in_use i → itype i = 1 → dirent i 0 = Some i;
  va_used b : 0 <= b < nblocks → uses b → bit b = true;
  va_marked b : data_begin <= b < nblocks → bit b = true → uses b;
  va_refer j : 1 <= j < ninodes → itype j ≠ 0 ↔ ∃ i, in_use i ∧ lists i j;
}.
(** The images for which the checker looks far enough: no symbolic links, every directory
    one block long, with nothing after its last entry, and no directory where inode 0 and
    the inode behind the last one would be. *)
Record plain : Prop := {
  pl_inodes : ROOTINO < ninodes;
  pl_ends : itype 0 ≠ 1 ∧ itype ninodes ≠ 1;
  pl_links i : in_use i → itype i ≠ 4;
  pl_block i : in_use i → itype i = 1 → data_blocks i = [addr i 0];
  pl_tail i k : in_use i → itype i = 1 → 0 <= k < 32 → isize i <= 16 * k → entry i k = 0;
}.

Lemma entry_eq i k : entry i k = block_entry (addr i 0) k.
Proof. unfold entry. reflexivity. Qed.
Lemma dirent_at i n b e : data_blocks i = [b] → 0 <= n → e = block_entry b n →
  dirent i n = if (16 * n <? isize i) && (n <? 32) then Some e else None.
Proof.
  intros Hb Hn ->. unfold dirent. rewrite Hb. destruct (16 * n <? isize i); [|reflexivity]. rewrite andb_true_l.
  destruct (Z.ltb_spec n 32) as [Hlt|Hge].
  - rewrite (Z.div_small n 32), (Z.mod_small n 32) by lia. reflexivity.
  - rewrite lookup_ge_None_2; [reflexivity|]. assert (1 <= n / 32) by (apply Z.div_le_lower_bound; lia). simpl. lia.
Qed.
Lemma some_within size n e j : 0 <= n → j ≠ 0 → (0 <= n < 32 → size <= 16 * n → e = 0) →
  (if (16 * n <? size) && (n <? 32) then Some e else None) = Some j ↔ n < 32 ∧ e = j.
Proof.
  intros Hn Hj Htl.
  destruct (Z.ltb_spec (16 * n) size), (Z.ltb_spec n 32); cbn [andb]; (split; [intros He|intros [? He]]); try discriminate; try lia.
  - injection He as ->. split; [assumption|reflexivity].
  - rewrite He. reflexivity.
Qed.
Lemma plain_dirent i n j : plain → in_use i → itype i = 1 → 0 <= n → j ≠ 0 →
  dirent i n = Some j ↔ n < 32 ∧ entry i n = j.
Proof.
  intros Hp Hu Ht Hn Hj. rewrite (dirent_at i n (addr i 0) (entry i n) (pl_block Hp i Hu Ht) Hn (entry_eq i n)).
  exact (some_within (isize i) n (entry i n) j Hn Hj (pl_tail Hp i n Hu Ht)).
Qed.
(** For these images the checker's view is the full one. *)
Lemma plain_valid : plain → consistent ↔ valid.
Proof.
  intros Hp. pose proof (pl_inodes Hp) as Hn. destruct (pl_ends Hp) as [H0 Hl].
  assert (∀ i, 0 <= i <= ninodes → itype i = 1 → in_use i) as Hdir.
  { intros i Hi Ht. split; [|by rewrite Ht]. destruct (decide (i = 0)) as [->|]; [done|].
    destruct (decide (i = ninodes)) as [->|]; [done|lia]. }
  assert (∀ j, 1 <= j → (∃ i, 1 <= i <= ninodes ∧ refers i j) ↔ ∃ i, in_use i ∧ lists i j) as Href.
  { intros j Hj. unfold refers, lists. split.
    - intros (i & Hi & Ht & k & Hk & He). assert (in_use i) as Hu by (apply Hdir; [lia|done]).
      exists i. split; [done|]. split; [done|]. exists k. split; [lia|]. apply plain_dirent; done || lia.
    - intros (i & Hu & Ht & n & Hn0 & He). apply plain_dirent in He as [Hlt He]; [|done|done|done|done|lia].
      exists i. split; [destruct Hu; lia|]. split; [done|]. by exists n. }
  assert (∀ i n j, in_use i → itype i = 1 → 0 <= n < 32 → j ≠ 0 → dirent i n = Some j ↔ entry i n = j) as Hent.
  { intros i n j Hu Ht Hi Hj. rewrite plain_dirent by (done || lia). split; [by intros [_ ?]|]. by split; [lia|]. }
  split; intros [C1 C2 C3 C4 C5 C6 C7].
  - destruct (C3 Hn) as (Ht & Hd0 & Hd1). assert (in_use ROOTINO) as Hu by (apply Hdir; [unfold ROOTINO in *; lia|done]).
    split; [|done| |intros i Hu' Ht'|done|done|].
    + intros i Hi. destruct (C1 i Hi) as [?|[?|?]]; tauto.
    + split_and!; [done|done|apply Hent; done|apply Hent; done].
    + destruct Hu' as [Hi ?]. apply Hent; [done|done|lia|lia|]. apply C4; [lia|done].
    + intros j Hj. rewrite C7 by done. apply Href. lia.
  - destruct C3 as (_ & Ht & Hd0 & Hd1). assert (in_use ROOTINO) as Hu by (apply Hdir; [unfold ROOTINO in *; lia|done]).
    split; [|done| |intros i Hi Ht'|done|done|].
    + intros i Hi. pose proof (pl_links Hp i Hi). destruct (C1 i Hi) as [?|[?|[?|?]]]; tauto.
    + intros _. split_and!; [done|apply Hent; done|apply Hent; done].
    + assert (in_use i) as Hu' by (apply Hdir; [lia|done]). pose proof Hu' as [? _].
      apply Hent; [done|done|lia|lia|]. by apply C4.
    + intros j Hj. rewrite C7 by done. symmetry. apply Href. lia.
Qed.
End spec.

(** * The checker decides it *)
(** [checks m s P Q]: [m] returns exactly if [P], and stops with a message otherwise. *)
Definition checks {S A} (m : M S A) (s : S) (P : Prop) (Q : A → S → Prop) : Prop :=
  match m s with Ret a s' => P ∧ Q a s' | Panic _ => ¬ P | _ => False end.

Section checks.
Context {S : Type}.
Implicit Types s : S.
Lemma checks_bind {A B} (m : M S A) (f : A → M S B) s (P1 P2 : Prop) (Q1 : A → S → Prop) Q2 :
  checks m s P1 Q1 → (∀ a s', P1 → Q1 a s' → checks (f a) s' P2 Q2) → checks (m ≫= f) s (P1 ∧ P2) Q2.
Proof.
  unfold checks, mbind, M_bind. destruct (m s) as [a s'| | | |]; [|tauto..]. intros [H1 HQ] Hf.
  specialize (Hf a s' H1 HQ). destruct (f a s'); tauto.
Qed.
Lemma checks_step {A B} (m : M S A) (f : A → M S B) s a s' (P : Prop) (Q : B → S → Prop) :
  m s = Ret a s' → checks (f a) s' P Q → checks (m ≫= f) s P Q.
Proof. intros Hm. unfold checks. by rewrite (bind_Ret _ _ _ _ _ Hm). Qed.
Lemma checks_iff {A} (m : M S A) s (P P' : Prop) (Q : A → S → Prop) : (P ↔ P') → checks m s P Q → checks m s P' Q.
Proof. intros HP. unfold checks. destruct (m s); tauto. Qed.
Lemma checks_ret {A} (m : M S A) s a s' (Q : A → S → Prop) : m s = Ret a s' → Q a s' → checks m s True Q.
Proof. intros Hm. unfold checks. by rewrite Hm. Qed.
(** A test that ends the program. *)
Lemma checks_test (b : bool) msg s (Q : () → S → Prop) : Q () s → checks (when b (panic msg)) s (b = false) Q.
Proof. intros HQ. unfold checks. by destruct b. Qed.
(** A loop whose turns all pass; [I] tells the state from the turns done. *)
Lemma checks_mfor {A} (l : list A) (body : A → M S ()) (P : A → Prop) (I : list A → S → Prop) (done : list A) s :
  (∀ done x s, x ∈ l → I done s → checks (body x) s (P x) (λ _ s', I (done ++ [x]) s')) →
  I done s → checks (mfor l body) s (∀ x, x ∈ l → P x) (λ _ s', I (done ++ l) s').
Proof.
  revert done s. induction l as [|x l IH]; intros done s Hbody HI.
  - rewrite app_nil_r. split; [|done]. intros x Hx. by apply not_elem_of_nil in Hx.
  - cbn [mfor]. apply (checks_iff _ _ (P x ∧ ∀ y, y ∈ l → P y)).
    { setoid_rewrite elem_of_cons. naive_solver. }
    eapply checks_bind; [apply (Hbody done x s); [set_solver|done]|]. intros [] s' _ HI'.
    replace (done ++ x :: l) with ((done ++ [x]) ++ l) by (by rewrite <- app_assoc).
    apply IH; [|done]. intros d y s2 Hy. apply Hbody. set_solver.
Qed.
End checks.

(** The arrays of marks. *)
Definition marks (n : Z) (f : Z → bool) : list Z := (λ i, if f i then 1 else 0) <$> seqZ 0 n.
Definition mem (b : Z) (l : list Z) : bool := existsb (Z.eqb b) l.

Lemma mem_elem b l : mem b l = true ↔ b ∈ l.
Proof.
  unfold mem. rewrite existsb_exists. setoid_rewrite <- list_elem_of_In. setoid_rewrite Z.eqb_eq. naive_solver.
Qed.
Lemma mem_app b l k : mem b (l ++ k) = mem b l || mem b k.
Proof. apply existsb_app. Qed.
Lemma mem_cons b a l : mem b (a :: l) = (b =? a) || mem b l.
Proof. done. Qed.
Lemma marks_ext n f g : (∀ i, 0 <= i < n → f i = g i) → marks n f = marks n g.
Proof. intros Hfg. unfold marks. apply list_fmap_ext. intros j x Hx%list_elem_of_lookup_2%elem_of_seqZ. by rewrite Hfg by lia. Qed.
Lemma marks_none n : replicate (Z.to_nat n) 0 = marks n (λ _, false).
Proof.
  unfold marks. apply list_eq. intros j. rewrite list_lookup_fmap. destruct (decide (j < Z.to_nat n)%nat).
  - rewrite lookup_replicate_2, lookup_seqZ_lt by lia. done.
  - rewrite lookup_ge_None_2, lookup_seqZ_ge by (rewrite ?length_replicate; lia). done.
Qed.
Lemma marks_lookup n f i : 0 <= i < n → marks n f !! Z.to_nat i = Some (if f i then 1 else 0).
Proof. intros Hi. unfold marks. rewrite list_lookup_fmap, lookup_seqZ_lt by lia. cbn. by rewrite Z2Nat.id by lia. Qed.
Lemma marks_set n f i : 0 <= i < n → <[Z.to_nat i := 1]> (marks n f) = marks n (λ j, f j || (j =? i)).
Proof.
  intros Hi. apply list_eq. intros j. destruct (decide (j < Z.to_nat n)%nat) as [Hj|Hj].
  - rewrite <- (Nat2Z.id j), !marks_lookup by lia. destruct (decide (Z.of_nat j = i)) as [<-|Hne].
    + rewrite list_lookup_insert_eq by (unfold marks; rewrite length_fmap, length_seqZ; lia). by rewrite Z.eqb_refl, orb_true_r.
    + rewrite list_lookup_insert_ne, marks_lookup by lia. by rewrite (proj2 (Z.eqb_neq _ _)), orb_false_r by done.
  - rewrite !lookup_ge_None_2; [done|..]; unfold marks; rewrite ?length_insert, length_fmap, length_seqZ; lia.
Qed.
Lemma aset_marks get put i n f s : get s = marks n f → 0 <= i < n →
  aset get put i 1 s = Ret () (put (marks n (λ j, f j || (j =? i))) s).
Proof.
  intros Hs Hi. unfold aset, mbind, M_bind, gets, modify. rewrite Hs. unfold marks at 1. rewrite length_fmap, length_seqZ, Z2Nat.id by lia.
  rewrite (proj2 (Z.leb_le _ _)), (proj2 (Z.ltb_lt _ _)) by lia. cbn. by rewrite marks_set.
Qed.
Lemma aget_marks n f i (s : chk) : 0 <= i < n → aget (marks n f) i s = Ret (if f i then 1 else 0) s.
Proof. intros Hi. unfold aget. destruct (Z.ltb_spec i 0); [lia|]. by rewrite marks_lookup by done. Qed.

(** ** Reading and counting *)
Section proof.
Context (img : Z → Z) (fs_size : Z).
Notation g8 := (g8 img fs_size).
Notation g16 := (g16 img fs_size).
Notation g32 := (g32 img fs_size).
Notation nblocks := (nblocks img fs_size).
Notation ninodes := (ninodes img fs_size).
Notation inodes := (inodes img fs_size).
Notation bitmap := (bitmap img fs_size).
Notation data_begin := (data_begin img fs_size).
Notation ino := (ino img fs_size).
Notation itype := (itype img fs_size).
Notation addr := (addr img fs_size).
Notation direct := (direct img fs_size).
Notation entries := (entries img fs_size).
Notation data_blocks := (data_blocks img fs_size).
Notation blocks := (blocks img fs_size).
Notation entry := (entry img fs_size).
Notation bit := (bit img fs_size).

Lemma rd8_ok p s : 0 <= p < fs_size → rd8 img fs_size p s = Ret (g8 p) s.
Proof. intros Hp. unfold rd8, Fscheck.g8. by rewrite (proj2 (Z.leb_le _ _)), (proj2 (Z.ltb_lt _ _)) by lia. Qed.
Lemma bind_rd8 {A} p (f : Z → M chk A) s : 0 <= p < fs_size → (rd8 img fs_size p ≫= f) s = f (g8 p) s.
Proof. intros Hp. by rewrite (bind_Ret _ _ _ _ _ (rd8_ok p s Hp)). Qed.
Lemma rd16_ok p s : 0 <= p → p + 2 <= fs_size → rd16 img fs_size p s = Ret (g16 p) s.
Proof. intros Hp Hle. unfold rd16. by rewrite !bind_rd8 by lia. Qed.
Lemma rd32_ok p s : 0 <= p → p + 4 <= fs_size → rd32 img fs_size p s = Ret (g32 p) s.
Proof. intros Hp Hle. unfold rd32. by rewrite !bind_rd8 by lia. Qed.
Lemma int_ok z (s : chk) : - 2 ^ 31 <= z < 2 ^ 31 → int z s = Ret z s.
Proof. intros Hz. unfold int. by rewrite (proj2 (Z.leb_le _ _)), (proj2 (Z.ltb_lt _ _)) by lia. Qed.

Lemma count_addrs_ok ps n num f s : Forall (λ p, 0 <= p ∧ p + 4 <= fs_size) ps → Forall (λ a, 0 <= a < n) (nonzero (g32 <$> ps)) →
  data_use s = marks n f →
  count_addrs img fs_size ps num s = Ret (num + Z.of_nat (length (nonzero (g32 <$> ps))))
    (set_data_use (marks n (λ b, f b || mem b (nonzero (g32 <$> ps)))) s).
Proof.
  intros Hps. revert num f s. induction Hps as [|p ps [Hp Hle] _ IH]; intros num f s Hr Hs; cbn [count_addrs fmap list_fmap].
  - unfold mret, M_ret. f_equal; [simpl; lia|]. destruct s. cbn in *. subst. unfold set_data_use. cbn. f_equal. apply marks_ext. intros. by rewrite orb_false_r.
  - rewrite (bind_Ret _ _ _ _ _ (rd32_ok p s Hp Hle)). unfold nonzero in *. cbn [fmap list_fmap] in Hr. rewrite filter_cons in Hr |- *.
    destruct (Z.eqb_spec (g32 p) 0) as [E|E]; cbn [negb].
    + rewrite decide_False in Hr |- * by tauto. by apply IH.
    + rewrite decide_True in Hr |- * by done. apply Forall_cons in Hr as [Ha Hr]. unfold use_data.
      rewrite (bind_Ret _ _ _ _ _ (aset_marks _ _ _ _ _ _ Hs Ha)). rewrite (IH _ (λ j, f j || (j =? g32 p))) by done.
      f_equal; [simpl length; lia|]. destruct s. cbn. unfold set_data_use. cbn. f_equal. apply marks_ext. intros j _. unfold mem. cbn.
      by rewrite orb_assoc.
Qed.

Context (Hre : readable img fs_size).
Lemma ino_range i : 0 <= i <= ninodes → 0 <= ino i ∧ ino i + DINODE <= fs_size.
Proof. intros Hi. destruct (re_inodes _ _ Hre) as [? ?]. unfold Fscheck.ino, DINODE in *. lia. Qed.
Lemma rd_type i s : 0 <= i <= ninodes → rd16 img fs_size (ino i) s = Ret (itype i) s.
Proof. intros Hi. destruct (ino_range i Hi). apply rd16_ok; unfold DINODE in *; lia. Qed.
Lemma rd_addr i k s : 0 <= i <= ninodes → 0 <= k <= NDIRECT → rd32 img fs_size (di_addrs (ino i) k) s = Ret (addr i k) s.
Proof. intros Hi Hk. destruct (ino_range i Hi). apply rd32_ok; unfold DINODE, di_addrs, NDIRECT in *; lia. Qed.
Lemma rd_size i s : 0 <= i <= ninodes → rd32 img fs_size (di_size (ino i)) s = Ret (isize img fs_size i) s.
Proof. intros Hi. destruct (ino_range i Hi). apply rd32_ok; unfold DINODE, di_size in *; lia. Qed.

Lemma nonzero_one a : nonzero [a] = if a =? 0 then [] else [a].
Proof.
  unfold nonzero. rewrite filter_cons, filter_nil. destruct (Z.eqb_spec a 0); [by rewrite decide_False by tauto|by rewrite decide_True].
Qed.
#[local] Opaque Fscheck.g32 seqZ marks.
Lemma cal_num_block_ok i f s : in_use img fs_size i → data_use s = marks nblocks f →
  cal_num_block img fs_size (ino i) s = Ret (Z.of_nat (length (data_blocks i)))
    (set_data_use (marks nblocks (λ b, f b || mem b (blocks i))) s).
Proof.
  intros Hu Hs. pose proof Hu as [Hi _]. destruct (ino_range i ltac:(lia)) as [Hi0 Hi1]. pose proof (re_size _ _ Hre) as Hfs.
  pose proof (re_blocks _ _ Hre i Hu) as Hb. unfold Fscheck.blocks in Hb. setoid_rewrite elem_of_app in Hb. setoid_rewrite elem_of_app in Hb.
  unfold cal_num_block. erewrite bind_Ret; [|apply count_addrs_ok with (n := nblocks) (f := f); [| |done]].
  2: { apply Forall_fmap, Forall_seqZ. intros k Hk. unfold di_addrs, DINODE, NDIRECT in *. cbn. lia. }
  2: { apply Forall_forall. intros a Ha. apply Hb. by left. }
  fold (direct i). rewrite (bind_Ret _ _ _ _ _ (rd_addr i NDIRECT _ ltac:(lia) ltac:(done))).
  unfold Fscheck.data_blocks, Fscheck.blocks, Fscheck.entries. rewrite nonzero_one.
  destruct (Z.eqb_spec (addr i NDIRECT) 0) as [E|E].
  - cbn [app]. unfold nonzero at 3 6. by rewrite filter_nil, !app_nil_r.
  - pose proof (re_ind _ _ Hre i Hu E) as Hind.
    assert (0 <= addr i NDIRECT < nblocks) as Ha by (apply Hb; right; left; rewrite nonzero_one, (proj2 (Z.eqb_neq _ _) E); set_solver).
    unfold use_data. erewrite bind_Ret; [|apply (aset_marks _ _ _ nblocks (λ b, f b || mem b (nonzero (direct i)))); [done|done]].
    rewrite (bind_Ret _ _ _ _ _ (int_ok (addr i NDIRECT * BSIZE) _ ltac:(unfold BSIZE in *; lia))).
    rewrite (count_addrs_ok _ nblocks _ (λ b, (f b || mem b (nonzero (direct i))) || (b =? addr i NDIRECT)) _); [|..].
    + f_equal; [rewrite length_app, Nat2Z.inj_add; lia|]. destruct s. unfold set_data_use. cbn. f_equal. apply marks_ext. intros b _.
      by rewrite mem_app, mem_cons, !orb_assoc.
    + apply Forall_fmap, Forall_seqZ. intros k Hk. change NINDIRECT with 128 in Hk. unfold BSIZE, compose in *. lia.
    + apply Forall_forall. intros a Hin. apply Hb. right. right. unfold Fscheck.entries. by rewrite (proj2 (Z.eqb_neq _ _) E).
    + done.
Qed.

(** ** The bitmap *)
Lemma init_map_loop_ok k a d s : (0 <= a)%Z → 0 <= bitmap → bitmap + (a + Z.of_nat k) / 8 + 1 <= fs_size →
  dmap s = d → a + Z.of_nat k <= Z.of_nat (length d) →
  ∃ d', init_map_loop img fs_size (seqZ a (Z.of_nat k)) (a mod 8) (bitmap + a / 8) s = Ret () (set_dmap d' s) ∧ length d' = length d ∧
    ∀ j, 0 <= j → d' !! Z.to_nat j = if (a <=? j) && (j <? a + Z.of_nat k) then Some (Z.land (Z.shiftl 1 (j mod 8)) (g8 (bitmap + j / 8)))
      else d !! Z.to_nat j.
Proof.
  revert a d s. induction k as [|k IH]; intros a d s Ha Hb Hend Hd Hlen.
  - exists d. split; [|split; [done|]].
    + change (Z.of_nat 0) with 0. rewrite seqZ_nil by lia. cbn. destruct s; cbn in *; by subst.
    + intros j Hj. by replace ((a <=? j) && (j <? a + Z.of_nat 0)) with false by (repeat zcase; done || lia).
  - rewrite seqZ_cons by lia. cbn [init_map_loop]. replace (Z.pred (Z.of_nat (S k))) with (Z.of_nat k) by lia.
    assert (0 <= a / 8 <= (a + Z.of_nat (S k)) / 8) as Hdiv by (split; [apply Z.div_pos; lia|apply Z.div_le_mono; lia]).
    rewrite bind_rd8 by lia.
    assert (aset dmap set_dmap a (Z.land (Z.shiftl 1 (a mod 8)) (g8 (bitmap + a / 8))) s =
      Ret () (set_dmap (<[Z.to_nat a := Z.land (Z.shiftl 1 (a mod 8)) (g8 (bitmap + a / 8))]> d) s)) as Hset.
    { unfold aset, mbind, M_bind, gets, modify. rewrite Hd, (proj2 (Z.leb_le _ _)), (proj2 (Z.ltb_lt _ _)) by lia. done. }
    rewrite (bind_Ret _ _ _ _ _ Hset). clear Hset. set (v := Z.land _ _).
    assert ((if a mod 8 =? 7 then init_map_loop img fs_size (seqZ (Z.succ a) (Z.of_nat k)) 0 (bitmap + a / 8 + 1)
      else init_map_loop img fs_size (seqZ (Z.succ a) (Z.of_nat k)) (a mod 8 + 1) (bitmap + a / 8)) =
      init_map_loop img fs_size (seqZ (a + 1) (Z.of_nat k)) ((a + 1) mod 8) (bitmap + (a + 1) / 8)) as ->.
    { change (Z.succ a) with (a + 1). destruct (Z.eqb_spec (a mod 8) 7) as [E|E].
      - replace ((a + 1) mod 8) with 0 by (Z.to_euclidean_division_equations; lia).
        replace ((a + 1) / 8) with (a / 8 + 1) by (Z.to_euclidean_division_equations; lia). by rewrite Z.add_assoc.
      - replace ((a + 1) mod 8) with (a mod 8 + 1) by (Z.to_euclidean_division_equations; lia).
        by replace ((a + 1) / 8) with (a / 8) by (Z.to_euclidean_division_equations; lia). }
    destruct (IH (a + 1) (<[Z.to_nat a := v]> d) (set_dmap (<[Z.to_nat a := v]> d) s)) as (d' & Hm & Hl & Hlk); try done; try lia.
    { by replace (a + 1 + Z.of_nat k) with (a + Z.of_nat (S k)) by lia. }
    { rewrite length_insert. lia. }
    exists d'. split; [exact Hm|]. split; [by rewrite Hl, length_insert|]. intros j Hj. rewrite Hlk by done.
    destruct (decide (j = a)) as [->|Hja].
    + replace ((a + 1 <=? a) && (a <? a + 1 + Z.of_nat k)) with false by (repeat zcase; done || lia).
      replace ((a <=? a) && (a <? a + Z.of_nat (S k))) with true by (repeat zcase; done || lia).
      apply list_lookup_insert_eq. lia.
    + rewrite list_lookup_insert_ne by lia.
      replace ((a <=? j) && (j <? a + Z.of_nat (S k))) with ((a + 1 <=? j) && (j <? a + 1 + Z.of_nat k)); [done|].
      repeat zcase; done || lia.
Qed.
(** What [dmap] holds then. *)
Definition map_of (n : Z) (d : list Z) : Prop := Z.of_nat (length d) = n ∧
  ∀ i, 0 <= i < n → ∃ v, d !! Z.to_nat i = Some v ∧ ((v =? 0) = negb ((i <? nblocks) && bit i)).
Lemma init_map_ok n s : nblocks <= n → dmap s = replicate (Z.to_nat n) 0 →
  ∃ d, init_map img fs_size s = Ret () (set_dmap d s) ∧ map_of n d.
Proof.
  intros Hn Hd. destruct (re_bitmap _ _ Hre) as (Hb0 & Hb1 & Hb2). pose proof (re_size _ _ Hre) as Hfs. pose proof (re_nblocks _ _ Hre) as Hnb.
  assert (0 <= nblocks / 8) as Hdiv by (apply Z.div_pos; lia).
  destruct (init_map_loop_ok (Z.to_nat nblocks) 0 (replicate (Z.to_nat n) 0) s) as (d & Hm & Hl & Hlk); try done.
  { rewrite Z.add_0_l, Z2Nat.id by lia. lia. }
  { rewrite length_replicate. lia. }
  exists d. rewrite length_replicate in Hl. rewrite Z2Nat.id in Hm, Hlk by lia. split.
  - unfold init_map. rewrite (bind_Ret _ _ _ _ _ (rd32_ok sb_bmapstart s ltac:(done) ltac:(unfold sb_bmapstart, superblk, BSIZE in *; lia))).
    rewrite (bind_Ret _ _ _ _ _ (int_ok (g32 sb_bmapstart * BSIZE) s ltac:(fold bitmap; lia))).
    rewrite (bind_Ret _ _ _ _ _ (rd32_ok sb_nblocks s ltac:(done) ltac:(unfold sb_nblocks, superblk, BSIZE in *; lia))).
    change (0 mod 8) with 0 in Hm. change (0 / 8) with 0 in Hm. rewrite Z.add_0_r in Hm. exact Hm.
  - split; [lia|]. intros i Hi. rewrite Hlk by lia. rewrite (proj2 (Z.leb_le _ _)) by lia. cbn [andb]. rewrite Z.add_0_l.
    destruct (Z.ltb_spec i nblocks) as [Hlt|Hge]; cbn [andb negb].
    + eexists. split; [done|]. rewrite Z.land_comm. apply land_bit. apply Z.mod_pos_bound. lia.
    + rewrite lookup_replicate_2 by lia. by exists 0.
Qed.

(** ** The loops of main *)
Definition used_blocks (i : Z) : list Z := if itype i =? 0 then [] else blocks i.
Definition after_inodes (d : list Z) (done : list Z) : chk :=
  mkChk d (marks nblocks (λ b, existsb (λ i, mem b (used_blocks (i + 1))) done))
    (marks ninodes (λ j, existsb (λ i, (j =? i + 1) && negb (itype (i + 1) =? 0)) done)) (marks ninodes (λ _, false)).
Definition inode_good (i : Z) : Prop := itype i ≠ 0 → (itype i = 1 ∨ itype i = 2 ∨ itype i = 3) ∧
  (Z.of_nat (length (data_blocks i)) - 1) * BSIZE <= isize img fs_size i <= Z.of_nat (length (data_blocks i)) * BSIZE.

Lemma existsb_snoc {A} (f : A → bool) l x : existsb f (l ++ [x]) = existsb f l || f x.
Proof. rewrite existsb_app. simpl. by rewrite orb_false_r. Qed.

Lemma checks_inodes d : checks (mfor (seqZ 0 (ninodes - 1)) (check_inode img fs_size (inodes + DINODE * ROOTINO))) (after_inodes d [])
  (∀ i, i ∈ seqZ 0 (ninodes - 1) → inode_good (i + 1)) (λ _ s', s' = after_inodes d (seqZ 0 (ninodes - 1))).
Proof.
  apply (checks_mfor _ _ (λ i, inode_good (i + 1)) (λ done s', s' = after_inodes d done) []); [|done].
  intros done i s Hi%elem_of_seqZ ->. unfold check_inode.
  replace (inodes + DINODE * ROOTINO + DINODE * i) with (ino (i + 1)) by (unfold Fscheck.ino, ROOTINO; lia).
  eapply checks_step; [apply rd_type; lia|]. unfold inode_good.
  destruct (Z.eqb_spec (itype (i + 1)) 0) as [E|E]; cbn [negb when].
  - apply (checks_iff _ _ True); [tauto|]. eapply checks_ret; [done|]. unfold after_inodes. f_equal; apply marks_ext; intros b _; rewrite existsb_snoc.
    + unfold used_blocks at 3. rewrite (proj2 (Z.eqb_eq _ _) E). by rewrite orb_false_r.
    + rewrite (proj2 (Z.eqb_eq _ _) E). by rewrite andb_false_r, orb_false_r.
  - assert (in_use img fs_size (i + 1)) as Hu by (split; [lia|done]).
    eapply checks_step; [apply (aset_marks inode_use set_inode_use _ ninodes _ (after_inodes d done) eq_refl); lia|]. cbn beta.
    apply (checks_iff _ _ ((negb (itype (i + 1) =? 1) && negb (itype (i + 1) =? 2) && negb (itype (i + 1) =? 3) = false) ∧
      ((Z.of_nat (length (data_blocks (i + 1))) * BSIZE <? isize img fs_size (i + 1))
       || (isize img fs_size (i + 1) <? (Z.of_nat (length (data_blocks (i + 1))) - 1) * BSIZE) = false))).
    { rewrite !andb_false_iff, orb_false_iff, !negb_false_iff, !Z.eqb_eq, !Z.ltb_ge. tauto. }
    set (s1 := set_inode_use _ _).
    eapply checks_bind; [apply (checks_test _ _ _ (λ _ s', s' = s1)); done|]. intros [] s' _ ->.
    eapply checks_step; [apply rd_size; lia|]. eapply checks_step; [apply (cal_num_block_ok _ (λ b, existsb (λ i, mem b (used_blocks (i + 1))) done) s1 Hu eq_refl)|].
    apply checks_test. unfold after_inodes, s1, set_data_use, set_inode_use. cbn. f_equal; apply marks_ext; intros b _; rewrite existsb_snoc.
    + unfold used_blocks at 3. by rewrite (proj2 (Z.eqb_neq _ _) E).
    + rewrite (proj2 (Z.eqb_neq _ _) E). by rewrite andb_true_r.
Qed.

Definition directory_good (i : Z) : Prop :=
  (i = ROOTINO → itype i = 1 ∧ entry i 0 = ROOTINO ∧ entry i 1 = ROOTINO) ∧ (itype i = 1 → entry i 0 = i).
Lemma rd_entry i k s : 0 <= i <= ninodes → itype i = 1 → 0 <= k < 32 →
  rd16 img fs_size (addr i 0 * BSIZE + 16 * k) s = Ret (entry i k) s.
Proof.
  intros Hi Ht Hk. destruct (re_dir _ _ Hre i Hi Ht) as [Ha Hb]. unfold BSIZE in *. apply rd16_ok; unfold BSIZE; lia.
Qed.
Lemma dir_int i : 0 <= i <= ninodes → itype i = 1 → - 2 ^ 31 <= addr i 0 * BSIZE < 2 ^ 31.
Proof. intros Hi Ht. destruct (re_dir _ _ Hre i Hi Ht). pose proof (re_size _ _ Hre). unfold BSIZE in *. lia. Qed.
Lemma checks_directories s : checks (mfor (seqZ 0 ninodes) (check_directory img fs_size inodes)) s
  (∀ i, i ∈ seqZ 0 ninodes → directory_good i) (λ _ s', s' = s).
Proof.
  apply (checks_mfor _ _ directory_good (λ _ s', s' = s) []); [|done]. intros done i s' Hi%elem_of_seqZ ->.
  unfold check_directory. change (inodes + DINODE * i) with (ino i). apply (checks_bind _ _ _ _ _ (λ _ s', s' = s)).
  - destruct (Z.eqb_spec i ROOTINO) as [->|Hne]; cbn [when]; [|apply (checks_iff _ _ True); [naive_solver|by eapply checks_ret]].
    eapply checks_step; [apply rd_type; lia|].
    apply (checks_iff _ _ ((negb (itype ROOTINO =? 1) = false) ∧ ((negb (entry ROOTINO 0 =? ROOTINO) = false) ∧ (negb (entry ROOTINO 1 =? ROOTINO) = false)))).
    { rewrite !negb_false_iff, !Z.eqb_eq. tauto. }
    eapply checks_bind; [apply (checks_test _ _ _ (λ _ s', s' = s)); done|]. intros [] s' Ht ->. apply negb_false_iff, Z.eqb_eq in Ht.
    eapply checks_step; [apply rd_addr; [lia|done]|]. rewrite Z.mul_comm.
    eapply checks_step; [apply int_ok, dir_int; [lia|done]|].
    pose proof (rd_entry ROOTINO 0 s ltac:(lia) Ht ltac:(lia)) as H0e. pose proof (rd_entry ROOTINO 1 s ltac:(lia) Ht ltac:(lia)) as H1e.
    rewrite Z.mul_0_r, Z.add_0_r in H0e. rewrite Z.mul_1_r in H1e.
    eapply checks_step; [exact H0e|]. eapply checks_bind; [apply (checks_test _ _ _ (λ _ s', s' = s)); done|]. intros [] s' _ ->.
    eapply checks_step; [exact H1e|]. by apply checks_test.
  - intros [] s' _ ->. eapply checks_step; [apply rd_type; lia|].
    destruct (Z.eqb_spec (itype i) 1) as [Ht|Ht]; cbn [when]; [|apply (checks_iff _ _ True); [tauto|by eapply checks_ret]].
    eapply checks_step; [apply rd_addr; [lia|done]|].
    pose proof (rd_entry i 0 s ltac:(lia) Ht ltac:(lia)) as H0e. rewrite Z.mul_0_r, Z.add_0_r in H0e.
    apply (checks_iff _ _ ((negb (i =? entry i 0) = false ∧ True) ∧ True)).
    { rewrite negb_false_iff, Z.eqb_eq. naive_solver. }
    eapply checks_bind; [|intros t s' _ Hs'; eapply (checks_ret _ _ tt s'); [done|exact Hs']].
    unfold check_dot. eapply checks_step; [apply int_ok, dir_int; [lia|done]|]. eapply checks_step; [exact H0e|].
    eapply checks_bind; [apply (checks_test _ _ _ (λ _ s', s' = s)); done|]. intros [] s' _ ->. by eapply checks_ret.
Qed.

Definition used (b : Z) : bool := existsb (λ i, mem b (used_blocks (i + 1))) (seqZ 0 (ninodes - 1)).
Definition inode_used (j : Z) : bool := existsb (λ i, (j =? i + 1) && negb (itype (i + 1) =? 0)) (seqZ 0 (ninodes - 1)).
Definition names (i j : Z) : bool := existsb (λ k, negb (entry i k =? 0) && (j =? entry i k)) (seqZ 0 (512 / 16)).
Definition referred_by (l : list Z) (j : Z) : bool := existsb (λ i, (itype (i + 1) =? 1) && names (i + 1) j) l.
Definition with_refs (d l : list Z) : chk := mkChk d (marks nblocks used) (marks ninodes inode_used) (marks ninodes (referred_by l)).

Lemma aget_map n d i (s : chk) : map_of n d → 0 <= i < n → ∃ v, aget d i s = Ret v s ∧ (v =? 0) = negb ((i <? nblocks) && bit i).
Proof.
  intros [_ Hd] Hi. destruct (Hd i Hi) as (v & Hv & E). exists v. split; [|done]. unfold aget. destruct (Z.ltb_spec i 0); [lia|]. by rewrite Hv.
Qed.
Lemma checks_used n d l : nblocks <= n → map_of n d → checks (mfor (seqZ 0 nblocks) check_used) (with_refs d l)
  (∀ b, b ∈ seqZ 0 nblocks → used b = true → bit b = true) (λ _ s', s' = with_refs d l).
Proof.
  intros Hn Hd. apply (checks_mfor _ _ (λ b, used b = true → bit b = true) (λ _ s', s' = with_refs d l) []); [|done].
  intros _ b s Hb%elem_of_seqZ ->. unfold check_used. eapply checks_step; [done|]. cbn [data_use with_refs].
  eapply checks_step; [apply aget_marks; lia|]. destruct (used b) eqn:Eu; cbn [Z.eqb Pos.eqb when]; [|apply (checks_iff _ _ True); [done|by eapply checks_ret]].
  eapply checks_step; [done|]. cbn [dmap with_refs]. destruct (aget_map n d b (with_refs d l) Hd ltac:(lia)) as (v & Hv & E).
  eapply checks_step; [exact Hv|]. rewrite E, (proj2 (Z.ltb_lt _ _)) by lia. cbn [andb].
  apply (checks_iff _ _ (negb (bit b) = false)); [rewrite negb_false_iff; tauto|]. by apply checks_test.
Qed.
Lemma checks_marked n d l : nblocks <= n → map_of n d → 0 <= data_begin → checks (mfor (seqZ data_begin (n - data_begin)) check_marked) (with_refs d l)
  (∀ b, b ∈ seqZ data_begin (n - data_begin) → b < nblocks → bit b = true → used b = true) (λ _ s', s' = with_refs d l).
Proof.
  intros Hn Hd H0. apply (checks_mfor _ _ (λ b, b < nblocks → bit b = true → used b = true) (λ _ s', s' = with_refs d l) []); [|done].
  intros _ b s Hb%elem_of_seqZ ->. unfold check_marked. eapply checks_step; [done|]. cbn [dmap with_refs].
  destruct (aget_map n d b (with_refs d l) Hd ltac:(lia)) as (v & Hv & E). eapply checks_step; [exact Hv|]. rewrite E, negb_involutive.
  destruct (Z.ltb_spec b nblocks) as [Hlt|Hge]; cbn [andb when]; [|apply (checks_iff _ _ True); [split; intros; [lia|done]|by eapply checks_ret]].
  destruct (bit b) eqn:Eb; cbn [when]; [|apply (checks_iff _ _ True); [done|by eapply checks_ret]].
  eapply checks_step; [done|]. cbn [data_use with_refs]. eapply checks_step; [apply aget_marks; lia|].
  apply (checks_iff _ _ (((if used b then 1 else 0) =? 0) = false)); [destruct (used b); cbn; naive_solver|]. by apply checks_test.
Qed.

Lemma count_refer_ok i l f s : 1 <= i <= ninodes → itype i = 1 → (∀ k, k ∈ l → 0 <= k < 32) → dir_inode s = marks ninodes f →
  mfor l (λ k, temp ← rd16 img fs_size (addr i 0 * BSIZE + 16 * k); when (negb (temp =? 0)) (refer_inode temp)) s =
    Ret () (set_dir_inode (marks ninodes (λ j, f j || existsb (λ k, negb (entry i k =? 0) && (j =? entry i k)) l)) s).
Proof.
  intros Hi Ht. revert f s. induction l as [|k l IH]; intros f s Hl Hs; cbn [mfor].
  - unfold mret, M_ret. f_equal. destruct s. cbn in *. subst. unfold set_dir_inode. cbn. f_equal. apply marks_ext. intros. by rewrite orb_false_r.
  - rewrite (bind_Ret _ _ s () (set_dir_inode (marks ninodes (λ j, f j || negb (entry i k =? 0) && (j =? entry i k))) s)).
    + rewrite (IH (λ j, f j || negb (entry i k =? 0) && (j =? entry i k))); [|set_solver|done]. f_equal. destruct s. unfold set_dir_inode. cbn. f_equal. apply marks_ext. intros j _. cbn. by rewrite orb_assoc.
    + rewrite (bind_Ret _ _ _ _ _ (rd_entry i k s ltac:(lia) Ht ltac:(apply Hl; set_solver))).
      destruct (Z.eqb_spec (entry i k) 0) as [E|E]; cbn [negb when andb].
      * unfold mret, M_ret. f_equal. destruct s. cbn in *. subst. unfold set_dir_inode. cbn. f_equal. apply marks_ext. intros. by rewrite orb_false_r.
      * unfold refer_inode. pose proof (re_entry _ _ Hre i k Hi Ht ltac:(apply Hl; set_solver)).
        by rewrite (aset_marks dir_inode set_dir_inode _ ninodes f s Hs).
Qed.
Lemma refer_nodes_ok d : checks (mfor (seqZ 0 ninodes) (refer_node img fs_size (inodes + DINODE * ROOTINO))) (with_refs d [])
  (∀ i, i ∈ seqZ 0 ninodes → True) (λ _ s', s' = with_refs d (seqZ 0 ninodes)).
Proof.
  apply (checks_mfor _ _ (λ _, True) (λ done s', s' = with_refs d done) []); [|done]. intros done i s Hi%elem_of_seqZ ->.
  unfold refer_node. replace (inodes + DINODE * ROOTINO + DINODE * i) with (ino (i + 1)) by (unfold Fscheck.ino, ROOTINO; lia).
  eapply checks_step; [apply rd_type; lia|]. destruct (Z.eqb_spec (itype (i + 1)) 1) as [Ht|Ht]; cbn [when].
  - eapply checks_step; [apply rd_addr; [lia|done]|]. eapply checks_step; [apply int_ok, dir_int; [lia|done]|].
    eapply checks_ret; [unfold count_refer_node; apply (count_refer_ok (i + 1) _ (referred_by done) (with_refs d done)); try done; [lia|]|].
    + intros k Hk%elem_of_seqZ. change (512 / 16) with 32 in Hk. lia.
    + unfold with_refs, set_dir_inode. cbn. f_equal. apply marks_ext. intros j _. unfold referred_by at 2. rewrite existsb_snoc, Ht. done.
  - eapply checks_ret; [done|]. unfold with_refs. f_equal. apply marks_ext. intros j _. unfold referred_by at 2.
    rewrite existsb_snoc, (proj2 (Z.eqb_neq _ _) Ht). by rewrite orb_false_r.
Qed.
Lemma checks_referred d l : checks (mfor (seqZ 0 ninodes) check_referred) (with_refs d l)
  (∀ j, j ∈ seqZ 0 ninodes → inode_used j = referred_by l j) (λ _ s', s' = with_refs d l).
Proof.
  apply (checks_mfor _ _ (λ j, inode_used j = referred_by l j) (λ _ s', s' = with_refs d l) []); [|done].
  intros _ j s Hj%elem_of_seqZ ->. unfold check_referred. eapply checks_step; [done|]. cbn [dir_inode with_refs].
  eapply checks_step; [apply aget_marks; lia|]. eapply checks_step; [done|]. cbn [inode_use with_refs].
  eapply checks_step; [apply aget_marks; lia|].
  destruct (inode_used j), (referred_by l j); cbn [Z.eqb Pos.eqb andb when]; unfold checks, mret, M_ret, mbind, M_bind, panic, print_err; cbn; done.
Qed.

(** ** The marks and the specification *)
Lemma used_uses b : used b = true ↔ uses img fs_size b.
Proof.
  unfold used, uses, in_use. rewrite existsb_exists. split.
  - intros (i & Hi%list_elem_of_In%elem_of_seqZ & Hm). unfold used_blocks in Hm. destruct (Z.eqb_spec (itype (i + 1)) 0); [done|].
    exists (i + 1). split; [split; [lia|done]|by apply mem_elem].
  - intros (i & [Hi Ht] & Hb). exists (i - 1). rewrite <- list_elem_of_In, elem_of_seqZ. split; [lia|].
    unfold used_blocks. rewrite Z.sub_add, (proj2 (Z.eqb_neq _ _) Ht). by apply mem_elem.
Qed.
Lemma inode_used_spec j : inode_used j = true ↔ in_use img fs_size j.
Proof.
  unfold inode_used, in_use. rewrite existsb_exists. setoid_rewrite <- list_elem_of_In. setoid_rewrite elem_of_seqZ. split.
  - intros (i & Hi & [->%Z.eqb_eq Ht%negb_true_iff%Z.eqb_neq]%andb_true_iff). split; [lia|done].
  - intros [Hj Ht]. exists (j - 1). split; [lia|]. by rewrite Z.sub_add, Z.eqb_refl, (proj2 (Z.eqb_neq _ _) Ht).
Qed.
Lemma referred_by_spec j : referred_by (seqZ 0 ninodes) j = true ↔ j ≠ 0 ∧ ∃ i, 1 <= i <= ninodes ∧ refers img fs_size i j.
Proof.
  unfold referred_by, refers. rewrite existsb_exists. setoid_rewrite <- list_elem_of_In. setoid_rewrite elem_of_seqZ. split.
  - intros (i & Hi & [Ht%Z.eqb_eq Hn]%andb_true_iff). unfold names in Hn. apply existsb_exists in Hn as (k & Hk%list_elem_of_In%elem_of_seqZ & Hn).
    apply andb_true_iff in Hn as [Hz%negb_true_iff%Z.eqb_neq ->%Z.eqb_eq]. split; [done|]. exists (i + 1). split; [lia|]. split; [done|].
    exists k. split; [|done]. change (512 / 16) with 32 in Hk. lia.
  - intros (Hz & i & Hi & Ht & k & Hk & He). exists (i - 1). split; [lia|]. rewrite Z.sub_add, Ht. cbn [Z.eqb Pos.eqb andb].
    unfold names. apply existsb_exists. exists k. rewrite <- list_elem_of_In, elem_of_seqZ. change (512 / 16) with 32. split; [lia|].
    by rewrite He, Z.eqb_refl, (proj2 (Z.eqb_neq _ _) Hz).
Qed.
Lemma consistent_checks n : nblocks <= n → consistent img fs_size ↔
  (∀ i, i ∈ seqZ 0 (ninodes - 1) → inode_good (i + 1)) ∧ (∀ i, i ∈ seqZ 0 ninodes → directory_good i) ∧
  (∀ b, b ∈ seqZ 0 nblocks → used b = true → bit b = true) ∧
  (∀ b, b ∈ seqZ data_begin (n - data_begin) → b < nblocks → bit b = true → used b = true) ∧
  (∀ i, i ∈ seqZ 0 ninodes → True) ∧ (∀ j, j ∈ seqZ 0 ninodes → inode_used j = referred_by (seqZ 0 ninodes) j).
Proof.
  intros Hn. setoid_rewrite elem_of_seqZ. setoid_rewrite used_uses. split.
  - intros []. split_and!; try done.
    + intros i Hi Ht. assert (in_use img fs_size (i + 1)) as Hu by (split; [lia|done]). split; [by apply co_type0|by apply co_size0].
    + intros i Hi. split; [intros ->; apply co_root0; lia|by apply co_dot0].
    + intros b Hb Hlt. apply co_marked0. lia.
    + intros j Hj. apply eq_true_iff_eq. rewrite inode_used_spec, referred_by_spec. unfold in_use. split.
      * intros [Hj1 Ht]. split; [lia|]. apply co_refer0; [lia|done].
      * intros [Hz Hex]. split; [lia|]. apply co_refer0; [lia|done].
  - intros (H1 & H2 & H3 & H4 & _ & H6). split.
    + intros i [Hi Ht]. specialize (H1 (i - 1) ltac:(lia)). rewrite Z.sub_add in H1. by apply H1.
    + intros i [Hi Ht]. specialize (H1 (i - 1) ltac:(lia)). rewrite Z.sub_add in H1. by apply H1.
    + intros Hlt. by apply (H2 ROOTINO); [unfold ROOTINO in *; lia|].
    + intros i Hi. apply (H2 i). lia.
    + intros b Hb. apply H3. lia.
    + intros b Hb. apply H4; lia.
    + intros j Hj. specialize (H6 j ltac:(lia)). apply eq_iff_eq_true in H6. rewrite inode_used_spec, referred_by_spec in H6. unfold in_use in H6.
      split; [intros Ht; apply H6; split; [lia|done]|]. intros Hex. apply H6. split; [lia|done].
Qed.
Lemma main_checks s : checks (main img fs_size) s (consistent img fs_size) (λ _ _, True).
Proof.
  destruct (re_bitmap _ _ Hre) as (Hb0 & Hb1 & Hb2). pose proof (re_size _ _ Hre) as Hfs. pose proof (re_nblocks _ _ Hre) as Hnb.
  pose proof (re_ninodes _ _ Hre) as Hni. destruct (re_inodes _ _ Hre) as [Hi0 Hi1].
  assert (0 <= nblocks / BPB /\ nblocks / BPB <= 2 ^ 18) as [Hq0 Hq1].
  { unfold BPB, BSIZE. split; [apply Z.div_pos; lia|]. apply Z.div_le_upper_bound; lia. }
  assert (nblocks <= (nblocks / BPB + 1) * BPB) as Hn.
  { pose proof (Z.div_mod nblocks BPB ltac:(done)). pose proof (Z.mod_pos_bound nblocks BPB ltac:(done)). unfold BPB, BSIZE in *. lia. }
  assert (0 <= g32 sb_bmapstart) as Hbm by (unfold Fscheck.bitmap, BSIZE in Hb0; lia).
  unfold main. assert (∀ p, superblk <= p → p + 4 <= 2 * BSIZE → rd32 img fs_size p s = Ret (g32 p) s) as Hrd.
  { intros p Hp1 Hp2. apply rd32_ok; unfold superblk, BSIZE in *; lia. }
  do 1 (eapply checks_step; [by apply Hrd|]). eapply checks_step; [apply (int_ok inodes); unfold DINODE in *; lia|].
  eapply checks_step; [by apply Hrd|]. fold nblocks. rewrite Z.quot_div_nonneg by (done || lia).
  eapply checks_step; [apply int_ok; lia|]. eapply checks_step; [by apply Hrd|].
  assert (0 <= data_begin) as Hd0 by (unfold Fscheck.data_begin; lia).
  eapply checks_step; [apply (int_ok data_begin); unfold BSIZE in *; lia|].
  eapply checks_step; [apply int_ok; unfold BSIZE in *; lia|].
  eapply checks_step; [apply int_ok; unfold BPB, BSIZE in *; lia|]. eapply checks_step; [by apply Hrd|]. fold ninodes.
  set (n := (nblocks / BPB + 1) * BPB) in *.
  assert (∀ m s, 0 <= m → int_array m s = Ret (replicate (Z.to_nat m) 0) s) as Harr.
  { intros m s' Hm. unfold int_array. by rewrite (proj2 (Z.ltb_ge _ _) Hm). }
  do 4 (eapply checks_step; [apply Harr; lia|]). eapply checks_step; [done|]. cbn beta.
  destruct (init_map_ok n (mkChk (replicate (Z.to_nat n) 0) (replicate (Z.to_nat nblocks) 0) (replicate (Z.to_nat ninodes) 0)
    (replicate (Z.to_nat ninodes) 0)) Hn eq_refl) as (d & Hm & Hd).
  eapply checks_step; [exact Hm|]. eapply checks_step; [apply int_ok; unfold DINODE in *; lia|].
  rewrite Z.quot_mul by done. apply (checks_iff _ _ _ _ _ (iff_sym (consistent_checks n Hn))).
  eapply checks_bind; [unfold set_dmap; cbn [data_use inode_use dir_inode]; rewrite !marks_none; apply (checks_inodes d)|]. intros [] s1 _ ->.
  change (after_inodes d (seqZ 0 (ninodes - 1))) with (with_refs d []).
  eapply checks_bind; [apply checks_directories|]. intros [] s1 _ ->.
  eapply checks_bind; [by apply (checks_used n)|]. intros [] s1 _ ->.
  eapply checks_bind; [by apply (checks_marked n)|]. intros [] s1 _ ->.
  eapply checks_bind; [apply refer_nodes_ok|]. intros [] s1 _ ->.
  pose proof (checks_referred d (seqZ 0 ninodes)) as Hc. unfold checks in *. destruct (mfor _ _ _); tauto.
Qed.
End proof.


(** * Two images *)
(** Five blocks: boot, super, inodes, bitmap, the root directory; [nb] is the superblock's nblocks. *)
Definition small_image (nb : Z) : Z → Z :=
  let super := put32 (put32 (put32 (put32 (λ _, 0) sb_nblocks nb) sb_ninodes 2) sb_inodestart 2) sb_bmapstart 3 in
  let root := 2 * BSIZE + DINODE in
  let inode := put32 (put32 (put16 super root 1) (di_size root) 512) (di_addrs root 0) 4 in
  <[3 * BSIZE := 16]> (put16 (put16 inode (4 * BSIZE) 1) (4 * BSIZE + 16) 1).
Definition no_arrays : chk := mkChk [] [] [] [].
Lemma small_readable : readable (small_image 5) (5 * BSIZE).
Proof.
  assert (ninodes (small_image 5) (5 * BSIZE) = 2) as En by (vm_compute; done).
  assert (∀ i, in_use (small_image 5) (5 * BSIZE) i → i = 1) as Hone by (intros i [Hi _]; rewrite En in Hi; lia).
  assert (itype (small_image 5) (5 * BSIZE) 0 = 0 ∧ itype (small_image 5) (5 * BSIZE) 2 = 0) as [Et0 Et2] by (split; vm_compute; done).
  split.
  - vm_compute. split; done.
  - vm_compute. split; done.
  - vm_compute. done.
  - vm_compute. split; done.
  - vm_compute. split; [|split]; done.
  - intros i ->%Hone b Hb. replace (blocks (small_image 5) (5 * BSIZE) 1) with [4] in Hb by (vm_compute; done).
    apply list_elem_of_singleton in Hb as ->. vm_compute. split; done.
  - intros i ->%Hone H0. exfalso. apply H0. vm_compute. done.
  - rewrite En. intros i Hi Ht. destruct (decide (i = 1)) as [->|]; [vm_compute; split; done|].
    exfalso. assert (i = 0 ∨ i = 2) as [->| ->] by lia; congruence.
  - rewrite En. intros i k Hi Ht Hk. destruct (decide (i = 1)) as [->|]; [|assert (i = 2) as -> by lia; congruence].
    assert (Forall (λ k, 0 <= entry (small_image 5) (5 * BSIZE) 1 k < 2) (seqZ 0 32)) as Hall.
    { apply (bool_decide_unpack _). vm_compute. done. }
    rewrite Forall_forall in Hall. apply Hall, elem_of_seqZ. lia.
Qed.
Lemma small_plain : plain (small_image 5) (5 * BSIZE).
Proof.
  assert (ninodes (small_image 5) (5 * BSIZE) = 2) as En by (vm_compute; done).
  assert (∀ i, in_use (small_image 5) (5 * BSIZE) i → i = 1) as Hone by (intros i [Hi _]; rewrite En in Hi; lia).
  split.
  - rewrite En. done.
  - rewrite En. split; vm_compute; done.
  - intros i ->%Hone. vm_compute. done.
  - intros i ->%Hone _. vm_compute. done.
  - intros i k ->%Hone _ Hk Hs. change (isize (small_image 5) (5 * BSIZE) 1) with 512 in Hs. lia.
Qed.
(** A root directory of two blocks whose 33rd entry names the file in inode 2: consistent,
    and refused. *)
Definition two_blocks : Z → Z :=
  let super := put32 (put32 (put32 (put32 (λ _, 0) sb_nblocks 6) sb_ninodes 3) sb_inodestart 2) sb_bmapstart 3 in
  let root := 2 * BSIZE + DINODE in
  let inode := put32 (put32 (put32 (put16 super root 1) (di_size root) 528) (di_addrs root 0) 4) (di_addrs root 1) 5 in
  let file := put16 inode (2 * BSIZE + 2 * DINODE) 2 in
  <[3 * BSIZE := 48]> (put16 (put16 (put16 file (4 * BSIZE) 1) (4 * BSIZE + 16) 1) (5 * BSIZE) 2).
Example two_blocks_rejected : dirent two_blocks (6 * BSIZE) 1 32 = Some 2 ∧
  main two_blocks (6 * BSIZE) no_arrays = Panic "ERROR: inode marked in use but not found in a directory.".
Proof. split; vm_compute; done. Qed.
(** The same image with the number of data blocks that mkfs writes, 1 of 5: the data blocks' numbers are
    beyond the array data_use. *)
Example mkfs_image_faults : main (small_image 1) (5 * BSIZE) no_arrays = Fault "array index out of bounds".
Proof. vm_compute. done. Qed.
