(* ===== verification/Utilities.v ===== *)
(** * The Unix utilities (src/01_UNIX_Utilities: my-look.c, across.c, my-diff.c)

    A program is its main: a function of its arguments (argv[0] left out) in a monad whose state is
    what it has printed; the result is the exit code.  [files] is the file system.  malloc does not
    fail.  A buffer for getline is its size; how getline grows one is a parameter.

    The theorems say what the programs print on text files whose lines have no NUL and fit fgets'
    buffer. *)

From stdpp Require Import pretty.
From S2P Require Import Prelude CText.
#[local] Open Scope Z_scope.

Definition cstr := list Z.
Definition print (s : cstr) : M cstr () := modify (λ out, out ++ s).
Definition newline : cstr := [10].
Definition dict : cstr := bytes "/usr/share/dict/words".
(** [tolower], [isdigit] in the C locale. *)
Definition tolower (c : Z) : Z := if (65 <=? c) && (c <=? 90) then c + 32 else c.
Definition isdigit (c : Z) : bool := (48 <=? c) && (c <=? 57).
(** [strtol(s, NULL, 10)] of a string of digits, as an int. *)
Definition int_of_digits (s : cstr) : Z := s32 (Z.min (2 ^ 63 - 1) (foldl (λ a c, 10 * a + (c - 48)) 0 s)).
(** [line[strlen(line) - 1]] *)
Definition last_char (line : cstr) : M cstr Z := aget line (Z.of_nat (length line) - 1).
Definition u64 (z : Z) : Z := z mod 2 ^ 64.

Section programs.
Context (files : cstr → option cstr).

(** ** my-look *)
Definition str_to_lower (input_str : cstr) : cstr := tolower <$> input_str.
Definition look_line (str buffer : cstr) : M cstr () :=
  let line := c_str buffer in
  let line_lower := str_to_lower line in
  when (strncmp_eq (length str) str line_lower) (print line).
Definition my_look (argv : list cstr) : M cstr Z :=
  match argv with
  | [arg] | [arg; _] =>
      let str := str_to_lower arg in
      let filename := match argv with [_; f] => f | _ => dict end in
      match files filename with
      | None => print (bytes "my-look: cannot open file" ++ newline) ;; mret 1
      | Some fp => mfor (fgets_all 99 fp) (look_line str) ;; mret 0
      end
  | _ => print (bytes "my-look: invalid number of arguments" ++ newline) ;; mret 1
  end.

(** ** across *)
Fixpoint check_digits (input_str : cstr) : Z :=
  match input_str with [] => 0 | c :: s => if negb (isdigit c) then 1 else check_digits s end.
Fixpoint check_letters (input_str : cstr) : Z :=
  match input_str with
  | [] => 0
  | c :: s => if ((c <? 97) || (122 <? c)) && negb (c =? 10) then 1 else check_letters s
  end.
(** The body of the loop; [line + start_idx] must be inside the line. *)
Definition across_line (str : cstr) (start_idx target_len : Z) (buffer : cstr) : M cstr () :=
  let line := c_str buffer in
  let line_len := Z.of_nat (length line) in
  c ← last_char line;
  let line_len_without_n := if c =? 10 then line_len - 1 else line_len in
  when (line_len_without_n =? target_len) (
    when ((start_idx <? 0) || (line_len <? start_idx)) (fault "read outside the line") ;;
    when (strncmp_eq (length str) str (drop (Z.to_nat start_idx) line)) (
      when (check_letters line =? 0) (print line))).
Definition across (argv : list cstr) : M cstr Z :=
  match argv with
  | [str; a2; a3] | [str; a2; a3; _] =>
      if negb (check_digits a2 =? 0) || negb (check_digits a3 =? 0) then
        print (bytes "across: invalid arguments for start index or word length" ++ newline) ;; mret 1
      else
        let start_idx := int_of_digits a2 in
        let target_len := int_of_digits a3 in
        let filename := match argv with [_; _; _; f] => f | _ => dict end in
        match files filename with
        | None => print (bytes "across: cannot open file" ++ newline) ;; mret 1
        | Some fp =>
            if u64 target_len <? u64 (Z.of_nat (length str) + start_idx) then
              print (bytes "across: invalid position" ++ newline) ;; mret 1
            else mfor (fgets_all 99 fp) (across_line str start_idx target_len) ;; mret 0
        end
  | _ => print (bytes "across: invalid number of arguments" ++ newline) ;; mret 1
  end.

(** ** my-diff *)
Context (grow : Z → Z → Z).
(** [getline(&line, &read_len, fp)] for a line: what [line] points to (its size, 0 for the null pointer) and
    [read_len]; the buffer is allocated or grows to a size that [grow] chooses for what is
    needed, and a line that fits [read_len] but not the buffer is written past its end. *)
Definition getline_into (line read_len : Z) (s : cstr) : M cstr (Z * Z) :=
  let need := Z.of_nat (length s) + 1 in
  if line =? 0 then mret (grow 0 need, grow 0 need)
  else if read_len <? need then mret (grow read_len need, grow read_len need)
  else if line <? need then fault "heap buffer overflow"
  else mret (line, read_len).
(** A call that finds the end of the file still allocates. *)
Definition getline_eof (line read_len : Z) : Z := if line =? 0 then grow 0 1 else read_len.
Definition remove_newline (line : cstr) : M cstr cstr :=
  c ← last_char line;
  mret (if c =? 10 then take (length line - 1) line else line).
(** printf of the line number, if the last line was not different. *)
Definition print_lineno (last_diff lineno : Z) : M cstr () :=
  when (negb (last_diff + 1 =? lineno)) (print (bytes (pretty lineno) ++ newline)).
(** The loops at the end: the rest of the longer file, from the line that is read already. *)
Fixpoint print_rest (mark : cstr) (line read_len : Z) (s : cstr) (rest : list cstr) : M cstr () :=
  l ← remove_newline (c_str s);
  print (mark ++ l ++ newline) ;;
  match rest with
  | [] => mret ()
  | s :: rest => '(line, read_len) ← getline_into line read_len s; print_rest mark line read_len s rest
  end.
(** The loop of main and what follows, on the lines that are left. *)
Fixpoint diff_loop (linesA linesB : list cstr) (lineA lineB read_len lineno last_diff : Z) : M cstr () :=
  let lineno := lineno + 1 in
  match linesA, linesB with
  | a :: linesA, b :: linesB =>
      '(lineA, read_len) ← getline_into lineA read_len a;
      '(lineB, read_len) ← getline_into lineB read_len b;
      la ← remove_newline (c_str a);
      lb ← remove_newline (c_str b);
      if bool_decide (la = lb) then diff_loop linesA linesB lineA lineB read_len lineno last_diff
      else
        print_lineno last_diff lineno ;;
        print (bytes "< " ++ la ++ newline) ;;
        print (bytes "> " ++ lb ++ newline) ;;
        diff_loop linesA linesB lineA lineB read_len lineno lineno
  | a :: linesA, [] =>
      '(lineA, read_len) ← getline_into lineA read_len a;
      print_lineno last_diff lineno ;;
      print_rest (bytes "< ") lineA (getline_eof lineB read_len) a linesA
  | [], b :: linesB =>
      '(lineB, read_len) ← getline_into lineB (getline_eof lineA read_len) b;
      print_lineno last_diff lineno ;;
      print_rest (bytes "> ") lineB read_len b linesB
  | [], [] => mret ()
  end.
Definition my_diff (argv : list cstr) : M cstr Z :=
  match argv with
  | [fileAname; fileBname] =>
      match files fileAname, files fileBname with
      | Some fpA, Some fpB => diff_loop (getlines fpA) (getlines fpB) 0 0 0 0 (-1) ;; mret 0
      | _, _ => print (bytes "my-diff: cannot open file" ++ newline) ;; mret 1
      end
  | _ => print (bytes "my-diff: invalid number of arguments" ++ newline) ;; mret 1
  end.
End programs.

(** * What they print *)
Definition fits (n : nat) (l : cstr) : Prop := (length l <= n)%nat ∧ ∀ c, c ∈ l → c ≠ 10 ∧ c ≠ 0.
Definition strip (l : cstr) : cstr := if bool_decide (last l = Some 10) then take (length l - 1) l else l.

Lemma print_ret s out : print s out = Ret () (out ++ s).
Proof. done. Qed.
(** A loop that prints something for each element. *)
Lemma mfor_prints {A} (l : list A) (body : A → M cstr ()) (f : A → cstr) out :
  (∀ x out, x ∈ l → body x out = Ret () (out ++ f x)) → mfor l body out = Ret () (out ++ concat (f <$> l)).
Proof.
  revert out. induction l as [|x l IH]; intros out Hb; cbn [mfor fmap list_fmap concat]; [by rewrite app_nil_r|].
  rewrite (bind_Ret _ _ _ _ _ (Hb x out ltac:(set_solver))). rewrite IH by (intros; apply Hb; set_solver). by rewrite <- app_assoc.
Qed.
Lemma concat_filter {A} (P : list A → Prop) `{∀ l, Decision (P l)} (l : list (list A)) :
  concat ((λ x, if bool_decide (P x) then x else []) <$> l) = concat (filter P l).
Proof.
  induction l as [|x l IH]; [done|]. rewrite fmap_cons, filter_cons. cbn [concat]. rewrite IH.
  case_decide; [by rewrite bool_decide_eq_true_2|by rewrite bool_decide_eq_false_2].
Qed.
Lemma lines_fit n ls last : Forall (fits n) ls → fits n last →
  Forall (λ l, l ≠ [] ∧ (∀ c, c ∈ l → c ≠ 0) ∧ (length (strip l) <= n)%nat ∧ (l = strip l ∨ l = strip l ++ [10]) ∧ ∀ c, c ∈ strip l → c ≠ 10) (lines_of ls last).
Proof.
  intros Hls [Hlast Hc]. unfold lines_of. apply Forall_app. split.
  - apply Forall_fmap. eapply Forall_impl; [exact Hls|]. intros l [Hl Hlc]. cbn.
    assert (strip (l ++ [10]) = l) as ->.
    { unfold strip. rewrite bool_decide_eq_true_2 by apply last_snoc. rewrite length_app. cbn. by rewrite Nat.add_sub, take_app_length. }
    split; [by destruct l|]. split; [|split; [done|split; [by right|intros c Hin; by apply Hlc]]].
    intros c [Hin|Hin]%elem_of_app; [by apply Hlc|apply list_elem_of_singleton in Hin; lia].
  - case_decide as Hne; [done|]. constructor; [|done].
    assert (strip last = last) as ->.
    { unfold strip. rewrite bool_decide_eq_false_2; [done|]. intros Hl%last_Some_elem_of. by apply Hc in Hl as []. }
    split; [done|]. split; [intros c Hin; by apply Hc|]. split; [done|]. split; [by left|intros c Hin; by apply Hc].
Qed.
Lemma fgets_lines ls last : Forall (fits 98) ls → fits 98 last → fgets_all 99 (text ls last) = lines_of ls last.
Proof.
  intros Hls [Hlast Hc]. apply fgets_all_text; [|lia|done]. eapply Forall_impl; [exact Hls|]. intros l [Hl Hlc]. split; [lia|done].
Qed.

Section search.
Context (files : cstr → option cstr) (ls : list cstr) (lst : cstr) (Hls : Forall (fits 98) ls) (Hlast : fits 98 lst).

Lemma look_prints argv arg fname out : (argv = [arg] ∧ fname = dict ∨ argv = [arg; fname]) → (∀ c, c ∈ arg → c ≠ 0) →
  files fname = Some (text ls lst) →
  my_look files argv out = Ret 0 (out ++ concat (filter (λ l, str_to_lower arg `prefix_of` str_to_lower l) (lines_of ls lst))).
Proof.
  intros Hargv Ha Hf.
  assert (my_look files argv = (mfor (fgets_all 99 (text ls lst)) (look_line (str_to_lower arg)) ;; mret 0)) as ->.
  { destruct Hargv as [[-> ->]| ->]; unfold my_look; by rewrite Hf. }
  rewrite fgets_lines by done. rewrite (bind_Ret _ _ out () (out ++ concat (filter (λ l, str_to_lower arg `prefix_of` str_to_lower l) (lines_of ls lst)))); [done|].
  rewrite (mfor_prints _ _ (λ l, if bool_decide (str_to_lower arg `prefix_of` str_to_lower l) then l else [])).
  - do 2 f_equal. apply (concat_filter (λ l, str_to_lower arg `prefix_of` str_to_lower l)).
  - intros l out' Hl. pose proof (lines_fit 98 ls lst Hls Hlast) as Hall. rewrite Forall_forall in Hall. destruct (Hall l Hl) as (_ & H0 & _).
    unfold look_line. rewrite c_str_id by done. rewrite strncmp_eq_prefix.
    + case_bool_decide; [done|]. cbn. by rewrite app_nil_r.
    + unfold str_to_lower. intros c (d & -> & Hd)%list_elem_of_fmap. specialize (Ha d Hd). unfold tolower.
      destruct ((65 <=? d) && (d <=? 90)) eqn:E; [|done]. zbool. lia.
Qed.

Lemma check_letters_spec s : check_letters s =? 0 = bool_decide (Forall (λ c, 97 <= c <= 122 ∨ c = 10) s).
Proof.
  induction s as [|c s IH]; [done|]. cbn [check_letters].
  destruct (((c <? 97) || (122 <? c)) && negb (c =? 10)) eqn:E.
  - rewrite bool_decide_eq_false_2; [done|]. intros [Hc _]%Forall_cons. apply andb_true_iff in E as [E1 E2]. zbool.
    apply orb_true_iff in E1 as [E1|E1]; zbool; lia.
  - rewrite IH. apply bool_decide_ext. rewrite Forall_cons. split; [|tauto]. intros Hs. split; [|done].
    apply andb_false_iff in E as [E|E]; zbool; lia.
Qed.
(** The words that across looks for: of the length, with the string at the position, of small letters. *)
Definition across_matches (str : cstr) (start len : Z) (l : cstr) : Prop :=
  Z.of_nat (length (strip l)) = len ∧ take (length str) (drop (Z.to_nat start) (strip l)) = str ∧
  Forall (λ c, 97 <= c <= 122) (strip l).
#[export] Instance across_matches_dec str start len l : Decision (across_matches str start len l).
Proof. unfold across_matches. apply _. Defined.

Lemma last_char_ret l out : l ≠ [] → ∃ c, last_char l out = Ret c out ∧ last l = Some c.
Proof.
  intros Hl. destruct (last l) as [c|] eqn:E; [|by apply last_None in E]. exists c. split; [|done].
  unfold last_char, aget. assert (0 < length l)%nat as Hpos by (destruct l; simpl; [done|lia]).
  destruct (Z.ltb_spec (Z.of_nat (length l) - 1) 0); [lia|]. rewrite last_lookup in E.
  replace (Z.to_nat (Z.of_nat (length l) - 1)) with (Init.Nat.pred (length l)) by lia. by rewrite E.
Qed.
Lemma across_line_prints str start len l out : l ≠ [] → (∀ c, c ∈ l → c ≠ 0) → (l = strip l ∨ l = strip l ++ [10]) → (∀ c, c ∈ strip l → c ≠ 10) →
  (∀ c, c ∈ str → c ≠ 0 ∧ c ≠ 10) → 0 <= start → Z.of_nat (length str) + start <= len →
  across_line str start len l out = Ret () (out ++ if bool_decide (across_matches str start len l) then l else []).
Proof.
  intros Hne H0 Hs H10 Hstr Hstart Hlen. unfold across_line. rewrite c_str_id by done.
  destruct (last_char_ret l out Hne) as (c & Hc & Hlc). rewrite (bind_Ret _ _ _ _ _ Hc).
  assert ((if c =? 10 then Z.of_nat (length l) - 1 else Z.of_nat (length l)) = Z.of_nat (length (strip l))) as ->.
  { unfold strip. rewrite Hlc. destruct (Z.eqb_spec c 10) as [->|Hn].
    - rewrite bool_decide_eq_true_2, length_take by done. assert (0 < length l)%nat by (destruct l; simpl; [done|lia]). lia.
    - rewrite bool_decide_eq_false_2 by congruence. done. }
  unfold across_matches. destruct (Z.eqb_spec (Z.of_nat (length (strip l))) len) as [Hl|Hl]; cbn [when].
  2: { rewrite bool_decide_eq_false_2 by tauto. by rewrite app_nil_r. }
  assert (length (strip l) ≤ length l)%nat as Hsl by (destruct Hs as [Hs|Hs]; rewrite Hs at 2; rewrite ?length_app; lia).
  rewrite (proj2 (Z.ltb_ge start 0)), (proj2 (Z.ltb_ge _ start)) by lia. cbn [orb when].
  rewrite (bind_Ret _ _ _ () out) by done. rewrite strncmp_eq_prefix by (intros; by apply Hstr).
  assert (str `prefix_of` drop (Z.to_nat start) l ↔ take (length str) (drop (Z.to_nat start) (strip l)) = str) as Hpre.
  { assert (take (length str) (drop (Z.to_nat start) l) = take (length str) (drop (Z.to_nat start) (strip l))) as <-.
    { destruct Hs as [Hs|Hs]; [by rewrite <- Hs|]. rewrite Hs at 1. rewrite drop_app_le by lia.
      apply take_app_le. rewrite length_drop. lia. }
    split; [intros [k Hk]; rewrite Hk; apply take_app_length|]. intros Ht. exists (drop (length str) (drop (Z.to_nat start) l)).
    transitivity (take (length str) (drop (Z.to_nat start) l) ++ drop (length str) (drop (Z.to_nat start) l)); [symmetry; apply take_drop|by rewrite Ht]. }
  rewrite check_letters_spec.
  assert (Forall (λ c, 97 <= c <= 122 ∨ c = 10) l ↔ Forall (λ c, 97 <= c <= 122) (strip l)) as Hall.
  { assert (Forall (λ c, 97 <= c <= 122 ∨ c = 10) (strip l) ↔ Forall (λ c, 97 <= c <= 122) (strip l)) as <-.
    { rewrite !Forall_forall. split; intros Hf d Hd; specialize (Hf d Hd); [specialize (H10 d Hd)|]; lia. }
    destruct Hs as [Hs|Hs]; [by rewrite <- Hs|]. rewrite Hs at 1. rewrite Forall_app, Forall_singleton. tauto. }
  case_bool_decide as E1; cbn [when].
  - case_bool_decide as E2; cbn [when].
    + rewrite bool_decide_eq_true_2 by tauto. done.
    + rewrite bool_decide_eq_false_2 by tauto. by rewrite app_nil_r.
  - rewrite bool_decide_eq_false_2 by tauto. by rewrite app_nil_r.
Qed.
Lemma check_digits_spec s : check_digits s =? 0 = forallb isdigit s.
Proof. induction s as [|c s IH]; [done|]. cbn. by destruct (isdigit c). Qed.
Lemma across_prints argv str a2 a3 fname out : (argv = [str; a2; a3] ∧ fname = dict ∨ argv = [str; a2; a3; fname]) →
  (∀ c, c ∈ str → c ≠ 0 ∧ c ≠ 10) → forallb isdigit a2 && forallb isdigit a3 = true →
  0 <= int_of_digits a2 → 0 <= int_of_digits a3 → Z.of_nat (length str) < 2 ^ 32 → files fname = Some (text ls lst) →
  across files argv out =
    if int_of_digits a3 <? Z.of_nat (length str) + int_of_digits a2
    then Ret 1 (out ++ bytes "across: invalid position" ++ newline)
    else Ret 0 (out ++ concat (filter (across_matches str (int_of_digits a2) (int_of_digits a3)) (lines_of ls lst))).
Proof.
  intros Hargv Hstr Hdig H2 H3 Hlen Hf.
  assert (∀ z, s32 z < 2 ^ 31) as Hs32 by (intros z; pose proof (swrap_range 32 z ltac:(lia)); unfold s32; lia).
  pose proof (Hs32 (Z.min (2 ^ 63 - 1) (foldl (λ a c, 10 * a + (c - 48)) 0 a2))) as B2.
  pose proof (Hs32 (Z.min (2 ^ 63 - 1) (foldl (λ a c, 10 * a + (c - 48)) 0 a3))) as B3.
  fold (int_of_digits a2) in B2. fold (int_of_digits a3) in B3.
  assert (across files argv = (if u64 (int_of_digits a3) <? u64 (Z.of_nat (length str) + int_of_digits a2)
    then print (bytes "across: invalid position" ++ newline) ;; mret 1
    else mfor (fgets_all 99 (text ls lst)) (across_line str (int_of_digits a2) (int_of_digits a3)) ;; mret 0)) as ->.
  { apply andb_true_iff in Hdig as [D2 D3]. rewrite <- check_digits_spec in D2, D3.
    destruct Hargv as [[-> ->]| ->]; unfold across; rewrite D2, D3; cbn [negb orb]; by rewrite Hf. }
  assert (∀ z, 0 <= z < 2 ^ 64 → u64 z = z) as Hu by (intros z Hz; by apply Z.mod_small).
  rewrite !Hu by lia. destruct (int_of_digits a3 <? _) eqn:E; [done|]. zbool.
  rewrite fgets_lines by done.
  rewrite (bind_Ret _ _ out () (out ++ concat (filter (across_matches str (int_of_digits a2) (int_of_digits a3)) (lines_of ls lst)))); [done|].
  rewrite (mfor_prints _ _ (λ l, if bool_decide (across_matches str (int_of_digits a2) (int_of_digits a3) l) then l else [])).
  - do 2 f_equal. apply (concat_filter (across_matches str (int_of_digits a2) (int_of_digits a3))).
  - intros l out' Hl. pose proof (lines_fit 98 ls lst Hls Hlast) as Hall. rewrite Forall_forall in Hall. destruct (Hall l Hl) as (Hne & Hz & _ & Hs & H10).
    by apply across_line_prints.
Qed.
End search.

(** ** my-diff *)
(** The reference: the rows of two files (a line is missing behind the end of a file).  A row that differs is
    printed, after its number if the row before is equal. *)
Fixpoint rows (A B : list cstr) : list (option cstr * option cstr) :=
  match A, B with
  | a :: A, b :: B => (Some a, Some b) :: rows A B
  | a :: A, [] => (Some a, None) :: rows A []
  | [], B => (λ b, (None, Some b)) <$> B
  end.
Definition side (mark : cstr) (l : option cstr) : cstr := match l with Some l => mark ++ l ++ newline | None => [] end.
Fixpoint diff_rows (n : Z) (before_equal : bool) (rs : list (option cstr * option cstr)) : cstr :=
  match rs with
  | [] => []
  | (a, b) :: rs =>
      if bool_decide (a = b) then diff_rows (n + 1) true rs
      else (if before_equal then bytes (pretty n) ++ newline else []) ++ side (bytes "< ") a ++ side (bytes "> ") b ++
        diff_rows (n + 1) false rs
  end.
Definition file_rows (ls : list cstr) (last : cstr) : list cstr := ls ++ (if decide (last = []) then [] else [last]).

Section diff.
Context (grow : Z → Z → Z) (files : cstr → option cstr) (m : Z) (Hm : 0 < m) (Hgrow : ∀ need, m <= grow 0 need).
Lemma getline_fits line read_len s out : (line = 0 ∨ m <= line) → m <= read_len → Z.of_nat (length s) + 1 <= m →
  ∃ line' read_len', getline_into grow line read_len s out = Ret (line', read_len') out ∧ m <= line' ∧ m <= read_len'.
Proof.
  intros Hl Hr Hs. unfold getline_into. destruct (Z.eqb_spec line 0) as [|Hz].
  - eexists _, _. split; [done|]. split; apply Hgrow.
  - destruct (Z.ltb_spec read_len (Z.of_nat (length s) + 1)); [lia|]. destruct (Z.ltb_spec line (Z.of_nat (length s) + 1)); [lia|].
    exists line, read_len. split; [done|]. lia.
Qed.
(** The first call, on the null pointer. *)
Lemma getline_first read_len s out : ∃ line' read_len', getline_into grow 0 read_len s out = Ret (line', read_len') out ∧ m <= line' ∧ m <= read_len'.
Proof. eexists _, _. split; [done|]. split; apply Hgrow. Qed.
Lemma remove_newline_ret l out : l ≠ [] → remove_newline l out = Ret (strip l) out.
Proof.
  intros Hl. unfold remove_newline, strip. destruct (last_char_ret l out Hl) as (c & Hc & Hlc). rewrite (bind_Ret _ _ _ _ _ Hc), Hlc.
  destruct (Z.eqb_spec c 10) as [->|]; [by rewrite bool_decide_eq_true_2|by rewrite bool_decide_eq_false_2 by congruence].
Qed.

(** A line as getline reads it. *)
Definition line_ok (s : cstr) : Prop := s ≠ [] ∧ (∀ c, c ∈ s → c ≠ 0) ∧ Z.of_nat (length s) + 1 <= m.
Lemma line_ok_strip s out : line_ok s → remove_newline (c_str s) out = Ret (strip s) out.
Proof. intros (Hne & H0 & _). rewrite c_str_id by done. by apply remove_newline_ret. Qed.

Lemma print_rest_prints mark line read_len s rest out : m <= line → m <= read_len → line_ok s → Forall line_ok rest →
  print_rest grow mark line read_len s rest out = Ret () (out ++ concat ((λ s, mark ++ strip s ++ newline) <$> s :: rest)).
Proof.
  intros Hl Hr Hs Hrest. revert line read_len s out Hl Hr Hs. induction Hrest as [|s2 rest Hs2 Hrest IH]; intros line read_len s out Hl Hr Hs;
    cbn [print_rest]; rewrite (bind_Ret _ _ _ _ _ (line_ok_strip s out Hs)), (bind_Ret _ _ _ _ _ (print_ret _ _)).
  - cbn. by rewrite app_nil_r.
  - destruct (getline_fits line read_len s2 (out ++ mark ++ strip s ++ newline)) as (line' & read_len' & Hg & Hl' & Hr'); [by right|done|apply Hs2|].
    rewrite (bind_Ret _ _ _ _ _ Hg). cbv beta iota. rewrite (IH line' read_len' s2) by done.
    rewrite (fmap_cons _ s). cbn [concat]. by rewrite <- !app_assoc.
Qed.
Lemma diff_rows_left n A : diff_rows n false (rows A []) = concat ((λ l, bytes "< " ++ l ++ newline) <$> A).
Proof.
  revert n. induction A as [|a A IH]; intros n; [done|]. cbn [rows diff_rows]. rewrite bool_decide_eq_false_2 by done.
  rewrite IH, fmap_cons. cbn [side app concat]. by rewrite <- !app_assoc.
Qed.
Lemma diff_rows_right n B : diff_rows n false (rows [] B) = concat ((λ l, bytes "> " ++ l ++ newline) <$> B).
Proof.
  revert n. induction B as [|b B IH]; intros n; [done|]. cbn [rows]. rewrite !fmap_cons. cbn [diff_rows]. rewrite bool_decide_eq_false_2 by done.
  specialize (IH (n + 1)). cbn [rows] in IH. rewrite IH. cbn [side app concat]. by rewrite <- !app_assoc.
Qed.
Lemma diff_rows_first n eq a b rs : a ≠ b → diff_rows n eq ((a, b) :: rs) =
  (if eq then bytes (pretty n) ++ newline else []) ++ diff_rows n false ((a, b) :: rs).
Proof. intros Hab. cbn [diff_rows]. by rewrite !bool_decide_eq_false_2 by done. Qed.
Lemma print_lineno_ret last_diff n eq out : negb (last_diff + 1 =? n) = eq →
  print_lineno last_diff n out = Ret () (out ++ if eq then bytes (pretty n) ++ newline else []).
Proof. intros <-. unfold print_lineno. destruct (negb _); cbn [when]; [done|by rewrite app_nil_r]. Qed.

Lemma diff_loop_prints A B lineA lineB read_len n last_diff eq out : Forall line_ok A → Forall line_ok B →
  (lineA = 0 ∧ lineB = 0 ∨ m <= lineA ∧ m <= lineB ∧ m <= read_len) → last_diff <= n → negb (last_diff =? n) = eq →
  diff_loop grow A B lineA lineB read_len n last_diff out = Ret () (out ++ diff_rows (n + 1) eq (rows (strip <$> A) (strip <$> B))).
Proof.
  intros HA. revert B lineA lineB read_len n last_diff eq out. induction HA as [|a A Ha HA IH]; intros B lineA lineB read_len n last_diff eq out HB Hbuf Hle Heq.
  - destruct HB as [|b B Hb HB]; cbn [diff_loop]; [by rewrite app_nil_r|].
    assert (∃ lb rl, getline_into grow lineB (getline_eof grow lineA read_len) b out = Ret (lb, rl) out ∧ m <= lb ∧ m <= rl) as (lb & rl & Hg & Hlb & Hrl).
    { destruct Hbuf as [[-> ->]|(? & ? & ?)]; [apply getline_first|]. apply getline_fits; [by right| |apply Hb].
      unfold getline_eof. destruct (Z.eqb_spec lineA 0); [lia|done]. }
    rewrite (bind_Ret _ _ _ _ _ Hg). cbv beta iota.
    assert (negb (last_diff + 1 =? n + 1) = eq) as Heq' by (rewrite <- Heq; f_equal; apply eq_true_iff_eq; rewrite !Z.eqb_eq; lia).
    rewrite (bind_Ret _ _ _ _ _ (print_lineno_ret _ _ _ _ Heq')). rewrite print_rest_prints by done.
    change (rows (strip <$> []) (strip <$> b :: B)) with ((None : option cstr, Some (strip b)) :: rows [] (strip <$> B)).
    rewrite diff_rows_first by done. change ((None : option cstr, Some (strip b)) :: rows [] (strip <$> B)) with (rows [] (strip <$> b :: B)).
    rewrite diff_rows_right, <- list_fmap_compose, <- app_assoc. done.
  - destruct HB as [|b B Hb HB]; cbn [diff_loop].
    + assert (∃ la rl, getline_into grow lineA read_len a out = Ret (la, rl) out ∧ m <= la ∧ m <= rl) as (la & rl & Hg & Hla & Hrl).
      { destruct Hbuf as [[-> ->]|(? & ? & ?)]; [apply getline_first|]. apply getline_fits; [by right|done|apply Ha]. }
      rewrite (bind_Ret _ _ _ _ _ Hg). cbv beta iota.
      assert (negb (last_diff + 1 =? n + 1) = eq) as Heq' by (rewrite <- Heq; f_equal; apply eq_true_iff_eq; rewrite !Z.eqb_eq; lia).
      rewrite (bind_Ret _ _ _ _ _ (print_lineno_ret _ _ _ _ Heq')). rewrite print_rest_prints; [|done| |done..].
      2: { unfold getline_eof. by destruct (lineB =? 0). }
      change (rows (strip <$> a :: A) (strip <$> [])) with ((Some (strip a), None : option cstr) :: rows (strip <$> A) []).
      rewrite diff_rows_first by done. change ((Some (strip a), None : option cstr) :: rows (strip <$> A) []) with (rows (strip <$> a :: A) []).
      rewrite diff_rows_left, <- list_fmap_compose, <- app_assoc. done.
    + assert (∃ la rl lb rl', getline_into grow lineA read_len a out = Ret (la, rl) out ∧ m <= la ∧
        getline_into grow lineB rl b out = Ret (lb, rl') out ∧ m <= lb ∧ m <= rl') as (la & rl & lb & rl' & Hga & Hla & Hgb & Hlb & Hrl).
      { destruct Hbuf as [[-> ->]|(HlA & HlB & Hr)].
        - destruct (getline_first read_len a out) as (la & rl & Hga & ? & ?). destruct (getline_first rl b out) as (lb & rl' & Hgb & ? & ?). by eauto 10.
        - destruct (getline_fits lineA read_len a out) as (la & rl & Hga & ? & ?); [by right|done|apply Ha|].
          destruct (getline_fits lineB rl b out) as (lb & rl' & Hgb & ? & ?); [by right|done|apply Hb|]. by eauto 10. }
      rewrite (bind_Ret _ _ _ _ _ Hga). cbv beta iota. rewrite (bind_Ret _ _ _ _ _ Hgb). cbv beta iota.
      rewrite (bind_Ret _ _ _ _ _ (line_ok_strip a out Ha)), (bind_Ret _ _ _ _ _ (line_ok_strip b out Hb)).
      rewrite !fmap_cons. cbn [rows diff_rows]. destruct (decide (strip a = strip b)) as [E|E].
      * rewrite !bool_decide_eq_true_2 by congruence. apply IH; [done|by right|lia|]. apply negb_true_iff, Z.eqb_neq. lia.
      * rewrite !bool_decide_eq_false_2 by congruence.
        assert (negb (last_diff + 1 =? n + 1) = eq) as Heq' by (rewrite <- Heq; f_equal; apply eq_true_iff_eq; rewrite !Z.eqb_eq; lia).
        rewrite (bind_Ret _ _ _ _ _ (print_lineno_ret _ _ _ _ Heq')), !(bind_Ret _ _ _ _ _ (print_ret _ _)).
        rewrite (IH B la lb rl' (n + 1) (n + 1) false) by (done || lia || (by right) || by rewrite Z.eqb_refl).
        cbn [side]. by rewrite <- !app_assoc.
Qed.
End diff.

Lemma strip_lines n ls last : Forall (fits n) ls → fits n last → strip <$> lines_of ls last = file_rows ls last.
Proof.
  intros Hls Hlast. unfold lines_of, file_rows. rewrite fmap_app, <- list_fmap_compose. f_equal.
  - rewrite <- (list_fmap_id ls) at 2. apply list_fmap_ext. intros i l _. cbn. unfold strip.
    rewrite bool_decide_eq_true_2 by apply last_snoc. rewrite length_app. cbn. by rewrite Nat.add_sub, take_app_length.
  - repeat case_decide; try done. cbn. f_equal. unfold strip. rewrite bool_decide_eq_false_2; [done|]. intros Hl%last_Some_elem_of.
    by apply (proj2 Hlast) in Hl as [].
Qed.
(** On text files whose lines have at most 98 characters, my-look prints the lines that begin with
    its argument, whatever the case, and across the lines of small letters that have the given length and the
    string at the given position, in the order of the file. *)
Theorem search_exact files fname ls last : Forall (fits 98) ls → fits 98 last → files fname = Some (text ls last) →
  (∀ arg out, (∀ c, c ∈ arg → c ≠ 0) →
    my_look files [arg; fname] out =
      Ret 0 (out ++ concat (filter (λ l, str_to_lower arg `prefix_of` str_to_lower l) (lines_of ls last)))) ∧
  (∀ str a2 a3 out, (∀ c, c ∈ str → c ≠ 0 ∧ c ≠ 10) → forallb isdigit a2 && forallb isdigit a3 = true →
    0 <= int_of_digits a2 → 0 <= int_of_digits a3 → Z.of_nat (length str) < 2 ^ 32 →
    across files [str; a2; a3; fname] out =
      if int_of_digits a3 <? Z.of_nat (length str) + int_of_digits a2
      then Ret 1 (out ++ bytes "across: invalid position" ++ newline)
      else Ret 0 (out ++ concat (filter (across_matches str (int_of_digits a2) (int_of_digits a3)) (lines_of ls last)))).
Proof.
  intros Hls Hlast Hf. split.
  - intros arg out Ha. apply (look_prints files ls last Hls Hlast _ _ fname); auto.
  - intros str a2 a3 out Hs Hd H2 H3 Hl. apply (across_prints files ls last Hls Hlast _ _ _ _ fname); auto.
Qed.
(** C31: when every line fits the buffers that getline allocates first, my-diff prints the rows of the two files
    that differ, a line number before each group of them, and the rest of the longer file.  Otherwise it writes past a
    buffer: see [diff_overflows]. *)
Theorem diff_exact grow files m fileA fileB lsA lastA lsB lastB out : (∀ need, Z.of_nat m + 2 <= grow 0 need) →
  Forall (fits m) lsA → fits m lastA → Forall (fits m) lsB → fits m lastB →
  files fileA = Some (text lsA lastA) → files fileB = Some (text lsB lastB) →
  my_diff files grow [fileA; fileB] out =
    Ret 0 (out ++ diff_rows 1 true (rows (file_rows lsA lastA) (file_rows lsB lastB))).
Proof.
  intros Hg HA HlA HB HlB HfA HfB. unfold my_diff. rewrite HfA, HfB.
  assert (∀ ls last, Forall (fits m) ls → fits m last → getlines (text ls last) = lines_of ls last ∧ Forall (line_ok (Z.of_nat m + 2)) (lines_of ls last)) as Hlines.
  { intros ls last Hls Hlast. split.
    - apply getlines_text; [|intros c Hc; by apply Hlast]. eapply Forall_impl; [exact Hls|]. intros l Hl c Hc. by apply Hl.
    - eapply Forall_impl; [by apply lines_fit|]. intros l (Hne & H0 & Hlen & Hs & _). split; [done|]. split; [done|].
      destruct Hs as [Hs|Hs]; rewrite Hs, ?length_app; cbn [length]; lia. }
  destruct (Hlines lsA lastA HA HlA) as [EA OA]. destruct (Hlines lsB lastB HB HlB) as [EB OB]. rewrite EA, EB.
  rewrite (bind_Ret _ _ _ _ _ (diff_loop_prints grow (Z.of_nat m + 2) ltac:(lia) Hg _ _ 0 0 0 0 (-1) true out OA OB (or_introl (conj eq_refl eq_refl)) ltac:(lia) eq_refl)).
  by rewrite !(strip_lines m).
Qed.

(** * Examples *)
Definition demo_words : list cstr := [bytes "Apple"; bytes "maple"; bytes "apron"].
Definition demo_files : cstr → option cstr := λ f,
  if bool_decide (f = bytes "words") then Some (text demo_words (bytes "able"))
  else if bool_decide (f = bytes "other") then Some (text [bytes "Apple"; bytes "mopse"] []) else None.
Lemma demo_fit : Forall (fits 98) demo_words ∧ fits 98 (bytes "able") ∧ Forall (fits 98) [bytes "Apple"; bytes "mopse"] ∧ fits 98 [].
Proof.
  assert (∀ l : cstr, bool_decide (length l <= 98)%nat && bool_decide (Forall (λ c, c ≠ 10 ∧ c ≠ 0) l) = true → fits 98 l) as Hfit.
  { intros l [Hl%bool_decide_eq_true Hc%bool_decide_eq_true]%andb_true_iff. split; [done|]. by rewrite Forall_forall in Hc. }
  unfold demo_words. split; [|split; [|split]]; try (apply Hfit; vm_compute; reflexivity).
  - repeat (constructor; [apply Hfit; vm_compute; reflexivity|]). constructor.
  - repeat (constructor; [apply Hfit; vm_compute; reflexivity|]). constructor.
Qed.
Lemma search_exact_witness : my_look demo_files [bytes "AP"; bytes "words"] [] = Ret 0 (bytes "Apple" ++ [10] ++ bytes "apron" ++ [10]) ∧
  across demo_files [bytes "ap"; bytes "1"; bytes "5"; bytes "words"] [] = Ret 0 (bytes "maple" ++ [10]).
Proof.
  destruct demo_fit as (H1 & H2 & _).
  destruct (search_exact demo_files (bytes "words") demo_words (bytes "able") H1 H2 eq_refl) as [Hl Ha]. split.
  - rewrite Hl; [vm_compute; reflexivity|]. intros c Hc ->. vm_compute in Hc. clear -Hc. set_solver.
  - rewrite Ha; [vm_compute; reflexivity| |vm_compute; reflexivity|vm_compute; done|vm_compute; done|vm_compute; done].
    intros c Hc. split; intros ->; vm_compute in Hc; clear -Hc; set_solver.
Defined.
(** glibc: 120 bytes first, then at least the double. *)
Definition glibc_grow (n need : Z) : Z := if n =? 0 then Z.max 120 need else Z.max (2 * n) need.
Lemma diff_exact_witness : my_diff demo_files glibc_grow [bytes "words"; bytes "other"] [] =
  Ret 0 (bytes "2" ++ [10] ++ bytes "< maple" ++ [10] ++ bytes "> mopse" ++ [10] ++ bytes "< apron" ++ [10] ++ bytes "< able" ++ [10]).
Proof.
  destruct demo_fit as (H1 & H2 & H3 & H4).
  etrans; [apply (diff_exact glibc_grow demo_files 98 (bytes "words") (bytes "other") demo_words (bytes "able") [bytes "Apple"; bytes "mopse"] []); try done|].
  - intros need. unfold glibc_grow. cbn. lia.
  - vm_compute. reflexivity.
Defined.
(** The size [read_len] is shared by the two buffers: a line that fits the other one is written past the end. *)
Example diff_overflows : ∃ files, my_diff files glibc_grow [bytes "a"; bytes "b"] [] = Fault "heap buffer overflow".
Proof.
  exists (λ f, Some (if bool_decide (f = bytes "a") then text [[97]; replicate 200 97] [] else text [replicate 300 98; [98]] [])).
  vm_compute. reflexivity.
Qed.
(** A start index that does not fit an int becomes negative: the line is read before its beginning. *)
Example across_wild_read : across demo_files [bytes "Apple"; bytes "4294967295"; bytes "5"; bytes "words"] [] = Fault "read outside the line".
Proof. vm_compute. reflexivity. Qed.
