(* ===== verification/PageAlloc.v ===== *)
(** * What virtual memory takes from a page allocator

    [PageAllocator] is the interface of kalloc.c that vm.c calls, [PageAllocatorLaws] what it promises:
    a page that is not in use, or the null pointer, or, for want of memory, a failure of its own; and that
    pages go back.  The Rowhammer-safe allocator of v2-sort ([KallocV2]) keeps the promise. *)

From S2P Require Import Prelude KMem KallocV2.

(** [wpe E m Q s]: [m] run from [s] returns with [Q], or runs into undefined behaviour
    that [E] allows; it does not panic, block or run forever. *)
Definition wpe {S A} (E : string → Prop) (m : M S A) (Q : A → S → Prop) (s : S) : Prop :=
  match m s with Ret a s' => Q a s' | Fault w => E w | _ => False end.

Section wpe_rules.
Context {S : Type} (E : string → Prop).
Implicit Types s : S.
Lemma wpe_bind {A B} (m : M S A) (f : A → M S B) (Q : B → S → Prop) s :
  wpe E (m ≫= f) Q s ↔ wpe E m (λ a s', wpe E (f a) Q s') s.
Proof. unfold wpe, mbind, M_bind. by destruct (m s). Qed.
Lemma wpe_mono {A} (m : M S A) (P Q : A → S → Prop) s :
  wpe E m P s → (∀ a s', P a s' → Q a s') → wpe E m Q s.
Proof. unfold wpe. destruct (m s); naive_solver. Qed.
Lemma wpe_wp {A} (m : M S A) (Q : A → S → Prop) s : wp m Q s → wpe E m Q s.
Proof. unfold wp, wpe. by destruct (m s). Qed.
Lemma wpe_mret {A} (a : A) (Q : A → S → Prop) s : wpe E (mret a) Q s ↔ Q a s.
Proof. done. Qed.
Lemma wpe_gets {A} (f : S → A) (Q : A → S → Prop) s : wpe E (gets f) Q s ↔ Q (f s) s.
Proof. done. Qed.
Lemma wpe_modify (f : S → S) (Q : () → S → Prop) s : wpe E (modify f) Q s ↔ Q () (f s).
Proof. done. Qed.
Lemma wpe_when b (m : M S ()) (Q : () → S → Prop) s :
  wpe E (when b m) Q s ↔ if b then wpe E m Q s else Q () s.
Proof. by destruct b. Qed.
Lemma wpe_zoom {T A} (get : S → T) (put : T → S → S) (m : M T A) (Q : A → S → Prop) s :
  wpe E (zoom get put m) Q s ↔ wpe E m (λ a t, Q a (put t s)) (get s).
Proof. unfold wpe, zoom. by destruct (m (get s)). Qed.
(** An allocator that does not fail gives a total statement. *)
Lemma wpe_total {A} (m : M S A) (Q : A → S → Prop) s : (∀ w, ¬ E w) → wpe E m Q s → wp m Q s.
Proof. intros HE. unfold wp, wpe. destruct (m s); [done|done|apply HE|done..]. Qed.
End wpe_rules.
Lemma wpe_weaken {S A} (E1 E2 : string → Prop) (m : M S A) (P Q : A → S → Prop) s :
  wpe E1 m P s → (∀ w, E1 w → E2 w) → (∀ a s', P a s' → Q a s') → wpe E2 m Q s.
Proof. unfold wpe. destruct (m s); naive_solver. Qed.
Ltac wpe_step :=
  lazymatch goal with
  | |- wpe _ (mbind _ _) _ _ => apply wpe_bind
  | |- wpe _ (mret _) _ _ => apply wpe_mret
  | |- wpe _ (gets _) _ _ => apply wpe_gets
  | |- wpe _ (modify _) _ _ => apply wpe_modify
  | |- wpe _ (when _ _) _ _ => apply wpe_when
  end.
Ltac wpe_steps := repeat (wpe_step; cbn beta).

(** The pages an allocator deals in: aligned, between the kernel and the end of memory. *)
Definition upage (v : Z) : Prop := KERNBASE < v < KERNBASE + PHYSTOP ∧ v mod PGSIZE = 0.

(** What happens on an access to a page that the program does not own. *)
Definition wild : string := "access to a page not in use".

Class PageAllocator (K : Type) := {
  pa_alloc : Z → M K Z;          (* kalloc(pid) *)
  pa_free : Z → M K ();          (* kfree(v) *)
  pa_fresh : K → Z → gmap Z Z;   (* the words of a page as kalloc leaves them *)
}.
(** [pa_inv k own]: the allocator is in order and has handed out the pages [own]. *)
Class PageAllocatorLaws (K : Type) `{PageAllocator K} := {
  pa_inv : K → gset Z → Prop;
  pa_starved : string → Prop;
  pa_starved_wild : ¬ pa_starved wild;
  pa_alloc_ok pid k own : pid ≠ -1 → pa_inv k own →
    wpe pa_starved (pa_alloc pid) (λ r k', r = 0 ∧ pa_inv k' own ∨ r ∉ own ∧ pa_inv k' ({[r]} ∪ own)) k;
  pa_free_ok v k own : pa_inv k own → v ∈ own → wp (pa_free v) (λ _ k', pa_inv k' (own ∖ {[v]})) k;
  pa_inv_page v k own : pa_inv k own → v ∈ own → upage v;
}.

(** ** The allocator of v2-sort *)
Section v2.
Context (end_ : Z) (Hend : KERNBASE < end_).

#[export] Instance V2_alloc : PageAllocator kst := {
  pa_alloc := kalloc;
  pa_free := kfree end_;
  pa_fresh k r := <[0 := default 0x01010101 (nexts k !! r)]> (foldr (λ i f, <[i := 0x01010101]> f) ∅ (seqZ 1 1023));
}.
(** kalloc on an exhausted list, or on one without a safe page, reads the null page or
    [pg2pid] out of bounds. *)
Definition v2_starved (w : string) : Prop :=
  w = "null pointer dereference"%string ∨ w = "not a free-list node"%string ∨ w = "pg2pid index out of bounds"%string.
(** The agreement of the allocator and its clients, with what it says of the owners: no two adjacent frames
    belong to different processes. *)
Definition v2_inv (s : kst) (own : gset Z) : Prop := ∃ l, kgood end_ (own, s) l.

Lemma load_next_fails r s (Q : Z → kst → Prop) :
  (∀ n, nexts s !! r = Some n → r ≠ 0 → Q n s) → wpe v2_starved (load_next r) Q s.
Proof.
  intros HQ. unfold wpe, load_next. destruct (Z.eqb_spec r 0); [by left|]. destruct (nexts s !! r) eqn:E; [by apply HQ|by right; left].
Qed.
Lemma load_pid_fails i s (Q : Z → kst → Prop) : Q (pg2pid s i) s → wpe v2_starved (load_pid i) Q s.
Proof. intros HQ. unfold wpe, load_pid. destruct (pg2pid_ok i); [done|by right; right]. Qed.
Lemma safe_guard_fails i pid s (Q : Z → kst → Prop) : (∀ g, Q g s) → wpe v2_starved (safe_guard i pid) Q s.
Proof. intros HQ. unfold safe_guard. destruct (i =? 0); repeat (wpe_steps; apply load_pid_fails); wpe_steps; apply HQ. Qed.
(** The walk stays on the list, so its fuel is enough. *)
Lemma select_walk_fails fuel pid prev p l s (Q : option Z * Z → kst → Prop) :
  is_list (nexts s) p l → (length l < fuel)%nat → (∀ pr, Q pr s) → wpe v2_starved (select_walk fuel pid prev p) Q s.
Proof.
  revert prev p l. induction fuel as [|fuel IH]; intros prev p l Hl Hf HQ; [lia|]. cbn [select_walk]. wpe_step.
  apply safe_guard_fails. intros g. destruct (g =? 0); [|by apply wpe_mret]. wpe_step. apply load_next_fails. intros n Hn Hp.
  destruct (is_list_nonnull _ _ _ Hl Hp) as [l' ->]. destruct Hl as (_ & _ & n' & Hn' & Hl). simplify_eq. apply (IH _ _ l'); [done|cbn in Hf; lia|done].
Qed.
(** kalloc returns or fails on the free list or the table; nothing else goes wrong. *)
Lemma kalloc_fails pid l s (Q : Z → kst → Prop) : kinv l s → (∀ r s', kalloc pid s = Ret r s' → Q r s') → wpe v2_starved (kalloc pid) Q s.
Proof.
  intros [Hlk Hl Hd _ _] HQ. assert (wpe v2_starved (kalloc pid) (λ _ _, True) s) as Hw.
  2: { unfold wpe in *. destruct (kalloc pid s) eqn:E; try done. by apply HQ. }
  clear HQ. unfold kalloc. wpe_step. apply wpe_wp, wp_lock_kmem; [done|]. wpe_step.
  assert (∀ r s', locked s' = use_lock s' → wpe v2_starved unlock_kmem (λ _, wpe v2_starved (when (tracked r) (store_pid (VA2IDX r) pid ;;
     modify (λ s, set_allocated_count (allocated_count s + 1) s) : M kst ()) ;; mret r) (λ _ _, True)) s') as Hrest.
  { intros r s' Hs'. apply wpe_wp, wp_unlock_kmem; [done|]. wpe_steps. destruct (tracked r); [|done].
    unfold store_pid. wpe_step. destruct (pg2pid_ok _); [done|]. by right; right. }
  destruct (Z.eqb_spec pid (-2)).
  - wpe_steps. destruct (negb _); cbn; wpe_steps; [|by apply Hrest]. apply load_next_fails. intros n2 Hn2 _. wpe_steps. by apply Hrest.
  - unfold select_page. wpe_steps. apply (select_walk_fails _ _ _ _ l); [done| |].
    + pose proof (is_list_length _ _ _ Hl (descending_NoDup _ Hd)). simpl. lia.
    + intros [[p|] v]; wpe_steps; apply load_next_fails; intros n2 Hn2 _; cbn; wpe_steps; [|by apply Hrest].
      unfold store_next. destruct (Z.eqb_spec p 0); [by left|]. cbn. apply wpe_bind. by apply Hrest.
Qed.

#[export] Program Instance V2_alloc_laws : PageAllocatorLaws kst := {
  pa_inv := v2_inv; pa_starved := v2_starved }.
Next Obligation. intros [?|[?|?]]; done. Qed.
Next Obligation.
  intros pid k own Hpid (l & Hi). apply (kalloc_fails pid l k); [apply Hi|]. intros r k' H. right.
  destruct (kstep_alloc_good end_ own k l pid r k' Hi Hpid H) as (Hr & _ & l' & _ & Hi'). split; [done|]. by exists l'.
Qed.
Next Obligation.
  intros v k own (l & Hi) Hv. destruct (good_out _ _ _ Hi v Hv) as (Hp & He & Hn & _).
  pose proof (kfree_refines end_ v l k (good_inv _ _ _ Hi) Hp He Hn) as Hw. apply wp_returns in Hw as ([] & k' & Hk & _).
  apply wp_returns. exists (), k'. split; [done|]. exists (insert_desc v l). by apply (kstep_free_good end_ own k).
Qed.
Next Obligation.
  intros v k own (l & Hi) Hv. destruct (good_out _ _ _ Hi v Hv) as ([Hp Hm] & He & _). split; [lia|done].
Qed.
End v2.
