(* ===== verification/Vm.v ===== *)
(** * Virtual memory, src/05_xv6_memory_safe_allocation/src/v2-sort/vm.c

    Page tables of two levels in pages of an allocator.  The memory is what the pages in use hold, as 32-bit
    words; an access to any other page is a fault.  The hardware's part (cr3, the descriptors, the task
    segment: seginit, switchkvm, switchuvm) is left out. *)

From S2P Require Import Prelude KMem PageAlloc.

Definition PTE_P : Z := 0x001.
Definition PTE_W : Z := 0x002.
Definition PTE_U : Z := 0x004.
Definition PTE_ADDR (pte : Z) : Z := Z.land pte (u32 (Z.lnot 0xFFF)).
Definition PTE_FLAGS (pte : Z) : Z := Z.land pte 0xFFF.
Definition PDX (va : Z) : Z := Z.land (Z.shiftr va 22) 0x3FF.
Definition PTX (va : Z) : Z := Z.land (Z.shiftr va 12) 0x3FF.
Definition PGADDR (d t o : Z) : Z := u32 (Z.lor (Z.lor (Z.shiftl d 22) (Z.shiftl t 12)) o).
Definition PGROUNDDOWN (a : Z) : Z := Z.land a (u32 (Z.lnot (PGSIZE - 1))).
Definition NPDENTRIES : Z := 1024.
Definition EXTMEM : Z := 0x100000.
Definition DEVSPACE : Z := 0xFE000000.
Definition KERNLINK : Z := KERNBASE + EXTMEM.
Definition P2V (a : Z) : Z := u32 (a + KERNBASE).
Definition present (pte : Z) : bool := negb (Z.land pte PTE_P =? 0).

(** A page: its 1024 words (what is not in the map is 0).  Its bytes are the words' bytes, the lowest first. *)
Notation page := (gmap Z Z) (only parsing).
Definition word (f : page) (i : Z) : Z := default 0 (f !! i).
Definition page_byte (f : page) (o : Z) : Z := Z.land (Z.shiftr (word f (o / 4)) (8 * (o mod 4))) 0xFF.
Definition set_page_byte (o b : Z) (f : page) : page :=
  let sh := 8 * (o mod 4) in
  <[o / 4 := Z.lor (Z.ldiff (word f (o / 4)) (Z.shiftl 0xFF sh)) (Z.shiftl (u8 b) sh)]> f.
Fixpoint set_page_bytes (o : Z) (bs : list Z) (f : page) : page :=
  match bs with [] => f | b :: bs => set_page_bytes (o + 1) bs (set_page_byte o b f) end.
(** The page of an address. *)
Definition page_of (a : Z) : Z := a - a mod PGSIZE.

Record vst (K : Type) := mkVst { heap : K; mem : gmap Z page }.
Arguments mkVst {K}. Arguments heap {K}. Arguments mem {K}.
Definition set_heap {K} (k : K) (s : vst K) : vst K := mkVst k (mem s).
Definition set_mem {K} (m : gmap Z page) (s : vst K) : vst K := mkVst (heap s) m.

Section operations.
Context {K : Type} `{PageAllocator K}.

Definition get_page (p : Z) : M (vst K) page := λ s,
  match mem s !! p with Some f => Ret f s | None => Fault wild end.
Definition put_page (p : Z) (f : page) : M (vst K) () := λ s,
  match mem s !! p with Some _ => Ret () (set_mem (<[p := f]> (mem s)) s) | None => Fault wild end.
(** A word-aligned word. *)
Definition load (a : Z) : M (vst K) Z := f ← get_page (page_of a); mret (word f (a mod PGSIZE / 4)).
Definition store (a v : Z) : M (vst K) () := f ← get_page (page_of a); put_page (page_of a) (<[a mod PGSIZE / 4 := v]> f).
(** [memset(p, 0, PGSIZE)], [memmove(dst, src, PGSIZE)] of pages, and memmove of some bytes into a page. *)
Definition memset0 (p : Z) : M (vst K) () := put_page p ∅.
Definition memmove_page (dst src : Z) : M (vst K) () := f ← get_page src; put_page dst f.
Definition memmove_bytes (a : Z) (bs : list Z) : M (vst K) () :=
  f ← get_page (page_of a); put_page (page_of a) (set_page_bytes (a mod PGSIZE) bs f).

Definition kalloc (pid : Z) : M (vst K) Z :=
  r ← zoom heap set_heap (pa_alloc pid);
  when (negb (r =? 0)) (modify (λ s, set_mem (<[r := pa_fresh (heap s) r]> (mem s)) s)) ;;
  mret r.
(** The page is the allocator's again. *)
Definition kfree (v : Z) : M (vst K) () :=
  zoom heap set_heap (pa_free v) ;; modify (λ s, set_mem (delete v (mem s)) s).

(** The address of the entry for [va], or the null pointer. *)
Definition walkpgdir (pgdir va : Z) (alloc : bool) : M (vst K) Z :=
  let pde := pgdir + 4 * PDX va in
  e ← load pde;
  pgtab ← (if present e then mret (P2V (PTE_ADDR e))
           else if negb alloc then mret 0
           else
             pgtab ← kalloc (-2);
             when (negb (pgtab =? 0))
               (memset0 pgtab ;; store pde (Z.lor (Z.lor (Z.lor (V2P pgtab) PTE_P) PTE_W) PTE_U)) ;;
             mret pgtab);
  mret (if pgtab =? 0 then 0 else pgtab + 4 * PTX va).

Fixpoint map_loop (fuel : nat) (pgdir a last pa perm : Z) : M (vst K) Z :=
  match fuel with
  | O => diverge
  | S fuel =>
      pte ← walkpgdir pgdir a true;
      if pte =? 0 then mret (-1)
      else
        e ← load pte;
        if present e then panic "remap"
        else
          store pte (Z.lor (Z.lor pa perm) PTE_P) ;;
          if a =? last then mret 0
          else map_loop fuel pgdir (u32 (a + PGSIZE)) last (u32 (pa + PGSIZE)) perm
  end.
Definition mappages (pgdir va size pa perm : Z) : M (vst K) Z :=
  let a := PGROUNDDOWN va in
  let last := PGROUNDDOWN (u32 (va + size - 1)) in
  map_loop (S (Z.to_nat ((last - a) / PGSIZE))) pgdir a last pa perm.

Fixpoint dealloc_loop (fuel : nat) (pgdir a oldsz : Z) : M (vst K) () :=
  match fuel with
  | O => diverge
  | S fuel =>
      if a <? oldsz then
        pte ← walkpgdir pgdir a false;
        a ← (if pte =? 0 then mret (u32 (PGADDR (PDX a + 1) 0 0 - PGSIZE))
             else
               e ← load pte;
               when (present e) (
                 let pa := PTE_ADDR e in
                 when (pa =? 0) (panic "kfree") ;;
                 kfree (P2V pa) ;;
                 store pte 0) ;;
               mret a);
        dealloc_loop fuel pgdir (u32 (a + PGSIZE)) oldsz
      else mret ()
  end.
Definition deallocuvm (pgdir oldsz newsz : Z) : M (vst K) Z :=
  if oldsz <=? newsz then mret oldsz
  else
    let a := PGROUNDUP newsz in
    dealloc_loop (S (Z.to_nat ((oldsz - a + PGSIZE - 1) / PGSIZE))) pgdir a oldsz ;;
    mret newsz.

Definition freevm (pgdir : Z) : M (vst K) () :=
  when (pgdir =? 0) (panic "freevm: no pgdir") ;;
  deallocuvm pgdir KERNBASE 0 ;;
  mfor (seqZ 0 NPDENTRIES) (λ i,
    e ← load (pgdir + 4 * i);
    when (present e) (kfree (P2V (PTE_ADDR e)))) ;;
  kfree pgdir.

(** The kernel's mappings; [data] is the end of the kernel's text (kernel.ld). *)
Definition kmap (data : Z) : list (Z * Z * Z * Z) :=
  [(KERNBASE, 0, EXTMEM, PTE_W);
   (KERNLINK, V2P KERNLINK, V2P data, 0);
   (data, V2P data, PHYSTOP, PTE_W);
   (DEVSPACE, DEVSPACE, 0, PTE_W)].
Definition setupkvm (data : Z) : M (vst K) Z :=
  pgdir ← kalloc (-2);
  if pgdir =? 0 then mret 0
  else
    memset0 pgdir ;;
    when (DEVSPACE <? P2V PHYSTOP) (panic "PHYSTOP too high") ;;
    r ← for_find (kmap data) (λ '(virt, phys_start, phys_end, perm),
      r ← mappages pgdir virt (u32 (phys_end - phys_start)) phys_start perm;
      if r <? 0 then freevm pgdir ;; mret (Some 0) else mret None);
    mret (default pgdir r).

Definition inituvm (pgdir : Z) (init : list Z) (sz : Z) : M (vst K) () :=
  when (PGSIZE <=? sz) (panic "inituvm: more than a page") ;;
  mem ← kalloc (-2);
  memset0 mem ;;
  mappages pgdir 0 PGSIZE (V2P mem) (Z.lor PTE_W PTE_U) ;;
  memmove_bytes mem (take (Z.to_nat sz) init).

(** [pid]: the process that runs, myproc()->pid. *)
Fixpoint alloc_loop (fuel : nat) (pgdir a oldsz newsz pid : Z) : M (vst K) Z :=
  match fuel with
  | O => diverge
  | S fuel =>
      if a <? newsz then
        mem ← kalloc pid;
        if mem =? 0 then deallocuvm pgdir newsz oldsz ;; mret 0
        else
          memset0 mem ;;
          r ← mappages pgdir a PGSIZE (V2P mem) (Z.lor PTE_W PTE_U);
          if r <? 0 then deallocuvm pgdir newsz oldsz ;; kfree mem ;; mret 0
          else alloc_loop fuel pgdir (u32 (a + PGSIZE)) oldsz newsz pid
      else mret newsz
  end.
Definition allocuvm (pid pgdir oldsz newsz : Z) : M (vst K) Z :=
  if KERNBASE <=? newsz then mret 0
  else if newsz <? oldsz then mret oldsz
  else
    let a := PGROUNDUP oldsz in
    alloc_loop (S (Z.to_nat ((newsz - a + PGSIZE - 1) / PGSIZE))) pgdir a oldsz newsz pid.

Definition clearpteu (pgdir uva : Z) : M (vst K) () :=
  pte ← walkpgdir pgdir uva false;
  when (pte =? 0) (panic "clearpteu") ;;
  e ← load pte;
  store pte (Z.ldiff e PTE_U).

(** The loop; false is the jump to [bad]. *)
Fixpoint copy_loop (fuel : nat) (pgdir d i sz child_pid : Z) : M (vst K) bool :=
  match fuel with
  | O => diverge
  | S fuel =>
      if i <? sz then
        pte ← walkpgdir pgdir i false;
        when (pte =? 0) (panic "copyuvm: pte should exist") ;;
        e ← load pte;
        when (negb (present e)) (panic "copyuvm: page not present") ;;
        let pa := PTE_ADDR e in
        let flags := PTE_FLAGS e in
        mem ← kalloc child_pid;
        if mem =? 0 then mret false
        else
          memmove_page mem (P2V pa) ;;
          r ← mappages d i PGSIZE (V2P mem) flags;
          if r <? 0 then kfree mem ;; mret false
          else copy_loop fuel pgdir d (u32 (i + PGSIZE)) sz child_pid
      else mret true
  end.
Definition copyuvm (data pgdir sz child_pid : Z) : M (vst K) Z :=
  d ← setupkvm data;
  if d =? 0 then mret 0
  else
    good ← copy_loop (S (Z.to_nat ((sz + PGSIZE - 1) / PGSIZE))) pgdir d 0 sz child_pid;
    if good : bool then mret d else freevm d ;; mret 0.

(** The entry is read without a look at the pointer to it. *)
Definition uva2ka (pgdir uva : Z) : M (vst K) Z :=
  pte ← walkpgdir pgdir uva false;
  e ← load pte;
  if Z.land e PTE_P =? 0 then mret 0
  else if Z.land e PTE_U =? 0 then mret 0
  else mret (P2V (PTE_ADDR e)).

Fixpoint copyout_loop (fuel : nat) (pgdir va : Z) (buf : list Z) (len : Z) : M (vst K) Z :=
  match fuel with
  | O => diverge
  | S fuel =>
      if 0 <? len then
        let va0 := PGROUNDDOWN va in
        pa0 ← uva2ka pgdir va0;
        if pa0 =? 0 then mret (-1)
        else
          let n := PGSIZE - (va - va0) in
          let n := if len <? n then len else n in
          memmove_bytes (pa0 + (va - va0)) (take (Z.to_nat n) buf) ;;
          copyout_loop fuel pgdir (u32 (va0 + PGSIZE)) (drop (Z.to_nat n) buf) (len - n)
      else mret 0
  end.
Definition copyout (pgdir va : Z) (p : list Z) (len : Z) : M (vst K) Z :=
  copyout_loop (S (S (Z.to_nat (len / PGSIZE)) + 1)) pgdir va p len.
End operations.
