(* ===== verification/VmTree.v ===== *)
(** * Page tables as maps

    [tree m d t]: in memory [m] the page directory [d] is a tree whose page tables are the pages [t], each the
    table of one directory entry.  [vlookup m d vpn] is the entry that maps a virtual page. *)

From S2P Require Import Prelude KMem PageAlloc Vm.

(** ** Bits of addresses and entries *)
Lemma land_high x : 0 <= x < 2 ^ 32 → Z.land x 0xFFFFF000 = x - x mod 4096.
Proof.
  intros Hx. change 0xFFFFF000 with (Z.shiftl (Z.ones 20) 12). transitivity (Z.shiftl (Z.shiftr x 12) 12).
  - apply Z.bits_inj'. intros n Hn. rewrite Z.land_spec. destruct (Z.ltb_spec n 12).
    + rewrite !Z.shiftl_spec_low by lia. apply andb_false_r.
    + rewrite !Z.shiftl_spec, Z.shiftr_spec by lia. replace (n - 12 + 12) with n by lia. rewrite Z.testbit_ones_nonneg by lia.
      destruct (Z.ltb_spec (n - 12) 20); [by rewrite andb_true_r|]. rewrite andb_false_r. symmetry.
      destruct (decide (x = 0)) as [->|]; [apply Z.bits_0|]. apply Z.bits_above_log2; [lia|].
      apply Z.log2_lt_pow2; [lia|]. apply Z.lt_le_trans with (2 ^ 32); [lia|]. apply Z.pow_le_mono_r; lia.
  - rewrite Z.shiftl_mul_pow2, Z.shiftr_div_pow2 by lia. change (2 ^ 12) with 4096. Z.div_mod_to_equations. lia.
Qed.
Lemma PTE_ADDR_mod x : 0 <= x < 2 ^ 32 → PTE_ADDR x = x - x mod 4096.
Proof. apply land_high. Qed.
Lemma PGROUNDDOWN_mod x : 0 <= x < 2 ^ 32 → PGROUNDDOWN x = x - x mod 4096.
Proof. apply land_high. Qed.
Lemma PTE_FLAGS_mod x : PTE_FLAGS x = x mod 4096.
Proof. unfold PTE_FLAGS. change 0xFFF with (Z.ones 12). by rewrite Z.land_ones by lia. Qed.
Lemma PDX_div va : 0 <= va < 2 ^ 32 → PDX va = va / 4194304.
Proof.
  intros Hva. unfold PDX. change 0x3FF with (Z.ones 10). rewrite Z.land_ones, Z.shiftr_div_pow2 by lia. change (2 ^ 22) with 4194304.
  apply Z.mod_small. Z.div_mod_to_equations. lia.
Qed.
Lemma PTX_div va : PTX va = (va / 4096) mod 1024.
Proof. unfold PTX. change 0x3FF with (Z.ones 10). by rewrite Z.land_ones, Z.shiftr_div_pow2 by lia. Qed.
Lemma lor_add pa fl : pa mod 4096 = 0 → 0 <= fl < 4096 → Z.lor pa fl = pa + fl.
Proof.
  intros Hpa Hfl. rewrite <- Z.lxor_lor; [symmetry; apply Z.add_nocarry_lxor|].
  all: apply Z.bits_inj'; intros n Hn; rewrite Z.land_spec, Z.bits_0; destruct (Z.ltb_spec n 12).
  1,3: assert (pa = Z.shiftl (pa / 4096) 12) as -> by (rewrite Z.shiftl_mul_pow2 by lia; change (2 ^ 12) with 4096; Z.div_mod_to_equations; lia);
    by rewrite Z.shiftl_spec_low by lia.
  all: destruct (decide (fl = 0)) as [->|]; [by rewrite Z.bits_0, andb_false_r|]; rewrite (Z.bits_above_log2 fl); [apply andb_false_r|lia|].
  all: apply Z.log2_lt_pow2; [lia|]; apply Z.lt_le_trans with (2 ^ 12); [lia|]; apply Z.pow_le_mono_r; lia.
Qed.
Lemma lor_bound a b : 0 <= a < 4096 → 0 <= b < 4096 → 0 <= Z.lor a b < 4096.
Proof.
  intros Ha Hb. split; [apply Z.lor_nonneg; lia|]. assert (Z.shiftr (Z.lor a b) 12 = 0) as Hs.
  { rewrite Z.shiftr_lor, !Z.shiftr_div_pow2 by lia. change (2 ^ 12) with 4096. by rewrite !Z.div_small by lia. }
  rewrite Z.shiftr_div_pow2 in Hs by lia. change (2 ^ 12) with 4096 in Hs. Z.div_mod_to_equations. lia.
Qed.
Lemma present_bit e : present e = Z.testbit e 0.
Proof. unfold present, PTE_P. change 1 with (Z.shiftl 1 0) at 1. by rewrite land_bit, negb_involutive. Qed.

(** The entry that mappages writes. *)
Definition mkpte (pa perm : Z) : Z := Z.lor (Z.lor pa perm) PTE_P.
(** The kernel's address of the page that an entry points to. *)
Definition frame (e : Z) : Z := P2V (PTE_ADDR e).
Lemma present_mkpte pa perm : present (mkpte pa perm) = true.
Proof. rewrite present_bit. unfold mkpte. by rewrite Z.lor_spec, orb_true_r. Qed.
Lemma mkpte_add pa perm : pa mod 4096 = 0 → 0 <= perm < 4096 → mkpte pa perm = pa + Z.lor perm PTE_P.
Proof. intros Hpa Hperm. unfold mkpte. rewrite <- Z.lor_assoc, lor_add; [done|done|]. by apply lor_bound. Qed.
Lemma mkpte_addr pa perm : 0 <= pa < 2 ^ 32 → pa mod 4096 = 0 → 0 <= perm < 4096 → PTE_ADDR (mkpte pa perm) = pa.
Proof.
  intros H1 H2 H3. rewrite mkpte_add by done. pose proof (lor_bound perm PTE_P H3 ltac:(done)) as Hb.
  rewrite PTE_ADDR_mod by (Z.div_mod_to_equations; lia). Z.div_mod_to_equations. lia.
Qed.
Lemma mkpte_flags pa perm : pa mod 4096 = 0 → 0 <= perm < 4096 → PTE_FLAGS (mkpte pa perm) = Z.lor perm PTE_P.
Proof.
  intros H2 H3. rewrite mkpte_add by done. pose proof (lor_bound perm PTE_P H3 ltac:(done)) as Hb.
  rewrite PTE_FLAGS_mod. Z.div_mod_to_equations. lia.
Qed.
Lemma upage_bounds v : upage v → KERNBASE < v < 2 ^ 32 ∧ v mod 4096 = 0 ∧ 0 < V2P v ∧ V2P v < PHYSTOP ∧ V2P v mod 4096 = 0 ∧ P2V (V2P v) = v.
Proof.
  intros [H1 H2]. unfold V2P, P2V, KERNBASE, PHYSTOP, PGSIZE in *. rewrite (u32_small (v - _)) by lia.
  replace (v - 2147483648 + 2147483648) with v by lia. rewrite u32_small by lia.
  repeat split; try lia. Z.div_mod_to_equations. lia.
Qed.
Lemma frame_mkpte v perm : upage v → 0 <= perm < 4096 → frame (mkpte (V2P v) perm) = v.
Proof.
  intros (H1 & H2 & H3 & H4 & H5 & H6)%upage_bounds Hp. unfold frame. rewrite mkpte_addr; [done|unfold PHYSTOP in *; lia|done|done].
Qed.
(** Addresses of the words of a page. *)
Lemma slot_addr p j : upage p → 0 <= j < 1024 → page_of (p + 4 * j) = p ∧ (p + 4 * j) mod PGSIZE / 4 = j ∧ p + 4 * j ≠ 0.
Proof.
  intros (H1 & H2 & _)%upage_bounds Hj. unfold page_of, PGSIZE.
  assert ((p + 4 * j) mod 4096 = 4 * j) as -> by (Z.div_mod_to_equations; lia). unfold KERNBASE in *. split; [lia|]. split; [|lia]. rewrite Z.mul_comm. by rewrite Z.div_mul.
Qed.

(** ** Words of a page *)
Lemma word_insert_eq f i v : word (<[i := v]> f) i = v.
Proof. unfold word. by rewrite lookup_insert_eq. Qed.
Lemma word_insert_ne f i j v : i ≠ j → word (<[i := v]> f) j = word f j.
Proof. intros Hij. unfold word. by rewrite lookup_insert_ne. Qed.
Lemma word_insert f i j v : word (<[i := v]> f) j = if decide (i = j) then v else word f j.
Proof. case_decide as Hij; [subst; apply word_insert_eq|by apply word_insert_ne]. Qed.
Lemma word_empty i : word ∅ i = 0.
Proof. unfold word. by rewrite lookup_empty. Qed.

(** ** Reading the tree *)
Definition wd (m : gmap Z page) (p i : Z) : Z := match m !! p with Some f => word f i | None => 0 end.
Definition vlookup (m : gmap Z page) (d vpn : Z) : option Z :=
  let pde := wd m d (vpn / 1024) in
  if present pde then
    let pte := wd m (frame pde) (vpn mod 1024) in
    if present pte then Some pte else None
  else None.
Record tree (m : gmap Z page) (d : Z) (t : gmap Z Z) : Prop := {
  tree_dir : d ∈ dom m;
  tree_dir_no : t !! d = None;
  tree_tab p i : t !! p = Some i → p ∈ dom m ∧ 0 <= i < 1024 ∧ present (wd m d i) = true ∧ frame (wd m d i) = p;
  tree_pde i : 0 <= i < 1024 → present (wd m d i) = true → t !! frame (wd m d i) = Some i;
}.
Lemma wd_insert m p f q j : wd (<[p := f]> m) q j = if decide (q = p) then word f j else wd m q j.
Proof. unfold wd. case_decide as Hq; [subst; by rewrite lookup_insert_eq|by rewrite lookup_insert_ne]. Qed.
Lemma wd_same (m m' : gmap Z page) p : m' !! p = m !! p → ∀ j, wd m' p j = wd m p j.
Proof. intros Hp j. unfold wd. by rewrite Hp. Qed.
Lemma vlookup_same m m' d t : tree m d t → m' !! d = m !! d → (∀ p, p ∈ dom t → m' !! p = m !! p) →
  ∀ vpn, 0 <= vpn < 2 ^ 20 → vlookup m' d vpn = vlookup m d vpn.
Proof.
  intros Ht Hd Hp vpn Hv. unfold vlookup. rewrite (wd_same m m' d Hd). destruct (present (wd m d (vpn / 1024))) eqn:E; [|done].
  rewrite (wd_same m m'); [done|]. apply Hp. apply elem_of_dom. exists (vpn / 1024). apply (tree_pde _ _ _ Ht); [Z.div_mod_to_equations; lia|done].
Qed.
Lemma tree_same m m' d t : tree m d t → m' !! d = m !! d → (∀ p, p ∈ dom t → m' !! p = m !! p) → tree m' d t.
Proof.
  intros Ht Hd Hp. constructor.
  - apply elem_of_dom. rewrite Hd. apply elem_of_dom, Ht.
  - apply Ht.
  - intros p i Hi. rewrite (wd_same m m' d Hd). destruct (tree_tab _ _ _ Ht p i Hi) as (H1 & H2). split; [|done].
    apply elem_of_dom. rewrite Hp by (by eapply elem_of_dom_2). by apply elem_of_dom.
  - intros i Hi. rewrite (wd_same m m' d Hd). by apply Ht.
Qed.
(** Writing an entry of a page table. *)
Lemma tree_set_pte m d t p i f j e : tree m d t → t !! p = Some i → m !! p = Some f → 0 <= j < 1024 →
  tree (<[p := <[j := e]> f]> m) d t ∧
  ∀ vpn, 0 <= vpn < 2 ^ 20 → vlookup (<[p := <[j := e]> f]> m) d vpn =
    if decide (vpn = 1024 * i + j) then if present e then Some e else None else vlookup m d vpn.
Proof.
  intros Ht Hi Hf Hj. destruct (tree_tab _ _ _ Ht p i Hi) as (Hpm & Hi' & Hpr & Hfr).
  assert (p ≠ d) as Hpd by (intros ->; by rewrite (tree_dir_no _ _ _ Ht) in Hi).
  assert (∀ k, wd (<[p := <[j := e]> f]> m) d k = wd m d k) as Hd by (intros k; rewrite wd_insert; by rewrite decide_False).
  split.
  - constructor.
    + rewrite dom_insert. apply elem_of_union_r, Ht.
    + apply Ht.
    + intros q k Hk. rewrite Hd, dom_insert. destruct (tree_tab _ _ _ Ht q k Hk) as (H1 & H2). split; [set_fast|done].
    + intros k Hk. rewrite Hd. by apply Ht.
  - intros vpn Hv. unfold vlookup. rewrite Hd. assert (0 <= vpn / 1024 < 1024) as Hk by (Z.div_mod_to_equations; lia).
    destruct (decide (vpn = 1024 * i + j)) as [->|Hne].
    + replace ((1024 * i + j) / 1024) with i by (Z.div_mod_to_equations; lia). replace ((1024 * i + j) mod 1024) with j by (Z.div_mod_to_equations; lia).
      rewrite Hpr, Hfr, wd_insert, decide_True by done. by rewrite word_insert_eq.
    + destruct (present (wd m d (vpn / 1024))) eqn:E; [|done]. rewrite wd_insert. case_decide as Hq; [|done].
      pose proof (tree_pde _ _ _ Ht _ Hk E) as Hk'. rewrite Hq, Hi in Hk'. injection Hk' as ->.
      rewrite word_insert_ne; [|Z.div_mod_to_equations; lia]. rewrite Hq. unfold wd. by rewrite Hf.
Qed.
(** A new, empty page table. *)
Lemma tree_new m d t p i fd f0 perm : tree m d t → upage p → p ∉ dom m → m !! d = Some fd → 0 <= i < 1024 →
  present (wd m d i) = false → 0 <= perm < 4096 → (∀ j, word f0 j = 0) →
  let m' := <[d := <[i := mkpte (V2P p) perm]> fd]> (<[p := f0]> m) in
  tree m' d (<[p := i]> t) ∧ ∀ vpn, 0 <= vpn < 2 ^ 20 → vlookup m' d vpn = vlookup m d vpn.
Proof.
  intros Ht Hp Hpm Hd Hi Hpr Hperm H0 m'.
  assert (p ≠ d) as Hpd by (intros ->; by apply Hpm, elem_of_dom_2 with fd).
  assert (t !! p = None) as Htp.
  { destruct (t !! p) as [k|] eqn:E; [|done]. by destruct (tree_tab _ _ _ Ht p k E) as (? & _). }
  assert (∀ k, wd m' d k = if decide (k = i) then mkpte (V2P p) perm else wd m d k) as Hw.
  { intros k. unfold m'. rewrite wd_insert, decide_True by done. rewrite word_insert. repeat case_decide; try congruence. unfold wd. by rewrite Hd. }
  assert (∀ q, q ≠ d → q ≠ p → ∀ k, wd m' q k = wd m q k) as Hq.
  { intros q H1 H2 k. unfold m'. rewrite wd_insert, decide_False, wd_insert, decide_False by done. done. }
  assert (dom m' = {[p]} ∪ dom m) as Hdom.
  { unfold m'. rewrite !dom_insert_L. apply elem_of_dom_2 in Hd. set_fast. }
  split.
  - constructor.
    + rewrite Hdom. apply elem_of_union_r, Ht.
    + rewrite lookup_insert_ne by done. apply Ht.
    + intros q k. destruct (decide (q = p)) as [->|Hne].
      * rewrite lookup_insert_eq. intros [= <-]. rewrite Hw, decide_True by done. rewrite present_mkpte, frame_mkpte, Hdom by done. split; [set_fast|done].
      * rewrite lookup_insert_ne by done. intros Hk. destruct (tree_tab _ _ _ Ht q k Hk) as (H1 & H2 & H3 & H4).
        rewrite Hw, decide_False by (intros ->; by rewrite Hpr in H3). rewrite Hdom. split; [set_fast|done].
    + intros k Hk. rewrite Hw. case_decide as Hki; [subst; rewrite frame_mkpte by done; by rewrite lookup_insert_eq|].
      intros Hpk. pose proof (tree_pde _ _ _ Ht k Hk Hpk) as Hf. rewrite lookup_insert_ne; [done|]. intros Hq'. by rewrite <- Hq', Htp in Hf.
  - intros vpn Hv. assert (0 <= vpn / 1024 < 1024) as Hvi by (Z.div_mod_to_equations; lia). unfold vlookup. rewrite Hw. destruct (decide (vpn / 1024 = i)) as [->|Hne].
    + rewrite present_mkpte, frame_mkpte, Hpr by done. unfold m'. rewrite wd_insert, decide_False, wd_insert, decide_True, H0 by done. done.
    + destruct (present (wd m d (vpn / 1024))) eqn:E; [|done]. rewrite Hq; [done| |].
      * intros Hq'. pose proof (tree_pde _ _ _ Ht _ Hvi E) as Hk. by rewrite Hq', (tree_dir_no _ _ _ Ht) in Hk.
      * intros Hq'. pose proof (tree_pde _ _ _ Ht _ Hvi E) as Hk. by rewrite Hq', Htp in Hk.
Qed.
