(* ===== verification/VmSpec.v ===== *)
(** * What the operations on page tables do

    Every operation on an address space is described by what [vlookup] gives before and after, by the pages
    it takes and gives back, and by what it leaves alone: all other pages. *)

From S2P Require Import Prelude KMem KallocV2 PageAlloc Vm VmTree.

Section specs.
Context {K : Type} `{PageAllocatorLaws K}.
Implicit Types (st : vst K).

(** The allocator has handed out exactly the pages of the memory. *)
Definition good st : Prop := pa_inv (heap st) (dom (mem st)).
Lemma good_page st p : good st → p ∈ dom (mem st) → upage p.
Proof. intros Hg. by apply (pa_inv_page _ (heap st)). Qed.

Section rules.
Context (E : string → Prop).
Lemma wpe_get_page p f (Q : page → vst K → Prop) st : mem st !! p = Some f → Q f st → wpe E (get_page p) Q st.
Proof. intros Hp HQ. unfold wpe, get_page. by rewrite Hp. Qed.
Lemma wpe_put_page p f g (Q : () → vst K → Prop) st : mem st !! p = Some g → Q () (set_mem (<[p := f]> (mem st)) st) → wpe E (put_page p f) Q st.
Proof. intros Hp HQ. unfold wpe, put_page. by rewrite Hp. Qed.
Lemma wpe_load p j f (Q : Z → vst K → Prop) st : upage p → 0 <= j < 1024 → mem st !! p = Some f → Q (word f j) st → wpe E (load (p + 4 * j)) Q st.
Proof.
  intros Hp Hj Hf HQ. destruct (slot_addr p j Hp Hj) as (H1 & H2 & _). unfold load. rewrite H1, H2. wpe_step.
  by apply wpe_get_page with f.
Qed.
Lemma wpe_store p j v f (Q : () → vst K → Prop) st : upage p → 0 <= j < 1024 → mem st !! p = Some f →
  Q () (set_mem (<[p := <[j := v]> f]> (mem st)) st) → wpe E (store (p + 4 * j) v) Q st.
Proof.
  intros Hp Hj Hf HQ. destruct (slot_addr p j Hp Hj) as (H1 & H2 & _). unfold store. rewrite H1, H2. wpe_step.
  apply wpe_get_page with f; [done|]. by apply wpe_put_page with f.
Qed.
Lemma wpe_kfree p (Q : () → vst K → Prop) st : good st → p ∈ dom (mem st) →
  (∀ st', good st' → mem st' = delete p (mem st) → Q () st') → wpe E (kfree p) Q st.
Proof.
  intros Hg Hp HQ. unfold kfree. wpe_step. apply wpe_zoom, wpe_wp. eapply wp_mono; [by apply (pa_free_ok p _ (dom (mem st)))|].
  intros [] k' Hk. wpe_steps. apply HQ; [|done]. unfold good. simpl. by rewrite dom_delete_L.
Qed.
Lemma walk_present d va t (Q : Z → vst K → Prop) st alloc : good st → tree (mem st) d t → 0 <= va < 2 ^ 32 →
  (∀ p, t !! p = Some (va / 4194304) → frame (wd (mem st) d (va / 4194304)) = p → Q (p + 4 * (va / 4096 mod 1024)) st) →
  present (wd (mem st) d (va / 4194304)) = true → wpe E (walkpgdir d va alloc) Q st.
Proof.
  intros Hg Ht Hva HQ Hpr. pose proof (tree_dir _ _ _ Ht) as Hd. apply elem_of_dom in Hd as [f Hf].
  assert (0 <= va / 4194304 < 1024) as Hi by (Z.div_mod_to_equations; lia).
  unfold walkpgdir. rewrite PDX_div by done. wpe_step. apply wpe_load with f; [by eapply good_page, elem_of_dom_2|done|done|].
  assert (word f (va / 4194304) = wd (mem st) d (va / 4194304)) as -> by (unfold wd; by rewrite Hf). rewrite Hpr. wpe_steps.
  pose proof (tree_pde _ _ _ Ht _ Hi Hpr) as Htp. destruct (tree_tab _ _ _ Ht _ _ Htp) as (Hdom & _).
  change (P2V (PTE_ADDR ?e)) with (frame e).
  rewrite (proj2 (Z.eqb_neq _ 0)), PTX_div; [by apply HQ|]. pose proof (good_page st _ Hg Hdom) as [? _]. unfold KERNBASE in *. lia.
Qed.
(** Without [alloc] the walk only reads. *)
Lemma walk_spec d va t (Q : Z → vst K → Prop) st : good st → tree (mem st) d t → 0 <= va < 2 ^ 32 →
  (∀ p, t !! p = Some (va / 4194304) → frame (wd (mem st) d (va / 4194304)) = p → present (wd (mem st) d (va / 4194304)) = true → Q (p + 4 * (va / 4096 mod 1024)) st) →
  (present (wd (mem st) d (va / 4194304)) = false → Q 0 st) → wpe E (walkpgdir d va false) Q st.
Proof.
  intros Hg Ht Hva HQ HQ0. destruct (present (wd (mem st) d (va / 4194304))) eqn:Hpr; [by apply walk_present with t; auto|].
  pose proof (tree_dir _ _ _ Ht) as Hd. apply elem_of_dom in Hd as [f Hf].
  unfold walkpgdir. rewrite PDX_div by done. wpe_step. apply wpe_load with f; [by eapply good_page, elem_of_dom_2|Z.div_mod_to_equations; lia|done|].
  assert (word f (va / 4194304) = wd (mem st) d (va / 4194304)) as -> by (unfold wd; by rewrite Hf). rewrite Hpr. wpe_steps. by apply HQ0.
Qed.
End rules.

Context (E : string → Prop).
(** What the allocator's failures may be. *)
Definition allows : Prop := ∀ w, pa_starved w → E w.
Lemma wpe_kalloc pid (Q : Z → vst K → Prop) st : allows → pid ≠ -1 → good st → (∀ st', good st' → mem st' = mem st → Q 0 st') →
  (∀ p f st', upage p → p ∉ dom (mem st) → good st' → mem st' = <[p := f]> (mem st) → Q p st') → wpe E (kalloc pid) Q st.
Proof.
  intros HE Hpid Hg HQ0 HQ. unfold kalloc. wpe_step. apply wpe_zoom.
  eapply wpe_weaken; [by apply (pa_alloc_ok pid (heap st) (dom (mem st)))|exact HE|]. intros r k' [[-> Hk]|[Hr Hk]].
  - cbn. by apply HQ0.
  - wpe_steps. assert (upage r) as Hu by (apply (pa_inv_page _ _ _ Hk); set_fast).
    rewrite (proj2 (Z.eqb_neq r 0)) by (destruct Hu as [? _]; unfold KERNBASE in *; lia). cbn. wpe_steps.
    eapply HQ; [done|done| |done]. unfold good. simpl. by rewrite dom_insert_L.
Qed.

(** Address space [d] gets more page tables, from pages that were not in use. *)
Record grows (d : Z) st (t : gmap Z Z) st' (t' : gmap Z Z) : Prop := {
  grows_good : good st';
  grows_tree : tree (mem st') d t';
  grows_sub : t ⊆ t';
  grows_fresh p : p ∈ dom t' → p ∈ dom t ∨ p ∉ dom (mem st);
  grows_dom : dom (mem st') = dom (mem st) ∪ dom t';
  grows_other p : p ≠ d → p ∉ dom t' → mem st' !! p = mem st !! p;
}.
Lemma tree_tabs_dom m d t : tree m d t → dom t ⊆ dom m.
Proof. intros Ht p [i Hi]%elem_of_dom. by apply (tree_tab _ _ _ Ht p i). Qed.
Lemma vgrows_refl d st t : good st → tree (mem st) d t → grows d st t st t.
Proof. intros Hg Ht. constructor; try done; [by left|]. apply tree_tabs_dom in Ht. clear -Ht. set_solver. Qed.
Lemma vgrows_trans d st1 t1 st2 t2 st3 t3 : grows d st1 t1 st2 t2 → grows d st2 t2 st3 t3 → grows d st1 t1 st3 t3.
Proof.
  intros [G1 T1 S1 F1 D1 O1] [G2 T2 S2 F2 D2 O2]. constructor; [done|done|by etrans| | |].
  - intros p Hp. destruct (F2 p Hp) as [H2|H2]; [by apply F1|]. rewrite D1 in H2. right. set_fast.
  - rewrite D2, D1. apply subseteq_dom in S2. clear -S2. set_solver.
  - intros p Hd Hp. rewrite O2 by done. apply O1; [done|]. apply subseteq_dom in S2. clear -S2 Hp. set_solver.
Qed.

(** With [alloc] it may add an empty page table. *)
Lemma walk_alloc_spec d va t (Q : Z → vst K → Prop) st : allows → good st → tree (mem st) d t → 0 <= va < 2 ^ 32 →
  (∀ st', good st' → mem st' = mem st → Q 0 st') →
  (∀ p st' t', grows d st t st' t' → (∀ vpn, 0 <= vpn < 2 ^ 20 → vlookup (mem st') d vpn = vlookup (mem st) d vpn) →
    t' !! p = Some (va / 4194304) → frame (wd (mem st') d (va / 4194304)) = p → present (wd (mem st') d (va / 4194304)) = true →
    Q (p + 4 * (va / 4096 mod 1024)) st') →
  wpe E (walkpgdir d va true) Q st.
Proof.
  intros HE Hg Ht Hva HQ0 HQ. destruct (present (wd (mem st) d (va / 4194304))) eqn:Hpr.
  { apply walk_present with t; try done. intros p Hp Hf. apply (HQ p st t); try done. by apply vgrows_refl. }
  assert (0 <= va / 4194304 < 1024) as Hi by (Z.div_mod_to_equations; lia).
  pose proof (tree_dir _ _ _ Ht) as Hd. apply elem_of_dom in Hd as [fd Hf].
  assert (upage d) as Hud by by eapply good_page, elem_of_dom_2.
  unfold walkpgdir. rewrite PDX_div by done. wpe_step. apply wpe_load with fd; [done..|].
  assert (word fd (va / 4194304) = wd (mem st) d (va / 4194304)) as -> by (unfold wd; by rewrite Hf). rewrite Hpr. cbn [negb].
  wpe_step. wpe_step. apply wpe_kalloc; [done|done|done| |].
  - intros st' Hg' Hm. wpe_steps. cbn. wpe_steps. by apply HQ0.
  - intros p f st' Hp Hpm Hg' Hm. assert (p ≠ 0) as Hp0 by (destruct Hp as [? _]; unfold KERNBASE in *; lia).
    assert (p ≠ d) as Hpd by (intros ->; by apply Hpm, elem_of_dom_2 with fd).
    wpe_steps. rewrite (proj2 (Z.eqb_neq p 0)) by done. cbn [negb]. wpe_steps.
    unfold memset0. apply (wpe_put_page _ _ _ f); [rewrite Hm; by rewrite lookup_insert_eq|]. wpe_steps.
    apply (wpe_store _ _ _ _ fd); [done|done|simpl; by rewrite Hm, !lookup_insert_ne|]. wpe_steps.
    rewrite PTX_div, (proj2 (Z.eqb_neq p 0)) by done. simpl mem. rewrite Hm, insert_insert_eq.
    assert (Z.lor (Z.lor (Z.lor (V2P p) PTE_P) PTE_W) PTE_U = mkpte (V2P p) (Z.lor PTE_W PTE_U)) as ->.
    { unfold mkpte. apply Z.bits_inj'. intros n Hn. rewrite !Z.lor_spec. by destruct (Z.testbit _ _), (Z.testbit _ _), (Z.testbit _ _), (Z.testbit _ _). }
    destruct (tree_new (mem st) d t p (va / 4194304) fd ∅ (Z.lor PTE_W PTE_U)) as [Ht' Hv]; try done.
    apply (HQ p _ (<[p := va / 4194304]> t)).
    + constructor; simpl.
      * unfold good in *. simpl. rewrite Hm in Hg'. rewrite !dom_insert_L in *. apply elem_of_dom_2 in Hf.
        rewrite (subseteq_union_1_L {[d]}); [done|]. apply singleton_subseteq_l. by apply elem_of_union_r.
      * done.
      * apply insert_subseteq. destruct (t !! p) as [k|] eqn:Hk; [|done]. by destruct (tree_tab _ _ _ Ht p k Hk) as (? & _).
      * intros q. rewrite dom_insert. intros [->%elem_of_singleton|Hq]%elem_of_union; [by right|by left].
      * rewrite !dom_insert_L. apply elem_of_dom_2 in Hf. apply tree_tabs_dom in Ht. clear -Hf Ht. set_solver.
      * intros q Hqd Hq. rewrite dom_insert in Hq. rewrite !lookup_insert_ne; [done|set_fast|done].
    + done.
    + by rewrite lookup_insert_eq.
    + simpl. rewrite wd_insert, decide_True, word_insert_eq by done. by apply frame_mkpte.
    + simpl. rewrite wd_insert, decide_True, word_insert_eq by done. by apply present_mkpte.
Qed.

(** ** Mapping pages *)
Lemma vlookup_slot m d t p i j : tree m d t → t !! p = Some i → 0 <= j < 1024 →
  vlookup m d (1024 * i + j) = if present (wd m p j) then Some (wd m p j) else None.
Proof.
  intros Ht Hp Hj. destruct (tree_tab _ _ _ Ht p i Hp) as (_ & Hi & Hpr & Hf). unfold vlookup.
  replace ((1024 * i + j) / 1024) with i by (Z.div_mod_to_equations; lia). replace ((1024 * i + j) mod 1024) with j by (Z.div_mod_to_equations; lia).
  by rewrite Hpr, Hf.
Qed.
Lemma vpn_split vpn : vpn = 1024 * (vpn / 1024) + vpn mod 1024.
Proof. Z.div_mod_to_equations. lia. Qed.
Lemma va_slots vpn : 4096 * vpn / 4194304 = vpn / 1024 ∧ 4096 * vpn / 4096 = vpn.
Proof. split; Z.div_mod_to_equations; lia. Qed.
Lemma set_pte_grows d st t p i f j e : good st → tree (mem st) d t → t !! p = Some i → mem st !! p = Some f → 0 <= j < 1024 →
  grows d st t (set_mem (<[p := <[j := e]> f]> (mem st)) st) t.
Proof.
  intros Hg Ht Hi Hf Hj. assert (dom (<[p := <[j := e]> f]> (mem st)) = dom (mem st)) as Hdom.
  { rewrite dom_insert_L. apply elem_of_dom_2 in Hf. rewrite (subseteq_union_1_L {[p]}); [done|]. by apply singleton_subseteq_l. }
  constructor; simpl.
  - unfold good. simpl. by rewrite Hdom.
  - by apply (tree_set_pte (mem st) d t p i).
  - done.
  - intros q Hq. by left.
  - rewrite Hdom. apply tree_tabs_dom in Ht. clear -Ht. set_solver.
  - intros q Hqd Hq. rewrite lookup_insert_ne; [done|]. intros <-. by apply Hq, elem_of_dom_2 with i.
Qed.
Lemma map_loop_spec n d v0 pa perm st t : allows → good st → tree (mem st) d t → 0 <= v0 → v0 + Z.of_nat n < 2 ^ 20 →
  pa mod 4096 = 0 → 0 <= pa → pa + 4096 * Z.of_nat n < 2 ^ 32 →
  (∀ vpn, v0 <= vpn <= v0 + Z.of_nat n → vlookup (mem st) d vpn = None) →
  wpe E (map_loop (S n) d (4096 * v0) (4096 * (v0 + Z.of_nat n)) pa perm) (λ r st', ∃ t' j, grows d st t st' t' ∧
    (r = 0 ∧ j = Z.of_nat n + 1 ∨ r = -1 ∧ 0 <= j <= Z.of_nat n) ∧
    ∀ vpn, 0 <= vpn < 2 ^ 20 → vlookup (mem st') d vpn =
      if decide (v0 <= vpn < v0 + j) then Some (mkpte (pa + 4096 * (vpn - v0)) perm) else vlookup (mem st) d vpn) st.
Proof.
  intros HE. revert v0 pa st t. induction n as [|n IH]; intros v0 pa st t Hg Ht Hv0 Hv1 Hpa Hpa0 Hpa1 Hun; destruct (va_slots v0) as [Hs1 Hs2].
  all: cbn [map_loop]; wpe_step; apply walk_alloc_spec with t; [done|done|done|lia| |].
  1,3: intros st' Hg' Hm; cbn; wpe_steps; exists t, 0; split; [|split; [right; lia|intros vpn Hvpn; by rewrite decide_False, Hm by lia]];
    constructor; rewrite ?Hm; try done; [by left|apply tree_tabs_dom in Ht; clear -Ht; set_solver].
  all: intros p st1 t1 Hgr Hvl Htp Hfr Hpr; rewrite Hs1 in *; rewrite Hs2; pose proof (grows_tree _ _ _ _ _ Hgr) as Ht1;
    destruct (tree_tab _ _ _ Ht1 p _ Htp) as (Hpm & Hi & _); pose proof (good_page _ _ (grows_good _ _ _ _ _ Hgr) Hpm) as Hup;
    apply elem_of_dom in Hpm as [f Hf]; assert (0 <= v0 mod 1024 < 1024) as Hj by (apply Z.mod_pos_bound; lia);
    destruct (slot_addr p (v0 mod 1024) Hup Hj) as (_ & _ & Hnz); rewrite (proj2 (Z.eqb_neq _ 0)) by done;
    wpe_step; apply wpe_load with f; [done|done|done|];
    assert (present (word f (v0 mod 1024)) = false) as -> by (
      specialize (Hun v0 ltac:(lia)); rewrite <- Hvl in Hun by lia; rewrite (vpn_split v0), (vlookup_slot _ _ t1 p) in Hun by done;
      unfold wd in Hun; rewrite Hf in Hun; by destruct (present _));
    wpe_step; apply wpe_store with f; [done..|];
    pose proof (set_pte_grows d st1 t1 p _ f (v0 mod 1024) (Z.lor (Z.lor pa perm) PTE_P) (grows_good _ _ _ _ _ Hgr) Ht1 Htp Hf Hj) as Hgr2;
    destruct (tree_set_pte (mem st1) d t1 p _ f (v0 mod 1024) (Z.lor (Z.lor pa perm) PTE_P) Ht1 Htp Hf Hj) as [_ Hvl2].
  - rewrite (proj2 (Z.eqb_eq _ _)) by lia. wpe_steps. exists t1, 1. split; [by eapply vgrows_trans|]. split; [left; lia|].
    intros vpn Hvpn. simpl. rewrite Hvl2, Hvl, <- vpn_split by done. change (Z.lor (Z.lor pa perm) PTE_P) with (mkpte pa perm). rewrite present_mkpte.
    repeat case_decide; try lia; [|done]. subst. do 2 f_equal. lia.
  - rewrite (proj2 (Z.eqb_neq (4096 * v0) _)) by lia.
    replace (u32 (4096 * v0 + PGSIZE)) with (4096 * (v0 + 1)) by (unfold PGSIZE; rewrite u32_small; lia).
    replace (u32 (pa + PGSIZE)) with (pa + 4096) by (unfold PGSIZE; rewrite u32_small; lia).
    replace (4096 * (v0 + Z.of_nat (S n))) with (4096 * (v0 + 1 + Z.of_nat n)) by lia.
    eapply wpe_mono; [apply (IH _ _ _ t1)|].
    + apply Hgr2.
    + apply Hgr2.
    + lia.
    + lia.
    + Z.div_mod_to_equations; lia.
    + lia.
    + lia.
    + intros vpn Hvpn. simpl. rewrite Hvl2, <- vpn_split, decide_False, Hvl by lia. apply Hun. lia.
    + intros r st' (t' & j & Hg3 & Hr & Hv3). exists t', (j + 1). split; [eapply vgrows_trans; [exact Hgr|]; eapply vgrows_trans; [exact Hgr2|exact Hg3]|].
      split; [destruct Hr as [[-> ->]|[-> ?]]; [left; lia|right; lia]|]. intros vpn Hvpn. rewrite Hv3 by done. simpl.
      rewrite Hvl2, <- vpn_split, Hvl by done. change (Z.lor (Z.lor pa perm) PTE_P) with (mkpte pa perm). rewrite present_mkpte.
      repeat case_decide; try lia; [do 2 f_equal; lia| |done]. do 2 f_equal. lia.
Qed.

Lemma mappages_spec n d v0 pa perm st t : allows → good st → tree (mem st) d t → 0 <= v0 → v0 + Z.of_nat n < 2 ^ 20 →
  pa mod 4096 = 0 → 0 <= pa → pa + 4096 * Z.of_nat n < 2 ^ 32 →
  (∀ vpn, v0 <= vpn <= v0 + Z.of_nat n → vlookup (mem st) d vpn = None) →
  wpe E (mappages d (4096 * v0) (4096 * (Z.of_nat n + 1)) pa perm) (λ r st', ∃ t' j, grows d st t st' t' ∧
    (r = 0 ∧ j = Z.of_nat n + 1 ∨ r = -1 ∧ 0 <= j <= Z.of_nat n) ∧
    ∀ vpn, 0 <= vpn < 2 ^ 20 → vlookup (mem st') d vpn =
      if decide (v0 <= vpn < v0 + j) then Some (mkpte (pa + 4096 * (vpn - v0)) perm) else vlookup (mem st) d vpn) st.
Proof.
  intros HE Hg Ht Hv0 Hv1 Hpa Hpa0 Hpa1 Hun. unfold mappages. rewrite (u32_small (_ + _ - 1)) by lia. rewrite !PGROUNDDOWN_mod by lia.
  replace (4096 * v0 - _) with (4096 * v0) by (Z.div_mod_to_equations; lia).
  replace (4096 * v0 + 4096 * (Z.of_nat n + 1) - 1 - _) with (4096 * (v0 + Z.of_nat n)) by (Z.div_mod_to_equations; lia).
  replace (Z.to_nat ((4096 * (v0 + Z.of_nat n) - 4096 * v0) / PGSIZE)) with n by (unfold PGSIZE; Z.div_mod_to_equations; lia).
  by apply map_loop_spec.
Qed.

(** ** User memory *)
(** The user part of an address space: the pages [w] are mapped below KERNBASE, each once, at the virtual
    page that [w] gives. *)
Record frames (m : gmap Z page) (d : Z) (t w : gmap Z Z) : Prop := {
  fr_in p v : w !! p = Some v → p ∈ dom m ∧ p ≠ d ∧ t !! p = None ∧ 0 <= v < 2 ^ 19 ∧ ∃ e, vlookup m d v = Some e ∧ frame e = p;
  fr_out v e : 0 <= v < 2 ^ 19 → vlookup m d v = Some e → w !! frame e = Some v;
}.
Record space st (d : Z) (t w : gmap Z Z) : Prop := {
  space_good : good st;
  space_tree : tree (mem st) d t;
  space_frames : frames (mem st) d t w;
}.
Definition space_pages (d : Z) (t w : gmap Z Z) : gset Z := {[d]} ∪ dom t ∪ dom w.
Lemma frames_inj m d t w p q v : frames m d t w → w !! p = Some v → w !! q = Some v → p = q.
Proof.
  intros Hw Hp Hq. destruct (fr_in _ _ _ _ Hw p v Hp) as (_ & _ & _ & _ & e & He & <-).
  destruct (fr_in _ _ _ _ Hw q v Hq) as (_ & _ & _ & _ & e' & He' & <-). congruence.
Qed.
(** More page tables do not disturb the user pages. *)
Lemma frames_grows d st t st' t' w : frames (mem st) d t w → grows d st t st' t' →
  (∀ vpn, 0 <= vpn < 2 ^ 19 → vlookup (mem st') d vpn = vlookup (mem st) d vpn) → frames (mem st') d t' w.
Proof.
  intros Hw Hgr Hv. constructor.
  - intros p v Hp. destruct (fr_in _ _ _ _ Hw p v Hp) as (H1 & H2 & H3 & H4 & H5). rewrite (grows_dom _ _ _ _ _ Hgr), Hv by done.
    split; [by apply elem_of_union_l|]. split; [done|]. split; [|done]. destruct (t' !! p) as [i|] eqn:Hi; [|done].
    apply elem_of_dom_2 in Hi. destruct (grows_fresh _ _ _ _ _ Hgr p Hi) as [Ht|Ht]; [|done]. by apply elem_of_dom in Ht as [? Ht]; congruence.
  - intros v e Hv0. rewrite Hv by done. by apply Hw.
Qed.

(** ** Unmapping *)
Definition keep (lo hi : Z) (w : gmap Z Z) : gmap Z Z := filter (λ pv, ¬ (lo <= pv.2 ∧ 4096 * pv.2 < hi)) w.
Lemma keep_lookup lo hi w p : keep lo hi w !! p = v ← w !! p; if decide (lo <= v ∧ 4096 * v < hi) then None else Some v.
Proof.
  unfold keep. rewrite map_lookup_filter. destruct (w !! p) as [v|]; [|done]. cbn. unfold guard. repeat case_decide; tauto || done.
Qed.
Lemma keep_none lo hi w : hi <= 4096 * lo → keep lo hi w = w.
Proof. intros Hlo. apply map_eq. intros p. rewrite keep_lookup. destruct (w !! p); [|done]. cbn. rewrite decide_False by lia. done. Qed.
Lemma keep_skip lo lo' hi w : lo <= lo' → (∀ p v, w !! p = Some v → lo <= v < lo' → False) → keep lo' hi w = keep lo hi w.
Proof.
  intros Hlo Hno. apply map_eq. intros p. rewrite !keep_lookup. destruct (w !! p) as [v|] eqn:Hp; [|done]. cbn.
  specialize (Hno p v Hp). repeat case_decide; try done; exfalso; lia.
Qed.
Lemma keep_delete lo hi w p : w !! p = Some lo → (∀ q, w !! q = Some lo → q = p) → 4096 * lo < hi → keep (lo + 1) hi (delete p w) = keep lo hi w.
Proof.
  intros Hp Hinj Hlo. apply map_eq. intros q. rewrite !keep_lookup. destruct (decide (q = p)) as [->|Hq].
  - rewrite lookup_delete_eq, Hp. cbn. by rewrite decide_True by lia.
  - rewrite lookup_delete_ne by done. destruct (w !! q) as [v|] eqn:Hv; [|done]. cbn. assert (v ≠ lo) by (intros ->; auto).
    repeat case_decide; try done; exfalso; lia.
Qed.
Lemma space_unmap st st' d t w p i f j v e : space st d t w → t !! p = Some i → mem st !! p = Some f → 0 <= j < 1024 → v = 1024 * i + j →
  0 <= v < 2 ^ 19 → vlookup (mem st) d v = Some e → good st' → mem st' = <[p := <[j := 0]> f]> (delete (frame e) (mem st)) →
  space st' d t (delete (frame e) w) ∧ ∀ vpn, 0 <= vpn < 2 ^ 20 → vlookup (mem st') d vpn = if decide (vpn = v) then None else vlookup (mem st) d vpn.
Proof.
  intros [Hg Ht Hw] Hi Hf Hj Hv Hv19 He Hg' Hm. pose proof (fr_out _ _ _ _ Hw v e Hv19 He) as Hwe.
  destruct (fr_in _ _ _ _ Hw _ _ Hwe) as (Hed & Hdd & Htt & _).
  assert (p ≠ frame e) as Hpe by congruence.
  assert (tree (delete (frame e) (mem st)) d t) as Ht1.
  { apply (tree_same (mem st)); [done|by rewrite lookup_delete_ne|]. intros q Hq. rewrite lookup_delete_ne; [done|].
    intros <-. by apply elem_of_dom in Hq as [? Hq]; congruence. }
  assert (∀ vpn, 0 <= vpn < 2 ^ 20 → vlookup (delete (frame e) (mem st)) d vpn = vlookup (mem st) d vpn) as Hv1.
  { apply (vlookup_same _ _ _ t); [done|by rewrite lookup_delete_ne|]. intros q Hq. rewrite lookup_delete_ne; [done|].
    intros <-. by apply elem_of_dom in Hq as [? Hq]; congruence. }
  assert (delete (frame e) (mem st) !! p = Some f) as Hf1 by by rewrite lookup_delete_ne.
  destruct (tree_set_pte _ d t p i f j 0 Ht1 Hi Hf1 Hj) as [Ht2 Hv2]. rewrite Hm.
  assert (∀ vpn, 0 <= vpn < 2 ^ 20 → vlookup (<[p:=<[j:=0]> f]> (delete (frame e) (mem st))) d vpn = if decide (vpn = v) then None else vlookup (mem st) d vpn) as Hv3.
  { intros vpn Hvpn. rewrite Hv2, Hv1, <- Hv by done. done. }
  split; [|done]. constructor; [done|by rewrite Hm|]. rewrite Hm. constructor.
  - intros q x. destruct (decide (q = frame e)) as [->|Hqe]; [by rewrite lookup_delete_eq|]. rewrite lookup_delete_ne by done. intros Hq.
    destruct (fr_in _ _ _ _ Hw q x Hq) as (H1 & H2 & H3 & H4 & e' & H5 & H6). rewrite dom_insert, dom_delete. split; [set_fast|].
    split; [done|]. split; [done|]. split; [done|]. exists e'. rewrite Hv3 by lia. rewrite decide_False; [done|]. intros ->. congruence.
  - intros x e' Hx. rewrite Hv3 by lia. case_decide; [done|]. intros He'. pose proof (fr_out _ _ _ _ Hw x e' Hx He') as Hwe'.
    rewrite lookup_delete_ne; [done|]. intros Heq. rewrite Heq in Hwe. congruence.
Qed.

(** What unmapping the user pages from [lo] up to the address [hi] leaves. *)
Record unmapped (lo hi : Z) st (d : Z) (t w : gmap Z Z) st' : Prop := {
  um_space : space st' d t (keep lo hi w);
  um_vlookup vpn : 0 <= vpn < 2 ^ 20 →
    vlookup (mem st') d vpn = if decide (lo <= vpn ∧ 4096 * vpn < hi) then None else vlookup (mem st) d vpn;
  um_mem p : p ∉ dom t → mem st' !! p = if decide (p ∈ dom w ∧ p ∉ dom (keep lo hi w)) then None else mem st !! p;
}.
Lemma unmapped_none lo hi st d t w : space st d t w → hi <= 4096 * lo → unmapped lo hi st d t w st.
Proof.
  intros Hs Hlo. constructor.
  - by rewrite keep_none.
  - intros vpn _. by rewrite decide_False by lia.
  - intros p _. rewrite keep_none by done. rewrite decide_False; [done|]. tauto.
Qed.
Lemma unmapped_skip lo lo' hi st d t w st' : space st d t w → lo <= lo' <= 2 ^ 19 → (∀ vpn, lo <= vpn < lo' → vlookup (mem st) d vpn = None) → 0 <= lo →
  unmapped lo' hi st d t w st' → unmapped lo hi st d t w st'.
Proof.
  intros [_ _ Hw] Hlo Hno H0' [H1 H2 H3]. assert (keep lo' hi w = keep lo hi w) as Hk.
  { apply keep_skip; [lia|]. intros p v Hp Hv. destruct (fr_in _ _ _ _ Hw p v Hp) as (_ & _ & _ & _ & e & He & _). by rewrite Hno in He. }
  constructor; [by rewrite <- Hk| |by rewrite <- Hk].
  intros vpn Hvpn. rewrite H2 by done. repeat case_decide; try done; [exfalso; lia|]. apply Hno. lia.
Qed.
Lemma unmapped_cons lo hi st st1 st' d t w p i f j e : space st d t w → t !! p = Some i → mem st !! p = Some f → 0 <= j < 1024 → lo = 1024 * i + j →
  0 <= lo < 2 ^ 19 → 4096 * lo < hi → vlookup (mem st) d lo = Some e → good st1 → mem st1 = <[p := <[j := 0]> f]> (delete (frame e) (mem st)) →
  unmapped (lo + 1) hi st1 d t (delete (frame e) w) st' → unmapped lo hi st d t w st'.
Proof.
  intros Hs Hi Hf Hj Hlo Hlo19 Hhi He Hg Hm [H1 H2 H3]. destruct (space_unmap st st1 d t w p i f j lo e) as [Hs1 Hv1]; [done..|].
  pose proof (space_frames _ _ _ _ Hs) as Hw. pose proof (fr_out _ _ _ _ Hw lo e Hlo19 He) as Hwe.
  assert (keep (lo + 1) hi (delete (frame e) w) = keep lo hi w) as Hk.
  { apply keep_delete; [done| |done]. intros q Hq. by eapply frames_inj. }
  constructor; [by rewrite <- Hk| |].
  - intros vpn Hvpn. rewrite H2, Hv1 by done. repeat case_decide; try done; exfalso; lia.
  - intros q Hq. rewrite <- Hk, H3, Hm by done. rewrite lookup_insert_ne by (intros <-; by apply Hq, elem_of_dom_2 with i).
    destruct (decide (q = frame e)) as [->|Hqe].
    + rewrite lookup_delete_eq. apply elem_of_dom_2 in Hwe as Hd. rewrite (decide_True (P := frame e ∈ dom w ∧ _)); [by case_decide|].
      split; [done|]. rewrite Hk, not_elem_of_dom, keep_lookup, Hwe. cbn. rewrite decide_True by lia. done.
    + rewrite lookup_delete_ne by done. repeat case_decide; try done; exfalso; rewrite dom_delete in *; set_solver.
Qed.
Lemma dealloc_loop_spec fuel d v hi st t w : space st d t w → 0 <= v <= 2 ^ 19 → hi <= KERNBASE → (0 < fuel)%nat → hi - 4096 * v <= 4096 * (Z.of_nat fuel - 1) →
  wpe E (dealloc_loop fuel d (4096 * v) hi) (λ _, unmapped v hi st d t w) st.
Proof.
  revert v st w. induction fuel as [|fuel IH]; intros v st w Hs Hv Hhi Hfu Hfuel; [lia|].
  cbn [dealloc_loop]. destruct (Z.ltb_spec (4096 * v) hi) as [Hlt|Hge]; [|wpe_step; by apply unmapped_none].
  assert (v < 2 ^ 19) as Hv19 by (unfold KERNBASE in *; lia). destruct (va_slots v) as [Hs1 Hs2].
  pose proof Hs as [Hg Ht Hw]. wpe_step. apply walk_spec with t; [done|done|lia|..].
  - intros p Htp Hfr Hpr. rewrite Hs1 in *. rewrite Hs2. destruct (tree_tab _ _ _ Ht p _ Htp) as (Hpm & Hi & _).
    pose proof (good_page _ _ Hg Hpm) as Hup. apply elem_of_dom in Hpm as [f Hf]. assert (0 <= v mod 1024 < 1024) as Hj by (apply Z.mod_pos_bound; lia).
    destruct (slot_addr p (v mod 1024) Hup Hj) as (_ & _ & Hnz). rewrite (proj2 (Z.eqb_neq _ 0)) by done.
    wpe_step. wpe_step. apply wpe_load with f; [done..|]. wpe_steps.
    pose proof (vlookup_slot _ _ _ _ _ _ Ht Htp Hj) as Hvl. rewrite <- vpn_split in Hvl. unfold wd in Hvl. rewrite Hf in Hvl.
    assert (u32 (4096 * v + PGSIZE) = 4096 * (v + 1)) as Hnext by (unfold PGSIZE; rewrite u32_small; lia).
    destruct (present (word f (v mod 1024))) eqn:Hpf.
    + set (e := word f (v mod 1024)) in *. pose proof (fr_out _ _ _ _ Hw v e ltac:(lia) Hvl) as Hwe. destruct (fr_in _ _ _ _ Hw _ _ Hwe) as (Hed & Hdd & Htt & _).
      pose proof (good_page _ _ Hg Hed) as Hue. assert (PTE_ADDR e ≠ 0) as Hpa.
      { intros He. unfold frame in Hue. rewrite He in Hue. destruct Hue as [Hue _]. revert Hue. vm_compute. intros []; done. }
      wpe_steps. rewrite (proj2 (Z.eqb_neq _ 0)) by done. wpe_steps. change (P2V (PTE_ADDR e)) with (frame e).
      apply wpe_kfree; [done|done|]. intros st1 Hg1 Hm1. assert (p ≠ frame e) by congruence.
      apply wpe_store with f; [done|done|by rewrite Hm1, lookup_delete_ne|]. wpe_steps. rewrite Hnext.
      pose proof (vpn_split v) as Hvs.
      assert (good (set_mem (<[p:=<[v mod 1024:=0]> f]> (mem st1)) st1)) as Hg2.
      { unfold good in *. simpl. rewrite dom_insert_L. rewrite (subseteq_union_1_L {[p]}); [done|]. apply singleton_subseteq_l.
        rewrite Hm1, dom_delete. apply elem_of_difference. split; [by eapply elem_of_dom_2|]. by intros ?%elem_of_singleton. }
      eapply wpe_mono; [apply (IH _ _ (delete (frame e) w))|].
      * apply (space_unmap st _ d t w p (v / 1024) f (v mod 1024) v e); [done|done|done|done|done|lia|done|done|]. simpl. by rewrite Hm1.
      * lia.
      * done.
      * lia.
      * lia.
      * intros [] st'. apply (unmapped_cons v hi st _ st' d t w p (v / 1024) f (v mod 1024) e); [done|done|done|done|done|lia|done|done|done|]. simpl. by rewrite Hm1.
    + wpe_steps. rewrite Hnext. eapply wpe_mono; [apply (IH _ _ w); [done|lia|done|lia|lia]|].
      intros [] st'. apply unmapped_skip; [done|lia| |lia]. intros vpn Hvpn. by replace vpn with v by lia.
  - intros Hpr. rewrite Hs1 in Hpr. cbn. wpe_steps. rewrite PDX_div by lia. rewrite Hs1.
    replace (u32 (u32 (PGADDR (v / 1024 + 1) 0 0 - PGSIZE) + PGSIZE)) with (4096 * (1024 * (v / 1024 + 1))).
    + eapply wpe_mono; [apply (IH _ _ w); [done| |done|lia|]; Z.div_mod_to_equations; lia|].
      intros [] st'. apply unmapped_skip; [done|Z.div_mod_to_equations; lia| |lia]. intros vpn Hvpn. unfold vlookup.
      replace (vpn / 1024) with (v / 1024) by (Z.div_mod_to_equations; lia). by rewrite Hpr.
    + unfold PGADDR, PGSIZE. rewrite Z.shiftl_0_l, !Z.lor_0_r, Z.shiftl_mul_pow2 by lia. change (2 ^ 22) with 4194304.
      rewrite (u32_small ((v / 1024 + 1) * _)), (u32_small (_ - 4096)), u32_small by (Z.div_mod_to_equations; lia). lia.
Qed.
End specs.
