(* ===== verification/VmOps.v ===== *)
(** * Address spaces: what allocuvm, deallocuvm, freevm, setupkvm, copyuvm and copyout do *)

From S2P Require Import Prelude KMem KallocV2 PageAlloc Vm VmTree VmSpec.

Section ops.
Context {K : Type} `{PageAllocatorLaws K}.
Implicit Types (st : vst K).

Lemma wpe_mfor {A} (E : string → Prop) (l : list A) (body : A → M (vst K) ()) (I : list A → vst K → Prop) st :
  I l st → (∀ x l' st, I (x :: l') st → wpe E (body x) (λ _, I l') st) → wpe E (mfor l body) (λ _, I []) st.
Proof.
  intros HI Hstep. revert st HI. induction l as [|x l IH]; intros st HI; cbn [mfor]; [done|].
  wpe_step. eapply wpe_mono; [by apply Hstep|]. intros [] st' ?. by apply IH.
Qed.
Definition pages_up (sz : Z) : Z := (sz + 4095) / 4096.
Lemma PGROUNDUP_pages sz : 0 <= sz <= KERNBASE → PGROUNDUP sz = 4096 * pages_up sz.
Proof.
  intros Hsz. unfold KERNBASE in *. rewrite PGROUNDUP_spec by (unfold PGSIZE; lia). unfold PGSIZE, pages_up.
  replace (sz + 4096 - 1) with (sz + 4095) by lia. lia.
Qed.

(** ** Giving pages back *)
Lemma deallocuvm_spec E st d t w oldsz newsz : space st d t w → 0 <= newsz → oldsz <= KERNBASE → newsz < oldsz →
  wpe E (deallocuvm d oldsz newsz) (λ r st', r = newsz ∧ unmapped (pages_up newsz) oldsz st d t w st') st.
Proof.
  intros Hs Hn Ho Hlt. unfold deallocuvm. rewrite (proj2 (Z.leb_gt _ _)), PGROUNDUP_pages by lia. wpe_step.
  eapply wpe_mono; [apply (dealloc_loop_spec E _ d _ _ st t w)|].
  - done.
  - unfold pages_up, KERNBASE in *. Z.div_mod_to_equations. lia.
  - done.
  - lia.
  - unfold PGSIZE. rewrite Nat2Z.inj_succ. destruct (decide (oldsz - 4096 * pages_up newsz + 4096 - 1 < 0)); [lia|].
    rewrite Z2Nat.id by (Z.div_mod_to_equations; lia). Z.div_mod_to_equations. lia.
  - intros [] st' Hu. by wpe_steps.
Qed.
(** The page tables from the directory entry [i] on are left. *)
Lemma free_tables_spec E st d t fd : good st → tree (mem st) d t → mem st !! d = Some fd →
  wpe E (mfor (seqZ 0 NPDENTRIES) (λ i, e ← load (d + 4 * i); when (present e) (kfree (P2V (PTE_ADDR e)))))
    (λ _ st', good st' ∧ ∀ q, mem st' !! q = if decide (q ∈ dom t) then None else mem st !! q) st.
Proof.
  intros Hg Ht Hd. assert (upage d) as Hud by by eapply good_page, elem_of_dom_2.
  set (gone := λ i q, match t !! q with Some k => if decide (k < i) then None else mem st !! q | None => mem st !! q end).
  set (I := λ (l : list Z) st1, ∃ i, l = seqZ i (1024 - i) ∧ 0 <= i <= 1024 ∧ good st1 ∧ ∀ q, mem st1 !! q = gone i q).
  eapply wpe_mono; [apply (wpe_mfor E _ _ I)|].
  - exists 0. split; [done|]. split; [lia|]. split; [done|]. intros q. unfold gone. destruct (t !! q) as [k|] eqn:Hk; [|done].
    rewrite decide_False; [done|]. destruct (tree_tab _ _ _ Ht q k Hk) as (_ & ? & _). lia.
  - intros i l st1 (i' & Hl & Hi & Hg1 & Hm1).
    assert (i' < 1024) as Hi' by (destruct (decide (i' = 1024)) as [->|]; [done|lia]).
    rewrite (seqZ_cons i') in Hl by lia. injection Hl as -> ->.
    wpe_step. apply wpe_load with fd; [done|lia|rewrite Hm1; unfold gone; by rewrite (tree_dir_no _ _ _ Ht)|].
    assert (word fd i' = wd (mem st) d i') as -> by (unfold wd; by rewrite Hd). wpe_steps. change (P2V (PTE_ADDR ?e)) with (frame e).
    assert (∀ st2, good st2 → (∀ q, mem st2 !! q = gone (i' + 1) q) → I (seqZ (Z.succ i') (Z.pred (1024 - i'))) st2) as Hdone.
    { intros st2 Hg2 Hm2. exists (i' + 1). split; [f_equal; lia|]. split; [lia|]. done. }
    destruct (present (wd (mem st) d i')) eqn:Hpr.
    + pose proof (tree_pde _ _ _ Ht i' ltac:(lia) Hpr) as Htf. destruct (tree_tab _ _ _ Ht _ _ Htf) as (Hdm & _).
      apply wpe_kfree; [done| |].
      * apply elem_of_dom. rewrite Hm1. unfold gone. rewrite Htf, decide_False by lia. by apply elem_of_dom.
      * intros st2 Hg2 Hm2. apply Hdone; [done|]. intros q. rewrite Hm2. unfold gone. destruct (decide (q = frame (wd (mem st) d i'))) as [->|Hq].
        -- rewrite lookup_delete_eq, Htf, decide_True; [done|lia].
        -- rewrite lookup_delete_ne, Hm1 by done. unfold gone. destruct (t !! q) as [k|] eqn:Hk; [|done].
           assert (k ≠ i') by (intros ->; destruct (tree_tab _ _ _ Ht q i' Hk) as (_ & _ & _ & <-); done). repeat case_decide; try done; exfalso; lia.
    + apply Hdone; [done|]. intros q. rewrite Hm1. unfold gone. destruct (t !! q) as [k|] eqn:Hk; [|done].
      assert (k ≠ i') by (intros ->; destruct (tree_tab _ _ _ Ht q i' Hk) as (_ & _ & Hp & _); congruence). repeat case_decide; try done; exfalso; lia.
  - intros [] st' (i & Hl & Hi & Hg' & Hm'). split; [done|]. intros q. rewrite Hm'. unfold gone.
    assert (i = 1024) as -> by (destruct (decide (i = 1024)); [done|]; rewrite seqZ_cons in Hl by lia; done).
    destruct (t !! q) as [k|] eqn:Hk.
    + destruct (tree_tab _ _ _ Ht q k Hk) as (_ & ? & _). rewrite !decide_True; [done|by eapply elem_of_dom_2|lia].
    + rewrite decide_False; [done|]. by apply not_elem_of_dom.
Qed.
Lemma keep_all m d t w : frames m d t w → keep 0 KERNBASE w = ∅.
Proof.
  intros Hw. apply map_eq. intros p. rewrite keep_lookup, lookup_empty. destruct (w !! p) as [v|] eqn:Hp; [|done]. cbn.
  destruct (fr_in _ _ _ _ Hw p v Hp) as (_ & _ & _ & ? & _). rewrite decide_True; [done|]. unfold KERNBASE. lia.
Qed.
Lemma freevm_spec E st d t w : space st d t w →
  wpe E (freevm d) (λ _ st', good st' ∧ ∀ q, mem st' !! q = if decide (q ∈ space_pages d t w) then None else mem st !! q) st.
Proof.
  intros Hs. pose proof Hs as [Hg Ht Hw]. pose proof (good_page _ _ Hg (tree_dir _ _ _ Ht)) as Hud.
  assert (d ≠ 0) as Hd0 by (destruct Hud as [? _]; unfold KERNBASE in *; lia).
  unfold freevm. rewrite (proj2 (Z.eqb_neq d 0)) by done. wpe_steps.
  eapply wpe_mono; [by apply (deallocuvm_spec E _ d t w)|]. intros r st1 [_ [[Hg1 Ht1 Hw1] _ Hm1]]. change (pages_up 0) with 0 in *.
  rewrite (keep_all _ _ _ _ Hw) in *. pose proof (tree_dir _ _ _ Ht1) as [fd Hd]%elem_of_dom.
  wpe_step. eapply wpe_mono; [by apply (free_tables_spec E _ _ t fd)|]. intros [] st2 (Hg2 & Hm2).
  assert (d ∉ dom t) as Hdt by (apply not_elem_of_dom, Ht).
  apply wpe_kfree; [done|apply elem_of_dom; rewrite Hm2, decide_False by done; by exists fd|].
  intros st3 Hg3 Hm3. split; [done|]. intros q. rewrite Hm3. destruct (decide (q = d)) as [->|Hq].
  { rewrite lookup_delete_eq, decide_True; [done|]. unfold space_pages. set_solver. }
  rewrite lookup_delete_ne, Hm2 by done. destruct (decide (q ∈ dom t)) as [Hqt|Hqt].
  { rewrite decide_True; [done|]. unfold space_pages. set_solver. }
  rewrite Hm1 by done. apply decide_ext. unfold space_pages. rewrite dom_empty. set_solver.
Qed.

(** ** A new address space *)
(** The new pages are in use, the others are as they were. *)
Record adds st (new : gset Z) st' : Prop := {
  adds_good : good st';
  adds_new : new ## dom (mem st);
  adds_dom : dom (mem st') = dom (mem st) ∪ new;
  adds_old p : p ∈ dom (mem st) → mem st' !! p = mem st !! p;
}.
(** An entry of the kernel's map, and what the whole map says of a virtual page. *)
Definition kmap_pte (k : Z * Z * Z * Z) (vpn : Z) : option Z :=
  let '(virt, phys_start, phys_end, perm) := k in
  if decide (virt / 4096 <= vpn < virt / 4096 + u32 (phys_end - phys_start) / 4096)
  then Some (mkpte (phys_start + 4096 * (vpn - virt / 4096)) perm) else None.
Definition ktable (ks : list (Z * Z * Z * Z)) (vpn : Z) : option Z := head (omap (λ k, kmap_pte k vpn) ks).
Definition kmap_ok (k : Z * Z * Z * Z) : Prop :=
  let '(virt, phys_start, phys_end, perm) := k in
  ∃ v0 n, virt = 4096 * v0 ∧ u32 (phys_end - phys_start) = 4096 * (Z.of_nat n + 1) ∧ 2 ^ 19 <= v0 ∧ v0 + Z.of_nat n < 2 ^ 20 ∧
    phys_start mod 4096 = 0 ∧ 0 <= phys_start ∧ phys_start + 4096 * Z.of_nat n < 2 ^ 32.
Definition kmap_apart (k1 k2 : Z * Z * Z * Z) : Prop := ∀ vpn, kmap_pte k1 vpn = None ∨ kmap_pte k2 vpn = None.
Definition kmap_step (d : Z) (k : Z * Z * Z * Z) : M (vst K) (option Z) :=
  let '(virt, phys_start, phys_end, perm) := k in
  r ← mappages d virt (u32 (phys_end - phys_start)) phys_start perm;
  if r <? 0 then freevm d ;; mret (Some 0) else mret None.
Lemma kmap_pte_high k vpn : kmap_ok k → vpn < 2 ^ 19 → kmap_pte k vpn = None.
Proof.
  destruct k as [[[virt ps] pe] perm]. intros (v0 & n & -> & _ & Hv0 & _) Hv. unfold kmap_pte.
  rewrite decide_False; [done|]. Z.div_mod_to_equations. lia.
Qed.
Lemma frames_empty m d t : (∀ vpn, 0 <= vpn < 2 ^ 19 → vlookup m d vpn = None) → frames m d t ∅.
Proof. intros Hv. constructor; [intros p v; by rewrite lookup_empty|]. intros v e Hv0. by rewrite Hv. Qed.
Lemma kmap_loop_spec E ks d st t : allows E → good st → tree (mem st) d t → Forall kmap_ok ks → StronglySorted kmap_apart ks →
  (∀ vpn, 0 <= vpn < 2 ^ 19 → vlookup (mem st) d vpn = None) →
  (∀ k vpn, k ∈ ks → 0 <= vpn < 2 ^ 20 → is_Some (kmap_pte k vpn) → vlookup (mem st) d vpn = None) →
  wpe E (for_find ks (kmap_step d)) (λ r st', match r with
    | None => ∃ t', grows d st t st' t' ∧ ∀ vpn, 0 <= vpn < 2 ^ 20 →
        vlookup (mem st') d vpn = match ktable ks vpn with Some e => Some e | None => vlookup (mem st) d vpn end
    | Some x => x = 0 ∧ good st' ∧ ∀ q, mem st' !! q = if decide (q ∈ {[d]} ∪ dom t) then None else mem st !! q
    end) st.
Proof.
  intros HE Hg Ht Hok. revert st t Hg Ht. induction Hok as [|k ks Hk Hok IH]; intros st t Hg Ht Hs Hu Hno; cbn [for_find].
  { wpe_steps. exists t. split; [by apply vgrows_refl|done]. }
  apply StronglySorted_inv in Hs as [Hs Hap]. rewrite Forall_forall in Hap.
  assert (∀ vpn, 0 <= vpn < 2 ^ 20 → is_Some (kmap_pte k vpn) → vlookup (mem st) d vpn = None) as Hnok by (intros vpn; apply Hno; left).
  assert (∀ vpn, vpn < 2 ^ 19 → kmap_pte k vpn = None) as Hhigh by (intros vpn; by apply kmap_pte_high).
  destruct k as [[[virt ps] pe] perm]. destruct Hk as (v0 & n & -> & Hsz & Hv0 & Hv1 & Hps & Hps0 & Hps1). cbn [kmap_step]. rewrite Hsz.
  assert (∀ vpn, kmap_pte (4096 * v0, ps, pe, perm) vpn = if decide (v0 <= vpn < v0 + (Z.of_nat n + 1)) then Some (mkpte (ps + 4096 * (vpn - v0)) perm) else None) as Hkp.
  { intros vpn. unfold kmap_pte. rewrite Hsz. replace (4096 * v0 / 4096) with v0 by (Z.div_mod_to_equations; lia).
    by replace (4096 * (Z.of_nat n + 1) / 4096) with (Z.of_nat n + 1) by (Z.div_mod_to_equations; lia). }
  wpe_step. wpe_step. eapply wpe_mono; [apply (mappages_spec E n d v0 ps perm st t); try done; [lia|]|].
  { intros vpn Hvpn. apply Hnok; [lia|]. rewrite Hkp, decide_True by lia. by eexists. }
  intros r st1 (t1 & j & Hgr & Hr & Hv). destruct Hr as [[-> ->]|[-> Hj]]; cbn [Z.ltb Z.compare]; wpe_steps.
  - eapply wpe_mono; [apply (IH st1 t1); [apply Hgr|apply Hgr|done|..]|].
    + intros vpn Hvpn. rewrite Hv, decide_False by lia. by apply Hu.
    + intros k vpn Hk Hvpn Hsome. rewrite Hv by done. pose proof (Hap k Hk vpn) as [Hno1|Hno2]; [|by rewrite Hno2 in Hsome; destruct Hsome].
      rewrite Hkp in Hno1. case_decide; [done|]. apply (Hno k); [by right|done|done].
    + intros [x|] st'.
      * intros (-> & Hg' & Hm'). split; [done|]. split; [done|]. intros q. rewrite Hm'. destruct (decide (q ∈ {[d]} ∪ dom t)) as [Hq|Hq].
        -- rewrite decide_True; [done|]. pose proof (subseteq_dom _ _ (grows_sub _ _ _ _ _ Hgr)). set_solver.
        -- case_decide as Hq1.
           ++ symmetry. apply not_elem_of_dom. destruct (grows_fresh _ _ _ _ _ Hgr q); set_solver.
           ++ apply (grows_other _ _ _ _ _ Hgr); set_solver.
      * intros (t' & Hgr' & Hv'). exists t'. split; [by eapply vgrows_trans|]. intros vpn Hvpn. rewrite Hv', Hv by done. unfold ktable. cbn [omap list_omap].
        rewrite Hkp. case_decide; cbn; [|done]. destruct (head _) as [e|] eqn:He; [exfalso|done].
        apply head_Some_elem_of in He. apply list_elem_of_omap in He as (k & Hk & Hke). destruct (Hap k Hk vpn) as [Hno1|Hno2]; [|congruence].
        rewrite Hkp, decide_True in Hno1; done.
  - assert (space st1 d t1 ∅) as Hsp.
    { constructor; [apply Hgr|apply Hgr|]. apply frames_empty. intros vpn Hvpn. rewrite Hv, decide_False by lia. by apply Hu. }
    eapply wpe_mono; [by apply (freevm_spec E _ _ t1 ∅)|]. intros [] st2 (Hg2 & Hm2). wpe_steps. split; [done|]. split; [done|].
    intros q. rewrite Hm2. unfold space_pages. rewrite dom_empty_L, union_empty_r_L. destruct (decide (q ∈ {[d]} ∪ dom t)) as [Hq|Hq].
    + rewrite decide_True; [done|]. pose proof (subseteq_dom _ _ (grows_sub _ _ _ _ _ Hgr)). set_solver.
    + case_decide as Hq1.
      * symmetry. apply not_elem_of_dom. destruct (grows_fresh _ _ _ _ _ Hgr q); set_solver.
      * apply (grows_other _ _ _ _ _ Hgr); set_solver.
Qed.

(** The linker puts the kernel's data on a page boundary after its text. *)
Definition data_ok (data : Z) : Prop := KERNLINK < data < KERNBASE + PHYSTOP ∧ data mod 4096 = 0.
Lemma kmap_fine data : data_ok data → Forall kmap_ok (kmap data) ∧ StronglySorted kmap_apart (kmap data).
Proof.
  unfold data_ok, KERNLINK. intros [Hd Hm].
  assert (V2P data = data - KERNBASE) as Hv by (unfold V2P; rewrite u32_small; [done|unfold KERNBASE, EXTMEM, PHYSTOP in *; lia]).
  assert (u32 (V2P data - V2P (KERNBASE + EXTMEM)) = data - KERNBASE - EXTMEM) as Hs2.
  { rewrite Hv. change (V2P (KERNBASE + EXTMEM)) with EXTMEM. rewrite u32_small; [done|]. unfold KERNBASE, EXTMEM, PHYSTOP in *. lia. }
  assert (u32 (PHYSTOP - V2P data) = KERNBASE + PHYSTOP - data) as Hs3.
  { rewrite Hv. rewrite u32_small; [lia|]. unfold KERNBASE, EXTMEM, PHYSTOP in *. lia. }
  unfold kmap, KERNLINK. split.
  - repeat constructor; unfold kmap_ok.
    + exists (KERNBASE / 4096), 255%nat. vm_compute. repeat split; done.
    + exists ((KERNBASE + EXTMEM) / 4096), (Z.to_nat ((data - KERNBASE - EXTMEM) / 4096 - 1)). rewrite Hs2.
      rewrite Z2Nat.id by (unfold KERNBASE, EXTMEM, PHYSTOP in *; Z.div_mod_to_equations; lia).
      change (V2P (KERNBASE + EXTMEM)) with EXTMEM. unfold KERNBASE, EXTMEM, PHYSTOP in *. repeat split; Z.div_mod_to_equations; lia.
    + exists (data / 4096), (Z.to_nat ((KERNBASE + PHYSTOP - data) / 4096 - 1)). rewrite Hs3, Hv.
      rewrite Z2Nat.id by (unfold KERNBASE, EXTMEM, PHYSTOP in *; Z.div_mod_to_equations; lia).
      unfold KERNBASE, EXTMEM, PHYSTOP in *. repeat split; Z.div_mod_to_equations; lia.
    + exists (DEVSPACE / 4096), 8191%nat. vm_compute. repeat split; done.
  - unfold kmap_apart. repeat first [apply SSorted_nil|apply SSorted_cons|apply List.Forall_nil|apply List.Forall_cons]; intros vpn; unfold kmap_pte; rewrite ?Hs2, ?Hs3;
      change (u32 (EXTMEM - 0)) with EXTMEM; change (u32 (0 - DEVSPACE)) with 0x2000000; unfold KERNBASE, EXTMEM, PHYSTOP, DEVSPACE in *;
      repeat case_decide; try (by left); try (by right); exfalso; Z.div_mod_to_equations; lia.
Qed.
(** The kernel's half of every address space. *)
Definition kpte (data vpn : Z) : option Z := ktable (kmap data) vpn.
Lemma kpte_user data vpn : data_ok data → vpn < 2 ^ 19 → kpte data vpn = None.
Proof.
  intros [Hok _]%kmap_fine Hv. unfold kpte, ktable. destruct (head _) as [e|] eqn:He; [exfalso|done].
  apply head_Some_elem_of in He. apply list_elem_of_omap in He as (k & Hk & Hke). rewrite Forall_forall in Hok. by rewrite kmap_pte_high in Hke by auto.
Qed.
Lemma for_find_ext {S A R} (l : list A) (f g : A → M S (option R)) s : (∀ x s, f x s = g x s) → for_find l f s = for_find l g s.
Proof.
  intros Hfg. revert s. induction l as [|x l IH]; intros s; [done|]. cbn. unfold mbind, M_bind. rewrite Hfg.
  destruct (g x s) as [[r|] s'| | | |]; [done|apply IH|done..].
Qed.
Lemma setupkvm_spec E data st : allows E → data_ok data → good st →
  wpe E (setupkvm data) (λ r st', r = 0 ∧ good st' ∧ mem st' = mem st ∨
    ∃ t, r ≠ 0 ∧ space st' r t ∅ ∧ adds st ({[r]} ∪ dom t) st' ∧ ∀ vpn, 0 <= vpn < 2 ^ 20 → vlookup (mem st') r vpn = kpte data vpn) st.
Proof.
  intros HE Hdata Hg. destruct (kmap_fine data Hdata) as [Hok Hap]. unfold setupkvm. wpe_step.
  apply wpe_kalloc; [done|done|done|intros st' Hg' Hm'; cbn; wpe_steps; left; by rewrite Hm'|].
  intros d f st1 Hd Hdm Hg1 Hm1. assert (d ≠ 0) as Hd0 by (destruct Hd as [? _]; unfold KERNBASE in *; lia).
  rewrite (proj2 (Z.eqb_neq d 0)) by done. wpe_step. apply (wpe_put_page _ _ _ f); [rewrite Hm1; by rewrite lookup_insert_eq|].
  set (st2 := set_mem _ _). assert (mem st2 = <[d := ∅]> (mem st)) as Hm2 by (subst st2; simpl; by rewrite Hm1, insert_insert_eq).
  assert (dom (mem st2) = {[d]} ∪ dom (mem st)) as Hd2 by (by rewrite Hm2, dom_insert_L).
  assert (good st2) as Hg2 by (unfold good in *; rewrite Hd2; subst st2; simpl; by rewrite Hm1, dom_insert_L in Hg1).
  assert (∀ i, wd (mem st2) d i = 0) as Hw by (intros i; rewrite Hm2, wd_insert; by rewrite decide_True).
  assert (tree (mem st2) d ∅) as Ht2.
  { constructor; [rewrite Hd2; set_solver|apply lookup_empty|intros p i; by rewrite lookup_empty|]. intros i _. by rewrite Hw. }
  clearbody st2. wpe_steps. change (DEVSPACE <? P2V PHYSTOP) with false. cbn iota. wpe_steps. eapply wpe_mono.
  { unfold wpe. rewrite (for_find_ext _ _ (kmap_step d)) by (by intros [[[??]?]?] ?). apply (kmap_loop_spec E _ d st2 ∅); [done..| |];
      intros; unfold vlookup; by rewrite Hw. }
  assert (dom (∅ : gmap Z Z) = (∅ : gset Z)) as Hemp by apply dom_empty_L.
  intros [x|] st3; cbn.
  - intros (-> & Hg3 & Hm3). wpe_steps. left. split; [done|]. split; [done|]. apply map_eq. intros q. rewrite Hm3, Hemp, union_empty_r_L, Hm2.
    destruct (decide (q = d)) as [->|Hq].
    + rewrite decide_True by set_solver. symmetry. by apply not_elem_of_dom.
    + rewrite decide_False by set_solver. by rewrite lookup_insert_ne.
  - intros (t & Hgr & Hv). wpe_steps. right. exists t. split; [done|].
    assert (∀ vpn, 0 <= vpn < 2 ^ 20 → vlookup (mem st3) d vpn = kpte data vpn) as Hv3.
    { intros vpn Hvpn. rewrite Hv by done. unfold kpte. destruct (ktable _ _); [done|]. unfold vlookup. by rewrite Hw. }
    assert ({[d]} ∪ dom t ## dom (mem st)) as Hdis.
    { intros q [->%elem_of_singleton|Hq]%elem_of_union Hq'; [done|]. destruct (grows_fresh _ _ _ _ _ Hgr q Hq) as [Hq2|Hq2]; [by rewrite Hemp in Hq2|]. set_solver. }
    split; [|split; [|done]].
    + constructor; [apply Hgr|apply Hgr|]. apply frames_empty. intros vpn Hvpn. rewrite Hv3 by lia. apply kpte_user; [done|lia].
    + constructor; [apply Hgr|done| |].
      * rewrite (grows_dom _ _ _ _ _ Hgr), Hd2. set_solver.
      * intros q Hq. assert (q ≠ d) as Hqd by (intros ->; done). rewrite (grows_other _ _ _ _ _ Hgr), Hm2; [by rewrite lookup_insert_ne|done|]. set_solver.
Qed.

(** ** Growing *)
Lemma map_user_page E st d t w v p perm : allows E → space st d t w → p ∈ dom (mem st) → p ∉ space_pages d t w →
  0 <= v < 2 ^ 19 → vlookup (mem st) d v = None → 0 <= perm < 4096 →
  wpe E (mappages d (4096 * v) PGSIZE (V2P p) perm) (λ r st', ∃ t', grows d st t st' t' ∧ p ∉ dom t' ∧
    (r = 0 ∧ space st' d t' (<[p := v]> w) ∧
       (∀ vpn, 0 <= vpn < 2 ^ 20 → vlookup (mem st') d vpn = if decide (vpn = v) then Some (mkpte (V2P p) perm) else vlookup (mem st) d vpn) ∨
     r = -1 ∧ space st' d t' w ∧ ∀ vpn, 0 <= vpn < 2 ^ 20 → vlookup (mem st') d vpn = vlookup (mem st) d vpn)) st.
Proof.
  intros HE [Hg Ht Hw] Hp Hps Hv Hno Hperm. pose proof (good_page _ _ Hg Hp) as Hup. destruct (upage_bounds p Hup) as (_ & _ & H1 & H2 & H3 & _).
  change PGSIZE with (4096 * (Z.of_nat 0 + 1)). unfold PHYSTOP in *.
  eapply wpe_mono; [apply (mappages_spec E 0 d v (V2P p) perm st t HE Hg Ht); try lia|].
  { intros vpn Hvpn. by replace vpn with v by lia. }
  intros r st' (t' & j & Hgr & Hr & Hv'). exists t'. split; [done|].
  assert (p ∉ dom t') as Hpt.
  { intros Hpt. destruct (grows_fresh _ _ _ _ _ Hgr p Hpt) as [Hpt'|Hpt']; [|done]. unfold space_pages in Hps. set_solver. }
  split; [done|]. destruct Hr as [[-> ->]|[-> Hj]]; [left|right]; (split; [done|]).
  - assert (∀ vpn, 0 <= vpn < 2 ^ 20 → vlookup (mem st') d vpn = if decide (vpn = v) then Some (mkpte (V2P p) perm) else vlookup (mem st) d vpn) as Hv2.
    { intros vpn Hvpn. rewrite Hv' by done. repeat case_decide; try lia; [|done]. subst. do 2 f_equal. lia. }
    split; [|done]. constructor; [apply Hgr|apply Hgr|]. constructor.
    + intros q x. destruct (decide (q = p)) as [->|Hq].
      * rewrite lookup_insert_eq. intros [= <-]. split; [rewrite (grows_dom _ _ _ _ _ Hgr); set_solver|].
        split; [intros ->; unfold space_pages in Hps; set_solver|]. split; [by apply not_elem_of_dom|]. split; [done|].
        eexists. rewrite Hv2, decide_True by lia. split; [done|]. by apply frame_mkpte.
      * rewrite lookup_insert_ne by done. intros Hx. destruct (fr_in _ _ _ _ Hw q x Hx) as (F1 & F2 & F3 & F4 & e & F5 & F6).
        split; [rewrite (grows_dom _ _ _ _ _ Hgr); by apply elem_of_union_l|]. split; [done|]. split; [|split; [done|]].
        -- apply not_elem_of_dom. intros Hqt. destruct (grows_fresh _ _ _ _ _ Hgr q Hqt) as [Hqt'|]; [|done]. by apply elem_of_dom in Hqt' as [? ?]; congruence.
        -- exists e. rewrite Hv2, decide_False by (lia || congruence). done.
    + intros x e Hx. rewrite Hv2 by lia. case_decide as Hxv; [intros [= <-]; subst; rewrite frame_mkpte by done; by rewrite lookup_insert_eq|].
      intros He. pose proof (fr_out _ _ _ _ Hw x e Hx He) as Hwe. rewrite lookup_insert_ne; [done|]. intros Heq.
      apply Hps. unfold space_pages. rewrite Heq. apply elem_of_union_r. by eapply elem_of_dom_2.
  - assert (∀ vpn, 0 <= vpn < 2 ^ 20 → vlookup (mem st') d vpn = vlookup (mem st) d vpn) as Hv2.
    { intros vpn Hvpn. rewrite Hv' by done. rewrite decide_False by lia. done. }
    split; [|done]. constructor; [apply Hgr|apply Hgr|]. apply (frames_grows d st t); [done..|]. intros; apply Hv2; lia.
Qed.
(** From the virtual page [lo] to [v] the address space has got new pages of zeros, writable by the user. *)
Record grown (lo v : Z) st (d : Z) (t w : gmap Z Z) st' (t' w' : gmap Z Z) : Prop := {
  gn_space : space st' d t' w';
  gn_tabs : t ⊆ t';
  gn_frames : w ⊆ w';
  gn_range p x : w' !! p = Some x → w !! p = Some x ∨ lo <= x < v;
  gn_fresh p : p ∈ dom t' ∪ dom w' → p ∈ dom t ∪ dom w ∨ p ∉ dom (mem st);
  gn_dom : dom (mem st') = dom (mem st) ∪ dom t' ∪ dom w';
  gn_old p : p ≠ d → p ∉ dom t' → p ∈ dom (mem st) → mem st' !! p = mem st !! p;
  gn_same vpn : 0 <= vpn < 2 ^ 20 → ¬ lo <= vpn < v → vlookup (mem st') d vpn = vlookup (mem st) d vpn;
  gn_zero vpn : lo <= vpn < v → ∃ p, vlookup (mem st') d vpn = Some (mkpte (V2P p) (Z.lor PTE_W PTE_U)) ∧ mem st' !! p = Some ∅;
}.
Lemma grown_refl lo st d t w : space st d t w → grown lo lo st d t w st t w.
Proof.
  intros Hs. pose proof Hs as [Hg Ht Hw]. constructor; try done; [by left|by left| |lia].
  apply tree_tabs_dom in Ht. assert (dom w ⊆ dom (mem st)) as Hdw.
  { intros p [x Hx]%elem_of_dom. by apply (fr_in _ _ _ _ Hw p x). }
  clear -Ht Hdw. set_solver.
Qed.
Lemma grown_snoc lo v st d t w st1 t1 w1 st2 st3 t3 p : grown lo v st d t w st1 t1 w1 → lo <= v < 2 ^ 19 → 0 <= lo → p ∉ dom (mem st1) →
  mem st2 = <[p := ∅]> (mem st1) → grows d st2 t1 st3 t3 → p ∉ dom t3 → space st3 d t3 (<[p := v]> w1) →
  (∀ vpn, 0 <= vpn < 2 ^ 20 → vlookup (mem st3) d vpn = if decide (vpn = v) then Some (mkpte (V2P p) (Z.lor PTE_W PTE_U)) else vlookup (mem st2) d vpn) →
  grown lo (v + 1) st d t w st3 t3 (<[p := v]> w1).
Proof.
  intros [[Hg1 Ht1 Hw1] G2 G3 G4 G5 G6 G7 G8 G9] Hv Hlo Hp Hm2 Hgr Hpt Hs3 Hvl.
  assert (∀ vpn, 0 <= vpn < 2 ^ 20 → vlookup (mem st2) d vpn = vlookup (mem st1) d vpn) as Hv2.
  { apply (vlookup_same _ _ _ t1); [done| |].
    - rewrite Hm2, lookup_insert_ne; [done|]. intros ->. by apply Hp, Ht1.
    - intros q Hq. rewrite Hm2, lookup_insert_ne; [done|]. intros ->. by apply Hp, (tree_tabs_dom _ _ _ Ht1). }
  assert (w1 !! p = None) as Hwp.
  { destruct (w1 !! p) as [x|] eqn:Hx; [|done]. by destruct (fr_in _ _ _ _ Hw1 p x Hx) as [? _]. }
  assert (dom (mem st1) ⊆ dom (mem st2)) as Hsub by (rewrite Hm2, dom_insert; set_solver).
  constructor.
  - done.
  - etrans; [done|apply Hgr].
  - etrans; [done|]. by apply insert_subseteq.
  - intros q x. destruct (decide (q = p)) as [->|Hq]; [rewrite lookup_insert_eq; intros [= <-]; right; lia|].
    rewrite lookup_insert_ne by done. intros [?|?]%G4; [by left|right; lia].
  - intros q. rewrite dom_insert. intros Hq. destruct (decide (q = p)) as [->|Hqp]; [right; rewrite G6 in Hp; set_solver|].
    apply elem_of_union in Hq as [Hq|Hq]; [|apply G5; set_solver].
    destruct (grows_fresh _ _ _ _ _ Hgr q Hq) as [Hq'|Hq']; [apply G5; set_solver|]. right. rewrite Hm2, dom_insert, G6 in Hq'. set_solver.
  - rewrite (grows_dom _ _ _ _ _ Hgr), Hm2, !dom_insert_L, G6. pose proof (subseteq_dom _ _ (grows_sub _ _ _ _ _ Hgr)). set_solver.
  - intros q Hqd Hq Hqm. rewrite (grows_other _ _ _ _ _ Hgr), Hm2 by done. rewrite lookup_insert_ne.
    + apply G7; [done| |done]. pose proof (subseteq_dom _ _ (grows_sub _ _ _ _ _ Hgr)). set_solver.
    + intros ->. apply Hp. rewrite G6. set_solver.
  - intros vpn Hvpn Hn. rewrite Hvl, decide_False, Hv2 by lia. apply G8; [done|lia].
  - intros vpn Hvpn. rewrite Hvl by lia. case_decide as Hvv.
    + exists p. split; [done|]. rewrite (grows_other _ _ _ _ _ Hgr), Hm2; [by rewrite lookup_insert_eq| |done].
      intros ->. by apply Hp, Ht1.
    + rewrite Hv2 by lia. destruct (G9 vpn ltac:(lia)) as (q & Hq1 & Hq2). exists q. split; [done|].
      assert (w1 !! q = Some vpn) as Hwq.
      { replace q with (frame (mkpte (V2P q) (Z.lor PTE_W PTE_U))); [apply (fr_out _ _ _ _ Hw1); [lia|done]|].
        apply frame_mkpte; [|done]. by eapply good_page, elem_of_dom_2. }
      destruct (fr_in _ _ _ _ Hw1 q vpn Hwq) as (F1 & F2 & F3 & _).
      rewrite (grows_other _ _ _ _ _ Hgr), Hm2; [rewrite lookup_insert_ne; [done|by intros ->]|done|].
      intros Hq. destruct (grows_fresh _ _ _ _ _ Hgr q Hq) as [Hq'|Hq']; [by apply elem_of_dom in Hq' as [? ?]; congruence|]. by apply Hq', Hsub.
Qed.

(** A page that the address space does not use may come and go. *)
Lemma space_other st d t w st' : space st d t w → good st' → (∀ q, q ∈ space_pages d t w → mem st' !! q = mem st !! q) →
  space st' d t w ∧ ∀ vpn, 0 <= vpn < 2 ^ 20 → vlookup (mem st') d vpn = vlookup (mem st) d vpn.
Proof.
  intros [Hg Ht Hw] Hg' Hm. unfold space_pages in Hm.
  assert (mem st' !! d = mem st !! d) as Hd by (apply Hm; set_solver).
  assert (∀ q, q ∈ dom t → mem st' !! q = mem st !! q) as Htm by (intros q Hq; apply Hm; set_solver).
  pose proof (vlookup_same _ _ _ _ Ht Hd Htm) as Hv. split; [|done]. constructor; [done|by eapply tree_same|]. constructor.
  - intros p v Hp. destruct (fr_in _ _ _ _ Hw p v Hp) as (F1 & F2 & F3 & F4 & e & F5 & F6). split; [|split; [done|split; [done|split; [done|]]]].
    + apply elem_of_dom. rewrite Hm by (apply elem_of_dom_2 in Hp; set_solver). by apply elem_of_dom.
    + exists e. by rewrite Hv by lia.
  - intros v e Hv0. rewrite Hv by lia. by apply Hw.
Qed.
(** What was mapped is unmapped again; [X] are pages that came and went. *)
Lemma roll_back lo v hi st d t w st1 t1 w1 st2 st3 t3 st4 st5 (X : gset Z) : space st d t w → grown lo v st d t w st1 t1 w1 → 0 <= lo →
  (∀ x, lo <= x < v → 4096 * x < hi) → (∀ x, lo <= x → 4096 * x < hi → vlookup (mem st) d x = None) →
  X ## dom (mem st1) → dom (mem st2) = dom (mem st1) ∪ X → (∀ q, q ∉ X → mem st2 !! q = mem st1 !! q) →
  grows d st2 t1 st3 t3 → X ## dom t3 → space st3 d t3 w1 → (∀ vpn, 0 <= vpn < 2 ^ 20 → vlookup (mem st3) d vpn = vlookup (mem st1) d vpn) →
  unmapped lo hi st3 d t3 w1 st4 → good st5 → (∀ q, mem st5 !! q = if decide (q ∈ X) then None else mem st4 !! q) →
  grows d st t st5 t3 ∧ space st5 d t3 w ∧ ∀ vpn, 0 <= vpn < 2 ^ 20 → vlookup (mem st5) d vpn = vlookup (mem st) d vpn.
Proof.
  intros Hs [Hs1 G2 G3 G4 G5 G6 G7 G8 G9] Hlo Hin Hun HX Hd2 Hm2 Hgr HXt Hs3 Hv3 [U1 U2 U3] Hg5 Hm5.
  pose proof Hs as [Hg Ht Hw].
  assert (keep lo hi w1 = w) as Hk.
  { apply map_eq. intros q. rewrite keep_lookup. destruct (w1 !! q) as [x|] eqn:Hq; cbn.
    - destruct (G4 q x Hq) as [Hq'|Hx].
      + rewrite Hq'. rewrite decide_False; [done|]. intros [H1 H2]. destruct (fr_in _ _ _ _ Hw q x Hq') as (_ & _ & _ & _ & e & He & _).
        by rewrite Hun in He.
      + rewrite decide_True by (split; [lia|by apply Hin]). symmetry. destruct (w !! q) as [x'|] eqn:Hq'; [|done].
        rewrite (lookup_weaken _ _ _ _ Hq' G3) in Hq. injection Hq as ->. destruct (fr_in _ _ _ _ Hw q x Hq') as (_ & _ & _ & _ & e & He & _).
        by rewrite Hun in He by (lia || by apply Hin).
    - symmetry. destruct (w !! q) as [x'|] eqn:Hq'; [|done]. by rewrite (lookup_weaken _ _ _ _ Hq' G3) in Hq. }
  rewrite Hk in *. pose proof (subseteq_dom _ _ (grows_sub _ _ _ _ _ Hgr)) as Hsub. pose proof (subseteq_dom _ _ G2) as Hsub2. pose proof (subseteq_dom _ _ G3) as Hsub3.
  pose proof U1 as [Hg4 Ht4 Hw4]. pose proof (space_tree _ _ _ _ Hs1) as Ht1. pose proof (tree_dir _ _ _ Ht1) as Hd1.
  assert (∀ q, q ∈ space_pages d t3 w → q ∉ X) as HnX.
  { intros q Hq HqX. unfold space_pages in Hq. assert (q ∉ dom (mem st1)) as Hq1 by set_solver. rewrite G6 in Hq1.
    apply elem_of_union in Hq as [[->%elem_of_singleton|Hq]%elem_of_union|Hq]; [by apply Hq1; rewrite <- G6|set_solver|set_solver]. }
  destruct (space_other st4 d t3 w st5 U1 Hg5) as [Hs5 Hv5]; [intros q Hq; rewrite Hm5, decide_False; [done|by apply HnX]|].
  assert (∀ vpn, 0 <= vpn < 2 ^ 20 → vlookup (mem st5) d vpn = vlookup (mem st) d vpn) as Hv.
  { intros vpn Hvpn. rewrite Hv5, U2 by done. case_decide as Hr; [symmetry; apply Hun; lia|]. rewrite Hv3 by done. apply G8; [done|]. intros Hx. apply Hr. split; [lia|by apply Hin]. }
  split; [|by split]. assert (∀ q, q ∈ dom t3 → q ∈ dom t ∨ q ∉ dom (mem st)) as Hfresh.
  { intros q Hq. destruct (grows_fresh _ _ _ _ _ Hgr q Hq) as [Hq'|Hq'].
    - destruct (G5 q) as [Hq''|]; [set_solver| |by right]. apply elem_of_union in Hq'' as [|Hqw]; [by left|].
      apply elem_of_dom in Hqw as [x Hx]. destruct (fr_in _ _ _ _ (space_frames _ _ _ _ Hs1) q x (lookup_weaken _ _ _ _ Hx G3)) as (_ & _ & F & _).
      by apply elem_of_dom in Hq' as [? ?]; congruence.
    - right. rewrite Hd2, G6 in Hq'. set_solver. }
  assert (∀ q, q ≠ d → q ∉ dom t3 → mem st5 !! q = mem st !! q) as Hoth.
  { intros q Hqd Hq. rewrite Hm5, U3 by done. case_decide as HqX.
    - symmetry. apply not_elem_of_dom. rewrite G6 in HX. set_solver.
    - case_decide as Hqw.
      + symmetry. apply not_elem_of_dom. destruct (G5 q) as [[Hq'|Hq']%elem_of_union|]; [apply elem_of_union_r, Hqw|exfalso; by apply Hq, Hsub, Hsub2|tauto|done].
      + rewrite (grows_other _ _ _ _ _ Hgr), Hm2 by done. destruct (decide (q ∈ dom (mem st))) as [Hqm|Hqm].
        * apply G7; [done|by intros ?%Hsub|done].
        * rewrite (proj1 (not_elem_of_dom (mem st) q) Hqm). apply not_elem_of_dom. rewrite G6.
          intros [[?|?%Hsub]%elem_of_union|Hq1]%elem_of_union; [done|done|]. apply Hqw. split; [done|]. intros Hq2.
          apply Hqm. apply elem_of_dom in Hq2 as [x Hx]. by apply (fr_in _ _ _ _ Hw q x). }
  constructor; [done|apply Hs5|etrans; [exact G2|apply Hgr]|done| |done].
  apply set_eq. intros q. destruct (decide (q = d)) as [->|Hqd].
  { split; intros _; [apply elem_of_union_l; apply Ht|apply Hs5]. }
  destruct (decide (q ∈ dom t3)) as [Hq|Hq].
  - split; intros _; [by apply elem_of_union_r|by apply (tree_tabs_dom _ _ _ (space_tree _ _ _ _ Hs5))].
  - rewrite elem_of_union, !elem_of_dom, Hoth by done. split; [by left|]. intros [?|?%elem_of_dom]; done.
Qed.
End ops.
