(* ===== verification/AddressSpace.v ===== *)
(** * Growing, copying and writing address spaces: allocuvm, copyuvm, inituvm, clearpteu, copyout *)

From S2P Require Import Prelude KMem KallocV2 PageAlloc Vm VmTree VmSpec VmOps.

Section ops.
Context {K : Type} `{PageAllocatorLaws K}.
Implicit Types (st : vst K).

(** A page from the allocator that is not in use yet. *)
Lemma space_new_page st d t w st' p f : space st d t w → good st' → p ∉ dom (mem st) → mem st' = <[p := f]> (mem st) →
  space st' d t w ∧ p ∉ space_pages d t w ∧ ∀ vpn, 0 <= vpn < 2 ^ 20 → vlookup (mem st') d vpn = vlookup (mem st) d vpn.
Proof.
  intros Hs Hg' Hp Hm. assert (∀ q, q ∈ space_pages d t w → q ∈ dom (mem st)) as Hsub.
  { pose proof Hs as [Hg Ht Hw]. intros q Hq. unfold space_pages in Hq. apply elem_of_union in Hq as [[->%elem_of_singleton|Hq]%elem_of_union|Hq].
    - apply Ht.
    - by apply (tree_tabs_dom _ _ _ Ht).
    - apply elem_of_dom in Hq as [x Hx]. by apply (fr_in _ _ _ _ Hw q x). }
  assert (p ∉ space_pages d t w) as Hps by (intros ?%Hsub; done).
  destruct (space_other st d t w st' Hs Hg') as [H1 H2]; [|done].
  intros q Hq. rewrite Hm, lookup_insert_ne; [done|]. by intros ->.
Qed.
Lemma alloc_loop_spec E fuel st d t w lo v oldsz newsz pid st1 t1 w1 : allows E → pid ≠ -1 → space st d t w → lo = pages_up oldsz → 0 <= oldsz <= newsz → newsz < KERNBASE →
  (∀ x, lo <= x → 4096 * x < newsz → vlookup (mem st) d x = None) →
  grown lo v st d t w st1 t1 w1 → lo <= v <= pages_up newsz → (pages_up newsz - v < Z.of_nat fuel) →
  wpe E (alloc_loop fuel d (4096 * v) oldsz newsz pid) (λ r st',
    r = newsz ∧ (∃ t' w', grown lo (pages_up newsz) st d t w st' t' w') ∨
    r = 0 ∧ ∃ t', grows d st t st' t' ∧ space st' d t' w ∧ ∀ vpn, 0 <= vpn < 2 ^ 20 → vlookup (mem st') d vpn = vlookup (mem st) d vpn) st1.
Proof.
  intros HE Hpid Hs -> Hsz Hnew Hun. revert v st1 t1 w1. induction fuel as [|fuel IH]; intros v st1 t1 w1 Hg1 Hv Hfuel; [lia|].
  assert (0 <= pages_up oldsz) as Hlo by (unfold pages_up; Z.div_mod_to_equations; lia).
  cbn [alloc_loop]. destruct (Z.ltb_spec (4096 * v) newsz) as [Hlt|Hge].
  2: { wpe_step. left. split; [done|]. exists t1, w1. replace (pages_up newsz) with v; [done|]. unfold pages_up in *. Z.div_mod_to_equations. lia. }
  assert (oldsz < newsz) as Hon by (unfold pages_up in *; Z.div_mod_to_equations; lia).
  assert (∀ x, pages_up oldsz <= x < v → 4096 * x < newsz) as Hin by (intros; lia).
  assert (v < 2 ^ 19) as Hv19 by (unfold KERNBASE in *; lia).
  pose proof (gn_space _ _ _ _ _ _ _ _ _ Hg1) as Hs1. wpe_step. apply wpe_kalloc; [done|done|apply Hs1| |].
  - intros st2 Hg2 Hm2. cbn. wpe_step. destruct (space_other st1 d t1 w1 st2 Hs1 Hg2) as [Hs2 Hv2]; [intros; by rewrite Hm2|].
    eapply wpe_mono; [apply (deallocuvm_spec E st2 d t1 w1 newsz oldsz Hs2); lia|].
    intros r st3 [_ Hum]. wpe_steps. right. split; [done|]. exists t1.
    apply (roll_back (pages_up oldsz) v newsz st d t w st1 t1 w1 st2 st2 t1 st3 st3 ∅); try done.
    + rewrite Hm2. set_solver.
    + intros q _. by rewrite Hm2.
    + apply vgrows_refl; [done|apply Hs2].
    + apply Hum.
  - intros p f st2 Hp Hpm Hg2 Hm2. assert (p ≠ 0) as Hp0 by (destruct Hp as [? _]; unfold KERNBASE in *; lia).
    rewrite (proj2 (Z.eqb_neq p 0)) by done. wpe_step. apply (wpe_put_page _ _ _ f); [rewrite Hm2; by rewrite lookup_insert_eq|].
    set (st3 := set_mem _ _). assert (mem st3 = <[p := ∅]> (mem st1)) as Hm3 by (subst st3; simpl; by rewrite Hm2, insert_insert_eq).
    assert (good st3) as Hg3 by (unfold good in *; subst st3; simpl; rewrite Hm2, insert_insert_eq in *; rewrite dom_insert_L in *; done).
    clearbody st3. destruct (space_new_page st1 d t1 w1 st3 p _ Hs1 Hg3 Hpm Hm3) as (Hs3 & Hps & Hv3).
    wpe_step. eapply wpe_mono.
    { apply (map_user_page E st3 d t1 w1 v p (Z.lor PTE_W PTE_U)); [done|done|rewrite Hm3; set_solver|done|lia| |done].
      rewrite Hv3, (gn_same _ _ _ _ _ _ _ _ _ Hg1) by lia. apply Hun; lia. }
    intros r st4 (t4 & Hgr & Hpt & [(-> & Hs4 & Hv4)|(-> & Hs4 & Hv4)]); cbn [Z.ltb Z.compare].
    + unfold PGSIZE. rewrite u32_small by lia. replace (4096 * v + 4096) with (4096 * (v + 1)) by lia.
      apply (IH _ _ t4 (<[p := v]> w1)); [|unfold pages_up in *; Z.div_mod_to_equations; lia|lia].
      apply (grown_snoc _ v st d t w st1 t1 w1 st3 st4 t4 p); done || lia.
    + wpe_step. eapply wpe_mono; [apply (deallocuvm_spec E st4 d t4 w1 newsz oldsz Hs4); lia|].
      intros r st5 [_ Hum]. wpe_step. assert (p ∉ dom w1) as Hpw by (unfold space_pages in Hps; set_solver).
      apply wpe_kfree; [apply Hum| |].
      { apply elem_of_dom. rewrite (um_mem _ _ _ _ _ _ _ Hum), decide_False by (done || tauto). apply elem_of_dom.
        rewrite (grows_dom _ _ _ _ _ Hgr), Hm3. set_solver. }
      intros st6 Hg6 Hm6. wpe_steps. right. split; [done|]. exists t4.
      apply (roll_back (pages_up oldsz) v newsz st d t w st1 t1 w1 st3 st4 t4 st5 st6 {[p]}); try done.
      * set_solver.
      * rewrite Hm3, dom_insert_L. set_solver.
      * intros q Hq. rewrite Hm3, lookup_insert_ne; [done|]. set_solver.
      * set_solver.
      * intros vpn Hvpn. by rewrite Hv4, Hv3.
      * intros q. rewrite Hm6. case_decide as Hq; [apply elem_of_singleton in Hq as ->; by rewrite lookup_delete_eq|].
        rewrite lookup_delete_ne; [done|]. set_solver.
Qed.
Lemma allocuvm_spec E st d t w pid oldsz newsz : allows E → pid ≠ -1 → space st d t w → 0 <= oldsz <= newsz → newsz < KERNBASE →
  (∀ x, pages_up oldsz <= x → 4096 * x < newsz → vlookup (mem st) d x = None) →
  wpe E (allocuvm pid d oldsz newsz) (λ r st',
    r = newsz ∧ (∃ t' w', grown (pages_up oldsz) (pages_up newsz) st d t w st' t' w') ∨
    r = 0 ∧ ∃ t', grows d st t st' t' ∧ space st' d t' w ∧ ∀ vpn, 0 <= vpn < 2 ^ 20 → vlookup (mem st') d vpn = vlookup (mem st) d vpn) st.
Proof.
  intros HE Hpid Hs Hsz Hnew Hun. unfold allocuvm. rewrite (proj2 (Z.leb_gt _ _)), (proj2 (Z.ltb_ge _ _)), PGROUNDUP_pages by lia.
  assert (pages_up oldsz <= pages_up newsz) as Hle by (unfold pages_up; apply Z.div_le_mono; lia).
  apply (alloc_loop_spec E _ st d t w (pages_up oldsz) _ _ _ _ _ t w); try done; [by apply grown_refl|].
  unfold PGSIZE. rewrite Nat2Z.inj_succ. unfold pages_up in *.
  destruct (decide (newsz - 4096 * ((oldsz + 4095) / 4096) + 4096 - 1 < 0)); [Z.div_mod_to_equations; lia|].
  rewrite Z2Nat.id by (Z.div_mod_to_equations; lia). Z.div_mod_to_equations. lia.
Qed.

(** ** Copying *)
(** In [st1] the address space [d], all of whose pages are new since [st], has copies of the user pages of [d0]
    below [v], with their flags, and the kernel's mappings. *)
Record copied (data v : Z) st (d0 : Z) st1 (d : Z) (t w : gmap Z Z) : Prop := {
  cp_space : space st1 d t w;
  cp_adds : adds st (space_pages d t w) st1;
  cp_rest vpn : v <= vpn < 2 ^ 20 → vlookup (mem st1) d vpn = kpte data vpn;
  cp_copy vpn : 0 <= vpn < v → ∃ e p f, vlookup (mem st) d0 vpn = Some e ∧ mem st !! frame e = Some f ∧
    vlookup (mem st1) d vpn = Some (mkpte (V2P p) (PTE_FLAGS e)) ∧ mem st1 !! p = Some f;
}.
Lemma adds_grows st d t1 w1 st1 st2 p f st3 t3 : space st1 d t1 w1 → adds st (space_pages d t1 w1) st1 → p ∉ dom (mem st1) → mem st2 = <[p := f]> (mem st1) →
  grows d st2 t1 st3 t3 → p ∉ dom t3 → adds st (space_pages d t3 w1 ∪ {[p]}) st3.
Proof.
  intros Hs [A1 A2 A3 A4] Hp Hm2 Hgr Hpt. unfold space_pages in *.
  assert (dom (mem st) ⊆ dom (mem st1)) as Hsub1 by (rewrite A3; apply union_subseteq_l).
  assert (dom (mem st1) ⊆ dom (mem st2)) as Hsub2 by (rewrite Hm2, dom_insert_L; apply union_subseteq_r).
  assert (∀ q, q ∈ dom t3 → q ∉ dom (mem st)) as Hf.
  { intros q Hq Hqm. destruct (grows_fresh _ _ _ _ _ Hgr q Hq) as [Hq'|Hq']; [|by apply Hq', Hsub2, Hsub1].
    apply (A2 q); [|done]. apply elem_of_union_l, elem_of_union_r, Hq'. }
  pose proof (subseteq_dom _ _ (grows_sub _ _ _ _ _ Hgr)) as Hsub. constructor.
  - apply Hgr.
  - clear -A2 Hf Hp Hsub1. set_solver.
  - rewrite (grows_dom _ _ _ _ _ Hgr), Hm2, dom_insert_L, A3. clear -Hsub. set_solver.
  - intros q Hq. assert (q ≠ d) as Hqd by (intros ->; apply (A2 d); [apply elem_of_union_l, elem_of_union_l, elem_of_singleton_2; done|done]).
    rewrite (grows_other _ _ _ _ _ Hgr), Hm2 by (done || intros Hqt; by apply (Hf q)). rewrite lookup_insert_ne; [by apply A4|].
    intros ->. by apply Hp, Hsub1.
Qed.
Lemma adds_remove st st1 st2 (new : gset Z) p : adds st (new ∪ {[p]}) st1 → p ∉ new → good st2 → mem st2 = delete p (mem st1) → adds st new st2.
Proof.
  intros [A1 A2 A3 A4] Hp Hg Hm. constructor; [done|set_solver| |].
  - rewrite Hm, dom_delete_L, A3. set_solver.
  - intros q Hq. rewrite Hm, lookup_delete_ne; [by apply A4|]. set_solver.
Qed.
(** Another address space does not notice. *)
Lemma adds_space st st1 new d t w : adds st new st1 → space st d t w → space st1 d t w ∧ ∀ vpn, 0 <= vpn < 2 ^ 20 → vlookup (mem st1) d vpn = vlookup (mem st) d vpn.
Proof.
  intros [A1 A2 A3 A4] Hs. apply space_other; [done|done|]. pose proof Hs as [Hg Ht Hw]. intros q Hq. apply A4. unfold space_pages in Hq.
  apply elem_of_union in Hq as [[->%elem_of_singleton|Hq]%elem_of_union|Hq].
  - apply Ht.
  - by apply (tree_tabs_dom _ _ _ Ht).
  - apply elem_of_dom in Hq as [x Hx]. by apply (fr_in _ _ _ _ Hw q x).
Qed.
Lemma copied_snoc data v st d0 st1 d t1 w1 st2 p f e st3 t3 : copied data v st d0 st1 d t1 w1 → 0 <= v < 2 ^ 19 → p ∉ dom (mem st1) → mem st2 = <[p := f]> (mem st1) →
  vlookup (mem st) d0 v = Some e → mem st !! frame e = Some f →
  grows d st2 t1 st3 t3 → p ∉ dom t3 → space st3 d t3 (<[p := v]> w1) →
  (∀ vpn, 0 <= vpn < 2 ^ 20 → vlookup (mem st3) d vpn = if decide (vpn = v) then Some (mkpte (V2P p) (PTE_FLAGS e)) else vlookup (mem st1) d vpn) →
  copied data (v + 1) st d0 st3 d t3 (<[p := v]> w1).
Proof.
  intros [C1 C2 C3 C4] Hv Hp Hm2 He Hf Hgr Hpt Hs3 Hv3. pose proof C1 as [Hg1 Ht1 Hw1]. constructor.
  - done.
  - replace (space_pages d t3 (<[p:=v]> w1)) with (space_pages d t3 w1 ∪ {[p]}) by (unfold space_pages; rewrite dom_insert_L; set_solver).
    by apply (adds_grows st d t1 w1 st1 st2 p f).
  - intros vpn Hvpn. rewrite Hv3, decide_False by lia. apply C3. lia.
  - intros vpn Hvpn. rewrite Hv3 by lia. case_decide as Hd.
    + subst vpn. exists e, p, f. split; [done|]. split; [done|]. split; [done|].
      rewrite (grows_other _ _ _ _ _ Hgr), Hm2; [by rewrite lookup_insert_eq| |done]. intros ->. by apply Hp, Ht1.
    + destruct (C4 vpn ltac:(lia)) as (e' & q & f' & E1 & E2 & E3 & E4). exists e', q, f'. split; [done|]. split; [done|]. split; [done|].
      assert (w1 !! q = Some vpn) as Hwq.
      { replace q with (frame (mkpte (V2P q) (PTE_FLAGS e'))); [apply (fr_out _ _ _ _ Hw1); [lia|done]|].
        apply frame_mkpte; [by eapply good_page, elem_of_dom_2|]. rewrite PTE_FLAGS_mod. by apply Z.mod_pos_bound. }
      destruct (fr_in _ _ _ _ Hw1 q vpn Hwq) as (F1 & F2 & F3 & _).
      rewrite (grows_other _ _ _ _ _ Hgr), Hm2; [rewrite lookup_insert_ne; [done|by intros ->]|done|].
      intros Hq. destruct (grows_fresh _ _ _ _ _ Hgr q Hq) as [Hq'|Hq']; [by apply elem_of_dom in Hq' as [? ?]; congruence|].
      apply Hq'. rewrite Hm2, dom_insert. by apply elem_of_union_r.
Qed.
Lemma copy_loop_spec E fuel data st d0 t0 w0 st1 d t w v sz pid : allows E → pid ≠ -1 → data_ok data → space st d0 t0 w0 → 0 <= v <= pages_up sz → 0 <= sz <= KERNBASE →
  (∀ vpn, 0 <= vpn < pages_up sz → is_Some (vlookup (mem st) d0 vpn)) → copied data v st d0 st1 d t w → pages_up sz - v < Z.of_nat fuel →
  wpe E (copy_loop fuel d0 d (4096 * v) sz pid) (λ r st', if r then ∃ t w, copied data (pages_up sz) st d0 st' d t w
    else ∃ t w, space st' d t w ∧ adds st (space_pages d t w) st') st1.
Proof.
  intros HE Hpid Hdata Hs Hv Hsz Hmap. revert v st1 t w Hv. induction fuel as [|fuel IH]; intros v st1 t w Hv Hc Hfuel; [lia|].
  cbn [copy_loop]. destruct (Z.ltb_spec (4096 * v) sz) as [Hlt|Hge].
  2: { wpe_step. exists t, w. replace (pages_up sz) with v; [done|]. unfold pages_up in *. Z.div_mod_to_equations. lia. }
  assert (v < pages_up sz ∧ v < 2 ^ 19) as [Hvu Hv19] by (unfold pages_up, KERNBASE in *; split; Z.div_mod_to_equations; lia).
  destruct (va_slots v) as [Hs1 Hs2]. destruct (adds_space _ _ _ _ _ _ (cp_adds _ _ _ _ _ _ _ _ Hc) Hs) as [Hsp Hvl].
  pose proof Hsp as [Hg1 Ht1 Hw1]. destruct (Hmap v ltac:(lia)) as [e He]. pose proof He as He1. rewrite <- Hvl in He1 by lia.
  wpe_step. apply walk_spec with t0; [done|done|lia| |].
  2: { intros Hpr. rewrite Hs1 in Hpr. unfold vlookup in He1. by rewrite Hpr in He1. }
  intros p Htp _ _. rewrite Hs1 in *. rewrite Hs2. destruct (tree_tab _ _ _ Ht1 p _ Htp) as (Hpm & _).
  pose proof (good_page _ _ Hg1 Hpm) as Hup. apply elem_of_dom in Hpm as [f Hf]. assert (0 <= v mod 1024 < 1024) as Hj by (apply Z.mod_pos_bound; lia).
  destruct (slot_addr p (v mod 1024) Hup Hj) as (_ & _ & Hnz). rewrite (proj2 (Z.eqb_neq _ 0)) by done.
  pose proof (vlookup_slot _ _ _ _ _ _ Ht1 Htp Hj) as Hvs. rewrite <- vpn_split, He1 in Hvs. unfold wd in Hvs. rewrite Hf in Hvs.
  wpe_steps. apply wpe_load with f; [done..|]. destruct (present (word f (v mod 1024))) eqn:Hpf; [|done]. injection Hvs as <-. wpe_steps. cbn [negb]. cbv zeta.
  pose proof (fr_out _ _ _ _ (space_frames _ _ _ _ Hs) v e ltac:(lia) He) as Hwe. destruct (fr_in _ _ _ _ (space_frames _ _ _ _ Hs) _ _ Hwe) as (Hed & _).
  pose proof Hed as [g Hgm]%elem_of_dom. assert (mem st1 !! frame e = Some g) as Hgm1 by (by rewrite (adds_old _ _ _ (cp_adds _ _ _ _ _ _ _ _ Hc))).
  wpe_step. apply wpe_kalloc; [done|done|done|intros st2 Hg2 Hm2; cbn; wpe_steps|].
  { destruct (space_other st1 d t w st2 (cp_space _ _ _ _ _ _ _ _ Hc) Hg2) as [Hs2' _]; [intros; by rewrite Hm2|].
    exists t, w. split; [done|]. destruct (cp_adds _ _ _ _ _ _ _ _ Hc) as [A1 A2 A3 A4]. constructor; rewrite ?Hm2; done. }
  intros q fq st2 Hq Hqm Hg2 Hm2. assert (q ≠ 0) as Hq0 by (destruct Hq as [? _]; unfold KERNBASE in *; lia).
  rewrite (proj2 (Z.eqb_neq q 0)) by done. wpe_step. unfold memmove_page. wpe_step. change (P2V (PTE_ADDR e)) with (frame e).
  assert (q ≠ frame e) as Hqe by (intros ->; by apply Hqm, elem_of_dom_2 with g).
  apply wpe_get_page with g; [by rewrite Hm2, lookup_insert_ne|]. apply wpe_put_page with fq; [by rewrite Hm2, lookup_insert_eq|].
  set (st3 := set_mem _ _). assert (mem st3 = <[q := g]> (mem st1)) as Hm3 by (subst st3; simpl; by rewrite Hm2, insert_insert_eq).
  assert (good st3) as Hg3 by (unfold good in *; subst st3; simpl; rewrite Hm2, insert_insert_eq in *; rewrite dom_insert_L in *; done).
  clearbody st3. destruct (space_new_page st1 d t w st3 q _ (cp_space _ _ _ _ _ _ _ _ Hc) Hg3 Hqm Hm3) as (Hs3 & Hps & Hv3).
  assert (0 <= PTE_FLAGS e < 4096) as Hfl by (rewrite PTE_FLAGS_mod; by apply Z.mod_pos_bound).
  wpe_step. eapply wpe_mono.
  { apply (map_user_page E st3 d t w v q (PTE_FLAGS e)); [done|done|rewrite Hm3; set_solver|done|lia| |done].
    rewrite Hv3, (cp_rest _ _ _ _ _ _ _ _ Hc) by lia. apply kpte_user; [done|lia]. }
  intros r st4 (t4 & Hgr & Hqt & [(-> & Hs4 & Hv4)|(-> & Hs4 & Hv4)]); cbn [Z.ltb Z.compare].
  - unfold PGSIZE. rewrite u32_small by lia. replace (4096 * v + 4096) with (4096 * (v + 1)) by lia.
    apply (IH _ _ t4 (<[q := v]> w)); [lia| |lia].
    apply (copied_snoc data v st d0 st1 d t w st3 q g e st4 t4); try done; [lia|]. intros vpn Hvpn. rewrite Hv4 by done. case_decide; [done|by apply Hv3].
  - pose proof (adds_grows st d t w st1 st3 q g st4 t4 (cp_space _ _ _ _ _ _ _ _ Hc) (cp_adds _ _ _ _ _ _ _ _ Hc) Hqm Hm3 Hgr Hqt) as Ha.
    assert (q ∉ space_pages d t4 w) as Hqs by (unfold space_pages in *; clear -Hps Hqt; set_solver).
    wpe_step. apply wpe_kfree; [apply Hs4|rewrite (adds_dom _ _ _ Ha); set_solver|]. intros st5 Hg5 Hm5. wpe_steps. exists t4, w. split.
    + eapply space_other; [exact Hs4|done|]. intros x Hx. rewrite Hm5, lookup_delete_ne; [done|]. by intros ->.
    + by apply (adds_remove st st4 st5 _ q).
Qed.
Lemma copyuvm_spec E data st d0 t0 w0 sz pid : allows E → pid ≠ -1 → data_ok data → space st d0 t0 w0 → 0 <= sz <= KERNBASE →
  (∀ vpn, 0 <= vpn < pages_up sz → is_Some (vlookup (mem st) d0 vpn)) →
  wpe E (copyuvm data d0 sz pid) (λ r st', r = 0 ∧ good st' ∧ mem st' = mem st ∨
    ∃ t w, r ≠ 0 ∧ copied data (pages_up sz) st d0 st' r t w) st.
Proof.
  intros HE Hpid Hdata Hs Hsz Hmap. unfold copyuvm. wpe_step. eapply wpe_mono; [by apply setupkvm_spec; [..|apply Hs]|].
  intros d st1 [(-> & Hg1 & Hm1)|(t & Hd0 & Hs1 & Ha1 & Hv1)]; [cbn; wpe_steps; by left|]. rewrite (proj2 (Z.eqb_neq d 0)) by done.
  assert (0 <= pages_up sz <= 2 ^ 19) as Hup by (unfold pages_up, KERNBASE in *; Z.div_mod_to_equations; lia).
  wpe_step. change 0 with (4096 * 0) at 1. eapply wpe_mono.
  { apply (copy_loop_spec E _ data st d0 t0 w0 st1 d t ∅ 0 sz pid); try done; [lia| |].
    - constructor; [done| |intros vpn Hvpn; apply Hv1; lia|lia]. unfold space_pages. by rewrite dom_empty_L, union_empty_r_L.
    - unfold PGSIZE, pages_up. rewrite Nat2Z.inj_succ, Z2Nat.id by (Z.div_mod_to_equations; lia). Z.div_mod_to_equations. lia. }
  intros [] st2; cbn iota; [intros (t2 & w2 & Hc); wpe_steps; right; by exists t2, w2|].
  intros (t2 & w2 & Hs2 & [A1 A2 A3 A4]). wpe_step. eapply wpe_mono; [by apply (freevm_spec E _ _ t2 w2)|].
  intros [] st3 (Hg3 & Hm3). wpe_steps. left. split; [done|]. split; [done|]. apply map_eq. intros q. rewrite Hm3. case_decide as Hq.
  - symmetry. apply not_elem_of_dom. intros Hqm. by apply (A2 q).
  - destruct (decide (q ∈ dom (mem st))) as [Hqm|Hqm]; [by apply A4|]. rewrite (proj1 (not_elem_of_dom (mem st) q) Hqm). apply not_elem_of_dom. rewrite A3.
    intros [?|?]%elem_of_union; done.
Qed.
End ops.
