(* ===== verification/UserMem.v ===== *)
(** * The bytes of user memory: copyout, inituvm, clearpteu *)

From S2P Require Import Prelude KMem KallocV2 PageAlloc Vm VmTree VmSpec VmOps AddressSpace.

(** ** Bytes of a page *)
Lemma page_byte_bits f o n : 0 <= n → Z.testbit (page_byte f o) n = (Z.testbit (word f (o / 4)) (n + 8 * (o mod 4)) && (n <? 8)).
Proof.
  intros Hn. unfold page_byte. change 0xFF with (Z.ones 8). by rewrite Z.land_spec, Z.shiftr_spec, Z.testbit_ones_nonneg by lia.
Qed.
Lemma page_byte_set f o b o' : page_byte (set_page_byte o b f) o' = if decide (o' = o) then u8 b else page_byte f o'.
Proof.
  apply Z.bits_inj'. intros n Hn. unfold set_page_byte. rewrite page_byte_bits, word_insert by done.
  assert (∀ x k, Z.testbit (u8 x) k = Z.testbit x k && (0 <=? k) && (k <? 8)) as Hu.
  { intros x k. unfold u8. destruct (Z.leb_spec 0 k); [|rewrite Z.testbit_neg_r by lia; by destruct (Z.testbit x k)].
    destruct (Z.ltb_spec k 8); [by rewrite Z.mod_pow2_bits_low, !andb_true_r by lia|]. by rewrite Z.mod_pow2_bits_high, andb_false_r by lia. }
  destruct (decide (o / 4 = o' / 4)) as [Heq|Hne].
  - rewrite Z.lor_spec, Z.ldiff_spec, !Z.shiftl_spec by (Z.div_mod_to_equations; lia). rewrite Hu. change 0xFF with (Z.ones 8). rewrite Z.testbit_ones by lia.
    case_decide as Ho.
    + subst o'. rewrite Hu. replace (n + 8 * (o mod 4) - 8 * (o mod 4)) with n by lia. rewrite (proj2 (Z.leb_le 0 n)) by lia.
      destruct (n <? 8); cbn; rewrite ?andb_false_r, ?andb_true_r; done.
    + rewrite page_byte_bits, <- Heq by done. destruct (Z.ltb_spec n 8); [|by rewrite !andb_false_r].
      assert ((0 <=? n + 8 * (o' mod 4) - 8 * (o mod 4)) && (n + 8 * (o' mod 4) - 8 * (o mod 4) <? 8) = false) as ->.
      { apply andb_false_iff. rewrite Z.leb_gt, Z.ltb_ge. Z.div_mod_to_equations. lia. }
      rewrite <- andb_assoc, <- (andb_comm (n + _ - _ <? 8)). rewrite (andb_comm (n + _ - _ <? 8)).
      assert ((0 <=? n + 8 * (o' mod 4) - 8 * (o mod 4)) && (n + 8 * (o' mod 4) - 8 * (o mod 4) <? 8) = false) as ->.
      { apply andb_false_iff. rewrite Z.leb_gt, Z.ltb_ge. Z.div_mod_to_equations. lia. }
      cbn. by rewrite andb_false_r, orb_false_r, !andb_true_r.
  - rewrite decide_False by (intros ->; done). by rewrite page_byte_bits by done.
Qed.
Lemma page_byte_sets bs o f o' : page_byte (set_page_bytes o bs f) o' =
  if decide (o <= o' < o + Z.of_nat (length bs)) then u8 (bs !!! Z.to_nat (o' - o)) else page_byte f o'.
Proof.
  revert o f. induction bs as [|b bs IH]; intros o f; cbn [set_page_bytes length]; [by rewrite decide_False by lia|].
  rewrite IH, page_byte_set. destruct (decide (o' = o)) as [->|Hne].
  - rewrite decide_False, decide_True by lia. by rewrite Z.sub_diag.
  - repeat case_decide; try lia. replace (Z.to_nat (o' - o)) with (S (Z.to_nat (o' - (o + 1)))) by lia. done.
Qed.

Section ops.
Context {K : Type} `{PageAllocatorLaws K}.
Implicit Types (st : vst K).

(** The byte that a user address shows, if it is mapped. *)
Definition ubyte (m : gmap Z page) (d va : Z) : option Z :=
  e ← vlookup m d (va / 4096); f ← m !! frame e; Some (page_byte f (va mod 4096)).
(** The page is mapped for the user. *)
Definition user_page (m : gmap Z page) (d vpn : Z) : bool :=
  match vlookup m d vpn with Some e => negb (Z.land e PTE_U =? 0) | None => false end.
Lemma wpe_memmove_bytes E p o bs f (Q : () → vst K → Prop) st : upage p → 0 <= o < 4096 → mem st !! p = Some f →
  Q () (set_mem (<[p := set_page_bytes o bs f]> (mem st)) st) → wpe E (memmove_bytes (p + o) bs) Q st.
Proof.
  intros (H1 & H2 & _)%upage_bounds Ho Hf HQ. unfold memmove_bytes, page_of, PGSIZE.
  assert ((p + o) mod 4096 = o) as -> by (Z.div_mod_to_equations; lia). replace (p + o - o) with p by lia. wpe_step.
  apply wpe_get_page with f; [done|]. by apply wpe_put_page with f.
Qed.
(** Writing to a user page. *)
Lemma write_user_page st d t w p v f g : space st d t w → w !! p = Some v → mem st !! p = Some f →
  let st' := set_mem (<[p := g]> (mem st)) st in
  space st' d t w ∧ (∀ vpn, 0 <= vpn < 2 ^ 20 → vlookup (mem st') d vpn = vlookup (mem st) d vpn) ∧
  ∀ a, 0 <= a < KERNBASE → ubyte (mem st') d a = if decide (a / 4096 = v) then Some (page_byte g (a mod 4096)) else ubyte (mem st) d a.
Proof.
  intros Hs Hp Hf st'. pose proof Hs as [Hg Ht Hw]. destruct (fr_in _ _ _ _ Hw p v Hp) as (F1 & F2 & F3 & F4 & e & F5 & F6).
  assert (dom (mem st') = dom (mem st)) as Hdom.
  { subst st'. simpl. rewrite dom_insert_L. rewrite (subseteq_union_1_L {[p]}); [done|]. by apply singleton_subseteq_l. }
  assert (good st') as Hg' by (unfold good; rewrite Hdom; apply Hg).
  assert (mem st' !! d = mem st !! d) as Hd by (subst st'; simpl; by rewrite lookup_insert_ne).
  assert (∀ q, q ∈ dom t → mem st' !! q = mem st !! q) as Htm.
  { intros q [i Hi]%elem_of_dom. subst st'. simpl. rewrite lookup_insert_ne; [done|]. by intros ->; congruence. }
  pose proof (vlookup_same _ _ _ _ Ht Hd Htm) as Hv. split; [|split; [done|]].
  - constructor; [done|by eapply tree_same|]. constructor.
    + intros q x Hq. destruct (fr_in _ _ _ _ Hw q x Hq) as (G1 & G2 & G3 & G4 & e' & G5 & G6). rewrite Hdom.
      split; [done|]. split; [done|]. split; [done|]. split; [done|]. exists e'. by rewrite Hv by lia.
    + intros x e' Hx. rewrite Hv by lia. by apply Hw.
  - intros a Ha. unfold ubyte. rewrite Hv by (unfold KERNBASE in *; Z.div_mod_to_equations; lia). case_decide as Hav.
    + rewrite Hav, F5. cbn. rewrite F6. subst st'. simpl. by rewrite lookup_insert_eq.
    + destruct (vlookup (mem st) d (a / 4096)) as [e'|] eqn:He; [|done]. cbn. subst st'. simpl. rewrite lookup_insert_ne; [done|].
      intros Hpe. apply Hav. assert (w !! frame e' = Some (a / 4096)) as Hwe by (apply (fr_out _ _ _ _ Hw); [unfold KERNBASE in *; Z.div_mod_to_equations; lia|done]).
      rewrite <- Hpe, Hp in Hwe. congruence.
Qed.
Lemma uva2ka_spec E st d t w va (Q : Z → vst K → Prop) : space st d t w → 0 <= va < KERNBASE → va mod 4096 = 0 → is_Some (vlookup (mem st) d (va / 4096)) →
  (user_page (mem st) d (va / 4096) = true → ∀ p, w !! p = Some (va / 4096) → Q p st) → (user_page (mem st) d (va / 4096) = false → Q 0 st) → wpe E (uva2ka d va) Q st.
Proof.
  intros [Hg Ht Hw] Hva Hal [e He] HQ HQ0. unfold user_page in HQ, HQ0. rewrite He in HQ, HQ0.
  assert (va = 4096 * (va / 4096)) as Hva4 by (Z.div_mod_to_equations; lia). set (v := va / 4096) in *.
  assert (0 <= v < 2 ^ 19) as Hv by (unfold KERNBASE in *; lia). destruct (va_slots v) as [Hs1 Hs2]. rewrite Hva4.
  unfold uva2ka. wpe_step. apply walk_spec with t; [done|done|lia| |].
  2: { intros Hpr. rewrite Hs1 in Hpr. unfold vlookup in He. by rewrite Hpr in He. }
  intros p Htp _ _. rewrite Hs1 in *. rewrite Hs2. destruct (tree_tab _ _ _ Ht p _ Htp) as (Hpm & _).
  pose proof (good_page _ _ Hg Hpm) as Hup. apply elem_of_dom in Hpm as [f Hf]. assert (0 <= v mod 1024 < 1024) as Hj by (apply Z.mod_pos_bound; lia).
  pose proof (vlookup_slot _ _ _ _ _ _ Ht Htp Hj) as Hvs. rewrite <- vpn_split, He in Hvs. unfold wd in Hvs. rewrite Hf in Hvs.
  wpe_step. apply wpe_load with f; [done..|]. destruct (present (word f (v mod 1024))) eqn:Hpf; [|done]. injection Hvs as Hvs. rewrite <- Hvs in *.
  unfold present in Hpf. apply negb_true_iff in Hpf. cbn beta. rewrite Hpf. destruct (Z.land e PTE_U =? 0); wpe_steps; [by apply HQ0|].
  apply HQ; [done|]. by apply (fr_out _ _ _ _ Hw v e).
Qed.
(** Where all pages are mapped, though some of them may not be the user's. *)
Lemma copyout_loop_any E fuel d t w va buf len st : space st d t w → 0 <= va → va + len <= KERNBASE → 0 <= len <= Z.of_nat (length buf) →
  (∀ vpn, va / 4096 <= vpn → 4096 * vpn < va + len → is_Some (vlookup (mem st) d vpn)) → (0 < fuel)%nat → va + len <= 4096 * (va / 4096 + Z.of_nat fuel - 1) →
  wpe E (copyout_loop fuel d va buf len) (λ r st', space st' d t w ∧
    (∀ p, p ∉ dom w → mem st' !! p = mem st !! p) ∧
    (∀ vpn, 0 <= vpn < 2 ^ 20 → vlookup (mem st') d vpn = vlookup (mem st) d vpn) ∧
    (r = -1 ∧ (∃ vpn, va / 4096 <= vpn ∧ 4096 * vpn < va + len ∧ user_page (mem st) d vpn = false) ∨
     r = 0 ∧ (0 < len → ∀ vpn, va / 4096 <= vpn → 4096 * vpn < va + len → user_page (mem st) d vpn = true) ∧ ∀ a, 0 <= a < KERNBASE → ubyte (mem st') d a = if decide (va <= a < va + len) then Some (u8 (buf !!! Z.to_nat (a - va))) else ubyte (mem st) d a)) st.
Proof.
  revert va buf len st. induction fuel as [|fuel IH]; intros va buf len st Hs Hva Hend Hlen Hu Hfu Hfuel; [lia|]. cbn [copyout_loop].
  destruct (Z.ltb_spec 0 len) as [Hl|Hl].
  2: { wpe_step. split; [done|]. split; [done|]. split; [done|]. right. split; [done|]. split; [lia|]. intros a Ha. by rewrite decide_False by lia. }
  rewrite PGROUNDDOWN_mod by (unfold KERNBASE in *; lia). set (v := va / 4096) in *.
  assert (va - va mod 4096 = 4096 * v) as -> by (unfold v; Z.div_mod_to_equations; lia). set (o := va - 4096 * v).
  assert (0 <= o < 4096) as Ho by (unfold o, v; Z.div_mod_to_equations; lia).
  assert (4096 * v / 4096 = v) as Hv4 by (Z.div_mod_to_equations; lia). assert (0 <= v < 2 ^ 19) as Hv by (unfold KERNBASE, o in *; lia).
  wpe_step. apply (uva2ka_spec E st d t w); [done|unfold KERNBASE in *; lia|Z.div_mod_to_equations; lia|rewrite Hv4; apply Hu; unfold o in *; lia| |].
  2: { rewrite Hv4. intros Hno. cbn beta. rewrite Z.eqb_refl. wpe_step. split; [done|]. split; [done|]. split; [done|]. left. split; [done|]. exists v. split; [lia|]. split; [unfold o in *; lia|done]. }
  rewrite Hv4. intros Huv p Hp. pose proof Hs as [Hg Ht Hw]. destruct (fr_in _ _ _ _ Hw p v Hp) as (Hpm & Hpd & Hpt & _ & e & He & Hpe).
  pose proof (good_page _ _ Hg Hpm) as Hup. rewrite (proj2 (Z.eqb_neq p 0)) by (destruct Hup as [? _]; unfold KERNBASE in *; lia).
  apply elem_of_dom in Hpm as [f Hf]. unfold PGSIZE. set (n := if len <? 4096 - o then len else 4096 - o).
  assert (0 < n ∧ n <= len ∧ o + n <= 4096 ∧ (n = len ∨ o + n = 4096)) as (Hn0 & Hnl & Hno & Hnn) by (unfold n; destruct (Z.ltb_spec len (4096 - o)); lia).
  clearbody n. cbv zeta. wpe_step. apply wpe_memmove_bytes with f; [done|done|done|].
  destruct (write_user_page st d t w p v f (set_page_bytes o (take (Z.to_nat n) buf) f) Hs Hp Hf) as (Hs1 & Hv1 & Hb1).
  set (st1 := set_mem _ st) in *.
  assert (∀ a, 0 <= a < KERNBASE → ubyte (mem st1) d a = if decide (va <= a < va + n) then Some (u8 (buf !!! Z.to_nat (a - va))) else ubyte (mem st) d a) as Hb.
  { intros a Ha. rewrite Hb1 by done. destruct (decide (a / 4096 = v)) as [Hav|Hav].
    - rewrite page_byte_sets, length_take. destruct (decide (va <= a < va + n)) as [Hr|Hr].
      + rewrite decide_True by (unfold o; Z.div_mod_to_equations; lia). replace (a mod 4096 - o) with (a - va) by (unfold o; Z.div_mod_to_equations; lia).
        rewrite lookup_total_take_lt by lia. done.
      + rewrite decide_False by (unfold o; Z.div_mod_to_equations; lia). unfold ubyte. rewrite Hav, He. cbn. by rewrite Hpe, Hf.
    - rewrite decide_False; [done|]. unfold o in *. Z.div_mod_to_equations. lia. }
  assert (∀ q, q ∉ dom w → mem st1 !! q = mem st !! q) as Hm1.
  { intros q Hq. subst st1. simpl. rewrite lookup_insert_ne; [done|]. intros ->. apply Hq. by eapply elem_of_dom_2. }
  clearbody st1. rewrite u32_small by (unfold KERNBASE in *; lia). replace (4096 * v + 4096) with (4096 * (v + 1)) by lia.
  assert (4096 * (v + 1) / 4096 = v + 1) as Hv5 by (Z.div_mod_to_equations; lia).
  destruct (decide (n = len)) as [->|Hne].
  - rewrite Z.sub_diag. destruct fuel as [|fuel]; [unfold o in *; lia|]. cbn [copyout_loop]. change (0 <? 0) with false. cbn iota. wpe_step. split; [done|]. split; [done|]. split; [done|]. right. split; [done|]. split; [|done].
    intros _ vpn H1 H2. assert (vpn = v) as -> by (unfold o in *; lia). done.
  - assert (o + n = 4096) as Hon by lia. eapply wpe_mono.
    { apply (IH (4096 * (v + 1)) (drop (Z.to_nat n) buf) (len - n) st1 Hs1); [lia|unfold o in *; lia|rewrite length_drop; lia| |lia|rewrite Hv5; unfold o in *; lia].
      rewrite Hv5. intros vpn Hvp Hvpe. rewrite Hv1 by (unfold KERNBASE, o in *; lia). apply Hu; unfold o in *; lia. }
    assert (∀ vpn, 0 <= vpn < 2 ^ 20 → user_page (mem st1) d vpn = user_page (mem st) d vpn) as Hup1 by (intros vpn Hvpn; unfold user_page; by rewrite Hv1).
    rewrite Hv5. intros r st2 (Hs2 & Hm2 & Hv2 & Hres). split; [done|]. split; [intros q Hq; by rewrite Hm2, Hm1|].
    split; [intros vpn Hvpn; by rewrite Hv2, Hv1|]. destruct Hres as [(-> & vpn & H1 & H2 & H3)|(-> & Hall & Hb2)]; [left|right]; (split; [done|]).
    + exists vpn. split; [lia|]. split; [unfold o in *; lia|]. rewrite <- Hup1; [done|]. unfold KERNBASE, o in *. lia.
    + split.
      { intros _ vpn H1 H2. destruct (decide (vpn = v)) as [->|]; [done|]. rewrite <- Hup1 by (unfold KERNBASE, o in *; lia). apply Hall; [lia|lia|unfold o in *; lia]. }
      intros a Ha. rewrite Hb2, Hb by done. unfold o in *.
      repeat case_decide; try lia; [|done..]. do 2 f_equal. rewrite lookup_total_drop. f_equal. lia.
Qed.
Lemma copyout_any E d t w va buf len st : space st d t w → 0 <= va → va + len <= KERNBASE → 0 <= len <= Z.of_nat (length buf) →
  (∀ vpn, va / 4096 <= vpn → 4096 * vpn < va + len → is_Some (vlookup (mem st) d vpn)) →
  wpe E (copyout d va buf len) (λ r st', space st' d t w ∧
    (∀ p, p ∉ dom w → mem st' !! p = mem st !! p) ∧
    (∀ vpn, 0 <= vpn < 2 ^ 20 → vlookup (mem st') d vpn = vlookup (mem st) d vpn) ∧
    (r = -1 ∧ (∃ vpn, va / 4096 <= vpn ∧ 4096 * vpn < va + len ∧ user_page (mem st) d vpn = false) ∨
     r = 0 ∧ (0 < len → ∀ vpn, va / 4096 <= vpn → 4096 * vpn < va + len → user_page (mem st) d vpn = true) ∧
       ∀ a, 0 <= a < KERNBASE → ubyte (mem st') d a = if decide (va <= a < va + len) then Some (u8 (buf !!! Z.to_nat (a - va))) else ubyte (mem st) d a)) st.
Proof.
  intros Hs Hva Hend Hlen Hu. unfold copyout. apply copyout_loop_any; [done..|lia|].
  unfold PGSIZE. assert (0 <= len / 4096) as Hq by (apply Z.div_pos; lia). rewrite <- (Z2Nat.id (len / 4096)) in Hq by lia.
  rewrite !Nat2Z.inj_succ, Nat2Z.inj_add, !Nat2Z.inj_succ, Z2Nat.id by (apply Z.div_pos; lia). change (Z.of_nat 1) with 1. Z.div_mod_to_equations. lia.
Qed.
Lemma user_page_mapped m d vpn : user_page m d vpn = true → is_Some (vlookup m d vpn).
Proof. unfold user_page. by destruct (vlookup m d vpn). Qed.
Lemma copyout_spec E d t w va buf len st : space st d t w → 0 <= va → va + len <= KERNBASE → 0 <= len <= Z.of_nat (length buf) →
  (∀ vpn, va / 4096 <= vpn → 4096 * vpn < va + len → user_page (mem st) d vpn = true) →
  wpe E (copyout d va buf len) (λ r st', r = 0 ∧ space st' d t w ∧
    (∀ p, p ∉ dom w → mem st' !! p = mem st !! p) ∧
    (∀ vpn, 0 <= vpn < 2 ^ 20 → vlookup (mem st') d vpn = vlookup (mem st) d vpn) ∧
    ∀ a, 0 <= a < KERNBASE → ubyte (mem st') d a = if decide (va <= a < va + len) then Some (u8 (buf !!! Z.to_nat (a - va))) else ubyte (mem st) d a) st.
Proof.
  intros Hs Hva Hend Hlen Hu. eapply wpe_mono; [by apply (copyout_any E d t w); [done..|]; intros vpn H1 H2; apply user_page_mapped, Hu|].
  intros r st' (Hs' & Hm & Hv & [(_ & vpn & H1 & H2 & H3)|(-> & _ & Hb)]); [by rewrite Hu in H3|done].
Qed.

(** ** The bytes of an address space that has grown *)
Lemma word_mem_same st d t w st' a : space st d t w → 0 <= a / 4096 < 2 ^ 19 → vlookup (mem st') d (a / 4096) = vlookup (mem st) d (a / 4096) →
  (∀ p, p ∈ dom w → mem st' !! p = mem st !! p) → ubyte (mem st') d a = ubyte (mem st) d a.
Proof.
  intros [_ _ Hw] Ha Hv Hm. unfold ubyte. rewrite Hv. destruct (vlookup (mem st) d (a / 4096)) as [e|] eqn:He; [|done]. cbn.
  rewrite Hm; [done|]. by eapply elem_of_dom_2, (fr_out _ _ _ _ Hw).
Qed.
Lemma frames_old st d t w st' t' w' p : space st d t w → space st' d t' w' → w ⊆ w' → p ∈ dom w → p ≠ d ∧ p ∉ dom t' ∧ p ∈ dom (mem st).
Proof.
  intros Hs [_ _ Hw'] Hsub Hp. apply elem_of_dom in Hp as [v Hp]. destruct (fr_in _ _ _ _ (space_frames _ _ _ _ Hs) p v Hp) as (F1 & F2 & _). split; [done|]. split; [|done].
  destruct (fr_in _ _ _ _ Hw' p v) as (_ & _ & F & _); [by eapply lookup_weaken|]. by apply not_elem_of_dom.
Qed.
Lemma grows_bytes st d t w st' t' : space st d t w → grows d st t st' t' → space st' d t' w → (∀ vpn, 0 <= vpn < 2 ^ 20 → vlookup (mem st') d vpn = vlookup (mem st) d vpn) →
  ∀ a, 0 <= a < 4096 * 2 ^ 19 → ubyte (mem st') d a = ubyte (mem st) d a.
Proof.
  intros Hs Hgr Hs' Hv a Ha. apply (word_mem_same st d t w); [done|Z.div_mod_to_equations; lia|apply Hv; Z.div_mod_to_equations; lia|].
  intros p Hp. destruct (frames_old st d t w st' t' w p Hs Hs') as (H1 & H2 & H3); [done|done|]. by apply (grows_other _ _ _ _ _ Hgr).
Qed.
Lemma grown_bytes lo hi st d t w st' t' w' : space st d t w → 0 <= lo → grown lo hi st d t w st' t' w' →
  ∀ a, 0 <= a < 4096 * 2 ^ 19 → ubyte (mem st') d a = (if decide (4096 * lo <= a < 4096 * hi) then Some 0 else ubyte (mem st) d a) ∧
    (4096 * lo <= a < 4096 * hi → user_page (mem st') d (a / 4096) = true).
Proof.
  intros Hs Hlo Hgn a Ha. destruct (decide (4096 * lo <= a < 4096 * hi)) as [Hr|Hr].
  - destruct (gn_zero _ _ _ _ _ _ _ _ _ Hgn (a / 4096)) as (p & Hp & Hz); [Z.div_mod_to_equations; lia|].
    assert (upage p) as Hup by (by eapply good_page, elem_of_dom_2; [apply Hgn|]).
    unfold ubyte, user_page. rewrite Hp. cbn. rewrite frame_mkpte, Hz by done. cbn. split.
    + f_equal. unfold page_byte. rewrite word_empty, Z.shiftr_0_l. done.
    + intros _. rewrite mkpte_add by (done || by apply upage_bounds). apply upage_bounds in Hup as (_ & _ & _ & _ & Hm & _).
      change PTE_U with (Z.shiftl 1 2). rewrite land_bit by done. apply negb_true_iff, negb_false_iff.
      rewrite <- lor_add by done. rewrite Z.lor_spec. apply orb_true_r.
  - split; [|done]. apply (word_mem_same st d t w); [done|Z.div_mod_to_equations; lia|apply (gn_same _ _ _ _ _ _ _ _ _ Hgn); Z.div_mod_to_equations; lia|].
    intros p Hp. destruct (frames_old st d t w st' t' w' p Hs) as (H1 & H2 & H3); [apply Hgn|apply Hgn|done|].
    by apply (gn_old _ _ _ _ _ _ _ _ _ Hgn).
Qed.
(** ** Address spaces under construction: their pages are new since [st] *)
Definition held st d t w st' : Prop := adds st (space_pages d t w) st' ∧ space st' d t w.
Lemma held_grows st d t w st1 st2 t2 : held st d t w st1 → grows d st1 t st2 t2 → space st2 d t2 w → held st d t2 w st2.
Proof.
  intros [[A1 A2 A3 A4] Hs1] Hgr Hs2. split; [|done]. assert (dom (mem st) ⊆ dom (mem st1)) as Hsub by (rewrite A3; apply union_subseteq_l).
  pose proof (subseteq_dom _ _ (grows_sub _ _ _ _ _ Hgr)) as Htt. unfold space_pages in *.
  assert (∀ q, q ∈ dom t2 → q ∉ dom (mem st)) as Hf.
  { intros q Hq Hqm. destruct (grows_fresh _ _ _ _ _ Hgr q Hq) as [Hq'|Hq']; [|by apply Hq', Hsub]. apply (A2 q); [|done]. clear -Hq'. set_solver. }
  constructor; [apply Hs2| | |].
  - clear -A2 Hf. set_solver.
  - rewrite (grows_dom _ _ _ _ _ Hgr), A3. clear -Htt. set_solver.
  - intros q Hq. rewrite (grows_other _ _ _ _ _ Hgr); [by apply A4| |intros Hqt; by apply (Hf q)]. intros ->. apply (A2 d); [clear; set_solver|done].
Qed.
Lemma held_grown st d t w lo hi st1 st2 t2 w2 : held st d t w st1 → grown lo hi st1 d t w st2 t2 w2 → held st d t2 w2 st2.
Proof.
  intros [[A1 A2 A3 A4] Hs1] Hgn. split; [|apply Hgn]. assert (dom (mem st) ⊆ dom (mem st1)) as Hsub by (rewrite A3; apply union_subseteq_l).
  pose proof (subseteq_dom _ _ (gn_tabs _ _ _ _ _ _ _ _ _ Hgn)) as Htt. pose proof (subseteq_dom _ _ (gn_frames _ _ _ _ _ _ _ _ _ Hgn)) as Hww. unfold space_pages in *.
  assert (∀ q, q ∈ dom t2 ∪ dom w2 → q ∉ dom (mem st)) as Hf.
  { intros q Hq Hqm. destruct (gn_fresh _ _ _ _ _ _ _ _ _ Hgn q Hq) as [Hq'|Hq']; [|by apply Hq', Hsub]. apply (A2 q); [|done]. clear -Hq'. set_solver. }
  assert (d ∉ dom (mem st)) as Hd by (intros Hd; apply (A2 d); [clear; set_solver|done]).
  constructor; [apply Hgn| | |].
  - clear -A2 Hf Hd. set_solver.
  - rewrite (gn_dom _ _ _ _ _ _ _ _ _ Hgn), A3. clear -Htt Hww. set_solver.
  - intros q Hq. rewrite (gn_old _ _ _ _ _ _ _ _ _ Hgn); [by apply A4|by intros ->| |by apply Hsub]. intros Hqt. apply (Hf q); [clear -Hqt; set_solver|done].
Qed.
(** Writing to its user pages. *)
Lemma held_write st d t w st1 st2 : held st d t w st1 → space st2 d t w → dom (mem st2) = dom (mem st1) → (∀ p, p ∉ space_pages d t w → mem st2 !! p = mem st1 !! p) → held st d t w st2.
Proof.
  intros [[A1 A2 A3 A4] Hs1] Hs2 Hd Hm. split; [|done]. constructor; [apply Hs2|done|by rewrite Hd|]. intros q Hq. rewrite Hm; [by apply A4|]. intros Hqs. by apply (A2 q).
Qed.
Lemma held_freevm E st d t w st1 : held st d t w st1 → wpe E (freevm d) (λ _ st', good st' ∧ mem st' = mem st) st1.
Proof.
  intros [[A1 A2 A3 A4] Hs1]. eapply wpe_mono; [by apply (freevm_spec E _ _ t w)|].
  intros [] st3 (Hg3 & Hm3). split; [done|]. apply map_eq. intros q. rewrite Hm3. case_decide as Hq.
  - symmetry. apply not_elem_of_dom. intros Hqm. by apply (A2 q).
  - destruct (decide (q ∈ dom (mem st))) as [Hqm|Hqm]; [by apply A4|]. rewrite (proj1 (not_elem_of_dom (mem st) q) Hqm). apply not_elem_of_dom. rewrite A3.
    intros [?|?]%elem_of_union; done.
Qed.
End ops.
