(* ===== verification/UserSpace.v ===== *)
(** * The promises of virtual memory

    What a process sees: fork's copy of the memory, growing, writing with copyout, and that nothing is lost when
    an address space is torn down; over any allocator that keeps [PageAllocatorLaws], and over the
    Rowhammer-safe one. *)

From S2P Require Import Prelude KMem KallocV2 PageAlloc Vm VmTree VmSpec VmOps AddressSpace UserMem.

Section promises.
Context {K : Type} `{PageAllocatorLaws K}.
Implicit Types (st : vst K).

Lemma vlookup_present m d vpn e : vlookup m d vpn = Some e → present e = true.
Proof. unfold vlookup. destruct (present _); [|done]. destruct (present (wd m _ _)) eqn:E; [|done]. by intros [= <-]. Qed.
Lemma flags_present e : present e = true → Z.lor (PTE_FLAGS e) PTE_P = PTE_FLAGS e.
Proof.
  rewrite present_bit. intros He. apply Z.bits_inj'. intros n Hn. rewrite Z.lor_spec.
  destruct (decide (n = 0)) as [->|Hne].
  - unfold PTE_FLAGS. rewrite Z.land_spec, He. done.
  - change PTE_P with (2 ^ 0). rewrite Z.pow2_bits_false by lia. apply orb_false_r.
Qed.
(** A copied page shows the same bytes with the same flags. *)
Lemma copied_bytes data v st d0 st1 d t w a : copied data v st d0 st1 d t w → 0 <= a < 4096 * v →
  ubyte (mem st1) d a = ubyte (mem st) d0 a ∧ PTE_FLAGS <$> vlookup (mem st1) d (a / 4096) = PTE_FLAGS <$> vlookup (mem st) d0 (a / 4096).
Proof.
  intros [[Hg _ _] _ _ Hc] Ha. destruct (Hc (a / 4096)) as (e & p & f & E1 & E2 & E3 & E4); [Z.div_mod_to_equations; lia|].
  assert (upage p) as Hup by (by eapply good_page, elem_of_dom_2). assert (0 <= PTE_FLAGS e < 4096) as Hfl by (rewrite PTE_FLAGS_mod; by apply Z.mod_pos_bound).
  unfold ubyte. rewrite E1, E3. cbn. rewrite frame_mkpte by done. rewrite E2, E4. cbn. split; [done|].
  rewrite mkpte_flags by (done || by apply upage_bounds). by rewrite flags_present by (by eapply vlookup_present).
Qed.

(** C7: fork's copy of the memory.  copyuvm of an address space whose pages below [sz] are mapped returns a new
    address space, of pages that were not in use, that shows the same bytes with the same flags below [sz] and the
    kernel's mappings above; the parent's address space and every other page are as they were.  If memory runs out on
    the way it gives back all it took. *)
Theorem copyuvm_copies data st d0 t0 w0 sz pid : pid ≠ -1 → data_ok data → space st d0 t0 w0 → 0 <= sz <= KERNBASE →
  (∀ vpn, 0 <= vpn < pages_up sz → is_Some (vlookup (mem st) d0 vpn)) →
  wpe pa_starved (copyuvm data d0 sz pid) (λ d st',
    d = 0 ∧ good st' ∧ mem st' = mem st ∨
    d ≠ 0 ∧ ∃ t w, space st' d t w ∧ space st' d0 t0 w0 ∧ space_pages d t w ## dom (mem st) ∧
      (∀ p, p ∈ dom (mem st) → mem st' !! p = mem st !! p) ∧
      (∀ a, 0 <= a < 4096 * pages_up sz → ubyte (mem st') d a = ubyte (mem st) d0 a ∧
        PTE_FLAGS <$> vlookup (mem st') d (a / 4096) = PTE_FLAGS <$> vlookup (mem st) d0 (a / 4096)) ∧
      (∀ vpn, pages_up sz <= vpn < 2 ^ 20 → vlookup (mem st') d vpn = kpte data vpn)) st.
Proof.
  intros Hpid Hdata Hs Hsz Hmap. eapply wpe_mono; [apply (copyuvm_spec pa_starved data st d0 t0 w0 sz pid); [by intros ?|done..]|].
  intros d st' [?|(t & w & Hd & Hc)]; [by left|right]. split; [done|]. exists t, w. pose proof Hc as [C1 C2 C3 _].
  split; [done|]. split; [exact (proj1 (adds_space st st' _ d0 t0 w0 C2 Hs))|]. split; [apply C2|]. split; [apply C2|]. split; [|done].
  intros a Ha. by apply (copied_bytes data (pages_up sz) st d0 st' d t w).
Qed.
(** C8: growing.  allocuvm adds the pages from [oldsz] up to [newsz]: they show zeros, writable by the user; everything below
    keeps its bytes.  If memory runs out it returns 0 and every byte, old or new, is as it was, though
    page tables may have been added. *)
Theorem allocuvm_grows st d t w pid oldsz newsz : pid ≠ -1 → space st d t w → 0 <= oldsz <= newsz → newsz < KERNBASE →
  (∀ x, pages_up oldsz <= x → 4096 * x < newsz → vlookup (mem st) d x = None) →
  wpe pa_starved (allocuvm pid d oldsz newsz) (λ r st', ∃ t' w', space st' d t' w' ∧ w ⊆ w' ∧
    (r = newsz ∧ (∀ a, 0 <= a < 4096 * 2 ^ 19 → ubyte (mem st') d a =
        (if decide (4096 * pages_up oldsz <= a < 4096 * pages_up newsz) then Some 0 else ubyte (mem st) d a) ∧
        (4096 * pages_up oldsz <= a < 4096 * pages_up newsz → user_page (mem st') d (a / 4096) = true)) ∨
     r = 0 ∧ w' = w ∧ ∀ a, 0 <= a < 4096 * 2 ^ 19 → ubyte (mem st') d a = ubyte (mem st) d a)) st.
Proof.
  intros Hpid Hs Hsz Hnew Hun. assert (0 <= pages_up oldsz) as Hlo by (unfold pages_up; Z.div_mod_to_equations; lia).
  eapply wpe_mono; [apply (allocuvm_spec pa_starved st d t w); [by intros ?|done..]|]. intros r st' [(-> & t' & w' & Hgn)|(-> & t' & Hgr & Hs' & Hv)].
  - exists t', w'. split; [apply Hgn|]. split; [apply Hgn|]. left. split; [done|]. intros a Ha. by apply (grown_bytes _ _ _ _ _ _ _ _ _ Hs Hlo Hgn).
  - exists t', w. split; [done|]. split; [done|]. right. split; [done|]. split; [done|]. by apply (grows_bytes st d t w st' t').
Qed.

(** An address space that is built, grown and torn down again, as exec does when the program turns out bad. *)
Definition build_and_free (data pid n : Z) : M (vst K) () :=
  d ← setupkvm data;
  if d =? 0 then mret () else (allocuvm pid d 0 n ;; freevm d).
(** C9: nothing is lost.  However far setupkvm and allocuvm get before memory runs out, freevm leaves exactly the pages
    in use that there were before, with what they held. *)
Theorem address_space_no_leak data st pid n : pid ≠ -1 → data_ok data → good st → 0 <= n < KERNBASE →
  wpe pa_starved (build_and_free data pid n) (λ _ st', good st' ∧ mem st' = mem st) st.
Proof.
  intros Hpid Hdata Hg Hn. unfold build_and_free. wpe_step. eapply wpe_mono; [apply (setupkvm_spec pa_starved data st); [by intros ?|done..]|].
  intros d st1 [(-> & Hg1 & Hm1)|(t & Hd & Hs & Ha & Hv)]; [by cbn; wpe_steps|]. rewrite (proj2 (Z.eqb_neq d 0)) by done.
  assert (held st d t ∅ st1) as Hh by (split; [unfold space_pages; by rewrite dom_empty_L, union_empty_r_L|done]). wpe_step. eapply wpe_mono.
  { apply (allocuvm_spec pa_starved st1 d t ∅ pid 0 n); [by intros ?|done|done|lia|lia|].
    intros x Hx Hxn. unfold KERNBASE in *. change (pages_up 0) with 0 in Hx. rewrite Hv by lia. apply kpte_user; [done|lia]. }
  intros r st2 [(-> & t2 & w2 & Hgn)|(-> & t2 & Hgr & Hs2 & _)].
  - apply (held_freevm _ st d t2 w2). by apply (held_grown st d t ∅ 0 (pages_up n) st1).
  - apply (held_freevm _ st d t2 ∅). by apply (held_grows st d t ∅ st1).
Qed.
(** Writing to a process.  When the pages from [va] to [va + len] are mapped for the user, copyout returns 0 and the
    user sees the bytes there; all other bytes, the page tables and the pages of everyone else are as they were. *)
Theorem copyout_writes st d t w va buf len : space st d t w → 0 <= va → va + len <= KERNBASE → 0 <= len <= Z.of_nat (length buf) →
  (∀ vpn, va / 4096 <= vpn → 4096 * vpn < va + len → user_page (mem st) d vpn = true) →
  wp (copyout d va buf len) (λ r st', r = 0 ∧ space st' d t w ∧
    (∀ p, p ∉ dom w → mem st' !! p = mem st !! p) ∧
    (∀ a, 0 <= a < KERNBASE → ubyte (mem st') d a =
      if decide (va <= a < va + len) then Some (u8 (buf !!! Z.to_nat (a - va))) else ubyte (mem st) d a)) st.
Proof.
  intros Hs Hva Hend Hlen Hu. apply (wpe_total (λ _, False)); [tauto|]. eapply wpe_mono; [by apply (copyout_spec _ d t w)|].
  intros r st' (-> & Hs' & Hm & _ & Hb). done.
Qed.
End promises.

(** C10: over the Rowhammer-safe allocator, fork's copy of the memory keeps the promise that allocator was written
    for: afterwards no two adjacent frames belong to different known processes, and the count of owned frames is right. *)
Theorem copyuvm_keeps_isolation end_ (Hend : KERNBASE < end_) data (st : vst kst) l d0 t0 w0 sz pid : pid ≠ -1 → data_ok data →
  kgood end_ (dom (mem st), heap st) l →
  tree (mem st) d0 t0 → frames (mem st) d0 t0 w0 → 0 <= sz <= KERNBASE → (∀ vpn, 0 <= vpn < pages_up sz → is_Some (vlookup (mem st) d0 vpn)) →
  wpe v2_starved (@copyuvm kst (V2_alloc end_) data d0 sz pid) (λ d st', isolated (pg2pid (heap st')) ∧
    allocated_count (heap st') = count_owned (pg2pid (heap st')) ∧ initflag (heap st') = true) st.
Proof.
  intros Hpid Hdata Hk Ht Hw Hsz Hmap.
  pose proof (@copyuvm_spec kst (V2_alloc end_) (V2_alloc_laws end_ Hend) v2_starved data st d0 t0 w0 sz pid) as Hc.
  eapply wpe_mono; [apply Hc; [by intros ?|done|done| |done|done]|].
  - constructor; [|done|done]. by exists l.
  - intros d st' Hst'. assert (good (H0 := V2_alloc_laws end_ Hend) st') as [l' Hg].
    { destruct Hst' as [(_ & ? & _)|(t & w & _ & [[]])]; done. }
    destruct Hg as [_ _ _ ? ? ?]. done.
Qed.

(** ** The promises at concrete states

    A hundred free pages; then the first three are given away: a page directory, its only page table, and one page of
    user memory, for process 7. *)
Definition demo_end : Z := KERNBASE + 0x200000.
Definition demo_data : Z := KERNBASE + 0x108000.
Fixpoint chain (l : list Z) : gmap Z Z :=
  match l with [] => ∅ | x :: l' => <[x := match l' with [] => 0 | y :: _ => y end]> (chain l') end.
Definition demo_free : list Z := top_page <$> seqZ 0 100.
Definition demo0 : kst := {|
  nexts := chain demo_free; freelist := top_page 0; use_lock := true; locked := false;
  pg2pid := λ _, -1; allocated_count := 0; initflag := true |}.
Definition demo_heap : kst := after (KallocV2.kalloc 7) (after (KallocV2.kalloc (-2)) (after (KallocV2.kalloc (-2)) demo0)).
Definition demo_mem : gmap Z page := {[
  top_page 0 := {[0 := mkpte (V2P (top_page 1)) 6]};
  top_page 1 := {[0 := mkpte (V2P (top_page 2)) 6]};
  top_page 2 := {[25 := 0x44434241]} ]}.
Definition demo_st : vst kst := mkVst demo_heap demo_mem.
Fixpoint is_listb (m : gmap Z Z) (p : Z) (l : list Z) : bool :=
  match l with
  | [] => p =? 0
  | x :: l => (p =? x) && negb (x =? 0) && match m !! x with Some n => is_listb m n l | None => false end
  end.
Fixpoint descb (l : list Z) : bool :=
  match l with x :: ((y :: _) as l') => (y <? x) && descb l' | _ => true end.
Lemma is_listb_sound m p l : is_listb m p l = true → is_list m p l.
Proof.
  revert p. induction l as [|x l IH]; intros p; cbn; [lia|]. destruct (m !! x) as [n|]; [|by rewrite andb_false_r].
  intros [[Hp Hx]%andb_true_iff Hl]%andb_true_iff. split; [lia|]. split; [lia|]. exists n. split; [done|by apply IH].
Qed.
Lemma descb_sound l : descb l = true → descending l.
Proof.
  intros Hl. apply Sorted.Sorted_StronglySorted; [intros x y z ??; lia|]. revert Hl. induction l as [|x l IH]; intros Hl; [constructor|].
  destruct l as [|y l]; [repeat constructor|]. apply andb_true_iff in Hl as [Hxy Hl]. constructor; [by apply IH|]. constructor. lia.
Qed.
Lemma count_owned_free : count_owned (λ _, -1) = 0.
Proof. unfold count_owned. generalize (seqZ 0 MAX_FRAME_NUM). intros l. by induction l as [|x l IH]; [|rewrite filter_cons_False by tauto]. Qed.
Lemma demo0_good : kgood demo_end (∅, demo0) demo_free.
Proof.
  assert (∀ v, v ∈ demo_free → is_page v ∧ demo_end <= v) as Hp.
  { intros v Hv. assert (forallb (λ v, (KERNBASE <=? v) && (v <? KERNBASE + PHYSTOP) && (v mod PGSIZE =? 0) && (demo_end <=? v)) demo_free = true) as Hf by (vm_compute; reflexivity).
    rewrite forallb_forall in Hf. apply list_elem_of_In, Hf in Hv. unfold is_page. lia. }
  constructor; cbn [fst snd].
  - constructor; [done|apply is_listb_sound; vm_compute; reflexivity|apply descb_sound; vm_compute; reflexivity|intros; by apply Hp|done].
  - intros; by apply Hp.
  - set_solver.
  - intros i _. by left.
  - symmetry. apply count_owned_free.
  - done.
Qed.
Lemma demo_dom : dom demo_mem = {[top_page 2]} ∪ ({[top_page 1]} ∪ ({[top_page 0]} ∪ ∅)).
Proof. unfold demo_mem. rewrite !dom_insert_L, dom_singleton_L. set_solver. Qed.
Lemma ret_after (m : M kst Z) s r : match m s with Ret r' _ => r' =? r | _ => false end = true → m s = Ret r (after m s).
Proof. unfold after. destruct (m s) as [r' s'| | | |]; [|done..]. by intros ->%Z.eqb_eq. Qed.
Lemma demo_good : ∃ l, kgood demo_end (dom demo_mem, demo_heap) l.
Proof.
  rewrite demo_dom. apply (kreach_good demo_end (∅, demo0) _ _ demo0_good). unfold demo_heap.
  eapply rtc_l; [by apply (kstep_alloc _ _ _ (-2) (top_page 0)), ret_after; [|vm_compute; reflexivity]|].
  eapply rtc_l; [by apply (kstep_alloc _ _ _ (-2) (top_page 1)), ret_after; [|vm_compute; reflexivity]|].
  apply rtc_once. by apply (kstep_alloc _ _ _ 7 (top_page 2)), ret_after; [|vm_compute; reflexivity].
Qed.
Lemma demo_wd q i : wd demo_mem q i = if decide (q = top_page 0 ∧ i = 0) then mkpte (V2P (top_page 1)) 6
  else if decide (q = top_page 1 ∧ i = 0) then mkpte (V2P (top_page 2)) 6
  else if decide (q = top_page 2 ∧ i = 25) then 0x44434241 else 0.
Proof.
  unfold wd, demo_mem, word.
  destruct (decide (q = top_page 0)) as [->|H0]; [|destruct (decide (q = top_page 1)) as [->|H1]; [|destruct (decide (q = top_page 2)) as [->|H2]]];
    rewrite ?lookup_insert_ne, ?lookup_insert_eq, ?lookup_empty by (done || by vm_compute).
  4: rewrite lookup_singleton_ne by done; repeat case_decide; tauto || done.
  all: rewrite ?lookup_singleton_eq; destruct (decide (i = 0)) as [->|Hi]; [|destruct (decide (i = 25)) as [->|Hi']];
    rewrite ?lookup_singleton_ne, ?lookup_singleton_eq by done; repeat case_decide; (done || (exfalso; naive_solver) || naive_solver).
Qed.
Lemma demo_vlookup vpn : 0 <= vpn → vlookup demo_mem (top_page 0) vpn = if decide (vpn = 0) then Some (mkpte (V2P (top_page 2)) 6) else None.
Proof.
  intros Hv. unfold vlookup. rewrite !demo_wd. destruct (decide (vpn / 1024 = 0)) as [Hd|Hd].
  - rewrite decide_True by done. change (present _) with true at 1. cbn iota. change (frame _) with (top_page 1).
    rewrite decide_False by (intros [? _]; done). case_decide as Hm.
    + destruct Hm as [_ Hm]. rewrite decide_True by (Z.div_mod_to_equations; lia). done.
    + rewrite decide_False by (intros [? _]; done). rewrite decide_False; [done|]. intros ->. by apply Hm.
  - rewrite decide_False by tauto. rewrite decide_False by (intros [? _]; done). rewrite decide_False by (intros [? _]; done).
    change (present 0) with false. cbn iota. rewrite decide_False; [done|]. by intros ->.
Qed.
Lemma demo_in : top_page 0 ∈ dom demo_mem ∧ top_page 1 ∈ dom demo_mem ∧ top_page 2 ∈ dom demo_mem.
Proof. rewrite demo_dom. set_solver. Qed.
Lemma demo_tree : tree demo_mem (top_page 0) {[top_page 1 := 0]}.
Proof.
  constructor.
  - rewrite demo_dom. set_solver.
  - by rewrite lookup_singleton_ne.
  - intros p i [<- <-]%lookup_singleton_Some. rewrite demo_dom, demo_wd, decide_True by done. split; [set_solver|]. by split; [|split; vm_compute].
  - intros i Hi. rewrite demo_wd. destruct (decide (i = 0)) as [->|Hne].
    + intros _. rewrite decide_True by done. by vm_compute.
    + rewrite decide_False by tauto. rewrite decide_False by (intros [? _]; done). by rewrite decide_False by (intros [? _]; done).
Qed.
Lemma demo_frames : frames demo_mem (top_page 0) {[top_page 1 := 0]} {[top_page 2 := 0]}.
Proof.
  constructor.
  - intros p v [<- <-]%lookup_singleton_Some. rewrite demo_dom. split; [set_solver|]. split; [done|]. split; [by rewrite lookup_singleton_ne|].
    split; [done|]. rewrite demo_vlookup by done. eexists. split; [done|]. by vm_compute.
  - intros v e Hv. rewrite demo_vlookup by lia. case_decide as Hz; [|done]. intros [= <-]. subst. by vm_compute.
Qed.
Section witnesses.
#[local] Instance demo_alloc : PageAllocator kst := V2_alloc demo_end.
#[local] Instance demo_laws : PageAllocatorLaws kst := V2_alloc_laws demo_end eq_refl.
Lemma demo_space : space demo_st (top_page 0) {[top_page 1 := 0]} {[top_page 2 := 0]}.
Proof. constructor; [apply demo_good|apply demo_tree|apply demo_frames]. Qed.
Lemma demo_mapped vpn : 0 <= vpn < pages_up 100 → is_Some (vlookup (mem demo_st) (top_page 0) vpn).
Proof. change (pages_up 100) with 1. intros Hv. cbn [mem demo_st]. rewrite demo_vlookup by lia. rewrite decide_True by lia. by eexists. Qed.
Lemma demo_data_ok : data_ok demo_data.
Proof. by vm_compute. Qed.
Lemma copyuvm_copies_witness : wpe pa_starved (copyuvm demo_data (top_page 0) 100 8) (λ d st',
  d = 0 ∧ mem st' = demo_mem ∨ d ≠ 0 ∧ ubyte (mem st') d 100 = Some 0x41 ∧ ubyte (mem st') (top_page 0) 100 = Some 0x41) demo_st.
Proof.
  eapply wpe_mono; [apply (copyuvm_copies demo_data demo_st (top_page 0) {[top_page 1 := 0]} {[top_page 2 := 0]} 100 8);
    [done|apply demo_data_ok|apply demo_space|done|apply demo_mapped]|].
  assert (ubyte demo_mem (top_page 0) 100 = Some 0x41) as Hb by (vm_compute; reflexivity).
  intros d st' [(-> & _ & ->)|(Hd & t & w & _ & Hp & _ & Hold & Hc & _)]; [by left|right]. split; [done|].
  destruct (Hc 100 ltac:(done)) as [-> _]. split; [done|].
  destruct demo_in as (I0 & I1 & I2). unfold ubyte. change (100 / 4096) with 0.
  rewrite (vlookup_same demo_mem (mem st') (top_page 0) {[top_page 1 := 0]} demo_tree);
    [|by apply Hold|intros p Hin; rewrite dom_singleton in Hin; apply elem_of_singleton in Hin as ->; by apply Hold|done].
  change (vlookup demo_mem (top_page 0) 0) with (Some (mkpte (V2P (top_page 2)) 6)). cbn [mbind option_bind].
  change (frame (mkpte (V2P (top_page 2)) 6)) with (top_page 2). rewrite (Hold _ I2). reflexivity.
Defined.
Lemma allocuvm_grows_witness : wpe pa_starved (allocuvm 7 (top_page 0) 100 9000) (λ r st', r = 0 ∨
  r = 9000 ∧ ubyte (mem st') (top_page 0) 4096 = Some 0 ∧ user_page (mem st') (top_page 0) 2 = true) demo_st.
Proof.
  eapply wpe_mono; [apply (allocuvm_grows demo_st (top_page 0) {[top_page 1 := 0]} {[top_page 2 := 0]} 7 100 9000);
    [done|apply demo_space|done|done|]|].
  - change (pages_up 100) with 1. intros x Hx _. cbn [mem demo_st]. rewrite demo_vlookup by lia. by rewrite decide_False by lia.
  - intros r st' (t' & w' & _ & _ & [[-> Hb]|[-> _]]); [right|by left]. split; [done|]. split.
    + destruct (Hb 4096 ltac:(done)) as [-> _]. done.
    + destruct (Hb 8192 ltac:(done)) as [_ Hu]. by apply Hu.
Defined.
Lemma address_space_no_leak_witness : wpe pa_starved (build_and_free demo_data 8 100000) (λ _ st', mem st' = demo_mem) demo_st.
Proof.
  eapply wpe_mono; [apply (address_space_no_leak demo_data demo_st 8 100000); [done|apply demo_data_ok|apply demo_good|done]|].
  by intros [] st' [_ Hm].
Defined.
Lemma copyout_writes_witness : wp (copyout (top_page 0) 99 [104; 105] 2) (λ r st', r = 0 ∧
  ubyte (mem st') (top_page 0) 99 = Some 104 ∧ ubyte (mem st') (top_page 0) 100 = Some 105 ∧ ubyte (mem st') (top_page 0) 101 = Some 0x42) demo_st.
Proof.
  eapply wp_mono; [apply (copyout_writes demo_st (top_page 0) {[top_page 1 := 0]} {[top_page 2 := 0]} 99 [104; 105] 2); [apply demo_space|done..|]|].
  - change (99 / 4096) with 0. intros vpn H1 H2. unfold user_page. cbn [mem demo_st]. rewrite demo_vlookup by lia. rewrite decide_True by lia. by vm_compute.
  - intros r st' (-> & _ & _ & Hb). split; [done|]. rewrite !Hb by done. vm_compute. done.
Defined.
End witnesses.
Lemma copyuvm_keeps_isolation_witness : wpe v2_starved (@copyuvm kst (V2_alloc demo_end) demo_data (top_page 0) 100 8)
  (λ d st', isolated (pg2pid (heap st')) ∧ allocated_count (heap st') = count_owned (pg2pid (heap st')) ∧ initflag (heap st') = true) demo_st.
Proof.
  destruct demo_good as [l Hl]. refine (copyuvm_keeps_isolation demo_end eq_refl demo_data demo_st l (top_page 0) {[top_page 1 := 0]} {[top_page 2 := 0]} 100 8 _ _ Hl demo_tree demo_frames _ demo_mapped);
    [done|apply demo_data_ok|done].
Defined.

(** uva2ka does not look at the null pointer that walkpgdir returns for an address without a page table: copyout
    to such an address reads the entry at address 0. *)
Example copyout_null_table : @copyout kst (V2_alloc demo_end) (top_page 0) 0x400000 [0] 1 demo_st = Fault wild.
Proof. vm_compute. reflexivity. Qed.
