(* ===== verification/KallocSort.v ===== *)
(** * The sorted guard-page allocator, src/05_xv6_memory_safe_allocation/src/v1a-sort/kalloc.c

    As in v1a every page that is handed out has a guard below it, but the free list is kept sorted and freeing gives
    the guard back too, so that the tracked frames are always free or in use in pairs. *)

From S2P Require Import Prelude KMem KallocV2 KallocV1.

Section operations.
Context (end_ : Z).
(** The text of insert_freelist is the one of v2-sort. *)
Definition insert_freelist (r : Z) : M kst () := KallocV2.insert_freelist r.
Definition kfree (v : Z) : M kst () :=
  if negb (u32 v mod PGSIZE =? 0) || (v <? end_) || (PHYSTOP <=? V2P v) then panic "kfree"
  else
    junk_fill v ;;
    when (tracked v)
      (store_pid (VA2IDX v) (-1) ;;
       i ← gets initflag;
       when i
         (modify (λ s, set_allocated_count (allocated_count s - 1) s) ;;
          insert_freelist (v - PGSIZE))) ;;
    insert_freelist v.
(** The guard is skipped after the lock is released. *)
Definition kalloc (pid : Z) : M kst Z :=
  lock_kmem ;;
  r ← gets freelist;
  n ← load_next r;
  modify (set_freelist n) ;;
  unlock_kmem ;;
  when (tracked r)
    (store_pid (VA2IDX r) (-2) ;;
     modify (λ s, set_allocated_count (allocated_count s + 1) s) ;;
     f ← gets freelist;
     n ← load_next f;
     modify (set_freelist n)) ;;
  mret r.
End operations.

(** ** Pairs of frames *)
Section pairs.
Context (end_ : Z).

(** The allocator and its clients, who hold the pages [out]: the tracked frames are free in pairs, an even frame and the
    guard below it, and the clients hold even ones. *)
Record paired (out : gset Z) (l : list Z) (s : kst) : Prop := {
  pr_lock : locked s = false;
  pr_init : initflag s = true;
  pr_list : is_list (nexts s) (freelist s) l;
  pr_desc : descending l;
  pr_pages v : v ∈ l → is_page v ∧ end_ <= v;
  pr_pair v : is_page v → tracked v = true → Z.even (VA2IDX v) = true → v ∈ l ↔ v - PGSIZE ∈ l;
  pr_out v : v ∈ out → is_page v ∧ end_ <= v ∧ v ∉ l ∧
    (tracked v = true → Z.even (VA2IDX v) = true ∧ is_page (v - PGSIZE) ∧ end_ <= v - PGSIZE);
  pr_owner i : 0 <= i < MAX_FRAME_NUM → pg2pid s i ≠ -1 → ∃ v, v ∈ out ∧ tracked v = true ∧ VA2IDX v = i;
}.
Lemma idx_below v : is_page v → is_page (v - PGSIZE) → VA2IDX (v - PGSIZE) = VA2IDX v + 1.
Proof.
  intros Hv Hg. rewrite !VA2IDX_page, !frame_of_page by done. destruct Hv as [Hv Hm]. unfold KERNBASE, PHYSTOP, PGSIZE in *.
  replace (v - 4096 - 2147483648) with (v - 2147483648 + -1 * 4096) by lia. rewrite Z.div_add by lia. lia.
Qed.
Lemma page_below v : is_page v → VA2IDX v < 57343 → is_page (v - PGSIZE).
Proof.
  intros Hv Hi. rewrite VA2IDX_page, frame_of_page in Hi by done. destruct Hv as [Hv Hm]. unfold is_page, KERNBASE, PHYSTOP, PGSIZE in *.
  split; [|Z.div_mod_to_equations; lia]. Z.div_mod_to_equations. lia.
Qed.
Lemma tracked_below v : is_page v → tracked v = true → Z.even (VA2IDX v) = true → is_page (v - PGSIZE) ∧ tracked (v - PGSIZE) = true ∧ VA2IDX (v - PGSIZE) = VA2IDX v + 1.
Proof.
  intros Hv Ht He. apply tracked_page in Ht as Hi; [|done]. unfold MAX_FRAME_NUM in Hi. apply Z.even_spec in He as [k Hk].
  assert (is_page (v - PGSIZE)) as Hg by (apply page_below; [done|lia]). pose proof (idx_below v Hv Hg) as Hi'.
  split; [done|]. split; [|done]. apply tracked_page; [done|]. unfold MAX_FRAME_NUM. lia.
Qed.
(** The first free page, if tracked, is even, and the next one is its guard. *)
Lemma paired_head out r l s : paired out (r :: l) s → tracked r = true → Z.even (VA2IDX r) = true ∧ ∃ l', l = (r - PGSIZE) :: l'.
Proof.
  intros Hp Ht. destruct (pr_pages _ _ _ Hp r) as [Hr _]; [left|]. pose proof (descending_cons_inv _ _ (pr_desc _ _ _ Hp)) as [Hd Hlt].
  assert (Z.even (VA2IDX r) = true) as He.
  { destruct (Z.even (VA2IDX r)) eqn:E; [done|exfalso]. apply tracked_page in Ht as Hi; [|done]. rewrite <- Z.negb_odd in E. apply negb_false_iff in E.
    apply Z.odd_spec in E as [k Hk]. unfold MAX_FRAME_NUM in Hi.
    set (v := r + PGSIZE). assert (is_page v) as Hv.
    { rewrite VA2IDX_page, frame_of_page in Hk, Hi by done. destruct Hr as [Hr Hm]. unfold v, is_page, KERNBASE, PHYSTOP, PGSIZE in *.
      split; [|Z.div_mod_to_equations; lia]. Z.div_mod_to_equations. lia. }
    assert (v - PGSIZE = r) as Hvr by (unfold v; lia). pose proof (idx_below v Hv ltac:(by rewrite Hvr)) as Hidx. rewrite Hvr in Hidx.
    assert (tracked v = true) as Htv by (apply tracked_page; [done|unfold MAX_FRAME_NUM; lia]).
    assert (v ∈ r :: l) as Hin.
    { apply (pr_pair _ _ _ Hp v Hv Htv); [apply Z.even_spec; exists k; lia|]. rewrite Hvr. left. }
    apply elem_of_cons in Hin as [Hin|Hin]; [unfold v, PGSIZE in Hin; lia|]. specialize (Hlt v Hin). unfold v, PGSIZE in Hlt. lia. }
  split; [done|]. assert (r - PGSIZE ∈ r :: l) as Hin by (apply (pr_pair _ _ _ Hp r Hr Ht He); left).
  apply elem_of_cons in Hin as [Hin|Hin]; [unfold PGSIZE in Hin; lia|]. destruct l as [|x l]; [by apply elem_of_nil in Hin|].
  apply descending_cons_inv in Hd as [Hd Hlt']. exists l. f_equal.
  apply elem_of_cons in Hin as [->|Hin]; [done|]. specialize (Hlt' _ Hin). specialize (Hlt x ltac:(left)).
  destruct (pr_pages _ _ _ Hp x) as [[_ Hx] _]; [right; left|]. destruct Hr as [_ Hr]. unfold PGSIZE in *. Z.div_mod_to_equations. lia.
Qed.

Lemma pair_kalloc_refines pid out r l s : paired out (r :: l) s →
  wp (kalloc pid) (λ r' s', r' = r ∧ r ∉ out ∧ if tracked r
    then ∃ l', l = (r - PGSIZE) :: l' ∧ paired ({[r]} ∪ out) l' s' ∧
      pg2pid s' = <[VA2IDX r := -2]> (pg2pid s) ∧ allocated_count s' = allocated_count s + 1
    else paired ({[r]} ∪ out) l s' ∧ pg2pid s' = pg2pid s ∧ allocated_count s' = allocated_count s) s.
Proof.
  intros Hp. pose proof Hp as [Hlk Hin Hl Hd Hpg Hpr Ho Hw]. pose proof (descending_NoDup _ Hd) as Hnd.
  destruct (Hpg r) as [Hr Hre]; [left|]. assert (r ∉ out) as Hro by (intros Hx; apply Ho in Hx as (_ & _ & Hx & _); apply Hx; left).
  destruct Hl as (Hf & Hr0 & n & Hn & Hl). unfold kalloc. wp_steps. apply wp_lock_kmem; [done|]. wp_steps. simpl freelist. rewrite Hf.
  apply wp_load_next with n; [done|done|]. wp_steps. apply wp_unlock_kmem; [done|].
  assert (∀ v, v ∈ out → v ∉ l) as Hol by (intros v Hv Hx; apply Ho in Hv as (_ & _ & Hn' & _); apply Hn'; by right).
  apply NoDup_cons in Hnd as [Hrl Hnd]. apply descending_cons_inv in Hd as [Hd Hlt].
  destruct (tracked r) eqn:Ht; wp_steps.
  - destruct (paired_head out r l s Hp Ht) as [He [l' ->]]. destruct (tracked_below r Hr Ht He) as (Hg & Htg & Hig).
    apply tracked_page in Ht as Hi; [|done]. apply wp_store_pid; [done|]. wp_steps. simpl freelist.
    destruct Hl as (-> & Hg0 & n2 & Hn2 & Hl). apply wp_load_next with n2; [done|done|]. wp_steps. split; [done|]. split; [done|].
    exists l'. split; [done|]. split; [|done]. apply NoDup_cons in Hnd as [Hgl Hnd]. apply descending_cons_inv in Hd as [Hd Hlt2]. constructor; cbn [locked initflag nexts freelist pg2pid set_freelist set_locked set_pg2pid set_allocated_count]; [done|done|done|done| | | |].
    + intros v Hv. apply Hpg. by right; right.
    + intros v Hv Htv Hev. specialize (Hpr v Hv Htv Hev). rewrite !elem_of_cons in Hpr. destruct (decide (v = r)) as [->|Hvr].
      * split; [by intros ?; exfalso; apply Hrl; right|by intros].
      * assert (v - PGSIZE ≠ r - PGSIZE) by lia. destruct (tracked_below v Hv Htv Hev) as (_ & _ & Hiv).
        assert (v ≠ r - PGSIZE) as Hvg. { intros ->. rewrite Hig, Z.even_add, He in Hev. done. }
        assert (v - PGSIZE ≠ r) as Hvr2. { intros <-. rewrite Hiv, Z.even_add, Hev in He. done. }
        tauto.
    + intros v [->%elem_of_singleton|Hv]%elem_of_union.
      * split; [done|]. split; [done|]. split; [intros ?; apply Hrl; by right|]. intros _. split; [done|]. split; [done|]. apply Hpg. right; left.
      * destruct (Ho v Hv) as (O1 & O2 & O3 & O4). split; [done|]. split; [done|]. split; [|done]. intros ?. apply O3. by right; right.
    + intros i Hib. rewrite fn_insert_case. case_decide as Hir; [intros _; exists r; split; [set_fast|done]|].
      intros Hpi. destruct (Hw i Hib Hpi) as (v & Hv & ? & ?). exists v. split; [set_fast|done].
  - split; [done|]. split; [done|]. split; [|done]. constructor; cbn [locked initflag nexts freelist pg2pid set_freelist set_locked set_pg2pid set_allocated_count]; [done|done|done|done| | | |].
    + intros v Hv. apply Hpg. by right.
    + intros v Hv Htv Hev. specialize (Hpr v Hv Htv Hev). rewrite !elem_of_cons in Hpr.
      destruct (tracked_below v Hv Htv Hev) as (_ & Htv' & _). assert (v ≠ r) by congruence. assert (v - PGSIZE ≠ r) by congruence. tauto.
    + intros v [->%elem_of_singleton|Hv]%elem_of_union.
      * split; [done|]. split; [done|]. split; [done|]. congruence.
      * destruct (Ho v Hv) as (O1 & O2 & O3 & O4). split; [done|]. split; [done|]. split; [|done]. intros ?. apply O3. by right.
    + intros i Hib Hpi. destruct (Hw i Hib Hpi) as (v & Hv & ? & ?). exists v. split; [set_fast|done].
Qed.
(** Where the page goes back to; the guard first. *)
Definition back (v : Z) (l : list Z) : list Z := insert_desc v (if tracked v then insert_desc (v - PGSIZE) l else l).
Lemma back_elem v l x : x ∈ back v l ↔ x = v ∨ (tracked v = true ∧ x = v - PGSIZE) ∨ x ∈ l.
Proof. unfold back. rewrite insert_desc_elem. destruct (tracked v); [rewrite insert_desc_elem|]; naive_solver. Qed.
Lemma pair_kfree_refines v out l s : paired out l s → v ∈ out →
  wp (kfree end_ v) (λ _ s', paired (out ∖ {[v]}) (back v l) s' ∧
    pg2pid s' = (if tracked v then <[VA2IDX v := -1]> (pg2pid s) else pg2pid s) ∧
    allocated_count s' = allocated_count s - (if tracked v then 1 else 0)) s.
Proof.
  intros Hp Hv. pose proof Hp as [Hlk Hin Hl Hd Hpg Hpr Ho Hw]. destruct (Ho v Hv) as (Hvp & Hve & Hvl & Hvt).
  assert (0 <= v < 2 ^ 32) as Hvb by (destruct Hvp; unfold KERNBASE, PHYSTOP in *; lia).
  assert (v ≠ 0) as Hv0 by auto with kmem.
  unfold kfree. rewrite (proj2 (page_guard end_ v Hvb) ltac:(done)). unfold junk_fill. apply wp_bind, wp_modify, wp_bind, wp_when.
  assert (is_list (<[v:=0x01010101]> (nexts s)) (freelist s) l) as Hl1 by by apply is_list_insert.
  assert (∀ s', locked s' = false → initflag s' = true → is_list (nexts s') (freelist s') (back v l) → descending (back v l) →
    pg2pid s' = (if tracked v then <[VA2IDX v := -1]> (pg2pid s) else pg2pid s) → paired (out ∖ {[v]}) (back v l) s') as Hdone.
  { intros s' Hlk' Hin' Hl' Hd' Hpg'. constructor; [done|done|done|done| | | |].
    - intros x [->|[[Ht ->]|Hx]]%back_elem; [done|by apply Hvt|by apply Hpg].
    - intros x Hx Htx Hex. rewrite !back_elem. specialize (Hpr x Hx Htx Hex). destruct (tracked_below x Hx Htx Hex) as (Hg & Htg & Hig).
      destruct (decide (x = v)) as [->|Hxv]; [by split; intros _; [right; left|left]|].
      assert (x - PGSIZE ≠ v - PGSIZE) as Hxv' by lia. destruct (tracked v) eqn:Ht.
      + destruct (Hvt eq_refl) as (Hev & Hvg & _). destruct (tracked_below v Hvp Ht Hev) as (_ & _ & Hiv).
        assert (x ≠ v - PGSIZE) by (intros ->; rewrite Hiv, Z.even_add, Hev in Hex; done).
        assert (x - PGSIZE ≠ v) by (intros <-; rewrite Hig, Z.even_add, Hex in Hev; done). tauto.
      + assert (x - PGSIZE ≠ v) by congruence. split; (intros [?|[[? _]|?]]; [done|done|]); right; right; by apply Hpr.
    - intros x [Hx Hne]%elem_of_difference. destruct (Ho x Hx) as (O1 & O2 & O3 & O4). split; [done|]. split; [done|]. split; [|done].
      rewrite back_elem. intros [->|[[Ht ->]|?]]; [set_fast| |done]. destruct (Hvt Ht) as (Hev & Hvg & _).
      destruct (tracked_below v Hvp Ht Hev) as (_ & Htg & Hiv). destruct (O4 Htg) as [Hev' _]. rewrite Hiv, Z.even_add, Hev in Hev'. done.
    - intros i Hi. rewrite Hpg'. destruct (tracked v) eqn:Ht.
      + rewrite fn_insert_case. case_decide as Hiv; [done|]. intros Hpi. destruct (Hw i Hi Hpi) as (x & Hx & Htx & Hix).
        exists x. split; [|done]. apply elem_of_difference. split; [done|]. intros ->%elem_of_singleton. congruence.
      + intros Hpi. destruct (Hw i Hi Hpi) as (x & Hx & Htx & Hix). exists x. split; [|done].
        apply elem_of_difference. split; [done|]. intros ->%elem_of_singleton. congruence. }
  unfold back in *. destruct (tracked v) eqn:Ht; wp_steps.
  - destruct (Hvt eq_refl) as (Hev & Hvg & Hge). apply tracked_page in Ht as Hi; [|done]. apply wp_store_pid; [done|]. apply wp_bind, wp_gets. simpl initflag. rewrite Hin. apply wp_when. wp_steps.
    assert (v - PGSIZE ∉ l) as Hgl by (by rewrite <- (Hpr v Hvp Ht Hev)).
    assert (v ≠ v - PGSIZE) as Hvg' by (unfold PGSIZE; lia). assert (v ∉ insert_desc (v - PGSIZE) l) as Hvi by (rewrite insert_desc_elem; tauto).
    pose proof (insert_desc_sorted _ _ Hgl Hd) as Hd1. unfold insert_freelist.
    eapply wp_mono; [apply (insert_freelist_refines _ l (v - PGSIZE)); [done|done|done|done|auto with kmem]|].
    intros [] s1 [(A1 & A2 & A3 & A4 & A5) Hl2]. cbn in A1, A2, A3, A4, A5.
    eapply wp_mono; [apply (insert_freelist_refines _ (insert_desc (v - PGSIZE) l) v); [congruence|done|done|done|done]|].
    intros [] s2 [(B1 & B2 & B3 & B4 & B5) Hl3]. split; [|split; [congruence|lia]].
    apply Hdone; [congruence|congruence|done|by apply insert_desc_sorted|congruence].
  - eapply wp_mono; [apply (insert_freelist_refines _ l v); done|]. intros [] s1 [(A1 & A2 & A3 & A4 & A5) Hl2]. cbn in A1, A2, A3, A4, A5.
    split; [|split; [congruence|lia]]. apply Hdone; [congruence|congruence|done|by apply insert_desc_sorted|done].
Qed.
End pairs.

(** ** Booting *)
Section boot.
Context (end_ : Z).
Fixpoint freerange_loop (fuel : nat) (p vend : Z) : M kst () :=
  match fuel with
  | O => diverge
  | S f =>
      if p + PGSIZE <=? vend then kfree end_ p ;; freerange_loop f (p + PGSIZE) vend
      else mret ()
  end.
Definition freerange (vstart vend : Z) : M kst () :=
  let p := PGROUNDUP vstart in
  freerange_loop (S (Z.to_nat ((vend - p) / PGSIZE))) p vend.
Definition kinit1 (vstart vend : Z) : M kst () :=
  modify (set_locked false) ;;
  modify (set_use_lock false) ;;
  freerange vstart vend.
Definition kinit2 (vstart vend : Z) : M kst () :=
  freerange vstart vend ;;
  modify (set_use_lock true) ;;
  modify (set_initflag true).
End boot.

(** While booting every page freed goes to the front, since memory is freed upwards. *)
Lemma sorted_kfree_boot end_ v l s :
  booting l s → is_page v → end_ <= v → (∀ w, w ∈ l → w < v) →
  wp (kfree end_ v) (λ _, booting (v :: l)) s.
Proof.
  intros [Hlk Hini Hl Hd Hfree] Hv He Hlt. assert (v ∉ l) as Hvl by (intros Hx%Hlt; lia).
  unfold kfree. assert (0 <= v < 2 ^ 32) as Hvb by (destruct Hv; unfold KERNBASE, PHYSTOP in *; lia).
  rewrite (proj2 (page_guard end_ v Hvb) ltac:(done)). unfold junk_fill.
  pose proof (page_nonnull v Hv) as Hv0. apply wp_bind, wp_modify, wp_bind, wp_when.
  assert (∀ f, (∀ x, x ∈ v :: l → tracked x = true → f (VA2IDX x) = -1) →
    wp (insert_freelist v) (λ _, booting (v :: l)) (set_pg2pid f (set_nexts (<[v:=0x01010101]> (nexts s)) s))) as Hpush.
  { intros f Hf. unfold insert_freelist.
    eapply wp_mono; [apply (insert_freelist_refines _ l v); [done|by apply is_list_insert|done|done|done]|].
    intros [] s' [(A1 & A2 & A3 & A4 & A5) Hl']. cbn in A1, A2, A3, A4, A5. rewrite insert_desc_head in Hl' by done.
    constructor; [congruence|congruence|done|by apply descending_cons|by rewrite A3]. }
  destruct (tracked v) eqn:Ht.
  - apply tracked_page in Ht; [|done]. wp_step. apply wp_store_pid; [done|]. wp_step. wp_step.
    simpl initflag. rewrite Hini. apply wp_when, Hpush.
    intros x Hx Hxt. simpl. rewrite fn_insert_case. case_decide; [done|].
    apply elem_of_cons in Hx as [->|Hx]; [done|auto].
  - specialize (Hpush (pg2pid s)). destruct s. apply Hpush.
    intros x [->|Hx]%elem_of_cons Hxt; [congruence|auto].
Qed.

(** [kinit2], after [kinit1] put the pages [l] below 4 MB on the list, establishes the invariant. *)
Lemma kinit2_pairs end_ l s :
  end_ <= low_mem → (∀ w, w ∈ l → is_page w ∧ end_ <= w < low_mem) → booting l s →
  wp (kinit2 end_ low_mem (KERNBASE + PHYSTOP))
    (λ _ s', ∃ L, paired end_ ∅ L s' ∧ ∀ v, v ∈ L ↔ v ∈ l ∨ is_page v ∧ low_mem <= v) s.
Proof.
  intros Hend Hlow Hb. unfold kinit2, freerange. replace (PGROUNDUP low_mem) with low_mem by done. wp_step.
  eapply wp_mono; [apply (freerange_boot end_ (kfree end_)) with (l := l); try done|].
  { intros. by apply sorted_kfree_boot. }
  { intros w Hw. destruct (Hlow w Hw) as (? & ? & ?). done. }
  intros [] s1 (L & [[Hlk _ Hl Hd _] Hel _ Hall]). wp_steps. exists L. split; [|done].
  assert (∀ v, is_page v → tracked v = true → v ∈ L) as Htr.
  { intros v Hv Ht. apply Hel. right. split; [done|]. destruct (Z.lt_ge_cases v low_mem); [|lia].
    by rewrite low_untracked in Ht. }
  constructor; [done|done|done|done| | | |].
  - intros v [Hv|[Hv ?]]%Hel; [destruct (Hlow v Hv) as (? & ? & ?)|]; (split; [done|lia]).
  - intros v Hv Ht He. destruct (tracked_below v Hv Ht He) as (Hg & Htg & _). split; intros _; by apply Htr.
  - by intros v ?%elem_of_empty.
  - intros i Hi Hpi. exfalso. apply Hpi. by apply Hall.
Qed.

(** ** Histories *)
Section machine.
Context (end_ : Z).
Inductive pstep : gset Z * list Z * kst → gset Z * list Z * kst → Prop :=
| pstep_alloc out l s pid r s' :
    kalloc pid s = Ret r s' → pstep (out, l, s) ({[r]} ∪ out, (if tracked r then tail (tail l) else tail l), s')
| pstep_free out l s v s' :
    v ∈ out → kfree end_ v s = Ret () s' → pstep (out, l, s) (out ∖ {[v]}, back v l, s').
Definition agrees (st : gset Z * list Z * kst) : Prop := paired end_ (fst (fst st)) (snd (fst st)) (snd st).
Lemma pair_kalloc_inv pid out l s r s' : paired end_ out l s → kalloc pid s = Ret r s' → ∃ l', l = r :: l'.
Proof.
  intros Hp H. unfold kalloc in H. rewrite (bind_Ret _ _ _ _ _ (lock_kmem_Ret s (pr_lock _ _ _ _ Hp))) in H.
  apply bind_Ret_inv in H as (r0 & s1 & [= <- <-] & H). apply bind_Ret_inv in H as (n & s1 & Hn & H). apply load_next_inv in Hn as (-> & Hr0 & Hn).
  apply bind_Ret_inv in H as ([] & s1 & _ & H). apply bind_Ret_inv in H as ([] & s2 & _ & H). apply bind_Ret_inv in H as ([] & s3 & _ & H). injection H as <- <-.
  cbn [set_locked freelist] in *. apply (is_list_nonnull _ _ _ (pr_list _ _ _ _ Hp) Hr0).
Qed.
Lemma pstep_agrees st st' : agrees st → pstep st st' → agrees st'.
Proof.
  unfold agrees. intros Hp Hst. destruct Hst as [out l s pid r s' H|out l s v s' Hv H]; cbn [fst snd] in *.
  - destruct (pair_kalloc_inv pid out l s r s' Hp H) as [l' ->]. pose proof (pair_kalloc_refines end_ pid out r l' s Hp) as Hw. unfold wp in Hw. rewrite H in Hw.
    destruct Hw as (_ & _ & Hw). destruct (tracked r); [|apply Hw]. destruct Hw as (l2 & -> & Hp' & _). done.
  - pose proof (pair_kfree_refines end_ v out l s Hp Hv) as Hw. unfold wp in Hw. rewrite H in Hw. apply Hw.
Qed.
Lemma pstep_history st st' : agrees st → rtc pstep st st' → agrees st'.
Proof. intros Hp. induction 1 as [|? ? ? Hst _ IH]; [done|]. apply IH. by eapply pstep_agrees. Qed.
Lemma paired_guarded out l s : paired end_ out l s → guarded (pg2pid s).
Proof.
  intros Hp i Hi. unfold MAX_FRAME_NUM in Hi. destruct (decide (pg2pid s i = -1)) as [|H1]; [by left|]. destruct (decide (pg2pid s (i + 1) = -1)) as [|H2]; [by right|exfalso].
  destruct (pr_owner _ _ _ _ Hp i) as (v & Hv & Htv & Hiv); [unfold MAX_FRAME_NUM; lia|done|].
  destruct (pr_owner _ _ _ _ Hp (i + 1)) as (v' & Hv' & Htv' & Hiv'); [unfold MAX_FRAME_NUM; lia|done|].
  destruct (pr_out _ _ _ _ Hp v Hv) as (_ & _ & _ & E). destruct (pr_out _ _ _ _ Hp v' Hv') as (_ & _ & _ & E').
  specialize (E Htv) as [E _]. specialize (E' Htv') as [E' _]. rewrite Hiv' , Z.even_add, <- Hiv, E in E'. done.
Qed.
End machine.

(** C5: in v1a-sort no two adjacent frames of the 64 MB that [pg2pid] covers are ever both in use, after any sequence
    of allocations and frees made one after the other (kalloc unlinks the guard after releasing the lock, so that calls
    that overlap are not covered); and unlike in v1a and v1b no page is lost on the way: when a page is given back, the
    list is what it was before it was allocated, guard and all. *)
Theorem sorted_guards_return end_ out l s out' l' s' : paired end_ out l s → rtc (pstep end_) (out, l, s) (out', l', s') →
  guarded (pg2pid s') ∧ ∀ pid r l1, l' = r :: l1 →
    wp (r ← kalloc pid; kfree end_ r ;; mret r) (λ r' s'', r' = r ∧ paired end_ out' l' s'' ∧
      pg2pid s'' = <[VA2IDX r := if tracked r then -1 else pg2pid s' (VA2IDX r)]> (pg2pid s') ∧ allocated_count s'' = allocated_count s') s'.
Proof.
  intros Hp Hr. pose proof (pstep_history end_ (out, l, s) _ Hp Hr) as Hp'. unfold agrees in Hp'. cbn [fst snd] in Hp'.
  split; [by eapply paired_guarded|]. intros pid r l1 ->. pose proof (pr_desc _ _ _ _ Hp') as Hd. wp_step. eapply wp_mono; [by apply (pair_kalloc_refines end_ pid out' r l1)|].
  intros r' s1 (-> & Hro & H1).
  assert (out' = ({[r]} ∪ out') ∖ {[r]}) as Hout by (clear -Hro; set_solver).
  destruct (tracked r) eqn:Ht.
  - destruct H1 as (l2 & -> & Hp1 & Hpg & Hc). wp_step. eapply wp_mono; [apply (pair_kfree_refines end_ r ({[r]} ∪ out') l2 s1 Hp1); by apply elem_of_union_l, elem_of_singleton_2|].
    intros [] s2 (Hp2 & Hpg2 & Hc2). wp_steps. split; [done|]. rewrite Hpg2, Hpg, Hc2, Hc, Ht, fn_insert_insert. split; [|split; [done|lia]].
    rewrite <- Hout in Hp2. unfold back in Hp2. rewrite Ht in Hp2.
    rewrite (insert_desc_head (r - PGSIZE)) in Hp2 by (apply descending_cons_inv in Hd as [Hd _]; by apply descending_cons_inv in Hd as [_ ?]).
    rewrite (insert_desc_head r) in Hp2 by (by apply descending_cons_inv in Hd as [_ ?]). done.
  - destruct H1 as (Hp1 & Hpg & Hc). wp_step. eapply wp_mono; [apply (pair_kfree_refines end_ r ({[r]} ∪ out') l1 s1 Hp1); by apply elem_of_union_l, elem_of_singleton_2|].
    intros [] s2 (Hp2 & Hpg2 & Hc2). wp_steps. split; [done|]. rewrite Hpg2, Hpg, Hc2, Hc, Ht. split; [|split; [by rewrite fn_insert_same|lia]].
    rewrite <- Hout in Hp2. unfold back in Hp2. rewrite Ht in Hp2.
    rewrite (insert_desc_head r) in Hp2 by (by apply descending_cons_inv in Hd as [_ ?]). done.
Qed.

(** Six free pages; one is taken, and then another. *)
Definition six : list Z := [page 0; page 1; page 2; page 3; page 4; page 5].
Definition six_pages : kst := {|
  nexts := {[ page 0 := page 1; page 1 := page 2; page 2 := page 3; page 3 := page 4; page 4 := page 5; page 5 := 0 ]};
  freelist := page 0; use_lock := true; locked := false;
  pg2pid := λ _, -1; allocated_count := 0; initflag := true |}.
(** The demonstration's list ends inside the tracked frames, so its lowest pages are few: the invariant only needs pairs. *)
Lemma six_paired : paired KERNBASE ∅ six six_pages.
Proof.
  assert (∀ v, v ∈ six ↔ is_page v ∧ 0 <= VA2IDX v < 6) as Hsix.
  { intros v. split.
    - unfold six. rewrite !elem_of_cons. intros [->|[->|[->|[->|[->|[->|[]%elem_of_nil]]]]]]; (split; [by vm_compute|by vm_compute]).
    - intros [Hv Hi]. rewrite VA2IDX_page, frame_of_page in Hi by done. destruct Hv as [Hv Hm]. unfold six, page. rewrite !elem_of_cons.
      unfold KERNBASE, PHYSTOP, PGSIZE in *. Z.div_mod_to_equations. lia. }
  constructor; [done|done| | | | | |].
  - unfold six. simpl. repeat (split; [done|]; split; [done|]; eexists; split; [reflexivity|]). done.
  - unfold six. repeat constructor.
  - intros v [Hv _]%Hsix. split; [done|]. apply Hv.
  - intros v Hv Ht He. destruct (tracked_below v Hv Ht He) as (Hg & _ & Hi). rewrite !Hsix, Hi. apply Z.even_spec in He as [k Hk].
    split; intros [? ?]; (split; [done|lia]).
  - by intros v ?%elem_of_empty.
  - intros i _ Hpi. by destruct Hpi.
Qed.
(** From boot on, and after an allocation. *)
Lemma sorted_guards_return_witness : let s1 := after (kalloc 5) six_pages in
  (wp (kinit2 (KERNBASE + 0x115000) low_mem (KERNBASE + PHYSTOP)) (λ _ s, guarded (pg2pid s)) boot_demo) ∧
  pg2pid s1 0 = -2 ∧ freelist s1 = page 2 ∧ guarded (pg2pid s1) ∧
  wp (r ← kalloc 6; kfree KERNBASE r ;; mret r) (λ r s2, r = page 2 ∧ allocated_count s2 = 1) s1.
Proof.
  intros s1. split.
  { eapply wp_mono; [apply (kinit2_pairs (KERNBASE + 0x115000) [] boot_demo); [done|by intros w Hw%elem_of_nil|]|].
    { constructor; [done|done|done|constructor|by intros v Hv%elem_of_nil]. }
    intros [] s (L & Hp & _). apply (sorted_guards_return (KERNBASE + 0x115000) ∅ L s ∅ L s Hp). apply rtc_refl. }
  split; [done|]. split; [done|].
  destruct (sorted_guards_return KERNBASE ∅ six six_pages ({[page 0]} ∪ ∅) [page 2; page 3; page 4; page 5] s1 six_paired) as [Hg Hw].
  - apply rtc_once. apply (pstep_alloc KERNBASE ∅ six six_pages 5 (page 0) s1). reflexivity.
  - split; [exact Hg|]. eapply wp_mono; [by apply (Hw 6 (page 2) [page 3; page 4; page 5])|]. intros r s2 (-> & _ & _ & ->). done.
Defined.
(** kalloc on an empty list follows the null pointer instead of returning 0. *)
Example kalloc_empty_faults : kalloc 5 (set_freelist 0 six_pages) = Fault "null pointer dereference".
Proof. reflexivity. Qed.
