(* ===== verification/OpenFileCalls.v ===== *)
(** * The system calls of src/02_New_SysCall: getofilecnt and getofilenext (sysproc.c, proc.c)

    The state adds the process table, as far as the calls read it, to the one of [Sysfile], whose argument fetching (the text
    of syscall.c is the same) and fdalloc are used. *)

From S2P Require Import Prelude Bio Blocks Log Txn Fs Files Sysfile.

Definition NPROC : Z := 64.
(** ptable.proc: pid and ofile of each slot; the current process is the slot [cur], whose files are in [user]. *)
Record ptab (T D : Type) := mkPtab {
  slots : list (Z * list (option nat));
  cur : Z;
  user : sys T D;
}.
Arguments mkPtab {T D}. Arguments slots {T D}. Arguments cur {T D}. Arguments user {T D}.

Section code.
Context {T D : Type}.
Notation M_pt := (M (ptab T D)).
Definition set_user (u : sys T D) (s : ptab T D) : ptab T D := mkPtab (slots s) (cur s) u.
Definition p_pid (p : Z) : M_pt Z := l ← gets slots; x ← aget l p; mret (fst x).
Definition p_ofile (p i : Z) : M_pt (option nat) :=
  c ← gets cur;
  l ← (if p =? c then gets (λ s, ofile (user s)) else l ← gets slots; x ← aget l p; mret (snd x));
  aget l i.
(** The slot, or the null pointer ([None]). *)
Definition getprocbyid (pid : Z) : M_pt (option Z) :=
  for_find (seqZ 0 NPROC) (λ p,
    q ← p_pid p;
    if q =? pid then mret (Some p) else mret None).
Fixpoint count_open (p : Z) (l : list Z) (cnt : Z) : M_pt Z :=
  match l with
  | [] => mret cnt
  | i :: l => f ← p_ofile p i; count_open p l (match f with Some _ => cnt + 1 | None => cnt end)
  end.
Definition sys_getofilecnt : M_pt Z :=
  o ← zoom user set_user (argint 0);
  match o with
  | None => mret (-1)
  | Some pid =>
      p ← getprocbyid pid;
      match p with
      | Some p => count_open p (seqZ 0 NOFILE) 0
      | None => mret (-1)
      end
  end.
Definition sys_getofilenext : M_pt Z :=
  o ← zoom user set_user (argint 0);
  match o with
  | None => mret (-1)
  | Some pid =>
      p ← getprocbyid pid;
      match p with
      | Some p =>
          r ← for_find (seqZ 0 NOFILE) (λ i,
            f ← p_ofile p i;
            match f with None => mret (Some i) | Some _ => mret None end);
          mret (default (-1) r)
      | None => mret (-1)
      end
  end.
End code.

Section spec.
Context {T D : Type}.
Implicit Types s : ptab T D.
Definition ofile_of s (p : Z) : list (option nat) :=
  if p =? cur s then ofile (user s) else default [] (snd <$> slots s !! Z.to_nat p).
Record table_ok s : Prop := {
  tab_len : length (slots s) = 64%nat;
  tab_files p : 0 <= p < NPROC → length (ofile_of s p) = 16%nat;
}.
(** The first slot with the pid. *)
Definition slot_of s (pid : Z) : option Z := (λ x, Z.of_nat (fst x)) <$> list_find (λ x, fst x = pid) (slots s).
Definition open_count (l : list (option nat)) : Z := Z.of_nat (length (filter is_Some l)).
Definition first_closed (l : list (option nat)) : Z := match list_find (λ f, f = None) l with Some (i, _) => Z.of_nat i | None => -1 end.

Lemma aget_ok {S A} (l : list A) i x (s : S) : 0 <= i → l !! Z.to_nat i = Some x → aget l i s = Ret x s.
Proof. intros Hi Hl. unfold aget. destruct (Z.ltb_spec i 0); [lia|]. by rewrite Hl. Qed.
Lemma seqZ_all {A} (l : list A) n : length l = Z.to_nat n → 0 <= n → seqZ 0 n = Z.of_nat <$> seq 0 (length l).
Proof. intros Hl Hn. unfold seqZ. rewrite Hl. apply list_fmap_ext. intros i x _. lia. Qed.
(** A loop that looks for the first element of a list. *)
Lemma for_find_list {S A} (P : A → Prop) `{∀ x, Decision (P x)} (body : Z → M S (option Z)) (l l0 : list A) (s : S) :
  (∀ i x, (l0 ++ l) !! i = Some x → body (Z.of_nat i) s = Ret (if decide (P x) then Some (Z.of_nat i) else None) s) →
  for_find (Z.of_nat <$> seq (length l0) (length l)) body s = Ret ((λ x, Z.of_nat (length l0 + fst x)%nat) <$> list_find P l) s.
Proof.
  revert l0. induction l as [|x l IH]; intros l0 Hb; [done|]. cbn [length seq fmap list_fmap for_find list_find].
  rewrite (bind_Ret _ _ s _ s (Hb (length l0) x ltac:(by rewrite list_lookup_middle))). case_decide as Hx; [cbn; by rewrite Nat.add_0_r|].
  specialize (IH (l0 ++ [x])). rewrite length_app in IH. cbn in IH. rewrite Nat.add_1_r in IH. rewrite IH.
  - destruct (list_find P l) as [[i y]|]; [|done]. cbn. do 3 f_equal. lia.
  - intros i y Hi. apply Hb. by rewrite <- app_assoc in Hi.
Qed.
Lemma getprocbyid_spec s pid : table_ok s → getprocbyid pid s = Ret (slot_of s pid) s.
Proof.
  intros [Hl _]. unfold getprocbyid. rewrite (seqZ_all (slots s)) by done. etrans; [apply (for_find_list (λ x, fst x = pid) _ (slots s) [])|done].
  intros i x Hi. cbn [app] in Hi. unfold p_pid. rewrite (bind_Ret _ _ s (fst x) s).
  - destruct (Z.eqb_spec (fst x) pid); [by rewrite decide_True|by rewrite decide_False].
  - unfold mbind, M_bind, gets. by rewrite (aget_ok _ _ x) by (rewrite ?Nat2Z.id; done || lia).
Qed.
Lemma slot_of_bounds s pid p : table_ok s → slot_of s pid = Some p → 0 <= p < NPROC.
Proof.
  intros [Hl _] Hp. unfold slot_of in Hp. destruct (list_find _ _) as [[i x]|] eqn:E; [|done]. injection Hp as <-.
  apply list_find_Some in E as (Hi & _). apply lookup_lt_Some in Hi. unfold NPROC. cbn. lia.
Qed.
Lemma p_ofile_spec s p i f : table_ok s → 0 <= p < NPROC → ofile_of s p !! i = Some f → p_ofile p (Z.of_nat i) s = Ret f s.
Proof.
  intros [Hl Hf] Hp Hi. unfold p_ofile, ofile_of in *. unfold mbind, M_bind, gets. destruct (p =? cur s).
  - by rewrite (aget_ok _ _ f) by (rewrite ?Nat2Z.id; done || lia).
  - destruct (lookup_lt_is_Some_2 (slots s) (Z.to_nat p)) as [x Hx]; [unfold NPROC in Hp; lia|]. rewrite Hx in Hi. cbn in Hi.
    rewrite (aget_ok _ p x) by (done || lia). cbn. by rewrite (aget_ok _ _ f) by (rewrite ?Nat2Z.id; done || lia).
Qed.
Lemma count_open_spec s p l l0 cnt : table_ok s → 0 <= p < NPROC → ofile_of s p = l0 ++ l →
  count_open p (Z.of_nat <$> seq (length l0) (length l)) cnt s = Ret (cnt + open_count l) s.
Proof.
  intros Hs Hp. revert l0 cnt. induction l as [|f l IH]; intros l0 cnt Hl; cbn [length seq fmap list_fmap count_open].
  { unfold open_count. cbn. do 2 f_equal. lia. }
  rewrite (bind_Ret _ _ s f s) by (apply p_ofile_spec; [done|done|rewrite Hl; by rewrite list_lookup_middle]).
  specialize (IH (l0 ++ [f])). rewrite length_app in IH. cbn in IH. rewrite Nat.add_1_r in IH. rewrite IH by (by rewrite <- app_assoc).
  f_equal. unfold open_count. rewrite filter_cons. destruct f; case_decide as Hf; cbn [length].
  - lia.
  - exfalso. apply Hf. by eexists.
  - by destruct Hf.
  - lia.
Qed.
(** fdalloc's loop body. *)
Definition try_fd (f : nat) (fd : Z) : M (sys T D) (option Z) :=
  l ← gets ofile;
  x ← aget l fd;
  match x with
  | None => set_fd fd (Some f) ;; mret (Some fd)
  | Some _ => mret None
  end.
Lemma try_fd_spec f (u : sys T D) i x : ofile u !! i = Some x → try_fd f (Z.of_nat i) u =
  match x with None => Ret (Some (Z.of_nat i)) (set_ofile (<[i := Some f]> (ofile u)) u) | Some _ => Ret None u end.
Proof.
  intros Hx. unfold try_fd. etrans; [by apply (bind_Ret _ _ u (ofile u) u)|].
  rewrite (bind_Ret _ _ u x u) by (apply aget_ok; [lia|by rewrite Nat2Z.id]). destruct x; [done|]. unfold set_fd, mbind, M_bind, modify. cbn. by rewrite Nat2Z.id.
Qed.
Lemma try_fds f (u : sys T D) l l0 : ofile u = l0 ++ l → for_find (Z.of_nat <$> seq (length l0) (length l)) (try_fd f) u =
  match list_find (λ f, f = None) l with
  | Some (i, _) => Ret (Some (Z.of_nat (length l0 + i))) (set_ofile (<[(length l0 + i)%nat := Some f]> (ofile u)) u)
  | None => Ret None u
  end.
Proof.
  revert l0. induction l as [|x l IH]; intros l0 Hu; [done|]. cbn [length seq fmap list_fmap for_find list_find].
  pose proof (try_fd_spec f u (length l0) x ltac:(rewrite Hu; by rewrite list_lookup_middle)) as Hb. destruct x as [g|].
  - rewrite decide_False by done. rewrite (bind_Ret _ _ _ _ _ Hb).
    specialize (IH (l0 ++ [Some g]) ltac:(by rewrite <- app_assoc)). rewrite length_app in IH. cbn [length] in IH. rewrite Nat.add_1_r in IH. rewrite IH.
    destruct (list_find _ l) as [[i y]|]; [|done]. cbn. by rewrite Nat.add_succ_r.
  - rewrite decide_True by done. rewrite (bind_Ret _ _ _ _ _ Hb). by rewrite Nat.add_0_r.
Qed.
Lemma fdalloc_spec f (u : sys T D) : length (ofile u) = 16%nat → ∃ u', fdalloc f u = Ret (first_closed (ofile u)) u' ∧
  ofile u' = if decide (first_closed (ofile u) = -1) then ofile u else <[Z.to_nat (first_closed (ofile u)) := Some f]> (ofile u).
Proof.
  intros Hl. unfold fdalloc. rewrite (seqZ_all (ofile u)) by done. change (λ fd : Z, _) with (try_fd f) at 1.
  pose proof (try_fds f u (ofile u) [] eq_refl) as Hf. cbn [length Nat.add] in Hf. unfold first_closed.
  destruct (list_find _ _) as [[i y]|]; rewrite (bind_Ret _ _ _ _ _ Hf).
  - eexists. split; [done|]. cbn. rewrite decide_False by lia. by rewrite Nat2Z.id.
  - exists u. split; [done|]. by rewrite decide_True.
Qed.
(** C32: the calls that 02_New_SysCall adds.  On a table of 64 processes with 16 descriptors each, getofilecnt returns the number of
    open descriptors of the first process with the given id and getofilenext its first closed one, and -1 if there is no such
    process or argument, or no closed descriptor; nothing changes.  For the calling process the descriptor that getofilenext returns
    is the one that the next fdalloc (of open, dup or pipe) hands out, after which getofilecnt counts one more. *)
Theorem open_file_calls s : table_ok s →
  let pid := argint 0 (user s) in
  (∀ o, pid = Ret o (user s) →
    sys_getofilecnt s = Ret (match o ≫= slot_of s with Some p => open_count (ofile_of s p) | None => -1 end) s ∧
    sys_getofilenext s = Ret (match o ≫= slot_of s with Some p => first_closed (ofile_of s p) | None => -1 end) s) ∧
  (∀ n f, pid = Ret (Some n) (user s) → slot_of s n = Some (cur s) →
    ∃ u', sys_getofilenext s = Ret (first_closed (ofile (user s))) s ∧ fdalloc f (user s) = Ret (first_closed (ofile (user s))) u' ∧
      open_count (ofile u') = open_count (ofile (user s)) + if decide (first_closed (ofile (user s)) = -1) then 0 else 1).
Proof.
  intros Hs pid. assert (∀ o, pid = Ret o (user s) →
    sys_getofilecnt s = Ret (match o ≫= slot_of s with Some p => open_count (ofile_of s p) | None => -1 end) s ∧
    sys_getofilenext s = Ret (match o ≫= slot_of s with Some p => first_closed (ofile_of s p) | None => -1 end) s) as Hcalls.
  { intros o Ho. assert (zoom user set_user (argint 0) s = Ret o s) as Ha by (unfold zoom; fold pid; rewrite Ho; by destruct s).
    unfold sys_getofilecnt, sys_getofilenext. rewrite !(bind_Ret _ _ _ _ _ Ha). destruct o as [n|]; [|done]. cbn [mbind option_bind].
    rewrite !(bind_Ret _ _ _ _ _ (getprocbyid_spec s n Hs)). destruct (slot_of s n) as [p|] eqn:Hp; [|done].
    pose proof (slot_of_bounds s n p Hs Hp) as Hpb. pose proof (tab_files _ Hs p Hpb) as Hl. rewrite !(seqZ_all (ofile_of s p) NOFILE) by done. split.
    - by rewrite (count_open_spec s p (ofile_of s p) []) by done.
    - erewrite bind_Ret by (apply (for_find_list (λ f, f = None) _ (ofile_of s p) []);
        intros i f Hi; erewrite bind_Ret by (by apply p_ofile_spec); by destruct f). unfold first_closed. by destruct (list_find _ _) as [[i x]|]. }
  split; [done|]. intros n f Ho Hn. destruct (Hcalls _ Ho) as [_ Hnext]. cbn [mbind option_bind] in Hnext. rewrite Hn in Hnext.
  assert (ofile_of s (cur s) = ofile (user s)) as Hcur by (unfold ofile_of; by rewrite Z.eqb_refl).
  pose proof (slot_of_bounds s n _ Hs Hn) as Hpb. pose proof (tab_files _ Hs _ Hpb) as Hl. rewrite Hcur in *.
  destruct (fdalloc_spec f (user s) Hl) as (u' & Hf & Hu'). exists u'. split; [done|]. split; [done|]. rewrite Hu'. clear -Hl.
  unfold first_closed. destruct (list_find _ _) as [[i x]|] eqn:E; [|rewrite !decide_True by done; lia].
  rewrite !decide_False by lia. rewrite Nat2Z.id. apply list_find_Some in E as (Hi & -> & _).
  unfold open_count. rewrite <- (take_drop_middle _ _ _ Hi) at 2. rewrite insert_take_drop by (by eapply lookup_lt_Some).
  rewrite !filter_app, !filter_cons, !length_app. rewrite decide_True by (by eexists). rewrite decide_False by (by intros []). cbn [length]. lia.
Qed.
End spec.

(** Two processes; the one that calls asks for itself. *)
Definition two_files : list (option nat) := [Some 0%nat; None; Some 2%nat] ++ replicate 13 None.
Definition two_procs : ptab () () :=
  mkPtab ([(1, replicate 16 None); (7, two_files)] ++ replicate 62 (0, replicate 16 None)) 1
    (mkSys two_files (λ a, if a =? 2004 then 7 else 0) 4096 2000 0 (mkFiles [] ∅ false (mkFs [] (mkSb 0 0 0 0 0 0 0) 0 0 0 () ()))).
Lemma two_procs_ok : table_ok two_procs.
Proof.
  constructor; [done|]. intros p Hp. unfold ofile_of. destruct (p =? cur two_procs); [done|].
  destruct (slots two_procs !! Z.to_nat p) as [x|] eqn:E.
  - assert (Forall (λ x, length (snd x) = 16%nat) (slots two_procs)) as Hall.
    { unfold two_procs. cbn [slots]. apply Forall_app. split; [repeat constructor|]. by apply Forall_replicate. }
    rewrite Forall_forall in Hall. cbn. apply Hall. by eapply list_elem_of_lookup_2.
  - apply lookup_ge_None in E. unfold NPROC in Hp. cbn in E. lia.
Qed.
Lemma open_file_calls_witness : sys_getofilecnt two_procs = Ret 2 two_procs ∧ sys_getofilenext two_procs = Ret 1 two_procs ∧
  ∃ u', fdalloc 5 (user two_procs) = Ret 1 u' ∧ open_count (ofile u') = 3.
Proof.
  destruct (open_file_calls two_procs two_procs_ok) as [Hc Hn]. destruct (Hc (Some 7) eq_refl) as [H1 H2]. split; [exact H1|]. split; [exact H2|].
  destruct (Hn 7 5%nat eq_refl eq_refl) as (u' & _ & Hf & Hu). exists u'. split; [exact Hf|exact Hu].
Defined.
(** An unused slot has the id 0, so that 0 counts as a process. *)
Example pid_zero_counts : sys_getofilecnt (set_user (mkSys two_files (λ _, 0) 4096 2000 0 (fls (user two_procs))) two_procs) =
  Ret 0 (set_user (mkSys two_files (λ _, 0) 4096 2000 0 (fls (user two_procs))) two_procs).
Proof. vm_compute. reflexivity. Qed.
