(* ===== verification/Grep.v ===== *)
(** * grep.c of the xv6 user programs: the matcher and the loop over the lines of a file

    A string is the list of its bytes and [re[0]], [re[1]] past the end are the NUL, so that the functions recurse on the
    lists.  The loop of [grep] runs on the buffer of 1024 bytes and on the reads it will be answered with: a regular
    file answers a read with as much as fits, a pipe or the console with less. *)

From S2P Require Import Prelude CText.

Notation cstr := (list Z).

(** ** The matcher *)
(** matchstar, for the rest [re] of the pattern: [here] is [matchhere(re, -)]. *)
Fixpoint matchstar (c : Z) (here : cstr → bool) (text : cstr) : bool :=
  here text ||
  match text with
  | [] => false
  | t :: text => ((t =? c) || (c =? 46)) && matchstar c here text
  end.
Fixpoint matchhere (re text : cstr) : bool :=
  match re with
  | [] => true
  | c :: re1 =>
      let one :=
        if (c =? 36) && match re1 with [] => true | _ => false end
        then match text with [] => true | _ => false end
        else match text with [] => false | t :: text => ((c =? 46) || (c =? t)) && matchhere re1 text end in
      match re1 with
      | d :: re2 => if d =? 42 then matchstar c (matchhere re2) text else one
      | [] => one
      end
  end.
Fixpoint match_from (re text : cstr) : bool :=
  matchhere re text || match text with [] => false | _ :: text => match_from re text end.
Definition match_ (re text : cstr) : bool :=
  match re with
  | c :: re1 => if c =? 94 then matchhere re1 text else match_from re text
  | [] => match_from re text
  end.

(** ** What a pattern means *)
(** A character ([.] is any) once or any number of times. *)
Inductive item := One (c : Z) | Star (c : Z).
Record regexp := Regexp { at_start : bool; items : list item; at_end : bool }.
Fixpoint parse_items (re : cstr) : list item * bool :=
  match re with
  | [] => ([], false)
  | c :: re1 =>
      let one := if (c =? 36) && match re1 with [] => true | _ => false end then ([], true)
                 else let '(l, e) := parse_items re1 in (One c :: l, e) in
      match re1 with
      | d :: re2 => if d =? 42 then let '(l, e) := parse_items re2 in (Star c :: l, e) else one
      | [] => one
      end
  end.
Definition parse (re : cstr) : regexp :=
  match re with
  | c :: re1 => if c =? 94 then let '(l, e) := parse_items re1 in Regexp true l e else let '(l, e) := parse_items re in Regexp false l e
  | [] => Regexp false [] false
  end.
Definition show_item (i : item) : cstr := match i with One c => [c] | Star c => [c; 42] end.
Definition show (r : regexp) : cstr :=
  (if at_start r then [94] else []) ++ (items r ≫= show_item) ++ (if at_end r then [36] else []).

Definition sees (c t : Z) : Prop := c = 46 ∨ c = t.
Inductive item_word : item → cstr → Prop :=
| word_one c t : sees c t → item_word (One c) [t]
| word_star c w : Forall (sees c) w → item_word (Star c) w.
Inductive word : list item → cstr → Prop :=
| word_nil : word [] []
| word_cons i l v w : item_word i v → word l w → word (i :: l) (v ++ w).
(** A part of the text is a word of the pattern. *)
Definition finds (r : regexp) (text : cstr) : Prop :=
  ∃ before w after, text = before ++ w ++ after ∧ word (items r) w ∧ (at_start r = true → before = []) ∧ (at_end r = true → after = []).

Lemma sees_eqb c t : ((c =? 46) || (c =? t)) = true ↔ sees c t.
Proof. unfold sees. rewrite orb_true_iff, !Z.eqb_eq. done. Qed.
(** The beginning of the text is a word of the items, and all of it if the pattern ends in a dollar. *)
Definition begins (l : list item) (e : bool) (text : cstr) : Prop :=
  ∃ w after, text = w ++ after ∧ word l w ∧ (e = true → after = []).
Lemma begins_nil e text : begins [] e text ↔ (e = true → text = []).
Proof.
  split.
  - intros (w & after & -> & Hw & He). inversion Hw. done.
  - intros He. exists [], text. split; [done|]. split; [constructor|done].
Qed.
Lemma begins_one c l e text : begins (One c :: l) e text ↔ ∃ t rest, text = t :: rest ∧ sees c t ∧ begins l e rest.
Proof.
  split.
  - intros (w & after & -> & Hw & He). inversion Hw as [|i l' v w' Hi Hw']; subst. inversion Hi as [c' t Ht|]; subst.
    exists t, (w' ++ after). split; [done|]. split; [done|]. by exists w', after.
  - intros (t & rest & -> & Ht & w & after & -> & Hw & He). exists (t :: w), after. split; [done|]. split; [|done].
    apply (word_cons (One c) l [t] w); [by constructor|done].
Qed.
Lemma begins_star c l e text : begins (Star c :: l) e text ↔ begins l e text ∨ ∃ t rest, text = t :: rest ∧ sees c t ∧ begins (Star c :: l) e rest.
Proof.
  split.
  - intros (w & after & -> & Hw & He). inversion Hw as [|i l' v w' Hi Hw']; subst. inversion Hi as [|c' v' Hv]; subst.
    destruct Hv as [|t v Ht Hv]; [left; by exists w', after|right]. exists t, (v ++ w' ++ after). split; [by rewrite <- app_assoc|]. split; [done|].
    exists (v ++ w'), after. split; [by rewrite app_assoc|]. split; [|done]. constructor; [by constructor|done].
  - intros [(w & after & -> & Hw & He)|(t & rest & -> & Ht & w & after & -> & Hw & He)].
    + exists w, after. split; [done|]. split; [|done]. apply (word_cons (Star c) l [] w); [by constructor|done].
    + inversion Hw as [|i l' v w' Hi Hw']; subst. inversion Hi as [|c' v' Hv]; subst.
      exists (t :: v ++ w'), after. split; [done|]. split; [|done]. apply (word_cons (Star c) l (t :: v) w'); [constructor; by constructor|done].
Qed.
Lemma matchstar_begins c here l e : (∀ text, here text = true ↔ begins l e text) → ∀ text, matchstar c here text = true ↔ begins (Star c :: l) e text.
Proof.
  intros Hh. induction text as [|t text IH]; cbn [matchstar]; rewrite orb_true_iff, Hh, begins_star.
  - split; [intros [?|?]; [by left|done]|]. intros [?|(t & rest & ? & _)]; [by left|done].
  - rewrite andb_true_iff, IH, orb_comm, (Z.eqb_sym t c), sees_eqb. split.
    + intros [?|[? ?]]; [by left|right]. by exists t, text.
    + intros [?|(t' & rest & [= <- <-] & ? & ?)]; [by left|by right].
Qed.
Lemma parse_items_cons c re : parse_items (c :: re) =
  match re with
  | [] => if c =? 36 then ([], true) else ([One c], false)
  | d :: re2 => if d =? 42 then ((λ l, Star c :: l) (parse_items re2).1, (parse_items re2).2) else (One c :: (parse_items re).1, (parse_items re).2)
  end.
Proof.
  destruct re as [|d re2]; cbn [parse_items].
  - rewrite andb_true_r. done.
  - rewrite andb_false_r. destruct (d =? 42); [by destruct (parse_items re2)|]. by destruct (match re2 with [] => _ | _ => _ end).
Qed.
Lemma matchhere_begins re : ∀ text, matchhere re text = true ↔ begins (parse_items re).1 (parse_items re).2 text.
Proof.
  induction re as [re IH] using (well_founded_ind (well_founded_ltof _ (@length Z))). unfold ltof in IH. intros text.
  destruct re as [|c re]; [cbn; rewrite begins_nil; done|]. rewrite parse_items_cons.
  assert (∀ text, match text with [] => false | t :: text => ((c =? 46) || (c =? t)) && matchhere re text end = true ↔
    begins (One c :: (parse_items re).1) (parse_items re).2 text) as Hone.
  { intros txt. rewrite begins_one. destruct txt as [|t rest]; [split; [done|by intros (? & ? & ? & _)]|].
    rewrite andb_true_iff, sees_eqb, IH by (cbn; lia). split; [intros []; by exists t, rest|]. by intros (? & ? & [= <- <-] & ? & ?). }
  destruct re as [|d re2]; cbn [matchhere].
  - rewrite andb_true_r. destruct (c =? 36); [|exact (Hone text)]. cbn [fst snd]. rewrite begins_nil. destruct text as [|x text]; split; try done. intros H. by discriminate H.
  - rewrite andb_false_r. destruct (d =? 42); [|exact (Hone text)]. cbn [fst snd]. apply matchstar_begins. intros txt. apply IH. cbn. lia.
Qed.
Lemma match_from_finds re text : match_from re text = true ↔ ∃ before rest, text = before ++ rest ∧ matchhere re rest = true.
Proof.
  induction text as [|t text IH]; cbn [match_from]; rewrite orb_true_iff.
  - split.
    + intros [?|?]; [|done]. by exists [], [].
    + intros (before & rest & Ht & Hm). symmetry in Ht. apply app_nil in Ht as [-> ->]. by left.
  - rewrite IH. split.
    + intros [?|(before & rest & -> & ?)]; [by exists [], (t :: text)|by exists (t :: before), rest].
    + intros ([|b before] & rest & Ht & Hm); [cbn in Ht; subst; by left|]. injection Ht as <- ->. right. by exists before, rest.
Qed.
Lemma match_finds re text : match_ re text = true ↔ finds (parse re) text.
Proof.
  assert (∀ r, match_from r text = true ↔ finds (Regexp false (parse_items r).1 (parse_items r).2) text) as Hfrom.
  { intros r. rewrite match_from_finds. split.
    - intros (before & rest & -> & Hm%matchhere_begins). destruct Hm as (w & after & -> & Hw & He). by exists before, w, after.
    - intros (before & w & after & -> & Hw & _ & He). exists before, (w ++ after). split; [done|]. apply matchhere_begins. by exists w, after. }
  unfold match_, parse. destruct re as [|c re]; [exact (Hfrom [])|]. destruct (c =? 94).
  - rewrite matchhere_begins. destruct (parse_items re) as [l e]. split.
    + intros (w & after & -> & Hw & He). by exists [], w, after.
    + intros (before & w & after & -> & Hw & Hs & He). cbn in Hs. rewrite Hs by done. by exists w, after.
  - rewrite Hfrom. by destruct (parse_items (c :: re)).
Qed.
Lemma show_parse_items re : ((parse_items re).1 ≫= show_item) ++ (if (parse_items re).2 then [36] else []) = re.
Proof.
  induction re as [re IH] using (well_founded_ind (well_founded_ltof _ (@length Z))). unfold ltof in IH.
  destruct re as [|c re]; [done|]. rewrite parse_items_cons. destruct re as [|d re2].
  - destruct (Z.eqb_spec c 36) as [->|]; done.
  - destruct (Z.eqb_spec d 42) as [->|]; cbn [fst snd mbind list_bind show_item app].
    + by rewrite (IH re2) by (cbn; lia).
    + by rewrite (IH (d :: re2)) by (cbn; lia).
Qed.
Lemma show_parse re : show (parse re) = re.
Proof.
  destruct re as [|c re]; [done|]. unfold parse. destruct (Z.eqb_spec c 94) as [->|].
  - pose proof (show_parse_items re) as H. destruct (parse_items re). cbn [show at_start items at_end app fst snd] in *. unfold show. cbn [at_start items at_end app]. by rewrite H.
  - pose proof (show_parse_items (c :: re)) as H. destruct (parse_items (c :: re)). unfold show. cbn [at_start items at_end app fst snd] in *. done.
Qed.

(** ** The loop over the lines *)
(** [buf] is the array, [input] what the next reads are answered with, [out] what is written to file 1. *)
Record gst := mkG { buf : list Z; input : list cstr; out : cstr }.
Definition store (i x : Z) : M gst () :=
  b ← gets buf;
  _ ← aget b i;
  modify (λ s, mkG (<[Z.to_nat i := x]> (buf s)) (input s) (out s)).
(** [read(fd, buf + m, n)] *)
Definition read_at (m n : Z) : M gst Z :=
  i ← gets input;
  match i with
  | [] => mret 0
  | c :: cs =>
      let d := take (Z.to_nat n) c in
      let r := drop (Z.to_nat n) c in
      modify (λ s, mkG (take (Z.to_nat m) (buf s) ++ d ++ drop (Z.to_nat m + length d) (buf s)) (match r with [] => cs | _ => r :: cs end) (out s)) ;;
      mret (Z.of_nat (length d))
  end.
(** [strchr(p, c)] on the bytes from [p], at index [i], on. *)
Fixpoint strchr (s : list Z) (c i : Z) : M gst (option Z) :=
  match s with
  | [] => fault "strchr runs off the buffer"
  | x :: s => if x =? 0 then mret None else if x =? c then mret (Some i) else strchr s c (i + 1)
  end.
Definition slice (b : list Z) (i j : Z) : list Z := take (Z.to_nat (j - i)) (drop (Z.to_nat i) b).
(** The inner loop; the result is p. *)
Fixpoint grep_lines (fuel : nat) (pattern : cstr) (p : Z) : M gst Z :=
  match fuel with
  | O => diverge
  | S f =>
      b ← gets buf;
      q ← strchr (drop (Z.to_nat p) b) 10 p;
      match q with
      | None => mret p
      | Some q =>
          store q 0 ;;
          b ← gets buf;
          when (match_ pattern (c_str (drop (Z.to_nat p) b)))
            (store q 10 ;;
             modify (λ s, mkG (buf s) (input s) (out s ++ slice (buf s) p (q + 1)))) ;;
          grep_lines f pattern (q + 1)
      end
  end.
Fixpoint grep_loop (fuel : nat) (pattern : cstr) (m : Z) : M gst () :=
  match fuel with
  | O => diverge
  | S f =>
      n ← read_at m (1024 - m - 1);
      if n <=? 0 then mret ()
      else
        let m := m + n in
        store m 0 ;;
        p ← grep_lines 1025 pattern 0;
        let m := if p =? 0 then 0 else m in
        if 0 <? m then
          modify (λ s, mkG (slice (buf s) p m ++ drop (Z.to_nat (m - p)) (buf s)) (input s) (out s)) ;;
          grep_loop f pattern (m - p)
        else grep_loop f pattern m
  end.
(** Every turn of the loop reads a byte. *)
Definition grep (pattern : cstr) : M gst () := i ← gets input; grep_loop (S (length (concat i))) pattern 0.

(** The complete lines of a text and what follows them. *)
Fixpoint split_lines (t : list Z) : list cstr * cstr :=
  match t with
  | [] => ([], [])
  | c :: t =>
      let '(ls, last) := split_lines t in
      if c =? 10 then ([] :: ls, last)
      else match ls with [] => ([], c :: last) | l :: ls => ((c :: l) :: ls, last) end
  end.
Definition matching (pattern : cstr) (ls : list cstr) : cstr :=
  concat ((λ l, l ++ [10]) <$> filter (λ l, match_ pattern l = true) ls).
Definition plain (l : list Z) : Prop := ∀ c, c ∈ l → c ≠ 10 ∧ c ≠ 0.

Lemma plain_nil : plain [].
Proof. by intros c ?%elem_of_nil. Qed.
Lemma split_plain l t : plain l → split_lines (l ++ 10 :: t) = (l :: (split_lines t).1, (split_lines t).2).
Proof.
  induction l as [|c l IH]; intros Hl; cbn [app split_lines]; [by destruct (split_lines t)|].
  rewrite IH by (intros d Hd; apply Hl; by right). by rewrite (proj2 (Z.eqb_neq c 10)) by (apply Hl; left).
Qed.
Lemma split_last l : plain l → split_lines l = ([], l).
Proof.
  induction l as [|c l IH]; intros Hl; cbn [split_lines]; [done|].
  rewrite IH by (intros d Hd; apply Hl; by right). by rewrite (proj2 (Z.eqb_neq c 10)) by (apply Hl; left).
Qed.
Lemma split_text ls last : Forall plain ls → plain last → split_lines (text ls last) = (ls, last).
Proof.
  intros Hls Hl. unfold text. induction Hls as [|l ls Hp Hls IH]; [by apply split_last|]. cbn [mbind list_bind]. rewrite <- !app_assoc. cbn [app].
  rewrite split_plain by done. by rewrite IH.
Qed.
Lemma text_cons l ls last : text (l :: ls) last = l ++ 10 :: text ls last.
Proof. unfold text. cbn [mbind list_bind]. by rewrite <- !app_assoc. Qed.
(** Every text without NUL is of this form. *)
Lemma text_split t : (∀ c, c ∈ t → c ≠ 0) → ∃ ls last, t = text ls last ∧ Forall plain ls ∧ plain last.
Proof.
  induction t as [|c t IH]; intros Hc; [exists [], []; split; [done|]; split; [done|apply plain_nil]|].
  destruct IH as (ls & last & -> & Hls & Hl); [intros d Hd; apply Hc; by right|].
  destruct (decide (c = 10)) as [->|Hn].
  - exists ([] :: ls), last. split; [done|]. split; [constructor; [apply plain_nil|done]|done].
  - assert (∀ l, plain l → plain (c :: l)) as Hp by (intros l Hp d [->|Hd]%elem_of_cons; [split; [done|apply Hc; left]|by apply Hp]).
    destruct Hls as [|l ls Hl' Hls].
    + exists [], (c :: last). split; [done|]. split; [done|by apply Hp].
    + exists ((c :: l) :: ls), last. split; [done|]. split; [constructor; [by apply Hp|done]|done].
Qed.

(** *** One turn *)
Lemma bind_gets {S A B} (f : S → A) (k : A → M S B) s : (gets f ≫= k) s = k (f s) s.
Proof. done. Qed.
Lemma bind_modify {S B} (f : S → S) (k : () → M S B) s : (modify f ≫= k) s = k () (f s).
Proof. done. Qed.
Lemma strchr_line l r i s : plain l → strchr (l ++ 10 :: r) 10 i s = Ret (Some (i + Z.of_nat (length l))) s.
Proof.
  revert i. induction l as [|c l IH]; intros i Hl; cbn [app strchr length].
  - cbn. do 2 f_equal. lia.
  - destruct (Hl c) as [H1 H2]; [left|]. rewrite (proj2 (Z.eqb_neq c 0)), (proj2 (Z.eqb_neq c 10)) by done.
    rewrite IH by (intros d Hd; apply Hl; by right). do 2 f_equal. lia.
Qed.
Lemma strchr_none l r i s : plain l → strchr (l ++ 0 :: r) 10 i s = Ret None s.
Proof.
  revert i. induction l as [|c l IH]; intros i Hl; cbn [app strchr]; [done|].
  destruct (Hl c) as [H1 H2]; [left|]. rewrite (proj2 (Z.eqb_neq c 0)), (proj2 (Z.eqb_neq c 10)) by done. apply IH. intros d Hd. apply Hl. by right.
Qed.
Lemma insert_at {A} (a b : list A) x y : <[length a := x]> (a ++ y :: b) = a ++ x :: b.
Proof. rewrite insert_app_r_alt by done. by rewrite Nat.sub_diag. Qed.
Lemma store_at a b i x y s : buf s = a ++ y :: b → i = Z.of_nat (length a) → store i x s = Ret () (mkG (a ++ x :: b) (input s) (out s)).
Proof.
  intros Hb ->. unfold store. rewrite bind_gets. rewrite (bind_Ret _ _ s y s).
  - unfold modify. by rewrite Hb, Nat2Z.id, insert_at.
  - unfold aget. destruct (Z.ltb_spec (Z.of_nat (length a)) 0); [lia|]. by rewrite Nat2Z.id, Hb, list_lookup_middle.
Qed.
Lemma c_str_at l r : plain l → c_str (l ++ 0 :: r) = l.
Proof.
  induction l as [|c l IH]; intros Hl; [done|]. cbn. destruct (Hl c) as [_ H]; [left|]. rewrite (proj2 (Z.eqb_neq c 0)) by done.
  f_equal. apply IH. intros d Hd. apply Hl. by right.
Qed.
Lemma grep_lines_spec pattern ls last : Forall plain ls → plain last → ∀ fuel pre junk s, buf s = pre ++ text ls last ++ 0 :: junk → (length ls < fuel)%nat →
  ∃ pre', length pre' = (length pre + length (text ls []))%nat ∧
    grep_lines fuel pattern (Z.of_nat (length pre)) s =
      Ret (Z.of_nat (length pre')) (mkG (pre' ++ last ++ 0 :: junk) (input s) (out s ++ matching pattern ls)).
Proof.
  intros Hls Hlast. induction Hls as [|l ls Hl Hls IH]; intros fuel pre junk s Hb Hf; (destruct fuel as [|fuel]; [cbn in Hf; lia|]); cbn [grep_lines];
    rewrite bind_gets, Nat2Z.id, Hb, drop_app_length.
  - exists pre. split; [cbn; lia|]. rewrite (bind_Ret _ _ _ _ _ (strchr_none _ _ _ _ Hlast)). cbn. rewrite app_nil_r. by destruct s; cbn in *; subst.
  - rewrite text_cons in Hb. rewrite (text_cons l ls last). rewrite <- app_assoc in Hb. cbn [app] in Hb. rewrite <- app_assoc. cbn [app]. rewrite (bind_Ret _ _ _ _ _ (strchr_line _ _ _ _ Hl)).
    set (rest := text ls last ++ 0 :: junk) in *.
    assert (∀ y, pre ++ l ++ y :: rest = (pre ++ l) ++ y :: rest) as Has by (intros y; by rewrite <- app_assoc).
    rewrite Has in Hb. rewrite (bind_Ret _ _ _ _ _ (store_at (pre ++ l) rest (Z.of_nat (length pre) + Z.of_nat (length l)) 0 10 s Hb ltac:(rewrite length_app; lia))).
    rewrite bind_gets. cbn [buf]. rewrite <- (Has 0), drop_app_length, c_str_at by done.
    set (s1 := mkG _ _ _).
    assert (∃ pre2, length pre2 = (length pre + S (length l))%nat ∧ when (match_ pattern l)
      (store (Z.of_nat (length pre) + Z.of_nat (length l)) 10 ;; modify (λ s, mkG (buf s) (input s) (out s ++ slice (buf s) (Z.of_nat (length pre)) (Z.of_nat (length pre) + Z.of_nat (length l) + 1)))) s1
      = Ret () (mkG (pre2 ++ rest) (input s) (out s ++ if match_ pattern l then l ++ [10] else []))) as (pre2 & Hlen2 & Hw).
    { destruct (match_ pattern l); cbn [when].
      - exists (pre ++ l ++ [10]). split; [rewrite !length_app; cbn; lia|].
        rewrite (bind_Ret _ _ _ _ _ (store_at (pre ++ l) rest (Z.of_nat (length pre) + Z.of_nat (length l)) 10 0 s1 (Has 0) ltac:(rewrite length_app; lia))). unfold modify. cbn [buf input out s1].
        do 2 f_equal; [by rewrite <- !app_assoc|]. f_equal. unfold slice. rewrite Nat2Z.id, <- Has, drop_app_length.
        replace (Z.to_nat _) with (length (l ++ [10])) by (rewrite length_app; cbn; lia). rewrite (cons_middle 10 l rest), app_assoc. apply take_app_length.
      - exists (pre ++ l ++ [0]). split; [rewrite !length_app; cbn; lia|]. cbn. unfold s1. do 2 f_equal; [|by rewrite app_nil_r].
        rewrite <- !app_assoc. done. }
    rewrite (bind_Ret _ _ _ _ _ Hw). set (s2 := mkG _ _ _). cbn in Hf.
    destruct (IH fuel pre2 junk s2 eq_refl ltac:(lia)) as (pre3 & Hlen3 & Hg).
    exists pre3. split; [rewrite Hlen3, Hlen2, text_cons, length_app; cbn; lia|].
    replace (Z.of_nat (length pre) + Z.of_nat (length l) + 1) with (Z.of_nat (length pre2)) by lia. rewrite Hg. unfold s2. cbn [input out].
    do 2 f_equal. rewrite <- app_assoc. f_equal. unfold matching. rewrite filter_cons. case_decide as Hm; [by rewrite Hm|]. by apply not_true_is_false in Hm as ->.
Qed.
Lemma c_str_prefix s : ∃ rest, s = c_str s ++ rest ∧ (rest = [] ∨ ∃ r, rest = 0 :: r).
Proof.
  induction s as [|c s (rest & Hs & Hr)]; [exists []; by split; [|left]|]. cbn. destruct (Z.eqb_spec c 0) as [->|]; [exists (0 :: s); eauto|].
  exists rest. split; [by rewrite Hs at 1|done].
Qed.
Lemma c_str_no0 s c : c ∈ c_str s → c ≠ 0.
Proof. induction s as [|d s IH]; cbn; [by intros ?%elem_of_nil|]. destruct (Z.eqb_spec d 0); [by intros ?%elem_of_nil|]. by intros [->|?]%elem_of_cons; [|apply IH]. Qed.

(** The buffer holds [k]. *)
Record holds (k : list Z) (s : gst) : Prop := {
  hold_len : length (buf s) = 1024%nat;
  hold_junk : ∃ junk, buf s = k ++ junk;
  hold_room : (length k <= 1022)%nat;
}.
(** The lines that a turn sees in the buffer, and what it leaves there: nothing, if there was no line. *)
Definition seen (t : list Z) : list cstr := (split_lines (c_str t)).1.
Definition carry (t : list Z) : list Z := match seen t with [] => [] | _ => drop (length (text (seen t) [])) t end.
Definition after_read (n : nat) (c : cstr) (cs : list cstr) : list cstr := match drop n c with [] => cs | r => r :: cs end.

Lemma grep_turn f pattern k s c cs : holds k s → input s = c :: cs → c ≠ [] → let t := k ++ take (1023 - length k) c in
  ∃ s', grep_loop (S f) pattern (Z.of_nat (length k)) s = grep_loop f pattern (Z.of_nat (length (carry t))) s' ∧
    holds (carry t) s' ∧ input s' = after_read (1023 - length k) c cs ∧ out s' = out s ++ matching pattern (seen t).
Proof.
  intros [Hlen [junk Hb] Hroom] Hin Hc t. cbn [grep_loop]. unfold read_at at 1.
  rewrite bind_Ret with (a := Z.of_nat (length (take (1023 - length k) c))) (s' := mkG (t ++ drop (length t) (buf s)) (after_read (1023 - length k) c cs) (out s)).
  2: { rewrite bind_gets, Hin. replace (Z.to_nat _) with (1023 - length k)%nat by lia.
    unfold after_read, modify, mbind, M_bind. cbn [mret M_ret]. do 2 f_equal; [|by destruct (drop (1023 - length k) c)]. rewrite Nat2Z.id, Hb, take_app_length.
    unfold t. by rewrite <- app_assoc, length_app. }
  set (d := take (1023 - length k) c) in *. assert (d ≠ []) as Hd.
  { unfold d. destruct c; [done|]. by destruct (1023 - length k)%nat eqn:E; [lia|]. }
  assert (0 < length d)%nat as Hd0 by (destruct d; [done|cbn; lia]). destruct (Z.leb_spec (Z.of_nat (length d)) 0); [lia|].
  assert (length t = length k + length d)%nat as Ht by apply length_app. assert (length t <= 1023)%nat as Ht1 by (unfold d in Ht; rewrite length_take in Ht; lia).
  destruct (drop (length t) (buf s)) as [|y junk2] eqn:Ed; [apply (f_equal length) in Ed; rewrite length_drop in Ed; cbn in Ed; lia|].
  assert (S (length junk2) = 1024 - length t)%nat as Hj2 by (apply (f_equal length) in Ed; rewrite length_drop, Hlen in Ed; cbn in Ed; lia).
  rewrite (bind_Ret _ _ _ _ _ (store_at t junk2 (Z.of_nat (length k) + Z.of_nat (length d)) 0 y (mkG (t ++ y :: junk2) (after_read (1023 - length k) c cs) (out s)) eq_refl ltac:(lia))). cbn [input out].
  clearbody t. destruct (text_split (c_str t) (c_str_no0 t)) as (ls & last & Htx & Hls & Hlast). pose proof (split_text ls last Hls Hlast) as Hsp. rewrite <- Htx in Hsp.
  assert (seen t = ls) as Hseen by (unfold seen; by rewrite Hsp). destruct (c_str_prefix t) as (rest & Htr & Hrest).
  assert (∃ junk3, t ++ 0 :: junk2 = text ls last ++ 0 :: junk3) as [junk3 Hj3].
  { assert (t ++ 0 :: junk2 = text ls last ++ rest ++ 0 :: junk2) as -> by (by rewrite app_assoc, <- Htx, <- Htr). destruct Hrest as [->|[r ->]]; [by exists junk2|]. by exists (r ++ 0 :: junk2). }
  assert (∀ l, text l last = text l [] ++ last) as Htl by (intros l; unfold text; by rewrite app_nil_r).
  assert (length (text ls []) <= length t)%nat as Hlt by (apply (f_equal length) in Htr; rewrite length_app, Htx, Htl, length_app in Htr; lia).
  assert (length ls <= length (text ls []))%nat as Hll.
  { clear. induction ls as [|l ls IH]; [done|]. rewrite text_cons, length_app. cbn. lia. }
  destruct (grep_lines_spec pattern ls last Hls Hlast 1025 [] junk3 (mkG (t ++ 0 :: junk2) (after_read (1023 - length k) c cs) (out s)) Hj3 ltac:(lia)) as (pre' & Hpre & Hg).
  cbn [length Nat.add Z.of_nat] in Hpre, Hg. rewrite (bind_Ret _ _ _ _ _ Hg). cbn [buf input out]. unfold carry. rewrite Hseen.
  assert (t ++ 0 :: junk2 = text ls [] ++ last ++ 0 :: junk3) as Hj4 by (by rewrite Hj3, Htl, <- app_assoc).
  assert (drop (length pre') (pre' ++ last ++ 0 :: junk3) = drop (length (text ls [])) t ++ 0 :: junk2) as Hdrop.
  { rewrite drop_app_length, <- drop_app_le by done. by rewrite Hj4, drop_app_length. }
  assert (length (pre' ++ last ++ 0 :: junk3) = 1024%nat) as Hlen'.
  { apply (f_equal length) in Hj4. rewrite !length_app in Hj4. rewrite !length_app. cbn [length] in *. lia. }
  destruct ls as [|l ls'].
  - rewrite Hpre. cbn [length text mbind list_bind app Z.of_nat]. eexists. split; [done|]. split; [|done]. constructor; [done|by eexists|cbn; lia].
  - assert (0 < length pre')%nat as Hp0 by (rewrite Hpre, text_cons, length_app; cbn; lia).
    destruct (Z.eqb_spec (Z.of_nat (length pre')) 0); [lia|]. rewrite (proj2 (Z.ltb_lt 0 _)) by lia.
    assert (length (drop (length (text (l :: ls') [])) t) = length t - length pre')%nat as Hk by (rewrite length_drop; lia).
    rewrite bind_modify. cbn [buf input out].
    set (s' := mkG _ _ _). exists s'. split; [|split; [|done]].
    + f_equal. rewrite Hk. lia.
    + constructor; [| |lia].
      * unfold s', slice. cbn [buf]. rewrite length_app, length_take, !length_drop, Hlen'. lia.
      * unfold s', slice. cbn [buf]. rewrite Nat2Z.id, Hdrop. eexists. f_equal. replace (Z.to_nat _) with (length (drop (length (text (l :: ls') [])) t)) by lia.
        apply take_app_length.
Qed.

(** *** To the end of the input *)
Lemma after_read_concat n c cs : concat (after_read n c cs) = drop n c ++ concat cs.
Proof. unfold after_read. by destruct (drop n c). Qed.
Lemma grep_loop_end f pattern (k : cstr) s : (input s = [] ∨ ∃ cs, input s = [] :: cs) → ∃ s', grep_loop (S f) pattern (Z.of_nat (length k)) s = Ret () s' ∧ out s' = out s.
Proof.
  intros Hin. cbn [grep_loop]. unfold read_at. destruct Hin as [Hin|[cs Hin]].
  - exists s. rewrite bind_Ret with (a := 0) (s' := s); [done|]. by rewrite bind_gets, Hin.
  - eexists. rewrite bind_Ret with (a := 0) (s' := mkG (take (Z.to_nat (Z.of_nat (length k))) (buf s) ++ [] ++ drop (Z.to_nat (Z.of_nat (length k)) + 0) (buf s)) cs (out s)); [done|].
    rewrite bind_gets, Hin. unfold mbind, M_bind, modify. by rewrite take_nil, drop_nil.
Qed.
Lemma grep_loop_total pattern f : ∀ k s, holds k s → (length (concat (input s)) < f)%nat → wp (grep_loop f pattern (Z.of_nat (length k))) (λ _ _, True) s.
Proof.
  induction f as [|f IH]; intros k s Hk Hf; [lia|]. destruct (input s) as [|c cs] eqn:Hin.
  { destruct (grep_loop_end f pattern k s) as (s' & Hg & _); [by left|]. by apply (wp_intro _ _ _ () s'). }
  destruct (decide (c = [])) as [->|Hc].
  { destruct (grep_loop_end f pattern k s) as (s' & Hg & _); [right; by exists cs|]. by apply (wp_intro _ _ _ () s'). }
  destruct (grep_turn f pattern k s c cs Hk Hin Hc) as (s' & Hg & Hk' & Hin' & _).
  unfold wp. rewrite Hg. apply (IH _ _ Hk'). rewrite Hin', after_read_concat. pose proof (hold_room _ _ Hk).
  cbn [concat] in Hf. rewrite length_app in Hf. rewrite length_app, length_drop. destruct c; [done|]. cbn [length] in *. lia.
Qed.
(** A prefix of a text ends within a line: the lines before it, and the rest. *)
Lemma split_prefix ls1 last1 r : Forall plain ls1 → split_lines (text ls1 last1 ++ r) = (ls1 ++ (split_lines (last1 ++ r)).1, (split_lines (last1 ++ r)).2).
Proof.
  induction 1 as [|l ls Hl Hls IH]; [apply surjective_pairing|]. rewrite text_cons, <- app_assoc. cbn [app]. rewrite split_plain by done. by rewrite IH.
Qed.
Lemma text_no0 ls last c : Forall plain ls → plain last → c ∈ text ls last → c ≠ 0.
Proof.
  intros Hls Hl. induction Hls as [|l ls Hp _ IH]; [intros H; exact (proj2 (Hl c H))|]. rewrite text_cons, elem_of_app, elem_of_cons. intros [H|[->|H]]; [exact (proj2 (Hp c H))|done|by apply IH].
Qed.
Lemma seen_plain t ls last : t = text ls last → Forall plain ls → plain last → seen t = ls.
Proof. intros -> Hls Hl. unfold seen. rewrite c_str_id by (intros c; by apply text_no0). by rewrite split_text. Qed.
Lemma text_of_split t : text (split_lines t).1 (split_lines t).2 = t.
Proof.
  induction t as [|c t IH]; [done|]. cbn [split_lines]. destruct (split_lines t) as [ls last]. cbn [fst snd] in IH. subst t.
  destruct (Z.eqb_spec c 10) as [->|]; [cbn [fst snd]; by rewrite text_cons|]. destruct ls as [|l ls]; [done|]. cbn [fst snd]. by rewrite !text_cons.
Qed.
Lemma matching_app pattern a b : matching pattern (a ++ b) = matching pattern a ++ matching pattern b.
Proof. unfold matching. by rewrite filter_app, fmap_app, concat_app. Qed.
(** If the text begins with a line that fits, the buffer holds a line after a read. *)
Lemma first_line_seen t r l ls last : plain t → t ++ r = text (l :: ls) last → (r = [] ∨ (length l < length t)%nat) → False.
Proof.
  intros Hp Ht Hr. rewrite text_cons in Ht. assert (length l < length t)%nat as Hl.
  { destruct Hr as [->|]; [|done]. rewrite app_nil_r in Ht. rewrite Ht, length_app. cbn. lia. }
  assert (t !! length l = Some 10) as H10 by (rewrite <- (lookup_app_l t r), Ht by done; by rewrite list_lookup_middle).
  apply list_elem_of_lookup_2 in H10. by apply Hp in H10 as [].
Qed.
(** A file: what is left of it, and what of it is in the buffer. *)
Lemma grep_loop_file pattern f : ∀ k r s ls last, holds k s → plain k → input s = after_read 0 r [] → (length r < f)%nat →
  k ++ r = text ls last → Forall (λ l, plain l ∧ (length l <= 1022)%nat) ls → plain last →
  wp (grep_loop f pattern (Z.of_nat (length k))) (λ _ s', out s' = out s ++ matching pattern ls) s.
Proof.
  induction f as [|f IH]; intros k r s ls last Hk Hkp Hin Hf Ht Hls Hlast; [lia|]. pose proof (hold_room _ _ Hk) as Hroom.
  assert (Forall plain ls) as Hlsp by (eapply Forall_impl; [exact Hls|by intros ? []]).
  destruct r as [|c r'] eqn:Hr.
  { destruct (grep_loop_end f pattern k s) as (s' & Hg & Ho); [by left|]. apply (wp_intro _ _ _ () s' Hg). rewrite Ho.
    rewrite app_nil_r in Ht. destruct ls as [|l ls]; [by rewrite app_nil_r|exfalso].
    apply (first_line_seen k [] l ls last Hkp); [by rewrite app_nil_r|by left]. }
  rewrite <- Hr in *. assert (r ≠ []) as Hrn by (by rewrite Hr).
  destruct (grep_turn f pattern k s r [] Hk) as (s' & Hg & Hk' & Hin' & Ho'); [by rewrite Hin, Hr|done|].
  set (n := (1023 - length k)%nat) in *. set (t := k ++ take n r) in *. assert (t ++ drop n r = text ls last) as Hsplit by (unfold t; by rewrite <- app_assoc, take_drop).
  assert (∀ d, d ∈ t ++ drop n r → d ≠ 0) as H0 by (intros d; rewrite Hsplit; by apply text_no0).
  destruct (text_split t) as (ls1 & last1 & Ht1 & Hls1 & Hlast1); [intros d Hd; apply H0, elem_of_app; by left|].
  pose proof (split_prefix ls1 last1 (drop n r) Hls1) as Hpre. rewrite <- Ht1, Hsplit, split_text in Hpre by done.
  pose proof (seen_plain t ls1 last1 Ht1 Hls1 Hlast1) as Hseen. unfold wp. rewrite Hg. fold (wp (grep_loop f pattern (Z.of_nat (length (carry t)))) (λ _ s', out s' = out s ++ matching pattern ls) s').
  assert (length (drop n r) < f)%nat as Hf' by (rewrite length_drop, Hr in *; cbn in *; lia).
  assert (input s' = after_read 0 (drop n r) []) as Hin2 by (rewrite Hin'; unfold after_read; by rewrite drop_0).
  destruct ls1 as [|l1 ls1].
  - assert (ls = []) as ->.
    { destruct ls as [|l ls]; [done|exfalso]. cbn in Ht1. apply (first_line_seen t (drop n r) l ls last); [by rewrite Ht1|done|].
      apply Forall_cons in Hls as [[_ Hl] _]. destruct (decide (length r <= n)%nat); [left; by apply drop_ge|right].
      unfold t. rewrite length_app, length_take. lia. }
    assert (carry t = []) as Hc by (unfold carry; by rewrite Hseen). rewrite Hc in *.
    assert (plain (drop n r)) as Hpl by (intros d Hd; apply Hlast; change last with (text [] last); rewrite <- Hsplit; apply elem_of_app; by right).
    eapply wp_mono; [by apply (IH [] (drop n r) s' [] (drop n r) Hk' plain_nil Hin2 Hf')|]. intros [] s2 Hs2. cbn beta in Hs2 |- *. rewrite Hs2, Ho', Hseen. by rewrite !app_nil_r.
  - assert (carry t = last1) as Hc.
    { unfold carry. rewrite Hseen, Ht1. unfold text. rewrite app_nil_r. apply drop_app_length. }
    rewrite Hc in *. injection Hpre as Hpre1 Hpre2.
    eapply wp_mono; [apply (IH last1 (drop n r) s' (split_lines (last1 ++ drop n r)).1 last Hk' Hlast1 Hin2 Hf')|].
    + rewrite Hpre2. symmetry. apply text_of_split.
    + rewrite Hpre1 in Hls. by apply Forall_cons in Hls as [_ [_ ?]%Forall_app].
    + done.
    + intros [] s2 Hs2. cbn beta in Hs2 |- *. rewrite Hs2, Ho', Hseen, <- app_assoc, <- matching_app. by rewrite Hpre1.
Qed.

(** ** What grep prints *)
#[export] Instance finds_dec r text : Decision (finds (parse r) text).
Proof. destruct (decide (match_ r text = true)) as [H|H]; [left|right]; by rewrite <- match_finds. Defined.

(** C34: the matcher of grep.c finds a pattern in a text exactly if a part of the text is a word of the pattern: a sequence of
    characters, dots and starred ones, at the beginning of the text if the pattern begins with [^] and up to its end if it ends
    with [$]; every string is such a pattern. *)
Theorem match_exact re text : (match_ re text = true ↔ finds (parse re) text) ∧ show (parse re) = re.
Proof. split; [apply match_finds|apply show_parse]. Qed.

(** C35: grep returns whatever it is given to read (NULs, lines of any length, short reads).  On a file without NULs whose
    lines fit the buffer it prints exactly the lines in which the pattern is found, in their order, but never what follows
    the last newline. *)
Theorem grep_prints pattern s : length (buf s) = 1024%nat →
  wp (grep pattern) (λ _ _, True) s ∧
  ∀ ls last, Forall (λ l, plain l ∧ (length l <= 1022)%nat) ls → plain last → input s = [text ls last] →
    wp (grep pattern) (λ _ s', out s' = out s ++ concat ((λ l, l ++ [10]) <$> filter (λ l, finds (parse pattern) l) ls)) s.
Proof.
  intros Hlen. assert (holds [] s) as Hk by (split; [done|by exists (buf s)|cbn; lia]). unfold grep. split.
  - apply wp_bind, wp_gets. apply (grep_loop_total pattern _ [] s Hk). lia.
  - intros ls last Hls Hlast Hin. apply wp_bind, wp_gets. rewrite Hin. cbn [concat]. rewrite app_nil_r.
    assert (filter (λ l, finds (parse pattern) l) ls = filter (λ l, match_ pattern l = true) ls) as ->.
    { apply filter_ext_in. intros l _. symmetry. apply match_finds. }
    destruct (text ls last) as [|c r] eqn:Ht.
    + destruct (grep_loop_end (length (@nil Z)) pattern [] s) as (s' & Hg & Ho); [right; by exists []|]. apply (wp_intro _ _ _ () s' Hg). rewrite Ho.
      destruct Hls as [|l ls [Hp _] Hls]; [by rewrite app_nil_r|]. rewrite text_cons in Ht. by destruct l.
    + apply (grep_loop_file pattern _ [] (c :: r) s ls last); try done; [apply plain_nil|lia].
Qed.

Lemma plain_check l : forallb (λ c, negb (c =? 10) && negb (c =? 0)) l = true → plain l.
Proof. rewrite forallb_forall. intros H c Hc. apply list_elem_of_In in Hc. apply H in Hc. zbool. done. Qed.
(** Three lines and a half. *)
Definition poem : list cstr := [bytes "roses are red"; bytes "a rose"; bytes "rows"].
Definition on_input (i : list cstr) : gst := mkG (replicate 1024 7) i [].
Lemma grep_prints_witness : wp (grep (bytes "^ro.*s*e")) (λ _ s', out s' = bytes "roses are red" ++ [10]) (on_input [text poem (bytes "rose")]).
Proof.
  destruct (grep_prints (bytes "^ro.*s*e") (on_input [text poem (bytes "rose")]) eq_refl) as [_ H].
  eapply wp_mono; [apply (H poem (bytes "rose"))|].
  - repeat (constructor; [split; [by apply plain_check|apply Nat.leb_le; reflexivity]|]). constructor.
  - by apply plain_check.
  - reflexivity.
  - intros [] s' Hs. exact Hs.
Defined.
(** A line of which a read brings only a part without the end of another line is lost, although what follows matches. *)
Example grep_short_read : wp (grep (bytes "rose")) (λ _ s', out s' = []) (on_input [bytes "a ro"; bytes "se" ++ [10]]).
Proof. vm_compute. reflexivity. Qed.
(** Of a line that does not fit only what follows its first 1023 bytes is looked at, and printed. *)
Example grep_long_line : wp (grep (bytes "^rose$")) (λ _ s', out s' = bytes "rose" ++ [10]) (on_input [replicate 1023 97 ++ bytes "rose" ++ [10]]).
Proof. vm_compute. reflexivity. Qed.
