(* ===== verification/Umalloc.v ===== *)
(** * umalloc.c: the allocator of the user programs

    The free blocks are a ring in the order of their addresses that starts at [base]; a block is its header, of 8 bytes,
    and what follows, [size] units of 8 bytes in all.  The memory is the headers' fields; what has never been written is
    not read.  The break grows by what the kernel gives. *)

From S2P Require Import Prelude.

(** sizeof(Header) *)
Definition UNIT : Z := 8.
Record umem := mkU { ptrs : gmap Z Z; sizes : gmap Z Z; freep : Z; brk : Z }.
Definition set_ptrs f (s : umem) : umem := mkU (f (ptrs s)) (sizes s) (freep s) (brk s).
Definition set_sizes f (s : umem) : umem := mkU (ptrs s) (f (sizes s)) (freep s) (brk s).
Definition set_freep v (s : umem) : umem := mkU (ptrs s) (sizes s) v (brk s).
Definition set_brk v (s : umem) : umem := mkU (ptrs s) (sizes s) (freep s) v.

Section code.
(** The address of the static header, and whether the kernel refuses to grow the break. *)
Context (base : Z) (refuses : Z → Z → bool).

Definition rd (f : umem → gmap Z Z) (p : Z) : M umem Z :=
  m ← gets f; match m !! p with Some x => mret x | None => fault "wild read" end.
Definition wr_ptr (p x : Z) : M umem () := modify (set_ptrs <[p := x]>).
Definition wr_size (p x : Z) : M umem () := modify (set_sizes <[p := x]>).
(** [p + n] for a pointer to a header. *)
Definition padd (p n : Z) : Z := u32 (p + UNIT * n).
(** The system call, with its int argument; -1 is the error.  A negative argument gives memory back, if that is what the
    sum in 32 bits means. *)
Definition sbrk (n : Z) : M umem Z :=
  b ← gets brk;
  let sz := u32 (b + n) in
  if 0 <? n then
    if refuses b n || (2 ^ 31 <=? sz) then mret (2 ^ 32 - 1) else modify (set_brk sz) ;; mret b
  else if (n <? 0) && (sz <? b) then
    if sz =? 0 then mret (2 ^ 32 - 1) else modify (set_brk sz) ;; mret b
  else mret b.

Fixpoint free_loop (fuel : nat) (bp p : Z) : M umem Z :=
  match fuel with
  | O => diverge
  | S f =>
      n ← rd ptrs p;
      if (p <? bp) && (bp <? n) then mret p
      else if (n <=? p) && ((p <? bp) || (bp <? n)) then mret p
      else free_loop f bp n
  end.
Definition free (ap : Z) : M umem () :=
  let bp := padd ap (-1) in
  fp ← gets freep;
  m ← gets ptrs;
  p ← free_loop (S (size m)) bp fp;
  n ← rd ptrs p;
  bs ← rd sizes bp;
  (if padd bp bs =? n then
     ns ← rd sizes n;
     wr_size bp (u32 (bs + ns)) ;;
     nn ← rd ptrs n;
     wr_ptr bp nn
   else wr_ptr bp n) ;;
  ps ← rd sizes p;
  (if padd p ps =? bp then
     bs ← rd sizes bp;
     wr_size p (u32 (ps + bs)) ;;
     bn ← rd ptrs bp;
     wr_ptr p bn
   else wr_ptr p bp) ;;
  modify (set_freep p).
Definition morecore (nu : Z) : M umem Z :=
  let nu := if nu <? 4096 then 4096 else nu in
  p ← sbrk (s32 (u32 (nu * UNIT)));
  if p =? 2 ^ 32 - 1 then mret 0
  else
    wr_size p nu ;;
    free (padd p 1) ;;
    gets freep.
Fixpoint malloc_loop (fuel : nat) (nunits prevp p : Z) : M umem Z :=
  match fuel with
  | O => diverge
  | S f =>
      sz ← rd sizes p;
      if nunits <=? sz then
        r ← (if sz =? nunits then
               n ← rd ptrs p;
               wr_ptr prevp n ;;
               mret p
             else
               wr_size p (sz - nunits) ;;
               let p := padd p (sz - nunits) in
               wr_size p nunits ;;
               mret p);
        modify (set_freep prevp) ;;
        mret (padd r 1)
      else
        fp ← gets freep;
        q ← (if p =? fp then morecore nunits else mret p);
        if (p =? fp) && (q =? 0) then mret 0
        else
          n ← rd ptrs q;
          malloc_loop f nunits q n
  end.
(** The loop goes round the ring at most twice. *)
Definition malloc (nbytes : Z) : M umem Z :=
  let nunits := u32 (u32 (nbytes + UNIT - 1) / UNIT + 1) in
  fp ← gets freep;
  when (fp =? 0)
    (modify (set_freep base) ;;
     wr_ptr base base ;;
     wr_size base 0) ;;
  prevp ← gets freep;
  p ← rd ptrs prevp;
  m ← gets ptrs;
  malloc_loop (2 * size m + 4) nunits prevp p.
End code.

(** ** The layout of the heap *)
(** Blocks are pairs of an address and a number of units. *)
Definition before (x y : Z * Z) : Prop := x.1 + UNIT * x.2 < y.1.
Definition away (x y : Z * Z) : Prop := x.1 + UNIT * x.2 <= y.1 ∨ y.1 + UNIT * y.2 <= x.1.
Fixpoint fsum (F : list (Z * Z)) : Z := match F with [] => 0 | x :: F => x.2 + fsum F end.
Definition usum (A : gmap Z Z) : Z := map_fold (λ _ u t, u + t) 0 A.

Lemma fsum_app F G : fsum (F ++ G) = fsum F + fsum G.
Proof. induction F as [|x F IH]; [done|]. cbn [app fsum]. lia. Qed.
Lemma usum_insert A h u : A !! h = None → usum (<[h := u]> A) = u + usum A.
Proof. intros Hh. unfold usum. rewrite map_fold_insert_L; [done| |done]. intros. lia. Qed.
Lemma usum_delete A h u : A !! h = Some u → usum A = u + usum (delete h A).
Proof. intros Hh. rewrite <- (usum_insert (delete h A) h u) by apply lookup_delete_eq. by rewrite insert_delete_id. Qed.

Section layout.
(** [lo] is the break before the first block. *)
Context (base lo : Z).
(** The ring [F] of free blocks from [base] on, the used blocks [A]: they do not touch each other, free ones do not follow upon
    each other without something between them, and together they fill the heap. *)
Record layout (A : gmap Z Z) (F : list (Z * Z)) (hi : Z) : Prop := {
  ly_head : ∃ G, F = (base, 0) :: G;
  ly_sorted : StronglySorted before F;
  ly_free x : x ∈ F → x = (base, 0) ∨ (lo <= x.1 ∧ 1 <= x.2 ∧ x.1 + UNIT * x.2 <= hi);
  ly_used h u : A !! h = Some u → lo <= h ∧ 1 <= u ∧ h + UNIT * u <= hi;
  ly_away x h u : x ∈ F → A !! h = Some u → away x (h, u);
  ly_away_used h u h' u' : A !! h = Some u → A !! h' = Some u' → h ≠ h' → away (h, u) (h', u');
  ly_total : UNIT * (fsum F + usum A) = hi - lo;
}.

Lemma sorted_split X m Y : StronglySorted before (X ++ m :: Y) ↔
  StronglySorted before X ∧ StronglySorted before Y ∧ (∀ x, x ∈ X → before x m) ∧ (∀ y, y ∈ Y → before m y) ∧ (∀ x y, x ∈ X → y ∈ Y → before x y).
Proof.
  rewrite StronglySorted_app, StronglySorted_cons, Forall_forall. split.
  - intros (H1 & H2 & H3 & H4). split; [done|]. split; [done|]. split; [intros x Hx; apply H1; [done|left]|]. split; [done|].
    intros x y Hx Hy. apply H1; [done|by right].
  - intros (H1 & H2 & H3 & H4 & H5). split; [|done]. intros x y Hx [->|Hy]%elem_of_cons; [by apply H3|by apply H5].
Qed.
(** Giving back a block, in the four cases. *)
Definition glue_right (bp u : Z) (Y : list (Z * Z)) : Z * list (Z * Z) :=
  match Y with (q, w) :: Y' => if bp + UNIT * u =? q then (u + w, Y') else (u, Y) | [] => (u, []) end.
Definition glue_left (p v bp u : Z) (Y : list (Z * Z)) : list (Z * Z) :=
  if p + UNIT * v =? bp then (p, v + u) :: Y else (p, v) :: (bp, u) :: Y.
Lemma layout_bounds A F hi x : 0 < base → base + UNIT <= lo → layout A F hi → x ∈ F → base <= x.1 ∧ 0 <= x.2 ∧ (x.1 = base → x.2 = 0) ∧ (1 <= x.2 → lo <= x.1 ∧ x.1 + UNIT * x.2 <= hi).
Proof. intros Hb Hl HL Hx. unfold UNIT in *. destruct (ly_free _ _ _ HL x Hx) as [->|?]; cbn; unfold UNIT in *; lia. Qed.

(** The used block becomes a free one of its own, weakly apart from its neighbours. *)
Lemma layout_right A X m Y bp u hi : 0 < base → base + UNIT <= lo → layout A (X ++ m :: Y) hi → A !! bp = Some u → m.1 < bp → (∀ y, y ∈ Y → bp < y.1) →
  let '(u', Y') := glue_right bp u Y in
  (∀ y, y ∈ Y' → before (bp, u') y) ∧ (∀ y, y ∈ Y' → y ∈ Y) ∧ StronglySorted before Y' ∧ u <= u' ∧ bp + UNIT * u' <= hi ∧ u' + fsum Y' = u + fsum Y ∧
  m.1 + UNIT * m.2 <= bp ∧ (∀ h w, A !! h = Some w → h ≠ bp → away (bp, u') (h, w)).
Proof.
  intros Hb Hlo HL HA Hm HY. pose proof (ly_sorted _ _ _ HL) as HS. apply sorted_split in HS as (HSX & HSY & HXm & HmY & HXY).
  destruct (ly_used _ _ _ HL bp u HA) as (Hub & Hu & Huh). unfold UNIT in *.
  assert (∀ x, x ∈ X ++ m :: Y → away x (bp, u)) as Haw by (intros x Hx; by apply (ly_away _ _ _ HL)).
  assert (m.1 + 8 * m.2 <= bp) as Hmb.
  { destruct (Haw m) as [?|Hx]; [apply elem_of_app; right; left|done|]. cbn in Hx. unfold UNIT in Hx. lia. }
  assert (∀ y, y ∈ Y → bp + 8 * u <= y.1) as HuY.
  { intros y Hy. destruct (Haw y) as [Hx|Hx]; [apply elem_of_app; right; by right| |exact Hx]. cbn in Hx. unfold UNIT in Hx. specialize (HY y Hy).
    destruct (layout_bounds A (X ++ m :: Y) hi y Hb Hlo HL) as (_ & ? & _); [apply elem_of_app; right; by right|]. lia. }
  assert (∀ h w, A !! h = Some w → h ≠ bp → away (bp, u) (h, w)) as Haw2 by (intros h w Hh Hne; by apply (ly_away_used _ _ _ HL)).
  unfold glue_right. destruct Y as [|[q w] Y].
  { split; [by intros ? ?%elem_of_nil|]. split; [done|]. split; [done|]. split; [lia|]. split; [lia|]. split; [done|]. split; [done|done]. }
  apply StronglySorted_cons in HSY as [Hq HSY]. rewrite Forall_forall in Hq. specialize (HuY (q, w) ltac:(left)) as Hbq. cbn in Hbq.
  destruct (layout_bounds A (X ++ m :: (q, w) :: Y) hi (q, w) Hb Hlo HL) as (Hqb & Hw & _ & Hqh); [apply elem_of_app; right; right; left|]. cbn in Hqb, Hw, Hqh. unfold UNIT in *.
  assert (1 <= w) as Hw1.
  { destruct (ly_free _ _ _ HL (q, w)) as [[= -> ->]|[_ [? _]]]; [apply elem_of_app; right; right; left|lia|done]. }
  destruct (Z.eqb_spec (bp + 8 * u) q) as [<-|Hne].
  - split; [|split; [intros y Hy; by right|split; [done|split; [lia|split; [lia|split; [cbn [fsum snd]; lia|split; [done|]]]]]]].
    + intros y Hy. specialize (Hq y Hy). unfold before in *. cbn in *. unfold UNIT in *. lia.
    + intros h w' Hh Hne. specialize (Haw2 h w' Hh Hne). assert (away (bp + 8 * u, w) (h, w')) as Haw3.
      { apply (ly_away _ _ _ HL); [apply elem_of_app; right; right; left|done]. }
      destruct (ly_used _ _ _ HL h w' Hh) as (_ & Hw' & _). unfold away in *. cbn in *. unfold UNIT in *. lia.
  - split; [|split; [done|split; [constructor; [done|by apply Forall_forall]|split; [lia|split; [lia|split; [done|split; [done|done]]]]]]].
    intros y [->|Hy]%elem_of_cons; unfold before; cbn; unfold UNIT.
    + lia.
    + specialize (Hq y Hy). unfold before in Hq. cbn in Hq. unfold UNIT in Hq. lia.
Qed.
Lemma glue_left_elem p v bp u Y x : x ∈ glue_left p v bp u Y → x ∈ Y ∨ x = (p, v) ∨ x = (bp, u) ∨ (p + UNIT * v = bp ∧ x = (p, v + u)).
Proof. unfold glue_left. destruct (Z.eqb_spec (p + UNIT * v) bp); rewrite !elem_of_cons; naive_solver. Qed.
Lemma layout_free A X p v Y bp u hi : 0 < base → base + UNIT <= lo → layout A (X ++ (p, v) :: Y) hi → A !! bp = Some u → p < bp → (∀ y, y ∈ Y → bp < y.1) →
  let '(u', Y') := glue_right bp u Y in layout (delete bp A) (X ++ glue_left p v bp u' Y') hi.
Proof.
  intros Hb Hlo HL HA Hp HY. pose proof (layout_right A X (p, v) Y bp u hi Hb Hlo HL HA Hp HY) as HR.
  destruct (glue_right bp u Y) as [u' Y']. destruct HR as (HbY & HYY & HSY & Hu & Hh & Hs & Hpv & Haw). cbn in Hpv.
  pose proof (ly_sorted _ _ _ HL) as HS. apply sorted_split in HS as (HSX & _ & HXm & HmY & HXY).
  destruct (ly_used _ _ _ HL bp u HA) as (Hbl & Hu1 & _).
  assert (∀ x, x ∈ X ++ (p, v) :: Y' → x ∈ X ++ (p, v) :: Y) as Hsub.
  { intros x. rewrite !elem_of_app, !elem_of_cons. intros [?|[?|?]]; [by left|by right; left|right; right; by apply HYY]. }
  assert ((p, v) ∈ X ++ (p, v) :: Y) as Hpin by (apply elem_of_app; right; left).
  destruct (layout_bounds _ _ _ _ Hb Hlo HL Hpin) as (Hpb & Hv & Hpb0 & Hpl). cbn in Hpb, Hv, Hpb0, Hpl.
  assert (∀ x, x ∈ X ++ glue_left p v bp u' Y' → x ∈ X ++ (p, v) :: Y' ∨ x = (bp, u') ∨ (p + UNIT * v = bp ∧ x = (p, v + u'))) as Hin.
  { intros x [Hx|Hx]%elem_of_app; [left; apply elem_of_app; by left|]. apply glue_left_elem in Hx as [Hx|[Hx|Hx]]; [| |by right].
    - left. apply elem_of_app. right. by right.
    - left. apply elem_of_app. right. subst. left. }
  assert (p + UNIT * v = bp → lo <= p ∧ 1 <= v) as Hlow.
  { intros Heq. destruct (decide (1 <= v)) as [?|?]; [by split; [apply Hpl|]|].
    destruct (ly_free _ _ _ HL (p, v) Hpin) as [[= -> ->]|(_ & Hv1 & _)]; [unfold UNIT in *; lia|by cbn in Hv1]. }
  constructor.
  - destruct (ly_head _ _ _ HL) as [G HG]. destruct X as [|x X]; [|injection HG as -> _; by eexists].
    cbn in HG |- *. injection HG as -> -> _. unfold glue_left. destruct (Z.eqb_spec (base + UNIT * 0) bp) as [Heq|]; [|by eexists].
    unfold UNIT in *. lia.
  - assert (∀ y, y ∈ Y' → before (p, v) y) as HmY' by (intros y Hy; by apply HmY, HYY).
    unfold glue_left. destruct (Z.eqb_spec (p + UNIT * v) bp) as [Heq|Hne]; apply sorted_split.
    + split; [done|]. split; [done|]. split; [exact HXm|]. split; [|intros x y Hx Hy; by apply HXY; [|apply HYY]].
      intros y Hy. specialize (HbY y Hy). unfold before, UNIT in *. cbn in *. lia.
    + split; [done|]. split; [by constructor; [|apply Forall_forall]|]. split; [exact HXm|]. split.
      * intros y [->|Hy]%elem_of_cons; [|by apply HmY']. unfold before, UNIT in *. cbn in *. lia.
      * intros x y Hx [->|Hy]%elem_of_cons; [|by apply HXY; [|apply HYY]]. specialize (HXm x Hx). unfold before, UNIT in *. cbn in *. lia.
  - intros x Hx. apply Hin in Hx as [Hx|[->|[Heq ->]]]; [by apply (ly_free _ _ _ HL), Hsub|right|right]; cbn; unfold UNIT in *; [lia|].
    specialize (Hlow Heq). lia.
  - intros h w [_ Hhw]%lookup_delete_Some. by apply (ly_used _ _ _ HL).
  - intros x h w Hx [Hne Hhw]%lookup_delete_Some. pose proof (λ y Hy, ly_away _ _ _ HL y h w Hy Hhw) as Haf. specialize (Haw h w Hhw ltac:(congruence)).
    apply Hin in Hx as [Hx|[->|[Heq ->]]]; [by apply Haf, Hsub|done|]. specialize (Haf _ Hpin).
    destruct (ly_used _ _ _ HL h w Hhw) as (_ & ? & _). unfold away, UNIT in *. cbn in *. lia.
  - intros h w h' w' [_ Hhw]%lookup_delete_Some [_ Hhw']%lookup_delete_Some Hne. by apply (ly_away_used _ _ _ HL).
  - pose proof (ly_total _ _ _ HL) as Ht. rewrite (usum_delete A bp u HA), !fsum_app in Ht. rewrite fsum_app.
    assert (fsum (glue_left p v bp u' Y') = v + u' + fsum Y') as -> by (unfold glue_left; destruct (_ =? bp); cbn [fsum snd]; lia).
    cbn [fsum snd] in Ht. unfold UNIT in *. lia.
Qed.

(** Taking a block, or its end. *)
Lemma layout_take A X p w Y n hi : layout A (X ++ (p, w) :: Y) hi → 0 < base → base + UNIT <= lo → 1 <= n <= w →
  layout (<[p + UNIT * (w - n) := n]> A) (X ++ (if w =? n then [] else [(p, w - n)]) ++ Y) hi ∧ A !! (p + UNIT * (w - n)) = None.
Proof.
  intros HL Hb Hlo Hn. set (r := p + UNIT * (w - n)).
  assert ((p, w) ∈ X ++ (p, w) :: Y) as Hpin by (apply elem_of_app; right; left).
  destruct (layout_bounds _ _ _ _ Hb Hlo HL Hpin) as (_ & _ & _ & Hpl). cbn in Hpl. destruct Hpl as [Hpl Hph]; [lia|].
  assert (∀ h u, A !! h = Some u → away (p, w) (h, u)) as Hpa by (intros h u; by apply (ly_away _ _ _ HL)).
  assert (∀ h u, A !! h = Some u → away (r, n) (h, u)) as Hra.
  { intros h u Hh. specialize (Hpa h u Hh). destruct (ly_used _ _ _ HL h u Hh) as (_ & ? & _). unfold away, r, UNIT in *. cbn in *. lia. }
  assert (A !! r = None) as Hr.
  { destruct (A !! r) as [u|] eqn:E; [|done]. specialize (Hra r u E). destruct (ly_used _ _ _ HL r u E) as (_ & ? & _). unfold away, UNIT in *. cbn in *. lia. }
  split; [|done]. set (R := if w =? n then [] else [(p, w - n)]).
  assert (∀ x, x ∈ R → x = (p, w - n) ∧ n < w) as HR by (intros x; unfold R; destruct (Z.eqb_spec w n); [by intros ?%elem_of_nil|intros ->%list_elem_of_singleton; split; [done|lia]]).
  pose proof (ly_sorted _ _ _ HL) as HS. apply sorted_split in HS as (HSX & HSY & HXm & HmY & HXY).
  assert (∀ x, x ∈ X ++ R ++ Y → x ∈ X ++ (p, w) :: Y ∨ x = (p, w - n) ∧ n < w) as Hin.
  { intros x. rewrite !elem_of_app, elem_of_cons. intros [?|[?%HR|?]]; tauto. }
  assert (∀ x, x ∈ X ++ R ++ Y → away x (r, n)) as Hrf.
  { intros x. rewrite !elem_of_app. intros [Hx|[[-> ?]%HR|Hx]].
    - specialize (HXm x Hx). unfold before, away, r, UNIT in *. cbn in *. lia.
    - unfold away, r, UNIT. cbn. lia.
    - specialize (HmY x Hx). unfold before, away, r, UNIT in *. cbn in *. lia. }
  assert (∀ x y, away x y → away y x) as Hsym by (unfold away; naive_solver).
  constructor.
  - destruct (ly_head _ _ _ HL) as [G HG]. destruct X as [|x X]; [|injection HG as -> _; by eexists].
    injection HG as -> -> _. lia.
  - apply StronglySorted_app. split; [|split; [done|]].
    + intros x y Hx [[-> _]%HR|Hy]%elem_of_app; [|by apply HXY]. exact (HXm x Hx).
    + apply StronglySorted_app. split; [|split; [unfold R; destruct (w =? n); repeat constructor|done]].
      intros x y [-> ?]%HR Hy. specialize (HmY y Hy). unfold before, UNIT in *. cbn in *. lia.
  - intros x [Hx|[-> ?]]%Hin; [by apply (ly_free _ _ _ HL)|right; cbn; unfold UNIT in *; lia].
  - intros h u [[<- <-]|[_ Hh]]%lookup_insert_Some; [unfold r, UNIT in *; lia|by apply (ly_used _ _ _ HL)].
  - intros x h u Hx [[<- <-]|[_ Hh]]%lookup_insert_Some; [by apply Hrf|]. apply Hin in Hx as [Hx|[-> ?]]; [by apply (ly_away _ _ _ HL)|].
    specialize (Hpa h u Hh). unfold away, UNIT in *. cbn in *. lia.
  - intros h u h' u' [[<- <-]|[_ Hh]]%lookup_insert_Some [[<- <-]|[_ Hh']]%lookup_insert_Some Hne; [done|by apply Hra|by apply Hsym, Hra|by apply (ly_away_used _ _ _ HL)].
  - pose proof (ly_total _ _ _ HL) as Ht. rewrite usum_insert by done. rewrite !fsum_app in *. cbn [fsum snd] in Ht.
    assert (fsum R = w - n) as -> by (unfold R; destruct (Z.eqb_spec w n); cbn; lia). lia.
Qed.
(** More of the heap: a used block at its end. *)
Lemma layout_grow A F hi hi' n : base + UNIT <= lo → layout A F hi → lo <= hi → 1 <= n → hi' = hi + UNIT * n → layout (<[hi := n]> A) F hi' ∧ A !! hi = None.
Proof.
  intros Hb HL Hlo Hn ->. assert (A !! hi = None) as Hh.
  { destruct (A !! hi) as [u|] eqn:E; [|done]. destruct (ly_used _ _ _ HL hi u E) as (_ & ? & ?). unfold UNIT in *. lia. }
  assert (∀ h u, A !! h = Some u → away (h, u) (hi, n)) as Hua by (intros h u E; destruct (ly_used _ _ _ HL h u E) as (_ & _ & ?); by left).
  assert (∀ x, x ∈ F → x.1 + UNIT * x.2 <= hi) as Hf.
  { intros x Hx. destruct (ly_free _ _ _ HL x Hx) as [->|(_ & _ & ?)]; [cbn; unfold UNIT in *; lia|done]. }
  assert (∀ x y, away x y → away y x) as Hsym by (unfold away; naive_solver).
  split; [|done]. constructor.
  - apply (ly_head _ _ _ HL).
  - apply (ly_sorted _ _ _ HL).
  - intros x Hx. destruct (ly_free _ _ _ HL x Hx) as [?|(? & ? & ?)]; [by left|right]. unfold UNIT in *. lia.
  - intros h u [[<- <-]|[_ E]]%lookup_insert_Some; [lia|]. destruct (ly_used _ _ _ HL h u E) as (? & ? & ?). unfold UNIT in *. lia.
  - intros x h u Hx [[<- <-]|[_ E]]%lookup_insert_Some; [left; by apply Hf|by apply (ly_away _ _ _ HL)].
  - intros h u h' u' [[<- <-]|[_ E]]%lookup_insert_Some [[<- <-]|[_ E']]%lookup_insert_Some Hne; [done|by apply Hsym, Hua|by apply Hua|by apply (ly_away_used _ _ _ HL)].
  - rewrite usum_insert by done. pose proof (ly_total _ _ _ HL). unfold UNIT in *. lia.
Qed.
End layout.

(** ** The ring in memory *)
Definition hd_addr (F : list (Z * Z)) (nxt : Z) : Z := match F with (b, _) :: _ => b | [] => nxt end.
Fixpoint linked (s : umem) (F : list (Z * Z)) (nxt : Z) : Prop :=
  match F with
  | [] => True
  | (b, u) :: F => ptrs s !! b = Some (hd_addr F nxt) ∧ sizes s !! b = Some u ∧ linked s F nxt
  end.
Lemma linked_app s X Y n : linked s (X ++ Y) n ↔ linked s X (hd_addr Y n) ∧ linked s Y n.
Proof.
  induction X as [|[b u] X IH]; cbn [app linked]; [tauto|]. rewrite IH.
  assert (hd_addr (X ++ Y) n = hd_addr X (hd_addr Y n)) as -> by (by destruct X as [|[]]). tauto.
Qed.
Lemma linked_ext s s' F n : (∀ b, b ∈ F.*1 → ptrs s' !! b = ptrs s !! b ∧ sizes s' !! b = sizes s !! b) → linked s F n → linked s' F n.
Proof.
  induction F as [|[b u] F IH]; intros Hb; [done|]. cbn [linked fmap list_fmap fst] in *. intros (H1 & H2 & H3).
  destruct (Hb b) as [-> ->]; [left|]. split; [done|]. split; [done|]. apply IH; [|done]. intros c Hc. apply Hb. by right.
Qed.
Lemma linked_size s F n : linked s F n → NoDup F.*1 → (length F <= size (ptrs s))%nat.
Proof.
  intros HF Hnd. rewrite <- size_dom, <- (length_fmap fst F), <- (size_list_to_set (C := gset Z) F.*1) by done.
  apply subseteq_size. intros b Hb%elem_of_list_to_set. apply elem_of_dom. clear Hnd. revert HF Hb.
  induction F as [|[c u] F IH]; [by intros _ ?%elem_of_nil|]. cbn. intros (H1 & _ & H3) [->|Hb]%elem_of_cons; [by eexists|by apply IH].
Qed.
Lemma rd_Ret f p x (s : umem) : f s !! p = Some x → rd f p s = Ret x s.
Proof. intros H. unfold rd, mbind, M_bind, gets. by rewrite H. Qed.
Lemma before_sorted X x Y : StronglySorted before (X ++ x :: Y) → (∀ y, y ∈ X ++ x :: Y → 0 <= y.2) → (∀ y, y ∈ X → y.1 < x.1) ∧ (∀ y, y ∈ Y → x.1 < y.1).
Proof.
  intros HS H0. apply sorted_split in HS as (_ & _ & HX & HY & _). split; intros y Hy.
  - specialize (HX y Hy). specialize (H0 y ltac:(apply elem_of_app; by left)). unfold before, UNIT in HX. lia.
  - specialize (HY y Hy). specialize (H0 x ltac:(apply elem_of_app; right; left)). unfold before, UNIT in HY. lia.
Qed.
Lemma before_NoDup F : StronglySorted before F → (∀ y, y ∈ F → 0 <= y.2) → NoDup F.*1.
Proof.
  induction F as [|x F IH]; intros HS H0; [constructor|]. destruct (before_sorted [] x F HS H0) as [_ Hx]. apply StronglySorted_cons in HS as [_ HS].
  cbn. constructor; [|apply IH; [done|intros y Hy; apply H0; by right]]. intros (y & Hy1 & Hy)%list_elem_of_fmap. specialize (Hx y Hy). lia.
Qed.

Section memory.
Context (base lo : Z) (Hbase : 0 < base) (Hlo : base + UNIT <= lo).
Record heap_ok (A : gmap Z Z) (F : list (Z * Z)) (s : umem) : Prop := {
  hp_layout : layout base lo A F (brk s);
  hp_linked : linked s F base;
  hp_freep : freep s ∈ F.*1;
  hp_used h u : A !! h = Some u → sizes s !! h = Some u;
  hp_brk : lo <= brk s < 2 ^ 31;
}.
Lemma hp_nonneg A F s x : heap_ok A F s → x ∈ F → base <= x.1 ∧ 0 <= x.2 ∧ x.1 + UNIT * x.2 <= brk s.
Proof.
  intros Hh Hx. pose proof (hp_brk _ _ _ Hh). destruct (ly_free _ _ _ _ _ (hp_layout _ _ _ Hh) x Hx) as [->|(? & ? & ?)]; cbn; unfold UNIT in *; lia.
Qed.
Lemma hp_NoDup A F s : heap_ok A F s → NoDup F.*1.
Proof. intros Hh. apply before_NoDup; [apply (ly_sorted _ _ _ _ _ (hp_layout _ _ _ Hh))|]. intros y Hy. by apply (hp_nonneg A F s). Qed.
Lemma hp_size A F s : heap_ok A F s → (length F <= size (ptrs s))%nat.
Proof. intros Hh. eapply linked_size; [apply (hp_linked _ _ _ Hh)|by eapply hp_NoDup]. Qed.
(** A used block is no free one. *)
Lemma hp_apart A F s h u : heap_ok A F s → A !! h = Some u → h ∉ F.*1 ∧ base < h.
Proof.
  intros Hh HA. destruct (ly_used _ _ _ _ _ (hp_layout _ _ _ Hh) h u HA) as (H1 & H2 & H3). unfold UNIT in *. split; [|lia].
  intros (x & -> & Hx)%list_elem_of_fmap. pose proof (ly_away _ _ _ _ _ (hp_layout _ _ _ Hh) x _ u Hx HA) as Hw.
  destruct (ly_free _ _ _ _ _ (hp_layout _ _ _ Hh) x Hx) as [->|(? & ? & ?)]; unfold away, UNIT in *; cbn in *; lia.
Qed.

(** *** free's loop *)
Lemma loop_up bp p v Y s G : ∀ f, linked s (G ++ (p, v) :: Y) base → (∀ x, x ∈ G → x.1 < p) → StronglySorted before (G ++ (p, v) :: Y) → (∀ y, y ∈ G ++ (p, v) :: Y → 0 <= y.2) →
  base <= p → p < bp → (∀ y, y ∈ Y → bp < y.1) → (length G < f)%nat → free_loop f bp (hd_addr (G ++ (p, v) :: Y) base) s = Ret p s.
Proof.
  induction G as [|[g w] G IH]; intros f HF HG HS H0 Hb Hp HY Hf; (destruct f as [|f]; [cbn in Hf; lia|]); cbn [app hd_addr free_loop] in *.
  - destruct HF as (Hn & _). rewrite (bind_Ret _ _ _ _ _ (rd_Ret ptrs p _ s Hn)). destruct Y as [|[y z] Y]; cbn [hd_addr].
    + rewrite (proj2 (Z.ltb_lt p bp)), (proj2 (Z.ltb_ge bp base)), (proj2 (Z.leb_le base p)) by lia. done.
    + specialize (HY (y, z) ltac:(left)). cbn in HY. rewrite (proj2 (Z.ltb_lt p bp)), (proj2 (Z.ltb_lt bp y)) by lia. done.
  - destruct HF as (Hn & _ & HF). rewrite (bind_Ret _ _ _ _ _ (rd_Ret ptrs g _ s Hn)).
    destruct (before_sorted [] (g, w) (G ++ (p, v) :: Y) HS H0) as [_ Hg]. apply StronglySorted_cons in HS as [_ HS].
    assert (hd_addr (G ++ (p, v) :: Y) base <= p ∧ g < hd_addr (G ++ (p, v) :: Y) base) as [Hn1 Hn2].
    { destruct G as [|[g' w'] G]; cbn [app hd_addr] in *; [split; [lia|]; apply (Hg (p, v)); left|].
      split; [|apply (Hg (g', w')); left]. specialize (HG (g', w') ltac:(right; left)). cbn in HG. lia. }
    set (n := hd_addr _ _) in *. rewrite (proj2 (Z.ltb_ge bp n)), (proj2 (Z.leb_gt n g)), andb_false_r by lia. cbn [andb].
    apply IH; try done; [intros x Hx; apply HG; by right|intros y Hy; apply H0; by right|cbn in Hf; lia].
Qed.
Lemma loop_wrap bp s G x : ∀ f, linked s (x :: G) base → StronglySorted before (x :: G) → (∀ y, y ∈ x :: G → 0 <= y.2) → base < bp → (∀ y, y ∈ x :: G → bp < y.1) →
  free_loop (S (length G) + f) bp x.1 s = free_loop f bp base s.
Proof.
  revert x. induction G as [|y G IH]; intros [g w] f HF HS H0 Hb Hbp; cbn [Nat.add free_loop fst length] in *.
  - destruct HF as (Hn & _). rewrite (bind_Ret _ _ _ _ _ (rd_Ret ptrs g _ s Hn)). cbn [hd_addr]. specialize (Hbp (g, w) ltac:(left)). cbn in Hbp.
    rewrite (proj2 (Z.ltb_ge g bp)), (proj2 (Z.ltb_ge bp base)) by lia. cbn [andb orb]. by rewrite andb_false_r.
  - destruct HF as (Hn & _ & HF). rewrite (bind_Ret _ _ _ _ _ (rd_Ret ptrs g _ s Hn)). pose proof (Hbp (g, w) ltac:(left)) as Hg. cbn in Hg.
    destruct (before_sorted [] (g, w) (y :: G) HS H0) as [_ Hgy]. specialize (Hgy y ltac:(left)). cbn in Hgy. destruct y as [y z]. cbn [hd_addr fst] in *.
    rewrite (proj2 (Z.ltb_ge g bp)), (proj2 (Z.leb_gt y g)) by lia. cbn [andb]. apply StronglySorted_cons in HS as [_ HS].
    apply (IH (y, z)); try done; [intros x Hx; apply H0; by right|intros x Hx; apply Hbp; by right].
Qed.
(** Where an address belongs in the ring. *)
Lemma split_at bp F : ∀ x, x.1 < bp → StronglySorted before (x :: F) → (∀ y, y ∈ x :: F → 0 <= y.2) → (∀ y, y ∈ F → y.1 ≠ bp) →
  ∃ X p v Y, x :: F = X ++ (p, v) :: Y ∧ p < bp ∧ ∀ y, y ∈ Y → bp < y.1.
Proof.
  induction F as [|y F IH]; intros [a w] Hx HS H0 Hne; [exists [], a, w, []; split; [done|]; split; [done|by intros y ?%elem_of_nil]|].
  destruct (decide (y.1 < bp)) as [Hy|Hy].
  - apply StronglySorted_cons in HS as [_ HS]. destruct (IH y Hy HS) as (X & p & v & Y & -> & Hp & HY); [intros z Hz; apply H0; by right|intros z Hz; apply Hne; by right|].
    by exists ((a, w) :: X), p, v, Y.
  - exists [], a, w, (y :: F). split; [done|]. split; [done|]. specialize (Hne y ltac:(left)). apply StronglySorted_cons in HS as [_ HS].
    destruct (before_sorted [] y F HS ltac:(intros z Hz; apply H0; by right)) as [_ Hyz]. intros z [->|Hz]%elem_of_cons; [lia|]. specialize (Hyz z Hz). lia.
Qed.
Lemma free_loop_finds A X p v Y s bp : heap_ok A (X ++ (p, v) :: Y) s → base < bp → p < bp → (∀ y, y ∈ Y → bp < y.1) →
  free_loop (S (size (ptrs s))) bp (freep s) s = Ret p s.
Proof.
  intros Hh Hb Hp HY. pose proof (hp_size _ _ _ Hh) as Hsz. rewrite length_app in Hsz. cbn in Hsz. set (m := size (ptrs s)) in *.
  pose proof (hp_linked _ _ _ Hh) as HF. pose proof (ly_sorted _ _ _ _ _ (hp_layout _ _ _ Hh)) as HS.
  assert (∀ y, y ∈ X ++ (p, v) :: Y → 0 <= y.2) as H0 by (intros y Hy; by apply (hp_nonneg _ _ _ y Hh)).
  destruct (before_sorted X (p, v) Y HS H0) as [HXp _]. cbn in HXp.
  assert (base <= p) as Hbp by (apply (hp_nonneg _ _ _ (p, v) Hh), elem_of_app; right; left).
  destruct (ly_head _ _ _ _ _ (hp_layout _ _ _ Hh)) as [G HG].
  pose proof (hp_freep _ _ _ Hh) as Hfr. rewrite fmap_app, fmap_cons in Hfr. apply elem_of_app in Hfr as [Hfr|[Hfr|Hfr]%elem_of_cons].
  - apply list_elem_of_fmap in Hfr as (x & -> & Hx). apply list_elem_of_split in Hx as (X1 & X2 & ->). rewrite <- app_assoc in HF, HS, H0. cbn [app] in HF, HS, H0.
    apply linked_app in HF as [_ HF]. destruct x as [x w]. apply (loop_up bp p v Y s ((x, w) :: X2)); try done.
    + intros y Hy. apply HXp, elem_of_app. by right.
    + apply StronglySorted_app in HS as (_ & _ & ?). done.
    + intros y Hy. apply H0, elem_of_app. by right.
    + rewrite length_app in Hsz. cbn in *. lia.
  - rewrite Hfr. cbn [fst]. apply linked_app in HF as [_ HF]. apply (loop_up bp p v Y s []); try done; [by intros y ?%elem_of_nil| | |cbn; lia].
    + apply StronglySorted_app in HS as (_ & _ & ?). done.
    + intros y Hy. apply H0, elem_of_app. by right.
  - apply list_elem_of_fmap in Hfr as (x & -> & Hx). apply list_elem_of_split in Hx as (Y1 & Y2 & ->).
    pose proof HF as HF'. rewrite app_comm_cons, app_assoc in HF. apply linked_app in HF as [_ HF].
    pose proof HS as HS'. rewrite app_comm_cons, app_assoc in HS. apply StronglySorted_app in HS as (_ & _ & HS).
    rewrite length_app in Hsz. cbn [length] in Hsz. replace (S m) with (S (length Y2) + (m - length Y2))%nat by lia. rewrite (loop_wrap bp s Y2 x); try done.
    + pose proof (loop_up bp p v (Y1 ++ x :: Y2) s X (m - length Y2)) as Hup. rewrite HG in Hup. cbn [hd_addr] in Hup. rewrite <- HG in Hup. apply Hup; try done. lia.
    + intros y Hy. apply H0, elem_of_app. right. right. apply elem_of_app. by right.
    + intros y Hy. apply HY, elem_of_app. by right.
Qed.

(** *** free *)
Lemma padd_small p n : 0 <= p + UNIT * n < 2 ^ 32 → padd p n = p + UNIT * n.
Proof. apply u32_small. Qed.
Lemma glue_left_big p v bp u Y : 0 <= v → ∃ x, x ∈ glue_left p v bp u Y ∧ u <= x.2.
Proof.
  intros Hv. unfold glue_left. destruct (_ =? bp); [exists (p, v + u); split; [left|cbn; lia]|exists (bp, u); split; [right; left|done]].
Qed.
(** The first half of free: what follows upon the block, and with its neighbour on the right. *)
Lemma free_right A X p v Y s bp u : heap_ok A (X ++ (p, v) :: Y) s → A !! bp = Some u → p < bp → (∀ y, y ∈ Y → bp < y.1) →
  let '(u', Y') := glue_right bp u Y in
  ∃ s', (if padd bp u =? hd_addr Y base then
      ns ← rd sizes (hd_addr Y base); wr_size bp (u32 (u + ns)) ;; nn ← rd ptrs (hd_addr Y base); wr_ptr bp nn
    else wr_ptr bp (hd_addr Y base)) s = Ret () s' ∧
    ptrs s' = <[bp := hd_addr Y' base]> (ptrs s) ∧ sizes s' = <[bp := u']> (sizes s) ∧ brk s' = brk s ∧ linked s Y' base.
Proof.
  intros Hh HA Hp HY. destruct (hp_apart _ _ _ _ _ Hh HA) as [_ Hb]. pose proof (hp_used _ _ _ Hh _ _ HA) as Hsz. pose proof (hp_brk _ _ _ Hh) as Hbrk.
  destruct (ly_used _ _ _ _ _ (hp_layout _ _ _ Hh) bp u HA) as (_ & Hu & Hub). unfold UNIT in Hub.
  rewrite padd_small by (unfold UNIT; lia). pose proof (hp_linked _ _ _ Hh) as HF. apply linked_app in HF as [_ [_ [_ HF]]].
  destruct Y as [|[q w] Y]; cbn [glue_right hd_addr] in *.
  - rewrite (proj2 (Z.eqb_neq (bp + UNIT * u) base)) by (unfold UNIT; lia). eexists. split; [done|]. cbn. by rewrite (insert_id (sizes s) bp u).
  - destruct HF as (Hq1 & Hq2 & HF). destruct (Z.eqb_spec (bp + UNIT * u) q) as [Heq|Hne].
    + rewrite (bind_Ret _ _ _ _ _ (rd_Ret sizes q w s Hq2)). unfold wr_size at 1, wr_ptr at 1. rewrite bind_Ret with (a := ()) (s' := set_sizes <[bp := u32 (u + w)]> s) by done.
      rewrite bind_Ret with (a := hd_addr Y base) (s' := set_sizes <[bp := u32 (u + w)]> s) by (by apply (rd_Ret ptrs)).
      destruct (hp_nonneg _ _ _ (q, w) Hh) as (Hqb & Hw & Hqh); [apply elem_of_app; right; right; left|]. cbn in *. unfold UNIT in *.
      eexists. split; [done|]. cbn. rewrite u32_small by lia. done.
    + eexists. split; [done|]. cbn. by rewrite (insert_id (sizes s) bp u).
Qed.
Lemma free_spec A F s bp u : heap_ok A F s → A !! bp = Some u →
  wp (free (bp + UNIT)) (λ _ s', ∃ F', heap_ok (delete bp A) F' s' ∧ brk s' = brk s ∧ (length F' <= S (length F))%nat ∧ ∃ x, x ∈ F' ∧ u <= x.2) s.
Proof.
  intros Hh HA. destruct (hp_apart _ _ _ _ _ Hh HA) as [HbF Hb]. pose proof (hp_brk _ _ _ Hh) as Hbrk.
  destruct (ly_used _ _ _ _ _ (hp_layout _ _ _ Hh) bp u HA) as (_ & Hu & Hub). unfold UNIT in Hub.
  destruct (ly_head _ _ _ _ _ (hp_layout _ _ _ Hh)) as [G HG].
  destruct (split_at bp G (base, 0)) as (X & p & v & Y & HF & Hp & HY); [done|rewrite <- HG; apply (ly_sorted _ _ _ _ _ (hp_layout _ _ _ Hh))| | |].
  { intros y Hy. apply (hp_nonneg _ _ _ y Hh). by rewrite HG. }
  { intros y Hy <-. apply HbF. rewrite HG. apply list_elem_of_fmap. exists y. split; [done|by right]. }
  assert (F = X ++ (p, v) :: Y) as -> by congruence. clear HG HF G.
  pose proof (free_right _ _ _ _ _ _ _ _ Hh HA Hp HY) as HR. pose proof (layout_free base lo _ _ _ _ _ _ _ _ Hbase Hlo (hp_layout _ _ _ Hh) HA Hp HY) as HL.
  pose proof (layout_right base lo _ _ _ _ _ _ _ Hbase Hlo (hp_layout _ _ _ Hh) HA Hp HY) as HR2.
  assert (length (glue_right bp u Y).2 <= length Y)%nat as Hlen by (destruct Y as [|[q w] Y]; unfold glue_right; [done|]; destruct (bp + UNIT * u =? q); cbn [snd length]; lia).
  destruct (glue_right bp u Y) as [u' Y']. destruct HR as (s1 & Hs1 & Hp1 & Hz1 & Hb1 & HY'). destruct HR2 as (HbY' & _ & _ & Huu & Hub' & _ & Hpv & _). cbn in Hpv.
  pose proof (hp_linked _ _ _ Hh) as HFl. apply linked_app in HFl as [HX HFl]. cbn [linked] in HFl. destruct HFl as (Hn & Hv & _). cbn [hd_addr] in HX.
  assert (p ≠ bp) as Hpb by lia. destruct (hp_nonneg _ _ _ (p, v) Hh) as (Hpb0 & Hv0 & _); [apply elem_of_app; right; left|]. cbn in Hpb0, Hv0.
  unfold free. unfold wp. rewrite padd_small by (unfold UNIT; lia). replace (bp + UNIT + UNIT * -1) with bp by (unfold UNIT; lia).
  unfold mbind at 1, M_bind at 1, gets at 1. unfold mbind at 1, M_bind at 1, gets at 1.
  rewrite (bind_Ret _ _ _ _ _ (free_loop_finds _ _ _ _ _ _ _ Hh Hb Hp HY)).
  rewrite (bind_Ret _ _ _ _ _ (rd_Ret ptrs p _ s Hn)). rewrite (bind_Ret _ _ _ _ _ (rd_Ret sizes bp _ s (hp_used _ _ _ Hh _ _ HA))).
  rewrite (bind_Ret _ _ _ _ _ Hs1). rewrite bind_Ret with (a := v) (s' := s1) by (apply (rd_Ret sizes); by rewrite Hz1, lookup_insert_ne).
  rewrite padd_small by (unfold UNIT in *; lia).
  assert (∃ s2, (if p + UNIT * v =? bp then bs ← rd sizes bp; wr_size p (u32 (v + bs)) ;; bn ← rd ptrs bp; wr_ptr p bn else wr_ptr p bp) s1 = Ret () s2 ∧
    brk s2 = brk s ∧ linked s2 (glue_left p v bp u' Y') base ∧ (∀ a, a ≠ p → a ≠ bp → ptrs s2 !! a = ptrs s !! a ∧ sizes s2 !! a = sizes s !! a)) as (s2 & Hs2 & Hb2 & Hl2 & Hext).
  { assert (NoDup ((X ++ glue_left p v bp u' Y').*1)) as Hnd.
    { apply before_NoDup; [apply (ly_sorted _ _ _ _ _ HL)|]. intros y Hy. destruct (ly_free _ _ _ _ _ HL y Hy) as [->|(_ & ? & _)]; [done|lia]. }
    rewrite fmap_app in Hnd. apply NoDup_app in Hnd as (_ & _ & Hnd).
    assert (∀ b, b ∈ Y'.*1 → b ≠ bp) as HnbY by (intros b (y & -> & Hy)%list_elem_of_fmap; specialize (HbY' y Hy); unfold before, UNIT in HbY'; cbn in HbY'; lia).
    unfold glue_left in *. destruct (Z.eqb_spec (p + UNIT * v) bp) as [Heq|Hne].
    - rewrite bind_Ret with (a := u') (s' := s1) by (apply (rd_Ret sizes); by rewrite Hz1, lookup_insert_eq).
      unfold wr_size at 1, wr_ptr at 1. rewrite bind_Ret with (a := ()) (s' := set_sizes <[p := u32 (v + u')]> s1) by done.
      rewrite bind_Ret with (a := hd_addr Y' base) (s' := set_sizes <[p := u32 (v + u')]> s1) by (apply (rd_Ret ptrs); cbn; by rewrite Hp1, lookup_insert_eq).
      eexists. split; [done|]. cbn. rewrite u32_small by (unfold UNIT in *; lia). split; [done|]. split.
      + rewrite !lookup_insert_eq. split; [done|]. split; [done|]. apply (linked_ext s); [|done]. intros b Hbn. cbn in Hnd. apply NoDup_cons in Hnd as [Hnp _].
        specialize (HnbY b Hbn). assert (b ≠ p) by (intros ->; done). cbn. by rewrite Hp1, Hz1, !lookup_insert_ne by congruence.
      + intros a Ha Hab. by rewrite Hp1, Hz1, !lookup_insert_ne by congruence.
    - eexists. split; [done|]. cbn. split; [done|]. split.
      + rewrite lookup_insert_eq, Hp1, Hz1, !(lookup_insert_ne _ bp p), !(lookup_insert_ne _ p bp), !lookup_insert_eq by congruence.
        split; [done|]. split; [done|]. split; [done|]. split; [done|]. apply (linked_ext s); [|done]. intros b Hbn. cbn in Hnd.
        apply NoDup_cons in Hnd as [Hnp _]. specialize (HnbY b Hbn). assert (b ≠ p) by (intros ->; apply Hnp; by right). cbn. by rewrite Hp1, Hz1, !lookup_insert_ne by congruence.
      + intros a Ha Hab. by rewrite Hp1, Hz1, !lookup_insert_ne by congruence. }
  rewrite (bind_Ret _ _ _ _ _ Hs2). unfold modify. exists (X ++ glue_left p v bp u' Y'). split; [constructor|].
  - cbn. by rewrite Hb2.
  - apply linked_app. split; [|by apply (linked_ext s2)]. assert (hd_addr (glue_left p v bp u' Y') base = p) as -> by (unfold glue_left; by destruct (_ =? bp)).
    apply (linked_ext s); [|done]. intros b Hbx. apply Hext.
    + intros ->. pose proof (hp_NoDup _ _ _ Hh) as Hnd. rewrite fmap_app in Hnd. apply NoDup_app in Hnd as (_ & Hnd & _). apply (Hnd p Hbx). left.
    + intros ->. apply HbF. rewrite fmap_app. apply elem_of_app. by left.
  - rewrite fmap_app. apply elem_of_app. right. unfold glue_left. destruct (_ =? bp); left.
  - intros h w [Hne Hw]%lookup_delete_Some. cbn. destruct (hp_apart _ _ _ _ _ Hh Hw) as [HhF _].
    destruct (Hext h) as [_ ->]; [intros ->; apply HhF; rewrite fmap_app; apply elem_of_app; right; left|done|by apply (hp_used _ _ _ Hh)].
  - cbn. by rewrite Hb2.
  - split; [by cbn|]. split; [|destruct (glue_left_big p v bp u' Y' Hv0) as (x & Hx & Hx2); exists x; split; [apply elem_of_app; by right|lia]].
    cbn [snd] in Hlen. rewrite !length_app. cbn [length]. unfold glue_left. destruct (_ =? bp); cbn [length]; lia.
Qed.

(** *** malloc's loop *)
Context (refuses : Z → Z → bool).
Definition last_addr (G : list (Z * Z)) (prev : Z) : Z := match last G with Some x => x.1 | None => prev end.
Lemma last_addr_cons x G prev : last_addr (x :: G) prev = last_addr G x.1.
Proof. unfold last_addr. rewrite last_cons. by destruct (last G). Qed.
(** Blocks that are too small and not freep are passed. *)
Lemma walk n s nxt G : ∀ f prev, linked s G nxt → (∀ x, x ∈ G → x.2 < n ∧ x.1 ≠ freep s) →
  malloc_loop refuses (length G + f) n prev (hd_addr G nxt) s = malloc_loop refuses f n (last_addr G prev) nxt s.
Proof.
  induction G as [|[b u] G IH]; intros f prev HG Hs; [done|]. cbn [length Nat.add hd_addr malloc_loop linked] in *. destruct HG as (Hp & Hu & HG).
  destruct (Hs (b, u)) as [Hn Hf]; [left|]. cbn in Hn, Hf. rewrite (bind_Ret _ _ _ _ _ (rd_Ret sizes b u s Hu)).
  rewrite (proj2 (Z.leb_gt n u)) by done. unfold mbind at 1, M_bind at 1, gets at 1. rewrite (proj2 (Z.eqb_neq b (freep s))) by done.
  rewrite bind_Ret with (a := b) (s' := s) by done. cbn [andb]. rewrite (bind_Ret _ _ _ _ _ (rd_Ret ptrs b _ s Hp)).
  rewrite IH by (try done; intros x Hx; apply Hs; by right). by rewrite last_addr_cons.
Qed.
(** What a successful call leaves. *)
Definition taken (A : gmap Z Z) (n : Z) (s : umem) (r : Z) (s' : umem) : Prop :=
  ∃ h F', r = h + UNIT ∧ A !! h = None ∧ heap_ok (<[h := n]> A) F' s' ∧ brk s' = brk s.
Lemma take_spec A X a va b w Y s n f : heap_ok A (X ++ (a, va) :: (b, w) :: Y) s → 1 <= n <= w → wp (malloc_loop refuses (S f) n a b) (taken A n s) s.
Proof.
  intros Hh Hn. pose proof (hp_linked _ _ _ Hh) as HF. apply linked_app in HF as [HX (Ha & Hva & Hb & Hw & HY)]. cbn [hd_addr] in *.
  pose proof (hp_brk _ _ _ Hh) as Hbrk. destruct (hp_nonneg _ _ _ (b, w) Hh) as (Hbb & _ & Hbw); [apply elem_of_app; right; right; left|]. cbn in Hbb, Hbw.
  assert (X ++ (a, va) :: (b, w) :: Y = (X ++ [(a, va)]) ++ (b, w) :: Y) as Has by (by rewrite <- app_assoc).
  pose proof (hp_layout _ _ _ Hh) as HL. rewrite Has in HL. apply (layout_take base lo _ _ _ _ _ n) in HL as [HL Hr]; [|done|done|done]. rewrite <- app_assoc in HL. cbn [app] in HL.
  pose proof (hp_NoDup _ _ _ Hh) as Hnd. rewrite fmap_app, !fmap_cons in Hnd. cbn [fst] in Hnd. apply NoDup_app in Hnd as (_ & HXn & Hnd).
  apply NoDup_cons in Hnd as [Hna Hnd]. apply NoDup_cons in Hnd as [Hnb _].
  cbn [malloc_loop]. unfold wp. rewrite (bind_Ret _ _ _ _ _ (rd_Ret sizes b w s Hw)). rewrite (proj2 (Z.leb_le n w)) by lia.
  assert (∀ h u, A !! h = Some u → h ≠ a ∧ h ≠ b) as HAab.
  { intros h u Hu. destruct (hp_apart _ _ _ _ _ Hh Hu) as [Hhf _]. rewrite fmap_app, !fmap_cons in Hhf. cbn [fst] in Hhf.
    split; intros ->; apply Hhf; apply elem_of_app; right; [left|right; left]. }
  assert (∀ c, c ∈ X.*1 → c ≠ a ∧ c ≠ b) as HXab by (intros c Hc; split; intros ->; apply (HXn _ Hc); [left|right; left]).
  destruct (Z.eqb_spec w n) as [->|Hne].
  - rewrite bind_Ret with (a := b) (s' := set_ptrs <[a := hd_addr Y base]> s).
    2: { by rewrite (bind_Ret _ _ _ _ _ (rd_Ret ptrs b _ s Hb)). }
    unfold modify at 1. rewrite bind_Ret with (a := ()) (s' := set_freep a (set_ptrs <[a := hd_addr Y base]> s)) by done.
    replace (b + UNIT * (n - n)) with b in * by lia. exists b, (X ++ (a, va) :: Y). split; [apply padd_small; unfold UNIT in *; lia|]. split; [done|]. split; [|done].
    constructor; cbn [brk freep set_freep set_ptrs sizes].
    + exact HL.
    + apply linked_app. cbn [linked hd_addr]. split; [apply (linked_ext s); [|done]; intros c Hc; destruct (HXab c Hc); cbn; by rewrite lookup_insert_ne|].
      cbn. rewrite lookup_insert_eq. split; [done|]. split; [done|]. apply (linked_ext s); [|done]. intros c Hc. cbn.
      rewrite lookup_insert_ne; [done|]. intros ->. apply Hna. by right.
    + rewrite fmap_app. apply elem_of_app. right. left.
    + intros h u [[<- <-]|[_ Hu]]%lookup_insert_Some; [done|by apply (hp_used _ _ _ Hh)].
    + done.
  - set (r := b + UNIT * (w - n)) in *. unfold wr_size at 1. rewrite bind_Ret with (a := r) (s' := set_sizes <[r := n]> (set_sizes <[b := w - n]> s)).
    2: { rewrite bind_Ret with (a := ()) (s' := set_sizes <[b := w - n]> s) by done. rewrite padd_small by (unfold UNIT in *; lia). done. }
    unfold modify at 1. set (s1 := set_sizes <[r := n]> (set_sizes <[b := w - n]> s)).
    rewrite bind_Ret with (a := ()) (s' := set_freep a s1) by done.
    exists r, (X ++ (a, va) :: (b, w - n) :: Y). split; [apply padd_small; unfold r, UNIT in *; lia|]. split; [done|]. split; [|done].
    assert (∀ x, x ∈ X ++ (a, va) :: (b, w - n) :: Y → x.1 ≠ r) as Hrf.
    { intros x Hx <-. pose proof (ly_away _ _ _ _ _ HL x x.1 n Hx ltac:(by rewrite lookup_insert_eq)) as Hw'.
      destruct (ly_free _ _ _ _ _ HL x Hx) as [->|(_ & Hx2 & _)]; [|unfold away, UNIT in *; cbn in *; lia].
      destruct (ly_used _ _ _ _ _ HL base n) as [? _]; [by rewrite lookup_insert_eq|]. unfold UNIT in *. lia. }
    constructor; cbn [brk freep set_freep set_sizes s1].
    + exact HL.
    + apply linked_app. cbn [linked hd_addr]. split.
      * apply (linked_ext s); [|done]. intros c Hc. destruct (HXab c Hc). cbn. apply list_elem_of_fmap in Hc as (x & -> & Hx).
        rewrite !lookup_insert_ne; [done|done|apply not_eq_sym, Hrf, elem_of_app; by left].
      * cbn. pose proof (Hrf (a, va) ltac:(apply elem_of_app; right; left)) as Hra. pose proof (Hrf (b, w - n) ltac:(apply elem_of_app; right; right; left)) as Hrb. cbn in Hra, Hrb.
        rewrite !(lookup_insert_ne _ r) by congruence. rewrite lookup_insert_eq. rewrite lookup_insert_ne by (intros ->; apply Hna; left).
        split; [done|]. split; [done|]. split; [done|]. split; [done|]. apply (linked_ext s); [|done]. intros c Hc. cbn.
        assert (c ≠ b) by (by intros ->). apply list_elem_of_fmap in Hc as (x & -> & Hx).
        rewrite !lookup_insert_ne; [done|done|apply not_eq_sym, Hrf, elem_of_app; right; right; by right].
    + rewrite fmap_app. apply elem_of_app. right. left.
    + intros h u [[<- <-]|[Hrh Hu]]%lookup_insert_Some; cbn; [by rewrite lookup_insert_eq|].
      rewrite !lookup_insert_ne by (first [done|apply not_eq_sym; by apply (HAab h u)]). by apply (hp_used _ _ _ Hh).
    + done.
Qed.

(** *** The search *)
Lemma first_big n (L : list (Z * Z)) : (∃ x, x ∈ L ∧ n <= x.2) → ∃ G b w H, L = G ++ (b, w) :: H ∧ (∀ x, x ∈ G → x.2 < n) ∧ n <= w.
Proof.
  induction L as [|[b w] L IH]; intros (x & Hx & Hn); [by apply elem_of_nil in Hx|]. destruct (decide (n <= w)) as [Hw|Hw].
  - exists [], b, w, L. split; [done|]. split; [by intros ? ?%elem_of_nil|done].
  - destruct IH as (G & b' & w' & H & -> & HG & Hw'); [apply elem_of_cons in Hx as [->|Hx]; [done|by exists x]|].
    exists ((b, w) :: G), b', w', H. split; [done|]. split; [|done]. intros y [->|Hy]%elem_of_cons; [cbn; lia|by apply HG].
Qed.
Lemma snoc_last x (G : list (Z * Z)) : ∃ X a va, x :: G = X ++ [(a, va)] ∧ last_addr G x.1 = a.
Proof.
  destruct G as [|y G' _] using rev_ind; [by exists [], x.1, x.2; destruct x|]. exists (x :: G'), y.1, y.2. split; [by destruct y|].
  unfold last_addr. by rewrite last_snoc.
Qed.
Lemma not_freep A F1 fp v F2 s x : heap_ok A (F1 ++ (fp, v) :: F2) s → x ∈ F1 ∨ x ∈ F2 → x.1 ≠ fp.
Proof.
  intros Hh Hx <-. pose proof (hp_NoDup _ _ _ Hh) as Hnd. rewrite fmap_app, fmap_cons in Hnd. apply NoDup_app in Hnd as (_ & H1 & H2).
  apply NoDup_cons in H2 as [H2 _]. destruct Hx as [Hx|Hx].
  - apply (H1 x.1); [exact (list_elem_of_fmap_2 fst F1 x Hx)|left].
  - apply H2. exact (list_elem_of_fmap_2 fst F2 x Hx).
Qed.
Lemma search_finds A F1 v F2 s n f : heap_ok A (F1 ++ (freep s, v) :: F2) s → 1 <= n → (∃ x, x ∈ F1 ++ (freep s, v) :: F2 ∧ n <= x.2) →
  (length (F1 ++ (freep s, v) :: F2) <= f)%nat → wp (malloc_loop refuses f n (freep s) (hd_addr F2 base)) (taken A n s) s.
Proof.
  intros Hh Hn (x & Hx & Hxn) Hf. pose proof (hp_linked _ _ _ Hh) as HF. rewrite length_app in Hf. cbn [length] in Hf.
  destruct (decide (Exists (λ x, n <= x.2) F2)) as [Hbig%Exists_exists|Hsmall]; [|rewrite Exists_exists in Hsmall].
  - apply first_big in Hbig as (G & b & w & H & -> & HG & Hw). rewrite length_app in Hf. cbn [length] in Hf.
    assert (hd_addr (G ++ (b, w) :: H) base = hd_addr G b) as -> by (by destruct G as [|[]]).
    replace f with (length G + S (f - length G - 1))%nat by lia. apply linked_app in HF as [_ (_ & _ & HF)]. apply linked_app in HF as [HF _]. cbn [hd_addr] in HF.
    unfold wp. rewrite (walk n s b G); [|done|intros y Hy; split; [by apply HG|apply (not_freep _ _ _ _ _ _ y Hh); right; apply elem_of_app; by left]].
    destruct (snoc_last (freep s, v) G) as (X & a & va & HX & Hl). cbn [fst] in Hl. rewrite Hl.
    apply (take_spec A (F1 ++ X) a va b w H); [|lia]. rewrite <- app_assoc, (cons_middle (a, va) X), (app_assoc X), <- HX. exact Hh.
  - assert (∀ y, y ∈ F2 → y.2 < n) as HF2 by (intros y Hy; destruct (decide (n <= y.2)); [exfalso; apply Hsmall; by exists y|lia]).
    destruct (first_big n (F1 ++ [(freep s, v)])) as (G & b & w & H & HGb & HG & Hw).
    { exists x. split; [|done]. apply elem_of_app in Hx as [Hx|[->|Hx]%elem_of_cons]; [apply elem_of_app; by left|apply elem_of_app; right; left|exfalso; apply Hsmall; by exists x]. }
    assert (F1 ++ (freep s, v) :: F2 = G ++ (b, w) :: H ++ F2) as HFG.
    { rewrite cons_middle, app_assoc, HGb, <- app_assoc. done. }
    assert (last ((b, w) :: H) = Some (freep s, v)) as Hlast.
    { rewrite <- (last_app_cons G H (b, w)), <- HGb. apply last_snoc. }
    pose proof HF as HFl. apply linked_app in HFl as [_ (_ & _ & HFl)].
    assert (length G + length H = length F1)%nat as Hlen by (apply (f_equal length) in HGb; rewrite !length_app in HGb; cbn in HGb; lia).
    replace f with (length F2 + (length G + S (f - length F2 - length G - 1)))%nat by lia. unfold wp.
    rewrite (walk n s base F2); [|done|intros y Hy; split; [by apply HF2|apply (not_freep _ _ _ _ _ _ y Hh); by right]].
    destruct (ly_head _ _ _ _ _ (hp_layout _ _ _ Hh)) as [G0 HG0]. rewrite HFG in HG0.
    destruct G as [|g G]; [cbn in HG0; injection HG0 as -> -> _; lia|].
    assert (base = hd_addr (g :: G) b) as Hbase' by (by injection HG0 as -> _).
    rewrite HFG in HF, Hh. apply linked_app in HF as [HF _]. cbn [hd_addr] in HF. pose proof (hp_NoDup _ _ _ Hh) as Hnd. rewrite fmap_app in Hnd.
    apply NoDup_app in Hnd as (_ & Hnd & _).
    pose proof (λ f prev, walk n s b (g :: G) f prev HF) as Hwalk. rewrite <- Hbase' in Hwalk. rewrite Hwalk; clear Hwalk.
    2: { intros y Hy. split; [by apply HG|]. intros Hyf. apply (Hnd y.1); [by apply (list_elem_of_fmap_2 fst)|]. rewrite Hyf.
      apply last_Some_elem_of in Hlast. rewrite app_comm_cons, fmap_app. apply elem_of_app. left. by apply (list_elem_of_fmap_2 fst _ (freep s, v)). }
    destruct (snoc_last g G) as (X & a & va & HX & Hl). rewrite last_addr_cons, Hl.
    apply (take_spec A X a va b w (H ++ F2)); [|lia]. rewrite (cons_middle (a, va) X), (app_assoc X), <- HX. exact Hh.
Qed.
Lemma search_fails A F1 v F2 s n f : heap_ok A (F1 ++ (freep s, v) :: F2) s → (∀ x, x ∈ F1 ++ (freep s, v) :: F2 → x.2 < n) →
  malloc_loop refuses (length F2 + (length F1 + f)) n (freep s) (hd_addr F2 base) s = malloc_loop refuses f n (last_addr F1 (last_addr F2 (freep s))) (freep s) s.
Proof.
  intros Hh Hs. pose proof (hp_linked _ _ _ Hh) as HF. apply linked_app in HF as [HF1 (_ & _ & HF2)]. cbn [hd_addr] in HF1.
  rewrite (walk n s base F2); [|done|intros y Hy; split; [apply Hs, elem_of_app; right; by right|apply (not_freep _ _ _ _ _ _ y Hh); by right]].
  destruct (ly_head _ _ _ _ _ (hp_layout _ _ _ Hh)) as [G0 HG0].
  assert (base = hd_addr F1 (freep s)) as Hb by (destruct F1 as [|[] ?]; cbn in *; by injection HG0).
  pose proof (λ f prev, walk n s (freep s) F1 f prev HF1) as Hwalk. rewrite <- Hb in Hwalk. apply Hwalk. intros y Hy. split; [apply Hs, elem_of_app; by left|apply (not_freep _ _ _ _ _ _ y Hh); by left].
Qed.

(** *** More memory *)
Definition grain (n : Z) : Z := if n <? 4096 then 4096 else n.
(** The kernel does not give what [n] units need. *)
Definition refused (n : Z) (s : umem) : Prop := refuses (brk s) (UNIT * grain n) = true ∨ 2 ^ 31 <= brk s + UNIT * grain n.
Lemma grow_used A F s n : heap_ok A F s → 1 <= n → brk s + UNIT * n < 2 ^ 31 → A !! brk s = None ∧
  heap_ok (<[brk s := n]> A) F (set_sizes <[brk s := n]> (set_brk (brk s + UNIT * n) s)).
Proof.
  intros Hh Hn Hb. pose proof (hp_brk _ _ _ Hh) as Hbrk.
  destruct (layout_grow base lo A F (brk s) (brk s + UNIT * n) n) as [HL HA]; [done|apply (hp_layout _ _ _ Hh)|lia|done|done|]. split; [done|].
  constructor; cbn [brk freep set_sizes set_brk sizes].
  - exact HL.
  - apply (linked_ext s); [|apply (hp_linked _ _ _ Hh)]. intros c (x & -> & Hx)%list_elem_of_fmap. cbn. rewrite lookup_insert_ne; [done|].
    intros Heq. destruct (ly_free _ _ _ _ _ (hp_layout _ _ _ Hh) x Hx) as [->|(_ & ? & ?)]; cbn in *; unfold UNIT in *; lia.
  - apply (hp_freep _ _ _ Hh).
  - intros h u [[<- <-]|[Hne Hu]]%lookup_insert_Some; [by rewrite lookup_insert_eq|]. rewrite lookup_insert_ne by done. by apply (hp_used _ _ _ Hh).
  - unfold UNIT in *. lia.
Qed.
Lemma morecore_spec A F s n : heap_ok A F s → 1 <= n → UNIT * n < 2 ^ 31 → wp (morecore refuses n) (λ q s',
  (q = 0 ∧ s' = s ∧ refused n s) ∨
  (∃ F', heap_ok A F' s' ∧ q = freep s' ∧ q ≠ 0 ∧ brk s' = brk s + UNIT * grain n ∧ (length F' <= S (length F))%nat ∧ ∃ x, x ∈ F' ∧ n <= x.2)) s.
Proof.
  intros Hh Hn Hn8. pose proof (hp_brk _ _ _ Hh) as Hbrk. unfold morecore. fold (grain n).
  assert (n <= grain n ∧ UNIT * grain n < 2 ^ 31) as [Hg Hg8] by (unfold grain, UNIT in *; destruct (Z.ltb_spec n 4096); lia).
  assert (s32 (u32 (grain n * UNIT)) = UNIT * grain n) as Harg.
  { unfold UNIT in *. rewrite u32_small by lia. rewrite s32_small by lia. lia. }
  rewrite Harg. unfold wp, sbrk. unfold mbind at 1, M_bind at 1. unfold mbind at 1, M_bind at 1, gets at 1.
  rewrite (proj2 (Z.ltb_lt 0 _)), u32_small by (unfold UNIT in *; lia).
  destruct (refuses (brk s) (UNIT * grain n) || (2 ^ 31 <=? brk s + UNIT * grain n)) eqn:E.
  - cbn. left. split; [done|]. split; [done|]. unfold refused. apply orb_true_iff in E as [E|E]; [by left|right; by apply Z.leb_le].
  - apply orb_false_iff in E as [_ E]. apply Z.leb_gt in E. unfold mbind at 1, M_bind at 1, modify at 1. cbn [mret M_ret].
    rewrite (proj2 (Z.eqb_neq (brk s) (2 ^ 32 - 1))) by lia. unfold wr_size at 1. unfold mbind at 1, M_bind at 1, modify at 1.
    destruct (grow_used A F s (grain n) Hh ltac:(lia) E) as [HA Hh1]. set (s1 := set_sizes _ _) in *.
    rewrite padd_small by (unfold UNIT in *; lia). rewrite Z.mul_1_r.
    pose proof (free_spec _ F s1 (brk s) (grain n) Hh1 ltac:(by rewrite lookup_insert_eq)) as Hf.
    apply wp_returns in Hf as ([] & s2 & Hs2 & F' & Hh2 & Hb2 & Hlen & x & Hx & Hxn). rewrite (bind_Ret _ _ _ _ _ Hs2). unfold gets. right. exists F'.
    rewrite delete_insert_id in Hh2 by done. split; [done|]. split; [done|]. split; [|split; [by rewrite Hb2|split; [done|exists x; split; [done|lia]]]].
    pose proof (hp_freep _ _ _ Hh2) as (y & -> & Hy)%list_elem_of_fmap. pose proof (hp_nonneg _ _ _ y Hh2 Hy). lia.
Qed.

(** ** malloc *)
(** Before the first call, or the heap as it is then. *)
Definition heap (A : gmap Z Z) (s : umem) : Prop := (freep s = 0 ∧ A = ∅ ∧ brk s = lo ∧ lo < 2 ^ 31) ∨ ∃ F, heap_ok A F s.
Definition units (nbytes : Z) : Z := (nbytes + UNIT - 1) / UNIT + 1.
Lemma units_bounds nbytes : 0 <= nbytes <= 2 ^ 31 - 16 → 1 <= units nbytes ∧ UNIT * units nbytes < 2 ^ 31 ∧ nbytes <= UNIT * (units nbytes - 1).
Proof. intros H. unfold units, UNIT. Z.div_mod_to_equations. lia. Qed.
Lemma freep_split A F s : heap_ok A F s → ∃ F1 v F2, F = F1 ++ (freep s, v) :: F2 ∧ freep s ≠ 0.
Proof.
  intros Hh. pose proof (hp_freep _ _ _ Hh) as ([fp v] & Hfp & Hx)%list_elem_of_fmap. cbn in Hfp. subst fp. pose proof (hp_nonneg _ _ _ _ Hh Hx) as [H _]. cbn in H.
  apply list_elem_of_split in Hx as (F1 & F2 & ->). exists F1, v, F2. split; [done|lia].
Qed.
Lemma freep_next A F1 v F2 s : heap_ok A (F1 ++ (freep s, v) :: F2) s → rd ptrs (freep s) s = Ret (hd_addr F2 base) s ∧ sizes s !! freep s = Some v.
Proof.
  intros Hh. pose proof (hp_linked _ _ _ Hh) as HF. apply linked_app in HF as [_ (H1 & H2 & _)]. split; [by apply (rd_Ret ptrs)|done].
Qed.
(** What a call of malloc for [n] units ends in: the null pointer if no free block is large enough and the kernel gives
    no more, or a block of [n] units. *)
Definition allocated (A : gmap Z Z) (n : Z) (s : umem) (r : Z) (s' : umem) : Prop :=
  (r = 0 ∧ (∃ F, heap_ok A F s' ∧ ∀ x, x ∈ F → x.2 < n) ∧ brk s' = brk s ∧ refused n s) ∨
  (∃ h, r = h + UNIT ∧ A !! h = None ∧ heap (<[h := n]> A) s' ∧ (brk s' = brk s ∨ brk s' = brk s + UNIT * grain n)).
Lemma malloc_loop_spec A F1 v F2 s n f : heap_ok A (F1 ++ (freep s, v) :: F2) s → freep s ≠ 0 → 1 <= n → UNIT * n < 2 ^ 31 →
  (2 * length (F1 ++ (freep s, v) :: F2) + 1 <= f)%nat → wp (malloc_loop refuses f n (freep s) (hd_addr F2 base)) (allocated A n s) s.
Proof.
  intros Hh Hf0 Hn Hn8 Hf. destruct (decide (Exists (λ x, n <= x.2) (F1 ++ (freep s, v) :: F2))) as [Hbig%Exists_exists|Hsmall].
  { eapply wp_mono; [apply (search_finds A F1 v F2 s n f Hh Hn Hbig); lia|]. intros r s' (h & F' & -> & HA & Hh' & Hb). right. exists h. split; [done|].
    split; [done|]. split; [right; by exists F'|by left]. }
  rewrite Exists_exists in Hsmall. assert (∀ x, x ∈ F1 ++ (freep s, v) :: F2 → x.2 < n) as Hs by (intros y Hy; destruct (decide (n <= y.2)); [exfalso; apply Hsmall; by exists y|lia]).
  set (l := length (F1 ++ (freep s, v) :: F2)) in *. assert (l = length F1 + S (length F2))%nat as Hl by (unfold l; by rewrite length_app).
  replace f with (length F2 + (length F1 + S (f - l)))%nat by lia. unfold wp. rewrite (search_fails A F1 v F2 s n _ Hh Hs).
  destruct (freep_next _ _ _ _ _ Hh) as [_ Hv]. cbn [malloc_loop]. rewrite (bind_Ret _ _ _ _ _ (rd_Ret sizes _ _ s Hv)).
  pose proof (Hs (freep s, v) ltac:(apply elem_of_app; right; left)) as Hvn. cbn in Hvn. rewrite (proj2 (Z.leb_gt n v)) by done.
  unfold mbind at 1, M_bind at 1, gets at 1. rewrite Z.eqb_refl. cbn [andb].
  pose proof (morecore_spec A _ s n Hh Hn Hn8) as Hm. apply wp_returns in Hm as (q & s1 & Hm & [(-> & -> & Hr)|(F' & Hh1 & -> & Hq & Hb1 & Hl1 & Hbig)]); rewrite (bind_Ret _ _ _ _ _ Hm).
  - cbn. left. split; [done|]. split; [by exists (F1 ++ (freep s, v) :: F2)|done].
  - rewrite (proj2 (Z.eqb_neq (freep s1) 0)) by done. destruct (freep_split _ _ _ Hh1) as (G1 & w & G2 & -> & _).
    destruct (freep_next _ _ _ _ _ Hh1) as [Hnext _]. rewrite (bind_Ret _ _ _ _ _ Hnext).
    eapply wp_mono; [apply (search_finds A G1 w G2 s1 n (f - l) Hh1 Hn Hbig); lia|]. intros r s' (h & F' & -> & HA & Hh' & Hb). right. exists h. split; [done|].
    split; [done|]. split; [right; by exists F'|right; by rewrite Hb].
Qed.
Lemma malloc_spec A s nbytes : heap A s → 0 <= nbytes <= 2 ^ 31 - 16 → wp (malloc base refuses nbytes) (allocated A (units nbytes) s) s.
Proof.
  intros Hh Hnb. destruct (units_bounds nbytes Hnb) as (Hu1 & Hu2 & _).
  assert (u32 (u32 (nbytes + UNIT - 1) / UNIT + 1) = units nbytes) as Hnu.
  { rewrite (u32_small (nbytes + UNIT - 1)) by (unfold UNIT; lia). fold (units nbytes). apply u32_small. unfold UNIT in *. lia. }
  assert (∀ A F s1, heap_ok A F s1 → brk s1 = brk s → wp (prevp ← gets freep; p ← rd ptrs prevp; m ← gets ptrs; malloc_loop refuses (2 * size m + 4) (units nbytes) prevp p) (allocated A (units nbytes) s) s1) as Hgen.
  { intros A1 F s1 Hh1 Hb1. destruct (freep_split _ _ _ Hh1) as (F1 & v & F2 & -> & H0). pose proof (hp_size _ _ _ Hh1) as Hsz.
    destruct (freep_next _ _ _ _ _ Hh1) as [Hnext _]. unfold wp. unfold mbind at 1, M_bind at 1, gets at 1. rewrite (bind_Ret _ _ _ _ _ Hnext).
    unfold mbind at 1, M_bind at 1, gets at 1. eapply wp_mono; [apply (malloc_loop_spec A1 F1 v F2 s1); try done; lia|].
    intros r s' [(-> & HF & Hb & Hr)|(h & -> & HA & Hh' & Hb)]; [left|right; exists h]; unfold refused in *; rewrite Hb1 in *; done. }
  unfold malloc. rewrite Hnu. unfold wp. unfold mbind at 1, M_bind at 1, gets at 1. destruct Hh as [(H0 & -> & Hb & Hlo2)|[F Hh]].
  - rewrite H0, Z.eqb_refl. cbn [when]. set (s1 := set_sizes <[base := 0]> (set_ptrs <[base := base]> (set_freep base s))).
    rewrite bind_Ret with (a := ()) (s' := s1) by done. apply (Hgen ∅ [(base, 0)]); [|done]. constructor; cbn [brk freep set_sizes set_ptrs set_freep s1 sizes ptrs].
    + constructor.
      * by eexists.
      * repeat constructor.
      * intros x ->%list_elem_of_singleton. by left.
      * intros h u H. by rewrite lookup_empty in H.
      * intros x h u _ H. by rewrite lookup_empty in H.
      * intros h u h' u' H. by rewrite lookup_empty in H.
      * unfold usum. rewrite map_fold_empty, Hb. unfold UNIT. cbn. lia.
    + cbn. by rewrite !lookup_insert_eq.
    + left.
    + intros h u H. by rewrite lookup_empty in H.
    + rewrite Hb. lia.
  - destruct (freep_split _ _ _ Hh) as (F1 & v & F2 & HF & H0). rewrite (proj2 (Z.eqb_neq (freep s) 0)) by done. cbn [when].
    rewrite bind_Ret with (a := ()) (s' := s) by done. by apply (Hgen A F).
Qed.

(** ** Histories *)
(** The program's calls and its writes into its blocks; [A] are the blocks it has. *)
Inductive ustep : gmap Z Z * umem → gmap Z Z * umem → Prop :=
| ustep_malloc A s nbytes r s' :
    0 <= nbytes <= 2 ^ 31 - 16 → malloc base refuses nbytes s = Ret r s' →
    ustep (A, s) (if r =? 0 then A else <[r - UNIT := units nbytes]> A, s')
| ustep_free A s h u s' :
    A !! h = Some u → free (h + UNIT) s = Ret () s' → ustep (A, s) (delete h A, s')
| ustep_write A s s' :
    freep s' = freep s → brk s' = brk s →
    (∀ a, (∀ h u, A !! h = Some u → h < a < h + UNIT * u → False) → ptrs s' !! a = ptrs s !! a ∧ sizes s' !! a = sizes s !! a) →
    ustep (A, s) (A, s').
Lemma write_heap A s s' : heap A s → freep s' = freep s → brk s' = brk s →
  (∀ a, (∀ h u, A !! h = Some u → h < a < h + UNIT * u → False) → ptrs s' !! a = ptrs s !! a ∧ sizes s' !! a = sizes s !! a) → heap A s'.
Proof.
  intros [(H1 & H2 & H3)|[F Hh]] Hf Hb Hw; [left; by rewrite Hf, Hb|right; exists F]. constructor.
  - rewrite Hb. apply (hp_layout _ _ _ Hh).
  - apply (linked_ext s); [|apply (hp_linked _ _ _ Hh)]. intros b (x & -> & Hx)%list_elem_of_fmap. apply Hw. intros h u Hu Hin.
    pose proof (ly_away _ _ _ _ _ (hp_layout _ _ _ Hh) x h u Hx Hu) as Haw. pose proof (hp_nonneg _ _ _ x Hh Hx). unfold away, UNIT in *. cbn in *. lia.
  - rewrite Hf. apply (hp_freep _ _ _ Hh).
  - intros h u Hu. rewrite <- (hp_used _ _ _ Hh h u Hu). apply Hw. intros h' u' Hu' Hin. destruct (decide (h = h')) as [->|Hne]; [lia|].
    pose proof (ly_away_used _ _ _ _ _ (hp_layout _ _ _ Hh) h u h' u' Hu Hu' Hne) as Haw. destruct (ly_used _ _ _ _ _ (hp_layout _ _ _ Hh) h u Hu) as (_ & ? & _).
    unfold away, UNIT in *. cbn in *. lia.
  - rewrite Hb. apply (hp_brk _ _ _ Hh).
Qed.
Lemma free_heap A s h u : heap A s → A !! h = Some u → wp (free (h + UNIT)) (λ _ s', heap (delete h A) s' ∧ brk s' = brk s) s.
Proof.
  intros [(_ & -> & _)|[F Hh]] Hu; [by rewrite lookup_empty in Hu|]. eapply wp_mono; [by apply (free_spec A F s h u)|].
  intros [] s' (F' & Hh' & Hb & _). split; [right; by exists F'|done].
Qed.
Lemma ustep_heap st st' : heap st.1 st.2 → ustep st st' → heap st'.1 st'.2.
Proof.
  intros Hh Hst. destruct Hst as [A s nbytes r s' Hn Hm|A s h u s' Hu Hf|A s s' H1 H2 H3]; cbn [fst snd] in *.
  - pose proof (malloc_spec A s nbytes Hh Hn) as Hw. unfold wp in Hw. rewrite Hm in Hw. destruct Hw as [(-> & (F & HF & _) & _)|(h & -> & HA & Hh' & _)]; [right; by exists F|].
    assert (0 < h) as Hh0.
    { destruct Hh' as [(_ & He & _)|[F HF]]; [by apply insert_non_empty in He|]. destruct (hp_apart _ _ _ h (units nbytes) HF) as [_ ?]; [apply lookup_insert_eq|lia]. }
    rewrite (proj2 (Z.eqb_neq (h + UNIT) 0)) by (unfold UNIT; lia). by replace (h + UNIT - UNIT) with h by lia.
  - pose proof (free_heap A s h u Hh Hu) as Hw. unfold wp in Hw. rewrite Hf in Hw. apply Hw.
  - by eapply write_heap.
Qed.
Lemma history_heap st st' : heap st.1 st.2 → rtc ustep st st' → heap st'.1 st'.2.
Proof. intros Hh. induction 1 as [|? ? ? Hst _ IH]; [done|]. apply IH. by eapply ustep_heap. Qed.
Lemma heap_used A s h u : heap A s → A !! h = Some u → lo <= h ∧ h + UNIT * u <= brk s ∧ ∀ h' u', A !! h' = Some u' → h ≠ h' → away (h, u) (h', u').
Proof.
  intros [(_ & -> & _)|[F Hh]] Hu; [by rewrite lookup_empty in Hu|]. pose proof (hp_layout _ _ _ Hh) as HL.
  destruct (ly_used _ _ _ _ _ HL h u Hu) as (? & _ & ?). split; [done|]. split; [done|]. intros h' u' Hu'. by apply (ly_away_used _ _ _ _ _ HL).
Qed.
(** Free blocks with something between any two of them do not fill the heap. *)
Lemma fsum_span hi x G : StronglySorted before (x :: G) → (∀ y, y ∈ x :: G → y.1 + UNIT * y.2 <= hi) →
  UNIT * fsum (x :: G) <= hi - x.1 ∧ (G ≠ [] → UNIT * fsum (x :: G) < hi - x.1).
Proof.
  revert x. induction G as [|y G IH]; intros x HS Hhi.
  - specialize (Hhi x ltac:(left)). cbn. split; [lia|done].
  - apply StronglySorted_cons in HS as [Hx HS]. rewrite Forall_forall in Hx. specialize (Hx y ltac:(left)). unfold before in Hx.
    destruct (IH y HS) as [IH1 _]; [intros z Hz; apply Hhi; by right|]. cbn [fsum] in *. split; [lia|intros _; lia].
Qed.
Lemma all_free s : heap ∅ s → lo < brk s → ptrs s !! base = Some lo ∧ ptrs s !! lo = Some base ∧ ∃ u, sizes s !! lo = Some u ∧ UNIT * u = brk s - lo.
Proof.
  intros [(_ & _ & Hb & _)|[F Hh]] Hlt; [lia|]. pose proof (hp_layout _ _ _ Hh) as HL. destruct (ly_head _ _ _ _ _ HL) as [G ->].
  pose proof (ly_total _ _ _ _ _ HL) as Ht. unfold usum in Ht. rewrite map_fold_empty in Ht. cbn [fsum snd] in Ht.
  pose proof (ly_sorted _ _ _ _ _ HL) as HS. apply StronglySorted_cons in HS as [HbG HS]. rewrite Forall_forall in HbG.
  assert (∀ y, y ∈ G → lo <= y.1 ∧ 1 <= y.2 ∧ y.1 + UNIT * y.2 <= brk s) as HG.
  { intros y Hy. destruct (ly_free _ _ _ _ _ HL y) as [->|?]; [by right| |done]. specialize (HbG _ Hy). unfold before in HbG. cbn in HbG. lia. }
  destruct G as [|x G]; [cbn in Ht; lia|]. destruct (fsum_span (brk s) x G HS) as [_ Hstrict]; [intros y Hy; by apply HG|].
  destruct (HG x) as (Hx1 & Hx2 & Hx3); [left|]. destruct G as [|y G]; [|specialize (Hstrict ltac:(done)); lia].
  destruct x as [x u]. cbn in *. assert (x = lo) as -> by lia. destruct (hp_linked _ _ _ Hh) as (H1 & _ & H2 & H3 & _). cbn in *.
  split; [done|]. split; [done|]. exists u. split; [done|]. lia.
Qed.
End memory.

(** C33: the user programs' allocator.  In any history of calls of malloc and free, and of writes of the program into its blocks, the
    blocks it has lie in the heap and do not overlap; malloc returns (it neither loops nor follows a wild pointer) a block of the
    size asked for, apart from all others, or the null pointer, and this only if the kernel refuses the memory; free
    returns for every block; and when all blocks are free, the whole heap is again one block. *)
Theorem malloc_blocks base lo refuses s0 A s : 0 < base → base + UNIT <= lo < 2 ^ 31 → freep s0 = 0 → brk s0 = lo → rtc (ustep base refuses) (∅, s0) (A, s) →
  (∀ h u, A !! h = Some u → lo <= h ∧ h + UNIT * u <= brk s ∧ ∀ h' u', A !! h' = Some u' → h ≠ h' → away (h, u) (h', u')) ∧
  (∀ nbytes, 0 <= nbytes <= 2 ^ 31 - 16 → wp (malloc base refuses nbytes) (λ r s',
    (r = 0 ∧ refused refuses (units nbytes) s ∧ brk s' = brk s) ∨
    (∃ h, r = h + UNIT ∧ A !! h = None ∧ nbytes <= UNIT * (units nbytes - 1) ∧ lo <= h ∧ h + UNIT * units nbytes <= brk s' ∧
      ∀ h' u', A !! h' = Some u' → away (h, units nbytes) (h', u'))) s) ∧
  (∀ h u, A !! h = Some u → wp (free (h + UNIT)) (λ _ s', brk s' = brk s) s) ∧
  (A = ∅ → lo < brk s → ptrs s !! base = Some lo ∧ ptrs s !! lo = Some base ∧ ∃ u, sizes s !! lo = Some u ∧ UNIT * u = brk s - lo).
Proof.
  intros Hb [Hlo Hlo2] H0 Hbrk Hr. assert (heap base lo A s) as Hh.
  { apply (history_heap base lo Hb Hlo refuses (∅, s0) (A, s)); [|done]. by left. }
  split; [intros h u; by apply (heap_used base lo)|]. split; [|split].
  - intros nbytes Hn. eapply wp_mono; [by apply (malloc_spec base lo Hb Hlo refuses A s nbytes Hh)|].
    intros r s' [(-> & _ & Hb' & Hrf)|(h & -> & HA & Hh' & _)]; [by left|right]. exists h. split; [done|]. split; [done|].
    split; [by apply units_bounds|]. destruct (heap_used base lo _ s' h (units nbytes) Hh') as (H1 & H2 & H3); [apply lookup_insert_eq|]. split; [done|]. split; [done|].
    intros h' u' Hu'. assert (h ≠ h') as Hne by congruence. apply H3; [by rewrite lookup_insert_ne|done].
  - intros h u Hu. eapply wp_mono; [by apply (free_heap base lo Hb Hlo A s h u)|]. by intros [] s' [_ ?].
  - intros ->. by apply (all_free base lo).
Qed.

(** Two blocks, of which the first is given back. *)
Definition boot : umem := mkU ∅ ∅ 0 4096.
Definition run {A} (m : M umem A) (s : umem) : umem := match m s with Ret _ s' => s' | _ => s end.
Definition never (b n : Z) : bool := false.
Definition two_blocks : umem := run (malloc 1000 never 50 ;; malloc 1000 never 8) boot.
Definition one_back : umem := run (free (36864 - 56)) two_blocks.
Lemma malloc_blocks_witness :
  (∃ r, malloc 1000 never 8 (run (malloc 1000 never 50) boot) = Ret r two_blocks ∧ r = 36864 - 64 - 8) ∧
  (∃ u, sizes (run (free (36864 - 72)) one_back) !! 4096 = Some u ∧ u = 4096).
Proof.
  set (s1 := run (malloc 1000 never 50) boot).
  destruct (malloc_blocks 1000 4096 never boot ∅ (run (free (36864 - 72)) one_back)) as (_ & _ & _ & H); [done|done|done|done| |].
  - apply (rtc_l _ _ ({[ 36864 - 64 := 8 ]}, s1)).
    { apply (ustep_malloc 1000 never ∅ boot 50 (36864 - 56) s1); [done|vm_compute; reflexivity]. }
    apply (rtc_l _ _ ({[ 36864 - 80 := 2; 36864 - 64 := 8 ]}, two_blocks)).
    { apply (ustep_malloc 1000 never {[ 36864 - 64 := 8 ]} s1 8 (36864 - 72) two_blocks); [done|vm_compute; reflexivity]. }
    assert (delete (36864 - 64) {[ 36864 - 80 := 2; 36864 - 64 := 8 ]} = ({[ 36864 - 80 := 2 ]} : gmap Z Z)) as E1 by (vm_compute; reflexivity).
    assert (delete (36864 - 80) {[ 36864 - 80 := 2 ]} = (∅ : gmap Z Z)) as E2 by (vm_compute; reflexivity).
    apply (rtc_l _ _ ({[ 36864 - 80 := 2 ]}, one_back)).
    { rewrite <- E1. apply (ustep_free 1000 never {[ 36864 - 80 := 2; 36864 - 64 := 8 ]} two_blocks (36864 - 64) 8 one_back); [done|vm_compute; reflexivity]. }
    apply rtc_once. rewrite <- E2. apply (ustep_free 1000 never {[ 36864 - 80 := 2 ]} one_back (36864 - 80) 2 (run (free (36864 - 72)) one_back)); [done|vm_compute; reflexivity].
  - split; [exists (36864 - 72); split; [vm_compute; reflexivity|done]|]. destruct (H eq_refl) as (_ & _ & u & Hu & Hu2); [vm_compute; reflexivity|].
    exists u. split; [exact Hu|]. assert (brk (run (free (36864 - 72)) one_back) = 36864) as Hb by (vm_compute; reflexivity). rewrite Hb in Hu2. unfold UNIT in Hu2. lia.
Defined.
(** The number of units wraps around: of 4 gigabytes less one a header is left. *)
Example malloc_wraps : ∃ s, malloc 1000 never (2 ^ 32 - 1) boot = Ret (36864 - 8 + 8) s ∧ sizes s !! (36864 - 8) = Some 1.
Proof. eexists. split; vm_compute; reflexivity. Qed.
(** The argument of sbrk is an int: for 2 gigabytes the break does not move, and the block lies behind it. *)
Example malloc_behind_break : ∃ s, malloc 1000 never (2 ^ 31) boot = Ret (4096 + 8) s ∧ brk s = 4096.
Proof. eexists. split; vm_compute; reflexivity. Qed.
