(* ===== verification/Exec.v ===== *)
(** * exec.c: starting a program, and loaduvm of vm.c (src/05_xv6_memory_safe_allocation/src/v2-sort)

    exec brings the file system and virtual memory together: the state has both, and of the process what exec
    changes.  It is written against two interfaces: a [PageAllocator] under the page tables, and [ProgramFiles], what it uses of
    the file system, of which [Fs] over any [Transactions] is an instance.  switchuvm, which loads registers, is
    left out. *)

From S2P Require Import Prelude KMem KallocV2 PageAlloc Blocks Bio Log Txn Fs Vm VmTree VmSpec VmOps AddressSpace UserMem UserSpace.

Class ProgramFiles (F : Type) := {
  pf_begin_op : M F ();
  pf_end_op : M F ();
  pf_namei : list Z → M F (option nat);
  pf_ilock : nat → M F ();
  pf_iunlockput : nat → M F ();
  pf_readi : nat → Z → Z → M F (Z * list Z);  (* the result, and what is stored *)
}.
(** The file system; [links] symbolic links are followed ([Fs.namei]). *)
Definition Fs_files {T D} `{Transactions T} `{Devices D} (links : nat) : ProgramFiles (fs T D) := {|
  pf_begin_op := low t_begin_op;
  pf_end_op := low t_end_op;
  pf_namei path := namei links path;
  pf_ilock ip := ilock (Some ip);
  pf_iunlockput := iunlockput;
  pf_readi := readi;
|}.

(** *** elf.h *)
Definition ELF_MAGIC : Z := 0x464C457F.
Definition ELF_PROG_LOAD : Z := 1.
Definition MAXARG : Z := 32.
Definition sizeof_elfhdr : Z := 52.
Definition sizeof_proghdr : Z := 32.
Definition field32 (l : list Z) (o : Z) : Z := get32 (λ i, default 0 (l !! Z.to_nat i)) o.
Definition field16 (l : list Z) (o : Z) : Z := get16 (λ i, default 0 (l !! Z.to_nat i)) o.
Record elfhdr := mkElf { magic : Z; entry : Z; phoff : Z; phnum : Z }.
Definition get_elfhdr (l : list Z) : elfhdr := mkElf (field32 l 0) (field32 l 24) (field32 l 28) (field16 l 44).
Record proghdr := mkPh { ph_type : Z; ph_off : Z; vaddr : Z; filesz : Z; memsz : Z }.
Definition get_proghdr (l : list Z) : proghdr := mkPh (field32 l 0) (field32 l 4) (field32 l 8) (field32 l 16) (field32 l 20).
(** The bytes of an array of uint. *)
Definition word_bytes (v : Z) : list Z := [u8 v; u8 (Z.shiftr v 8); u8 (Z.shiftr v 16); u8 (Z.shiftr v 24)].
Definition words_bytes (l : list Z) : list Z := l ≫= word_bytes.

(** curproc *)
Record image := mkImage { p_name : list Z; p_pgdir : Z; p_sz : Z; p_eip : Z; p_esp : Z }.
Record exst (F K : Type) := mkEx { files : F; vm : vst K; curproc : image }.
Arguments mkEx {F K}. Arguments files {F K}. Arguments vm {F K}. Arguments curproc {F K}.
Definition set_files {F K} (f : F) (s : exst F K) : exst F K := mkEx f (vm s) (curproc s).
Definition set_vm {F K} (v : vst K) (s : exst F K) : exst F K := mkEx (files s) v (curproc s).
Definition set_curproc {F K} (c : image) (s : exst F K) : exst F K := mkEx (files s) (vm s) c.

Section code.
Context {F K : Type} `{ProgramFiles F} `{PageAllocator K}.
Notation M_ex := (M (exst F K)).
Definition on_files {A} (m : M F A) : M_ex A := zoom files set_files m.
Definition on_vm {A} (m : M (vst K) A) : M_ex A := zoom vm set_vm m.

(** *** loaduvm *)
Fixpoint load_loop (fuel : nat) (pgdir addr : Z) (ip : nat) (offset sz i : Z) : M_ex Z :=
  match fuel with
  | O => diverge
  | S fuel =>
      if i <? sz then
        pte ← on_vm (walkpgdir pgdir (u32 (addr + i)) false);
        if pte =? 0 then panic "loaduvm: address should exist"
        else
          e ← on_vm (load pte);
          let pa := PTE_ADDR e in
          let n := if sz - i <? PGSIZE then sz - i else PGSIZE in
          '(r, l) ← on_files (pf_readi ip (u32 (offset + i)) n);
          on_vm (memmove_bytes (P2V pa) l) ;;
          if negb (r =? n) then mret (-1)
          else load_loop fuel pgdir addr ip offset sz (u32 (i + PGSIZE))
      else mret 0
  end.
Definition loaduvm (pgdir addr : Z) (ip : nat) (offset sz : Z) : M_ex Z :=
  if negb (addr mod PGSIZE =? 0) then panic "loaduvm: addr must be page aligned"
  else load_loop (S (Z.to_nat ((sz + PGSIZE - 1) / PGSIZE))) pgdir addr ip offset sz 0.

(** *** exec *)
(** The loop over the program headers; [None] is the jump to [bad]. *)
Fixpoint load_segments (n : nat) (pid pgdir : Z) (ip : nat) (off sz : Z) : M_ex (option Z) :=
  match n with
  | O => mret (Some sz)
  | S n =>
      '(r, l) ← on_files (pf_readi ip (u32 off) sizeof_proghdr);
      let ph := get_proghdr l in
      if negb (r =? sizeof_proghdr) then mret None
      else if negb (ph_type ph =? ELF_PROG_LOAD) then load_segments n pid pgdir ip (s32 (off + sizeof_proghdr)) sz
      else if memsz ph <? filesz ph then mret None
      else if u32 (vaddr ph + memsz ph) <? vaddr ph then mret None
      else
        sz ← on_vm (allocuvm pid pgdir sz (u32 (vaddr ph + memsz ph)));
        if sz =? 0 then mret None
        else if negb (vaddr ph mod PGSIZE =? 0) then mret None
        else
          r ← loaduvm pgdir (vaddr ph) ip (ph_off ph) (filesz ph);
          if r <? 0 then mret None
          else load_segments n pid pgdir ip (s32 (off + sizeof_proghdr)) sz
  end.
(** The loop over the arguments: the stack pointer and the pointers to the strings. *)
Fixpoint push_args (argv : list (list Z)) (argc pgdir sp : Z) (ptrs : list Z) : M_ex (option (Z * list Z)) :=
  match argv with
  | [] => mret (Some (sp, ptrs))
  | arg :: argv =>
      if MAXARG <=? argc then mret None
      else
        let len := Z.of_nat (length arg) + 1 in
        let sp := Z.land (u32 (sp - len)) (u32 (Z.lnot 3)) in
        r ← on_vm (copyout pgdir sp (arg ++ [0]) len);
        if r <? 0 then mret None
        else push_args argv (argc + 1) pgdir sp (ptrs ++ [sp])
  end.
(** What follows the last slash. *)
Fixpoint basename (last s : list Z) : list Z :=
  match s with [] => last | c :: s => basename (if c =? 47 then s else last) s end.
Definition exec_bad (pgdir : Z) (ip : option nat) : M_ex Z :=
  when (negb (pgdir =? 0)) (on_vm (freevm pgdir)) ;;
  match ip with
  | Some ip => on_files (pf_iunlockput ip) ;; on_files pf_end_op
  | None => mret ()
  end ;;
  mret (-1).
(** From the stack on; the file is closed. *)
Definition exec_stack (pid pgdir sz eip : Z) (path : list Z) (argv : list (list Z)) : M_ex Z :=
  let sz := PGROUNDUP sz in
  sz ← on_vm (allocuvm pid pgdir sz (u32 (sz + 2 * PGSIZE)));
  if sz =? 0 then exec_bad pgdir None
  else
    on_vm (clearpteu pgdir (sz - 2 * PGSIZE)) ;;
    o ← push_args argv 0 pgdir sz [];
    match o with
    | None => exec_bad pgdir None
    | Some (sp, ptrs) =>
        let argc := Z.of_nat (length argv) in
        let ustack := [0xffffffff; argc; u32 (sp - (argc + 1) * 4)] ++ ptrs ++ [0] in
        let sp := u32 (sp - (3 + argc + 1) * 4) in
        r ← on_vm (copyout pgdir sp (words_bytes ustack) ((3 + argc + 1) * 4));
        if r <? 0 then exec_bad pgdir None
        else
          oldpgdir ← gets (λ s, p_pgdir (curproc s));
          modify (set_curproc (mkImage (take 15 (basename path path)) pgdir sz eip sp)) ;;
          on_vm (freevm oldpgdir) ;;
          mret 0
    end.
(** [data] is the end of the kernel's text, [pid] the caller's. *)
Definition exec (data pid : Z) (path : list Z) (argv : list (list Z)) : M_ex Z :=
  on_files pf_begin_op ;;
  o ← on_files (pf_namei path);
  match o with
  | None => on_files pf_end_op ;; mret (-1)
  | Some ip =>
      on_files (pf_ilock ip) ;;
      '(r, l) ← on_files (pf_readi ip 0 sizeof_elfhdr);
      let elf := get_elfhdr l in
      if negb (r =? sizeof_elfhdr) then exec_bad 0 (Some ip)
      else if negb (magic elf =? ELF_MAGIC) then exec_bad 0 (Some ip)
      else
        pgdir ← on_vm (setupkvm data);
        if pgdir =? 0 then exec_bad 0 (Some ip)
        else
          o ← load_segments (Z.to_nat (phnum elf)) pid pgdir ip (s32 (phoff elf)) 0;
          match o with
          | None => exec_bad pgdir (Some ip)
          | Some sz =>
              on_files (pf_iunlockput ip) ;;
              on_files pf_end_op ;;
              exec_stack pid pgdir sz (entry elf) path argv
          end
  end.
End code.

(** ** What exec relies on *)
(** The file system as exec sees it when nothing else runs; [tree] gives the content of the file that a path names. It is
    outside of a transaction, in one, with a reference to a file, or with that file locked. *)
Definition tree_of := list Z → option (list Z).
Class ProgramFilesLaws (F : Type) `{ProgramFiles F} := {
  pf_idle : tree_of → F → Prop;
  pf_inside : tree_of → F → Prop;
  pf_found : tree_of → nat → list Z → F → Prop;
  pf_locked : tree_of → nat → list Z → F → Prop;
  pf_begin_ok tr f : pf_idle tr f → wp pf_begin_op (λ _, pf_inside tr) f;
  pf_end_ok tr f : pf_inside tr f → wp pf_end_op (λ _, pf_idle tr) f;
  pf_namei_ok tr path f : pf_inside tr f → wp (pf_namei path) (λ o f',
    match o with Some ip => ∃ bs, tr path = Some bs ∧ pf_found tr ip bs f' | None => tr path = None ∧ pf_inside tr f' end) f;
  pf_ilock_ok tr ip bs f : pf_found tr ip bs f → wp (pf_ilock ip) (λ _, pf_locked tr ip bs) f;
  pf_iunlockput_ok tr ip bs f : pf_locked tr ip bs f → wp (pf_iunlockput ip) (λ _, pf_inside tr) f;
  pf_content tr ip bs f : pf_locked tr ip bs f → Forall (λ b, 0 <= b < 256) bs ∧ Z.of_nat (length bs) < 2 ^ 31;
  pf_readi_ok tr ip bs f off n : pf_locked tr ip bs f → 0 <= off < 2 ^ 32 → 0 <= n < 2 ^ 32 → wp (pf_readi ip off n) (λ rl f', pf_locked tr ip bs f' ∧
    let l := take (Z.to_nat n) (drop (Z.to_nat off) bs) in
    rl = if decide (off <= Z.of_nat (length bs) ∧ off + n < 2 ^ 32) then (Z.of_nat (length l), l) else (-1, [])) f;
}.

(** ** The reference: what a program file asks for *)
Definition bytes_of (bs : list Z) (off n : Z) : list Z := take (Z.to_nat n) (drop (Z.to_nat off) bs).
(** Memory as a function; [l] from address [a] on. *)
Definition overlay (img : Z → Z) (a : Z) (l : list Z) : Z → Z := λ x, if decide (a <= x < a + Z.of_nat (length l)) then l !!! Z.to_nat (x - a) else img x.
(** The memory of [sz] bytes grows: the new pages are zero. *)
Definition zero_from (img : Z → Z) (sz : Z) : Z → Z := λ x, if decide (x < 4096 * pages_up sz) then img x else 0.
Definition fits (bs : list Z) (off n : Z) : bool := (n =? 0) || ((off <=? Z.of_nat (length bs)) && (off + n <=? Z.of_nat (length bs))).
(** The segments in their order: the size and the memory. *)
Fixpoint program (n : nat) (bs : list Z) (off sz : Z) (img : Z → Z) : option (Z * (Z → Z)) :=
  match n with
  | O => Some (sz, img)
  | S n =>
      let l := bytes_of bs (u32 off) sizeof_proghdr in
      let ph := get_proghdr l in
      let top := vaddr ph + memsz ph in
      if negb (Z.of_nat (length l) =? sizeof_proghdr) then None
      else if negb (ph_type ph =? ELF_PROG_LOAD) then program n bs (s32 (off + sizeof_proghdr)) sz img
      else if (memsz ph <? filesz ph) || (KERNBASE <=? top) || (Z.max sz top =? 0) || negb (vaddr ph mod PGSIZE =? 0) || negb (fits bs (ph_off ph) (filesz ph)) then None
      else program n bs (s32 (off + sizeof_proghdr)) (Z.max sz top) (overlay (zero_from img sz) (vaddr ph) (bytes_of bs (ph_off ph) (filesz ph)))
  end.

Definition read_elf (bs : list Z) : elfhdr := get_elfhdr (bytes_of bs 0 sizeof_elfhdr).
Definition program_file (bs : list Z) : option (Z * (Z → Z)) :=
  if (sizeof_elfhdr <=? Z.of_nat (length bs)) && (magic (read_elf bs) =? ELF_MAGIC)
  then program (Z.to_nat (phnum (read_elf bs))) bs (s32 (phoff (read_elf bs))) 0 (λ _, 0) else None.
(** What lies on the stack from [sp] on. *)
Definition stack_words (argc sp : Z) (ptrs : list Z) : list Z := [0xffffffff; argc; sp + 12] ++ ptrs ++ [0].
(** The bytes [l] at address [p]; the string [a] with its NUL. *)
Definition bytes_at (img : Z → Z) (p : Z) (l : list Z) : Prop := ∀ (i : nat) b, l !! i = Some b → img (p + Z.of_nat i) = b.
Definition string_at (img : Z → Z) (p : Z) (a : list Z) : Prop := bytes_at img p (a ++ [0]).

(** ** Building the address space *)
Section build.
Context {K : Type} `{PageAllocatorLaws K} (st : vst K) (d : Z).
(** The address space [d], whose pages are new since [st], has [sz] bytes of user memory that show [img]; page [g] is closed
    to the user. *)
Record built (t w : gmap Z Z) (st1 : vst K) (sz g : Z) (img : Z → Z) : Prop := {
  bu_held : held st d t w st1;
  bu_sz : 0 <= sz < KERNBASE;
  bu_above vpn : pages_up sz <= vpn < 2 ^ 19 → vlookup (mem st1) d vpn = None;
  bu_user vpn : 0 <= vpn < pages_up sz → is_Some (vlookup (mem st1) d vpn) ∧ user_page (mem st1) d vpn = negb (vpn =? g);
  bu_bytes a : 0 <= a < 4096 * pages_up sz → ubyte (mem st1) d a = Some (img a);
}.
Lemma bu_space t w st1 sz g img : built t w st1 sz g img → space st1 d t w.
Proof. intros Hb. apply (bu_held _ _ _ _ _ _ Hb). Qed.
Lemma pages_up_bounds sz : 0 <= sz < KERNBASE → 0 <= pages_up sz <= 2 ^ 19 ∧ sz <= 4096 * pages_up sz ∧ 4096 * pages_up sz < sz + 4096.
Proof. intros Hsz. unfold pages_up, KERNBASE in *. Z.div_mod_to_equations. lia. Qed.
Lemma pages_up_mono a b : a <= b → pages_up a <= pages_up b.
Proof. intros. apply Z.div_le_mono; lia. Qed.
Lemma built_ext t w st1 sz g img img' : built t w st1 sz g img → (∀ a, 0 <= a < 4096 * pages_up sz → img a = img' a) → built t w st1 sz g img'.
Proof. intros [B1 B2 B3 B4 B5] He. constructor; try done. intros a Ha. by rewrite B5, He. Qed.
Lemma built_alloc E t w st1 sz img pid newsz : allows E → pid ≠ -1 → built t w st1 sz (-1) img → 0 <= newsz → wpe E (allocuvm pid d sz newsz) (λ r st2, ∃ t' w',
  (r = 0 ∧ held st d t' w' st2) ∨ (r = Z.max sz newsz ∧ newsz < KERNBASE ∧ built t' w' st2 r (-1) (zero_from img sz))) st1.
Proof.
  intros HE Hpid Hb Hnew. pose proof Hb as [B1 B2 B3 B4 B5]. destruct (decide (KERNBASE <= newsz)) as [Hk|Hk].
  { unfold allocuvm. rewrite (proj2 (Z.leb_le _ _)) by done. wpe_step. exists t, w. by left. }
  destruct (decide (newsz < sz)) as [Hlt|Hge].
  { unfold allocuvm. rewrite (proj2 (Z.leb_gt _ _)), (proj2 (Z.ltb_lt _ _)) by lia. wpe_step. exists t, w. right. split; [lia|]. split; [lia|].
    eapply built_ext; [done|]. intros a Ha. unfold zero_from. by rewrite decide_True by lia. }
  destruct (pages_up_bounds sz B2) as (P1 & P2 & P3). destruct (pages_up_bounds newsz ltac:(lia)) as (Q1 & Q2 & Q3). pose proof (pages_up_mono sz newsz ltac:(lia)) as Hmono.
  eapply wpe_mono; [apply (allocuvm_spec E st1 d t w pid sz newsz HE Hpid (bu_space _ _ _ _ _ _ Hb)); [lia|lia|]|].
  { intros x Hx Hxn. apply B3. unfold KERNBASE in *. lia. }
  intros r st2 [(-> & t' & w' & Hgn)|(-> & t' & Hgr & Hs' & Hv)].
  - exists t', w'. right. rewrite Z.max_r by lia. split; [done|]. split; [lia|]. pose proof (grown_bytes (pages_up sz) (pages_up newsz) _ _ _ _ _ _ _ (bu_space _ _ _ _ _ _ Hb) (proj1 P1) Hgn) as Hbytes. constructor.
    + by apply (held_grown st d t w (pages_up sz) (pages_up newsz) st1).
    + lia.
    + intros vpn Hvpn. rewrite (gn_same _ _ _ _ _ _ _ _ _ Hgn) by lia. apply B3. lia.
    + intros vpn Hvpn. destruct (Hbytes (4096 * vpn)) as [_ Hu]; [lia|]. rewrite (proj2 (va_slots vpn)) in Hu.
      destruct (decide (vpn < pages_up sz)) as [Hold|Hnw].
      * unfold user_page. rewrite (gn_same _ _ _ _ _ _ _ _ _ Hgn) by lia. apply B4. lia.
      * rewrite (proj2 (Z.eqb_neq vpn (-1))) by lia. rewrite Hu by lia. split; [apply user_page_mapped, Hu; lia|done].
    + intros a Ha. destruct (Hbytes a) as [-> _]; [lia|]. unfold zero_from. repeat case_decide; try lia; [done|]. apply B5. lia.
  - exists t', w. left. split; [done|]. by apply (held_grows st d t w st1).
Qed.
(** Writing to a page of it. *)
Lemma built_write t w st1 sz g img p v f l o : built t w st1 sz g img → w !! p = Some v → mem st1 !! p = Some f → v < pages_up sz → 0 <= o → o + Z.of_nat (length l) <= 4096 →
  Forall (λ b, 0 <= b < 256) l → built t w (set_mem (<[p := set_page_bytes o l f]> (mem st1)) st1) sz g (overlay img (4096 * v + o) l).
Proof.
  intros Hb Hp Hf Hvs Ho Hol Hl. pose proof Hb as [B1 B2 B3 B4 B5]. pose proof B1 as [_ Hs]. destruct (pages_up_bounds sz B2) as (P1 & P2 & P3).
  destruct (write_user_page st1 d t w p v f (set_page_bytes o l f) Hs Hp Hf) as (Hs1 & Hv1 & Hb1). set (st2 := set_mem _ _) in *.
  destruct (fr_in _ _ _ _ (space_frames _ _ _ _ Hs) p v Hp) as (F1 & F2 & F3 & F4 & e & F5 & F6). constructor.
  - apply (held_write st d t w st1); [done|done| |].
    + subst st2. simpl. rewrite dom_insert_L. by rewrite subseteq_union_1_L by (by apply singleton_subseteq_l).
    + intros q Hq. subst st2. simpl. rewrite lookup_insert_ne; [done|]. intros ->. apply Hq. unfold space_pages. apply elem_of_union_r. by eapply elem_of_dom_2.
  - done.
  - intros vpn Hvpn. rewrite Hv1 by lia. by apply B3.
  - intros vpn Hvpn. unfold user_page. rewrite Hv1 by lia. by apply B4.
  - intros a Ha. rewrite Hb1 by (unfold KERNBASE in *; lia). unfold overlay. case_decide as Hav.
    + rewrite page_byte_sets. assert (a mod 4096 = a - 4096 * v) as -> by (Z.div_mod_to_equations; lia). destruct (decide (4096 * v + o <= a < 4096 * v + o + Z.of_nat (length l))) as [Hr|Hr].
      * rewrite decide_True by lia. replace (a - 4096 * v - o) with (a - (4096 * v + o)) by lia. f_equal. apply Z.mod_small.
        rewrite Forall_forall in Hl. apply (Hl (l !!! Z.to_nat (a - (4096 * v + o)))). apply list_elem_of_lookup_total_2. lia.
      * rewrite decide_False by lia. rewrite <- (B5 a Ha). unfold ubyte. rewrite Hav, F5. cbn. rewrite F6, Hf. cbn. do 2 f_equal. Z.div_mod_to_equations. lia.
    + rewrite decide_False; [by apply B5|]. intros Hr. apply Hav. Z.div_mod_to_equations. lia.
Qed.
Lemma built_copyout E t w st1 sz g img va buf : built t w st1 sz g img → 0 <= va → va + Z.of_nat (length buf) <= 4096 * pages_up sz → (0 < length buf)%nat → Forall (λ b, 0 <= b < 256) buf →
  wpe E (copyout d va buf (Z.of_nat (length buf))) (λ r st2,
    (r = -1 ∧ held st d t w st2 ∧ va / 4096 <= g ∧ 4096 * g < va + Z.of_nat (length buf)) ∨
    (r = 0 ∧ (va + Z.of_nat (length buf) <= 4096 * g ∨ 4096 * (g + 1) <= va) ∧ built t w st2 sz g (overlay img va buf))) st1.
Proof.
  intros Hb Hva Hend Hlen Hbuf. pose proof Hb as [B1 B2 B3 B4 B5]. pose proof B1 as [_ Hs]. destruct (pages_up_bounds sz B2) as (P1 & P2 & P3).
  eapply wpe_mono; [apply (copyout_any E d t w va buf _ st1 Hs Hva); [unfold KERNBASE in *; lia|lia|]|].
  { intros vpn H1 H2. apply B4. Z.div_mod_to_equations. lia. }
  intros r st2 (Hs2 & Hm2 & Hv2 & Hres).
  assert (held st d t w st2) as Hh2.
  { apply (held_write st d t w st1); [done|done| |].
    - apply set_eq. intros q. destruct (decide (q ∈ dom w)) as [Hq|Hq]; [|rewrite !elem_of_dom; by rewrite Hm2].
      apply elem_of_dom in Hq as [v Hq]. pose proof (fr_in _ _ _ _ (space_frames _ _ _ _ Hs) q v Hq) as [? _]. pose proof (fr_in _ _ _ _ (space_frames _ _ _ _ Hs2) q v Hq) as [? _]. done.
    - intros q Hq. apply Hm2. intros Hqw. apply Hq. unfold space_pages. by apply elem_of_union_r. }
  destruct Hres as [(-> & vpn & H1 & H2 & H3)|(-> & Hall & Hb2)]; [left|right]; (split; [done|]).
  - split; [done|]. destruct (B4 vpn) as [_ Hu]; [Z.div_mod_to_equations; lia|]. rewrite H3 in Hu. destruct (Z.eqb_spec vpn g) as [->|]; done.
  - split.
    { destruct (decide (va / 4096 <= g ∧ 4096 * g < va + Z.of_nat (length buf))) as [[G1 G2]|Hg]; [|Z.div_mod_to_equations; lia].
      specialize (Hall ltac:(lia) g G1 G2). destruct (B4 g) as [_ Hu]; [Z.div_mod_to_equations; lia|]. rewrite Hall, Z.eqb_refl in Hu. done. }
    constructor; [done|done|intros vpn Hvpn; rewrite Hv2 by lia; by apply B3|intros vpn Hvpn; unfold user_page; rewrite Hv2 by lia; by apply B4|].
    intros a Ha. rewrite Hb2 by (unfold KERNBASE in *; lia). unfold overlay. case_decide as Hr; [|by apply B5]. f_equal. apply Z.mod_small.
    rewrite Forall_forall in Hbuf. apply (Hbuf (buf !!! Z.to_nat (a - va))). apply list_elem_of_lookup_total_2. lia.
Qed.
(** clearpteu: the guard page below the stack. *)
Lemma closed_entry e : frame (Z.ldiff e PTE_U) = frame e ∧ present (Z.ldiff e PTE_U) = present e ∧ Z.land (Z.ldiff e PTE_U) PTE_U = 0.
Proof.
  split; [|split].
  - unfold frame, PTE_ADDR. f_equal. apply Z.bits_inj'. intros n Hn. rewrite !Z.land_spec, Z.ldiff_spec. change PTE_U with (2 ^ 2).
    destruct (decide (n = 2)) as [->|Hn2]; [by rewrite !andb_false_r|]. by rewrite Z.pow2_bits_false, andb_true_r by done.
  - rewrite !present_bit, Z.ldiff_spec. apply andb_true_r.
  - apply Z.bits_inj'. intros n Hn. rewrite Z.land_spec, Z.ldiff_spec, Z.bits_0. by destruct (Z.testbit e n), (Z.testbit PTE_U n).
Qed.
Lemma built_clearpteu E t w st1 sz img g : built t w st1 sz (-1) img → 0 <= g < pages_up sz → wpe E (clearpteu d (4096 * g)) (λ _ st2, built t w st2 sz g img) st1.
Proof.
  intros Hb Hg. pose proof Hb as [B1 B2 B3 B4 B5]. pose proof B1 as [_ Hs]. pose proof Hs as [Hgd Ht Hw]. destruct (pages_up_bounds sz B2) as (P1 & P2 & P3).
  destruct (B4 g Hg) as [[e He] _]. destruct (va_slots g) as [Hs1 Hs2]. destruct (closed_entry e) as (C1 & C2 & C3).
  unfold clearpteu. wpe_step. apply walk_spec with t; [done|done|lia| |].
  2: { intros Hpr. rewrite Hs1 in Hpr. unfold vlookup in He. by rewrite Hpr in He. }
  intros p Htp _ _. rewrite Hs1 in *. rewrite Hs2. destruct (tree_tab _ _ _ Ht p _ Htp) as (Hpm & _).
  pose proof (good_page _ _ Hgd Hpm) as Hup. apply elem_of_dom in Hpm as [f Hf]. assert (0 <= g mod 1024 < 1024) as Hj by (apply Z.mod_pos_bound; lia).
  destruct (slot_addr p (g mod 1024) Hup Hj) as (_ & _ & Hnz). rewrite (proj2 (Z.eqb_neq _ 0)) by done. cbn [when].
  pose proof (vlookup_slot _ _ _ _ _ _ Ht Htp Hj) as Hvs. rewrite <- vpn_split, He in Hvs. unfold wd in Hvs. rewrite Hf in Hvs.
  destruct (present (word f (g mod 1024))) eqn:Hpf; [|done]. injection Hvs as Hvs.
  wpe_steps. apply wpe_load with f; [done..|]. wpe_steps. apply wpe_store with f; [done..|]. rewrite <- Hvs in *. set (e' := Z.ldiff e PTE_U) in *.
  pose proof (set_pte_grows d st1 t p _ f (g mod 1024) e' Hgd Ht Htp Hf Hj) as Hgr.
  destruct (tree_set_pte (mem st1) d t p _ f (g mod 1024) e' Ht Htp Hf Hj) as [_ Hvl]. rewrite <- vpn_split, C2, Hpf in Hvl.
  assert (t !! p = Some (g / 1024)) as Hpt by done. assert (p ∉ dom w) as Hpw.
  { intros [v Hv]%elem_of_dom. destruct (fr_in _ _ _ _ Hw p v Hv) as (_ & _ & ? & _). congruence. }
  set (st2 := set_mem _ st1) in *. change (mem st2) with (<[p := <[g mod 1024 := e']> f]> (mem st1)) in *. set (m2 := <[p := _]> (mem st1)) in *.
  assert (dom m2 = dom (mem st1)) as Hdom by (pose proof (grows_dom _ _ _ _ _ Hgr) as Hgd'; change (mem st2) with m2 in Hgd'; rewrite Hgd'; apply tree_tabs_dom in Ht; clear -Ht; set_solver).
  assert (frames m2 d t w) as Hw2.
  { constructor.
    - intros q v Hq. destruct (fr_in _ _ _ _ Hw q v Hq) as (F1 & F2 & F3 & F4 & e0 & F5 & F6). rewrite Hdom, Hvl by lia.
      split; [done|]. split; [done|]. split; [done|]. split; [done|]. case_decide as Hvg; [|by exists e0]. exists e'. split; [done|]. rewrite C1. congruence.
    - intros v e0 Hv. rewrite Hvl by lia. case_decide as Hvg; [|by apply (fr_out _ _ _ _ Hw)]. intros [= <-]. subst v. rewrite C1. by apply (fr_out _ _ _ _ Hw). }
  assert (∀ q, q ∈ dom w → m2 !! q = mem st1 !! q) as Hmw by (intros q Hq; unfold m2; rewrite lookup_insert_ne; [done|]; by intros ->).
  constructor; change (mem st2) with m2.
  - apply (held_grows st d t w st1); [done|done|]. constructor; [apply (grows_good _ _ _ _ _ Hgr)|apply (grows_tree _ _ _ _ _ Hgr)|exact Hw2].
  - done.
  - intros vpn Hvpn. rewrite Hvl, decide_False by lia. by apply B3.
  - intros vpn Hvpn. unfold user_page. rewrite Hvl by lia. destruct (B4 vpn Hvpn) as [Hsome Hu]. case_decide as Hvg.
    + rewrite C3. split; [by eexists|]. subst vpn. by rewrite (Z.eqb_refl g).
    + split; [done|]. unfold user_page in Hu. rewrite Hu, (proj2 (Z.eqb_neq vpn g)) by done. by rewrite (proj2 (Z.eqb_neq vpn (-1))) by lia.
  - intros a Ha. rewrite <- (B5 a Ha). unfold ubyte. rewrite Hvl by (Z.div_mod_to_equations; lia). case_decide as Hag.
    + rewrite Hag, He. cbn. rewrite C1, Hmw; [done|]. eapply elem_of_dom_2, (fr_out _ _ _ _ Hw g); [lia|done].
    + destruct (vlookup (mem st1) d (a / 4096)) as [e0|] eqn:He0; [|done]. cbn. rewrite Hmw; [done|]. eapply elem_of_dom_2, (fr_out _ _ _ _ Hw (a / 4096)); [Z.div_mod_to_equations; lia|done].
Qed.
End build.

(** ** Loading *)
Lemma field32_range l o : Forall (λ b, 0 <= b < 256) l → 0 <= field32 l o < 2 ^ 32.
Proof.
  intros Hl. unfold field32, get32. assert (∀ i, 0 <= default 0 (l !! Z.to_nat i) < 256) as Hb.
  { intros i. destruct (l !! Z.to_nat i) as [b|] eqn:E; [|done]. rewrite Forall_forall in Hl. apply (Hl b). by eapply list_elem_of_lookup_2. }
  pose proof (Hb o). pose proof (Hb (o + 1)). pose proof (Hb (o + 2)). pose proof (Hb (o + 3)). lia.
Qed.
Lemma bytes_of_length bs off n : 0 <= off → 0 <= n → Z.of_nat (length (bytes_of bs off n)) = Z.max 0 (Z.min n (Z.of_nat (length bs) - off)).
Proof. intros. unfold bytes_of. rewrite length_take, length_drop. lia. Qed.
Lemma bytes_of_bytes bs off n : Forall (λ b, 0 <= b < 256) bs → Forall (λ b, 0 <= b < 256) (bytes_of bs off n).
Proof. intros. by apply Forall_take, Forall_drop. Qed.
Lemma bytes_of_app bs off i n : 0 <= off → 0 <= i → 0 <= n → off + i + n <= Z.of_nat (length bs) → bytes_of bs off (i + n) = bytes_of bs off i ++ bytes_of bs (off + i) n.
Proof.
  intros. unfold bytes_of. rewrite (Z2Nat.inj_add i n), (Z2Nat.inj_add off i) by lia. rewrite <- drop_drop. symmetry. apply take_take_drop.
Qed.
Lemma overlay_nil img a x : overlay img a [] x = img x.
Proof. unfold overlay. cbn [length]. by rewrite decide_False by lia. Qed.
Lemma overlay_app img a l1 l2 x : overlay (overlay img a l1) (a + Z.of_nat (length l1)) l2 x = overlay img a (l1 ++ l2) x.
Proof.
  unfold overlay. rewrite length_app, Nat2Z.inj_add. repeat case_decide; try lia.
  - rewrite lookup_total_app_r by lia. f_equal. lia.
  - rewrite lookup_total_app_l by lia. done.
Qed.

Section loading.
Context {F K : Type} `{ProgramFilesLaws F} `{PageAllocatorLaws K} (st : vst K) (d : Z) (E : string → Prop) (HE : allows E).
Context (tr : tree_of) (ip : nat) (bs : list Z).
Implicit Types (s : exst F K).

Lemma on_vm_wpe {A} (m : M (vst K) A) (Q : A → exst F K → Prop) s : wpe E m (λ a v, Q a (set_vm v s)) (vm s) → wpe E (on_vm m) Q s.
Proof. apply wpe_zoom. Qed.
Lemma on_files_wp {A} (m : M F A) (Q : A → exst F K → Prop) s : wp m (λ a f, Q a (set_files f s)) (files s) → wpe E (on_files m) Q s.
Proof. intros Hw. by apply wpe_zoom, wpe_wp. Qed.
Lemma readi_wpe off n (Q : Z * list Z → exst F K → Prop) s : pf_locked tr ip bs (files s) → 0 <= off < 2 ^ 32 → 0 <= n < 2 ^ 31 →
  (∀ f, pf_locked tr ip bs f → Q (if decide (off <= Z.of_nat (length bs)) then (Z.of_nat (length (bytes_of bs off n)), bytes_of bs off n) else (-1, [])) (set_files f s)) →
  wpe E (on_files (pf_readi ip off n)) Q s.
Proof.
  intros Hl Hoff Hn HQ. apply on_files_wp. destruct (pf_content _ _ _ _ Hl) as [_ Hsz]. eapply wp_mono; [apply (pf_readi_ok tr ip bs _ off n Hl Hoff); lia|].
  intros rl f [Hf ->]. specialize (HQ f Hf). unfold bytes_of in *. repeat case_decide; try done; exfalso; lia.
Qed.
(** One page of user memory, its entry and where it is. *)
Lemma set_vm_id s : set_vm (vm s) s = s.
Proof. by destruct s. Qed.
Lemma user_entry {A} (k : Z → M (exst F K) A) (Q : A → exst F K → Prop) t w g sz img v s msg : built st d t w (vm s) sz g img → 0 <= v < pages_up sz →
  (∀ e f, w !! frame e = Some v → mem (vm s) !! frame e = Some f → wpe E (k e) Q s) →
  wpe E (pte ← on_vm (walkpgdir d (4096 * v) false); if pte =? 0 then panic msg else e ← on_vm (load pte); k e) Q s.
Proof.
  intros Hb Hv HQ. pose proof (bu_space st d _ _ _ _ _ _ Hb) as Hs. destruct (pages_up_bounds sz (bu_sz _ _ _ _ _ _ _ _ Hb)) as (P1 & P2 & P3).
  pose proof Hs as [Hg1 Ht1 Hw1]. destruct (bu_user _ _ _ _ _ _ _ _ Hb v Hv) as [[e He] _].
  destruct (va_slots v) as [Hs1 Hs2]. wpe_step. apply on_vm_wpe. apply walk_spec with t; [done|done|lia| |].
  2: { intros Hpr. rewrite Hs1 in Hpr. unfold vlookup in He. by rewrite Hpr in He. }
  intros p Htp _ _. rewrite Hs1 in *. rewrite Hs2. destruct (tree_tab _ _ _ Ht1 p _ Htp) as (Hpm & _).
  pose proof (good_page _ _ Hg1 Hpm) as Hup. apply elem_of_dom in Hpm as [f Hf]. assert (0 <= v mod 1024 < 1024) as Hj by (apply Z.mod_pos_bound; lia).
  destruct (slot_addr p (v mod 1024) Hup Hj) as (_ & _ & Hnz). rewrite (proj2 (Z.eqb_neq _ 0)) by done.
  pose proof (vlookup_slot _ _ _ _ _ _ Ht1 Htp Hj) as Hvs. rewrite <- vpn_split, He in Hvs. unfold wd in Hvs. rewrite Hf in Hvs.
  wpe_step. apply on_vm_wpe. rewrite set_vm_id. apply wpe_load with f; [done..|]. rewrite set_vm_id.
  destruct (present (word f (v mod 1024))); [|done]. injection Hvs as <-.
  pose proof (fr_out _ _ _ _ Hw1 v e ltac:(lia) He) as Hwe. destruct (fr_in _ _ _ _ Hw1 _ _ Hwe) as (Hed & _). apply elem_of_dom in Hed as [f' Hf']. by apply (HQ e f').
Qed.
Lemma load_loop_spec fuel t w sz img addr off fsz : ∀ k s, addr mod 4096 = 0 → 0 <= addr → 0 <= off < 2 ^ 32 → 0 <= fsz → addr + fsz <= sz → let n := Z.min (4096 * k) fsz in
  built st d t w (vm s) sz (-1) (overlay img addr (bytes_of bs off n)) → pf_locked tr ip bs (files s) → 0 <= k → (n = 0 ∨ off + n <= Z.of_nat (length bs)) →
  (0 < fuel)%nat → fsz <= 4096 * (k + Z.of_nat fuel - 1) →
  wpe E (load_loop fuel d addr ip off fsz (4096 * k)) (λ r s', pf_locked tr ip bs (files s') ∧ curproc s' = curproc s ∧
    (r = -1 ∧ held st d t w (vm s') ∨ r = 0 ∧ fits bs off fsz = true ∧ built st d t w (vm s') sz (-1) (overlay img addr (bytes_of bs off fsz)))) s.
Proof.
  induction fuel as [|fuel IH]; intros k s Hal Haddr Hoff Hfsz Htop n Hb Hl Hk Hkb Hfu Hfuel; [lia|].
  cbn [load_loop].
  destruct (pf_content _ _ _ _ Hl) as [Hby Hsmall]. pose proof (bu_sz _ _ _ _ _ _ _ _ Hb) as Hsz. destruct (pages_up_bounds sz Hsz) as (P1 & P2 & P3).
  destruct (Z.ltb_spec (4096 * k) fsz) as [Hlt|Hge].
  2: { assert (n = fsz) as Hn by (unfold n; lia). rewrite Hn in *. wpe_step. split; [done|]. split; [done|]. right. split; [done|]. split; [|done].
    unfold fits. destruct (Z.eqb_spec fsz 0); [done|]. cbn. apply andb_true_iff. rewrite !Z.leb_le. lia. }
  assert (n = 4096 * k) as Hn by (unfold n; lia). rewrite Hn in *. clear n Hn. set (v := addr / 4096 + k).
  assert (addr = 4096 * (addr / 4096)) as Ha4 by (Z.div_mod_to_equations; lia). rewrite (u32_small (addr + 4096 * k)) by (unfold KERNBASE in *; lia).
  replace (addr + 4096 * k) with (4096 * v) by (unfold v; lia).
  apply (user_entry _ _ t w (-1) sz _ v s _ Hb); [unfold v; split; [Z.div_mod_to_equations; lia|]; lia|]. intros e f Hwe Hf.
  cbv beta zeta. unfold PGSIZE. set (n := if fsz - 4096 * k <? 4096 then fsz - 4096 * k else 4096).
  assert (0 < n <= 4096 ∧ 4096 * k + n <= fsz ∧ (n = 4096 ∨ 4096 * k + n = fsz)) as (Hn & Hnf & Hnn) by (unfold n; destruct (Z.ltb_spec (fsz - 4096 * k) 4096); lia).
  assert (Z.min (4096 * (k + 1)) fsz = 4096 * k + n) as Hmin by lia. clearbody n.
  assert (off + 4096 * k < 2 ^ 32) as Hok32 by (destruct Hkb; lia). rewrite (u32_small (off + 4096 * k)) by lia.
  wpe_step. apply readi_wpe; [done|lia|lia|]. intros f1 Hl1. set (rl := if decide _ then _ else _). destruct rl as [r l] eqn:Erl.
  assert (Forall (λ b, 0 <= b < 256) l ∧ Z.of_nat (length l) <= 4096 ∧ (r = n → l = bytes_of bs (off + 4096 * k) n ∧ off + 4096 * k + n <= Z.of_nat (length bs))) as (Hlb & Hll & Hrn).
  { unfold rl in Erl. pose proof (bytes_of_length bs (off + 4096 * k) n ltac:(lia) ltac:(lia)) as Hbl. case_decide as Hoff2; injection Erl as <- <-.
    - split; [by apply bytes_of_bytes|]. split; [lia|]. intros Hr. split; [done|]. lia.
    - split; [constructor|]. split; [done|]. lia. }
  clear Erl rl. wpe_step. apply on_vm_wpe. change (P2V (PTE_ADDR e)) with (frame e).
  assert (upage (frame e)) as Hup by (eapply (good_page (vm s)); [apply (bu_space _ _ _ _ _ _ _ _ Hb)|by eapply elem_of_dom_2]).
  rewrite <- (Z.add_0_r (frame e)). apply wpe_memmove_bytes with f; [done|done|done|].
  pose proof (built_write _ _ _ _ _ _ _ _ _ _ f l 0 Hb Hwe Hf ltac:(unfold v; lia) ltac:(done) ltac:(lia) Hlb) as Hb2. cbn [vm set_vm set_files] in *.
  destruct (Z.eqb_spec r n) as [Hr|Hr]; cbn [negb].
  - destruct (Hrn Hr) as [-> Hin]. rewrite u32_small by (unfold KERNBASE in *; lia). replace (4096 * k + 4096) with (4096 * (k + 1)) by lia.
    eapply wpe_mono; [apply (IH (k + 1)); try done|].
    + cbn [vm set_vm set_files]. rewrite Hmin, bytes_of_app by lia. eapply built_ext; [exact Hb2|]. intros a Ha. cbn beta.
      rewrite <- overlay_app. f_equal. rewrite Z.add_0_r. assert (Z.of_nat (length (bytes_of bs off (4096 * k))) = 4096 * k) as -> by (rewrite bytes_of_length by lia; lia). unfold v. lia.
    + lia.
    + rewrite Hmin. right. lia.
    + lia.
    + lia.
    + intros r' s' (H1' & H2' & H3'). done.
  - wpe_step. split; [done|]. split; [done|]. left. split; [done|]. apply (bu_held _ _ _ _ _ _ _ _ Hb2).
Qed.
Lemma loaduvm_spec t w sz img addr off fsz s : addr mod 4096 = 0 → 0 <= addr → 0 <= off < 2 ^ 32 → 0 <= fsz → addr + fsz <= sz →
  built st d t w (vm s) sz (-1) img → pf_locked tr ip bs (files s) →
  wpe E (loaduvm d addr ip off fsz) (λ r s', pf_locked tr ip bs (files s') ∧ curproc s' = curproc s ∧
    (r = -1 ∧ held st d t w (vm s') ∨ r = 0 ∧ fits bs off fsz = true ∧ built st d t w (vm s') sz (-1) (overlay img addr (bytes_of bs off fsz)))) s.
Proof.
  intros Hal Haddr Hoff Hfsz Htop Hb Hl. unfold loaduvm. unfold PGSIZE at 1. rewrite Hal. cbn [Z.eqb negb]. change 0 with (4096 * 0) at 1.
  apply load_loop_spec; try done.
  - rewrite Z.min_l by lia. eapply built_ext; [exact Hb|]. intros a Ha. change (bytes_of bs off (4096 * 0)) with (@nil Z). symmetry. apply overlay_nil.
  - left. lia.
  - lia.
  - unfold PGSIZE. rewrite Nat2Z.inj_succ, Z2Nat.id by (Z.div_mod_to_equations; lia). Z.div_mod_to_equations. lia.
Qed.
Lemma load_segments_spec pid n : pid ≠ -1 → ∀ t w off sz img s, built st d t w (vm s) sz (-1) img → pf_locked tr ip bs (files s) →
  wpe E (load_segments n pid d ip off sz) (λ o s', pf_locked tr ip bs (files s') ∧ curproc s' = curproc s ∧ ∃ t' w',
    match o with
    | None => held st d t' w' (vm s')
    | Some sz' => ∃ img', program n bs off sz img = Some (sz', img') ∧ built st d t' w' (vm s') sz' (-1) img'
    end) s.
Proof.
  intros Hpid. induction n as [|n IH]; intros t w off sz img s Hb Hl.
  { cbn [load_segments]. wpe_step. split; [done|]. split; [done|]. exists t, w, img. done. }
  cbn [load_segments program]. destruct (pf_content _ _ _ _ Hl) as [Hby Hsmall]. pose proof (u32_range off) as Hoff.
  pose proof (bytes_of_length bs (u32 off) sizeof_proghdr ltac:(lia) ltac:(done)) as Hlen. pose proof (bytes_of_bytes bs (u32 off) sizeof_proghdr Hby) as Hlb.
  wpe_step. apply readi_wpe; [done|lia|done|]. intros f1 Hl1. pose proof (bu_held _ _ _ _ _ _ _ _ Hb) as Hh.
  destruct (decide (u32 off <= Z.of_nat (length bs))) as [Hin|Hout].
  2: { change (negb (-1 =? sizeof_proghdr)) with true. cbn iota beta zeta. wpe_step. split; [done|]. split; [done|]. by exists t, w. }
  set (l := bytes_of bs (u32 off) sizeof_proghdr) in *. destruct (Z.eqb_spec (Z.of_nat (length l)) sizeof_proghdr) as [Hl32|Hl32]; cbn [negb].
  2: { wpe_step. split; [done|]. split; [done|]. by exists t, w. }
  pose proof (field32_range l 8 Hlb) as R1. pose proof (field32_range l 20 Hlb) as R2. pose proof (field32_range l 16 Hlb) as R3. pose proof (field32_range l 4 Hlb) as R4.
  change (field32 l 8) with (vaddr (get_proghdr l)) in R1. change (field32 l 20) with (memsz (get_proghdr l)) in R2. change (field32 l 16) with (filesz (get_proghdr l)) in R3.
  change (field32 l 4) with (ph_off (get_proghdr l)) in R4. set (ph := get_proghdr l) in *. clearbody ph. clearbody l. cbv zeta.
  destruct (Z.eqb_spec (ph_type ph) ELF_PROG_LOAD) as [Hty|Hty]; cbn [negb].
  2: { by apply (IH t w (s32 (off + sizeof_proghdr)) sz img (set_files f1 s)). }
  destruct (Z.ltb_spec (memsz ph) (filesz ph)) as [Hmf|Hmf].
  { wpe_step. split; [done|]. split; [done|]. by exists t, w. }
  destruct (Z.ltb_spec (u32 (vaddr ph + memsz ph)) (vaddr ph)) as [Hwr|Hwr].
  { wpe_step. split; [done|]. split; [done|]. by exists t, w. }
  assert (u32 (vaddr ph + memsz ph) = vaddr ph + memsz ph) as Htop by (unfold u32 in *; Z.div_mod_to_equations; lia).
  rewrite Htop. cbn [orb]. wpe_step. apply on_vm_wpe. eapply wpe_mono; [apply (built_alloc st d E t w (vm s) sz img pid _ HE Hpid Hb); lia|].
  intros sz' v2 (t2 & w2 & [[-> Hh2]|(Hsz' & Hk & Hb2)]).
  { cbn beta. rewrite Z.eqb_refl. wpe_step. split; [done|]. split; [done|]. by exists t2, w2. }
  pose proof (bu_held _ _ _ _ _ _ _ _ Hb2) as Hh2. rewrite (proj2 (Z.leb_gt KERNBASE _)) by done. cbn [orb]. rewrite <- Hsz'.
  destruct (Z.eqb_spec sz' 0) as [Hz|Hz].
  { wpe_step. split; [done|]. split; [done|]. by exists t2, w2. }
  destruct (Z.eqb_spec (vaddr ph mod PGSIZE) 0) as [Hal|Hal]; cbn [negb orb].
  2: { wpe_step. split; [done|]. split; [done|]. by exists t2, w2. }
  wpe_step. eapply wpe_mono; [apply (loaduvm_spec t2 w2 sz' (zero_from img sz)); try done; lia|].
  intros r s2 (Hl2 & Hc2 & [[-> Hh3]|(-> & Hf & Hb3)]).
  - change (-1 <? 0) with true. cbn iota beta. wpe_step. split; [done|]. split; [done|]. by exists t2, w2.
  - rewrite Hf. cbn [negb]. change (0 <? 0) with false. cbn iota beta. eapply wpe_mono; [by apply (IH t2 w2)|].
    intros o s3 (Hl3 & Hc3 & Ho). split; [done|]. split; [|done]. by rewrite Hc3, Hc2.
Qed.

(** *** The stack *)
Lemma round4 x : 0 <= x < 2 ^ 32 → Z.land x (u32 (Z.lnot 3)) = x - x mod 4.
Proof.
  intros Hx. change (u32 (Z.lnot 3)) with (Z.shiftl (Z.ones 30) 2). transitivity (Z.shiftl (Z.shiftr x 2) 2).
  - apply Z.bits_inj'. intros n Hn. rewrite Z.land_spec. destruct (Z.ltb_spec n 2).
    + rewrite !Z.shiftl_spec_low by lia. apply andb_false_r.
    + rewrite !Z.shiftl_spec, Z.shiftr_spec by lia. replace (n - 2 + 2) with n by lia. rewrite Z.testbit_ones_nonneg by lia.
      destruct (Z.ltb_spec (n - 2) 30); [by rewrite andb_true_r|]. rewrite andb_false_r. symmetry.
      destruct (decide (x = 0)) as [->|]; [apply Z.bits_0|]. apply Z.bits_above_log2; [lia|].
      apply Z.log2_lt_pow2; [lia|]. apply Z.lt_le_trans with (2 ^ 32); [lia|]. apply Z.pow_le_mono_r; lia.
  - rewrite Z.shiftl_mul_pow2, Z.shiftr_div_pow2 by lia. change (2 ^ 2) with 4. Z.div_mod_to_equations. lia.
Qed.
Definition arg_ok (a : list Z) : Prop := Forall (λ b, 0 <= b < 256) a ∧ Z.of_nat (length a) < PGSIZE.
Lemma push_args_spec argv t w sz : Forall arg_ok argv → 2 <= pages_up sz → ∀ argc sp img ptrs s, let P := pages_up sz in
  built st d t w (vm s) sz (P - 2) img → 4096 * (P - 1) <= sp <= 4096 * P → 0 <= argc <= MAXARG →
  wpe E (push_args argv argc d sp ptrs) (λ o s', files s' = files s ∧ curproc s' = curproc s ∧
    match o with
    | None => held st d t w (vm s')
    | Some (sp', ptrs') => argc + Z.of_nat (length argv) <= MAXARG ∧ ∃ ps img', ptrs' = ptrs ++ ps ∧ length ps = length argv ∧
        4096 * (P - 1) <= sp' <= sp ∧ built st d t w (vm s') sz (P - 2) img' ∧ (∀ a, a < sp' ∨ sp <= a → img' a = img a) ∧
        ∀ (i : nat) a p, argv !! i = Some a → ps !! i = Some p → sp' <= p ∧ string_at img' p a
    end) s.
Proof.
  intros Hargs HP. induction argv as [|a argv IH]; intros argc sp img ptrs s P Hb Hsp Hargc.
  { cbn [push_args]. wpe_step. split; [done|]. split; [done|]. cbn [length]. split; [lia|]. exists [], img. rewrite app_nil_r. split; [done|]. split; [done|].
    split; [lia|]. split; [done|]. split; [done|]. intros i ? ? Hi. done. }
  apply Forall_cons in Hargs as [[Ha1 Ha2] Hargs]. specialize (IH Hargs). cbn [push_args]. pose proof (bu_sz _ _ _ _ _ _ _ _ Hb) as Hsz.
  destruct (pages_up_bounds sz Hsz) as (P1 & _). fold P in P1. unfold PGSIZE in Ha2. pose proof (bu_held _ _ _ _ _ _ _ _ Hb) as Hh.
  destruct (Z.leb_spec MAXARG argc) as [Hm|Hm]; [wpe_step; split; [done|]; by split|].
  rewrite u32_small by lia. rewrite round4 by lia. set (x := sp - (Z.of_nat (length a) + 1)). set (sp1 := x - x mod 4).
  assert (4096 * (P - 2) <= sp1 ∧ sp1 <= x) as [Hx1 Hx2] by (unfold sp1, x; Z.div_mod_to_equations; lia).
  assert (Z.of_nat (length a) + 1 = Z.of_nat (length (a ++ [0]))) as Hla by (rewrite length_app; cbn; lia). rewrite Hla. cbv zeta.
  assert (sp1 + Z.of_nat (length (a ++ [0])) <= sp) as Hend by (rewrite <- Hla; unfold x in *; lia). clearbody sp1. clear x Hx2.
  wpe_step. apply on_vm_wpe. eapply wpe_mono.
  { apply (built_copyout st d E t w (vm s) sz (P - 2) img sp1 (a ++ [0]) Hb); [lia|fold P; lia|lia|]. apply Forall_app. split; [done|]. by repeat constructor. }
  intros r v2 [(-> & Hh2 & _)|(-> & Hg & Hb2)].
  { change (-1 <? 0) with true. cbn iota. wpe_step. split; [done|]. by split. }
  change (0 <? 0) with false. cbn iota.
  eapply wpe_mono; [apply (IH (argc + 1) sp1 _ (ptrs ++ [sp1]) (set_vm v2 s) Hb2); lia|].
  intros [[sp' ptrs']|] s' (Hf & Hc & Hres); (split; [done|]; split; [done|]); [|done].
  destruct Hres as (Hm' & ps & img' & -> & Hlen & Hsp' & Hb' & Hsame & Hstr). cbn [length]. split; [lia|]. exists (sp1 :: ps), img'.
  split; [by rewrite <- app_assoc|]. split; [by cbn [length]; f_equal|]. split; [lia|]. split; [done|]. split.
  - intros y Hy. rewrite Hsame by lia. unfold overlay. by rewrite decide_False by lia.
  - intros [|i] b p Hi Hp; cbn in Hi, Hp; [|by apply (Hstr i)]. injection Hi as <-. injection Hp as <-. split; [lia|]. intros j c Hj.
    pose proof (lookup_lt_Some _ _ _ Hj). rewrite Hsame by lia. unfold overlay. rewrite decide_True by lia. replace (sp1 + Z.of_nat j - sp1) with (Z.of_nat j) by lia.
    rewrite Nat2Z.id. by apply list_lookup_total_correct.
Qed.
Lemma word_bytes_bytes v : Forall (λ b, 0 <= b < 256) (word_bytes v).
Proof. repeat constructor; unfold u8; by apply Z.mod_pos_bound. Qed.
Lemma words_bytes_bytes l : Forall (λ b, 0 <= b < 256) (words_bytes l).
Proof. unfold words_bytes. induction l as [|v l IH]; [constructor|]. cbn [mbind list_bind]. apply Forall_app. split; [apply word_bytes_bytes|done]. Qed.
Lemma words_bytes_length l : length (words_bytes l) = (4 * length l)%nat.
Proof. unfold words_bytes. induction l as [|v l IH]; [done|]. cbn [mbind list_bind]. rewrite length_app, IH. cbn [length word_bytes]. lia. Qed.
End loading.

(** ** exec *)
Section exec.
Context {F K : Type} `{ProgramFilesLaws F} `{PageAllocatorLaws K} (E : string → Prop) (HE : allows E).
Context (tr : tree_of) (st : vst K) (cp : image) (t0 w0 : gmap Z Z) (Hold : space st (p_pgdir cp) t0 w0).
Implicit Types (s : exst F K).

(** It failed, and nothing has changed. *)
Definition exec_failed (r : Z) s : Prop := r = -1 ∧ pf_idle tr (files s) ∧ good (vm s) ∧ mem (vm s) = mem st ∧ curproc s = cp.
(** The process runs the program of [sz] bytes that [img] shows: its user memory is the program, a page that it
    cannot reach, and a page of stack; the old address space is gone and all other pages are as they were. *)
Definition exec_done (path : list Z) (argv : list (list Z)) (eip sz : Z) (img : Z → Z) s : Prop := ∃ d t w img' ptrs sp,
  let top := 4096 * (pages_up sz + 2) in
  curproc s = mkImage (take 15 (basename path path)) d top eip sp ∧
  space (vm s) d t w ∧ space_pages d t w ## dom (mem st) ∧
  (∀ q, q ∉ space_pages d t w → mem (vm s) !! q = if decide (q ∈ space_pages (p_pgdir cp) t0 w0) then None else mem st !! q) ∧
  (∀ a, 0 <= a < top → ubyte (mem (vm s)) d a = Some (img' a) ∧ user_page (mem (vm s)) d (a / 4096) = negb (a / 4096 =? pages_up sz)) ∧
  (∀ a, 0 <= a < 4096 * pages_up sz → img' a = img a) ∧
  length ptrs = length argv ∧ bytes_at img' sp (words_bytes (stack_words (Z.of_nat (length argv)) sp ptrs)) ∧
  ∀ (i : nat) a p, argv !! i = Some a → ptrs !! i = Some p → string_at img' p a.

Lemma held_nonzero d t w st1 : held st d t w st1 → d ≠ 0.
Proof. intros [_ [Hg Ht _]]. destruct (good_page _ _ Hg (tree_dir _ _ _ Ht)) as [? _]. unfold KERNBASE in *. lia. Qed.
Lemma exec_bad_vm d t w s : held st d t w (vm s) → wpe E (when (negb (d =? 0)) (on_vm (freevm d))) (λ _ s', files s' = files s ∧ curproc s' = curproc s ∧ good (vm s') ∧ mem (vm s') = mem st) s.
Proof.
  intros Hh. rewrite (proj2 (Z.eqb_neq d 0)) by (by eapply held_nonzero). cbn [when negb]. apply on_vm_wpe. eapply wpe_mono; [by apply (held_freevm E st d t w)|].
  intros [] v' [? ?]. done.
Qed.
Lemma exec_bad_stack d t w s : held st d t w (vm s) → pf_idle tr (files s) → curproc s = cp → wpe E (exec_bad d None) exec_failed s.
Proof.
  intros Hh Hf Hc. unfold exec_bad. wpe_step. eapply wpe_mono; [by apply (exec_bad_vm d t w)|]. intros [] s' (Hf' & Hc' & Hg & Hm). wpe_steps.
  unfold exec_failed. rewrite Hf', Hc'. done.
Qed.
Lemma close_file ip bs s : pf_locked tr ip bs (files s) → ∀ Q : () → exst F K → Prop, (∀ f, pf_idle tr f → Q () (set_files f s)) → wpe E (on_files (pf_iunlockput ip)) (λ _, wpe E (on_files pf_end_op) Q) s.
Proof.
  intros Hl Q HQ. apply on_files_wp. eapply wp_mono; [by apply (pf_iunlockput_ok tr ip bs)|]. intros [] f1 Hf1.
  apply on_files_wp. eapply wp_mono; [by apply (pf_end_ok tr)|]. intros [] f2 Hf2. by apply HQ.
Qed.
Lemma exec_bad_open ip bs s : good (vm s) → mem (vm s) = mem st → pf_locked tr ip bs (files s) → curproc s = cp → wpe E (exec_bad 0 (Some ip)) exec_failed s.
Proof.
  intros Hg Hm Hl Hc. unfold exec_bad. cbn [Z.eqb negb when]. wpe_steps. apply (close_file ip bs); [done|]. intros f Hf. wpe_steps. done.
Qed.
Lemma exec_bad_load d t w ip bs s : held st d t w (vm s) → pf_locked tr ip bs (files s) → curproc s = cp → wpe E (exec_bad d (Some ip)) exec_failed s.
Proof.
  intros Hh Hl Hc. unfold exec_bad. wpe_step. eapply wpe_mono; [by apply (exec_bad_vm d t w)|]. intros [] s' (Hf' & Hc' & Hg & Hm). wpe_steps.
  apply (close_file ip bs); [by rewrite Hf'|]. intros f Hf. wpe_steps. split; [done|]. split; [done|]. split; [done|]. split; [done|]. by rewrite <- Hc, <- Hc'.
Qed.
Lemma pages_up_pages n : pages_up (4096 * n) = n.
Proof. unfold pages_up. Z.div_mod_to_equations. lia. Qed.
(** The new address space takes the place of the old one. *)
Lemma exec_commit d t w sz0 sz img img' path argv eip sp ptrs s : built st d t w (vm s) (4096 * (pages_up sz0 + 2)) (pages_up sz0) img' → sz = 4096 * (pages_up sz0 + 2) →
  (∀ a, 0 <= a < 4096 * pages_up sz0 → img' a = img a) → length ptrs = length argv → bytes_at img' sp (words_bytes (stack_words (Z.of_nat (length argv)) sp ptrs)) →
  (∀ (i : nat) a p, argv !! i = Some a → ptrs !! i = Some p → string_at img' p a) → 0 <= sz0 → pf_idle tr (files s) →
  wpe E (modify (set_curproc (mkImage (take 15 (basename path path)) d sz eip sp)) ;; on_vm (freevm (p_pgdir cp)) ;; mret 0)
    (λ r s', exec_failed r s' ∨ r = 0 ∧ pf_idle tr (files s') ∧ exec_done path argv eip sz0 img s') s.
Proof.
  intros Hb -> Himg Hlen Hw Hstr Hz Hf. pose proof Hb as [[A Hs] B2 _ B4 B5]. pose proof A as [_ A2 A3 A4]. rewrite pages_up_pages in B4, B5.
  destruct (adds_space st (vm s) _ _ _ _ A Hold) as [Hold' _]. wpe_steps. apply on_vm_wpe. cbn [vm set_curproc].
  eapply wpe_mono; [by apply (freevm_spec E _ _ t0 w0)|]. intros [] v2 (Hg2 & Hm2). wpe_step. right. split; [done|]. split; [done|].
  assert (∀ q, q ∈ space_pages d t w → q ∉ space_pages (p_pgdir cp) t0 w0) as Hdisj.
  { intros q Hq Hq0. apply (A2 q Hq). pose proof Hold as [_ Ht0 Hw0]. unfold space_pages in Hq0. apply elem_of_union in Hq0 as [[->%elem_of_singleton|Hq0]%elem_of_union|Hq0]; [apply Ht0|by apply (tree_tabs_dom _ _ _ Ht0)|].
    apply elem_of_dom in Hq0 as [x Hx]. by apply (fr_in _ _ _ _ Hw0 q x). }
  assert (∀ q, q ∈ space_pages d t w → mem v2 !! q = mem (vm s) !! q) as Hkeep by (intros q Hq; rewrite Hm2, decide_False; [done|by apply Hdisj]).
  destruct (space_other (vm s) d t w v2 Hs Hg2 Hkeep) as [Hs2 Hv2].
  exists d, t, w, img', ptrs, sp. split; [done|]. split; [done|]. split; [done|]. split.
  { intros q Hq. cbn [vm set_vm]. rewrite Hm2. case_decide; [done|]. destruct (decide (q ∈ dom (mem st))) as [Hqm|Hqm]; [by apply A4|].
    rewrite (proj1 (not_elem_of_dom (mem st) q) Hqm). apply not_elem_of_dom. rewrite A3. intros [?|?]%elem_of_union; done. }
  split; [|done]. intros a Ha. cbn [vm set_vm]. unfold KERNBASE in *. split.
  - rewrite <- (B5 a Ha). apply (word_mem_same (vm s) d t w); [done|Z.div_mod_to_equations; lia|apply Hv2; Z.div_mod_to_equations; lia|].
    intros q Hq. apply Hkeep. by apply elem_of_union_r.
  - destruct (B4 (a / 4096)) as [_ <-]; [Z.div_mod_to_equations; lia|]. unfold user_page. rewrite Hv2 by (Z.div_mod_to_equations; lia). done.
Qed.
Lemma exec_stack_spec pid d t w sz img path argv eip s : pid ≠ -1 → Forall arg_ok argv → built st d t w (vm s) sz (-1) img → pf_idle tr (files s) → curproc s = cp →
  wpe E (exec_stack pid d sz eip path argv) (λ r s', exec_failed r s' ∨ r = 0 ∧ pf_idle tr (files s') ∧ exec_done path argv eip sz img s') s.
Proof.
  intros Hpid Hargs Hb Hf Hc. pose proof Hb as [B1 B2 B3 B4 B5]. destruct (pages_up_bounds sz B2) as (P1 & P2 & P3). unfold exec_stack, PGSIZE.
  rewrite PGROUNDUP_pages by lia. set (P := pages_up sz) in *. rewrite u32_small by lia. cbv zeta.
  wpe_step. apply on_vm_wpe. eapply (wpe_mono _ _ (λ r v, ∃ t' w', r = 0 ∧ held st d t' w' v ∨ r = 4096 * (P + 2) ∧ built st d t' w' v (4096 * (P + 2)) (-1) (zero_from img (4096 * P)))).
  { destruct (decide (P = 2 ^ 19)) as [->|HP].
    { unfold allocuvm. change (KERNBASE <=? _) with true. cbn iota. wpe_step. exists t, w. by left. }
    assert (built st d t w (vm s) (4096 * P) (-1) img) as Hb0 by (constructor; rewrite ?pages_up_pages; try done; unfold KERNBASE; lia).
    eapply wpe_mono; [apply (built_alloc st d E t w (vm s) (4096 * P) img pid _ HE Hpid Hb0); lia|].
    intros r v (t' & w' & [?|(Hr & _ & Hb')]); exists t', w'; [by left|right]. rewrite Z.max_r in Hr by lia. replace (4096 * (P + 2)) with (4096 * P + 2 * 4096) by lia. by subst r. }
  intros r v2 (t2 & w2 & [[-> Hh2]|[-> Hb2]]).
  { cbn beta. rewrite Z.eqb_refl. eapply wpe_mono; [by apply (exec_bad_stack d t2 w2)|]. intros r s' ?. by left. }
  rewrite (proj2 (Z.eqb_neq _ 0)) by lia. set (img2 := zero_from img (4096 * P)) in *. assert (∀ a, a < 4096 * P → img2 a = img a) as Himg2.
  { intros a Ha. unfold img2, zero_from. rewrite pages_up_pages. by rewrite decide_True. }
  clearbody img2. replace (4096 * (P + 2) - 2 * 4096) with (4096 * P) by lia. wpe_step. apply on_vm_wpe.
  eapply wpe_mono; [apply (built_clearpteu st d E t2 w2 _ (4096 * (P + 2)) img2 P Hb2); rewrite pages_up_pages; lia|]. intros [] v3 Hb3. wpe_step.
  assert (pages_up (4096 * (P + 2)) = P + 2) as HP2 by apply pages_up_pages. assert (2 <= pages_up (4096 * (P + 2))) as HP3 by lia.
  eapply wpe_mono; [apply (push_args_spec st d E argv t2 w2 (4096 * (P + 2)) Hargs HP3 0 (4096 * (P + 2)) img2 [])|].
  - rewrite HP2. replace (P + 2 - 2) with P by lia. done.
  - rewrite HP2. lia.
  - done.
  - intros o s4 (Hf4 & Hc4 & Hres). cbn [files curproc set_vm] in Hf4, Hc4. destruct o as [[sp ptrs]|].
    2: { eapply wpe_mono; [by apply (exec_bad_stack d t2 w2); [|rewrite Hf4|rewrite Hc4]|]. intros r s' ?. by left. }
    destruct Hres as (Hm & ps & img4 & Hps & Hlen & Hsp & Hb4 & Hsame & Hstr). cbn in Hps. subst ptrs. rewrite HP2 in *. replace (P + 2 - 2) with P in Hb4 by lia.
    set (argc := Z.of_nat (length argv)) in *. assert (0 <= argc <= 32) as Hargc by (unfold MAXARG in Hm; lia). pose proof (bu_sz _ _ _ _ _ _ _ _ Hb4) as Hsz4. unfold KERNBASE in Hsz4.
    rewrite !u32_small by lia. set (sp' := sp - (3 + argc + 1) * 4). replace (sp - (argc + 1) * 4) with (sp' + 12) by (unfold sp'; lia). assert (sp' = sp - (3 + argc + 1) * 4) as Hsp' by done. clearbody sp'.
    change ([0xffffffff; argc; sp' + 12] ++ ps ++ [0]) with (stack_words argc sp' ps). assert (Z.of_nat (length (words_bytes (stack_words argc sp' ps))) = (3 + argc + 1) * 4) as Hwl.
    { rewrite words_bytes_length. unfold stack_words. rewrite !length_app. cbn [length]. rewrite Hlen. unfold argc. lia. }
    rewrite <- Hwl. wpe_step. apply on_vm_wpe. eapply wpe_mono; [apply (built_copyout st d E t2 w2 _ _ P img4 sp' _ Hb4)|].
    + lia.
    + rewrite HP2. lia.
    + lia.
    + apply words_bytes_bytes.
    + intros r v5 [(-> & Hh5 & _)|(-> & Hg5 & Hb5)].
      { change (-1 <? 0) with true. cbn iota. eapply wpe_mono; [by apply (exec_bad_stack d t2 w2); [|cbn [files set_vm]; rewrite Hf4|cbn [curproc set_vm]; rewrite Hc4]|]. intros r s' ?. by left. }
      change (0 <? 0) with false. cbn iota. wpe_step. apply wpe_gets. cbn [curproc set_vm]. rewrite Hc4, Hc.
      eapply (exec_commit d t2 w2 sz _ img _ path argv eip sp' ps (set_vm v5 s4) Hb5); try done.
      * intros a Ha. unfold overlay. rewrite decide_False, Hsame, Himg2 by lia. done.
      * fold argc. intros i b Hi. pose proof (lookup_lt_Some _ _ _ Hi). unfold overlay. rewrite decide_True by lia. replace (sp' + Z.of_nat i - sp') with (Z.of_nat i) by lia.
        rewrite Nat2Z.id. by apply list_lookup_total_correct.
      * intros i a p Hi Hp. destruct (Hstr i a p Hi Hp) as [Hpsp Hs]. intros j b Hj. unfold overlay. rewrite decide_False by lia. by apply Hs.
      * lia.
      * cbn [files set_vm]. by rewrite Hf4.
Qed.
End exec.

(** C6: starting a program.  When nothing else runs, exec on any path, file and arguments shorter than a page either returns -1, with the
    file closed, the transaction ended and every page as it was, however far it had got; or it returns 0: the
    path names a program, the process has an address space of new pages that holds the program's segments, a guard page
    and the stack with the arguments, and exactly the pages of the old address space are given back. *)
Theorem exec_spec {F K} `{ProgramFilesLaws F} `{PageAllocatorLaws K} data tr pid path argv (s : exst F K) t0 w0 : pid ≠ -1 → data_ok data →
  pf_idle tr (files s) → space (vm s) (p_pgdir (curproc s)) t0 w0 → Forall arg_ok argv →
  wpe pa_starved (exec data pid path argv) (λ r s',
    exec_failed tr (vm s) (curproc s) r s' ∨
    r = 0 ∧ pf_idle tr (files s') ∧ ∃ bs sz img, tr path = Some bs ∧ program_file bs = Some (sz, img) ∧
      exec_done (vm s) (curproc s) t0 w0 path argv (entry (read_elf bs)) sz img s') s.
Proof.
  intros Hpid Hdata Hf Hold Hargs. assert (allows pa_starved) as HE by by intros ?. set (Q := λ (r : Z) (s' : exst F K), exec_failed tr (vm s) (curproc s) r s' ∨ _).
  assert (∀ r s', exec_failed tr (vm s) (curproc s) r s' → Q r s') as HQ by (intros r s' ?; by left).
  unfold exec. wpe_step. apply on_files_wp. eapply wp_mono; [by apply (pf_begin_ok tr)|]. intros [] f1 Hf1. wpe_step. apply on_files_wp. cbn [files set_files].
  eapply wp_mono; [by apply (pf_namei_ok tr path)|]. intros [ip|] f2 Hf2.
  2: { destruct Hf2 as [_ Hf2]. wpe_step. apply on_files_wp. eapply wp_mono; [by apply (pf_end_ok tr)|]. intros [] f3 Hf3. wpe_step. apply HQ.
    split; [done|]. split; [done|]. split; [apply Hold|done]. }
  destruct Hf2 as (bs & Hbs & Hf2). wpe_step. apply on_files_wp. eapply wp_mono; [by apply (pf_ilock_ok tr ip bs)|]. intros [] f3 Hf3. cbn [files set_files].
  destruct (pf_content tr ip bs f3 Hf3) as [Hby Hsmall]. wpe_step. apply (readi_wpe _ tr ip bs); [done|done|done|]. intros f4 Hf4. rewrite decide_True by lia.
  fold (read_elf bs). pose proof (bytes_of_length bs 0 sizeof_elfhdr ltac:(done) ltac:(done)) as Hlen. cbv zeta.
  destruct (Z.eqb_spec (Z.of_nat (length (bytes_of bs 0 sizeof_elfhdr))) sizeof_elfhdr) as [Hl|Hl]; cbn [negb].
  2: { eapply wpe_mono; [apply (exec_bad_open _ tr (vm s) (curproc s) ip bs); [apply Hold|done..]|exact HQ]. }
  destruct (Z.eqb_spec (magic (read_elf bs)) ELF_MAGIC) as [Hm|Hm]; cbn [negb].
  2: { eapply wpe_mono; [apply (exec_bad_open _ tr (vm s) (curproc s) ip bs); [apply Hold|done..]|exact HQ]. }
  wpe_step. apply on_vm_wpe. eapply wpe_mono; [apply (setupkvm_spec pa_starved data (vm s)); [done|done|apply Hold]|].
  intros d v1 [(-> & Hg1 & Hm1)|(t & Hd & Hs & Ha & Hv)].
  { cbn beta. rewrite Z.eqb_refl. eapply wpe_mono; [by apply (exec_bad_open _ tr (vm s) (curproc s) ip bs)|exact HQ]. }
  rewrite (proj2 (Z.eqb_neq d 0)) by done. wpe_step.
  assert (built (vm s) d t ∅ v1 0 (-1) (λ _, 0)) as Hb.
  { constructor; change (pages_up 0) with 0; try lia.
    - split; [|done]. unfold space_pages. by rewrite dom_empty_L, union_empty_r_L.
    - done.
    - intros vpn Hvpn. rewrite Hv by lia. apply kpte_user; [done|lia]. }
  eapply wpe_mono; [by apply (load_segments_spec (vm s) d pa_starved HE tr ip bs pid _ Hpid t ∅ _ 0 (λ _, 0))|].
  intros o s5 (Hl5 & Hc5 & t2 & w2 & Hres). destruct o as [sz|].
  2: { eapply wpe_mono; [by apply (exec_bad_load _ tr (vm s) (curproc s) d t2 w2 ip bs)|exact HQ]. }
  destruct Hres as (img & Hprog & Hb5). wpe_step. eapply wpe_mono; [apply (close_file pa_starved tr ip bs s5 Hl5 (λ _ s6, wpe pa_starved (exec_stack pid d sz (entry (read_elf bs)) path argv) Q s6))|intros [] s6 ?; by wpe_step]. intros f6 Hf6.
  eapply wpe_mono; [by apply (exec_stack_spec pa_starved HE tr (vm s) (curproc s) t0 w0 Hold pid d t2 w2 sz img)|].
  intros r s7 [?|(-> & Hf7 & Hdone)]; [by apply HQ|right]. split; [done|]. split; [done|]. exists bs, sz, img. split; [done|]. split; [|done].
  unfold program_file. rewrite (proj2 (Z.leb_le _ _)), (proj2 (Z.eqb_eq _ _)) by (done || lia). done.
Qed.

(** A file system of one file, whose calls have to come in order. *)
Definition zeros (n : nat) : list Z := replicate n 0.
Definition demo_elf : list Z := [0x7F; 0x45; 0x4C; 0x46] ++ zeros 20 ++ word_bytes 0 ++ word_bytes 52 ++ zeros 12 ++ [1; 0] ++ zeros 6 ++
  word_bytes 1 ++ word_bytes 84 ++ word_bytes 0 ++ word_bytes 0 ++ word_bytes 3 ++ word_bytes 5000 ++ zeros 8 ++ [0xB8; 0x16; 0].
Definition demo_path : list Z := [47; 105].
Definition demo_tree_of : tree_of := λ p, if decide (p = demo_path) then Some demo_elf else None.
Definition in_order (n n' : nat) : M nat () := stage ← gets id; if decide (stage = n) then modify (λ _, n') else panic "order".
#[local] Instance demo_files : ProgramFiles nat := {|
  pf_begin_op := in_order 0 1; pf_end_op := in_order 1 0;
  pf_namei p := if decide (p = demo_path) then (in_order 1 2 ;; mret (Some 7%nat)) else (in_order 1 1 ;; mret None);
  pf_ilock _ := in_order 2 3; pf_iunlockput _ := in_order 3 1;
  pf_readi _ off n := in_order 3 3 ;;
    mret (if decide (off <= 87 ∧ off + n < 2 ^ 32) then let l := bytes_of demo_elf off n in (Z.of_nat (length l), l) else (-1, []));
|}.
Lemma wp_in_order n n' (Q : () → nat → Prop) : Q () n' → wp (in_order n n') Q n.
Proof. intros HQ. unfold in_order. apply wp_bind, wp_gets. unfold id. case_decide; [|done]. by apply wp_modify. Qed.
#[local] Program Instance demo_files_laws : ProgramFilesLaws nat := {|
  pf_idle tr n := tr = demo_tree_of ∧ n = 0%nat; pf_inside tr n := tr = demo_tree_of ∧ n = 1%nat;
  pf_found tr _ bs n := tr = demo_tree_of ∧ bs = demo_elf ∧ n = 2%nat; pf_locked tr _ bs n := tr = demo_tree_of ∧ bs = demo_elf ∧ n = 3%nat |}.
Next Obligation. intros tr f [-> ->]. by apply wp_in_order. Qed.
Next Obligation. intros tr f [-> ->]. by apply wp_in_order. Qed.
Next Obligation.
  intros tr p f [-> ->]. cbn. unfold demo_tree_of. case_decide; wp_steps; apply wp_in_order; wp_steps; [|done]. by exists demo_elf.
Qed.
Next Obligation. intros tr ip bs f (-> & -> & ->). by apply wp_in_order. Qed.
Next Obligation. intros tr ip bs f (-> & -> & ->). by apply wp_in_order. Qed.
Next Obligation. intros tr ip bs f (_ & -> & _). split; [|by vm_compute]. unfold demo_elf, zeros. repeat (apply Forall_app; split); repeat constructor; by vm_compute. Qed.
Next Obligation.
  intros tr ip bs f off n (-> & -> & ->) Hoff Hn. cbn. wp_steps. apply wp_in_order. wp_steps. done.
Qed.

Section witnesses.
#[local] Instance exec_alloc : PageAllocator kst := V2_alloc demo_end.
#[local] Instance exec_laws : PageAllocatorLaws kst := V2_alloc_laws demo_end eq_refl.
Definition demo_ex : exst nat kst := mkEx 0%nat demo_st (mkImage [] (top_page 0) 100 0 0).
Definition demo_argv : list (list Z) := [[105]; [120; 121]].
Lemma exec_spec_witness : wpe pa_starved (exec demo_data 7 demo_path demo_argv) (λ r s',
  r = -1 ∧ files s' = 0%nat ∧ mem (vm s') = demo_mem ∨
  r = 0 ∧ files s' = 0%nat ∧ p_sz (curproc s') = 16384 ∧ ubyte (mem (vm s')) (p_pgdir (curproc s')) 1 = Some 0x16 ∧
    user_page (mem (vm s')) (p_pgdir (curproc s')) 2 = false ∧ top_page 2 ∉ dom (mem (vm s'))) demo_ex.
Proof.
  eapply wpe_mono; [apply (exec_spec demo_data demo_tree_of 7 demo_path demo_argv demo_ex {[top_page 1 := 0]} {[top_page 2 := 0]});
    [done|apply demo_data_ok|done|constructor; [apply demo_good|apply demo_tree|apply demo_frames]|by repeat constructor]|].
  intros r s' [(-> & [_ Hf] & _ & Hm & _)|(-> & [_ Hf] & bs & sz & img & Hbs & Hprog & d & t & w & img' & ptrs & sp & Hc & _ & Hnew & Hm & Hu & Himg & _)]; [by left|right].
  unfold demo_tree_of in Hbs. rewrite decide_True in Hbs by done. injection Hbs as <-.
  assert ((λ p : Z * (Z → Z), (p.1, p.2 1)) <$> program_file demo_elf = Some (5000, 0x16)) as Hp by (vm_compute; reflexivity).
  rewrite Hprog in Hp. cbn [fmap option_fmap option_map fst snd] in Hp. injection Hp as -> Hi. rewrite Hc. cbn [p_sz p_pgdir]. change (pages_up 5000) with 2 in *.
  destruct (Hu 1 ltac:(lia)) as [Hu1 _]. destruct (Hu 8192 ltac:(lia)) as [_ Hu2]. rewrite Hu1, Himg, Hi by lia.
  split; [done|]. split; [exact Hf|]. do 2 (split; [reflexivity|]). split; [exact Hu2|]. apply not_elem_of_dom. rewrite Hm.
  - rewrite decide_True; [done|]. cbn [demo_ex curproc p_pgdir]. unfold space_pages. rewrite !dom_singleton_L. set_solver.
  - intros Hin. apply (Hnew (top_page 2) Hin). apply demo_in.
Defined.
End witnesses.
