(* ===== verification/Console.v ===== *)
(** * The console: console.c (src/07_xv6_File_System/PartA)

    The line editor between the keyboard and the readers, and the CGA text screen.  cons.lock makes an
    interrupt, a write and a read up to where it sleeps one step each.  What uartputc sends to the serial line is a
    list; the cursor registers and the video memory are part of the state.  The theorem: over any history the console
    behaves as a terminal with a sheet of paper of any length, of which the screen is the last 24 lines, and as a line
    editor on lists, although the counters of its buffer wrap. *)

From S2P Require Import Prelude Files.

Definition BACKSPACE : Z := 0x100.
Definition INPUT_BUF : Z := 128.
Definition C (x : Z) : Z := x - 64.
Definition crt_cells : Z := 25 * 80.
(** crt, the cursor registers 14 and 15, uart (is there a serial port?) and what has been sent to it, input, panicked. *)
Record console := mkCons {
  crt : Z → Z; reg14 : Z; reg15 : Z;
  uart : bool; serial : list Z;
  i_buf : Z → Z; i_r : Z; i_w : Z; i_e : Z;
  panicked : bool;
}.
Definition set_crt (x : Z → Z) (s : console) : console := mkCons x (reg14 s) (reg15 s) (uart s) (serial s) (i_buf s) (i_r s) (i_w s) (i_e s) (panicked s).
Definition set_cursor (hi lo : Z) (s : console) : console := mkCons (crt s) hi lo (uart s) (serial s) (i_buf s) (i_r s) (i_w s) (i_e s) (panicked s).
Definition set_serial (x : list Z) (s : console) : console := mkCons (crt s) (reg14 s) (reg15 s) (uart s) x (i_buf s) (i_r s) (i_w s) (i_e s) (panicked s).
Definition set_i_buf (x : Z → Z) (s : console) : console := mkCons (crt s) (reg14 s) (reg15 s) (uart s) (serial s) x (i_r s) (i_w s) (i_e s) (panicked s).
Definition set_i_r (x : Z) (s : console) : console := mkCons (crt s) (reg14 s) (reg15 s) (uart s) (serial s) (i_buf s) x (i_w s) (i_e s) (panicked s).
Definition set_i_w (x : Z) (s : console) : console := mkCons (crt s) (reg14 s) (reg15 s) (uart s) (serial s) (i_buf s) (i_r s) x (i_e s) (panicked s).
Definition set_i_e (x : Z) (s : console) : console := mkCons (crt s) (reg14 s) (reg15 s) (uart s) (serial s) (i_buf s) (i_r s) (i_w s) x (panicked s).
Notation M_con := (M console).

(** ** Output *)
Definition store_cell (p v : Z) : M_con () :=
  if (0 <=? p) && (p <? crt_cells) then modify (λ s, set_crt (<[p := v]> (crt s)) s) else fault "write outside of the video memory".
(** memmove of [n] cells and memset of [n] cells to 0. *)
Definition move_cells (dst src n : Z) : M_con () :=
  modify (λ s, set_crt (λ i, if (dst <=? i) && (i <? dst + n) then crt s (i - dst + src) else crt s i) s).
Definition clear_cells (p n : Z) : M_con () :=
  modify (λ s, set_crt (λ i, if (p <=? i) && (i <? p + n) then 0 else crt s i) s).
Definition cgaputc (c : Z) : M_con () :=
  hi ← gets reg14;
  lo ← gets reg15;
  let pos := Z.lor (Z.shiftl hi 8) lo in
  pos ← (if c =? 10 then mret (pos + (80 - Z.rem pos 80))
         else if c =? BACKSPACE then mret (if 0 <? pos then pos - 1 else pos)
         else store_cell pos (Z.lor (Z.land c 0xff) 0x0700) ;; mret (pos + 1));
  when ((pos <? 0) || (25 * 80 <? pos)) (panic "pos under/overflow") ;;
  pos ← (if 24 <=? Z.quot pos 80 then
           move_cells 0 80 (23 * 80) ;;
           clear_cells (pos - 80) (24 * 80 - (pos - 80)) ;;
           mret (pos - 80)
         else mret pos);
  modify (set_cursor (u8 (Z.shiftr pos 8)) (u8 pos)) ;;
  store_cell pos (Z.lor 32 0x0700).
(** However long the port was busy, the byte is sent. *)
Definition uartputc (c : Z) : M_con () :=
  u ← gets uart;
  when u (modify (λ s, set_serial (serial s ++ [u8 c]) s)).
Definition consputc (c : Z) : M_con () :=
  p ← gets panicked;
  if p : bool then diverge
  else
    (if c =? BACKSPACE then uartputc 8 ;; uartputc 32 ;; uartputc 8 else uartputc c) ;;
    cgaputc c.

(** ** Input *)
(** The loop that kills the line. *)
Fixpoint kill_loop (fuel : nat) : M_con () :=
  match fuel with
  | O => diverge
  | S fuel =>
      s ← gets (λ s, s);
      if negb (i_e s =? i_w s) && negb (i_buf s (u32 (i_e s - 1) mod INPUT_BUF) =? 10) then
        modify (set_i_e (u32 (i_e s - 1))) ;;
        consputc BACKSPACE ;;
        kill_loop fuel
      else mret ()
  end.
(** One character: whether it asks for the list of processes. *)
Definition consoleintr_char (c : Z) : M_con bool :=
  s ← gets (λ s, s);
  if c =? C 80 then mret true
  else if c =? C 85 then kill_loop (S (Z.to_nat INPUT_BUF)) ;; mret false
  else if (c =? C 72) || (c =? 0x7f) then
    when (negb (i_e s =? i_w s)) (
      modify (set_i_e (u32 (i_e s - 1))) ;;
      consputc BACKSPACE) ;;
    mret false
  else
    when (negb (c =? 0) && (u32 (i_e s - i_r s) <? INPUT_BUF)) (
      let c := if c =? 13 then 10 else c in
      modify (λ s, set_i_e (u32 (i_e s + 1)) (set_i_buf (<[i_e s mod INPUT_BUF := s8 c]> (i_buf s)) s)) ;;
      consputc c ;;
      s ← gets (λ s, s);
      when ((c =? 10) || (c =? C 68) || (i_e s =? u32 (i_r s + INPUT_BUF))) (
        modify (λ s, set_i_w (i_e s) s))) ;;
    mret false.
(** [cs] is what getc returns, one after the other; the result is whether procdump is called in the end. *)
Fixpoint consoleintr (cs : list Z) : M_con bool :=
  match cs with
  | [] => mret false
  | c :: cs =>
      if c <? 0 then mret false
      else
        d ← consoleintr_char c;
        d' ← consoleintr cs;
        mret (d || d')
  end.

(** The loop of consoleread where [n] bytes are still wanted: how the turn ends, and the bytes stored. *)
Fixpoint read_chars (n : nat) (killed : bool) (target : Z) : M_con (turn * list Z) :=
  match n with
  | O => mret (Returned target, [])
  | S n' =>
      s ← gets (λ s, s);
      if i_r s =? i_w s then mret (if killed then Returned (-1) else Asleep (Z.of_nat n), [])
      else
        let c := i_buf s (i_r s mod INPUT_BUF) in
        modify (set_i_r (u32 (i_r s + 1))) ;;
        if c =? C 68 then
          when (Z.of_nat n <? target) (modify (λ s, set_i_r (u32 (i_r s - 1)) s)) ;;
          mret (Returned (target - Z.of_nat n), [])
        else if c =? 10 then mret (Returned (target - Z.of_nat n'), [c])
        else
          '(t, l) ← read_chars n' killed target;
          mret (t, c :: l)
  end.
(** A turn of consoleread: from the start ([n = target]) or from a sleep with [n] bytes to go. *)
Definition consoleread (killed : bool) (target n : Z) : M_con (turn * list Z) :=
  if n <=? 0 then mret (Returned (target - n), []) else read_chars (Z.to_nat n) killed target.
Definition consolewrite (buf : list Z) (n : Z) : M_con Z :=
  mfor (take (Z.to_nat n) buf) (λ c, consputc (Z.land c 0xff)) ;;
  mret n.

(** * The terminal *)
(** Paper of any length in lines of 80 cells; the screen shows 24 of them, from line [top] on. *)
Record term := mkTerm { paper : Z → Z; top : Z; here : Z }.
Definition blank : Z := Z.lor 32 0x0700.
Definition ink (c : Z) : Z := Z.lor (Z.land c 0xff) 0x0700.
Definition put_cell (c : Z) (t : term) : term :=
  let p := if decide (c = 10 ∨ c = BACKSPACE) then paper t else <[here t := ink c]> (paper t) in
  let a := if decide (c = 10) then 80 * (here t / 80 + 1) else if decide (c = BACKSPACE) then Z.max (80 * top t) (here t - 1) else here t + 1 in
  mkTerm (<[a := blank]> p) (if decide (80 * (top t + 24) <= a) then top t + 1 else top t) a.
Definition line_bytes (c : Z) : list Z := if decide (c = BACKSPACE) then [8; 32; 8] else [u8 c].
(** Whether there is a serial line and what it has carried; what is ready to be read, and the line that is being edited. *)
Record tty := mkTty { screen : term; wired : bool; sent : list Z; ready : list Z; line : list Z }.
Definition put (c : Z) (t : tty) : tty := mkTty (put_cell c (screen t)) (wired t) (sent t ++ if wired t then line_bytes c else []) (ready t) (line t).
Definition puts (cs : list Z) (t : tty) : tty := foldl (λ t c, put c t) t cs.
Definition set_input (r l : list Z) (t : tty) : tty := mkTty (screen t) (wired t) (sent t) r l.
Definition type_char (c : Z) (t : tty) : bool * tty :=
  if decide (c = C 80) then (true, t)
  else if decide (c = C 85) then (false, puts (replicate (length (line t)) BACKSPACE) (set_input (ready t) [] t))
  else if decide (c = C 72 ∨ c = 0x7f) then
    (false, if decide (line t = []) then t else put BACKSPACE (set_input (ready t) (removelast (line t)) t))
  else if decide (c = 0 ∨ INPUT_BUF <= Z.of_nat (length (ready t ++ line t))) then (false, t)
  else
    let c := if decide (c = 13) then 10 else c in
    let l := line t ++ [s8 c] in
    (false, put c (if decide (c = 10 ∨ c = C 68 ∨ Z.of_nat (length (ready t ++ l)) = INPUT_BUF) then set_input (ready t ++ l) [] t else set_input (ready t) l t)).
Fixpoint type_chars (cs : list Z) (t : tty) : bool * tty :=
  match cs with
  | [] => (false, t)
  | c :: cs => if c <? 0 then (false, t) else let '(d, t) := type_char c t in let '(d', t) := type_chars cs t in (d || d', t)
  end.
(** Of the bytes [l] that are ready: how a reader's turn ends, what it stores, and what stays. *)
Fixpoint take_line (n : nat) (killed : bool) (target : Z) (l : list Z) : turn * list Z * list Z :=
  match n, l with
  | O, _ => (Returned target, [], l)
  | S _, [] => (if killed then Returned (-1) else Asleep (Z.of_nat n), [], [])
  | S n', c :: l' =>
      if decide (c = C 68) then (Returned (target - Z.of_nat n), [], if decide (Z.of_nat n < target) then l else l')
      else if decide (c = 10) then (Returned (target - Z.of_nat n'), [c], l')
      else let '(t, out, rest) := take_line n' killed target l' in (t, c :: out, rest)
  end.

(** ** The program's state as a terminal *)
Definition cursor (s : console) : Z := 256 * reg14 s + reg15 s.
Record shows (s : console) (t : term) : Prop := {
  sh_top : 0 <= top t;
  sh_cursor : cursor s = here t - 80 * top t;
  sh_here : 0 <= cursor s < 24 * 80;
  sh_regs : 0 <= reg15 s < 256 ∧ 0 <= reg14 s;
  sh_cells i : 0 <= i < 24 * 80 → crt s i = paper t (80 * top t + i);
  sh_below p : 80 * (top t + 24) <= p → paper t p = 0;
}.
Lemma byte_pair p : 0 <= p < 2 ^ 16 → u8 (Z.shiftr p 8) = p / 256 ∧ u8 p = p mod 256.
Proof.
  intros Hp. rewrite Z.shiftr_div_pow2 by lia. unfold u8. change (2 ^ 8) with 256. split; [|done]. apply Z.mod_small. Z.div_mod_to_equations. lia.
Qed.
Lemma lor_bytes hi lo : 0 <= hi → 0 <= lo < 256 → Z.lor (Z.shiftl hi 8) lo = 256 * hi + lo.
Proof.
  intros Hhi Hlo. assert (Z.land (Z.shiftl hi 8) lo = 0) as Hz.
  { apply Z.bits_inj'. intros n Hn. rewrite Z.land_spec, Z.bits_0. destruct (Z.ltb_spec n 8); [by rewrite Z.shiftl_spec_low by lia|].
    rewrite <- (Z.mod_small lo (2 ^ 8)), Z.mod_pow2_bits_high by lia. apply andb_false_r. }
  rewrite <- Z.lxor_lor, <- Z.add_nocarry_lxor by done. rewrite Z.shiftl_mul_pow2 by lia. lia.
Qed.
Lemma set_crt_id s : s = set_crt (crt s) s.
Proof. by destruct s. Qed.
Lemma wp_store_cell p v (Q : () → console → Prop) s : 0 <= p < crt_cells → Q () (set_crt (<[p := v]> (crt s)) s) → wp (store_cell p v) Q s.
Proof. intros Hp HQ. unfold store_cell. rewrite (proj2 (Z.leb_le 0 p)), (proj2 (Z.ltb_lt p _)) by lia. by apply wp_modify. Qed.
Definition moved (p : Z → Z) (tp a : Z) : term := mkTerm (<[a := blank]> p) (if decide (80 * (tp + 24) <= a) then tp + 1 else tp) a.
(** Where the cursor goes, with the paper already written. *)
Lemma move_shows s p a f tp : 0 <= tp → 0 <= a - 80 * tp <= 24 * 80 →
  (∀ i, 0 <= i < 24 * 80 → f i = p (80 * tp + i)) → (∀ q, 80 * (tp + 24) <= q → p q = 0) →
  ∀ Q : () → console → Prop, (∀ g hi lo, shows (set_crt g (set_cursor hi lo s)) (moved p tp a) → Q () (set_crt g (set_cursor hi lo s))) →
  wp (pos ← (if 24 <=? Z.quot (a - 80 * tp) 80 then move_cells 0 80 (23 * 80) ;; clear_cells (a - 80 * tp - 80) (24 * 80 - (a - 80 * tp - 80)) ;; mret (a - 80 * tp - 80) else mret (a - 80 * tp));
      modify (set_cursor (u8 (Z.shiftr pos 8)) (u8 pos)) ;; store_cell pos (Z.lor 32 0x0700)) Q (set_crt f s).
Proof.
  intros Htp Ha Hf Hp Q HQ. unfold moved in HQ. rewrite Z.quot_div_nonneg by lia. case_decide as Hsc.
  - assert (a = 80 * (tp + 24)) as -> by lia. rewrite (proj2 (Z.leb_le 24 _)) by (Z.div_mod_to_equations; lia).
    replace (80 * (tp + 24) - 80 * tp - 80) with 1840 by lia. unfold move_cells, clear_cells. wp_steps. apply wp_store_cell; [done|].
    destruct (byte_pair 1840 ltac:(done)) as [-> ->]. eapply (HQ (<[1840 := _]> _) (1840 / 256) (1840 mod 256)). constructor; cbn [crt reg14 reg15 set_crt set_cursor top here paper].
    + lia.
    + unfold cursor. cbn [reg14 reg15 set_crt set_cursor]. change (256 * (1840 / 256) + 1840 mod 256) with 1840. lia.
    + done.
    + done.
    + intros i Hi. destruct (decide (i = 1840)) as [->|Hne].
      * replace (80 * (tp + 1) + 1840) with (80 * (tp + 24)) by lia. by rewrite !fn_lookup_insert.
      * rewrite !fn_lookup_insert_ne by lia. change (24 * 80 - 1840) with 80. change (0 + 23 * 80) with 1840. destruct (Z.leb_spec 1840 i); cbn [andb].
        -- rewrite (proj2 (Z.ltb_lt i _)) by lia. cbn. symmetry. apply Hp. lia.
        -- rewrite (proj2 (Z.leb_le 0 i)), (proj2 (Z.ltb_lt i _)) by lia. cbn [andb]. rewrite Hf by lia. f_equal. lia.
    + intros q Hq. rewrite fn_lookup_insert_ne by lia. apply Hp. lia.
  - assert (0 <= a - 80 * tp < 1920) as Ha' by lia. rewrite (proj2 (Z.leb_gt 24 _)) by (Z.div_mod_to_equations; lia). set (b := a - 80 * tp) in *.
    wp_steps. apply wp_store_cell; [unfold crt_cells; lia|]. destruct (byte_pair b ltac:(lia)) as [-> ->]. eapply (HQ (<[b := _]> _) (b / 256) (b mod 256)).
    assert (256 * (b / 256) + b mod 256 = b) as Hb by (Z.div_mod_to_equations; lia).
    constructor; cbn [crt reg14 reg15 set_crt set_cursor top here paper]; unfold cursor; cbn [reg14 reg15 set_crt set_cursor]; rewrite ?Hb.
    + done.
    + done.
    + lia.
    + Z.div_mod_to_equations; lia.
    + intros i Hi. destruct (decide (i = b)) as [->|Hne]; [replace (80 * tp + b) with a by (unfold b; lia); by rewrite !fn_lookup_insert|].
      rewrite !fn_lookup_insert_ne by (unfold b in *; lia). by apply Hf.
    + intros q Hq. rewrite fn_lookup_insert_ne by lia. by apply Hp.
Qed.
Lemma put_cell_eq c t : put_cell c t =
  if c =? 10 then moved (paper t) (top t) (80 * (here t / 80 + 1))
  else if c =? BACKSPACE then moved (paper t) (top t) (Z.max (80 * top t) (here t - 1))
  else moved (<[here t := ink c]> (paper t)) (top t) (here t + 1).
Proof.
  unfold put_cell, moved. destruct (Z.eqb_spec c 10) as [->|Hc]; [done|]. destruct (Z.eqb_spec c BACKSPACE) as [->|Hb]; [done|].
  rewrite (decide_False (P := c = 10 ∨ c = BACKSPACE)) by tauto. by rewrite !decide_False by done.
Qed.
Lemma wp_cgaputc c s t (Q : () → console → Prop) : shows s t → (∀ g hi lo, shows (set_crt g (set_cursor hi lo s)) (put_cell c t) → Q () (set_crt g (set_cursor hi lo s))) → wp (cgaputc c) Q s.
Proof.
  intros [H1 H2 H3 [H4 H5] H6 H7] HQ. unfold cgaputc. do 2 (apply wp_bind, wp_gets). rewrite lor_bytes by done. fold (cursor s). rewrite H2. cbv zeta.
  rewrite put_cell_eq in HQ. apply wp_bind. destruct (Z.eqb_spec c 10) as [->|Hc].
  - apply wp_mret.
    rewrite Z.rem_mod_nonneg by lia. replace (here t - 80 * top t + (80 - (here t - 80 * top t) mod 80)) with (80 * (here t / 80 + 1) - 80 * top t) by (Z.div_mod_to_equations; lia).
    apply wp_bind, wp_when. rewrite (proj2 (Z.ltb_ge _ 0)), (proj2 (Z.ltb_ge _ _)) by (Z.div_mod_to_equations; lia). cbn [orb].
    rewrite (set_crt_id s). apply (move_shows s (paper t)); [done|Z.div_mod_to_equations; lia|done|done|exact HQ].
  - destruct (Z.eqb_spec c BACKSPACE) as [->|Hb].
    + apply wp_mret.
      replace (if 0 <? here t - 80 * top t then here t - 80 * top t - 1 else here t - 80 * top t) with (Z.max (80 * top t) (here t - 1) - 80 * top t) by (destruct (Z.ltb_spec 0 (here t - 80 * top t)); lia).
      apply wp_bind, wp_when. rewrite (proj2 (Z.ltb_ge _ 0)), (proj2 (Z.ltb_ge _ _)) by lia. cbn [orb].
      rewrite (set_crt_id s). apply (move_shows s (paper t)); [done|lia|done|done|exact HQ].
    + apply wp_bind, wp_store_cell; [unfold crt_cells; lia|]. apply wp_mret. replace (here t - 80 * top t + 1) with (here t + 1 - 80 * top t) by lia.
      apply wp_bind, wp_when. rewrite (proj2 (Z.ltb_ge _ 0)), (proj2 (Z.ltb_ge _ _)) by lia. cbn [orb].
      apply (move_shows s (<[here t := ink c]> (paper t))); [done|lia| | |exact HQ].
      * intros i Hi. destruct (decide (i = here t - 80 * top t)) as [->|Hne].
        -- replace (80 * top t + (here t - 80 * top t)) with (here t) by lia. by rewrite !fn_lookup_insert.
        -- rewrite !fn_lookup_insert_ne by lia. by apply H6.
      * intros q Hq. rewrite fn_lookup_insert_ne by lia. by apply H7.
Qed.

(** ** The editor's buffer *)
Lemma wrap_buf z : u32 z mod INPUT_BUF = z mod INPUT_BUF.
Proof.
  unfold u32, INPUT_BUF. change (2 ^ 32) with (128 * 33554432). rewrite Z.rem_mul_r by lia. rewrite (Z.mul_comm 128), Z.mod_add, Z.mod_mod by lia. done.
Qed.
Lemma mod_buf_ne a i j : 0 <= i < INPUT_BUF → 0 <= j < INPUT_BUF → i ≠ j → (a + i) mod INPUT_BUF ≠ (a + j) mod INPUT_BUF.
Proof. unfold INPUT_BUF. intros Hi Hj Hne E. Z.div_mod_to_equations. nia. Qed.
(** What the counters and the buffer say. *)
Record holds (s : console) (r l : list Z) : Prop := {
  ho_r : 0 <= i_r s < 2 ^ 32;
  ho_w : i_w s = u32 (i_r s + Z.of_nat (length r));
  ho_e : i_e s = u32 (i_r s + Z.of_nat (length (r ++ l)));
  ho_room : Z.of_nat (length (r ++ l)) <= INPUT_BUF;
  ho_bytes (i : nat) b : (r ++ l) !! i = Some b → i_buf s ((i_r s + Z.of_nat i) mod INPUT_BUF) = b;
}.
Record out_ok (s : console) (t : tty) : Prop := {
  ok_screen : shows s (screen t);
  ok_sent : serial s = sent t;
  ok_wired : uart s = wired t;
  ok_alive : panicked s = false;
}.
Record tty_ok (s : console) (t : tty) : Prop := {
  ok_out : out_ok s t;
  ok_input : holds s (ready t) (line t);
  ok_line : 10 ∉ line t;
}.
Definition sends (c : Z) (s : console) : console := if uart s then set_serial (serial s ++ [u8 c]) s else s.
Lemma wp_uartputc c s (Q : () → console → Prop) : Q () (sends c s) → wp (uartputc c) Q s.
Proof. unfold sends, uartputc. intros HQ. apply wp_bind, wp_gets, wp_when. by destruct (uart s). Qed.
Lemma wp_consputc c s t (Q : () → console → Prop) : out_ok s t → (∀ s', out_ok s' (put c t) → (∀ r l, holds s r l → holds s' r l) → Q () s') → wp (consputc c) Q s.
Proof.
  intros [H1 H2 H4 H3] HQ. unfold consputc. apply wp_bind, wp_gets. rewrite H3. apply wp_bind.
  assert (wp (cgaputc c) Q (if uart s then set_serial (serial s ++ line_bytes c) s else s)) as Hc.
  { apply (wp_cgaputc c _ (screen t)); [destruct (uart s); [destruct H1; by constructor|done]|].
    intros g hi lo Hs. apply HQ; [constructor; cbn; [done| | |by destruct (uart s)]|].
    - rewrite <- H4, <- H2. destruct (uart s); cbn; rewrite ?app_nil_r; done.
    - rewrite <- H4. by destruct (uart s) eqn:Eu; cbn; rewrite ?Eu.
    - intros r l [? ? ? ? ?]. by destruct (uart s); constructor. }
  unfold line_bytes in Hc. destruct (Z.eqb_spec c BACKSPACE) as [->|Hb].
  - rewrite decide_True in Hc by done. do 2 apply wp_bind, wp_uartputc. apply wp_uartputc. unfold sends. destruct (uart s) eqn:Eu; cbn [uart serial set_serial]; rewrite ?Eu; [|exact Hc].
    cbn [uart serial set_serial]. rewrite ?Eu. cbn [serial set_serial]. rewrite <- !app_assoc. exact Hc.
  - rewrite decide_False in Hc by done. by apply wp_uartputc.
Qed.
(** The input does not show. *)
Lemma out_ok_input s t s' r l : out_ok s t → crt s' = crt s → reg14 s' = reg14 s → reg15 s' = reg15 s → serial s' = serial s → uart s' = uart s → panicked s' = panicked s → out_ok s' (set_input r l t).
Proof.
  intros [[] H2 H4 H3] E1 E2 E3 E4 E6 E5. constructor; cbn; [|by rewrite E4|by rewrite E6|by rewrite E5]. constructor; unfold cursor in *; rewrite ?E1, ?E2, ?E3; done.
Qed.
Lemma u32_sub_1 x n : 0 <= x < 2 ^ 32 → 0 < n → u32 (u32 (x + n) - 1) = u32 (x + (n - 1)).
Proof. intros Hx Hn. unfold u32. rewrite Zminus_mod_idemp_l. f_equal. lia. Qed.
Lemma u32_add_1 x n : u32 (u32 (x + n) + 1) = u32 (x + (n + 1)).
Proof. unfold u32. rewrite Zplus_mod_idemp_l. f_equal. lia. Qed.
Lemma u32_inj x a b : 0 <= a <= INPUT_BUF → 0 <= b <= INPUT_BUF → u32 (x + a) = u32 (x + b) → a = b.
Proof. unfold u32, INPUT_BUF. intros Ha Hb E. Z.div_mod_to_equations. nia. Qed.
Lemma edit_empty s r l : holds s r l → (i_e s =? i_w s) = bool_decide (l = []).
Proof.
  intros [H1 H2 H3 H4 _]. rewrite length_app in *. case_bool_decide as Hl.
  - subst l. apply Z.eqb_eq. rewrite H2, H3. cbn [length]. by rewrite Nat.add_0_r.
  - apply Z.eqb_neq. rewrite H2, H3. intros E. apply u32_inj in E; [|lia..]. apply Hl, nil_length_inv. lia.
Qed.
Lemma holds_back s r l b : holds s r (l ++ [b]) → holds (set_i_e (u32 (i_e s - 1)) s) r l ∧ i_buf s (u32 (i_e s - 1) mod INPUT_BUF) = b.
Proof.
  intros [H1 H2 H3 H4 H5]. rewrite !length_app in *. cbn [length] in *. assert (u32 (i_e s - 1) = u32 (i_r s + Z.of_nat (length r + length l))) as He.
  { rewrite H3, u32_sub_1 by lia. f_equal. lia. }
  split.
  - constructor; cbn [i_r i_w i_e i_buf set_i_e]; [done|done|by rewrite length_app, He|rewrite length_app; lia|].
    intros i c Hi. apply H5. rewrite app_assoc. by apply lookup_app_l_Some.
  - rewrite He, wrap_buf. apply H5. rewrite app_assoc, lookup_app_r by (rewrite length_app; lia). rewrite length_app, Nat.sub_diag. done.
Qed.
Lemma ok_back s t l b : tty_ok s t → line t = l ++ [b] → tty_ok (set_i_e (u32 (i_e s - 1)) s) (set_input (ready t) l t) ∧ i_buf s (u32 (i_e s - 1) mod INPUT_BUF) = b ∧ b ≠ 10.
Proof.
  intros [H1 H2 H3] Hl. rewrite Hl in *. destruct (holds_back s _ _ _ H2) as [H2' Hb]. rewrite elem_of_app in H3. split; [|split; [done|]].
  - constructor; [by apply (out_ok_input s)|done|cbn; tauto].
  - intros ->. apply H3. right. by left.
Qed.

Lemma wp_kill_loop fuel s t (Q : () → console → Prop) : tty_ok s t → (length (line t) < fuel)%nat →
  (∀ s', tty_ok s' (puts (replicate (length (line t)) BACKSPACE) (set_input (ready t) [] t)) → Q () s') → wp (kill_loop fuel) Q s.
Proof.
  revert s t. induction fuel as [|fuel IH]; intros s t Hs Hf HQ; [lia|]. cbn [kill_loop]. apply wp_bind, wp_gets. rewrite (edit_empty s _ _ (ok_input _ _ Hs)).
  destruct (line t) as [|b l _] eqn:El using rev_ind.
  - cbn. apply wp_mret, HQ. cbn. rewrite <- El. by destruct t.
  - destruct (ok_back s t l b Hs El) as ([O1 I1 L1] & Hb & Hbn). rewrite (bool_decide_false (l ++ [b] = [])) by (by destruct l). rewrite Hb, (proj2 (Z.eqb_neq b 10)) by done. cbn [negb andb].
    apply wp_bind, wp_modify, wp_bind. eapply wp_consputc; [exact O1|]. intros s2 O2 Hh. rewrite length_app in *. cbn [length] in *.
    apply (IH s2 (put BACKSPACE (set_input (ready t) l t))); [constructor; [done|by apply Hh|done]|cbn; lia|].
    intros s3 Hs3. apply HQ. rewrite Nat.add_1_r. exact Hs3.
Qed.
Lemma holds_push s r l b : holds s r l → Z.of_nat (length (r ++ l)) < INPUT_BUF → holds (set_i_e (u32 (i_e s + 1)) (set_i_buf (<[i_e s mod INPUT_BUF := b]> (i_buf s)) s)) r (l ++ [b]).
Proof.
  intros [H1 H2 H3 H4 H5] Hlt. assert (length (r ++ l ++ [b]) = S (length (r ++ l))) as Hl by (rewrite app_assoc, length_app; cbn; lia).
  constructor; cbn [i_r i_w i_e i_buf set_i_e set_i_buf]; [done|done|rewrite H3, u32_add_1, Hl; f_equal; lia|lia|].
  intros i c Hi. rewrite app_assoc in Hi. rewrite H3, wrap_buf. apply lookup_app_Some in Hi as [Hi|[Hge Hi]].
  - pose proof (lookup_lt_Some _ _ _ Hi). rewrite fn_lookup_insert_ne; [by apply H5|]. apply mod_buf_ne; lia.
  - destruct (i - length (r ++ l))%nat as [|n] eqn:En; [|done]. injection Hi as <-. assert (i = length (r ++ l)) as -> by lia. by rewrite fn_lookup_insert.
Qed.
Lemma room_left s r l : holds s r l → (u32 (i_e s - i_r s) <? INPUT_BUF) = negb (INPUT_BUF <=? Z.of_nat (length (r ++ l))).
Proof.
  intros [H1 H2 H3 H4 H5]. assert (u32 (i_e s - i_r s) = Z.of_nat (length (r ++ l))) as ->.
  { rewrite H3. unfold u32. rewrite Zminus_mod_idemp_l. unfold INPUT_BUF in *. rewrite Z.mod_small; lia. }
  by rewrite Z.leb_antisym, negb_involutive.
Qed.
Lemma full_now s r l : holds s r l → (i_e s =? u32 (i_r s + INPUT_BUF)) = bool_decide (Z.of_nat (length (r ++ l)) = INPUT_BUF).
Proof.
  intros [H1 H2 H3 H4 H5]. rewrite H3. case_bool_decide as E; [by rewrite E, Z.eqb_refl|]. apply Z.eqb_neq. intros E'. apply E. apply (u32_inj (i_r s)); [lia|done|done].
Qed.
Lemma holds_commit s r l : holds s r l → holds (set_i_w (i_e s) s) (r ++ l) [].
Proof. intros [H1 H2 H3 H4 H5]. constructor; cbn [i_r i_w i_e i_buf set_i_w]; rewrite ?app_nil_r; done. Qed.
Lemma s8_newline c : 0 <= c < 256 → s8 c = 10 → c = 10.
Proof. intros Hc. unfold s8, swrap. change (2 ^ 8) with 256. rewrite Z.mod_small by lia. destruct (_ <? _); lia. Qed.
Lemma wp_consoleintr_char c s t (Q : bool → console → Prop) : 0 <= c < 256 → tty_ok s t → (∀ s', tty_ok s' (type_char c t).2 → Q (type_char c t).1 s') → wp (consoleintr_char c) Q s.
Proof.
  intros Hc Hs HQ. unfold type_char in HQ. unfold consoleintr_char. apply wp_bind, wp_gets. destruct (Z.eqb_spec c (C 80)) as [->|H80]; [by apply HQ|]. rewrite decide_False in HQ by done.
  destruct (Z.eqb_spec c (C 85)) as [->|H85].
  { apply wp_bind. eapply wp_kill_loop; [exact Hs| |intros s' Hs'; by apply HQ]. pose proof (ho_room _ _ _ (ok_input _ _ Hs)) as Hr. rewrite length_app in Hr. unfold INPUT_BUF in *. lia. }
  rewrite decide_False in HQ by done. rewrite (edit_empty s _ _ (ok_input _ _ Hs)).
  destruct (decide (c = C 72 ∨ c = 0x7f)) as [Hbs|Hbs].
  { assert ((c =? C 72) || (c =? 0x7f) = true) as -> by (destruct Hbs as [->| ->]; done). apply wp_bind, wp_when. case_bool_decide as El; cbn [negb].
    - rewrite decide_True in HQ by done. by apply HQ.
    - rewrite decide_False in HQ by done. destruct (line t) as [|b l _] eqn:El' using rev_ind; [done|]. destruct (ok_back s t l b Hs El') as (Hs1 & _ & _).
      destruct Hs1 as [O1 I1 L1]. apply wp_bind, wp_modify. eapply wp_consputc; [exact O1|]. intros s2 O2 Hh. apply wp_mret, HQ. rewrite removelast_last. constructor; [done|by apply Hh|done]. }
  assert ((c =? C 72) || (c =? 0x7f) = false) as -> by (apply orb_false_iff; rewrite !Z.eqb_neq; tauto). rewrite (room_left _ _ _ (ok_input _ _ Hs)). apply wp_bind, wp_when.
  destruct (decide (c = 0 ∨ INPUT_BUF <= Z.of_nat (length (ready t ++ line t)))) as [Hno|Hyes].
  { assert (negb (c =? 0) && negb (INPUT_BUF <=? Z.of_nat (length (ready t ++ line t))) = false) as ->.
    { apply andb_false_iff. rewrite !negb_false_iff, Z.eqb_eq, Z.leb_le. done. }
    by apply HQ. }
  assert (negb (c =? 0) && negb (INPUT_BUF <=? Z.of_nat (length (ready t ++ line t))) = true) as ->.
  { apply andb_true_iff. rewrite !negb_true_iff, Z.eqb_neq, Z.leb_gt. split; [tauto|lia]. }
  replace (if c =? 13 then 10 else c) with (if decide (c = 13) then 10 else c) by (destruct (Z.eqb_spec c 13); [by rewrite decide_True|by rewrite decide_False]).
  assert (0 <= (if decide (c = 13) then 10 else c) < 256) as Hc' by (case_decide; lia). cbv zeta in HQ |- *. set (c' := if decide (c = 13) then 10 else c) in *. clearbody c'.
  pose proof Hs as [K1 K2 K3]. pose proof (holds_push s _ _ (s8 c') K2 ltac:(lia)) as K2'. apply wp_bind, wp_modify. set (s1 := set_i_e _ _) in *.
  set (l' := line t ++ [s8 c']) in *. apply wp_bind, (wp_consputc _ _ (set_input (ready t) l' t)); [by apply (out_ok_input s)|]. intros s2 O2 Hh. apply Hh in K2'.
  apply wp_bind, wp_gets, wp_when. rewrite (full_now _ _ _ K2'). destruct (decide (c' = 10 ∨ c' = C 68 ∨ Z.of_nat (length (ready t ++ l')) = INPUT_BUF)) as [Hcm|Hcm].
  - assert ((c' =? 10) || (c' =? C 68) || bool_decide (Z.of_nat (length (ready t ++ l')) = INPUT_BUF) = true) as ->.
    { rewrite !orb_true_iff, !Z.eqb_eq, bool_decide_eq_true. tauto. }
    apply wp_modify, wp_mret, HQ. constructor; [by apply (out_ok_input s2 _ _ (ready t ++ l') [] O2)|by apply holds_commit|cbn; apply not_elem_of_nil].
  - assert ((c' =? 10) || (c' =? C 68) || bool_decide (Z.of_nat (length (ready t ++ l')) = INPUT_BUF) = false) as ->.
    { rewrite !orb_false_iff, !Z.eqb_neq, bool_decide_eq_false. tauto. }
    apply wp_mret, HQ. constructor; [done|done|]. cbn. unfold l'. rewrite elem_of_app, list_elem_of_singleton. intros [?|E]; [done|]. symmetry in E. apply s8_newline in E; [tauto|done].
Qed.
Lemma wp_consoleintr cs s t : Forall (λ c, c < 256) cs → tty_ok s t → wp (consoleintr cs) (λ d s', d = (type_chars cs t).1 ∧ tty_ok s' (type_chars cs t).2) s.
Proof.
  revert s t. induction cs as [|c cs IH]; intros s t Hcs Hs; cbn [consoleintr type_chars]; [by apply wp_mret|]. apply Forall_cons in Hcs as [Hc Hcs].
  destruct (Z.ltb_spec c 0); [by apply wp_mret|]. apply wp_bind, (wp_consoleintr_char c s t); [lia|done|]. intros s1 Hs1. destruct (type_char c t) as [d t1]. cbn [fst snd] in *.
  apply wp_bind. eapply wp_mono; [by apply (IH s1 t1)|]. intros d' s2 [-> Hs2]. destruct (type_chars cs t1) as [d2 t2]. by apply wp_mret.
Qed.

(** ** Reading *)
Lemma read_empty s r l : holds s r l → (i_r s =? i_w s) = bool_decide (r = []).
Proof.
  intros [H1 H2 H3 H4 _]. rewrite length_app in *. case_bool_decide as Hr.
  - subst r. apply Z.eqb_eq. rewrite H2. cbn [length]. rewrite Z.add_0_r, u32_small; done.
  - apply Z.eqb_neq. rewrite H2. intros E. rewrite <- (u32_small (i_r s)), <- (Z.add_0_r (i_r s)) in E at 1 by done. apply u32_inj in E; [|done|lia]. apply Hr, nil_length_inv. lia.
Qed.
Lemma holds_pop s c r l : holds s (c :: r) l → holds (set_i_r (u32 (i_r s + 1)) s) r l ∧ i_buf s (i_r s mod INPUT_BUF) = c.
Proof.
  intros [H1 H2 H3 H4 H5]. cbn [app length] in *. assert (∀ n, u32 (u32 (i_r s + 1) + n) = u32 (i_r s + (n + 1))) as Hu by (intros n; unfold u32; rewrite Zplus_mod_idemp_l; f_equal; lia). split.
  - constructor; cbn [i_r i_w i_e i_buf set_i_r]; [apply u32_range|rewrite H2, Hu; f_equal; lia|rewrite H3, Hu; f_equal; lia|lia|].
    intros i b Hi. rewrite <- (H5 (S i) b Hi). f_equal. rewrite <- (Zplus_mod_idemp_l (u32 _)), wrap_buf, Zplus_mod_idemp_l. f_equal. lia.
  - rewrite <- (H5 0%nat c eq_refl). by rewrite Z.add_0_r.
Qed.
Lemma wp_read_chars n killed target s t : tty_ok s t → wp (read_chars n killed target) (λ o s', let '(turn, out, rest) := take_line n killed target (ready t) in o = (turn, out) ∧ tty_ok s' (set_input rest (line t) t)) s.
Proof.
  revert s t. induction n as [|n IH]; intros s t Hs; cbn [read_chars take_line]; [apply wp_mret; split; [done|]; by destruct t|].
  apply wp_bind, wp_gets. rewrite (read_empty _ _ _ (ok_input _ _ Hs)). destruct (ready t) as [|c r] eqn:Er.
  { apply wp_mret. split; [by destruct killed|]. rewrite <- Er. by destruct t. }
  rewrite bool_decide_false by done. pose proof Hs as [K1 K2 K3]. rewrite Er in K2. destruct (holds_pop s c r (line t) K2) as [K2' Hc]. rewrite Hc. apply wp_bind, wp_modify. set (s1 := set_i_r _ s) in *.
  assert (tty_ok s1 (set_input r (line t) t)) as Hs1 by (constructor; [by apply (out_ok_input s)|done|done]).
  destruct (Z.eqb_spec c (C 68)) as [->|H4].
  - rewrite decide_True by done. apply wp_bind, wp_when. destruct (Z.ltb_spec (Z.of_nat (S n)) target) as [Hlt|Hge].
    + rewrite decide_True by done. apply wp_modify, wp_mret. split; [done|]. rewrite <- Er.
      assert (u32 (i_r s1 - 1) = i_r s) as E1 by (cbn [i_r s1 set_i_r]; rewrite u32_sub_1, Z.add_0_r, u32_small by (done || apply (ho_r _ _ _ K2)); done).
      constructor; [by apply (out_ok_input s)| |done]. rewrite E1. rewrite <- Er in K2. destruct K2. by constructor.
    + rewrite decide_False by lia. by apply wp_mret.
  - rewrite decide_False by done. destruct (Z.eqb_spec c 10) as [->|H10]; [rewrite decide_True by done; by apply wp_mret|]. rewrite decide_False by done.
    apply wp_bind. eapply wp_mono; [by apply (IH s1 (set_input r (line t) t))|]. cbn [ready set_input]. intros [turn out] s2. destruct (take_line n killed target r) as [[turn' out'] rest]. intros [[= -> ->] Hs2]. by apply wp_mret.
Qed.

(** ** Histories *)
(** An interrupt with its characters, a turn of a reader, a write. *)
Inductive event := Typed (cs : list Z) | Reads (killed : bool) (target n : Z) | Writes (buf : list Z) (n : Z).
Inductive reply := Listing (b : bool) | Got (t : turn) (l : list Z) | Wrote (n : Z).
Definition run_event (e : event) : M_con reply :=
  match e with
  | Typed cs => d ← consoleintr cs; mret (Listing d)
  | Reads killed target n => '(t, l) ← consoleread killed target n; mret (Got t l)
  | Writes buf n => r ← consolewrite buf n; mret (Wrote r)
  end.
Fixpoint run_events (es : list event) : M_con (list reply) :=
  match es with
  | [] => mret []
  | e :: es => r ← run_event e; rs ← run_events es; mret (r :: rs)
  end.
Definition tty_event (e : event) (t : tty) : reply * tty :=
  match e with
  | Typed cs => let '(d, t) := type_chars cs t in (Listing d, t)
  | Reads killed target n =>
      if n <=? 0 then (Got (Returned (target - n)) [], t)
      else let '(turn, out, rest) := take_line (Z.to_nat n) killed target (ready t) in (Got turn out, set_input rest (line t) t)
  | Writes buf n => (Wrote n, puts ((λ c, Z.land c 0xff) <$> take (Z.to_nat n) buf) t)
  end.
Fixpoint tty_events (es : list event) (t : tty) : list reply * tty :=
  match es with
  | [] => ([], t)
  | e :: es => let '(r, t) := tty_event e t in let '(rs, t) := tty_events es t in (r :: rs, t)
  end.
Definition event_ok (e : event) : Prop := match e with Typed cs => Forall (λ c, c < 256) cs | _ => True end.
Lemma wp_writes l s t (Q : () → console → Prop) : tty_ok s t → (∀ s', tty_ok s' (puts ((λ c, Z.land c 0xff) <$> l) t) → Q () s') → wp (mfor l (λ c, consputc (Z.land c 0xff))) Q s.
Proof.
  revert s t. induction l as [|c l IH]; intros s t Hs HQ; cbn [mfor]; [by apply wp_mret, HQ|]. destruct Hs as [K1 K2 K3].
  apply wp_bind, (wp_consputc _ _ t); [done|]. intros s1 O1 Hh. apply (IH s1 (put (Z.land c 0xff) t)); [constructor; [done|by apply Hh|done]|exact HQ].
Qed.
Lemma wp_run_event e s t : event_ok e → tty_ok s t → wp (run_event e) (λ r s', r = (tty_event e t).1 ∧ tty_ok s' (tty_event e t).2) s.
Proof.
  intros He Hs. destruct e as [cs|killed target n|buf n]; cbn [run_event tty_event].
  - apply wp_bind. eapply wp_mono; [by apply (wp_consoleintr cs s t)|]. intros d s' [-> Hs']. apply wp_mret. by destruct (type_chars cs t).
  - unfold consoleread. destruct (Z.leb_spec n 0); [by apply wp_bind, wp_mret|]. apply wp_bind. eapply wp_mono; [by apply (wp_read_chars _ killed target s t)|].
    intros [turn out] s'. destruct (take_line _ _ _ _) as [[turn' out'] rest]. intros [[= -> ->] Hs']. by apply wp_mret.
  - unfold consolewrite. apply wp_bind, wp_bind, (wp_writes _ s t); [done|]. intros s' Hs'. by do 2 apply wp_mret.
Qed.
(** At boot: whatever the screen shows, with the cursor on one of its 24 lines. *)
Definition boots (s : console) : Prop :=
  0 <= reg14 s ∧ 0 <= reg15 s < 256 ∧ cursor s < 24 * 80 ∧ serial s = [] ∧ i_r s = 0 ∧ i_w s = 0 ∧ i_e s = 0 ∧ panicked s = false.
Definition first_tty (s : console) : tty := mkTty (mkTerm (λ i, if decide (0 <= i < 24 * 80) then crt s i else 0) 0 (cursor s)) (uart s) [] [] [].

Lemma boots_ok s : boots s → tty_ok s (first_tty s).
Proof.
  intros (B1 & B2 & B3 & B4 & B5 & B6 & B7 & B8). constructor; [constructor; [constructor|done|done|done]|constructor|apply not_elem_of_nil]; cbn; rewrite ?B5, ?B6, ?B7; try done; unfold cursor in *; try lia.
  - intros i Hi. by rewrite decide_True by lia.
  - intros p Hp. by rewrite decide_False by lia.
Qed.
(** C36: the console is a terminal.  From boot on, whatever interrupts, readers and writers do and for any length of time, no call panics or writes outside of the
    video memory or the buffer; every turn returns what the terminal on lists and endless paper returns, and the bytes of a reader are those of the line editor; the screen
    shows the last 24 lines of the paper up to the cursor, and the serial line, where there is one, has carried the same text. *)
Theorem console_refines es s : Forall event_ok es → boots s → ∃ s', let '(rs, t) := tty_events es (first_tty s) in
  run_events es s = Ret rs s' ∧ holds s' (ready t) (line t) ∧ serial s' = sent t ∧
  (∀ i, 0 <= i < 24 * 80 → crt s' i = paper (screen t) (80 * top (screen t) + i)) ∧ cursor s' = here (screen t) - 80 * top (screen t) ∧ 0 <= cursor s' < 24 * 80.
Proof.
  intros Hes Hs%boots_ok.
  assert (∀ t s, tty_ok s t → wp (run_events es) (λ rs s', rs = (tty_events es t).1 ∧ tty_ok s' (tty_events es t).2) s) as Hrun.
  { clear -Hes. induction es as [|e es IH]; intros t s Hs; cbn [run_events tty_events]; [by apply wp_mret|]. apply Forall_cons in Hes as [He Hes].
    apply wp_bind. eapply wp_mono; [by apply (wp_run_event e s t)|]. intros r s1 [-> Hs1]. destruct (tty_event e t) as [r t1]. cbn [fst snd] in *.
    apply wp_bind. eapply wp_mono; [by apply (IH Hes t1)|]. intros rs s2 [-> Hs2]. destruct (tty_events es t1) as [rs t2]. by apply wp_mret. }
  destruct (proj1 (wp_returns _ _ _) (Hrun _ _ Hs)) as (rs & s' & Hm & -> & [[Hscr Hsent _ _] Hin _]). exists s'. destruct (tty_events es (first_tty s)) as [rs t]. destruct Hscr. done.
Qed.

Definition demo_console : console := mkCons (λ _, 0) 7 76 true [] (λ _, 0) 0 0 0 false.
(** "hx", a backspace and "i" on the 24th line; then a reader of two bytes, and one of a hundred. *)
Definition demo_events : list event := [Typed [104; 120; 127; 105; 13]; Reads false 2 2; Writes [36; 32] 2; Reads false 100 100; Reads false 100 100].
Lemma console_refines_witness : ∃ s', run_events demo_events demo_console = Ret [Listing false; Got (Returned 2) [104; 105]; Wrote 2; Got (Returned 1) [10]; Got (Asleep 100) []] s' ∧
  crt s' 1788 = ink 104 ∧ crt s' 1789 = ink 105 ∧ crt s' 1840 = ink 36 ∧ cursor s' = 1842 ∧ serial s' = [104; 120; 8; 32; 8; 105; 10; 36; 32].
Proof.
  destruct (console_refines demo_events demo_console) as (s' & Hs'); [by repeat constructor|by vm_compute|]. exists s'.
  rewrite (surjective_pairing (tty_events _ _)) in Hs'. destruct Hs' as (Hm & _ & Hsent & Hcells & Hcur & _).
  split; [etransitivity; [exact Hm|]; f_equal; vm_compute; reflexivity|].
  split; [etransitivity; [apply Hcells; lia|vm_compute; reflexivity]|]. split; [etransitivity; [apply Hcells; lia|vm_compute; reflexivity]|].
  split; [etransitivity; [apply Hcells; lia|vm_compute; reflexivity]|]. split; [etransitivity; [exact Hcur|]|etransitivity; [exact Hsent|]]; vm_compute; reflexivity.
Defined.
