(* ===== verification/Kbd.v ===== *)
(** * The keyboard: kbd.c and kbd.h (src/07_xv6_File_System/PartA)

    kbdgetc decodes the controller's scan codes, one byte per call; kbdintr hands the characters to the console.  The theorem puts both together: the keys
    of a line, pressed and released one after the other, reach the reader as that line. *)

From S2P Require Import Prelude Files Console.

Definition SHIFT : Z := 1.
Definition CTL : Z := 2.
Definition ALT : Z := 4.
Definition CAPSLOCK : Z := 8.
Definition NUMLOCK : Z := 16.
Definition SCROLLLOCK : Z := 32.
Definition E0ESC : Z := 64.
(** An array of 256 uchar: the entries [l] from index 0 on, and those of [d] with their index. *)
Definition entry_at (l : list Z) (d : list (Z * Z)) (i : Z) : Z :=
  match find (λ kv, kv.1 =? i) d with Some kv => u8 kv.2 | None => u8 (default 0 (l !! Z.to_nat i)) end.
Definition table (l : list Z) (d : list (Z * Z)) : list Z := entry_at l d <$> seqZ 0 256.
Definition shiftcode : list Z := table
  []
  [(0x1D, 2); (0x2A, 1); (0x36, 1); (0x38, 4); (0x9D, 2); (0xB8, 4)].
Definition togglecode : list Z := table
  []
  [(0x3A, 8); (0x45, 16); (0x46, 32)].
Definition normalmap : list Z := table
  [0; 27; 49; 50; 51; 52; 53; 54; 55; 56; 57; 48; 45; 61; 8; 9;
   113; 119; 101; 114; 116; 121; 117; 105; 111; 112; 91; 93; 10; 0; 97; 115;
   100; 102; 103; 104; 106; 107; 108; 59; 39; 96; 0; 92; 122; 120; 99; 118;
   98; 110; 109; 44; 46; 47; 0; 42; 0; 32; 0; 0; 0; 0; 0; 0;
   0; 0; 0; 0; 0; 0; 0; 55; 56; 57; 45; 52; 53; 54; 43; 49;
   50; 51; 48; 46; 0; 0; 0; 0]
  [(0x9C, 10); (0xB5, 47); (0xC8, 0xE2); (0xD0, 0xE3); (0xC9, 0xE6); (0xD1, 0xE7); (0xCB, 0xE4); (0xCD, 0xE5); (0x97, 0xE0); (0xCF, 0xE1); (0xD2, 0xE8); (0xD3, 0xE9)].
Definition shiftmap : list Z := table
  [0; 27; 33; 64; 35; 36; 37; 94; 38; 42; 40; 41; 95; 43; 8; 9;
   81; 87; 69; 82; 84; 89; 85; 73; 79; 80; 123; 125; 10; 0; 65; 83;
   68; 70; 71; 72; 74; 75; 76; 58; 34; 126; 0; 124; 90; 88; 67; 86;
   66; 78; 77; 60; 62; 63; 0; 42; 0; 32; 0; 0; 0; 0; 0; 0;
   0; 0; 0; 0; 0; 0; 0; 55; 56; 57; 45; 52; 53; 54; 43; 49;
   50; 51; 48; 46; 0; 0; 0; 0]
  [(0x9C, 10); (0xB5, 47); (0xC8, 0xE2); (0xD0, 0xE3); (0xC9, 0xE6); (0xD1, 0xE7); (0xCB, 0xE4); (0xCD, 0xE5); (0x97, 0xE0); (0xCF, 0xE1); (0xD2, 0xE8); (0xD3, 0xE9)].
Definition ctlmap : list Z := table
  [0; 0; 0; 0; 0; 0; 0; 0; 0; 0; 0; 0; 0; 0; 0; 0;
   17; 23; 5; 18; 20; 25; 21; 9; 15; 16; 0; 0; 13; 0; 1; 19;
   4; 6; 7; 8; 10; 11; 12; 0; 0; 0; 0; 28; 26; 24; 3; 22;
   2; 14; 13; 0; 0; -17; 0; 0]
  [(0x9C, 13); (0xB5, -17); (0xC8, 0xE2); (0xD0, 0xE3); (0xC9, 0xE6); (0xD1, 0xE7); (0xCB, 0xE4); (0xCD, 0xE5); (0x97, 0xE0); (0xCF, 0xE1); (0xD2, 0xE8); (0xD3, 0xE9)].
Definition charcode : list (list Z) := [normalmap; shiftmap; ctlmap; ctlmap].

(** [shift], and the bytes that wait in the controller. *)
Record kbd := mkKbd { shift : Z; port : list Z }.
Definition set_shift (x : Z) (s : kbd) : kbd := mkKbd x (port s).
Definition set_port (x : list Z) (s : kbd) : kbd := mkKbd (shift s) x.
Definition kbdgetc : M kbd Z :=
  p ← gets port;
  match p with
  | [] => mret (-1)
  | data :: p =>
      modify (set_port p) ;;
      sh ← gets shift;
      if data =? 0xE0 then
        modify (set_shift (Z.lor sh E0ESC)) ;; mret 0
      else if negb (Z.land data 0x80 =? 0) then
        let data := if negb (Z.land sh E0ESC =? 0) then data else Z.land data 0x7F in
        sc ← aget shiftcode data;
        modify (set_shift (Z.ldiff sh (Z.lor sc E0ESC))) ;; mret 0
      else
        let '(data, sh) := if negb (Z.land sh E0ESC =? 0) then (Z.lor data 0x80, Z.ldiff sh E0ESC) else (data, sh) in
        sc ← aget shiftcode data;
        tc ← aget togglecode data;
        let sh := Z.lxor (Z.lor sh sc) tc in
        modify (set_shift sh) ;;
        m ← aget charcode (Z.land sh (Z.lor CTL SHIFT));
        c ← aget m data;
        if negb (Z.land sh CAPSLOCK =? 0) then
          if (97 <=? c) && (c <=? 122) then mret (u32 (c + (65 - 97)))
          else if (65 <=? c) && (c <=? 90) then mret (c + (97 - 65))
          else mret c
        else mret c
  end.
(** What kbdgetc returns until it returns -1; kbdintr gives them to consoleintr one by one, which touches nothing that kbdgetc uses. *)
Fixpoint kbd_chars (n : nat) : M kbd (list Z) :=
  match n with
  | O => mret []
  | S n => c ← kbdgetc; if c <? 0 then mret [c] else l ← kbd_chars n; mret (c :: l)
  end.
(** An interrupt while the bytes [data] wait. *)
Definition kbdintr (data : list Z) (k : kbd) : outcome kbd (list Z) := kbd_chars (S (length data)) (set_port data k).

(** ** No index is out of bounds *)
Lemma small_bits n a : 0 <= n → (0 <= a < 2 ^ n ↔ 0 <= a ∧ Z.shiftr a n = 0).
Proof. intros Hn. rewrite Z.shiftr_div_pow2 by lia. assert (0 < 2 ^ n) by lia. split; [intros []; split; [done|by apply Z.div_small]|intros [Ha Hd]; split; [done|]]. apply Z.div_small_iff in Hd; lia. Qed.
Lemma lor_small n a b : 0 <= n → 0 <= a < 2 ^ n → 0 <= b < 2 ^ n → 0 <= Z.lor a b < 2 ^ n.
Proof. intros Hn. rewrite !small_bits by done. intros [? Ha] [? Hb]. rewrite Z.shiftr_lor, Ha, Hb, Z.lor_nonneg. done. Qed.
Lemma lxor_small n a b : 0 <= n → 0 <= a < 2 ^ n → 0 <= b < 2 ^ n → 0 <= Z.lxor a b < 2 ^ n.
Proof. intros Hn. rewrite !small_bits by done. intros [? Ha] [? Hb]. rewrite Z.shiftr_lxor, Ha, Hb, Z.lxor_nonneg. split; [tauto|done]. Qed.
Lemma land_small n a b : 0 <= n → 0 <= a → 0 <= b < 2 ^ n → 0 <= Z.land a b < 2 ^ n.
Proof. intros Hn Ha. rewrite !small_bits by done. intros [? Hb]. rewrite Z.shiftr_land, Hb, Z.land_nonneg. split; [tauto|apply Z.land_0_r]. Qed.
Lemma ldiff_small n a b : 0 <= n → 0 <= a < 2 ^ n → 0 <= Z.ldiff a b < 2 ^ n.
Proof. intros Hn. rewrite !small_bits by done. intros [? Ha]. rewrite Z.shiftr_ldiff, Ha, Z.ldiff_nonneg. split; [tauto|done]. Qed.
Lemma wp_table l d i (Q : Z → kbd → Prop) s : 0 <= i < 2 ^ 8 → (∀ v, v = entry_at l d i → 0 <= v < 2 ^ 8 → Q v s) → wp (aget (table l d) i) Q s.
Proof.
  intros Hi HQ. apply (wp_aget _ _ (entry_at l d i)); [lia| |].
  - unfold table. rewrite list_lookup_fmap, lookup_seqZ_lt by lia. cbn. do 2 f_equal. lia.
  - apply HQ; [done|]. unfold entry_at. destruct (find _ _); apply Z.mod_pos_bound; lia.
Qed.
Lemma small_entries d i : Forall (λ kv : Z * Z, 0 <= kv.2 < 2 ^ 6) d → 0 <= entry_at [] d i < 2 ^ 7.
Proof.
  intros Hd. unfold entry_at. destruct (find _ d) as [kv|] eqn:E; [|by vm_compute]. apply find_some in E as [E _]. rewrite Forall_forall in Hd.
  pose proof (Hd kv (proj2 (list_elem_of_In _ _) E)). unfold u8. rewrite Z.mod_small; lia.
Qed.
(** Whatever bytes the controller sends, in any order: kbdgetc reads inside of its tables and returns a character, 0 for none. *)
Lemma wp_kbdgetc k b p : 0 <= shift k < 2 ^ 7 → port k = b :: p → 0 <= b < 256 → wp kbdgetc (λ c k', 0 <= c < 256 ∧ 0 <= shift k' < 2 ^ 7 ∧ port k' = p) k.
Proof.
  intros Hsh Hp Hb. unfold kbdgetc. apply wp_bind, wp_gets. rewrite Hp. apply wp_bind, wp_modify, wp_bind, wp_gets. cbn [shift set_port]. change 256 with (2 ^ 8) in Hb. 
  assert (Forall (λ kv : Z * Z, 0 <= kv.2 < 2 ^ 6) [(0x1D, 2); (0x2A, 1); (0x36, 1); (0x38, 4); (0x9D, 2); (0xB8, 4)]) as Hsc by (repeat constructor; done).
  assert (Forall (λ kv : Z * Z, 0 <= kv.2 < 2 ^ 6) [(0x3A, 8); (0x45, 16); (0x46, 32)]) as Htc by (repeat constructor; done).
  destruct (Z.eqb_spec b 0xE0) as [->|Hne].
  { apply wp_bind, wp_modify, wp_mret. split; [done|]. split; [by apply (lor_small 7)|done]. }
  destruct (negb (Z.land b 0x80 =? 0)).
  { apply wp_bind. assert (0 <= (if negb (Z.land (shift k) E0ESC =? 0) then b else Z.land b 0x7F) < 2 ^ 8) as Hi by (case_match; [done|]; apply (land_small 8); lia).
    apply wp_table; [exact Hi|]. intros v _ _. apply wp_bind, wp_modify, wp_mret. split; [done|]. split; [by apply (ldiff_small 7)|done]. }
  set (ds := if negb (Z.land (shift k) E0ESC =? 0) then _ else _). assert (0 <= ds.1 < 2 ^ 8 ∧ 0 <= ds.2 < 2 ^ 7) as [H1 H2].
  { unfold ds. case_match; cbn [fst snd]; [|done]. split; [by apply (lor_small 8)|by apply (ldiff_small 7)]. }
  destruct ds as [data sh]. cbn [fst snd] in *. apply wp_bind, wp_table; [done|]. intros sc -> _. apply wp_bind, wp_table; [done|]. intros tc -> _.
  apply wp_bind, wp_modify. set (sh' := Z.lxor _ _). assert (0 <= sh' < 2 ^ 7) as Hsh' by (apply (lxor_small 7); [done|apply (lor_small 7); [done|done|by apply small_entries]|by apply small_entries]). clearbody sh'.
  pose proof (land_small 2 sh' (Z.lor CTL SHIFT) ltac:(done) ltac:(lia) ltac:(done)) as Hm. set (mi := Z.land sh' _) in *. clearbody mi.
  assert (∃ m l d, charcode !! Z.to_nat mi = Some m ∧ m = table l d) as (m & l & d & Hcm & ->).
  { assert (mi = 0 ∨ mi = 1 ∨ mi = 2 ∨ mi = 3) as [->|[->|[->| ->]]] by lia; by do 3 eexists. }
  apply wp_bind, (wp_aget _ _ (table l d)); [lia|done|]. apply wp_bind, wp_table; [done|]. intros c _ Hc.
  assert (∀ c', 0 <= c' < 256 → wp (mret c') (λ c k', 0 <= c < 256 ∧ 0 <= shift k' < 2 ^ 7 ∧ port k' = p) (set_shift sh' (set_port p k))) as Hret by (intros c' Hc'; by apply wp_mret).
  destruct (negb _); [|by apply Hret]. destruct (Z.leb_spec 97 c); destruct (Z.leb_spec c 122); destruct (Z.leb_spec 65 c); destruct (Z.leb_spec c 90); cbn [andb]; apply Hret; rewrite ?u32_small; lia.
Qed.

(** ** Typing *)
Definition key (m : list Z) (c : Z) : option Z := (λ p, Z.of_nat p.1) <$> list_find (λ x, x = c) (take 88 m).
(** The scan codes of a character: its key is pressed and released, between those of the left shift key where it is needed. *)
Definition strokes (c : Z) : list Z :=
  match key normalmap c with
  | Some k => [k; k + 0x80]
  | None => match key shiftmap c with Some k => [0x2A; k; k + 0x80; 0xAA] | None => [] end
  end.
Lemma kbdgetc_head sh b p : kbdgetc (mkKbd sh (b :: p)) = match kbdgetc (mkKbd sh [b]) with
  | Ret c k => Ret c (mkKbd (shift k) p) | Panic m => Panic m | Fault w => Fault w | Block k => Block (mkKbd (shift k) p) | Diverge => Diverge end.
Proof.
  unfold kbdgetc, aget, mbind, M_bind, mret, M_ret, gets, modify, fault. cbn [port set_port shift].
  repeat first [reflexivity | match goal with |- context [if ?b then _ else _] => destruct b | |- context [match ?l !! ?i with _ => _ end] => destruct (l !! i) end; cbn [port set_port set_shift shift]].
Qed.
Lemma kbd_chars_app bs rest n sh sh' l : kbd_chars (length bs) (mkKbd sh bs) = Ret l (mkKbd sh' []) → Forall (λ c, 0 <= c) l → length l = length bs →
  kbd_chars (length bs + n) (mkKbd sh (bs ++ rest)) = match kbd_chars n (mkKbd sh' rest) with Ret l' k => Ret (l ++ l') k | o => o end.
Proof.
  revert sh l. induction bs as [|b bs IH]; intros sh l Hm Hl Hlen; cbn [length Nat.add app] in *.
  - cbn in Hm. injection Hm as <- <-. by destruct (kbd_chars n _).
  - cbn [kbd_chars] in *. unfold mbind, M_bind in *. rewrite kbdgetc_head in Hm |- *. destruct (kbdgetc (mkKbd sh [b])) as [c k| | | |] eqn:Eg; [|done..].
    destruct (Z.ltb_spec c 0).
    { cbn in Hm. injection Hm as <- _ _. by apply Forall_cons in Hl as [? _]; lia. }
    destruct (kbd_chars (length bs) (mkKbd (shift k) bs)) as [l0 k0| | | |] eqn:E; [|done..]. cbn in Hm. injection Hm as <- ->. apply Forall_cons in Hl as [_ Hl].
    rewrite (IH _ _ E Hl) by (cbn in Hlen; lia). by destruct (kbd_chars n (mkKbd sh' rest)).
Qed.
Definition typeable : list Z := seqZ 32 95 ++ [10].
(** What one key gives, besides zeros. *)
Definition key_types (c : Z) : bool :=
  match kbd_chars (length (strokes c)) (mkKbd 0 (strokes c)) with
  | Ret l k => bool_decide (filter (λ x, x ≠ 0) l = [c]) && bool_decide (Forall (λ x, 0 <= x < 256) l) && (length l =? length (strokes c))%nat && (shift k =? 0) && bool_decide (port k = [])
  | _ => false
  end.
Lemma typeable_types : forallb key_types typeable = true.
Proof. vm_compute. reflexivity. Qed.
Lemma kbd_text text : Forall (λ c, c ∈ typeable) text → ∃ l, kbd_chars (S (length (text ≫= strokes))) (mkKbd 0 (text ≫= strokes)) = Ret (l ++ [-1]) (mkKbd 0 []) ∧
  filter (λ x, x ≠ 0) l = text ∧ Forall (λ x, 0 <= x < 256) l.
Proof.
  induction text as [|c text IH]; intros Ht; [by exists []|]. apply Forall_cons in Ht as [Hc Ht]. destruct (IH Ht) as (l & Hm & Hf & Hr).
  pose proof typeable_types as Hk. rewrite forallb_forall in Hk. specialize (Hk c (proj1 (list_elem_of_In _ _) Hc)). unfold key_types in Hk.
  destruct (kbd_chars (length (strokes c)) (mkKbd 0 (strokes c))) as [l0 [sh p]| | | |] eqn:E; [|done..]. cbn [shift port] in Hk.
  rewrite !andb_true_iff, !bool_decide_eq_true, Nat.eqb_eq, Z.eqb_eq in Hk. destruct Hk as [[[[K1 K2] K3] ->] ->].
  exists (l0 ++ l). cbn [mbind list_bind]. rewrite length_app, Nat.add_comm, <- Nat.add_succ_l, Nat.add_comm.
  rewrite (kbd_chars_app _ _ _ _ _ _ E); [|eapply Forall_impl; [exact K2|cbn; intros; lia]|done]. cbn [mbind list_bind] in Hm. rewrite Hm, filter_app, K1, Hf, <- app_assoc.
  split; [done|]. split; [done|]. by apply Forall_app.
Qed.

(** ** From the keys to the reader *)
Lemma type_zeros l t : Forall (λ c, 0 <= c < 256) l → type_chars l t = type_chars (filter (λ c, c ≠ 0) l) t.
Proof.
  revert t. induction l as [|c l IH]; intros t Hl; [done|]. apply Forall_cons in Hl as [Hc Hl]. rewrite filter_cons. case_decide as H0.
  - cbn [type_chars]. destruct (c <? 0); [done|]. destruct (type_char c t) as [d t1]. by rewrite IH.
  - assert (c = 0) as -> by lia. cbn [type_chars]. change (0 <? 0) with false. cbn iota. change (type_char 0 t) with (false, t). cbn iota. rewrite IH by done. by destruct (type_chars _ t).
Qed.
Lemma type_chars_end l t : Forall (λ c, 0 <= c) l → type_chars (l ++ [-1]) t = type_chars l t.
Proof.
  revert t. induction l as [|c l IH]; intros t Hl; [done|]. apply Forall_cons in Hl as [Hc Hl]. cbn [app type_chars]. destruct (c <? 0); [done|]. destruct (type_char c t) as [d t1]. by rewrite IH.
Qed.
Definition printable (c : Z) : Prop := 32 <= c <= 126.
Lemma type_printable c t : printable c → Z.of_nat (length (ready t ++ line t)) < INPUT_BUF - 1 → type_char c t = (false, put c (set_input (ready t) (line t ++ [c]) t)).
Proof.
  intros Hc Hlen. unfold printable, type_char, C, INPUT_BUF in *. rewrite !decide_False by lia.
  assert (s8 c = c) as -> by (apply (swrap_small 8); lia). rewrite decide_False; [done|]. rewrite app_assoc, length_app. cbn. lia.
Qed.
Lemma type_text text t : Forall printable text → Z.of_nat (length (ready t ++ line t ++ text)) < INPUT_BUF → ∃ t', type_chars (text ++ [10]) t = (false, t') ∧ ready t' = ready t ++ line t ++ text ++ [10] ∧ line t' = [].
Proof.
  revert t. induction text as [|c text IH]; intros t Ht Hlen.
  - rewrite app_nil_r in Hlen. cbn [app type_chars]. change (10 <? 0) with false. cbn iota. eexists. unfold type_char, C, INPUT_BUF in *. rewrite !decide_False by lia.
    rewrite decide_True by lia. split; [done|]. cbn. by rewrite app_nil_r || done.
  - apply Forall_cons in Ht as [Hc Ht]. cbn [app type_chars]. rewrite (proj2 (Z.ltb_ge c 0)) by (unfold printable in Hc; lia).
    rewrite !length_app in Hlen. cbn [length] in Hlen. rewrite type_printable by (done || rewrite length_app; lia). cbn iota.
    destruct (IH (put c (set_input (ready t) (line t ++ [c]) t)) Ht) as (t' & -> & Hr & Hl); [cbn; rewrite !length_app; cbn; lia|]. exists t'. split; [done|]. split; [|done].
    rewrite Hr. cbn. by rewrite <- !app_assoc.
Qed.
Lemma take_text text n target : Forall printable text → (length text < n)%nat → take_line n false target (text ++ [10]) = (Returned (target - Z.of_nat (n - length text - 1)), text ++ [10], []).
Proof.
  revert n. induction text as [|c text IH]; intros [|n] Ht Hn; cbn [length] in Hn; try lia; cbn [app take_line].
  - rewrite decide_False, decide_True by done. cbn [length]. do 3 f_equal. lia.
  - apply Forall_cons in Ht as [Hc Ht]. unfold printable, C in *. rewrite !decide_False by lia. rewrite IH by (done || lia). cbn [length]. done.
Qed.

(** C38: from the keys to the reader.  Where the keys of a line of up to 127 printable characters and enter are pressed and released one after the other, with the shift key where it is
    needed, kbdgetc decodes them without an index out of bounds and ends with no key held; the console, handed what it returns,
    gives a reader that asks for enough exactly the line. *)
Theorem keyboard_line_read text n s : Forall printable text → Z.of_nat (length text) < INPUT_BUF → Z.of_nat (length text) < n → boots s → ∃ l s',
  kbdintr ((text ++ [10]) ≫= strokes) (mkKbd 0 []) = Ret l (mkKbd 0 []) ∧
  run_events [Typed l; Reads false n n] s = Ret [Listing false; Got (Returned (Z.of_nat (length text) + 1)) (text ++ [10])] s'.
Proof.
  intros Ht Hlen Hn Hs. destruct (kbd_text (text ++ [10])) as (l & Hm & Hf & Hr).
  { apply Forall_app. split; [|repeat constructor; by vm_compute]. eapply Forall_impl; [exact Ht|]. intros c Hc. unfold printable, typeable in *. apply elem_of_app. left. apply elem_of_seqZ. lia. }
  exists (l ++ [-1]). assert (wp (run_events [Typed (l ++ [-1]); Reads false n n]) (λ rs _, rs = [Listing false; Got (Returned (Z.of_nat (length text) + 1)) (text ++ [10])]) s) as Hw.
  2: { apply wp_returns in Hw as (rs & s' & Hrun & ->). by exists s'. }
  destruct (type_text text (first_tty s) Ht) as (t' & Htt & Hready & _); [done|]. pose proof (boots_ok s Hs) as Hok.
  cbn [run_events]. apply wp_bind. eapply wp_mono; [apply (wp_run_event (Typed (l ++ [-1])) s (first_tty s)); [|done]|].
  { cbn. apply Forall_app. split; [|by repeat constructor]. eapply Forall_impl; [exact Hr|cbn; lia]. }
  intros r s1. cbn [tty_event]. rewrite type_chars_end by (eapply Forall_impl; [exact Hr|cbn; lia]). rewrite (type_zeros l), Hf, Htt by done. cbn [fst snd]. intros [-> Hs1].
  apply wp_bind, wp_bind. eapply wp_mono; [by apply (wp_run_event (Reads false n n) s1 t')|]. intros r2 s2. cbn [tty_event]. rewrite (proj2 (Z.leb_gt n 0)) by lia.
  rewrite Hready. cbn [ready line first_tty app]. rewrite take_text by (done || lia). cbn [fst snd]. intros [-> _]. do 2 apply wp_mret. repeat f_equal. lia.
Qed.
Definition demo_line : list Z := [72; 105; 126; 32; 34; 63].
Lemma keyboard_line_read_witness : ∃ l s', kbdintr [0x2A; 0x23; 0xA3; 0xAA; 0x17; 0x97; 0x2A; 0x29; 0xA9; 0xAA; 0x39; 0xB9; 0x2A; 0x28; 0xA8; 0xAA; 0x2A; 0x35; 0xB5; 0xAA; 0x1C; 0x9C] (mkKbd 0 []) = Ret l (mkKbd 0 []) ∧
  run_events [Typed l; Reads false 100 100] demo_console = Ret [Listing false; Got (Returned 7) (demo_line ++ [10])] s'.
Proof. apply (keyboard_line_read demo_line 100 demo_console); [by repeat constructor|done|done|by vm_compute]. Defined.
