(* ===== verification/Printf.v ===== *)
(** * Formatted output: printint and cprintf of console.c (src/07_xv6_File_System/PartA)

    cprintf puts on the console what its format asks for: [prints] says what that is, by the value that the digits have.  cons.lock is
    left out. *)

From S2P Require Import Prelude Files Console.

(** ** The program *)
Definition digits : list Z := [48; 49; 50; 51; 52; 53; 54; 55; 56; 57; 97; 98; 99; 100; 101; 102].
Definition buf_size : nat := 16.
(** buf, the last character first; it has [buf_size] bytes. *)
Definition push (c : Z) (buf : list Z) : M_con (list Z) :=
  if (length buf <? buf_size)%nat then mret (c :: buf) else fault "write behind buf".
Fixpoint digit_loop (fuel : nat) (x base : Z) (buf : list Z) : M_con (list Z) :=
  match fuel with
  | O => diverge
  | S fuel =>
      d ← aget digits (x mod base);
      buf ← push d buf;
      if negb (x / base =? 0) then digit_loop fuel (x / base) base buf else mret buf
  end.
Definition printint (xx base : Z) (sign : bool) : M_con () :=
  let sign := sign && (xx <? 0) in
  let x := if sign then u32 (- xx) else u32 xx in
  buf ← digit_loop (S buf_size) x base [];
  buf ← (if sign then push 45 buf else mret buf);
  mfor buf consputc.
(** [args] are the words on the stack after [fmt], [mem] the strings in memory. *)
Definition next_arg (args : list Z) : M_con (Z * list Z) :=
  match args with a :: args => mret (a, args) | [] => fault "reads past the arguments" end.
Definition null_string : list Z := [40; 110; 117; 108; 108; 41].
Fixpoint cprintf (mem : Z → option (list Z)) (fmt : list Z) (args : list Z) : M_con () :=
  match fmt with
  | [] => mret ()
  | c :: fmt =>
      if negb (c =? 37) then consputc c ;; cprintf mem fmt args
      else
        match fmt with
        | [] => mret ()
        | c :: fmt =>
            if c =? 100 then '(a, args) ← next_arg args; printint (s32 a) 10 true ;; cprintf mem fmt args
            else if (c =? 120) || (c =? 112) then '(a, args) ← next_arg args; printint (s32 a) 16 false ;; cprintf mem fmt args
            else if c =? 115 then
              '(a, args) ← next_arg args;
              s ← (if a =? 0 then mret null_string else match mem a with Some s => mret s | None => fault "wild string" end);
              mfor s (λ b, consputc (s8 b)) ;;
              cprintf mem fmt args
            else if c =? 37 then consputc 37 ;; cprintf mem fmt args
            else consputc 37 ;; consputc c ;; cprintf mem fmt args
        end
  end.

(** ** What is meant *)
Definition digit_value (c : Z) : Z := if c <? 58 then c - 48 else c - 97 + 10.
Definition value (base : Z) (l : list Z) : Z := foldl (λ n c, n * base + digit_value c) 0 l.
(** [l] writes [n]: digits of the base with this value, no zero in front. *)
Record numeral (base n : Z) (l : list Z) : Prop := {
  nu_digits : Forall (λ c, c ∈ digits ∧ digit_value c < base) l;
  nu_value : value base l = n;
  nu_first : l ≠ [] ∧ (head l = Some 48 → l = [48]);
}.
Definition signed_numeral (n : Z) (l : list Z) : Prop := if decide (n < 0) then ∃ l', l = 45 :: l' ∧ numeral 10 (- n) l' else numeral 10 n l.
Inductive prints (mem : Z → option (list Z)) : list Z → list Z → list Z → Prop :=
  | pr_end args : prints mem [] args []
  | pr_char c fmt args out : c ≠ 37 → prints mem fmt args out → prints mem (c :: fmt) args (c :: out)
  | pr_lone args : prints mem [37] args []
  | pr_int a l fmt args out : signed_numeral (s32 a) l → prints mem fmt args out → prints mem (37 :: 100 :: fmt) (a :: args) (l ++ out)
  | pr_hex c a l fmt args out : c = 120 ∨ c = 112 → numeral 16 (u32 a) l → prints mem fmt args out → prints mem (37 :: c :: fmt) (a :: args) (l ++ out)
  | pr_null fmt args out : prints mem fmt args out → prints mem (37 :: 115 :: fmt) (0 :: args) (null_string ++ out)
  | pr_string a s fmt args out : a ≠ 0 → mem a = Some s → prints mem fmt args out → prints mem (37 :: 115 :: fmt) (a :: args) (s ++ out)
  | pr_percent fmt args out : prints mem fmt args out → prints mem (37 :: 37 :: fmt) args (37 :: out)
  | pr_other c fmt args out : c ∉ [100; 120; 112; 115; 37] → prints mem fmt args out → prints mem (37 :: c :: fmt) args (37 :: c :: out).
(** How many arguments a format takes, and which of them are strings. *)
Fixpoint args_ok (mem : Z → option (list Z)) (fmt args : list Z) : Prop :=
  match fmt with
  | [] => True
  | c :: fmt =>
      if negb (c =? 37) then args_ok mem fmt args
      else
        match fmt with
        | [] => True
        | c :: fmt =>
            if (c =? 100) || (c =? 120) || (c =? 112) then match args with _ :: args => args_ok mem fmt args | [] => False end
            else if c =? 115 then match args with a :: args => (a = 0 ∨ ∃ s, mem a = Some s ∧ Forall (λ b, 0 <= b < 256) s) ∧ args_ok mem fmt args | [] => False end
            else args_ok mem fmt args
        end
  end.

(** ** Proofs *)
Lemma digit_at d : 0 <= d < 16 → ∃ c, digits !! Z.to_nat d = Some c ∧ digit_value c = d ∧ c ∈ digits ∧ (c = 48 → d = 0).
Proof.
  intros Hd. assert (forallb (λ d, match digits !! Z.to_nat d with Some c => (digit_value c =? d) && bool_decide (c ∈ digits) && (negb (c =? 48) || (d =? 0)) | None => false end) (seqZ 0 16) = true) as Hall by reflexivity.
  rewrite forallb_forall in Hall. specialize (Hall d). destruct (digits !! Z.to_nat d) as [c|].
  - exists c. assert (In d (seqZ 0 16)) as Hin by (apply list_elem_of_In, elem_of_seqZ; lia). specialize (Hall Hin).
    rewrite !andb_true_iff, orb_true_iff, negb_true_iff, bool_decide_eq_true in Hall. destruct Hall as [[H1 H2] H3]. repeat split; [lia|done|]. intros ->. destruct H3; lia.
  - assert (In d (seqZ 0 16)) as Hin by (apply list_elem_of_In, elem_of_seqZ; lia). by specialize (Hall Hin).
Qed.
Lemma value_app base l1 l2 : value base (l1 ++ l2) = foldl (λ n c, n * base + digit_value c) (value base l1) l2.
Proof. unfold value. by rewrite foldl_app. Qed.
Lemma value_acc base l n : foldl (λ n c, n * base + digit_value c) n l = n * base ^ Z.of_nat (length l) + value base l.
Proof.
  revert n. induction l as [|c l IH]; intros n; cbn [foldl length]; [unfold value; cbn; lia|]. rewrite IH. unfold value. cbn [foldl]. rewrite (IH (0 * base + digit_value c)).
  rewrite Nat2Z.inj_succ, Z.pow_succ_r by lia. unfold value. ring.
Qed.
Lemma numeral_snoc base x l c : 2 <= base <= 16 → 0 <= x → x / base ≠ 0 → numeral base (x / base) l → c ∈ digits → digit_value c = x mod base → numeral base x (l ++ [c]).
Proof.
  intros Hb Hx Hne [N1 N2 [N3 N4]] Hc Hv. constructor.
  - apply Forall_app. split; [done|]. constructor; [|constructor]. split; [done|]. rewrite Hv. apply Z.mod_pos_bound. lia.
  - rewrite value_app, N2. cbn [foldl]. rewrite Hv. pose proof (Z.div_mod x base ltac:(lia)). lia.
  - split; [by destruct l|]. destruct l as [|c0 l]; [done|]. cbn [app head]. intros [= ->]. specialize (N4 eq_refl). rewrite N4 in N2. by rewrite <- N2 in Hne.
Qed.
(** The loop puts the digits of [x], at most [k] of them, before the characters that are there. *)
Lemma wp_digit_loop fuel k x base buf s (Q : list Z → console → Prop) : 2 <= base <= 16 → 0 <= x < base ^ Z.of_nat k → (0 < k <= fuel)%nat → (length buf + k <= buf_size)%nat →
  (∀ l, numeral base x l → (length l <= k)%nat → Q (l ++ buf) s) → wp (digit_loop fuel x base buf) Q s.
Proof.
  revert k x buf Q. induction fuel as [|fuel IH]; intros k x buf Q Hb Hx Hk Hlen HQ; [lia|]. cbn [digit_loop].
  pose proof (Z.mod_pos_bound x base ltac:(lia)) as Hmod. destruct (digit_at (x mod base) ltac:(lia)) as (c & Hc & Hv & Hin & H48).
  apply wp_bind, (wp_aget _ _ c); [lia|done|]. apply wp_bind. unfold push. rewrite (proj2 (Nat.ltb_lt _ _)) by lia. apply wp_mret.
  destruct (Z.eqb_spec (x / base) 0) as [Hz|Hz]; cbn [negb].
  - apply wp_mret, (HQ [c]); [|cbn; lia]. assert (x mod base = x) as Hxm by (apply Z.div_small_iff in Hz; [apply Z.mod_small; lia|lia]). rewrite Hxm in *. constructor.
    + constructor; [|constructor]. split; [done|]. lia.
    + unfold value. cbn [foldl]. lia.
    + split; [done|]. cbn. by intros [= ->].
  - destruct k as [|k]; [lia|]. rewrite Nat2Z.inj_succ, Z.pow_succ_r in Hx by lia. assert (0 <= x / base < base ^ Z.of_nat k) as Hx' by (split; [apply Z.div_pos; lia|apply Z.div_lt_upper_bound; lia]).
    apply (IH k); [done|done| |cbn [length]; lia|].
    + destruct k; [|lia]. cbn in Hx'. lia.
    + intros l Hl Hll. replace (l ++ c :: buf) with ((l ++ [c]) ++ buf) by by rewrite <- app_assoc. apply HQ; [by apply numeral_snoc; lia || done|rewrite length_app; cbn; lia].
Qed.
Lemma puts_app l1 l2 t : puts (l1 ++ l2) t = puts l2 (puts l1 t).
Proof. apply foldl_app. Qed.
Lemma wp_put_all l s t (Q : () → console → Prop) : out_ok s t → (∀ s', out_ok s' (puts l t) → Q () s') → wp (mfor l consputc) Q s.
Proof.
  revert s t. induction l as [|c l IH]; intros s t Hs HQ; cbn [mfor]; [by apply wp_mret, HQ|]. apply wp_bind, (wp_consputc _ _ t); [done|]. intros s1 O1 _. by apply (IH s1 (put c t)).
Qed.
Lemma put_byte b t : 0 <= b < 256 → put (s8 b) t = put b t.
Proof.
  intros Hb. unfold put, line_bytes. rewrite !put_cell_eq. assert (s8 b = b ∨ s8 b = b - 256 ∧ 128 <= b) as Hs.
  { unfold s8, swrap. change (2 ^ 8) with 256. rewrite Z.mod_small by lia. destruct (Z.ltb_spec b (2 ^ (8 - 1))); [by left|by right]. }
  destruct Hs as [->|[-> H128]]; [done|]. unfold BACKSPACE. assert (ink (b - 256) = ink b) as ->.
  { unfold ink. f_equal. change 0xff with (Z.ones 8). rewrite !Z.land_ones by lia. replace (b - 256) with (b + (-1) * 2 ^ 8) by lia. by rewrite Z.mod_add. }
  assert (u8 (b - 256) = u8 b) as -> by (unfold u8; replace (b - 256) with (b + (-1) * 2 ^ 8) by lia; by rewrite Z.mod_add).
  rewrite !(proj2 (Z.eqb_neq _ _)) by lia. by rewrite !decide_False by lia.
Qed.
Lemma wp_put_string l s t (Q : () → console → Prop) : Forall (λ b, 0 <= b < 256) l → out_ok s t → (∀ s', out_ok s' (puts l t) → Q () s') → wp (mfor l (λ b, consputc (s8 b))) Q s.
Proof.
  revert s t. induction l as [|c l IH]; intros s t Hl Hs HQ; cbn [mfor]; [by apply wp_mret, HQ|]. apply Forall_cons in Hl as [Hc Hl]. apply wp_bind, (wp_consputc _ _ t); [done|]. intros s1 O1 _.
  rewrite put_byte in O1 by done. by apply (IH s1 (put c t)).
Qed.
Lemma wp_printint_dec xx s t (Q : () → console → Prop) : - 2 ^ 31 <= xx < 2 ^ 31 → out_ok s t → (∀ l s', signed_numeral xx l → out_ok s' (puts l t) → Q () s') → wp (printint xx 10 true) Q s.
Proof.
  intros Hxx Hs HQ. unfold printint. cbn [andb]. unfold signed_numeral in HQ. apply wp_bind. destruct (Z.ltb_spec xx 0) as [Hneg|Hpos].
  - rewrite u32_small by lia. apply (wp_digit_loop _ 10); [lia|lia|unfold buf_size; lia|cbn; unfold buf_size; lia|]. intros l Hl Hll. rewrite app_nil_r. apply wp_bind. unfold push. rewrite (proj2 (Nat.ltb_lt _ _)) by (unfold buf_size; lia).
    apply wp_mret, (wp_put_all _ _ t); [done|]. intros s'. apply HQ. rewrite decide_True by done. by exists l.
  - rewrite u32_small by lia. apply (wp_digit_loop _ 10); [lia|lia|unfold buf_size; lia|cbn; unfold buf_size; lia|]. intros l Hl Hll. rewrite app_nil_r. apply wp_bind.
    apply wp_mret, (wp_put_all _ _ t); [done|]. intros s'. apply HQ. by rewrite decide_False by lia.
Qed.
Lemma wp_printint_hex xx s t (Q : () → console → Prop) : out_ok s t → (∀ l s', numeral 16 (u32 xx) l → out_ok s' (puts l t) → Q () s') → wp (printint xx 16 false) Q s.
Proof.
  intros Hs HQ. unfold printint. cbn [andb]. pose proof (u32_range xx). apply wp_bind, (wp_digit_loop _ 8); [lia|lia|unfold buf_size; lia|cbn; unfold buf_size; lia|]. intros l Hl Hll. rewrite app_nil_r. apply wp_bind.
  apply wp_mret, (wp_put_all _ _ t); [done|]. intros s'. by apply HQ.
Qed.
Lemma u32_s32 a : u32 (s32 a) = u32 a.
Proof.
  unfold s32, swrap, u32. cbv zeta. destruct (_ <? _); [by rewrite Z.mod_mod|]. replace (a mod 2 ^ 32 - 2 ^ 32) with (a mod 2 ^ 32 + (-1) * 2 ^ 32) by lia. by rewrite Z.mod_add, Z.mod_mod.
Qed.

Lemma wp_next_arg {A} a args (f : Z * list Z → M_con A) (Q : A → console → Prop) s : wp (f (a, args)) Q s → wp (next_arg (a :: args) ≫= f) Q s.
Proof. intros HQ. by apply wp_bind, wp_mret. Qed.

(** C37: cprintf prints what its format says.  With enough arguments, of which those for %s are strings in memory or null, cprintf returns,
    never writes behind printint's buffer, and the console, screen and serial line, has shown exactly an output that the format and the arguments ask for: digits without
    leading zeros whose value is the number, down to -2147483648. *)
Theorem cprintf_prints mem fmt args s t : args_ok mem fmt args → out_ok s t →
  wp (cprintf mem fmt args) (λ _ s', ∃ out, prints mem fmt args out ∧ out_ok s' (puts out t)) s.
Proof.
  revert args s t. induction fmt as [fmt IH] using (induction_ltof1 _ (@length Z)). unfold ltof in IH. intros args s t Hok Hs.
  destruct fmt as [|c fmt]; cbn [cprintf]; [apply wp_mret; exists []; split; [constructor|done]|].
  assert (∀ pre rest args' s', (length rest < length (c :: fmt))%nat → args_ok mem rest args' → out_ok s' (puts pre t) →
    (∀ out, prints mem rest args' out → prints mem (c :: fmt) args (pre ++ out)) → wp (cprintf mem rest args') (λ _ s', ∃ out, prints mem (c :: fmt) args out ∧ out_ok s' (puts out t)) s') as Hgo.
  { intros pre rest args' s' Hlen Hok' Hs' Hpr. eapply wp_mono; [by apply IH|]. intros [] s2 (out & Hp & Hs2). exists (pre ++ out). rewrite puts_app. split; [by apply Hpr|done]. }
  clear IH. cbn [args_ok] in Hok. destruct (Z.eqb_spec c 37) as [->|Hc]; cbn [negb] in *.
  2: { apply wp_bind, (wp_consputc _ _ t); [done|]. intros s1 O1 _. apply (Hgo [c]); [cbn; lia|done|done|intros; by constructor]. }
  destruct fmt as [|c fmt]; [apply wp_mret; exists []; split; [constructor|done]|]. cbn [length] in Hgo.
  destruct (Z.eqb_spec c 100) as [->|H100]; cbn [orb] in *.
  { destruct args as [|a args]; [done|]. apply wp_next_arg, wp_bind, (wp_printint_dec _ s t); [exact (swrap_range 32 a ltac:(lia))|done|]. intros l s1 Hl O1. apply (Hgo l); [lia|done|done|]. intros. by constructor. }
  destruct (Z.eqb_spec c 120) as [->|H120]; [|destruct (Z.eqb_spec c 112) as [->|H112]]; cbn [orb] in *.
  1,2: destruct args as [|a args]; [done|]; apply wp_next_arg, wp_bind, (wp_printint_hex _ s t); [done|]; intros l s1 Hl O1; rewrite u32_s32 in Hl; apply (Hgo l); [lia|done|done|]; intros; constructor; auto.
  destruct (Z.eqb_spec c 115) as [->|H115].
  { destruct args as [|a args]; [done|]. destruct Hok as [Ha Hok]. apply wp_next_arg. destruct (Z.eqb_spec a 0) as [->|Hne].
    - apply wp_bind, wp_mret, wp_bind, (wp_put_string _ s t); [by repeat constructor|done|]. intros s1 O1. apply (Hgo null_string); [lia|done|done|]. intros. by constructor.
    - destruct Ha as [?|(str & Hstr & Hb)]; [done|]. rewrite Hstr. apply wp_bind, wp_mret, wp_bind, (wp_put_string _ s t); [done|done|]. intros s1 O1. apply (Hgo str); [lia|done|done|]. intros. by apply pr_string. }
  destruct (Z.eqb_spec c 37) as [->|H37].
  { apply wp_bind, (wp_consputc _ _ t); [done|]. intros s1 O1 _. apply (Hgo [37]); [lia|done|done|intros; by constructor]. }
  apply wp_bind, (wp_consputc _ _ t); [done|]. intros s1 O1 _. apply wp_bind, (wp_consputc _ _ (put 37 t)); [done|]. intros s2 O2 _.
  apply (Hgo [37; c]); [lia|done|done|]. intros out Hp. constructor; [|done]. rewrite !elem_of_cons. intros [?|[?|[?|[?|[?|?%elem_of_nil]]]]]; done.
Qed.

Definition demo_fmt : list Z := [110; 61; 37; 100; 44; 37; 120; 37; 115; 37; 37; 37].
Example cprintf_shows : match cprintf (λ _, None) demo_fmt [2147483648; 48879; 0] demo_console with Ret _ s => serial s | _ => [] end =
  [110; 61; 45; 50; 49; 52; 55; 52; 56; 51; 54; 52; 56; 44; 98; 101; 101; 102] ++ null_string ++ [37].
Proof. vm_compute. reflexivity. Qed.
Lemma cprintf_prints_witness : wp (cprintf (λ _, None) demo_fmt [2147483648; 48879; 0]) (λ _ s', ∃ out,
  prints (λ _, None) demo_fmt [2147483648; 48879; 0] out ∧ serial s' = sent (puts out (first_tty demo_console))) demo_console.
Proof.
  eapply wp_mono; [apply (cprintf_prints _ demo_fmt [2147483648; 48879; 0] demo_console (first_tty demo_console)); [cbn; auto|apply boots_ok; by vm_compute]|].
  intros [] s' (out & Hp & [_ Hsent _ _]). by exists out.
Defined.
