(* ===== verification/DirOps.v ===== *)
(** * Directories as finite maps: dirlookup and dirlink of fs.c

    A directory's content is a list of entries, of which the live ones map names of up to 14 bytes to inode numbers.  On top of
    what readi and writei do to the content of a file, dirlookup is lookup and dirlink is insert. *)

From S2P Require Import Prelude Bio Blocks Log Txn Fs FileData FileOps.

(** ** Names *)
Definition byte (b : Z) : Prop := 0 <= b < 256.
(** A name as far as the kernel looks at it. *)
Definition key (name : cstring) : list Z := take (Z.to_nat DIRSIZ) (c_string name).
Lemma strncmp_zero n p q : Forall byte p → Forall byte q → strncmp n p q = 0 ↔ take n (c_string p) = take n (c_string q).
Proof.
  revert p q. induction n as [|n IH]; intros p q Hp Hq; [done|]. cbn [strncmp].
  assert (∀ l : list Z, Forall byte l → byte (default 0 (head l)) ∧ c_string l = if default 0 (head l) =? 0 then [] else default 0 (head l) :: c_string (tail l)) as Hc.
  { intros [|c l] Hl; [done|]. apply Forall_cons in Hl as [Hc _]. done. }
  destruct (Hc p Hp) as [Bp ->], (Hc q Hq) as [Bq ->]. set (c := default 0 (head p)) in *. set (d := default 0 (head q)) in *. unfold byte in *.
  assert (u8 c = c ∧ u8 d = d) as [-> ->] by (unfold u8; rewrite !Z.mod_small by lia; done).
  destruct (Z.eqb_spec c 0) as [Hc0|Hc0]; cbn [negb andb].
  - rewrite Hc0. destruct (Z.eqb_spec d 0) as [->|Hd]; [done|]. cbn. split; [lia|done].
  - destruct (Z.eqb_spec c d) as [<-|Hcd].
    + rewrite (proj2 (Z.eqb_neq c 0)) by done. cbn [take]. rewrite IH by by apply Forall_tail. split; [by intros ->|by intros [= ->]].
    + split; [lia|]. destruct (Z.eqb_spec d 0); cbn; congruence.
Qed.
Lemma namecmp_key name q : Forall byte name → Forall byte q → (namecmp name q =? 0) = bool_decide (key name = key q).
Proof. intros. apply eq_bool_prop_intro. rewrite Is_true_true, bool_decide_spec, Z.eqb_eq. by apply strncmp_zero. Qed.
Lemma strncpy_length n t : length (strncpy n t) = n.
Proof. revert t. induction n as [|n IH]; intros t; [done|]. cbn [strncpy]. destruct (_ =? 0); [by rewrite length_replicate|]. cbn. by rewrite IH. Qed.
Lemma strncpy_key n t : c_string (strncpy n t) = take n (c_string t).
Proof.
  revert t. induction n as [|n IH]; intros t; [done|]. cbn [strncpy]. destruct t as [|c t]; cbn [head default from_option id c_string tail].
  - change (0 =? 0) with true. cbn iota. done.
  - destruct (Z.eqb_spec c 0) as [->|Hc]; [done|]. cbn [take c_string]. rewrite (proj2 (Z.eqb_neq c 0) Hc). by rewrite IH.
Qed.
Lemma strncpy_bytes n t : Forall byte t → Forall byte (strncpy n t).
Proof.
  revert t. induction n as [|n IH]; intros t Ht; [constructor|]. cbn [strncpy]. destruct t as [|c t]; cbn [head default from_option id tail]; [by apply Forall_replicate|].
  apply Forall_cons in Ht as [Hc Ht]. destruct (c =? 0); [by apply Forall_replicate|]. constructor; [done|by apply IH].
Qed.

(** ** Entries *)
Definition dirent_at (c : list Z) (i : nat) : dirent := dirent_of (take 16 (drop (16 * i) c)).
Definition dirents (c : list Z) : list dirent := dirent_at c <$> seq 0 (length c / 16).
Definition entry_name (de : dirent) : list Z := key (de_name de).
(** Where a name occurs twice the first counts. *)
Definition dmap (es : list dirent) : gmap (list Z) Z :=
  foldr (λ de m, if de_inum de =? 0 then m else <[entry_name de := de_inum de]> m) ∅ es.
Definition live (k : list Z) (de : dirent) : Prop := de_inum de ≠ 0 ∧ entry_name de = k.
Lemma dmap_none es k : dmap es !! k = None ↔ ∀ de, de ∈ es → ¬ live k de.
Proof.
  induction es as [|de es IH]; cbn [dmap foldr]; [split; [by intros _ ? ?%elem_of_nil|done]|]. fold (dmap es). setoid_rewrite elem_of_cons. unfold live in *.
  destruct (Z.eqb_spec (de_inum de) 0) as [Hz|Hz].
  - rewrite IH. split; [intros Hn x [->|Hx] [H1 H2]; [done|by apply (Hn x)]|intros Hn x Hx; apply Hn; by right].
  - rewrite lookup_insert_None, IH. split; [intros [Hn Hk] x [->|Hx] [H1 H2]; [done|by apply (Hn x)]|]. intros Hn. split; [intros x Hx; apply Hn; by right|]. intros Hk. apply (Hn de); [by left|done].
Qed.
Lemma dmap_app es1 es2 k : dmap (es1 ++ es2) !! k = match dmap es1 !! k with Some i => Some i | None => dmap es2 !! k end.
Proof.
  induction es1 as [|de es1 IH]; [done|]. cbn [app dmap foldr]. fold (dmap es1). fold (dmap (es1 ++ es2)). destruct (de_inum de =? 0); [done|].
  destruct (decide (entry_name de = k)) as [->|Hne]; [by rewrite !lookup_insert_eq|]. by rewrite !lookup_insert_ne.
Qed.
(** A new entry, in a free place or at the end. *)
Lemma dmap_link es1 es2 old de k : dmap (es1 ++ old ++ es2) !! k = None → Forall (λ o, de_inum o = 0) old → live k de → dmap (es1 ++ de :: es2) = <[k := de_inum de]> (dmap (es1 ++ old ++ es2)).
Proof.
  intros Hk Hold [Hz <-]. assert (dmap old = ∅) as Ho.
  { induction Hold as [|o old Hoz _ IH]; [done|]. cbn [dmap foldr]. fold (dmap old). assert (dmap old = ∅) as ->; [|by rewrite Hoz].
    apply IH. rewrite !dmap_app in *. cbn [dmap foldr] in Hk. fold (dmap old) in Hk. by rewrite Hoz in Hk. }
  apply map_eq. intros k'. rewrite !dmap_app in *. rewrite Ho, lookup_empty in *. cbn [dmap foldr]. fold (dmap es2). rewrite (proj2 (Z.eqb_neq _ _)) by done.
  destruct (decide (k' = entry_name de)) as [->|Hne].
  - rewrite !lookup_insert_eq. by destruct (dmap es1 !! entry_name de).
  - rewrite !lookup_insert_ne by done. by rewrite dmap_app, dmap_app, Ho, lookup_empty.
Qed.
Lemma length_dirents c : length (dirents c) = (length c / 16)%nat.
Proof. unfold dirents. by rewrite length_fmap, length_seq. Qed.
Lemma dirents_lookup c i : (i < length c / 16)%nat → dirents c !! i = Some (dirent_at c i).
Proof. intros Hi. unfold dirents. rewrite list_lookup_fmap, lookup_seq_lt by done. done. Qed.
Lemma entry_offs_seq n : 0 <= n → entry_offs (DIRENT * n) = (λ k : nat, Z.of_nat k * DIRENT) <$> seq 0 (Z.to_nat n).
Proof.
  intros Hn. unfold entry_offs, DIRENT. replace ((16 * n + 16 - 1) / 16) with n by (Z.div_mod_to_equations; lia). unfold seqZ. rewrite <- list_fmap_compose.
  apply list_fmap_ext. intros i x _. cbn. lia.
Qed.

Lemma dmap_first es i de k : es !! i = Some de → live k de → (∀ j de', (j < i)%nat → es !! j = Some de' → ¬ live k de') → dmap es !! k = Some (de_inum de).
Proof.
  intros Hi [Hz <-] Hno. rewrite <- (take_drop_middle es i de Hi), dmap_app. rewrite (proj2 (dmap_none (take i es) _)).
  - cbn [dmap foldr]. rewrite (proj2 (Z.eqb_neq _ _)) by done. by rewrite lookup_insert_eq.
  - intros de' [j Hj]%list_elem_of_lookup. apply lookup_take_Some in Hj as [Hj Hlt]. by apply (Hno j).
Qed.
Lemma length_splice off src c : (off + length src <= length c)%nat ∨ off = length c → length (splice off src c) = Nat.max (length c) (off + length src).
Proof. intros Ho. unfold splice. rewrite !length_app, length_take, length_drop. lia. Qed.
Lemma dirents_splice k src c n : length c = (16 * n)%nat → (k <= n)%nat → length src = 16%nat →
  dirents (splice (16 * k) src c) = take k (dirents c) ++ dirent_of src :: drop (S k) (dirents c).
Proof.
  intros Hc Hk Hsrc. assert (length c / 16 = n)%nat as Hn by (rewrite Hc, Nat.mul_comm; by apply Nat.div_mul). assert (length (dirents c) = n) as Hd by by rewrite length_dirents.
  assert (length (splice (16 * k) src c) = 16 * Nat.max n (S k))%nat as Hl by (rewrite length_splice; lia).
  apply list_eq. intros j. destruct (decide (j < Nat.max n (S k))%nat) as [Hj|Hj].
  - rewrite dirents_lookup by (rewrite Hl, Nat.mul_comm, Nat.div_mul; lia). unfold dirent_at, splice. destruct (decide (j < k)%nat) as [Hjk|Hjk]; [|destruct (decide (j = k)) as [->|Hne]].
    + rewrite lookup_app_l by (rewrite length_take; lia). rewrite lookup_take_lt, dirents_lookup by lia. unfold dirent_at. do 2 f_equal.
      rewrite drop_app_le, take_app_le by (rewrite ?length_drop, ?length_take; lia). rewrite <- (take_drop (16 * k) c) at 2. rewrite drop_app_le, take_app_le by (rewrite ?length_drop, ?length_take; lia). done.
    + rewrite lookup_app_r by (rewrite length_take; lia). rewrite length_take, Hd, Nat.min_l, Nat.sub_diag by lia. cbn [lookup list_lookup]. do 2 f_equal.
      rewrite drop_app_length' by (rewrite length_take; lia). by rewrite take_app_length'.
    + rewrite lookup_app_r by (rewrite length_take; lia). rewrite length_take, Hd, Nat.min_l by lia. destruct (j - k)%nat as [|m] eqn:Em; [lia|]. change ((dirent_of src :: drop (S k) (dirents c)) !! S m) with (drop (S k) (dirents c) !! m). rewrite lookup_drop.
      replace (S k + m)%nat with j by lia. rewrite dirents_lookup by lia. unfold dirent_at. do 3 f_equal. rewrite app_assoc, drop_app_ge by (rewrite length_app, length_take; lia).
      rewrite drop_drop, length_app, length_take. f_equal. lia.
  - rewrite !lookup_ge_None_2; [done| |rewrite length_dirents, Hl, Nat.mul_comm, Nat.div_mul; lia]. rewrite length_app. cbn [length]. rewrite length_take, length_drop. lia.
Qed.
Definition new_dirent (name : cstring) (inum : Z) : dirent := mkDe (u16 inum) (strncpy (Z.to_nat DIRSIZ) name).
Lemma dirent_roundtrip de : 0 <= de_inum de < 2 ^ 16 → dirent_of (bytes_of_dirent de) = de.
Proof.
  intros Hi. unfold dirent_of, bytes_of_dirent. cbn [lookup list_lookup default from_option id drop]. destruct de as [i nm]. cbn in *. f_equal.
  unfold u8. rewrite Z.shiftr_div_pow2 by lia. change (2 ^ 8) with 256. rewrite (Z.mod_small (i / 256)) by (Z.div_mod_to_equations; lia). Z.div_mod_to_equations. lia.
Qed.

Section ops.
Context {T D : Type} `{TransactionLaws T} `{Devices D}.
Context (s0 : fs T D) (dp : nat) (Hdp : (dp < length (icache s0))%nat) (ds dev ib : Z).
Notation sbk := (sb s0).
Notation st := (st s0 dp).
Notation file_inv := (file_inv sbk ds dev ib).
Notation room := (room sbk dev ib).

(** A directory that nothing has damaged. *)
Record dir_ok (l : T) (r : inode) : Prop := {
  dk_inv : file_inv l r;
  dk_type : i_type r = T_DIR;
  dk_size : i_size r mod DIRENT = 0;
  dk_bytes : Forall byte (content l r);
}.
Definition same (l l' : T) : Prop := after l l' (tvw l) (tlogged l).
Lemma same_inv l l' r : same l l' → file_inv l r → file_inv l' r.
Proof. intros Ha [Hf Hfull Hsize Htype Hib Hsync]. pose proof (finv_after _ _ _ _ Hf Ha) as Hf'. destruct Ha as [[] _]. by split; rewrite ?tr_vw. Qed.
Lemma same_content l l' r : same l l' → content l' r = content l r.
Proof. intros [[] _]. unfold content. by rewrite tr_vw. Qed.
Lemma same_trans l1 l2 l3 : same l1 l2 → same l2 l3 → same l1 l3.
Proof. intros Hs1 Hs2. unfold same in *. pose proof Hs1 as [[] ?]. rewrite tr_vw, tr_logged in Hs2. by eapply after_trans. Qed.
Lemma same_dir l l' r : same l l' → dir_ok l r → dir_ok l' r.
Proof. intros Hs [D1 D2 D3 D4]. constructor; [by apply (same_inv l)|done|done|by rewrite (same_content l l')]. Qed.
Lemma same_room l l' n : same l l' → room l n → room l' n.
Proof. intros [[] _]. apply room_same; [done|]. rewrite tr_logged. apply union_subseteq_l. Qed.
Lemma dir_length l r : dir_ok l r → Z.of_nat (length (content l r)) = i_size r ∧ i_size r = DIRENT * Z.of_nat (length (dirents (content l r))).
Proof.
  intros [D1 _ D3 _]. pose proof (vi_size _ _ D1). assert (Z.of_nat (length (content l r)) = i_size r) as Hl by (unfold content; rewrite length_fbytes; lia).
  split; [done|]. rewrite length_dirents, Nat2Z.inj_div, Hl. unfold DIRENT in *. change (Z.of_nat 16) with 16. Z.div_mod_to_equations. lia.
Qed.
Lemma dir_small l r : dir_ok l r → 0 <= i_size r <= 71680.
Proof. intros Hd. apply (vi_size _ _ (dk_inv _ _ Hd)). Qed.
Lemma wp_read_dirent i msg r l (Q : dirent → fs T D → Prop) : dir_ok l r → room l 0 → (i < length (dirents (content l r)))%nat →
  (∀ l', same l l' → Q (dirent_at (content l r) i) (st r l')) → wp (read_dirent dp (Z.of_nat i * DIRENT) msg) Q (st r l).
Proof.
  intros Hd Hroom Hi HQ. destruct (dir_length l r Hd) as [Hl Hs]. pose proof (dir_small l r Hd). unfold read_dirent, DIRENT in *. apply wp_bind.
  apply (wp_readi s0 dp Hdp ds dev ib); [apply Hd|lia|lia|lia|done|]. intros l' Hl'. cbv zeta. set (bs := take _ _).
  assert (bs = take 16 (drop (16 * i) (content l r))) as Hbs by (unfold bs; do 2 f_equal; lia). assert (length bs = 16%nat) as Hbl by (rewrite Hbs, length_take, length_drop; lia).
  rewrite Hbl. change (Z.of_nat 16 =? 16) with true. cbn [negb when]. apply wp_bind, wp_mret, wp_mret. rewrite Hbs. by apply HQ.
Qed.
(** The loops over the entries: up to the first one that [p] selects. *)
Lemma wp_scan {R} (p : dirent → bool) (f : Z → dirent → M (fs T D) (option R)) msg r l (Q : option R → fs T D → Prop) : dir_ok l r → room l 0 →
  (∀ off de s, p de = false → f off de s = Ret None s) →
  (∀ l', same l l' → (∀ de, de ∈ dirents (content l r) → p de = false) → Q None (st r l')) →
  (∀ i de l', same l l' → dirents (content l r) !! i = Some de → p de = true → (∀ j de', (j < i)%nat → dirents (content l r) !! j = Some de' → p de' = false) →
    wp (f (Z.of_nat i * DIRENT) de) (λ o s, ∃ v, o = Some v ∧ Q (Some v) s) (st r l')) →
  wp (for_find (entry_offs (i_size r)) (λ off, de ← read_dirent dp off msg; f off de)) Q (st r l).
Proof.
  intros Hd Hroom Hf HN HS. destruct (dir_length l r Hd) as [Hl Hs]. rewrite Hs, entry_offs_seq, Nat2Z.id by lia. set (es := dirents (content l r)) in *.
  assert (∀ m i l1, (i + m = length es)%nat → same l l1 → (∀ j de, (j < i)%nat → es !! j = Some de → p de = false) →
    wp (for_find ((λ k : nat, Z.of_nat k * DIRENT) <$> seq i m) (λ off, de ← read_dirent dp off msg; f off de)) Q (st r l1)) as Hgen.
  2: { apply Hgen; [done|apply after_refl, (rd_inv _ (fi_ready _ _ (vi_inv _ _ (dk_inv _ _ Hd))))|lia]. }
  intros m. induction m as [|m IH]; intros i l1 Him Hs1 Hno; cbn [seq fmap list_fmap for_find].
  - apply wp_mret, HN; [done|]. intros de [j Hj]%list_elem_of_lookup. apply (Hno j); [|done]. pose proof (lookup_lt_Some _ _ _ Hj). lia.
  - apply wp_bind, wp_bind. apply wp_read_dirent; [by apply (same_dir l)|by apply (same_room l)|rewrite (same_content l l1) by done; fold es; lia|].
    intros l2 Hs2. rewrite (same_content l l1) by done. assert (es !! i = Some (dirent_at (content l r) i)) as Hi by (apply dirents_lookup; rewrite <- length_dirents; fold es; lia).
    set (de := dirent_at _ i) in *. assert (same l l2) as Hs12 by by apply (same_trans l l1).
    destruct (p de) eqn:Hp.
    + eapply wp_mono; [by apply (HS i de l2)|]. intros o s (v & -> & Hq). by apply wp_mret.
    + apply (wp_intro _ _ _ None (st r l2)); [by apply Hf|]. apply IH; [lia|done|]. intros j de' Hj Hde'. destruct (decide (j = i)) as [->|]; [congruence|]. apply (Hno j); [lia|done].
Qed.
Lemma entry_bytes l r i : dir_ok l r → Forall byte (de_name (dirent_at (content l r) i)).
Proof. intros Hd. unfold dirent_at, dirent_of. cbn [de_name]. apply Forall_drop, Forall_take, Forall_drop. apply (dk_bytes _ _ Hd). Qed.
Lemma wp_dirlookup name r l (Q : option (nat * Z) → fs T D → Prop) : dir_ok l r → room l 0 → Forall byte name → let es := dirents (content l r) in
  match dmap es !! key name with
  | None => ∀ l', same l l' → Q None (st r l')
  | Some inum => ∀ i de l', same l l' → es !! i = Some de → live (key name) de → de_inum de = inum →
      wp (iget (i_dev r) inum) (λ ip s, Q (Some (ip, Z.of_nat i * DIRENT)) s) (st r l')
  end → wp (dirlookup dp name) Q (st r l).
Proof.
  intros Hd Hroom Hname es HQ. unfold dirlookup. apply wp_bind, wp_inode_at; [done|]. rewrite (dk_type _ _ Hd). cbn [Z.eqb negb when]. apply wp_bind, wp_mret.
  set (p := λ de, negb (de_inum de =? 0) && (namecmp name (de_name de) =? 0)). assert (∀ i de, es !! i = Some de → p de = true ↔ live (key name) de) as Hp.
  { intros i de Hi. unfold p, live, entry_name. pose proof (lookup_lt_Some _ _ _ Hi) as Hlt. unfold es in Hi, Hlt. rewrite length_dirents in Hlt. rewrite dirents_lookup in Hi by done. injection Hi as <-.
    rewrite namecmp_key by (done || by apply entry_bytes). rewrite andb_true_iff, negb_true_iff, Z.eqb_neq, bool_decide_eq_true. split; intros []; done. }
  apply (wp_scan p); [done|done| | |].
  - intros off de s Hpd. unfold p in Hpd. destruct (de_inum de =? 0); [done|]. cbn in Hpd. by rewrite Hpd.
  - intros l' Hs Hno. rewrite (proj2 (dmap_none es _)) in HQ; [by apply HQ|]. intros de Hde Hlv. pose proof Hde as [i Hi]%list_elem_of_lookup. apply (Hp i de Hi) in Hlv. by rewrite (Hno de Hde) in Hlv.
  - intros i de l' Hs Hi Hpd Hno. apply (Hp i de Hi) in Hpd as Hlv. rewrite (dmap_first es i de _ Hi Hlv) in HQ.
    2: { intros j de' Hj Hde' Hlv'. apply (Hp j de' Hde') in Hlv'. by rewrite (Hno j de' Hj Hde') in Hlv'. }
    unfold p in Hpd. apply andb_true_iff in Hpd as [->%negb_true_iff ->]. apply wp_bind. eapply wp_mono; [by apply (HQ i de l')|]. intros ip s Hq. apply wp_mret. by eexists.
Qed.
Lemma written_dir k name inum r l r' l' : dir_ok l r → Forall byte name → 0 < inum < 2 ^ 16 → (k <= length (dirents (content l r)))%nat →
  written sbk ds dev ib (Z.of_nat k * DIRENT) (bytes_of_dirent (new_dirent name inum)) l r l' r' →
  dir_ok l' r' ∧ dirents (content l' r') = take k (dirents (content l r)) ++ new_dirent name inum :: drop (S k) (dirents (content l r)).
Proof.
  intros Hd Hname Hinum Hk [W1 W2 W3 _ _ _ _ _ _]. destruct (dir_length l r Hd) as [Hl Hs]. unfold DIRENT in *. replace (Z.to_nat (Z.of_nat k * 16)) with (16 * k)%nat in W3 by lia.
  assert (u16 inum = inum) as Hu by (unfold u16; apply Z.mod_small; lia).
  assert (length (bytes_of_dirent (new_dirent name inum)) = 16%nat) as Hlen by (unfold bytes_of_dirent, new_dirent; cbn [length de_name]; by rewrite strncpy_length).
  assert (length (content l' r') = Nat.max (length (content l r)) (16 * k + 16)) as Hl' by (rewrite W3, length_splice, Hlen; lia).
  assert (Z.of_nat (length (content l' r')) = i_size r') as Hsz by (pose proof (vi_size _ _ W1); unfold content; rewrite length_fbytes; lia). split.
  - constructor; [done|rewrite W2; apply (dk_type _ _ Hd)|unfold DIRENT; Z.div_mod_to_equations; lia|]. rewrite W3. unfold splice. pose proof (dk_bytes _ _ Hd).
    apply Forall_app. split; [by apply Forall_take|]. apply Forall_app. split; [|by apply Forall_drop].
    unfold bytes_of_dirent, new_dirent. cbn [de_inum de_name]. constructor; [by apply Z.mod_pos_bound|]. constructor; [by apply Z.mod_pos_bound|by apply strncpy_bytes].
  - rewrite W3, (dirents_splice k _ _ (length (dirents (content l r)))) by (done || lia). rewrite dirent_roundtrip; [done|]. cbn. rewrite Hu. lia.
Qed.
Lemma rounds_entry k : 0 <= k → rounds (k * DIRENT) 16 = 1.
Proof. intros Hk. unfold rounds, DIRENT, BSIZE. change (16 <=? 0) with false. cbn iota. Z.div_mod_to_equations. lia. Qed.
(** A new name: the entry goes to the first free place, or to the end. *)
Definition linked (name : cstring) (inum : Z) (l : T) (r : inode) (l' : T) (r' : inode) : Prop :=
  dir_ok l' r' ∧ dmap (dirents (content l' r')) = <[key name := inum]> (dmap (dirents (content l r))) ∧
  others_kept sbk ds dev l r l' ∧ r' = set_i_addrs (i_addrs r') (set_i_size (i_size r') r).
Lemma wp_dirlink name inum r l (Q : Z → fs T D → Prop) : dir_ok l r → room l 3 → 2 <= nf sbk dev l → Forall byte name → 0 < inum < 2 ^ 16 → i_size r + DIRENT <= MAXFILE * BSIZE →
  dmap (dirents (content l r)) !! key name = None → (∀ l' r', linked name inum l r l' r' → Q 0 (st r' l')) → wp (dirlink dp name inum) Q (st r l).
Proof.
  intros Hd Hroom Hnf Hname Hinum Hmax Hnone HQ. unfold dirlink. apply wp_bind, wp_dirlookup; [done|by apply (room_weaken l 3)|done|]. cbv zeta. rewrite Hnone. intros l1 Hs1. cbn iota beta.
  apply wp_bind, wp_inode_at; [done|]. set (es := dirents (content l r)) in *. pose proof (same_dir l l1 r Hs1 Hd) as Hd1. pose proof (same_room l l1 3 Hs1 Hroom) as Hroom1. destruct (dir_length l r Hd) as [Hl Hsz]. fold es in Hsz.
  assert (∀ k l2 old, same l l2 → (k <= length es)%nat → drop k es = old ++ drop (S k) es → Forall (λ o, de_inum o = 0) old →
    wp (n ← writei dp (bytes_of_dirent (new_dirent name inum)) (Z.of_nat k * DIRENT) DIRENT; when (negb (n =? DIRENT)) (panic "dirlink") ;; mret 0) Q (st r l2)) as Hwrite.
  { intros k l2 old Hs2 Hk Hold Hfree. pose proof (same_dir l l2 r Hs2 Hd) as Hd2. pose proof (same_content l l2 r Hs2) as Hc2.
    assert (Z.of_nat (length (bytes_of_dirent (new_dirent name inum))) = 16) as Hlen by (unfold bytes_of_dirent, new_dirent; cbn [length de_name]; by rewrite strncpy_length).
    pose proof (wp_writei s0 dp Hdp ds dev ib (Z.of_nat k * DIRENT) (bytes_of_dirent (new_dirent name inum)) r l2) as Hwr. cbv zeta in Hwr. rewrite Hlen, rounds_entry in Hwr by lia. unfold DIRENT at 2. apply wp_bind, Hwr; clear Hwr.
    - apply Hd2.
    - unfold DIRENT in *. lia.
    - unfold DIRENT in *. lia.
    - by apply (same_room l).
    - unfold nf in *. destruct Hs2 as [[] _]. by rewrite tr_vw.
    - intros r' l3 Hw. apply wp_bind. cbn [Z.eqb negb when]. change (16 =? DIRENT) with true. cbn [negb when]. apply wp_mret, wp_mret, HQ.
      pose proof (written_dir k name inum r l2 r' l3 Hd2 Hname Hinum) as Hwd. rewrite Hc2 in Hwd. destruct (Hwd Hk Hw) as [Hd3 Hes]. fold es in Hes. destruct Hw as [_ W2 _ W4 _ _ _ _ _].
      split; [done|]. split; [|split; [|done]].
      + rewrite Hes, (dmap_link (take k es) (drop (S k) es) old (new_dirent name inum) (key name)); [|by rewrite <- Hold, take_drop|done|].
        * rewrite <- Hold, take_drop. cbn [new_dirent de_inum]. unfold u16. by rewrite Z.mod_small by lia.
        * unfold live, entry_name, new_dirent, key. cbn [de_inum de_name]. unfold u16. rewrite Z.mod_small by lia. split; [lia|]. rewrite strncpy_key. by rewrite take_take, Nat.min_id.
      + destruct Hs2 as [[] _]. unfold others_kept in *. by rewrite tr_vw in W4. }
  change (mkDe (u16 inum) (strncpy (Z.to_nat DIRSIZ) name)) with (new_dirent name inum). apply wp_bind, (wp_scan (λ de, de_inum de =? 0)); [done|by apply (room_weaken l1 3)| | |].
  - intros off de s Hz. cbn in Hz. by rewrite Hz.
  - intros l2 Hs2 _. assert (length (entry_offs (i_size r)) = length es) as -> by (by rewrite Hsz, entry_offs_seq, length_fmap, length_seq, Nat2Z.id by lia).
    apply (Hwrite (length es) l2 []); [|done|by rewrite !drop_ge by lia|done]. by apply (same_trans l l1).
  - intros i de l2 Hs2 Hi Hz _. cbn beta in Hz |- *. rewrite Hz. apply wp_mret. eexists. split; [done|]. rewrite (same_content l l1 r Hs1) in Hi. fold es in Hi. pose proof (lookup_lt_Some _ _ _ Hi).
    apply (Hwrite i l2 [de]); [|lia|by rewrite (drop_S _ de)|repeat constructor; lia]. by apply (same_trans l l1).
Qed.
End ops.

(** ** iget *)
Definition slot_for (dev inum : Z) (r : inode) : bool := (0 <? i_ref r) && (i_dev r =? dev) && (i_inum r =? inum).
Lemma iget_scan_spec dev inum l i e : match iget_scan dev inum l i e with
  | inl j => ∃ r, (i <= j)%nat ∧ l !! (j - i)%nat = Some r ∧ slot_for dev inum r = true
  | inr o => Forall (λ r, slot_for dev inum r = false) l ∧ (o = e ∨ ∃ j r, o = Some j ∧ (i <= j)%nat ∧ l !! (j - i)%nat = Some r ∧ i_ref r = 0) ∧ (o = None → e = None ∧ Forall (λ r, i_ref r ≠ 0) l)
  end.
Proof.
  revert i e. induction l as [|r l IH]; intros i e; cbn [iget_scan].
  { split; [constructor|]. split; [by left|]. intros ->. split; [done|constructor]. }
  fold (slot_for dev inum r). destruct (slot_for dev inum r) eqn:Er.
  { exists r. split; [lia|]. by rewrite Nat.sub_diag. }
  set (e' := match e with Some _ => _ | None => _ end). specialize (IH (i + 1)%nat e'). destruct (iget_scan dev inum l (i + 1) e') as [j|o].
  - destruct IH as (r' & Hj & Hl & Hr'). exists r'. split; [lia|]. by replace (j - i)%nat with (S (j - (i + 1))) by lia.
  - destruct IH as (I1 & I2 & I3). split; [by constructor|]. split.
    + destruct I2 as [->|(j & r' & -> & Hj & Hl & Hr')].
      * unfold e'. destruct e as [e|]; [by left|]. destruct (Z.eqb_spec (i_ref r) 0); [|by left]. right. exists i, r. rewrite Nat.sub_diag. done.
      * right. exists j, r'. split; [done|]. split; [lia|]. by replace (j - i)%nat with (S (j - (i + 1))) by lia.
    + intros Ho. destruct (I3 Ho) as [He' Hl]. unfold e' in He'. destruct e; [done|]. destruct (Z.eqb_spec (i_ref r) 0); [done|]. split; [done|]. by constructor.
Qed.
(** While the cache has the inode or an unused slot, iget returns a slot that holds the inode, with one more reference. *)
Definition cache_room (dev inum : Z) (l : list inode) : Prop := Exists (λ r, i_ref r = 0 ∨ slot_for dev inum r = true) l.
Lemma wp_iget {T D} `{Transactions T} `{Devices D} dev inum (s : fs T D) (Q : nat → fs T D → Prop) : cache_room dev inum (icache s) →
  (∀ ip r r', icache s !! ip = Some r → i_dev r' = dev → i_inum r' = inum → i_ref r' = i_ref r + 1 → (i_ref r = 0 ∨ r' = set_i_ref (i_ref r + 1) r) → Q ip (set_icache (<[ip := r']> (icache s)) s)) →
  wp (iget dev inum) Q s.
Proof.
  intros Hroom HQ. unfold iget. apply wp_bind, wp_gets. pose proof (iget_scan_spec dev inum (icache s) 0 None) as Hsc.
  assert (∀ ip r f, icache s !! ip = Some r → Q ip (set_icache (<[ip := f r]> (icache s)) s) → wp (iset ip f ;; mret ip) Q s) as Hset.
  { intros ip r f Hr Hq. apply wp_bind. rewrite <- (st_eta s ip r Hr). apply (wp_iset s ip (lookup_lt_Some _ _ _ Hr)), wp_mret. unfold st. destruct s. exact Hq. }
  destruct (iget_scan dev inum (icache s) 0 None) as [ip|o].
  - destruct Hsc as (r & _ & Hr & Hs). rewrite Nat.sub_0_r in Hr. unfold slot_for in Hs. apply andb_true_iff in Hs as [[_ Hs1]%andb_true_iff Hs2].
    apply (Hset ip r); [done|]. apply (HQ ip r); cbn; [done|lia|lia|done|by right].
  - destruct Hsc as (Hno & Ho & Hnone). destruct o as [ip|].
    + destruct Ho as [?|(j & r & [= ->] & _ & Hr & Hz)]; [done|]. rewrite Nat.sub_0_r in Hr. apply (Hset j r); [done|]. apply (HQ j r); cbn; [done|done|done|lia|by left].
    + destruct (Hnone eq_refl) as [_ Hz]. exfalso. apply Exists_exists in Hroom as (r & Hin & Hr). rewrite Forall_forall in Hno, Hz. specialize (Hno r Hin). specialize (Hz r Hin). destruct Hr; congruence.
Qed.
Lemma iget_room_st {T D} (s : fs T D) dp r l dev inum : icache s !! dp = Some r → cache_room dev inum (icache s) → cache_room dev inum (icache (st s dp r l)).
Proof. intros Hr Hroom. cbn. by rewrite list_insert_id. Qed.

(** C19: a directory is a finite map.  On a directory that nothing has damaged, with room in the log and the inode cache: dirlookup of a name, of which 14 bytes count, that the map does not have
    finds nothing; of one that it has, it returns a reference to the inode of that number and where the entry is.  dirlink of a new name inserts it, in the
    first free place or at the end, and nothing else changes, in this directory or any other file; of a name that is there it only gives the
    reference back and returns -1. *)
Theorem directory_refines_map {T D} `{TransactionLaws T} `{Devices D} (s : fs T D) dp r ds dev ib name inum :
  icache s !! dp = Some r → dir_ok s ds dev ib (lg s) r → Forall byte name → 0 < inum < 2 ^ 16 →
  room (sb s) dev ib (lg s) 3 → 2 <= nf (sb s) dev (lg s) → i_size r + DIRENT <= MAXFILE * BSIZE →
  let m := dmap (dirents (content (lg s) r)) in
  match m !! key name with
  | None =>
      (∃ l', dirlookup dp name s = Ret None (st s dp r l') ∧ same (lg s) l') ∧
      ∃ r' l', dirlink dp name inum s = Ret 0 (st s dp r' l') ∧ linked s ds dev ib name inum (lg s) r l' r'
  | Some i => cache_room (i_dev r) i (icache s) → ∃ ip off r' l', let s' := set_icache (<[ip := r']> (icache s)) (set_lg l' s) in
      dirlookup dp name s = Ret (Some (ip, off)) s' ∧ dirlink dp name inum s = (iput ip ;; mret (-1)) s' ∧
      i_dev r' = i_dev r ∧ i_inum r' = i ∧ same (lg s) l' ∧ 0 <= off < i_size r ∧ off mod DIRENT = 0 ∧
      live (key name) (dirent_of (take 16 (drop (Z.to_nat off) (content (lg s) r))))
  end.
Proof.
  intros Hr Hd Hname Hinum Hroom Hnf Hmax m. pose proof (lookup_lt_Some _ _ _ Hr) as Hdp. pose proof (st_eta s dp r Hr) as Hst.
  pose proof (wp_dirlookup s dp Hdp ds dev ib name r (lg s)) as Hlk. rewrite Hst in Hlk. cbv zeta in Hlk. fold m in Hlk. destruct (m !! key name) as [i|] eqn:Hm.
  - intros Hcache. assert (wp (dirlookup dp name) (λ o s', ∃ ip off r' l', o = Some (ip, off) ∧ s' = set_icache (<[ip := r']> (icache s)) (set_lg l' s) ∧
      i_dev r' = i_dev r ∧ i_inum r' = i ∧ same (lg s) l' ∧ 0 <= off < i_size r ∧ off mod DIRENT = 0 ∧ live (key name) (dirent_of (take 16 (drop (Z.to_nat off) (content (lg s) r))))) s) as Hw.
    { apply Hlk; [done|by apply (room_weaken (lg s) 3)|done|]. intros k de l' Hs Hk Hlive Hi. apply wp_iget; [by apply iget_room_st|]. intros ip r0 r' _ Hdev Hin _ _.
      exists ip, (Z.of_nat k * DIRENT), r', l'. split; [done|]. split; [clear -Hr; unfold st; destruct s; cbn in *; by rewrite (list_insert_id _ _ _ Hr)|]. split; [done|]. split; [done|]. split; [done|].
      destruct (dir_length s dp Hdp ds dev ib (lg s) r Hd) as [Hl Hsz]. pose proof (lookup_lt_Some _ _ _ Hk) as Hlt. split; [unfold DIRENT in *; lia|]. split; [by apply Z.mod_mul|].
      rewrite length_dirents in Hlt. rewrite dirents_lookup in Hk by done. injection Hk as <-. unfold DIRENT. replace (Z.to_nat (Z.of_nat k * 16)) with (16 * k)%nat by lia. done. }
    apply wp_returns in Hw as (o & s' & Hm' & ip & off & r' & l' & -> & -> & Hrest). exists ip, off, r', l'. split; [done|]. split; [|done]. unfold dirlink. by rewrite (bind_Ret _ _ _ _ _ Hm').
  - split.
    + assert (wp (dirlookup dp name) (λ o s', o = None ∧ ∃ l', s' = st s dp r l' ∧ same (lg s) l') s) as Hw.
      { apply Hlk; [done|by apply (room_weaken (lg s) 3)|done|]. intros l' Hs. split; [done|]. by exists l'. }
      apply wp_returns in Hw as (o & s' & Hm' & -> & l' & -> & Hs). by exists l'.
    + pose proof (wp_dirlink s dp Hdp ds dev ib name inum r (lg s) (λ v s', v = 0 ∧ ∃ r' l', s' = st s dp r' l' ∧ linked s ds dev ib name inum (lg s) r l' r')) as Hw. rewrite Hst in Hw.
      specialize (Hw Hd Hroom Hnf Hname Hinum Hmax Hm). apply wp_returns in Hw as (v & s' & Hm' & -> & r' & l' & -> & Hl); [by eauto|]. intros l' r' Hl. split; [done|]. by eauto.
Qed.

(** An empty directory gets its first entry. *)
#[local] Existing Instance no_devices.
Definition new_dir : inode := new_inode T_DIR.
Lemma directory_refines_map_witness : ∃ (s s1 s2 : fs (log bst) ()) r, dirlookup 0 [97; 98] s = Ret None s1 ∧ dirlink 0 [97; 98] 5 s = Ret 0 s2 ∧
  icache s2 !! 0%nat = Some r ∧ dmap (dirents (content (lg s2) r)) = {[ [97; 98] := 5 ]}.
Proof.
  destruct (new_inode_inv T_DIR (or_intror eq_refl)) as (c & Hi & Hr & Hn). fold new_dir in Hi.
  assert (content (begun c) new_dir = []) as Hc by (unfold content; done).
  assert (dir_ok (in_call new_dir c) 59 1 32 (begun c) new_dir) as Hd by (constructor; [exact Hi|done|done|rewrite Hc; constructor]).
  pose proof (directory_refines_map (in_call new_dir c) 0 new_dir 59 1 32 [97; 98] 5 eq_refl Hd ltac:(by repeat constructor) ltac:(done) (room_weaken (begun c) 23 3 ltac:(done) Hr)) as Hw.
  change (lg (in_call new_dir c)) with (begun c) in Hw. rewrite Hc in Hw. change (dmap (dirents []) !! _) with (@None Z) in Hw. cbn iota zeta in Hw.
  destruct Hw as [(l1 & H1 & _) (r' & l' & H2 & _ & Hmap & _)]; [change (sb (in_call new_dir c)) with mkfs_sb; rewrite Hn; done|done|].
  exists (in_call new_dir c), (st (in_call new_dir c) 0 new_dir l1), (st (in_call new_dir c) 0 r' l'), r'. split; [exact H1|]. split; [exact H2|]. split; [done|].
  change (lg (st (in_call new_dir c) 0 r' l')) with l'. rewrite Hmap. change (lg (in_call new_dir c)) with (begun c). by rewrite Hc.
Defined.
