(* ===== verification/Sh.v ===== *)
(** * sh.c of the xv6 user programs: the shell's parser

    The line is a buffer of bytes that ends in NUL, a pointer into it is its offset, and the nodes of a parsed command
    are objects of a heap that malloc fills in order; [room] is the number of nodes malloc still has, after which the code
    writes through a null pointer.  What the parser accepts is given by a grammar on tokens; [Sh] shows that the two agree, on
    every line. *)

From S2P Require Import Prelude CText.

Lemma c_str_nul s junk : Forall (λ c, c ≠ 0) s → c_str (s ++ 0 :: junk) = s.
Proof. induction 1 as [|c s Hc Hs IH]; [done|]. cbn [app c_str]. by rewrite (proj2 (Z.eqb_neq _ _) Hc), IH. Qed.

(** ** Data *)
Definition MAXARGS : nat := 10.
Definition O_RDONLY : Z := 0.
Definition O_WRONLY : Z := 1.
Definition O_CREATE : Z := 512.
Notation ptr := (option nat).
Notation null := (@None nat).
(** struct execcmd, redircmd, pipecmd, listcmd, backcmd *)
Inductive node :=
| NExec (argv eargv : list ptr)
| NRedir (cmd file efile : ptr) (mode fd : Z)
| NPipe (left right : ptr)
| NList (left right : ptr)
| NBack (cmd : ptr).
Record parser := Parser { buf : list Z; ps : nat; heap : list node; room : nat }.
Notation P := (M parser).

Definition whitespace : list Z := bytes " " ++ [9; 13; 10; 11].
Definition symbols : list Z := bytes "<|>&;()".
(** strchr of ulib.c, on a set without NUL *)
Definition strchr (t : list Z) (c : Z) : bool := existsb (Z.eqb c) t.

Definition set_ps (s : nat) (st : parser) : parser := Parser (buf st) s (heap st) (room st).
Definition set_heap (h : list node) (st : parser) : parser := Parser (buf st) (ps st) h (room st).
Definition set_buf (b : list Z) (st : parser) : parser := Parser b (ps st) (heap st) (room st).
(** reading and writing a character *)
Definition rd (s : nat) : P Z := λ st,
  match buf st !! s with Some c => Ret c st | None => Fault "a read outside the line" end.
Definition wr (s : ptr) (c : Z) : P () := λ st,
  match s with
  | Some i => if decide (i < length (buf st))%nat then Ret () (set_buf (<[i := c]> (buf st)) st) else Fault "a write outside the line"
  | None => Fault "a write through a null pointer"
  end.

(** ** Constructors *)
(** malloc, memset and the assignments to the fields *)
Definition alloc (n : node) : P ptr := λ st,
  match room st with
  | O => Fault "memset of a null pointer: malloc returned 0"
  | S r => Ret (Some (length (heap st))) (Parser (buf st) (ps st) (heap st ++ [n]) r)
  end.
Definition execcmd : P ptr := alloc (NExec (replicate MAXARGS null) (replicate MAXARGS null)).
Definition redircmd (subcmd file efile : ptr) (mode fd : Z) : P ptr := alloc (NRedir subcmd file efile mode fd).
Definition pipecmd (left right : ptr) : P ptr := alloc (NPipe left right).
Definition listcmd (left right : ptr) : P ptr := alloc (NList left right).
Definition backcmd (subcmd : ptr) : P ptr := alloc (NBack subcmd).
(** [cmd->argv[i] = q; cmd->eargv[i] = eq] *)
Definition set_arg (cmd : ptr) (i : nat) (q eq : ptr) : P () := λ st,
  match cmd with
  | Some c =>
      match heap st !! c with
      | Some (NExec argv eargv) =>
          if decide (i < MAXARGS)%nat then Ret () (set_heap (<[c := NExec (<[i := q]> argv) (<[i := eq]> eargv)]> (heap st)) st)
          else Fault "argv out of bounds"
      | _ => Fault "not an execcmd"
      end
  | None => Fault "a write through a null pointer"
  end.

(** ** Tokens *)
(** [while(s < es && strchr(whitespace, *s)) s++], with [n = es - s] *)
Fixpoint skip_ws (n s : nat) : P nat :=
  match n with
  | O => mret s
  | S n => c ← rd s; if strchr whitespace c then skip_ws n (S s) else mret s
  end.
(** [while(s < es && !strchr(whitespace, *s) && !strchr(symbols, *s)) s++], with [n = es - s] *)
Fixpoint skip_word (n s : nat) : P nat :=
  match n with
  | O => mret s
  | S n => c ← rd s; if negb (strchr whitespace c) && negb (strchr symbols c) then skip_word n (S s) else mret s
  end.
(** the token's kind, its beginning and its end *)
Definition gettoken (es : nat) : P (Z * nat * nat) :=
  s ← gets ps;
  q ← skip_ws (es - s) s;
  c ← rd q;
  '(ret, eq) ←
    (if c =? 0 then mret (c, q)
     else if (c =? 124) || (c =? 40) || (c =? 41) || (c =? 59) || (c =? 38) || (c =? 60) then mret (c, S q)
     else if c =? 62 then d ← rd (S q); mret (if d =? 62 then (43, S (S q)) else (c, S q))
     else e ← skip_word (es - q) q; mret (97, e));
  s ← skip_ws (es - eq) eq;
  modify (set_ps s);;
  mret (ret, q, eq).
Definition peek (es : nat) (toks : list Z) : P bool :=
  s ← gets ps;
  s ← skip_ws (es - s) s;
  modify (set_ps s);;
  c ← rd s;
  mret (negb (c =? 0) && strchr toks c).

(** ** The parser *)
Fixpoint parseredirs (fuel : nat) (cmd : ptr) (es : nat) : P ptr :=
  match fuel with
  | O => diverge
  | S fuel =>
      b ← peek es (bytes "<>");
      if (b : bool) then
        '(tok, _, _) ← gettoken es;
        '(a, q, eq) ← gettoken es;
        if negb (a =? 97) then panic "missing file for redirection"
        else
          cmd ← (if tok =? 60 then redircmd cmd (Some q) (Some eq) O_RDONLY 0
                 else if tok =? 62 then redircmd cmd (Some q) (Some eq) (Z.lor O_WRONLY O_CREATE) 1
                 else if tok =? 43 then redircmd cmd (Some q) (Some eq) (Z.lor O_WRONLY O_CREATE) 1
                 else mret cmd);
          parseredirs fuel cmd es
      else mret cmd
  end.
(** the loop of parseexec; [cmd] is the node that gets the arguments, [ret] what wraps it *)
Fixpoint exec_loop (fuel : nat) (cmd ret : ptr) (argc es : nat) : P (ptr * nat) :=
  match fuel with
  | O => diverge
  | S fuel =>
      b ← peek es (bytes "|)&;");
      if (b : bool) then mret (ret, argc)
      else
        '(tok, q, eq) ← gettoken es;
        if tok =? 0 then mret (ret, argc)
        else if negb (tok =? 97) then panic "syntax"
        else
          set_arg cmd argc (Some q) (Some eq);;
          let argc := S argc in
          if decide (MAXARGS <= argc)%nat then panic "too many args"
          else
            ret ← parseredirs (S es) ret es;
            exec_loop fuel cmd ret argc es
  end.
(** the loop of parseline *)
Fixpoint back_loop (fuel : nat) (cmd : ptr) (es : nat) : P ptr :=
  match fuel with
  | O => diverge
  | S fuel =>
      b ← peek es (bytes "&");
      if (b : bool) then gettoken es;; cmd ← backcmd cmd; back_loop fuel cmd es
      else mret cmd
  end.
Fixpoint parseline (fuel es : nat) : P ptr :=
  match fuel with
  | O => diverge
  | S fuel =>
      cmd ← parsepipe fuel es;
      cmd ← back_loop (S es) cmd es;
      b ← peek es (bytes ";");
      if (b : bool) then gettoken es;; right ← parseline fuel es; listcmd cmd right
      else mret cmd
  end
with parsepipe (fuel es : nat) : P ptr :=
  match fuel with
  | O => diverge
  | S fuel =>
      cmd ← parseexec fuel es;
      b ← peek es (bytes "|");
      if (b : bool) then gettoken es;; right ← parsepipe fuel es; pipecmd cmd right
      else mret cmd
  end
with parseexec (fuel es : nat) : P ptr :=
  match fuel with
  | O => diverge
  | S fuel =>
      b ← peek es (bytes "(");
      if (b : bool) then parseblock fuel es
      else
        cmd ← execcmd;
        ret ← parseredirs (S es) cmd es;
        '(ret, argc) ← exec_loop (S es) cmd ret 0 es;
        set_arg cmd argc null null;;
        mret ret
  end
with parseblock (fuel es : nat) : P ptr :=
  match fuel with
  | O => diverge
  | S fuel =>
      b ← peek es (bytes "(");
      if negb b then panic "parseblock"
      else
        gettoken es;;
        cmd ← parseline fuel es;
        b ← peek es (bytes ")");
        if negb b then panic "syntax - missing )"
        else gettoken es;; parseredirs (S es) cmd es
  end.

(** [for(i=0; ecmd->argv[i]; i++) *ecmd->eargv[i] = 0] *)
Fixpoint nul_args (argv eargv : list ptr) : P () :=
  match argv, eargv with
  | None :: _, _ => mret ()
  | Some _ :: argv, e :: eargv => wr e 0;; nul_args argv eargv
  | _, _ => fault "argv out of bounds"
  end.
Fixpoint nulterminate (fuel : nat) (cmd : ptr) : P () :=
  match fuel with
  | O => diverge
  | S fuel =>
      match cmd with
      | None => mret ()
      | Some c =>
          h ← gets heap;
          match h !! c with
          | Some (NExec argv eargv) => nul_args argv eargv
          | Some (NRedir sub _ efile _ _) => nulterminate fuel sub;; wr efile 0
          | Some (NPipe l r) | Some (NList l r) => nulterminate fuel l;; nulterminate fuel r
          | Some (NBack sub) => nulterminate fuel sub
          | None => fault "a wild pointer"
          end
      end
  end.
(** What parsecmd prints when it has not come to the end of the line: the rest of it, and what panic is called with. *)
Definition leftovers (rest : list Z) : string :=
  "leftovers: " +:+ String.string_of_list_ascii (map (Ascii.ascii_of_nat ∘ Z.to_nat) (rest ++ [10])) +:+ "syntax".
(** The recursion is at most four calls deep for every character, the tree as deep as it has nodes. *)
Definition parsecmd : P ptr :=
  b ← gets buf;
  let es := length (c_str b) in
  cmd ← parseline (4 * es + 4) es;
  _ ← peek es [];
  s ← gets ps;
  if negb (bool_decide (s = es)) then panic (leftovers (c_str (drop s b)))
  else
    h ← gets heap;
    nulterminate (S (length h)) cmd;;
    mret cmd.

(** ** What a line means: tokens and the grammar of commands *)
Inductive sym := Lt | Gt | GtGt | Bar | Amp | Semi | Lpar | Rpar.
#[export] Instance sym_eq_dec : EqDecision sym.
Proof. solve_decision. Defined.
Inductive token := Word (w : list Z) | Sym (c : sym).
(** the character that a token begins with, and what gettoken returns for it *)
Definition first_char (c : sym) : Z :=
  match c with Lt => 60 | Gt | GtGt => 62 | Bar => 124 | Amp => 38 | Semi => 59 | Lpar => 40 | Rpar => 41 end.
Definition code (c : sym) : Z := match c with GtGt => 43 | _ => first_char c end.
Definition sym_of (c : Z) : option sym :=
  if c =? 60 then Some Lt else if c =? 62 then Some Gt else if c =? 124 then Some Bar else if c =? 38 then Some Amp
  else if c =? 59 then Some Semi else if c =? 40 then Some Lpar else if c =? 41 then Some Rpar else None.
Definition wordc (c : Z) : bool := negb (strchr whitespace c) && negb (strchr symbols c).
(** a character in front of a text, whose tokens are [ts], lengthens its first word *)
Definition lex_word (c : Z) (s : list Z) (ts : list token) : list token :=
  match s, ts with
  | d :: _, Word w :: ts' => if wordc d then Word (c :: w) :: ts' else Word [c] :: ts
  | _, _ => Word [c] :: ts
  end.
Fixpoint lex (s : list Z) : list token :=
  match s with
  | [] => []
  | c :: s1 =>
      if strchr whitespace c then lex s1
      else match sym_of c with
      | Some Gt => match s1 with d :: s2 => if d =? 62 then Sym GtGt :: lex s2 else Sym Gt :: lex s1 | [] => [Sym Gt] end
      | Some o => Sym o :: lex s1
      | None => lex_word c s1 (lex s1)
      end
  end.

Inductive cmd :=
| Exec (argv : list (list Z))
| Redir (c : cmd) (file : list Z) (mode fd : Z)
| Pipe (left right : cmd)
| Seq (left right : cmd)
| Back (c : cmd).
(** A redirection, its mode and descriptor. *)
Definition redir_of (o : sym) : option (Z * Z) :=
  match o with Lt => Some (O_RDONLY, 0) | Gt | GtGt => Some (Z.lor O_WRONLY O_CREATE, 1) | _ => None end.
Definition wrap (c : cmd) (r : Z * Z * list Z) : cmd := Redir c r.2 r.1.1 r.1.2.
Definition backs (n : nat) (c : cmd) : cmd := Nat.iter n Back c.
(** Words and redirections in any order. *)
Inductive simple : list token → list (list Z) → list (Z * Z * list Z) → Prop :=
| simple_nil : simple [] [] []
| simple_word w ts a r : simple ts a r → simple (Word w :: ts) (w :: a) r
| simple_redir o m f w ts a r : redir_of o = Some (m, f) → simple ts a r → simple (Sym o :: Word w :: ts) a ((m, f, w) :: r).
Inductive line : list token → cmd → Prop :=
| line_pipe ts t n : pipe ts t → line (ts ++ replicate n (Sym Amp)) (backs n t)
| line_seq ts t n ts' t' : pipe ts t → line ts' t' → line (ts ++ replicate n (Sym Amp) ++ Sym Semi :: ts') (Seq (backs n t) t')
with pipe : list token → cmd → Prop :=
| pipe_one ts t : exec ts t → pipe ts t
| pipe_more ts t ts' t' : exec ts t → pipe ts' t' → pipe (ts ++ Sym Bar :: ts') (Pipe t t')
with exec : list token → cmd → Prop :=
| exec_simple ts a r : simple ts a r → (length a < MAXARGS)%nat → exec ts (foldl wrap (Exec a) r)
| exec_block ts t ts' r : line ts t → simple ts' [] r → exec (Sym Lpar :: ts ++ Sym Rpar :: ts') (foldl wrap t r).
Scheme line_ind' := Induction for line Sort Prop with pipe_ind' := Induction for pipe Sort Prop with exec_ind' := Induction for exec Sort Prop.
Combined Scheme grammar_ind from line_ind', pipe_ind', exec_ind'.

(** ** The grammar is decided from the left with one token of lookahead *)
Fixpoint ref_redirs (T : list token) : option (list (Z * Z * list Z) * list token) :=
  match T with
  | Sym o :: T1 =>
      match redir_of o with
      | Some (m, f) =>
          match T1 with Word w :: T2 => '(r, rest) ← ref_redirs T2; Some ((m, f, w) :: r, rest) | _ => None end
      | None => Some ([], T)
      end
  | _ => Some ([], T)
  end.
(** after [k] words *)
Fixpoint ref_simple (k : nat) (T : list token) : option (list (list Z) * list (Z * Z * list Z) * list token) :=
  match T with
  | [] => Some ([], [], [])
  | Word w :: T1 => if decide (MAXARGS <= S k)%nat then None else '(a, r, rest) ← ref_simple (S k) T1; Some (w :: a, r, rest)
  | Sym o :: T1 =>
      match redir_of o with
      | Some (m, f) =>
          match T1 with Word w :: T2 => '(a, r, rest) ← ref_simple k T2; Some (a, (m, f, w) :: r, rest) | _ => None end
      | None => match o with Lpar => None | _ => Some ([], [], T) end
      end
  end.
Fixpoint ref_backs (T : list token) : nat * list token :=
  match T with Sym Amp :: T => let '(n, rest) := ref_backs T in (S n, rest) | _ => (O, T) end.
Fixpoint ref_line (n : nat) (T : list token) : option (cmd * list token) :=
  match n with
  | O => None
  | S n =>
      '(t, T1) ← ref_pipe n T;
      match (ref_backs T1).2 with
      | Sym Semi :: T3 => '(t', T4) ← ref_line n T3; Some (Seq (backs (ref_backs T1).1 t) t', T4)
      | T2 => Some (backs (ref_backs T1).1 t, T2)
      end
  end
with ref_pipe (n : nat) (T : list token) : option (cmd * list token) :=
  match n with
  | O => None
  | S n =>
      '(t, T1) ← ref_exec n T;
      match T1 with
      | Sym Bar :: T2 => '(t', T3) ← ref_pipe n T2; Some (Pipe t t', T3)
      | _ => Some (t, T1)
      end
  end
with ref_exec (n : nat) (T : list token) : option (cmd * list token) :=
  match n with
  | O => None
  | S n =>
      match T with
      | Sym Lpar :: T1 => ref_block n T1
      | _ => '(a, r, rest) ← ref_simple 0 T; Some (foldl wrap (Exec a) r, rest)
      end
  end
with ref_block (n : nat) (T : list token) : option (cmd * list token) :=
  match n with
  | O => None
  | S n =>
      '(t, T1) ← ref_line n T;
      match T1 with
      | Sym Rpar :: T2 => '(r, rest) ← ref_redirs T2; Some (foldl wrap t r, rest)
      | _ => None
      end
  end.

Lemma ref_redirs_sound T r rest : ref_redirs T = Some (r, rest) → ∃ ts, T = ts ++ rest ∧ simple ts [] r.
Proof.
  revert r rest. induction T as [T IH] using (well_founded_ind (well_founded_ltof _ (@length token))). unfold ltof in IH. intros r rest.
  destruct T as [|[w|o] T1]; cbn [ref_redirs]; [intros [= <- <-]; exists []; split; [done|constructor]..|].
  destruct (redir_of o) as [[m f]|] eqn:Ho; [|intros [= <- <-]; exists []; split; [done|constructor]].
  destruct T1 as [|[w|?] T2]; [done| |done]. intros ([r' rest'] & Hr & [= <- <-])%bind_Some.
  apply IH in Hr as (ts & -> & Hs); [|cbn; lia]. exists (Sym o :: Word w :: ts). split; [done|]. by constructor.
Qed.
Lemma ref_simple_sound T k a r rest : (k < MAXARGS)%nat → ref_simple k T = Some (a, r, rest) → ∃ ts, T = ts ++ rest ∧ simple ts a r ∧ (k + length a < MAXARGS)%nat.
Proof.
  revert k a r rest. induction T as [T IH] using (well_founded_ind (well_founded_ltof _ (@length token))). unfold ltof in IH. intros k a r rest Hk.
  destruct T as [|[w|o] T1]; cbn [ref_simple].
  - intros [= <- <- <-]. exists []. split; [done|]. split; [constructor|cbn; lia].
  - destruct (decide _); [done|]. intros ([[a' r'] rest'] & Hr & [= <- <- <-])%bind_Some. apply IH in Hr as (ts & -> & Hs & Hl); [|cbn; lia..].
    exists (Word w :: ts). split; [done|]. split; [by constructor|cbn; lia].
  - destruct (redir_of o) as [[m f]|] eqn:Ho.
    + destruct T1 as [|[w|?] T2]; [done| |done]. intros ([[a' r'] rest'] & Hr & [= <- <- <-])%bind_Some.
      apply IH in Hr as (ts & -> & Hs & Hl); [|cbn; lia..]. exists (Sym o :: Word w :: ts). split; [done|]. split; [by constructor|done].
    + destruct o; try done; intros [= <- <- <-]; exists []; (split; [done|]; split; [constructor|cbn; lia]).
Qed.
Lemma ref_backs_sound T n rest : ref_backs T = (n, rest) → T = replicate n (Sym Amp) ++ rest.
Proof.
  revert n. induction T as [|[w|o] T IH]; intros n; cbn [ref_backs]; [by intros [= <- <-]..|].
  destruct o; try by intros [= <- <-]. destruct (ref_backs T) as [k r] eqn:E. intros [= <- <-]. cbn. by rewrite <- (IH k).
Qed.
Lemma ref_sound n :
  (∀ T t rest, ref_line n T = Some (t, rest) → ∃ ts, T = ts ++ rest ∧ line ts t) ∧
  (∀ T t rest, ref_pipe n T = Some (t, rest) → ∃ ts, T = ts ++ rest ∧ pipe ts t) ∧
  (∀ T t rest, ref_exec n T = Some (t, rest) → ∃ ts, T = ts ++ rest ∧ exec ts t) ∧
  (∀ T t rest, ref_block n T = Some (t, rest) → ∃ ts, Sym Lpar :: T = ts ++ rest ∧ exec ts t).
Proof.
  induction n as [|n (IHl & IHp & IHe & IHb)]; [done|]. split_and!; intros T t rest.
  - cbn [ref_line]. intros ([t1 T1] & (ts & -> & Hp)%IHp & H)%bind_Some. destruct (ref_backs T1) as [k T2] eqn:E. apply ref_backs_sound in E as ->. cbn [fst snd] in H.
    assert (Some (backs k t1, T2) = Some (t, rest) → ∃ ts0, ts ++ replicate k (Sym Amp) ++ T2 = ts0 ++ rest ∧ line ts0 t) as Hend.
    { intros [= <- <-]. exists (ts ++ replicate k (Sym Amp)). rewrite app_assoc. split; [done|]. by constructor. }
    destruct T2 as [|[w|[]] T3]; try exact (Hend H). apply bind_Some in H as ([t' T4] & (ts' & -> & Hl)%IHl & [= <- <-]).
    exists (ts ++ replicate k (Sym Amp) ++ Sym Semi :: ts'). split; [by rewrite <- !app_assoc|]. by constructor.
  - cbn [ref_pipe]. intros ([t1 T1] & (ts & -> & He)%IHe & H)%bind_Some.
    assert (Some (t1, T1) = Some (t, rest) → ∃ ts0, ts ++ T1 = ts0 ++ rest ∧ pipe ts0 t) as Hend by (intros [= <- <-]; exists ts; split; [done|by constructor]).
    destruct T1 as [|[w|[]] T2]; try exact (Hend H). apply bind_Some in H as ([t' T3] & (ts' & -> & Hl)%IHp & [= <- <-]).
    exists (ts ++ Sym Bar :: ts'). split; [by rewrite <- !app_assoc|]. by constructor.
  - cbn [ref_exec]. intros H.
    assert (('(a, r, rest) ← ref_simple 0 T; Some (foldl wrap (Exec a) r, rest)) = Some (t, rest) → ∃ ts0, T = ts0 ++ rest ∧ exec ts0 t) as Hs.
    { intros ([[a r] rest'] & Hs & [= <- <-])%bind_Some. apply ref_simple_sound in Hs as (ts & -> & Hs & Ha); [|unfold MAXARGS; lia]. exists ts. split; [done|]. by constructor. }
    destruct T as [|[w|[]] T1]; try exact (Hs H). by apply IHb.
  - cbn [ref_block]. intros ([t1 T1] & (ts & -> & Hl)%IHl & H)%bind_Some. destruct T1 as [|[w|[]] T2]; try done.
    apply bind_Some in H as ([r rest'] & (ts' & -> & Hs)%ref_redirs_sound & [= <- <-]).
    exists (Sym Lpar :: ts ++ Sym Rpar :: ts'). split; [cbn; by rewrite <- !app_assoc|]. by constructor.
Qed.

(** The text goes on with one of [l], or is at its end. *)
Definition stops (l : list sym) (T : list token) : Prop := match T with [] => True | Sym o :: _ => o ∈ l | Word _ :: _ => False end.
Lemma stops_mono l l' T : stops l T → l ⊆ l' → stops l' T.
Proof. destruct T as [|[w|o] T]; cbn; [done..|]. intros H Hl. by apply Hl. Qed.
Lemma simple_ref ts a r : simple ts a r → ∀ k rest, (k + length a < MAXARGS)%nat → stops [Bar; Amp; Semi; Rpar] rest → ref_simple k (ts ++ rest) = Some (a, r, rest).
Proof.
  induction 1 as [|w ts a r H IH|o m f w ts a r Ho H IH]; intros k rest Hk Hst; cbn [app ref_simple].
  - destruct rest as [|[w|o] rest]; cbn in Hst; [done..|]. rewrite !elem_of_cons in Hst. by destruct Hst as [->|[->|[->|[->|?%elem_of_nil]]]].
  - cbn [length] in Hk. rewrite decide_False by lia. by rewrite IH by (done || lia).
  - rewrite Ho. by rewrite IH.
Qed.
Lemma simple_redirs ts r : simple ts [] r → ∀ rest, stops [Bar; Amp; Semi; Rpar] rest → ref_redirs (ts ++ rest) = Some (r, rest).
Proof.
  remember [] as a eqn:Ha. induction 1 as [|w ts a r H IH|o m f w ts a r Ho H IH]; intros rest Hst; cbn [app ref_redirs].
  - destruct rest as [|[w|o] rest]; cbn in Hst; [done..|]. rewrite !elem_of_cons in Hst. by destruct Hst as [->|[->|[->|[->|?%elem_of_nil]]]].
  - done.
  - rewrite Ho. by rewrite IH.
Qed.
Lemma ref_backs_replicate n T : (∀ T', T ≠ Sym Amp :: T') → ref_backs (replicate n (Sym Amp) ++ T) = (n, T).
Proof.
  intros HT. induction n as [|n IH]; cbn [replicate app ref_backs].
  - destruct T as [|[w|[]] T']; try done. by destruct (HT T').
  - by rewrite IH.
Qed.
Lemma stops_neq l o T : stops l T → o ∉ l → ∀ T', T ≠ Sym o :: T'.
Proof. intros HT Ho T' ->. by apply Ho. Qed.
Lemma ref_complete :
  (∀ ts t, line ts t → ∀ n rest, (4 * length ts + 4 <= n)%nat → stops [Rpar] rest → ref_line n (ts ++ rest) = Some (t, rest)) ∧
  (∀ ts t, pipe ts t → ∀ n rest, (4 * length ts + 3 <= n)%nat → stops [Amp; Semi; Rpar] rest → ref_pipe n (ts ++ rest) = Some (t, rest)) ∧
  (∀ ts t, exec ts t → ∀ n rest, (4 * length ts + 2 <= n)%nat → stops [Bar; Amp; Semi; Rpar] rest → ref_exec n (ts ++ rest) = Some (t, rest)).
Proof.
  apply grammar_ind.
  - intros ts t k Hp IH n rest Hn Hst. rewrite length_app, length_replicate in Hn. destruct n as [|n]; [lia|]. cbn [ref_line].
    rewrite <- app_assoc, (IH n _) by (lia || (destruct k; [eapply stops_mono; [exact Hst|set_solver]|cbn; set_solver])).
    cbn [mbind option_bind]. rewrite ref_backs_replicate by (eapply stops_neq; [exact Hst|set_solver]). cbn [fst snd].
    by destruct rest as [|[w|[]] rest]; cbn in Hst; try set_solver.
  - intros ts t k ts' t' Hp IH Hl IH' n rest Hn Hst. rewrite !length_app, length_replicate in Hn. cbn [length] in Hn. destruct n as [|n]; [lia|]. cbn [ref_line].
    rewrite <- !app_assoc. cbn [app]. rewrite (IH n _) by (lia || destruct k; cbn; set_solver).
    cbn [mbind option_bind]. rewrite ref_backs_replicate by done. cbn [fst snd]. rewrite IH' by (lia || done). done.
  - intros ts t He IH n rest Hn Hst. destruct n as [|n]; [lia|]. cbn [ref_pipe].
    rewrite (IH n _) by (lia || (eapply stops_mono; [exact Hst|set_solver])). cbn [mbind option_bind].
    by destruct rest as [|[w|[]] rest]; cbn in Hst; try set_solver.
  - intros ts t ts' t' He IH Hp IH' n rest Hn Hst. rewrite length_app in Hn. cbn [length] in Hn. destruct n as [|n]; [lia|]. cbn [ref_pipe].
    rewrite <- !app_assoc. cbn [app]. rewrite (IH n _) by (lia || (cbn; set_solver)). cbn [mbind option_bind]. by rewrite IH' by (lia || done).
  - intros ts a r Hs Ha n rest Hn Hst. destruct n as [|n]; [lia|]. cbn [ref_exec].
    assert (ref_simple 0 (ts ++ rest) = Some (a, r, rest)) as E by by apply simple_ref.
    destruct (ts ++ rest) as [|[w|[]] T]; try (by rewrite E). done.
  - intros ts t ts' r Hl IH Hs n rest Hn Hst. rewrite length_cons, length_app in Hn. cbn [length] in Hn. destruct n as [|[|n]]; [lia..|].
    cbn [app ref_exec ref_block]. rewrite <- app_assoc. cbn [app]. rewrite (IH n _) by (lia || (cbn; set_solver)). cbn [mbind option_bind].
    by rewrite (simple_redirs ts' r Hs).
Qed.
(** The whole line. *)
Definition ref_parse (n : nat) (T : list token) : option cmd :=
  match ref_line n T with Some (t, []) => Some t | _ => None end.
Lemma ref_parse_line n T t : (4 * length T + 4 <= n)%nat → ref_parse n T = Some t ↔ line T t.
Proof.
  intros Hn. unfold ref_parse. split.
  - destruct (ref_line n T) as [[t' rest]|] eqn:E; [|done]. destruct rest; [|done]. intros [= ->].
    apply ref_sound in E as (ts & -> & Hl). by rewrite app_nil_r.
  - intros Hl. pose proof (proj1 ref_complete T t Hl n [] Hn I) as E. rewrite app_nil_r in E. by rewrite E.
Qed.

(** ** The tokens of a line *)
Lemma lex_cons c s : lex (c :: s) =
  if strchr whitespace c then lex s
  else match sym_of c with
  | Some Gt => match s with d :: s2 => if d =? 62 then Sym GtGt :: lex s2 else Sym Gt :: lex s | [] => [Sym Gt] end
  | Some o => Sym o :: lex s
  | None => lex_word c s (lex s)
  end.
Proof. reflexivity. Qed.
Lemma lex_ws c s : strchr whitespace c = true → lex (c :: s) = lex s.
Proof. intros H. rewrite lex_cons. by rewrite H. Qed.
Lemma wordc_sym c : wordc c = true → strchr whitespace c = false ∧ sym_of c = None.
Proof.
  unfold wordc. intros [H1%negb_true_iff H2%negb_true_iff]%andb_true_iff. split; [done|].
  unfold strchr, symbols in H2. cbn in H2. unfold sym_of. repeat (zcase; subst; [done|]). done.
Qed.
Lemma not_wordc_sym c : strchr whitespace c = false → wordc c = false → ∃ o, sym_of c = Some o ∧ first_char o = c ∧ o ≠ GtGt.
Proof.
  intros H1. unfold wordc. rewrite H1. cbn [negb andb]. intros H2%negb_false_iff. unfold strchr, symbols in H2. cbn in H2.
  unfold sym_of. rewrite !orb_true_iff, !Z.eqb_eq in H2. repeat (zcase; subst; [by eexists|]). by intuition.
Qed.
Definition ends_word (s : list Z) : Prop := match s with c :: _ => wordc c = false | [] => True end.
Lemma lex_one c s : wordc c = true → ends_word s → lex (c :: s) = Word [c] :: lex s.
Proof.
  intros Hc Hs. destruct (wordc_sym c Hc) as [H1 H2]. rewrite lex_cons. rewrite H1, H2.
  destruct s as [|d s]; [done|]. cbn in Hs. unfold lex_word. rewrite Hs. generalize (lex (d :: s)). by intros [|[]].
Qed.
Lemma lex_word_app w s : w ≠ [] → Forall (λ c, wordc c = true) w → ends_word s → lex (w ++ s) = Word w :: lex s.
Proof.
  intros Hne Hw Hs. induction Hw as [|c w Hc Hw IH]; [done|]. destruct w as [|d w]; [by apply lex_one|].
  specialize (IH ltac:(done)). destruct (wordc_sym c Hc) as [H1 H2]. change ((c :: d :: w) ++ s) with (c :: (d :: w) ++ s). remember ((d :: w) ++ s) as r eqn:Hr. rewrite lex_cons.
  rewrite H1, H2, IH. destruct r as [|e r]; [done|]. injection Hr as -> ->. cbn [lex_word]. by rewrite (Forall_inv Hw).
Qed.
Lemma lex_sym c s o : sym_of c = Some o → (o = Gt → ∀ s', s ≠ 62 :: s') → lex (c :: s) = Sym o :: lex s.
Proof.
  intros Ho Hgt. rewrite lex_cons. assert (strchr whitespace c = false) as ->.
  { unfold sym_of in Ho. repeat (revert Ho; zcase; subst; intros Ho; [done|]). done. }
  rewrite Ho. destruct o; try done. destruct s as [|d s]; [done|]. zcase; [|done]. subst. by destruct (Hgt eq_refl s).
Qed.
Lemma lex_length s : (length (lex s) <= length s)%nat.
Proof.
  induction s as [s IH] using (well_founded_ind (well_founded_ltof _ (@length Z))). unfold ltof in IH.
  destruct s as [|c s]; [done|]. pose proof (IH s ltac:(cbn; lia)) as Hs. cbn [lex length].
  destruct (strchr whitespace c); [lia|]. assert (length (lex_word c s (lex s)) <= S (length s))%nat as Hw.
  { unfold lex_word. destruct s as [|d s]; [cbn in *; lia|]. destruct (lex (d :: s)) as [|[w|o] ts]; [cbn in *; lia| |cbn in *; lia]. destruct (wordc d); cbn in *; lia. }
  destruct (sym_of c) as [o|]; [|exact Hw]. destruct o; try (cbn; lia). destruct s as [|d s]; [done|]. destruct (d =? 62); [|cbn in *; lia].
  pose proof (IH s ltac:(cbn; lia)). cbn in *. lia.
Qed.
(** A newline at the end is no token. *)
Lemma lex_newline s : lex (s ++ [10]) = lex s.
Proof.
  induction s as [s IH] using (well_founded_ind (well_founded_ltof _ (@length Z))). unfold ltof in IH.
  destruct s as [|c s]; [done|]. cbn [app]. rewrite !lex_cons, IH by (cbn; lia). destruct (strchr whitespace c); [done|].
  assert (lex_word c (s ++ [10]) (lex s) = lex_word c s (lex s)) as Hw by by destruct s.
  destruct (sym_of c) as [[]|]; try done. destruct s as [|d s]; [done|]. cbn [app]. destruct (d =? 62); [|done]. rewrite IH; [done|cbn; lia].
Qed.
Lemma lex_nil s : lex s = [] → match s with c :: _ => strchr whitespace c = false | [] => True end → s = [].
Proof.
  destruct s as [|c s]; [done|]. intros Hl Hc. rewrite lex_cons in Hl. rewrite Hc in Hl. destruct (sym_of c) as [o|].
  - destruct o; try done. destruct s as [|d s]; [done|]. by destruct (d =? 62).
  - exfalso. unfold lex_word in Hl. destruct s as [|d s]; [done|]. destruct (lex (d :: s)) as [|[w|] ?]; try done. by destruct (wordc d).
Qed.

(** ** How a command lies in the heap *)
(** [W q e w]: the pointers [q] and [e] stand for the word [w].  Every node is younger than the nodes it points to. *)
Section repr.
Variable W : nat → nat → list Z → Prop.
Definition args (argv eargv : list ptr) (a : list (list Z)) : Prop :=
  length argv = MAXARGS ∧ length eargv = MAXARGS ∧
  ∀ k w, a !! k = Some w → ∃ q e, argv !! k = Some (Some q) ∧ eargv !! k = Some (Some e) ∧ W q e w.
Inductive repr (h : list node) : nat → cmd → Prop :=
| repr_exec i argv eargv a : h !! i = Some (NExec argv eargv) → args argv eargv a → argv !! length a = Some null → repr h i (Exec a)
| repr_redir i j q e m f c w : h !! i = Some (NRedir (Some j) (Some q) (Some e) m f) → (j < i)%nat → W q e w → repr h j c → repr h i (Redir c w m f)
| repr_pipe i j k l r : h !! i = Some (NPipe (Some j) (Some k)) → (j < i)%nat → (k < i)%nat → repr h j l → repr h k r → repr h i (Pipe l r)
| repr_seq i j k l r : h !! i = Some (NList (Some j) (Some k)) → (j < i)%nat → (k < i)%nat → repr h j l → repr h k r → repr h i (Seq l r)
| repr_back i j c : h !! i = Some (NBack (Some j)) → (j < i)%nat → repr h j c → repr h i (Back c).
(** From [i] the redirections [r], the last one first, lead to [e]. *)
Inductive chain (h : list node) : nat → nat → list (Z * Z * list Z) → Prop :=
| chain_nil e : chain h e e []
| chain_snoc i j e r q e' m f w :
    h !! i = Some (NRedir (Some j) (Some q) (Some e') m f) → (j < i)%nat → W q e' w → chain h j e r → chain h i e (r ++ [(m, f, w)]).

Definition same_below (n : nat) (h h' : list node) : Prop := ∀ j, (j < n)%nat → h' !! j = h !! j.
Lemma same_below_trans n m h1 h2 h3 : same_below n h1 h2 → same_below m h2 h3 → (n <= m)%nat → same_below n h1 h3.
Proof. intros H1 H2 Hnm j Hj. rewrite H2 by lia. by apply H1. Qed.
Lemma same_below_app h l : same_below (length h) h (h ++ l).
Proof. intros j Hj. by apply lookup_app_l. Qed.
Lemma repr_mono h h' i t : repr h i t → same_below (S i) h h' → repr h' i t.
Proof.
  induction 1 as [i argv eargv a Hi Ha Hn|i j q e m f c w Hi Hj Hw Hc IH|i j k l r Hi Hj Hk Hl IHl Hr IHr|i j k l r Hi Hj Hk Hl IHl Hr IHr|i j c Hi Hj Hc IH];
    intros Hs; rewrite <- (Hs i) in Hi by lia.
  - by eapply repr_exec.
  - eapply repr_redir; [done..|]. apply IH. intros x Hx. apply Hs. lia.
  - eapply repr_pipe; [done..|apply IHl|apply IHr]; intros x Hx; apply Hs; lia.
  - eapply repr_seq; [done..|apply IHl|apply IHr]; intros x Hx; apply Hs; lia.
  - eapply repr_back; [done..|]. apply IH. intros x Hx. apply Hs. lia.
Qed.
Lemma chain_mono h h' i e r : chain h i e r → same_below (S i) h h' → chain h' i e r.
Proof.
  induction 1 as [e|i j e r q e' m f w Hi Hj Hw Hc IH]; intros Hs; [constructor|]. rewrite <- (Hs i) in Hi by lia.
  eapply chain_snoc; [done..|]. apply IH. intros x Hx. apply Hs. lia.
Qed.
Lemma chain_update h i e r n argv eargv : chain h i e r → h !! e = Some (NExec argv eargv) → chain (<[e := n]> h) i e r.
Proof.
  induction 1 as [e|i j e r q e' m f w Hi Hj Hw Hc IH]; intros He; [constructor|].
  eapply chain_snoc; [|done..|by apply IH]. rewrite list_lookup_insert_ne; [done|]. intros ->. congruence.
Qed.
Lemma chain_app h i j e r1 r2 : chain h i j r2 → chain h j e r1 → chain h i e (r1 ++ r2).
Proof.
  induction 1 as [e'|i k e' r q e'' m f w Hi Hk Hw Hc IH]; intros H1; [by rewrite app_nil_r|].
  rewrite app_assoc. eapply chain_snoc; [done..|]. by apply IH.
Qed.
Lemma repr_chain h i e c r : chain h i e r → repr h e c → repr h i (foldl wrap c r).
Proof.
  induction 1 as [e|i j e r q e' m f w Hi Hj Hw Hc IH]; intros He; [done|]. rewrite foldl_app. eapply repr_redir; [done..|by apply IH].
Qed.
Lemma chain_le h i e r : chain h i e r → (e <= i)%nat.
Proof. induction 1; lia. Qed.
Lemma repr_lt h i t : repr h i t → (i < length h)%nat.
Proof. intros []; by eapply lookup_lt_Some. Qed.
End repr.
Lemma repr_words (W W' : nat → nat → list Z → Prop) h i t : (∀ q e w, W q e w → W' q e w) → repr W h i t → repr W' h i t.
Proof.
  intros HW. induction 1 as [i argv eargv a Hi (H1 & H2 & Ha) Hn| | | |]; [|by econstructor; eauto..].
  eapply repr_exec; [done| |done]. split; [done|]. split; [done|]. intros k w Hk. destruct (Ha k w Hk) as (q & e & ? & ? & ?). exists q, e. auto.
Qed.

(** ** Running code against what the grammar says *)
(** [m] panics if [r] is nothing, otherwise it returns. *)
Definition outcome_of {A X} (m : P A) (st : parser) (r : option X) (Q : X → A → parser → Prop) : Prop :=
  match r with Some x => wp m (Q x) st | None => ∃ msg, m st = Panic msg end.
Lemma outcome_bind {A B X Y} (m : P A) (f : A → P B) st (r : option X) (k : X → option Y) (Q1 : X → A → parser → Prop) Q :
  outcome_of m st r Q1 → (∀ x a st', r = Some x → Q1 x a st' → outcome_of (f a) st' (k x) Q) → outcome_of (m ≫= f) st (r ≫= k) Q.
Proof.
  intros Hm Hk. destruct r as [x|]; cbn in *.
  - apply wp_returns in Hm as (a & st' & Hm & HQ). specialize (Hk x a st' eq_refl HQ). unfold outcome_of in *. destruct (k x); [by apply wp_bind; eapply wp_intro|].
    destruct Hk as [msg Hk]. exists msg. by rewrite (bind_Ret _ _ _ _ _ Hm).
  - destruct Hm as [msg Hm]. exists msg. unfold mbind, M_bind. by rewrite Hm.
Qed.
Lemma outcome_step {A B X} (m : P A) (f : A → P B) st a st' (r : option X) Q : m st = Ret a st' → outcome_of (f a) st' r Q → outcome_of (m ≫= f) st r Q.
Proof. intros Hm. unfold outcome_of. destruct r; [intros H; apply wp_bind; by eapply wp_intro|]. by rewrite (bind_Ret _ _ _ _ _ Hm). Qed.
Lemma outcome_gets {A B X} (g : parser → A) (f : A → P B) st (r : option X) Q : outcome_of (f (g st)) st r Q → outcome_of (gets g ≫= f) st r Q.
Proof. done. Qed.
Lemma outcome_mono {A X} (m : P A) st (r : option X) (Q Q' : X → A → parser → Prop) :
  outcome_of m st r Q → (∀ x a st', Q x a st' → Q' x a st') → outcome_of m st r Q'.
Proof. unfold outcome_of. destruct r; [|done]. intros H HQ. eapply wp_mono; [exact H|]. intros. by apply HQ. Qed.
(** A computed result is part of what the grammar says. *)
Lemma outcome_map {A X Y} (m : P A) st (r : option X) (k : X → option Y) (Q : X → A → parser → Prop) Q' :
  outcome_of m st r Q → (∀ x, ∃ y, k x = Some y ∧ ∀ a st', Q x a st' → Q' y a st') → outcome_of m st (r ≫= k) Q'.
Proof.
  intros Hm Hk. destruct r as [x|]; [|exact Hm]. destruct (Hk x) as (y & Hy & HQ). cbn [mbind option_bind]. rewrite Hy.
  cbn in *. eapply wp_mono; [exact Hm|]. intros. by apply HQ.
Qed.
Lemma alloc_spec n st : (0 < room st)%nat → alloc n st = Ret (Some (length (heap st))) (Parser (buf st) (ps st) (heap st ++ [n]) (pred (room st))).
Proof. intros H. unfold alloc. by destruct (room st); [lia|]. Qed.

Section line.
Variables (s0 junk : list Z).
Hypothesis Hnz : Forall (λ c, c ≠ 0) s0.
Notation es := (length s0).
Definition on_line (st : parser) : Prop := buf st = s0 ++ 0 :: junk.
(** What is between [q] and [e] is a whole word. *)
Definition word_at (q e : nat) (w : list Z) : Prop :=
  w ≠ [] ∧ drop q s0 = w ++ drop e s0 ∧ (e <= es)%nat ∧ Forall (λ c, wordc c = true) w ∧ ends_word (drop e s0).
(** The pointer of the parser is in the line and in front of the tokens [T]. *)
Definition at_toks (st : parser) (T : list token) : Prop := on_line st ∧ (ps st <= es)%nat ∧ lex (drop (ps st) s0) = T.

Lemma rd_char st s c r : on_line st → drop s s0 = c :: r → rd s st = Ret c st.
Proof.
  intros Hb Hd. unfold rd. rewrite Hb. assert (s0 !! s = Some c) as Hl.
  { rewrite <- (Nat.add_0_r s), <- lookup_drop, Hd. done. }
  by rewrite lookup_app_l, Hl by (by eapply lookup_lt_Some).
Qed.
Lemma rd_end st : on_line st → rd es st = Ret 0 st.
Proof. intros Hb. unfold rd. rewrite Hb, lookup_app_r by lia. by rewrite Nat.sub_diag. Qed.
Lemma drop_case s : (s <= es)%nat → (s = es ∧ drop s s0 = []) ∨ ∃ c, c ≠ 0 ∧ (s < es)%nat ∧ drop s s0 = c :: drop (S s) s0.
Proof.
  intros Hs. destruct (decide (s = es)) as [->|Hne]; [left; split; [done|apply drop_all]|right].
  destruct (lookup_lt_is_Some_2 s0 s ltac:(lia)) as [c Hc]. exists c. split; [by eapply Forall_lookup_1 in Hnz|]. split; [lia|]. by apply drop_S.
Qed.
Lemma skip_ws_spec st p : on_line st → (p <= es)%nat → ∃ p', skip_ws (es - p) p st = Ret p' st ∧ (p <= p' <= es)%nat ∧
  lex (drop p' s0) = lex (drop p s0) ∧ match drop p' s0 with c :: _ => strchr whitespace c = false | [] => True end.
Proof.
  intros Hb. remember (es - p)%nat as n eqn:Hn. revert p Hn. induction n as [|n IH]; intros p Hn Hp.
  - exists p. split; [done|]. split; [lia|]. split; [done|]. by rewrite drop_ge by lia.
  - destruct (drop_case p Hp) as [[-> _]|(c & _ & Hlt & Hd)]; [lia|]. cbn [skip_ws]. rewrite (bind_Ret _ _ _ _ _ (rd_char st p c _ Hb Hd)).
    destruct (strchr whitespace c) eqn:Hc.
    + destruct (IH (S p) ltac:(lia) ltac:(lia)) as (p' & -> & ? & Hl & ?). exists p'. split; [done|]. split; [lia|]. split; [|done].
      by rewrite Hl, Hd, lex_ws.
    + exists p. split; [done|]. split; [lia|]. split; [done|]. by rewrite Hd.
Qed.
Lemma skip_word_spec st p : on_line st → (p <= es)%nat → ∃ e w, skip_word (es - p) p st = Ret e st ∧ (e <= es)%nat ∧
  drop p s0 = w ++ drop e s0 ∧ Forall (λ c, wordc c = true) w ∧ ends_word (drop e s0).
Proof.
  intros Hb. remember (es - p)%nat as n eqn:Hn. revert p Hn. induction n as [|n IH]; intros p Hn Hp.
  - exists p, []. split; [done|]. split; [lia|]. split; [done|]. split; [done|]. by rewrite drop_ge by lia.
  - destruct (drop_case p Hp) as [[-> _]|(c & _ & Hlt & Hd)]; [lia|]. cbn [skip_word]. rewrite (bind_Ret _ _ _ _ _ (rd_char st p c _ Hb Hd)).
    fold (wordc c). destruct (wordc c) eqn:Hc.
    + destruct (IH (S p) ltac:(lia) ltac:(lia)) as (e & w & -> & ? & Hw & ? & ?). exists e, (c :: w). split; [done|]. split; [lia|].
      split; [by rewrite Hd, Hw|]. split; [by constructor|done].
    + exists p, []. split; [done|]. split; [lia|]. split; [done|]. split; [done|]. by rewrite Hd.
Qed.
Lemma on_line_ps st p : on_line st → on_line (set_ps p st).
Proof. done. Qed.
Lemma peek_spec st T toks : at_toks st T → (∀ c, strchr toks c = true → strchr symbols c = true) →
  ∃ p, peek es toks st = Ret (match T with Sym o :: _ => strchr toks (first_char o) | _ => false end) (set_ps p st) ∧
    at_toks (set_ps p st) T ∧ (T = [] ↔ p = es).
Proof.
  intros (Hb & Hp & HT) Htoks. destruct (skip_ws_spec st (ps st) Hb Hp) as (p & Hskip & Hp' & Hl & Hc). exists p.
  unfold peek. rewrite (bind_Ret (gets ps) _ st _ _ eq_refl), (bind_Ret _ _ _ _ _ Hskip), (bind_Ret (modify (set_ps p)) _ st _ _ eq_refl).
  rewrite HT in Hl. destruct (drop_case p ltac:(lia)) as [[-> Hd]|(c & Hc0 & Hlt & Hd)].
  - rewrite (bind_Ret _ _ _ _ _ (rd_end (set_ps es st) Hb)). rewrite Hd in Hl. cbn in Hl. subst T. rewrite <- Hl. split; [done|]. split; [|done].
    split; [done|]. split; [cbn; lia|]. cbn. by rewrite Hd.
  - rewrite (bind_Ret _ _ _ _ _ (rd_char (set_ps p st) p c _ Hb Hd)), (proj2 (Z.eqb_neq _ _) Hc0). cbn [negb andb]. rewrite Hd in Hc.
    assert (T ≠ []) as Hne. { intros ->. rewrite Hd in Hl. by apply lex_nil in Hl. }
    split; [|split; [split; [done|split; [cbn; lia|by rewrite <- Hl]]|split; [done|lia]]]. unfold mret, M_ret. f_equal.
    destruct (wordc c) eqn:Hw.
    + destruct (wordc_sym c Hw) as [_ Hs]. assert (strchr toks c = false) as ->.
      { apply not_true_is_false. intros Ht%Htoks. unfold wordc in Hw. by rewrite Ht, andb_false_r in Hw. }
      rewrite Hd in Hl. rewrite lex_cons in Hl. rewrite Hc, Hs in Hl. unfold lex_word in Hl.
      destruct (drop (S p) s0) as [|d r]; [by rewrite <- Hl|]. destruct (lex (d :: r)) as [|[]]; try (by rewrite <- Hl). destruct (wordc d); by rewrite <- Hl.
    + destruct (not_wordc_sym c Hc Hw) as (o & Ho & Hf & Hog). rewrite Hd in Hl. rewrite <- Hf in *. rewrite lex_cons in Hl. rewrite Hc, Ho in Hl.
      destruct o; try (by rewrite <- Hl). destruct (drop (S p) s0) as [|d r]; [by rewrite <- Hl|]. destruct (d =? 62); by rewrite <- Hl.
Qed.
Lemma gettoken_end st q c ret e : on_line st → (ps st <= es)%nat → skip_ws (es - ps st) (ps st) st = Ret q st → rd q st = Ret c st →
  (if c =? 0 then mret (c, q)
   else if (c =? 124) || (c =? 40) || (c =? 41) || (c =? 59) || (c =? 38) || (c =? 60) then mret (c, S q)
   else if c =? 62 then d ← rd (S q); mret (if d =? 62 then (43, S (S q)) else (c, S q))
   else e ← skip_word (es - q) q; mret (97, e)) st = Ret (ret, e) st → (e <= es)%nat →
  ∃ p, gettoken es st = Ret (ret, q, e) (set_ps p st) ∧ at_toks (set_ps p st) (lex (drop e s0)).
Proof.
  intros Hb Hps Hq Hc Hm He. destruct (skip_ws_spec st e Hb He) as (p & Hskip & Hp & Hl & _). exists p.
  unfold gettoken. rewrite (bind_Ret (gets ps) _ st _ _ eq_refl), (bind_Ret _ _ _ _ _ Hq), (bind_Ret _ _ _ _ _ Hc), (bind_Ret _ _ _ _ _ Hm), (bind_Ret _ _ _ _ _ Hskip).
  split; [done|]. split; [done|]. split; [cbn; lia|done].
Qed.
Lemma gettoken_spec st T : at_toks st T →
  match T with
  | [] => ∃ q e p, gettoken es st = Ret (0, q, e) (set_ps p st) ∧ at_toks (set_ps p st) []
  | Sym o :: T' => ∃ q e p, gettoken es st = Ret (code o, q, e) (set_ps p st) ∧ at_toks (set_ps p st) T'
  | Word w :: T' => ∃ q e p, gettoken es st = Ret (97, q, e) (set_ps p st) ∧ at_toks (set_ps p st) T' ∧ word_at q e w
  end.
Proof.
  intros (Hb & Hps & HT). destruct (skip_ws_spec st (ps st) Hb Hps) as (q & Hq & Hq' & Hl & Hws). rewrite HT in Hl.
  destruct (drop_case q ltac:(lia)) as [[-> Hd]|(c & Hc0 & Hlt & Hd)].
  { rewrite Hd in Hl. cbn in Hl. subst T. rewrite <- Hl. pose proof (rd_end st Hb) as Hr.
    destruct (gettoken_end st es 0 0 es Hb Hps Hq Hr eq_refl ltac:(lia)) as (p & Hg & Ha). rewrite Hd in Ha. by exists es, es, p. }
  pose proof (rd_char st q c _ Hb Hd) as Hr. rewrite Hd in Hws.
  destruct (wordc c) eqn:Hw.
  - destruct (skip_word_spec st q Hb ltac:(lia)) as (e & w & Hsk & He & Hdw & Hfw & Hend).
    assert (w ≠ []) as Hne. { intros ->. cbn in Hdw. rewrite Hd in Hdw. rewrite <- Hdw in Hend. cbn in Hend. congruence. }
    assert (T = Word w :: lex (drop e s0)) as -> by (by rewrite <- Hl, Hdw, lex_word_app).
    destruct (wordc_sym c Hw) as [_ Hs].
    destruct (gettoken_end st q c 97 e Hb Hps Hq Hr) as (p & Hg & Ha); [|done|by exists q, e, p].
    rewrite (proj2 (Z.eqb_neq _ _) Hc0). unfold sym_of in Hs. repeat (revert Hs; zcase; intros Hs; [done|]). cbn [orb].
    by rewrite (bind_Ret _ _ _ _ _ Hsk).
  - destruct (not_wordc_sym c Hws Hw) as (o & Ho & Hf & Hog). rewrite <- Hf in *.
    destruct (decide (head (drop (S q) s0) = Some 62 ∧ o = Gt)) as [[[r Hd2]%head_Some ->]|Hno].
    + assert (S (S q) <= es)%nat as Hq2. { assert (length (drop (S q) s0) = length (62 :: r)) as Hlen by by rewrite Hd2. rewrite length_drop in Hlen. cbn in Hlen. lia. }
      assert (drop (S (S q)) s0 = r) as Hr2. { rewrite <- Nat.add_1_r, <- drop_drop, Hd2. done. }
      assert (T = Sym GtGt :: lex (drop (S (S q)) s0)) as ->. { rewrite <- Hl, Hd, Hd2, Hr2. done. }
      destruct (gettoken_end st q 62 43 (S (S q)) Hb Hps Hq Hr) as (p & Hg & Ha); [|done|by exists q, (S (S q)), p].
      cbn [Z.eqb Pos.eqb orb]. by rewrite (bind_Ret _ _ _ _ _ (rd_char st (S q) 62 r Hb Hd2)).
    + assert (T = Sym o :: lex (drop (S q) s0)) as ->.
      { rewrite <- Hl, Hd. apply lex_sym; [done|]. intros -> s' Hs'. apply Hno. by rewrite Hs'. }
      destruct (gettoken_end st q (first_char o) (code o) (S q) Hb Hps Hq Hr) as (p & Hg & Ha); [|lia|by exists q, (S q), p].
      destruct o; try done. cbn [first_char Z.eqb Pos.eqb orb code].
      destruct (drop_case (S q) ltac:(lia)) as [[Hes _]|(d & _ & _ & Hd')].
      * rewrite Hes, (bind_Ret _ _ _ _ _ (rd_end st Hb)). done.
      * rewrite (bind_Ret _ _ _ _ _ (rd_char st (S q) d _ Hb Hd')). zcase; [|done]. subst. exfalso. apply Hno. by rewrite Hd'.
Qed.
Lemma at_toks_length st T : at_toks st T → (length T <= es)%nat.
Proof. intros (_ & _ & <-). etransitivity; [apply lex_length|]. rewrite length_drop. lia. Qed.
(** Memory for two nodes for every token, and for [d] more. *)
Definition pot (st : parser) (T : list token) (d : nat) : Prop := (d + 2 * length T <= room st)%nat.

Lemma ref_redirs_done T r rest : ref_redirs T = Some (r, rest) → ∀ o T', rest = Sym o :: T' → redir_of o = None.
Proof.
  revert r rest. induction T as [T IH] using (well_founded_ind (well_founded_ltof _ (@length token))). unfold ltof in IH. intros r rest.
  destruct T as [|[w|o] T1]; cbn [ref_redirs]; [by intros [= <- <-]..|].
  destruct (redir_of o) as [[m f]|] eqn:Ho; [|by intros [= <- <-] o' T' [= <- <-]].
  destruct T1 as [|[w|?] T2]; [done| |done]. intros ([r' rest'] & Hr & [= <- <-])%bind_Some. eapply IH; [|exact Hr]. cbn. lia.
Qed.
Lemma ref_simple_redirs k T : ref_simple k T = ('(r, T1) ← ref_redirs T; '(a, r2, rest) ← ref_simple k T1; Some (a, r ++ r2, rest)).
Proof.
  induction T as [T IH] using (well_founded_ind (well_founded_ltof _ (@length token))). unfold ltof in IH.
  assert (∀ T, ref_simple k T = '(a, r2, rest) ← ref_simple k T; Some (a, [] ++ r2, rest)) as Hid.
  { intros T'. by destruct (ref_simple k T') as [[[a r] rest]|]. }
  destruct T as [|[w|o] T1]; [exact (Hid _)..|]. cbn [ref_redirs]. destruct (redir_of o) as [[m f]|] eqn:Ho; [|exact (Hid _)].
  cbn [ref_simple]. rewrite Ho. destruct T1 as [|[w|?] T2]; [done| |done]. rewrite IH by (cbn; lia).
  destruct (ref_redirs T2) as [[r T3]|]; [|done]. cbn. by destruct (ref_simple k T3) as [[[a r2] rest]|].
Qed.
Lemma parseredirs_spec fuel i st T d : at_toks st T → pot st T d → (i < length (heap st))%nat → (length T < fuel)%nat →
  outcome_of (parseredirs fuel (Some i) es) st (ref_redirs T) (λ x p st', at_toks st' x.2 ∧ pot st' x.2 d ∧
    same_below (length (heap st)) (heap st) (heap st') ∧ (length (heap st) <= length (heap st'))%nat ∧
    ∃ i', p = Some i' ∧ (i' < length (heap st'))%nat ∧ chain word_at (heap st') i' i x.1).
Proof.
  revert i st T. induction fuel as [|fuel IH]; intros i st T HT Hd Hi Hf; [lia|]. cbn [parseredirs].
  destruct (peek_spec st T (bytes "<>") HT) as (p & Hpk & HT1 & _).
  { intros c. unfold strchr, symbols. cbn. rewrite !orb_true_iff. tauto. }
  eapply outcome_step; [exact Hpk|].
  assert (ref_redirs T = Some ([], T) → outcome_of (mret (Some i) : P ptr) (set_ps p st) (ref_redirs T) (λ x p st', at_toks st' x.2 ∧ pot st' x.2 d ∧
    same_below (length (heap st)) (heap st) (heap st') ∧ (length (heap st) <= length (heap st'))%nat ∧
    ∃ i', p = Some i' ∧ (i' < length (heap st'))%nat ∧ chain word_at (heap st') i' i x.1)) as Hend.
  { intros ->. cbn. split; [exact HT1|]. split; [exact Hd|]. split; [by intros j|]. split; [done|]. exists i. split; [done|]. split; [done|constructor]. }
  destruct T as [|[w|o] T]; [exact (Hend eq_refl)..|].
  destruct (redir_of o) as [[m f]|] eqn:Ho.
  2: { assert (strchr (bytes "<>") (first_char o) = false) as -> by by destruct o. apply Hend. cbn. by rewrite Ho. }
  assert (strchr (bytes "<>") (first_char o) = true) as -> by by destruct o.
  destruct (gettoken_spec _ _ HT1) as (q0 & e0 & p0 & Hg0 & HT0). eapply outcome_step; [exact Hg0|].
  cbn [ref_redirs]. rewrite Ho. pose proof (gettoken_spec _ _ HT0) as Hg.
  destruct T as [|[w|o'] T].
  - destruct Hg as (q & e & p1 & Hg & _). eapply outcome_step; [exact Hg|]. by eexists.
  - destruct Hg as (q & e & p1 & Hg & HT2 & Hw). eapply outcome_step; [exact Hg|]. cbn [negb Z.eqb Pos.eqb].
    unfold pot in Hd. cbn [length] in Hd, Hf.
    set (st1 := set_ps p1 (set_ps p0 (set_ps p st))) in *.
    set (st2 := Parser (buf st1) (ps st1) (heap st ++ [NRedir (Some i) (Some q) (Some e) m f]) (pred (room st))).
    eapply (outcome_step _ _ _ (Some (length (heap st))) st2).
    { destruct o; try discriminate Ho; injection Ho as <- <-; cbn [code first_char Z.eqb Pos.eqb]; apply (alloc_spec _ st1); change (room st1) with (room st); lia. }
    eapply (outcome_mono _ _ ('(r, rest) ← ref_redirs T; Some ((m, f, w) :: r, rest))
      (λ x p st', ∃ r, x.1 = (m, f, w) :: r ∧ at_toks st' x.2 ∧ pot st' x.2 d ∧
        same_below (length (heap st2)) (heap st2) (heap st') ∧ (length (heap st2) <= length (heap st'))%nat ∧
        ∃ i', p = Some i' ∧ (i' < length (heap st'))%nat ∧ chain word_at (heap st') i' (length (heap st)) r)).
    + pose proof (IH (length (heap st)) st2 T) as IH'. cbn [heap st2] in IH'. rewrite length_app in *. cbn [length] in *.
      specialize (IH' HT2 ltac:(unfold pot; cbn; lia) ltac:(lia) ltac:(lia)).
      destruct (ref_redirs T) as [[r rest]|]; [|exact IH']. cbn [mbind option_bind outcome_of] in *. eapply wp_mono; [exact IH'|].
      intros p' st' H. cbn [fst snd] in *. exists r. split; [done|]. cbn [heap st2]. rewrite length_app. exact H.
    + intros [x1 x2] p' st' (r & Hr & Hat & Hp' & Hs & Hlen & i' & -> & Hi' & Hc). cbn [fst snd] in *. subst x1.
      cbn [heap st2] in *. rewrite length_app in *. cbn [length] in *. split; [done|]. split; [done|].
      split; [eapply same_below_trans; [apply same_below_app|exact Hs|lia]|]. split; [lia|]. exists i'. split; [done|]. split; [done|].
      change ((m, f, w) :: r) with ([(m, f, w)] ++ r). eapply chain_app; [exact Hc|].
      eapply (chain_snoc _ _ _ i _ []); [|exact Hi|exact Hw|constructor]. rewrite Hs by lia. rewrite lookup_app_r by lia. by rewrite Nat.sub_diag.
  - destruct Hg as (q & e & p1 & Hg & _). eapply outcome_step; [exact Hg|].
    destruct o'; by eexists.
Qed.
Lemma args_insert argv eargv a w q e : args word_at argv eargv a → (length a < MAXARGS)%nat → word_at q e w →
  args word_at (<[length a := Some q]> argv) (<[length a := Some e]> eargv) (a ++ [w]).
Proof.
  intros (H1 & H2 & Ha) Hlt Hw. split; [by rewrite length_insert|]. split; [by rewrite length_insert|].
  intros k v [Hk|[Hk Hv]]%lookup_app_Some.
  - destruct (Ha k v Hk) as (q' & e' & ? & ? & ?). exists q', e'. apply lookup_lt_Some in Hk. by rewrite !list_lookup_insert_ne by lia.
  - apply list_lookup_singleton_Some in Hv as [Hk0 <-]. assert (k = length a) as -> by lia. exists q, e.
    by rewrite !list_lookup_insert_eq by lia.
Qed.
(** What the loop of parseexec leaves: the arguments [a] in the node [c], which the redirections [r] wrap. *)
Definition exec_post (c d : nat) (h : list node) (a0 : list (list Z)) (r0 : list (Z * Z * list Z))
    (x : list (list Z) * list (Z * Z * list Z) * list token) (p : ptr * nat) (st' : parser) : Prop :=
  at_toks st' x.2 ∧ pot st' x.2 d ∧ same_below c h (heap st') ∧ p.2 = length (a0 ++ x.1.1) ∧
  ∃ i argv eargv, p.1 = Some i ∧ heap st' !! c = Some (NExec argv eargv) ∧ args word_at argv eargv (a0 ++ x.1.1) ∧
    chain word_at (heap st') i c (r0 ++ x.1.2).
(** where the loop is: [a0] are the arguments so far, [r0] the redirections *)
Definition exec_pre (c i d : nat) (st : parser) (T : list token) (a0 : list (list Z)) (r0 : list (Z * Z * list Z)) : Prop :=
  at_toks st T ∧ pot st T d ∧ (length a0 < MAXARGS)%nat ∧ (i < length (heap st))%nat ∧ chain word_at (heap st) i c r0 ∧
  ∃ argv eargv, heap st !! c = Some (NExec argv eargv) ∧ args word_at argv eargv a0.
(** redirections before the next round *)
Lemma redirs_then (m : ptr → P (ptr * nat)) c i d st T a0 r0 : exec_pre c i d st T a0 r0 →
  (∀ T' i' r' st', (length T' <= length T)%nat → (∀ o T0, T' = Sym o :: T0 → redir_of o = None) → exec_pre c i' d st' T' a0 r' →
    outcome_of (m (Some i')) st' (ref_simple (length a0) T') (exec_post c d (heap st') a0 r')) →
  outcome_of (parseredirs (S es) (Some i) es ≫= m) st (ref_simple (length a0) T) (exec_post c d (heap st) a0 r0).
Proof.
  intros (HT & Hd & Hlt & Hi & Hch & argv & eargv & Hc & Ha) Hm. rewrite ref_simple_redirs.
  eapply outcome_bind; [apply (parseredirs_spec (S es) i st T d); [done..|by apply at_toks_length in HT; lia]|].
  intros [r T1] p st' Hr (HT1 & Hd1 & Hs & Hl & i' & -> & Hi' & Hch'). cbn [fst snd] in *.
  assert (c < length (heap st))%nat as Hcl by by eapply lookup_lt_Some.
  eapply outcome_map.
  - apply (Hm T1 i' (r0 ++ r) st').
    + apply ref_redirs_sound in Hr as (ts & -> & _). rewrite length_app. lia.
    + by eapply ref_redirs_done.
    + do 4 (split; [done|]). split.
      * eapply chain_app; [exact Hch'|]. eapply chain_mono; [exact Hch|]. intros j Hj. apply Hs. lia.
      * exists argv, eargv. by rewrite Hs.
  - intros [[a r2] rest]. eexists. split; [reflexivity|]. intros [p k] st'' (? & ? & Hs' & ? & i2 & argv' & eargv' & ? & ? & ? & ?). cbn [fst snd] in *.
    split; [done|]. split; [done|]. split; [eapply same_below_trans; [intros j Hj; apply Hs; exact (Nat.lt_trans _ _ _ Hj Hcl)|exact Hs'|done]|].
    split; [done|]. exists i2, argv', eargv'. cbn [fst snd]. by rewrite app_assoc.
Qed.
Lemma exec_loop_spec fuel c i d st T a0 r0 : exec_pre c i d st T a0 r0 → (length T < fuel)%nat → (∀ o T', T = Sym o :: T' → redir_of o = None) →
  outcome_of (exec_loop fuel (Some c) (Some i) (length a0) es) st (ref_simple (length a0) T) (exec_post c d (heap st) a0 r0).
Proof.
  revert i st T a0 r0. induction fuel as [|fuel IH]; intros i st T a0 r0 Hpre Hf Hno; [lia|]. cbn [exec_loop].
  destruct Hpre as (HT & Hd & Hlt & Hi & Hch & argv & eargv & Hc & Ha).
  destruct (peek_spec st T (bytes "|)&;") HT) as (p & Hpk & HT1 & _).
  { intros x. unfold strchr, symbols. cbn. rewrite !orb_true_iff. tauto. }
  eapply outcome_step; [exact Hpk|].
  assert (∀ p', ref_simple (length a0) T = Some ([], [], T) → at_toks (set_ps p' st) T →
    outcome_of (mret (Some i, length a0) : P (ptr * nat)) (set_ps p' st) (ref_simple (length a0) T) (exec_post c d (heap st) a0 r0)) as Hend.
  { intros p' -> HT'. split; [exact HT'|]. split; [exact Hd|]. split; [by intros j|]. cbn [fst snd]. rewrite !app_nil_r. split; [done|].
    by exists i, argv, eargv. }
  destruct T as [|[w|o] T].
  - destruct (gettoken_spec _ _ HT1) as (q & e & p1 & Hg & HTg). eapply outcome_step; [exact Hg|]. by apply Hend.
  - destruct (gettoken_spec _ _ HT1) as (q & e & p1 & Hg & HT2 & Hw). eapply outcome_step; [exact Hg|]. cbn [negb Z.eqb Pos.eqb].
    set (st1 := set_ps p1 (set_ps p st)) in *. set (n := NExec (<[length a0 := Some q]> argv) (<[length a0 := Some e]> eargv)).
    eapply (outcome_step _ _ _ () (set_heap (<[c := n]> (heap st)) st1)).
    { unfold set_arg. change (heap st1) with (heap st). rewrite Hc. by rewrite decide_True. }
    cbn [ref_simple]. unfold pot in Hd. cbn [length] in Hd, Hf. destruct (decide (MAXARGS <= S (length a0))%nat) as [Hmax|Hmax]; [by eexists|].
    assert (c < length (heap st))%nat as Hcl by by eapply lookup_lt_Some.
    assert (length (a0 ++ [w]) = S (length a0)) as Hlen by (rewrite length_app; cbn [length]; lia). rewrite <- Hlen.
    eapply (outcome_map _ _ _ _ (exec_post c d (<[c := n]> (heap st)) (a0 ++ [w]) r0)).
    + apply (redirs_then (λ ret, exec_loop fuel (Some c) ret (length (a0 ++ [w])) es) c i d (set_heap (<[c := n]> (heap st)) st1) T).
      * split; [exact HT2|]. split; [unfold pot; cbn; lia|]. split; [lia|]. cbn [heap set_heap]. split; [by rewrite length_insert|].
        split; [by eapply chain_update|]. eexists _, _. split; [by apply list_lookup_insert_eq|]. by apply args_insert.
      * intros T' i' r' st' HT' Hno' Hpre'. apply IH; [done|lia|done].
    + intros [[a r] rest]. eexists. split; [reflexivity|]. intros [p' k] st' (? & ? & Hs & ? & i2 & argv' & eargv' & ? & ? & ? & ?). cbn [fst snd] in *.
      rewrite <- app_assoc in *. cbn [app] in *. split; [done|]. split; [done|]. split; [|split; [done|by exists i2, argv', eargv']].
      intros j Hj. rewrite Hs by done. apply list_lookup_insert_ne. lia.
  - destruct (gettoken_spec _ _ HT1) as (q & e & p1 & Hg & HT2). specialize (Hno o T eq_refl).
    assert (o ≠ Lpar → ref_simple (length a0) (Sym o :: T) = Some ([], [], Sym o :: T)) as Hr. { intros Hp. cbn [ref_simple]. rewrite Hno. by destruct o. }
    destruct o; try discriminate Hno; try (apply Hend; [by apply Hr|done]). eapply outcome_step; [exact Hg|]. by eexists.
Qed.
(** What a parsing function returns: the command [x.1] in new nodes, the tokens [x.2] to come. *)
Definition parsed (d : nat) (h : list node) (x : cmd * list token) (p : ptr) (st' : parser) : Prop :=
  at_toks st' x.2 ∧ pot st' x.2 d ∧ same_below (length h) h (heap st') ∧ (length h <= length (heap st'))%nat ∧
  ∃ i, p = Some i ∧ repr word_at (heap st') i x.1.
Lemma parsed_heap d d' h st x p st' : parsed d (heap st) x p st' → same_below (length h) h (heap st) → (length h <= length (heap st))%nat → (d' <= d)%nat →
  parsed d' h x p st'.
Proof.
  intros (? & ? & ? & ? & ?) Hs Hl Hd. split; [done|]. split; [unfold pot in *; lia|]. split; [by eapply same_below_trans|]. split; [lia|done].
Qed.
(** one more node *)
Lemma parsed_alloc n d h x y st : at_toks st x → pot st x (S d) → same_below (length h) h (heap st) → (length h <= length (heap st))%nat →
  (∀ h', same_below (length (heap st)) (heap st) h' → h' !! length (heap st) = Some n → repr word_at h' (length (heap st)) y) →
  wp (alloc n) (parsed d h (y, x)) st.
Proof.
  intros Hx Hd Hs Hl Hy. unfold pot in Hd. eapply wp_intro; [apply alloc_spec; lia|]. split; [exact Hx|]. split; [unfold pot; cbn; lia|]. cbn [heap].
  split; [eapply same_below_trans; [exact Hs|apply same_below_app|done]|]. rewrite length_app. split; [lia|]. eexists. split; [done|].
  apply Hy; [apply same_below_app|]. rewrite lookup_app_r by lia. by rewrite Nat.sub_diag.
Qed.
Lemma repr_old h h' i t : repr word_at h i t → same_below (length h) h h' → repr word_at h' i t.
Proof. intros Hr Hs. eapply repr_mono; [exact Hr|]. intros j Hj. apply Hs. apply repr_lt in Hr. lia. Qed.

Lemma back_loop_spec fuel i t d st T h : at_toks st T → pot st T d → (length T < fuel)%nat → repr word_at (heap st) i t →
  same_below (length h) h (heap st) → (length h <= length (heap st))%nat →
  wp (back_loop fuel (Some i) es) (parsed d h (backs (ref_backs T).1 t, (ref_backs T).2)) st.
Proof.
  revert i t st T. induction fuel as [|fuel IH]; intros i t st T HT Hd Hf Hr Hs Hl; [lia|]. cbn [back_loop].
  destruct (peek_spec st T (bytes "&") HT) as (p & Hpk & HT1 & _).
  { intros x. unfold strchr, symbols. cbn. rewrite !orb_true_iff. tauto. }
  apply wp_bind. eapply wp_intro; [exact Hpk|].
  assert (ref_backs T = (O, T) → wp (mret (Some i) : P ptr) (parsed d h (backs (ref_backs T).1 t, (ref_backs T).2)) (set_ps p st)) as Hend.
  { intros ->. split; [exact HT1|]. split; [exact Hd|]. split; [done|]. split; [done|]. by exists i. }
  destruct T as [|[w|o] T]; [exact (Hend eq_refl)..|]. destruct (decide (o = Amp)) as [->|Hne].
  2: { assert (strchr (bytes "&") (first_char o) = false) as -> by by destruct o. apply Hend. cbn. by destruct o. }
  cbn [strchr existsb first_char Z.eqb Pos.eqb bytes orb]. destruct (gettoken_spec _ _ HT1) as (q & e & p1 & Hg & HT2).
  apply wp_bind. eapply wp_intro; [exact Hg|]. apply wp_bind. unfold pot in Hd. cbn [length] in Hd, Hf.
  eapply (wp_mono _ (parsed (S d) h (Back t, T))).
  - apply parsed_alloc; [exact HT2|unfold pot; cbn; lia|done|done|]. intros h' Hs' Hn. eapply repr_back; [exact Hn|by apply repr_lt in Hr|]. by eapply repr_old.
  - intros p' st' (HT' & Hd' & Hs' & Hl' & i' & -> & Hr'). cbn [fst snd] in *. pose proof (IH i' (Back t) st' T HT') as IH'.
    specialize (IH' ltac:(unfold pot in *; lia) ltac:(lia) Hr' Hs' Hl').
    cbn [ref_backs]. destruct (ref_backs T) as [k T2]. cbn [fst snd] in *. unfold backs in *. by rewrite Nat.iter_succ_r.
Qed.
(** [parsefn fuel] does what [ref] says, with fuel for [k] calls and four more for every token. *)
Definition does (m : P ptr) (r : list token → option (cmd * list token)) (k fuel : nat) : Prop :=
  ∀ st T d, at_toks st T → pot st T (S d) → (4 * length T + k <= fuel)%nat → outcome_of m st (r T) (parsed d (heap st)).
(** after a command, [c] goes on with a second one *)
Lemma then_more (m : ptr → P ptr) (mk : ptr → ptr → node) (y : cmd → cmd) (f : P ptr) r k fuel d h st T x :
  does f r k fuel → (4 * length T + k <= fuel)%nat → at_toks st T → pot st T (S (S d)) → same_below (length h) h (heap st) → (length h <= length (heap st))%nat →
  repr word_at (heap st) x.1 x.2 → (∀ p, m p = alloc (mk (Some x.1) p)) →
  (∀ h' i j t', h' !! i = Some (mk (Some x.1) (Some j)) → (x.1 < i)%nat → (j < i)%nat → repr word_at h' x.1 x.2 → repr word_at h' j t' → repr word_at h' i (y t')) →
  outcome_of (f ≫= m) st ('(t', rest) ← r T; Some (y t', rest)) (parsed d h).
Proof.
  intros Hf Hfuel HT Hd Hs Hl Hx Hm Hy. eapply (outcome_bind f m st (r T)); [by apply (Hf st T (S d))|].
  intros [t' rest] p st' _ (HT' & Hd' & Hs' & Hl' & j & -> & Hj). cbn [fst snd] in *. rewrite Hm.
  apply parsed_alloc; [exact HT'|exact Hd'|by eapply same_below_trans|lia|].
  intros h' Hs2 Hn. apply repr_old with (h' := heap st') in Hx; [|done].
  eapply Hy; [exact Hn|by apply repr_lt in Hx|by apply repr_lt in Hj|by eapply repr_old..].
Qed.
Lemma ref_suffix n T t rest : ref_line n T = Some (t, rest) ∨ ref_pipe n T = Some (t, rest) ∨ ref_exec n T = Some (t, rest) → (length rest <= length T)%nat.
Proof.
  destruct (ref_sound n) as (Hl & Hp & He & _). intros [(ts & -> & _)%Hl|[(ts & -> & _)%Hp|(ts & -> & _)%He]]; rewrite length_app; lia.
Qed.
Lemma parseline_does fuel : does (parsepipe fuel es) (ref_pipe fuel) 3 fuel → does (parseline fuel es) (ref_line fuel) 4 fuel →
  does (parseline (S fuel) es) (ref_line (S fuel)) 4 (S fuel).
Proof.
  intros Hp Hl st T d HT Hd Hf. cbn [parseline ref_line].
  eapply (outcome_bind _ _ st (ref_pipe fuel T)); [apply (Hp st T d); [done..|lia]|].
  intros [t T1] p st1 Href (HT1 & Hd1 & Hs1 & Hl1 & i & -> & Hi). cbn [fst snd] in *.
  assert (length T1 <= length T)%nat as HTT by (eapply (ref_suffix fuel); right; left; exact Href).
  assert (wp (back_loop (S es) (Some i) es) (parsed d (heap st) (backs (ref_backs T1).1 t, (ref_backs T1).2)) st1) as Hb.
  { apply back_loop_spec; [done..| |done|done|done]. apply at_toks_length in HT1. lia. }
  apply wp_returns in Hb as (p & st2 & Hret & HT2 & Hd2 & Hs2 & Hl2 & j & -> & Hj). cbn [fst snd] in *.
  eapply outcome_step; [exact Hret|]. set (t2 := backs (ref_backs T1).1 t) in *.
  assert (length (ref_backs T1).2 <= length T1)%nat as HTT2.
  { destruct (ref_backs T1) as [k T2] eqn:E. apply ref_backs_sound in E as ->. rewrite length_app. cbn. lia. }
  set (T2 := (ref_backs T1).2) in *. clearbody T2 t2.
  destruct (peek_spec st2 T2 (bytes ";") HT2) as (p & Hpk & HT3 & _).
  { intros x. unfold strchr, symbols. cbn. rewrite !orb_true_iff. tauto. }
  eapply outcome_step; [exact Hpk|].
  assert (outcome_of (mret (Some j) : P ptr) (set_ps p st2) (Some (t2, T2)) (parsed d (heap st))) as Hend.
  { split; [exact HT3|]. split; [exact Hd2|]. split; [exact Hs2|]. split; [exact Hl2|]. by exists j. }
  destruct T2 as [|[w|o] T2]; [exact Hend..|]. destruct (decide (o = Semi)) as [->|Hne].
  2: { destruct o; try done; exact Hend. }
  cbn [strchr existsb first_char Z.eqb Pos.eqb bytes orb]. destruct (gettoken_spec _ _ HT3) as (q & e & p1 & Hg & HT4).
  eapply outcome_step; [exact Hg|]. unfold pot in Hd2. cbn [length] in HTT2, Hd2.
  apply (then_more _ NList (Seq t2) _ (ref_line fuel) 4 fuel d (heap st) _ T2 (j, t2)); [done|lia|exact HT4|unfold pot; cbn; lia|exact Hs2|exact Hl2|exact Hj|done|].
  intros. by eapply repr_seq.
Qed.
Lemma parsepipe_does fuel : does (parseexec fuel es) (ref_exec fuel) 2 fuel → does (parsepipe fuel es) (ref_pipe fuel) 3 fuel →
  does (parsepipe (S fuel) es) (ref_pipe (S fuel)) 3 (S fuel).
Proof.
  intros He Hp st T d HT Hd Hf. cbn [parsepipe ref_pipe].
  eapply (outcome_bind _ _ st (ref_exec fuel T)); [apply (He st T d); [done..|lia]|].
  intros [t T1] p st1 Href (HT1 & Hd1 & Hs1 & Hl1 & i & -> & Hi). cbn [fst snd] in *.
  assert (length T1 <= length T)%nat as HTT by (eapply (ref_suffix fuel); right; right; exact Href).
  destruct (peek_spec st1 T1 (bytes "|") HT1) as (p & Hpk & HT3 & _).
  { intros x. unfold strchr, symbols. cbn. rewrite !orb_true_iff. tauto. }
  eapply outcome_step; [exact Hpk|].
  assert (outcome_of (mret (Some i) : P ptr) (set_ps p st1) (Some (t, T1)) (parsed d (heap st))) as Hend.
  { split; [exact HT3|]. split; [exact Hd1|]. split; [exact Hs1|]. split; [exact Hl1|]. by exists i. }
  destruct T1 as [|[w|o] T1]; [exact Hend..|]. destruct (decide (o = Bar)) as [->|Hne].
  2: { destruct o; try done; exact Hend. }
  cbn [strchr existsb first_char Z.eqb Pos.eqb bytes orb]. destruct (gettoken_spec _ _ HT3) as (q & e & p1 & Hg & HT4).
  eapply outcome_step; [exact Hg|]. unfold pot in Hd1. cbn [length] in HTT, Hd1.
  apply (then_more _ NPipe (Pipe t) _ (ref_pipe fuel) 3 fuel d (heap st) _ T1 (i, t)); [done|lia|exact HT4|unfold pot; cbn; lia|exact Hs1|exact Hl1|exact Hi|done|].
  intros. by eapply repr_pipe.
Qed.
(** the rest of parseexec and of parseblock: redirections around a command *)
Lemma simple_does st T d : at_toks st T → pot st T (S d) → (∀ T', T ≠ Sym Lpar :: T') →
  outcome_of (cmd ← execcmd; ret ← parseredirs (S es) cmd es; '(ret, argc) ← exec_loop (S es) cmd ret 0 es; set_arg cmd argc null null;; mret ret) st
    ('(a, r, rest) ← ref_simple 0 T; Some (foldl wrap (Exec a) r, rest)) (parsed d (heap st)).
Proof.
  intros HT Hd Hno. unfold pot in Hd. set (n0 := NExec (replicate MAXARGS null) (replicate MAXARGS null)).
  set (c := length (heap st)). set (st1 := Parser (buf st) (ps st) (heap st ++ [n0]) (pred (room st))).
  eapply (outcome_step _ _ _ (Some c) st1); [apply alloc_spec; lia|].
  change (outcome_of ?m st1 _ _) with (outcome_of m st1 ('(a, r, rest) ← ref_simple (length (@nil (list Z))) T; Some (foldl wrap (Exec a) r, rest)) (parsed d (heap st))).
  assert (heap st1 !! c = Some n0) as Hc by (cbn; rewrite lookup_app_r by (unfold c; lia); by rewrite Nat.sub_diag).
  assert (exec_pre c c d st1 T [] []) as Hpre.
  { split; [exact HT|]. split; [unfold pot; cbn; lia|]. split; [cbn; unfold MAXARGS; lia|]. cbn [heap st1]. rewrite length_app. split; [cbn; unfold c; lia|].
    split; [constructor|]. eexists _, _. split; [exact Hc|]. split; [done|]. split; [done|]. intros k w. by rewrite lookup_nil. }
  pose proof (redirs_then (λ ret, exec_loop (S es) (Some c) ret 0 es) c c d st1 T [] [] Hpre) as Hall. cbn [length] in *.
  assert (∀ T' i' r' st', (length T' <= length T)%nat → (∀ o T0, T' = Sym o :: T0 → redir_of o = None) → exec_pre c i' d st' T' [] r' →
    outcome_of (exec_loop (S es) (Some c) (Some i') 0 es) st' (ref_simple 0 T') (exec_post c d (heap st') [] r')) as Hloop.
  { intros T' i' r' st' HT' Hno' Hp'. apply (exec_loop_spec (S es) c i' d st' T' [] r'); [done| |done]. apply at_toks_length in HT. lia. }
  specialize (Hall Hloop).
  assert (∀ (A : Type) (m : P A) (f : A → P (ptr * nat)) (g : ptr * nat → P ptr) s, (m ≫= λ x, f x ≫= g) s = ((m ≫= f) ≫= g) s) as Hassoc.
  { intros A m f g s. unfold mbind, M_bind. by destruct (m s). }
  assert (∀ (m m' : P ptr) s r Q, m s = m' s → outcome_of (X := cmd * list token) m' s r Q → outcome_of m s r Q) as Hext.
  { intros m m' s r Q E. unfold outcome_of, wp. by rewrite E. }
  eapply Hext; [apply Hassoc|]. eapply outcome_bind; [exact Hall|].
  intros [[a r] rest] [p k] st2 Href (HT2 & Hd2 & Hs2 & Hk & i & argv & eargv & Hpi & Hn & Ha & Hch). cbn [fst snd app] in *. subst p k.
  apply ref_simple_sound in Href as (_ & _ & _ & Hlen); [|unfold MAXARGS; lia]. cbn [Nat.add] in Hlen.
  set (n2 := NExec (<[length a := null]> argv) (<[length a := null]> eargv)).
  eapply (outcome_step _ _ _ () (set_heap (<[c := n2]> (heap st2)) st2)).
  { unfold set_arg. rewrite Hn. by rewrite decide_True. }
  assert (c < length (heap st2))%nat as Hcl by by eapply lookup_lt_Some.
  split; [exact HT2|]. split; [exact Hd2|]. cbn [heap set_heap]. rewrite length_insert. split; [|split; [unfold c in *; lia|]].
  - intros j Hj. rewrite list_lookup_insert_ne by (unfold c; lia). rewrite Hs2 by done. cbn. by apply lookup_app_l.
  - exists i. split; [done|]. eapply repr_chain; [by eapply chain_update|]. destruct Ha as (H1 & H2 & Ha).
    eapply repr_exec; [by apply list_lookup_insert_eq| |by apply list_lookup_insert_eq; lia].
    split; [by rewrite length_insert|]. split; [by rewrite length_insert|]. intros k w Hk. pose proof (lookup_lt_Some _ _ _ Hk).
    rewrite !list_lookup_insert_ne by lia. by apply Ha.
Qed.
Definition block_does (fuel : nat) : Prop :=
  ∀ st T d, at_toks st (Sym Lpar :: T) → pot st (Sym Lpar :: T) (S d) → (4 * length T + 5 <= fuel)%nat →
  outcome_of (parseblock fuel es) st (ref_block fuel T) (parsed d (heap st)).
Lemma parseexec_does fuel : block_does fuel → does (parseexec (S fuel) es) (ref_exec (S fuel)) 2 (S fuel).
Proof.
  intros Hb st T d HT Hd Hf. cbn [parseexec ref_exec].
  destruct (peek_spec st T (bytes "(") HT) as (p & Hpk & HT1 & _).
  { intros x. unfold strchr, symbols. cbn. rewrite !orb_true_iff. tauto. }
  eapply outcome_step; [exact Hpk|].
  assert ((∀ T', T ≠ Sym Lpar :: T') → outcome_of (cmd ← execcmd; ret ← parseredirs (S es) cmd es; '(ret, argc) ← exec_loop (S es) cmd ret 0 es; set_arg cmd argc null null;; mret ret)
    (set_ps p st) ('(a, r, rest) ← ref_simple 0 T; Some (foldl wrap (Exec a) r, rest)) (parsed d (heap st))) as Hs by by apply (simple_does (set_ps p st)).
  destruct T as [|[w|o] T]; [by apply Hs..|]. destruct (decide (o = Lpar)) as [->|Hne].
  - cbn [strchr existsb first_char Z.eqb Pos.eqb bytes orb]. apply (Hb (set_ps p st) T d); [exact HT1|exact Hd|]. cbn [length] in Hf. lia.
  - destruct o; try done; apply Hs; congruence.
Qed.
Lemma parseblock_does fuel : does (parseline fuel es) (ref_line fuel) 4 fuel → block_does (S fuel).
Proof.
  intros Hl st T d HT Hd Hf. cbn [parseblock ref_block].
  destruct (peek_spec st _ (bytes "(") HT) as (p & Hpk & HT1 & _).
  { intros x. unfold strchr, symbols. cbn. rewrite !orb_true_iff. tauto. }
  eapply outcome_step; [exact Hpk|]. cbn [strchr existsb first_char Z.eqb Pos.eqb bytes orb negb].
  destruct (gettoken_spec _ _ HT1) as (q & e & p1 & Hg & HT2). eapply outcome_step; [exact Hg|]. unfold pot in Hd. cbn [length] in Hd.
  set (st1 := set_ps p1 (set_ps p st)) in *.
  eapply (outcome_bind _ _ st1 (ref_line fuel T)); [apply (Hl st1 T (S d)); [done|unfold pot; cbn; lia|lia]|].
  intros [t T1] p' st2 Href (HT3 & Hd3 & Hs & Hlen & i & -> & Hi). cbn [fst snd] in *. change (heap st1) with (heap st) in *.
  destruct (peek_spec st2 _ (bytes ")") HT3) as (p2 & Hpk2 & HT4 & _).
  { intros x. unfold strchr, symbols. cbn. rewrite !orb_true_iff. tauto. }
  eapply outcome_step; [exact Hpk2|].
  destruct T1 as [|[w|o] T1]; [by eexists..|]. destruct (decide (o = Rpar)) as [->|Hne]; [|destruct o; try done; by eexists].
  cbn [strchr existsb first_char Z.eqb Pos.eqb bytes orb negb]. destruct (gettoken_spec _ _ HT4) as (q' & e' & p3 & Hg' & HT5).
  eapply outcome_step; [exact Hg'|]. unfold pot in Hd3. cbn [length] in Hd3. set (st3 := set_ps p3 (set_ps p2 st2)) in *.
  eapply outcome_map.
  - apply (parseredirs_spec (S es) i st3 T1 (S d)); [exact HT5|unfold pot; cbn; lia|by apply repr_lt in Hi|apply at_toks_length in HT5; lia].
  - intros [r rest]. eexists. split; [reflexivity|]. intros p4 st4 (HT6 & Hd6 & Hs6 & Hl6 & j & -> & Hj & Hch). cbn [fst snd] in *.
    split; [exact HT6|]. split; [unfold pot in *; cbn in *; lia|]. split; [by eapply same_below_trans|]. split; [cbn in *; lia|].
    exists j. split; [done|]. eapply repr_chain; [exact Hch|]. by eapply repr_old.
Qed.
Lemma parse_does fuel : does (parseline fuel es) (ref_line fuel) 4 fuel ∧ does (parsepipe fuel es) (ref_pipe fuel) 3 fuel ∧
  does (parseexec fuel es) (ref_exec fuel) 2 fuel ∧ block_does fuel.
Proof.
  induction fuel as [|fuel (IHl & IHp & IHe & IHb)].
  - split_and!; intros st T d _ _ Hf; lia.
  - split; [by apply parseline_does|]. split; [by apply parsepipe_does|]. split; [by apply parseexec_does|by apply parseblock_does].
Qed.

(** *** Ending the words *)
(** [b] is the line with NULs written after words. *)
Definition cut (b : list Z) : Prop :=
  length b = length (s0 ++ 0 :: junk) ∧ (∀ k c, s0 !! k = Some c → wordc c = true → b !! k = Some c).
Definition ended (b : list Z) (q e : nat) (w : list Z) : Prop := word_at q e w ∧ b !! e = Some 0.
Lemma word_lookup q e w k c : word_at q e w → w !! k = Some c → s0 !! (q + k)%nat = Some c ∧ wordc c = true.
Proof.
  intros (_ & Hd & _ & Hw & _) Hk. split; [|by eapply Forall_lookup_1 in Hw].
  rewrite <- lookup_drop, Hd, lookup_app_l; [done|by eapply lookup_lt_Some].
Qed.
Lemma word_length q e w : word_at q e w → e = (q + length w)%nat.
Proof.
  intros (Hne & Hd & He & _). apply (f_equal length) in Hd. rewrite length_app, !length_drop in Hd. destruct w; [done|]. cbn [length] in *. lia.
Qed.
(** After it has been ended, a word is the string at its beginning. *)
Lemma ended_c_str b q e w : cut b → ended b q e w → c_str (drop q b) = w.
Proof.
  intros [Hlen Hb] [Hw He]. pose proof (word_length _ _ _ Hw) as Hlw.
  assert (drop q b = w ++ 0 :: drop (S e) b) as ->.
  { rewrite <- (drop_S b 0 e He). rewrite <- (take_drop (length w) (drop q b)) at 1. rewrite drop_drop, <- Hlw. f_equal. apply list_eq_same_length with (length w); [done| |].
    - rewrite length_take, length_drop. apply lookup_lt_Some in He. lia.
    - intros k x y Hk Hx Hy. rewrite lookup_take_lt, lookup_drop in Hx by done. destruct (word_lookup _ _ _ _ _ Hw Hy) as [Hs Hc]. rewrite (Hb _ _ Hs Hc) in Hx. congruence. }
  assert (Forall (λ c, c ≠ 0) w) as Hnz'.
  { apply Forall_lookup_2. intros k c Hk. destruct (word_lookup _ _ _ _ _ Hw Hk) as [Hs _]. by eapply Forall_lookup_1 in Hnz. }
  by apply c_str_nul.
Qed.
(** What ending words does to the line: [b] becomes [b']. *)
Definition ends (b b' : list Z) : Prop := cut b' ∧ ∀ k, b !! k = Some 0 → b' !! k = Some 0.
Lemma ended_mono b b' q e w : ended b q e w → ends b b' → ended b' q e w.
Proof. intros [Hw He] [_ Hb]. split; [done|auto]. Qed.
Lemma ends_trans b1 b2 b3 : ends b1 b2 → ends b2 b3 → ends b1 b3.
Proof. intros [_ H1] [? H2]. split; [done|]. auto. Qed.
Lemma wr_spec q e w st : cut (buf st) → word_at q e w → ∃ b, wr (Some e) 0 st = Ret () (set_buf b st) ∧ ends (buf st) b ∧ ended b q e w.
Proof.
  intros [Hlen Hb] Hw. pose proof Hw as (Hne & Hd & He & _ & Hend). exists (<[e := 0]> (buf st)).
  assert (e < length (buf st))%nat as Hlt by (rewrite Hlen, length_app; cbn; lia).
  split; [unfold wr; by rewrite decide_True|]. split; [split; [split; [by rewrite length_insert|]|]|split; [done|by apply list_lookup_insert_eq]].
  - intros k c Hk Hc. rewrite list_lookup_insert_ne; [by apply Hb|]. intros ->. rewrite (drop_S s0 c k Hk) in Hend. cbn in Hend. congruence.
  - intros k Hk. destruct (decide (k = e)) as [->|]; [by apply list_lookup_insert_eq|by rewrite list_lookup_insert_ne].
Qed.
Lemma nul_args_spec a argv eargv st : cut (buf st) → argv !! length a = Some null →
  (∀ k w, a !! k = Some w → ∃ q e, argv !! k = Some (Some q) ∧ eargv !! k = Some (Some e) ∧ word_at q e w) →
  wp (nul_args argv eargv) (λ _ st', ∃ b, st' = set_buf b st ∧ ends (buf st) b ∧
    ∀ k w, a !! k = Some w → ∃ q e, argv !! k = Some (Some q) ∧ eargv !! k = Some (Some e) ∧ ended b q e w) st.
Proof.
  revert argv eargv st. induction a as [|w a IH]; intros argv eargv st Hc Hn Ha.
  - destruct argv as [|[q|] argv]; try done. exists (buf st). split; [by destruct st|]. split; [done|]. intros k w. by rewrite lookup_nil.
  - destruct (Ha O w eq_refl) as (q & e & Hq & He & Hw). destruct argv as [|o argv]; [done|]. injection Hq as ->. destruct eargv as [|o eargv]; [done|]. injection He as ->.
    cbn [nul_args]. destruct (wr_spec q e w st Hc Hw) as (b & Hwr & Hb & Hend). apply wp_bind. eapply wp_intro; [exact Hwr|].
    eapply wp_mono; [apply (IH argv eargv (set_buf b st)); [apply Hb|done|intros k v Hk; by apply (Ha (S k) v)]|].
    intros _ st' (b' & -> & Hb' & Hall). exists b'. split; [done|]. split; [by eapply ends_trans|].
    intros [|k] v Hk; [injection Hk as <-; exists q, e; split; [done|]; split; [done|by eapply ended_mono]|by apply Hall].
Qed.
Lemma nulterminate_spec i t st fuel : repr word_at (heap st) i t → (i < fuel)%nat → cut (buf st) →
  wp (nulterminate fuel (Some i)) (λ _ st', ∃ b, st' = set_buf b st ∧ ends (buf st) b ∧ repr (ended b) (heap st) i t) st.
Proof.
  intros Hr. remember (heap st) as h eqn:Hh. revert st fuel Hh.
  induction Hr as [i argv eargv a Hi (H1 & H2 & Ha) Hn|i j q e m f c w Hi Hj Hw Hc IH|i j k l r Hi Hj Hk Hl IHl Hr IHr|i j k l r Hi Hj Hk Hl IHl Hr IHr|i j c Hi Hj Hc IH];
    intros st [|fuel] Hh Hf Hcut; try lia; cbn [nulterminate]; apply wp_bind, wp_gets; rewrite <- Hh, Hi.
  - eapply wp_mono; [by apply (nul_args_spec a)|]. intros _ st' (b & -> & Hb & Hall). exists b. split; [done|]. split; [done|]. by eapply repr_exec.
  - apply wp_bind. eapply wp_mono; [by apply IH; [|lia|]|]. intros _ st' (b & -> & Hb & Hr).
    destruct (wr_spec q e w (set_buf b st) ltac:(apply Hb) Hw) as (b' & Hwr & Hb' & Hend). eapply wp_intro; [exact Hwr|].
    exists b'. split; [done|]. split; [by eapply ends_trans|]. eapply repr_redir; [done..|]. eapply repr_words; [|exact Hr]. intros. by eapply ended_mono.
  - apply wp_bind. eapply wp_mono; [by apply IHl; [|lia|]|]. intros _ st' (b & -> & Hb & Hr1).
    eapply wp_mono; [apply IHr; [done|lia|apply Hb]|]. intros _ st' (b' & -> & Hb' & Hr2). exists b'. split; [done|]. split; [by eapply ends_trans|].
    eapply repr_pipe; [done..| |done]. eapply repr_words; [|exact Hr1]. intros. by eapply ended_mono.
  - apply wp_bind. eapply wp_mono; [by apply IHl; [|lia|]|]. intros _ st' (b & -> & Hb & Hr1).
    eapply wp_mono; [apply IHr; [done|lia|apply Hb]|]. intros _ st' (b' & -> & Hb' & Hr2). exists b'. split; [done|]. split; [by eapply ends_trans|].
    eapply repr_seq; [done..| |done]. eapply repr_words; [|exact Hr1]. intros. by eapply ended_mono.
  - eapply wp_mono; [apply IH; [done|lia|done]|]. intros _ st' (b & -> & Hb & Hr). exists b. split; [done|]. split; [done|]. by eapply repr_back.
Qed.
Lemma parsecmd_spec n : (2 * length s0 + 1 <= n)%nat →
  outcome_of parsecmd (Parser (s0 ++ 0 :: junk) 0 [] n) (ref_parse (4 * es + 4) (lex s0))
    (λ t p st', ∃ i, p = Some i ∧ repr (λ q _ w, c_str (drop q (buf st')) = w) (heap st') i t).
Proof.
  intros Hn. set (st := Parser (s0 ++ 0 :: junk) 0 [] n). unfold parsecmd.
  apply outcome_gets. cbv zeta. change (buf st) with (s0 ++ 0 :: junk). rewrite c_str_nul by done.
  assert (at_toks st (lex s0)) as HT by (split; [done|split; [cbn; lia|done]]).
  pose proof (lex_length s0) as Hlen.
  pose proof (proj1 (parse_does (4 * es + 4)) st (lex s0) O HT ltac:(unfold pot; cbn; lia) ltac:(lia)) as Hp. unfold ref_parse.
  destruct (ref_line (4 * es + 4) (lex s0)) as [[t rest]|].
  2: { destruct Hp as [msg Hp]. exists msg. unfold mbind, M_bind. by rewrite Hp. }
  apply wp_returns in Hp as (p & st1 & Hret & HT1 & _ & _ & _ & i & -> & Hi). cbn [fst snd] in *.
  eapply outcome_step; [exact Hret|].
  destruct (peek_spec st1 rest [] HT1 ltac:(done)) as (p & Hpk & HT2 & Hes). eapply outcome_step; [exact Hpk|].
  apply outcome_gets; change (ps (set_ps p st1)) with p.
  destruct rest as [|tok rest].
  - rewrite bool_decide_eq_true_2 by by apply Hes. cbn [negb]. apply outcome_gets. cbn [outcome_of].
    apply wp_bind. set (st2 := set_ps p st1). pose proof (repr_lt _ _ _ _ Hi) as Hlt.
    eapply wp_mono; [apply (nulterminate_spec i t st2); [exact Hi|cbn; lia|]|].
    + destruct HT2 as [Hb _]. unfold on_line in Hb. change (buf st2) with (buf (set_ps p st1)). split; [by rewrite Hb|]. intros k c Hk _. rewrite Hb. by apply lookup_app_l_Some.
    + intros _ st' (b & -> & [Hcut _] & Hr). apply wp_mret. exists i. split; [done|]. eapply repr_words; [|exact Hr]. intros q e w. by apply ended_c_str.
  - rewrite bool_decide_eq_false_2; [by eexists|]. intros Hp. by apply Hes in Hp.
Qed.
End line.

(** What a pointer into the line stands for once the words are ended. *)
Definition string_at (b : list Z) (q e : nat) (w : list Z) : Prop := c_str (drop q b) = w.
(** C39: On every line the shell's parser ends, and it does what the grammar says: if the tokens of the line are a command, parsecmd
    returns that command, which is the only one they can be, and each of its arguments and file names is a NUL-terminated string in
    the line; otherwise it stops with a syntax error.  It reads and writes nothing outside the line and its nodes, given
    memory for two nodes for every character and one more. *)
Theorem parsecmd_exact (s junk : list Z) (n : nat) : Forall (λ c, c ≠ 0) s → (2 * length s + 1 <= n)%nat →
  match parsecmd (Parser (s ++ 0 :: junk) 0 [] n) with
  | Ret p st => ∃ i t, p = Some i ∧ repr (string_at (buf st)) (heap st) i t ∧ ∀ t', line (lex s) t' ↔ t' = t
  | Panic _ => ∀ t, ¬ line (lex s) t
  | _ => False
  end.
Proof.
  intros Hs Hn. pose proof (parsecmd_spec s junk Hs n Hn) as Hp.
  assert (4 * length (lex s) + 4 <= 4 * length s + 4)%nat as Hf by (pose proof (lex_length s); lia).
  pose proof (ref_parse_line (4 * length s + 4) (lex s)) as Hg. destruct (ref_parse (4 * length s + 4) (lex s)) as [t|] eqn:E.
  - apply wp_returns in Hp as (p & st & -> & i & -> & Hr). exists i, t. split; [done|]. split; [done|].
    intros t'. rewrite <- (Hg t' Hf). split; congruence.
  - destruct Hp as [msg ->]. intros t Ht. by rewrite <- (Hg t Hf) in Ht.
Qed.
(** A line with everything, and one whose command does not end. *)
Lemma parsecmd_exact_witness :
  (∃ st i, parsecmd (Parser (bytes "a b<f | (c;d&)>>g" ++ [0]) 0 [] 35) = Ret (Some i) st ∧
    repr (string_at (buf st)) (heap st) i
      (Pipe (Redir (Exec [bytes "a"; bytes "b"]) (bytes "f") 0 0) (Redir (Seq (Exec [bytes "c"]) (Back (Exec [bytes "d"]))) (bytes "g") 513 1))) ∧
  ∀ t, ¬ line (lex (bytes "(a;b")) t.
Proof.
  split; [|exact (parsecmd_exact (bytes "(a;b") [] 9 ltac:(repeat constructor; done) ltac:(cbn; lia))].
  assert (line (lex (bytes "a b<f | (c;d&)>>g")) (Pipe (Redir (Exec [bytes "a"; bytes "b"]) (bytes "f") 0 0)
    (Redir (Seq (Exec [bytes "c"]) (Back (Exec [bytes "d"]))) (bytes "g") 513 1))) as Hline.
  { refine (proj1 (ref_parse_line 72 _ _ _) _); [vm_compute; lia|vm_compute; reflexivity]. }
  revert Hline. generalize (Pipe (Redir (Exec [bytes "a"; bytes "b"]) (bytes "f") 0 0) (Redir (Seq (Exec [bytes "c"]) (Back (Exec [bytes "d"]))) (bytes "g") 513 1)).
  intros u Hline. pose proof (parsecmd_exact (bytes "a b<f | (c;d&)>>g") [] 35 ltac:(repeat constructor; done) ltac:(cbn; lia)) as H.
  destruct (parsecmd _) as [p st|msg| | |].
  - destruct H as (i & t & -> & Hr & Ht). apply Ht in Hline as ->. exists st, i. split; [reflexivity|exact Hr].
  - destruct (H u Hline).
  - destruct H.
  - destruct H.
  - destruct H.
Defined.
