(* ===== verification/Runcmd.v ===== *)
(** * sh.c of the xv6 user programs: running commands, and the loop that reads them

    A process is the tree of the system calls it can make; fork has a branch for every result, a call that returns a number
    has one for every number.  [run] runs such a tree on a table of open files as the kernel keeps it (the lowest free
    descriptor is given out) and lists what happens: the programs that are started, each with the files it starts with, the
    messages and the changes of directory.  Whether fork, pipe, open, exec and chdir succeed is the kernel's choice, a function
    of a state of its own that every call changes.  A tree is run child first; as the choices are arbitrary, every combination of
    them that another order of the processes would meet is met by some kernel in this one, and only the order of the
    list is its own. *)

From S2P Require Import Prelude CText Sh.

(** ** System calls *)
Inductive prog :=
| PExit
| PExec (path : list Z) (argv : list (list Z)) (k : prog)
| PClose (fd : Z) (k : prog)
| POpen (file : list Z) (mode : Z) (k : Z → prog)
| PDup (fd : Z) (k : Z → prog)
| PPipe (k : option (Z * Z) → prog)
| PFork (k : Z → prog)
| PWait (k : prog)
| PChdir (dir : list Z) (k : Z → prog)
| PPrint (fd : Z) (msg : list Z) (k : prog)
| PCrash.

(** panic and fork1 of sh.c *)
Definition panic_prog (s : list Z) : prog := PPrint 2 (s ++ [10]) PExit.
Definition fork1 (k : Z → prog) : prog := PFork (λ pid, if pid =? -1 then panic_prog (bytes "fork") else k pid).
(** the string at a pointer, and the strings of an argv *)
Definition str (b : list Z) (q : nat) : list Z := c_str (drop q b).
Fixpoint strs (b : list Z) (argv : list ptr) : list (list Z) :=
  match argv with Some q :: argv => str b q :: strs b argv | _ => [] end.
Fixpoint runcmd (fuel : nat) (b : list Z) (h : list node) (cmd : ptr) : prog :=
  match fuel with
  | O => PCrash
  | S fuel =>
      match cmd with
      | None => PExit
      | Some c =>
          match h !! c with
          | Some (NExec argv _) =>
              match argv with
              | Some a :: _ => PExec (str b a) (strs b argv) (PPrint 2 (bytes "exec " ++ str b a ++ bytes " failed" ++ [10]) PExit)
              | None :: _ => PExit
              | [] => PCrash
              end
          | Some (NRedir sub (Some file) _ mode fd) =>
              PClose fd (POpen (str b file) mode (λ r,
                if r <? 0 then PPrint 2 (bytes "open " ++ str b file ++ bytes " failed" ++ [10]) PExit
                else runcmd fuel b h sub))
          | Some (NList l r) =>
              fork1 (λ pid, if pid =? 0 then runcmd fuel b h l else PWait (runcmd fuel b h r))
          | Some (NPipe l r) =>
              PPipe (λ p, match p with
              | None => panic_prog (bytes "pipe")
              | Some (p0, p1) =>
                  fork1 (λ pid, if pid =? 0 then PClose 1 (PDup p1 (λ _, PClose p0 (PClose p1 (runcmd fuel b h l)))) else
                  fork1 (λ pid, if pid =? 0 then PClose 0 (PDup p0 (λ _, PClose p0 (PClose p1 (runcmd fuel b h r)))) else
                  PClose p0 (PClose p1 (PWait (PWait PExit)))))
              end)
          | Some (NBack sub) => fork1 (λ pid, if pid =? 0 then runcmd fuel b h sub else PExit)
          | _ => PCrash
          end
      end
  end.

(** ** The loop of main *)
(** gets of ulib.c, with [n = max - 1] characters to read at most *)
Fixpoint ugets (n : nat) (input : list Z) : list Z * list Z :=
  match n, input with
  | S n, c :: input => if (c =? 10) || (c =? 13) then ([c], input) else let '(l, r) := ugets n input in (c :: l, r)
  | _, _ => ([], input)
  end.
Definition BUFSIZE : nat := 100.
(** getcmd: the line in the zeroed buffer and the rest of the input, unless there is no line *)
Definition getcmd (input : list Z) (k : option (list Z * list Z) → prog) : prog :=
  PPrint 2 (bytes "$ ")
    (let '(l, rest) := ugets (BUFSIZE - 1) input in
     let buf := l ++ replicate (BUFSIZE - length l) 0 in
     k (if default 0 (head buf) =? 0 then None else Some (buf, rest))).
(** [runcmd(parsecmd(buf))] *)
Definition child (malloc : nat) (buf : list Z) : prog :=
  match parsecmd (Parser buf 0 [] malloc) with
  | Ret p st => runcmd (S (length (heap st))) (Sh.buf st) (heap st) p
  | Panic msg => panic_prog (bytes msg)
  | _ => PCrash
  end.
(** What main does with a line, before the next one *)
Definition do_line (malloc : nat) (buf : list Z) (next : prog) : prog :=
  let at_ i := default 0 (buf !! i) in
  if (at_ 0%nat =? 99) && (at_ 1%nat =? 100) && (at_ 2%nat =? 32) then
    let dir := c_str (drop 3 (<[(length (c_str buf) - 1)%nat := 0]> buf)) in
    PChdir dir (λ r, if r <? 0 then PPrint 2 (bytes "cannot cd " ++ dir ++ [10]) next else next)
  else fork1 (λ pid, if pid =? 0 then child malloc buf else PWait next).
(** [while(getcmd(buf, sizeof(buf)) >= 0)]; every turn takes a character *)
Fixpoint main_loop (fuel malloc : nat) (input : list Z) : prog :=
  match fuel with
  | O => PCrash
  | S fuel => getcmd input (λ o, match o with Some (buf, rest) => do_line malloc buf (main_loop fuel malloc rest) | None => PExit end)
  end.
Definition O_RDWR : Z := 2.
(** [while((fd = open("console", O_RDWR)) >= 0) if(fd >= 3){ close(fd); break; }]; the fourth descriptor is not below 3 *)
Fixpoint open_console (fuel : nat) (k : prog) : prog :=
  match fuel with
  | O => PCrash
  | S fuel => POpen (bytes "console") O_RDWR (λ fd, if fd <? 0 then k else if 3 <=? fd then PClose fd k else open_console fuel k)
  end.
Definition main (malloc : nat) (input : list Z) : prog := open_console 4 (main_loop (S (length input)) malloc input).

(** ** What the calls do *)
Inductive file := Console | PipeR (n : nat) | PipeW (n : nat) | OnDisk (name : list Z) (mode : Z).
Notation fds := (gmap Z file).
Definition NOFILE : Z := 16.
Definition fdalloc (f : fds) : Z :=
  match list_find (λ i, f !! i = None) (seqZ 0 NOFILE) with Some (_, i) => i | None => -1 end.
(** A program is started, a message is written to a file, the shell changes its directory. *)
Inductive event := Start (path : list Z) (argv : list (list Z)) (files : fds) | Say (to : option file) (msg : list Z) | Chdir (dir : list Z).
(** The kernel's choices: whether a call succeeds, apart from what it says about descriptors. *)
Record kernel (W : Type) := Kernel {
  k_fork : W → bool * W;
  k_pipe : W → bool * W;
  k_open : list Z → Z → W → bool * W;
  k_exec : list Z → list (list Z) → W → bool * W;
  k_chdir : list Z → W → bool * W;
}.
#[global] Arguments Kernel {W}.
#[global] Arguments k_fork {W}.
#[global] Arguments k_pipe {W}.
#[global] Arguments k_open {W}.
#[global] Arguments k_exec {W}.
#[global] Arguments k_chdir {W}.

Section os.
Context {W : Type} (K : kernel W).
Notation result := (list event * nat * W)%type.
Definition and_then (r : option result) (g : nat → W → option result) : option result :=
  '(e1, n1, w1) ← r; '(e2, n2, w2) ← g n1 w1; Some (e1 ++ e2, n2, w2).
(** [n] numbers the pipes. *)
Fixpoint run (p : prog) (f : fds) (n : nat) (w : W) : option result :=
  match p with
  | PExit => Some ([], n, w)
  | PExec path argv k => let '(ok, w) := k_exec K path argv w in if (ok : bool) then Some ([Start path argv f], n, w) else run k f n w
  | PClose fd k => run k (delete fd f) n w
  | POpen name mode k =>
      let '(ok, w) := k_open K name mode w in
      let fd := fdalloc f in
      if negb ok || (fd <? 0) then run (k (-1)) f n w else run (k fd) (<[fd := OnDisk name mode]> f) n w
  | PDup fd k =>
      match f !! fd with
      | Some x => let fd' := fdalloc f in if fd' <? 0 then run (k (-1)) f n w else run (k fd') (<[fd' := x]> f) n w
      | None => run (k (-1)) f n w
      end
  | PPipe k =>
      let '(ok, w) := k_pipe K w in
      let p0 := fdalloc f in
      let p1 := fdalloc (<[p0 := PipeR n]> f) in
      if negb ok || (p0 <? 0) || (p1 <? 0) then run (k None) f n w
      else run (k (Some (p0, p1))) (<[p1 := PipeW n]> (<[p0 := PipeR n]> f)) (S n) w
  | PFork k =>
      let '(ok, w) := k_fork K w in
      if (ok : bool) then and_then (run (k 0) f n w) (run (k 1) f) else run (k (-1)) f n w
  | PWait k => run k f n w
  | PChdir dir k => let '(ok, w) := k_chdir K dir w in and_then (Some ([Chdir dir], n, w)) (run (k (if (ok : bool) then 0 else -1)) f)
  | PPrint fd msg k => and_then (Some ([Say (f !! fd) msg], n, w)) (run k f)
  | PCrash => None
  end.

(** ** What a command means *)
Definition complain (f : fds) (msg : list Z) : list event := [Say (f !! 2) (msg ++ [10])].
Definition seq_plan (r : result) (g : nat → W → result) : result :=
  let '(e1, n1, w1) := r in let '(e2, n2, w2) := g n1 w1 in (e1 ++ e2, n2, w2).
(** a part of a command that a child runs, unless there can be none *)
Definition forked (f : fds) (g : nat → W → result) (n : nat) (w : W) : result :=
  let '(ok, w) := k_fork K w in if (ok : bool) then g n w else (complain f (bytes "fork"), n, w).
Fixpoint plan (t : cmd) (f : fds) (n : nat) (w : W) : result :=
  match t with
  | Exec [] => ([], n, w)
  | Exec (a :: l) =>
      let '(ok, w) := k_exec K a (a :: l) w in
      (if (ok : bool) then [Start a (a :: l) f] else complain f (bytes "exec " ++ a ++ bytes " failed"), n, w)
  | Redir c file m fd =>
      let '(ok, w) := k_open K file m w in
      if (ok : bool) then plan c (<[fd := OnDisk file m]> f) n w else (complain f (bytes "open " ++ file ++ bytes " failed"), n, w)
  | Pipe l r =>
      let '(ok, w) := k_pipe K w in
      if (ok : bool) then
        forked f (λ m w, seq_plan (plan l (<[1 := PipeW n]> f) m w) (forked f (plan r (<[0 := PipeR n]> f)))) (S n) w
      else (complain f (bytes "pipe"), n, w)
  | Seq l r => forked f (λ n w, seq_plan (plan l f n w) (plan r f)) n w
  | Back c => forked f (plan c f) n w
  end.
Fixpoint redirs_ok (t : cmd) : Prop :=
  match t with
  | Exec _ => True
  | Redir c _ _ fd => (fd = 0 ∨ fd = 1) ∧ redirs_ok c
  | Pipe l r | Seq l r => redirs_ok l ∧ redirs_ok r
  | Back c => redirs_ok c
  end.
Lemma simple_redirs_ok ts a r : simple ts a r → ∀ t, redirs_ok t → redirs_ok (foldl wrap t r).
Proof.
  induction 1 as [|w ts a r H IH|o m f w ts a r Ho H IH]; intros t Ht; [done|by apply IH|]. cbn [foldl]. apply IH. split; [|done].
  destruct o; try done; injection Ho as <- <-; auto.
Qed.
Lemma backs_redirs_ok n t : redirs_ok t → redirs_ok (backs n t).
Proof. intros Ht. by induction n. Qed.
Lemma grammar_redirs_ok : (∀ ts t, line ts t → redirs_ok t) ∧ (∀ ts t, pipe ts t → redirs_ok t) ∧ (∀ ts t, exec ts t → redirs_ok t).
Proof.
  apply grammar_ind; intros; try (split; by try apply backs_redirs_ok); [by apply backs_redirs_ok|done|by eapply simple_redirs_ok..].
Qed.

(** Only the three standard descriptors are open. *)
Definition std (a b c : file) : fds := <[0 := a]> (<[1 := b]> (<[2 := c]> ∅)).
Lemma std_dom f : dom f = {[0; 1; 2]} → ∃ a b c, f = std a b c.
Proof.
  intros Hf. assert (∀ i, i ∈ ({[0; 1; 2]} : gset Z) → is_Some (f !! i)) as Hin by (intros i Hi; apply elem_of_dom; by rewrite Hf).
  destruct (Hin 0 ltac:(set_solver)) as [a Ha], (Hin 1 ltac:(set_solver)) as [b Hb], (Hin 2 ltac:(set_solver)) as [c Hc]. exists a, b, c.
  apply map_eq. intros i. unfold std. destruct (decide (i = 0)) as [->|]; [by rewrite lookup_insert_eq|].
  destruct (decide (i = 1)) as [->|]; [by rewrite lookup_insert_ne, lookup_insert_eq by done|]. destruct (decide (i = 2)) as [->|]; [by rewrite lookup_insert_ne, lookup_insert_ne, lookup_insert_eq by done|].
  rewrite !lookup_insert_ne, lookup_empty by done. apply not_elem_of_dom. rewrite Hf. set_solver.
Qed.
Lemma insert_std_0 a b c x : <[0 := x]> (std a b c) = std x b c.
Proof. reflexivity. Qed.
Lemma insert_std_1 a b c x : <[1 := x]> (std a b c) = std a x c.
Proof. reflexivity. Qed.
Lemma run_fork1 k f n w : run (fork1 k) f n w =
  let '(ok, w) := k_fork K w in if ok then and_then (run (k 0) f n w) (run (k 1) f) else Some (complain f (bytes "fork"), n, w).
Proof. unfold fork1, panic_prog. cbn [run]. by destruct (k_fork K w) as [[|] w1]. Qed.
(** a fork whose parts do what the plan says *)
Lemma run_forked k f n w (g : nat → W → result) (g2 : nat → W → result) :
  (∀ m w, run (k 0) f m w = Some (g m w)) → (∀ m w, run (k 1) f m w = Some (g2 m w)) →
  run (fork1 k) f n w = Some (forked f (λ n w, seq_plan (g n w) g2) n w).
Proof.
  intros H1 H2. rewrite run_fork1. unfold forked, seq_plan. destruct (k_fork K w) as [[|] w1]; [|done]. rewrite H1. destruct (g n w1) as [[e1 n1] w2].
  cbn [and_then mbind option_bind]. rewrite H2. by destruct (g2 n1 w2) as [[e2 n2] w3].
Qed.
Lemma run_pipe k a b c n w : run (PPipe k) (std a b c) n w =
  let '(ok, w) := k_pipe K w in
  if ok then run (k (Some (3, 4))) (<[4 := PipeW n]> (<[3 := PipeR n]> (std a b c))) (S n) w else run (k None) (std a b c) n w.
Proof. cbn [run]. destruct (k_pipe K w) as [[|] w1]; reflexivity. Qed.
Lemma run_left p a b c n m w : run (PClose 1 (PDup 4 (λ _, PClose 3 (PClose 4 p)))) (<[4 := PipeW n]> (<[3 := PipeR n]> (std a b c))) m w = run p (std a (PipeW n) c) m w.
Proof. reflexivity. Qed.
Lemma run_right p a b c n m w : run (PClose 0 (PDup 3 (λ _, PClose 3 (PClose 4 p)))) (<[4 := PipeW n]> (<[3 := PipeR n]> (std a b c))) m w = run p (std (PipeR n) b c) m w.
Proof. reflexivity. Qed.
Lemma run_redir fd name m k a b c n w : fd = 0 ∨ fd = 1 → run (PClose fd (POpen name m k)) (std a b c) n w =
  let '(ok, w) := k_open K name m w in
  if ok then run (k fd) (<[fd := OnDisk name m]> (std a b c)) n w else run (k (-1)) (delete fd (std a b c)) n w.
Proof. intros [-> | ->]; cbn [run]; destruct (k_open K name m w) as [[|] w1]; reflexivity. Qed.
Lemma insert_std fd a b c x : fd = 0 ∨ fd = 1 → ∃ a' b', <[fd := x]> (std a b c) = std a' b' c.
Proof. intros [-> | ->]; [by exists x, b|by exists a, x]. Qed.
Lemma strs_args b a (argv eargv : list ptr) : argv !! length a = Some null →
  (∀ k w, a !! k = Some w → ∃ q e, argv !! k = Some (Some q) ∧ eargv !! k = Some (Some e) ∧ string_at b q e w) → strs b argv = a.
Proof.
  revert argv eargv. induction a as [|w a IH]; intros argv eargv Hn Ha.
  - by destruct argv as [|[q|] argv].
  - destruct (Ha O w eq_refl) as (q & e & Hq & He & Hw). destruct argv as [|o argv]; [done|]. injection Hq as ->. cbn [strs]. f_equal; [exact Hw|].
    apply (IH argv (tail eargv)); [done|]. intros k v Hk. destruct (Ha (S k) v Hk) as (q' & e' & ? & ? & ?). exists q', e'. by destruct eargv.
Qed.
Lemma seq_plan_nil (g : nat → W → result) f n w : forked f (λ n w, seq_plan (g n w) (λ n w, ([], n, w))) n w = forked f g n w.
Proof. unfold forked, seq_plan. destruct (k_fork K w) as [[|] w1]; [|done]. destruct (g n w1) as [[e1 n1] w2]. by rewrite app_nil_r. Qed.
(** ** runcmd does what the command means *)
Lemma run_runcmd buf h i t : repr (string_at buf) h i t → redirs_ok t → ∀ fuel a b c n w, (i < fuel)%nat →
  run (runcmd fuel buf h (Some i)) (std a b c) n w = Some (plan t (std a b c) n w).
Proof.
  induction 1 as [i argv eargv l Hi (_ & _ & Ha) Hn|i j q e m fd t s Hi Hj Hw Hc IH|i j k l r Hi Hj Hk Hl IHl Hr IHr|i j k l r Hi Hj Hk Hl IHl Hr IHr|i j t Hi Hj Hc IH];
    intros Hok [|fuel] a b c n w Hf; try lia; cbn [runcmd]; rewrite Hi.
  - pose proof (strs_args buf l argv eargv Hn Ha) as Hs. destruct argv as [|[q|] argv]; [done| |].
    + rewrite Hs. cbn [strs] in Hs. subst l. cbn [run plan]. destruct (k_exec K _ _ w) as [[|] w1]; [done|].
      cbn [and_then mbind option_bind]. unfold complain. by rewrite !app_nil_r, <- !app_assoc.
    + cbn [strs] in Hs. by subst l.
  - destruct Hok as [Hfd Hok]. unfold string_at in Hw. unfold str. rewrite Hw, run_redir by done. cbn [plan]. destruct (k_open K s m w) as [[|] w1].
    + destruct (insert_std fd a b c (OnDisk s m) Hfd) as (a' & b' & ->). replace (fd <? 0) with false by (symmetry; apply Z.ltb_ge; lia). apply IH; [done|lia].
    + cbn [Z.ltb Z.compare run and_then mbind option_bind]. unfold complain. rewrite !app_nil_r, <- !app_assoc. by destruct Hfd as [-> | ->].
  - destruct Hok as [Hok1 Hok2]. rewrite run_pipe. cbn [plan]. destruct (k_pipe K w) as [[|] w1]; [|done]. set (f := <[4 := PipeW n]> (<[3 := PipeR n]> (std a b c))).
    rewrite (run_forked _ _ _ _ (plan l (std a (PipeW n) c)) (forked (std a b c) (plan r (std (PipeR n) b c)))); [done|..]; intros m w2; cbn [Z.eqb Pos.eqb].
    + unfold f. rewrite run_left. apply IHl; [done|lia].
    + rewrite (run_forked _ _ _ _ (plan r (std (PipeR n) b c)) (λ n w, ([], n, w))); [rewrite seq_plan_nil; reflexivity|..]; intros m' w3; cbn [Z.eqb Pos.eqb].
      * unfold f. rewrite run_right. apply IHr; [done|lia].
      * reflexivity.
  - destruct Hok as [Hok1 Hok2]. apply run_forked; intros m w1; cbn [Z.eqb Pos.eqb run]; [apply IHl|apply IHr]; (done || lia).
  - cbn [plan]. rewrite <- seq_plan_nil. apply run_forked; intros m w1; cbn [Z.eqb Pos.eqb run]; [apply IH; (done || lia)|done].
Qed.

(** No program gets an end of a pipe that is not its input or output. *)
Definition std_files (e : event) : Prop := match e with Start _ _ g => dom g = {[0; 1; 2]} | _ => True end.
Definition all_std (r : result) : Prop := Forall std_files r.1.1.
Lemma std_is a b c : dom (std a b c) = {[0; 1; 2]}.
Proof. unfold std. set_solver. Qed.
Lemma complain_std f msg n w : all_std (complain f msg, n, w).
Proof. by repeat constructor. Qed.
Lemma forked_std f g n w : (∀ n w, all_std (g n w)) → all_std (forked f g n w).
Proof. intros Hg. unfold forked. destruct (k_fork K w) as [[|] w1]; [apply Hg|apply complain_std]. Qed.
Lemma seq_std r g : all_std r → (∀ n w, all_std (g n w)) → all_std (seq_plan r g).
Proof. destruct r as [[e1 n1] w1]. intros H1 Hg. unfold seq_plan. specialize (Hg n1 w1). destruct (g n1 w1) as [[e2 n2] w2]. by apply Forall_app_2. Qed.
Lemma plan_std t : redirs_ok t → ∀ a b c n w, all_std (plan t (std a b c) n w).
Proof.
  induction t as [[|x l]|t IH file m fd|l IHl r IHr|l IHl r IHr|t IH]; intros Hok a b c n w; cbn [plan].
  - constructor.
  - destruct (k_exec K x (x :: l) w) as [[|] w1]; [|apply complain_std]. constructor; [apply std_is|constructor].
  - destruct Hok as [Hfd Hok]. destruct (k_open K file m w) as [[|] w1]; [|apply complain_std].
    destruct (insert_std fd a b c (OnDisk file m) Hfd) as (a' & b' & ->). by apply IH.
  - destruct Hok as [Hl Hr]. destruct (k_pipe K w) as [[|] w1]; [|apply complain_std]. rewrite insert_std_0, insert_std_1.
    apply forked_std. intros m w2. apply seq_std; [by apply IHl|]. intros. apply forked_std. intros. by apply IHr.
  - destruct Hok as [Hl Hr]. apply forked_std. intros m w2. apply seq_std; [by apply IHl|]. intros. by apply IHr.
  - apply forked_std. intros. by apply IH.
Qed.
Lemma run_open_ok name m k f n w fd : fdalloc f = fd → 0 <= fd → (k_open K name m w).1 = true →
  run (POpen name m k) f n w = run (k fd) (<[fd := OnDisk name m]> f) n (k_open K name m w).2.
Proof. intros <- Hfd Hok. cbn [run]. destruct (k_open K name m w) as [ok w1]. cbn [fst snd] in *. subst ok. by rewrite (proj2 (Z.ltb_ge _ _) Hfd). Qed.
(** main leaves the first three descriptors open, and no other. *)
Lemma run_open_console k f n w : dom f ⊆ {[0; 1; 2]} → (dom f = {[0; 1; 2]} ∨ ∀ w, (k_open K (bytes "console") O_RDWR w).1 = true) →
  ∃ f' w', f ⊆ f' ∧ dom f' = {[0; 1; 2]} ∧ run (open_console 4 k) f n w = run k f' n w'.
Proof.
  intros Hf [E|Ho].
  - apply std_dom in E as (a & b & c & ->). exists (std a b c). cbn [open_console run]. destruct (k_open K _ _ w) as [[|] w1]; exists w1; (split; [done|split; [apply std_is|reflexivity]]).
  - assert (∃ a b c, f = partial_alter (λ _, a) 0 (partial_alter (λ _, b) 1 (partial_alter (λ _, c) 2 ∅))) as (a & b & c & ->).
    { exists (f !! 0), (f !! 1), (f !! 2). apply map_eq. intros i. destruct (decide (i = 0)) as [->|]; [by rewrite lookup_partial_alter_eq|].
      rewrite lookup_partial_alter_ne by done. destruct (decide (i = 1)) as [->|]; [by rewrite lookup_partial_alter_eq|].
      rewrite lookup_partial_alter_ne by done. destruct (decide (i = 2)) as [->|]; [by rewrite lookup_partial_alter_eq|].
      rewrite lookup_partial_alter_ne by done. rewrite lookup_empty. apply not_elem_of_dom. intros Hi%Hf. set_solver. }
    clear Hf. set (con := OnDisk (bytes "console") O_RDWR). exists (std (default con a) (default con b) (default con c)).
    assert (∃ w', run (open_console 4 k) (partial_alter (λ _, a) 0 (partial_alter (λ _, b) 1 (partial_alter (λ _, c) 2 ∅))) n w = run k (std (default con a) (default con b) (default con c)) n w') as [w' Hw'].
    { destruct a, b, c; cbn [open_console];
        repeat (erewrite run_open_ok; [|vm_compute; reflexivity|lia|apply Ho]; cbn [Z.ltb Z.leb Z.compare Pos.compare Pos.compare_cont]); eexists; reflexivity. }
    exists w'. split; [|split; [apply std_is|exact Hw']]. apply map_subseteq_spec. intros i x. unfold std.
    destruct (decide (i = 0)) as [->|]; [rewrite lookup_partial_alter_eq, lookup_insert_eq; by intros ->|].
    rewrite lookup_partial_alter_ne, lookup_insert_ne by done. destruct (decide (i = 1)) as [->|]; [rewrite lookup_partial_alter_eq, lookup_insert_eq; by intros ->|].
    rewrite lookup_partial_alter_ne, lookup_insert_ne by done. destruct (decide (i = 2)) as [->|]; [rewrite lookup_partial_alter_eq, lookup_insert_eq; by intros ->|].
    by rewrite lookup_partial_alter_ne, lookup_empty by done.
Qed.
(** ** A session *)
(** How gets cuts the input: after a newline, a carriage return, or when the buffer is full; [k] characters still fit behind the next. *)
Fixpoint pieces (k : nat) (input : list Z) : list (list Z) :=
  match input with
  | [] => []
  | c :: input =>
      if (c =? 10) || (c =? 13) || (k =? 0)%nat then [c] :: pieces (BUFSIZE - 2) input
      else match pieces (pred k) input with p :: ps => (c :: p) :: ps | [] => [[c]] end
  end.
Definition lines : list Z → list (list Z) := pieces (BUFSIZE - 2).
Definition cd : list Z := bytes "cd ".
Definition prompt (f : fds) : event := Say (f !! 2) (bytes "$ ").
(** What the shell does with the pieces of its input, in which it sees the characters before the first NUL: [obeys ps f n w es n' w'] when
    with the files [f] it makes [es] happen and brings the kernel from [w] to [w']. *)
Inductive obeys (f : fds) : list (list Z) → nat → W → list event → nat → W → Prop :=
| ob_end ps n w : default [] (c_str <$> head ps) = [] → obeys f ps n w [prompt f] n w
| ob_cd p ps r dir ok n w w1 es n' w' : c_str p = cd ++ r → dir = take (length r - 1) r → k_chdir K dir w = (ok, w1) → obeys f ps n w1 es n' w' →
    obeys f (p :: ps) n w (prompt f :: Chdir dir :: (if ok then [] else complain f (bytes "cannot cd " ++ dir)) ++ es) n' w'
| ob_nofork p ps n w w1 : c_str p ≠ [] → ¬ cd `prefix_of` c_str p → k_fork K w = (false, w1) →
    obeys f (p :: ps) n w (prompt f :: complain f (bytes "fork")) n w1
| ob_command p ps t n w w1 e1 n1 w2 es n' w' : c_str p ≠ [] → ¬ cd `prefix_of` c_str p → k_fork K w = (true, w1) →
    line (lex (c_str p)) t → plan t f n w1 = (e1, n1, w2) → obeys f ps n1 w2 es n' w' → obeys f (p :: ps) n w (prompt f :: e1 ++ es) n' w'
| ob_error p ps msg n w w1 es n' w' : c_str p ≠ [] → ¬ cd `prefix_of` c_str p → k_fork K w = (true, w1) →
    (∀ t, ¬ line (lex (c_str p)) t) → obeys f ps n w1 es n' w' → obeys f (p :: ps) n w (prompt f :: complain f msg ++ es) n' w'.

Lemma ugets_pieces k l : let '(p, rest) := ugets (S k) l in
  pieces k l = (match l with [] => [] | _ => p :: lines rest end) ∧ (length p <= S k)%nat ∧ (length rest + length p = length l)%nat ∧ (l ≠ [] → p ≠ []).
Proof.
  revert k. induction l as [|c l IH]; intros k; [cbn; by split_and!; try lia|]. cbn [ugets pieces]. destruct ((c =? 10) || (c =? 13)); cbn [orb].
  - cbn [length]. split; [done|]. split; [lia|]. split; [lia|done].
  - destruct k as [|k]; cbn [Nat.eqb Nat.pred]; [split; [reflexivity|]; cbn [length]; split; [lia|split; [lia|done]]|]. specialize (IH k). destruct (ugets (S k) l) as [p rest]. destruct IH as (E & H1 & H2 & H3).
    rewrite E. cbn [length]. split; [|split; [lia|split; [lia|done]]]. destruct l; [|done]. destruct p, rest; cbn [length] in H2; (done || lia).
Qed.
(** The buffer holds the string and a NUL. *)
Lemma padded l k : ∃ r, l ++ replicate (S k) 0 = c_str l ++ 0 :: r.
Proof.
  induction l as [|c l [r IH]]; [by exists (replicate k 0)|]. cbn [app c_str]. destruct (Z.eqb_spec c 0) as [->|].
  - by eexists.
  - exists r. cbn [app]. by rewrite <- IH.
Qed.
Lemma c_str_nonzero l : Forall (λ c, c ≠ 0) (c_str l).
Proof. induction l as [|c l IH]; cbn [c_str]; [constructor|]. destruct (Z.eqb_spec c 0); constructor; done. Qed.
Lemma c_str_length l : (length (c_str l) <= length l)%nat.
Proof. induction l as [|c l IH]; cbn [c_str]; [done|]. destruct (c =? 0); cbn [length]; lia. Qed.
Definition starts_cd (buf : list Z) : bool :=
  (default 0 (buf !! 0%nat) =? 99) && (default 0 (buf !! 1%nat) =? 100) && (default 0 (buf !! 2%nat) =? 32).
Lemma starts_cd_spec s r : starts_cd (s ++ 0 :: r) = bool_decide (cd `prefix_of` s).
Proof.
  destruct (bool_decide (cd `prefix_of` s)) eqn:E.
  - apply bool_decide_eq_true in E as [r' ->]. done.
  - apply bool_decide_eq_false in E. apply not_true_is_false. intros H. apply E. unfold starts_cd in H.
    apply andb_true_iff in H as [[H0%Z.eqb_eq H1%Z.eqb_eq]%andb_true_iff H2%Z.eqb_eq].
    destruct s as [|x [|y [|z s]]]; cbn in H0, H1, H2; try lia. subst. by exists s.
Qed.
(** the directory of a cd line *)
Lemma chopped r j : Forall (λ c, c ≠ 0) r → c_str (drop 3 (<[(length (cd ++ r) - 1)%nat := 0]> ((cd ++ r) ++ 0 :: j))) = take (length r - 1) r.
Proof.
  intros Hr. destruct r as [|c r' _] using rev_ind; [done|]. apply Forall_app in Hr as [Hr _].
  rewrite !length_app. cbn [length cd bytes]. replace (3 + (length r' + 1) - 1)%nat with (length (cd ++ r') + 0)%nat by (rewrite length_app; cbn [length cd bytes]; lia).
  rewrite (app_assoc cd), <- !(app_assoc (cd ++ r')), insert_app_r. cbn [app cd bytes drop insert list_insert]. rewrite drop_0, c_str_nul by done.
  replace (length r' + 1 - 1)%nat with (length r' + 0)%nat by lia. by rewrite take_app_add, app_nil_r.
Qed.
Lemma run_child malloc s r f n w : Forall (λ c, c ≠ 0) s → (2 * length s + 1 <= malloc)%nat → dom f = {[0; 1; 2]} →
  (∃ t, line (lex s) t ∧ run (child malloc (s ++ 0 :: r)) f n w = Some (plan t f n w) ∧ all_std (plan t f n w)) ∨
  (∃ msg, (∀ t, ¬ line (lex s) t) ∧ run (child malloc (s ++ 0 :: r)) f n w = Some (complain f msg, n, w)).
Proof.
  intros Hs Hm (a & b & c & ->)%std_dom. pose proof (parsecmd_spec s r Hs malloc Hm) as Hp. set (fuel := (4 * length s + 4)%nat) in *.
  assert (∀ t, ref_parse fuel (lex s) = Some t ↔ line (lex s) t) as Hg.
  { intros t. apply ref_parse_line. unfold fuel. pose proof (lex_length s). lia. }
  unfold child. destruct (ref_parse fuel (lex s)) as [t|].
  - left. apply wp_returns in Hp as (p & st & -> & i & -> & Hr). pose proof (proj1 (Hg t) eq_refl) as Ht.
    pose proof (proj1 grammar_redirs_ok _ _ Ht) as Hok. exists t. split; [done|]. split; [|by apply plan_std].
    eapply run_runcmd; [exact Hr|exact Hok|]. apply repr_lt in Hr. lia.
  - right. destruct Hp as [msg ->]. exists (bytes msg). split; [|done]. by intros t Ht%Hg.
Qed.
(** One line and the rest: the loop obeys the lines if the rest of it does. *)
Lemma run_line malloc p k next ps f n w : p ≠ [] → c_str p ≠ [] → (2 * length p + 1 <= malloc)%nat → dom f = {[0; 1; 2]} →
  (∀ n w, ∃ es n' w', run next f n w = Some (es, n', w') ∧ obeys f ps n w es n' w' ∧ Forall std_files es) →
  ∃ es n' w', and_then (Some ([prompt f], n, w)) (run (do_line malloc (p ++ replicate (S k) 0) next) f) = Some (es, n', w') ∧
    obeys f (p :: ps) n w es n' w' ∧ Forall std_files es.
Proof.
  intros Hp Hs Hm Hf Hnext. destruct (padded p k) as [r Hr]. rewrite Hr. pose proof (c_str_nonzero p) as Hnz. pose proof (c_str_length p) as Hlen.
  pose proof (starts_cd_spec (c_str p) r) as Hcd. unfold do_line. fold (starts_cd (c_str p ++ 0 :: r)). rewrite Hcd. clear Hcd. rewrite c_str_nul by done. case_bool_decide as Hcd.
  - destruct Hcd as [d E]. rewrite E in *. rewrite chopped by (by apply Forall_app in Hnz as [_ Hnz]). set (dir := take (length d - 1) d).
    cbn [and_then mbind option_bind run]. destruct (k_chdir K dir w) as [ok w1] eqn:Ec. destruct (Hnext n w1) as (es & n' & w' & Hrun & Hob & Hst).
    exists (prompt f :: Chdir dir :: (if ok then [] else complain f (bytes "cannot cd " ++ dir)) ++ es), n', w'.
    split; [|split; [by econstructor|destruct ok; by repeat constructor]].
    destruct ok; cbn [Z.ltb Z.compare run and_then mbind option_bind]; rewrite Hrun; cbn [mbind option_bind app complain]; by rewrite <- ?app_assoc.
  - cbn [and_then mbind option_bind]. rewrite run_fork1. destruct (k_fork K w) as [[|] w1] eqn:Ek.
    + cbn [Z.eqb Pos.eqb run].
      destruct (run_child malloc (c_str p) r f n w1 Hnz ltac:(lia) Hf) as [(t & Ht & -> & Hstd)|(msg & Hno & ->)].
      * destruct (plan t f n w1) as [[e1 n1] w2] eqn:Epl. destruct (Hnext n1 w2) as (es & n' & w' & Hrun & Hob & Hst).
        exists (prompt f :: e1 ++ es), n', w'. cbn [and_then mbind option_bind]. rewrite Hrun. split; [done|]. split; [by eapply ob_command|].
        constructor; [done|]. by apply Forall_app_2.
      * destruct (Hnext n w1) as (es & n' & w' & Hrun & Hob & Hst). exists (prompt f :: complain f msg ++ es), n', w'. cbn [and_then mbind option_bind]. rewrite Hrun.
        split; [done|]. split; [by eapply ob_error|]. by repeat constructor.
    + exists (prompt f :: complain f (bytes "fork")), n, w1. split; [done|]. split; [by apply ob_nofork|]. by repeat constructor.
Qed.
Lemma run_main_loop malloc f fuel input n w : dom f = {[0; 1; 2]} → (199 <= malloc)%nat → (length input < fuel)%nat →
  ∃ es n' w', run (main_loop fuel malloc input) f n w = Some (es, n', w') ∧ obeys f (lines input) n w es n' w' ∧ Forall std_files es.
Proof.
  intros Hf Hm. revert input n w. induction fuel as [|fuel IH]; intros input n w Hlt; [lia|]. cbn [main_loop]. unfold getcmd.
  change (BUFSIZE - 1)%nat with (S (BUFSIZE - 2)). pose proof (ugets_pieces (BUFSIZE - 2) input) as H. destruct (ugets (S (BUFSIZE - 2)) input) as [p rest].
  destruct H as (E & Hlen & Hsum & Hne). unfold lines at 1. rewrite E. clear E. cbn [run]. change (Say (f !! 2) (bytes "$ ")) with (prompt f).
  destruct input as [|c input].
  { destruct p as [|d p]; [|cbn [length] in Hsum; lia]. exists [prompt f], n, w. split; [done|]. split; [by apply ob_end|by repeat constructor]. }
  specialize (Hne ltac:(done)). destruct p as [|d p]; [done|]. cbn [app head default from_option id]. destruct (Z.eqb_spec d 0) as [->|Hd].
  { exists [prompt f], n, w. split; [done|]. split; [by apply ob_end|by repeat constructor]. }
  replace (BUFSIZE - length (d :: p))%nat with (S (BUFSIZE - 1 - length (d :: p))) by (unfold BUFSIZE in *; lia).
  apply (run_line malloc (d :: p)); [done|cbn [c_str]; by rewrite (proj2 (Z.eqb_neq _ _) Hd)|unfold BUFSIZE in Hlen; lia|done|].
  intros n1 w1. apply IH. cbn [length] in *. lia.
Qed.
(** C40: What the shell does with its input, which is what its own reads return, from the characters to the processes.  gets cuts the
    input into pieces of at most 99 characters; the shell runs until one is empty, and for each prints its prompt and then, if the piece begins with cd, changes its own
    directory to what is left without the last character, or says that it cannot; otherwise a child starts exactly the programs of the
    one command that the grammar finds in the piece, each with its standard input and output where the pipes and redirections say and
    with no other descriptor open, or prints an error when the piece is not a command.  Each of the calls may fail at any
    time: a program that is not started, a file that is not opened and a pipe or process that there is no room for is
    complained about and ends the process that wanted it, which is the shell itself when it cannot have a child.  This is for every input
    and every kernel, if the shell is started with no descriptor but the first three, can open the console for those
    that it lacks, and a child that parses a line gets memory for its nodes. *)
Theorem shell_session (malloc : nat) (input : list Z) (f : fds) (n : nat) (w : W) :
  dom f ⊆ {[0; 1; 2]} → (dom f = {[0; 1; 2]} ∨ ∀ w, (k_open K (bytes "console") O_RDWR w).1 = true) → (199 <= malloc)%nat →
  ∃ f' w0 es n' w', f ⊆ f' ∧ dom f' = {[0; 1; 2]} ∧ run (main malloc input) f n w = Some (es, n', w') ∧ obeys f' (lines input) n w0 es n' w' ∧
    ∀ path argv g, Start path argv g ∈ es → dom g = {[0; 1; 2]}.
Proof.
  intros Hf Ho Hm. destruct (run_open_console (main_loop (S (length input)) malloc input) f n w Hf Ho) as (f' & w0 & Hsub & Hd & E).
  destruct (run_main_loop malloc f' (S (length input)) input n w0 Hd Hm ltac:(lia)) as (es & n' & w' & Hrun & Hob & Hst).
  exists f', w0, es, n', w'. split; [done|]. split; [done|]. split; [unfold main; by rewrite E|]. split; [done|].
  intros path argv g Hg. rewrite Forall_forall in Hst. exact (Hst _ Hg).
Qed.
End os.

(** A kernel that counts the calls: there is no process for the right end of the first pipe, and no program cat. *)
Definition counting : kernel nat := Kernel (λ w, (negb (w =? 12)%nat, S w)) (λ w, (true, S w)) (λ _ _ w, (true, S w))
  (λ path _ w, (negb (bool_decide (path = bytes "cat")), S w)) (λ _ w, (true, S w)).
Definition script : list Z := bytes "cd /" ++ [10] ++ bytes "cat <f" ++ [10] ++ bytes "ls | wc >g" ++ [10] ++ bytes "ls <".
Definition term : file := OnDisk (bytes "console") O_RDWR.
Definition script_events : list event :=
  let say s := Say (Some term) s in
  [say (bytes "$ "); Chdir (bytes "/");
   say (bytes "$ "); say (bytes "exec cat failed" ++ [10]);
   say (bytes "$ "); Start (bytes "ls") [bytes "ls"] (std term (PipeW 7) term); say (bytes "fork" ++ [10]);
   say (bytes "$ "); say (bytes "missing file for redirection" ++ [10]);
   say (bytes "$ ")].
Lemma shell_session_witness : ∃ f w0 n' w', run counting (main 200 script) ∅ 7 0%nat = Some (script_events, n', w') ∧ obeys counting f (lines script) 7 w0 script_events n' w' ∧
  dom f = {[0; 1; 2]} ∧ lines script = [bytes "cd /" ++ [10]; bytes "cat <f" ++ [10]; bytes "ls | wc >g" ++ [10]; bytes "ls <"].
Proof.
  destruct (shell_session counting 200 script ∅ 7 0%nat ltac:(set_solver) ltac:(by right) ltac:(lia)) as (f & w0 & es & n' & w' & _ & Hd & Hrun & Hob & _).
  assert (es = script_events) as ->.
  { assert (option_map (λ r, r.1.1) (run counting (main 200 script) ∅ 7 0%nat) = Some script_events) as E by (vm_compute; reflexivity). rewrite Hrun in E. by injection E. }
  exists f, w0, n', w'. split; [exact Hrun|]. split; [exact Hob|]. split; [exact Hd|reflexivity].
Defined.
(** The last character of a line that is not ended by a newline is lost. *)
Lemma cd_without_newline : ∃ k, do_line 10 (bytes "cd ab" ++ replicate 95 0) PExit = PChdir (bytes "a") k.
Proof. eexists. vm_compute. reflexivity. Qed.
(** Appending is the same as writing from the beginning. *)
Lemma append_is_write : redir_of GtGt = redir_of Gt.
Proof. reflexivity. Qed.
